(* ===== verification/_CoqProject ===== *)
-Q . S2P
Prelude.v
Bytes.v
GoStrings.v
Base64.v
GoValue.v
Utf8.v
Json.v
Jwt.v
SdJwt.v
SdJwtVerify.v
SdJwtIssue.v
SdJwtTree.v
SdJwtRoundTrip.v
SdJwtBuild.v
SdJwtEndToEnd.v
SdJwtWitness.v
JsonDoc.v
JsonNumber.v
Dcql.v
DcqlWire.v
DcqlReload.v
DcqlWitness.v
ZkpReqFormat.v
TokenStatusList.v
TokenStatusListCWT.v
Cose.v
MdocSchema.v
Mdoc.v
MdocVerify.v
MdocDevice.v
MdocBinding.v
MdocWitness.v
MdocEngagement.v
MdocSession.v
GenericCache.v
StatusRegistry.v
StatusCache.v
Revocation.v
StatusEndToEnd.v
SExp.v
Spocp.v
IssuancePolicy.v
EndpointAuth.v
ClaimPaths.v
Derivations.v
AuxiliaryData.v
ClaimsWitness.v
VpToken.v
RevocationWitness.v
AuthContext.v
AuthStore.v
AuthStoreSteps.v
AuthStoreGrants.v
AuthStoreWitness.v
OAuth2.v
IssuerClient.v
Handlers.v
HandlersSafety.v
TokenEndpoint.v
TokenSafety.v
RefreshSafety.v
TokenGrant.v
TokenWitness.v
KeyProofs.v
PresentationDoc.v
PresentedClaims.v
PresentedClaimsFacts.v
CredentialRequest.v
CredentialEndpoint.v
PresentationFlow.v
PresentationSafety.v
CredentialSafety.v
CredentialWitness.v
PresentationWitness.v
IssuanceRequest.v
ChallengeEndpoint.v
IssuancePreparation.v
IssuanceRequestFacts.v
ChallengeSafety.v
ChallengeWitness.v
