(* ===== verification/Prelude.v ===== *)
(** * SUNET/vc: a verification development

    The program issues and verifies digital credentials.  Its services are an
    API gateway that runs the OAuth 2.0 and OpenID4VCI flows ([internal/apigw]),
    an issuer that signs credentials ([internal/issuer]), a verifier
    ([internal/verifier]) and a registry that publishes the revocation status
    of every credential ([internal/registry]).  They share the packages under
    [pkg/].  This library models the parts that carry the security-relevant
    state and wire formats, and proves what they promise each other.

    ** The parts and the files

    - SD-JWT credentials.  The issuer replaces claims by digests, signs the
      rest and hands the claims out as disclosures; a holder presents some of
      them; a verifier puts those back.  [SdJwt] models the disclosures, the
      digests and the two resolvers of [pkg/sdjwtvc] ([types.go],
      [verification.go], [utils.go]); [SdJwtVerify] the verification of a
      presentation and of its key binding ([verification.go],
      [keybinding_verify.go], [openid4vp_handler.go]); [SdJwtIssue] the
      making of a credential ([MakeCredential] of [methods.go]); [SdJwtBuild]
      the validation against the type metadata ([validation.go]) and
      [BuildCredentialWithSigner].  [SdJwtTree] and [SdJwtRoundTrip] prove
      what the issued tree stands for, [SdJwtEndToEnd] composes issuer,
      holder and verifier.  [Jwt] models the signing and parsing of
      golang-jwt (vendored) that they call, [Json] the trees.
    - Credential queries.  A verifier asks a wallet for credentials with a
      query in JSON, which it decodes, validates, stores and sends; a query it
      cannot hold in its types is sent as it came.  [JsonDoc] models JSON
      documents with repeated names, and decoding into Go variables;
      [JsonNumber] number literals; [Dcql] models [pkg/openid4vp/dcql.go] and
      what it uses of [dcql_zk.go] and [zkp_req.go]; [ZkpReqFormat] the
      circuit filters of the client metadata.  [DcqlWire] proves what a wallet
      reads, [DcqlReload] what survives storage.
    - Status publication.  The registry keeps one slot per credential in a
      database collection, rebuilds a signed status list token from it and
      serves it from a cache; a verifier fetches the token and reads one slot.
      [TokenStatusList] and [TokenStatusListCWT] model [pkg/tokenstatuslist]
      ([types.go], [jwt.go], [cwt.go]): the list, its codec and its two signed
      forms.  [StatusRegistry] models [internal/registry/db] and the
      allocation half of [tokenstatuslistissuer/methods.go].  [StatusCache]
      models [tokenstatuslistissuer/service.go]: token generation, the cache
      and the coalesced background refreshes.
    - Revocation checking.  [Revocation] models [pkg/revocation]: the status
      list checker, the registry of checkers and the CRL checker.
      [StatusEndToEnd] composes the registry, the refresh and the checker.
    - COSE.  [Cose] models [pkg/mdoc/cose.go], the COSE_Sign1 and COSE_Mac0
      messages and keys that the mobile documents and the checker rest on.
    - Mobile documents.  The issuer puts salted elements under digests in a
      signed security object; a holder discloses some of them and signs the
      session with the device key in that object; a verifier checks both.
      [MdocSchema] models the schemas and the conversion of values
      ([pkg/mdoc/schema.go], [issuer.go]); [Mdoc] the security object, issuing,
      disclosure and verification ([mso.go], [issuer.go],
      [selective_disclosure.go], [verifier.go]); [MdocDevice] what a device
      signs, the session transcripts, the response and the handler that
      extracts claims ([device_auth.go], [device_auth_bytes.go],
      [session_transcript.go], [openid4vp_handler.go]).  [MdocVerify] proves
      what a valid document says, [MdocBinding] what ties it to a session, and
      composes issuer, holder and verifier.  [MdocEngagement] models what a
      device shows to start a session in proximity and the code it is scanned
      from, [MdocSession] the key derivation and the encrypted messages
      ([engagement.go]), as a channel between two parties.
    - Authorization contexts.  The OAuth flows keep one document per session,
      found by session id or by any of ten indexed handles, some of which may
      be used once only.  [AuthContext] models the document
      ([pkg/cache/authcontext_types.go], [issuer_state_resume.go]);
      [AuthStore] every operation of [MemoryStore]
      ([pkg/cache/authcontext.go]) over a heap of shared documents;
      [AuthStoreSteps] the store as a state machine with the one-shot
      guarantees; [AuthStoreGrants] codes, their attempt and redemption
      budgets, and lifetimes.
    - OAuth endpoints.  A wallet pushes its request, is sent to the
      authorization endpoint and exchanges a code, a pre-authorized code or a
      refresh token for tokens bound to a key.  [GenericCache] models the
      in-memory cache and lock the endpoints share ([pkg/cache]); [OAuth2] the
      errors, PKCE, clients and redirect URIs, key proofs and client assertions
      of [pkg/oauth2]; [Handlers] handlers as programs whose calls to the stores
      interleave with other requests; [TokenEndpoint] the three endpoints
      ([internal/apigw/apiv1/handlers_oauth.go]).  [HandlersSafety] says what
      interleaved handlers keep and have done before a call, [TokenSafety] and [RefreshSafety] follow the
      token endpoint through every interleaving, [TokenGrant] one request alone.
    - Claim documents.  What a source says about a person is mapped to claims,
      derived claims are added, what the holder presented is kept, and only what
      the credential type declares is issued; hashes of secrets the wallet gets
      are written beside it.  [ClaimPaths] models claim paths, the attribute
      mapping, defaults, merging and the filter of [pkg/credential];
      [Derivations] its primitives and the loop that runs them, and
      [provedClaims] of [internal/apigw/apiv1/presented_claims.go];
      [AuxiliaryData] the openings and commitments
      ([pkg/credential/primitives/hash_commitment.go], [keyed_opening.go],
      [pkg/openid4vci/auxiliary_data.go], [internal/apigw/apiv1/auxiliary_data.go]).
    - The credential endpoint.  With its token a wallet asks for a credential
      and proves that it holds the keys; the gateway chooses the scope, makes the
      document, spends the nonce and calls the issuer.  [KeyProofs] models the
      three kinds of proof of [pkg/openid4vci] ([proof_jwt.go], [proof_divp.go],
      [proof_attestation.go], [verify_proof.go]), [CredentialRequest] the request
      and what it selects ([credential.go], and [pkg/bbs] for blind signatures),
      [PresentationDoc] the document made of a presented credential
      ([handlers_issuer_presentation.go]), [IssuerClient] the calls of the other services, and [CredentialEndpoint]
      [VCICredential] and [VCINonce] whole, as programs of [Handlers]
      ([handlers_issuer.go]).  [CredentialSafety] says, with the
      traces of [HandlersSafety], what a request has done before it calls the issuer.
    - Presentations during issuance.  A scope may take its claims, or the
      identity its documents are found by, from another credential that the
      holder presents to the gateway.  [VpToken] models the response
      ([pkg/openid4vp/response_parameters.go]), the checks of a presented
      token, its holder and its transactions ([validator.go],
      [ts12_response.go]) and the trust in its issuer
      ([pkg/trust/jwt_verifier.go]); [PresentedClaims] the claims that are
      required, copied and stored, with their dates and numbers
      ([presented_claims.go], [identity_match.go] and
      [handlers_verifier_presentation.go] of [internal/apigw/apiv1]);
      [PresentationFlow] the endpoint that receives the response
      ([handlers_verifier.go]) as a program of [Handlers].
      [PresentedClaimsFacts] proves what becomes of claims and values,
      [PresentationSafety] what the endpoint publishes.  [IssuanceRequest] models
      what the wallet is asked with: the query, the request object and its
      variants, the keys a response is encrypted to ([handlers_verifier.go],
      [client.go], [pkg/model/config.go], [pkg/openid4vp/response_mode.go]), and
      the origins in it ([pkg/openid4vp/origin.go]).
    - Interactive authorization.  Without a browser, a wallet opens an exchange or
      resumes an issuance that the issuer prepared for one person, is told what to
      present, and exchanges the presentation for an authorization code.
      [ChallengeEndpoint] models the endpoint
      ([internal/apigw/apiv1/handlers_oauth_challenge.go]) and the choice of a
      scope's provider ([internal/apigw/auth_providers/selector.go]),
      [IssuancePreparation] the preparation with its rule
      ([handlers_issuance_session.go], [pkg/openid4vci/identity_match.go]), both as
      programs of [Handlers].  [IssuanceRequestFacts] proves what is asked for,
      [ChallengeSafety] that handles are answered once and what a code rests on.
    - Issuance policy and endpoint authorization.  Both ask a rule engine
      whether an S-expression query falls under a configured rule.  [SExp]
      models the rule parser [pkg/spocputil/parser.go], [Spocp] the element
      order and the engine of go-spocp (vendored) and the rule checks of
      [pkg/spocputil], [IssuancePolicy] models [pkg/issuance/policy.go] and
      the dotted claim lookup of [pkg/credential], [EndpointAuth] the
      authorization middlewares of [pkg/httphelpers], the resource pairs they
      read from a request and the canonical-body check.
    - Shared: this file (results, machine integers, strings, tactics),
      [Bytes] ([big.Int] byte strings), [GoStrings] (splitting and joining),
      [Base64] (base64url), [GoValue] (dynamic values, [map[string]any], JSON
      numbers), [Utf8] (runes of a string, white space, trimming).
    - [SdJwtWitness], [DcqlWitness], [MdocWitness], [RevocationWitness],
      [ClaimsWitness], [AuthStoreWitness], [TokenWitness], [CredentialWitness],
      [PresentationWitness] and [ChallengeWitness] apply the theorems at concrete inputs; the other
      files carry their own.

    ** How code becomes definitions

    A Go function with an error result is a function into [result]; a method
    that changes state is a function from state to state and result, under the
    name it has in the source where that name is free.  Type switches on [any]
    are matches on [goval] (JSON) or [cval] (CBOR), which keep the dynamic
    types the code distinguishes.  Times are nanoseconds in [Z], durations
    likewise.  Integers are [Z]; where the code converts, truncates or
    compares with a machine bound, that is written out.  A panic is an error
    value of its own.  In [AuthStore] a pointer is a heap location, so that a
    document two callers share is one document.

    Code outside the repository is an interface: a class of operations and a
    class of laws that state its documented behaviour.  [Zlib] (compress and
    decompress round trip), [JSON] (the text of a tree decodes to it, up to
    the decoding of numbers), [Hashes], [Signatures] (what a key signed
    verifies under its public half), [SdEnv] (certificates, the reading of a
    JWK and the trust framework), [RawText] (the text of an array or object
    kept as a parameter), [Arch] (how a float64 outside the range of
    int64 converts), [JWTLib] (signing, signature and expiry checks of
    golang-jwt, for status lists), [CBOR] (round trip up to the decoding of
    types), [CoseCrypto], [CoseVerify] and [CoseSigner] (hashes and signatures), [MdocCBOR],
    [ResponseCBOR], [EngagementCBOR] and [CBORRaw] (the CBOR encoding of the
    structs of a mobile document and of an engagement, and of arrays with
    encoded items in them), [ECDH], [AESGCM] and [SHA256Laws] (key agreement,
    authenticated encryption, the size of a digest), [NetURL], [ProofParser]
    and [AssertionParser] (parsed URLs, verified key proofs and client
    assertions, without laws), [Text], [Countries], [LocalTime], [Entropy], [Keyed]
    and [DocJSON] (case folding, the table of countries, the local calendar, random
    draws, HKDF and HMAC with their secrets, the text of a document), [StructJSON]
    and [Times] (JSON into the structs of a key proof, durations and date-times,
    without laws but that a date-time has a date), [TxJSON], [NumberText], [FlowEnv]
    and [ContextViews] (transaction data, number literals, decryption and the
    fields peeked at, stored values; all without laws), [QueryValues] and
    [RuleValues] (a stored query or rule is read back as it was written), [NetAddr],
    [RequestEnv] and [ChallengeEnv] (parsed addresses, public halves of keys and
    signed requests, the header of a JWE; without laws), [Collection] and
    [MetaStore] (MongoDB: atomic single-document writes, unique index),
    [ttlcache] (in [AuthStore], from its documentation).  Every law class has
    an instance in the development.  The network, key resolution, random
    numbers and other replicas are arguments: theorems hold for whatever they
    answer within the stated laws.

    ** What the theorems show

    - One-shot guarantees of the store, along every run of its operations,
      evictions and writes through shared pointers: an [auth_session] handle
      and an [issuer_state] are claimed once, a refresh token rotates once.
    - Codes refine an abstract machine: forfeited once, at most five PIN
      attempts and ten redemptions, none twice by one client; exhaustion
      kills the code.  Saved documents are found under every index, deleted
      ones under none, and expiry is never shortened.
    - However token requests of every grant interleave with each other, with
      evictions and with other requests, a code is answered with a token at most
      once, whichever grant it is presented under, and so is a refresh token,
      that of a session whose code was exchanged or of a client of a
      pre-authorized code.  The other requests may read, change and write back
      the documents the store holds; excluded is that one writes a document back
      through a pointer the store has since replaced ([code_env], [refresh_env]).
      Alone, the answer to a code and the document afterwards are a function of
      the request, the proofs seen, the stored document and the random values:
      of the refusals only an expired code and a wrong verifier spend the code,
      and every failure after them leaves it spent.
      A redirect URI that passes the allowlist lies below one of its entries, and
      the targets of key proofs are compared up to the spelling of escapes.
      A key is set and a lock is taken by one caller at a time.
    - The gateway asks the issuer for a credential only on grounds: a fresh proof
      of the holder of the token, a scope of the token's session, a nonce that it
      took from its store, and a verified proof for whatever the credential is
      bound to.  A key proof is answered with credentials at most once, however
      requests interleave, and says what it should.
    - A presented credential that is accepted was signed by an issuer that is
      trusted, and by the holder it names, lately, for this verifier, request and
      presentation; it commits to every transaction that refers to it, and for a
      payment to two kinds of authentication.  The gateway stores exactly the
      claims a scope requires, each with the presented value, or names one that is
      missing or not allowed; numbers keep their value, and only values are stored
      that the issued document carries exactly; of an instant it takes the date of
      its day.  Whatever the endpoint publishes, in any interleaving, rests on
      such a presentation, of the type that was asked for, in line with the rule
      of the session and for the person it identifies, and what the page shows of
      it is made of the claims the scope requires.
    - However requests for interactive authorization interleave with each other and
      with the rest of the system, an [auth_session] is answered with a code at most
      once and an [issuer_state] with an exchange at most once.  A code is handed out
      only to the wallet whose key the exchange was opened with, and only on such a
      presentation, made for this exchange and signed for this endpoint by its
      holder.  The query it answers names exactly the credentials its scope accepts,
      constrains each by its type and asks for every claim that is read from it; a
      rule is accepted only when what it tests is asked for, and lives as long as
      was asked for; and the encryption that
      is accepted is the one the request advertises.
    - SD-JWT credentials round trip: a credential that was built, presented
      with any choice of its disclosures, is accepted under the issuer's key
      and shows part of the claims it was built from; with all of them, all
      of its claims; and a claim marked as always disclosable, elements of arrays
      included, is nowhere in the signed tree.  Whatever is accepted was vouched for: every disclosed
      value is the preimage of a digest that the signed claims reach, and a
      key-bound presentation was signed by the holder's key over this very
      credential and these disclosures, so it cannot be moved to another.
      A document is accepted for issuance exactly when every mandatory path
      of the type metadata resolves in it.
    - A validated credential query constrains what it asks for in the
      document that is sent, for every wallet that reads one of several
      members with the same name; it says the same on every node that loads
      it from storage, and the requests that strict decoding refuses reload as
      well.  A number in a query is an integer exactly when its value is one.
    - No status slot is handed out twice, however allocations, insertions and
      updates on any number of replicas interleave, database call by call; [Add]
      stores its status and disturbs no other entry; the cached token says
      what the collection says; a verifier acts on the status the operator
      set.
    - Codecs and messages round trip: status lists, their JWT and CWT forms,
      COSE messages over the wire, attached or detached, their certificate
      chains and keys.
    - Mobile documents round trip: what was issued, disclosed on request and
      signed for a session is what a verifier bound to that session extracts.
      A valid document is vouched for by a trusted certificate, element by
      element; a bound one carries the device's signature over this session,
      document type and namespaces, and transcripts of different sessions
      differ.  A conversion succeeds exactly on the values that its schema can
      hold, and gives the value it was given in the declared type.  An
      encrypted session refines a pair of queues, and whatever is on the wire
      can always be delivered; a code reads back to the engagement it shows.
    - No claim that a credential type does not declare passes the filter, and
      none that it declares is lost.  A presented claim is issued with the value
      that was presented, and an age with that of the presented date, whatever
      derivations write.  The openings sent with a credential open the
      commitments in it, and no two inputs of a derived opening encode alike.
    - Checkers fail closed: a status is always the byte of an authenticated
      list, a certificate is called valid only on an authenticated CRL.
    - The rule parser is total and reads back what it prints.  A credential
      is issued exactly when every claim of the query template is asserted
      and a configured rule admits their values; an engine without rules is
      never built.  A request that passes the middleware with a canonical body
      is authorized for the resource its handler will bind.
    - Where the code departs from its own comments or from what it is for,
      the departure is a theorem as well: a redeemed code outlives its time,
      an update in place leaves the old refresh token usable, a sparse or
      orphaned section stops allocation, a coalesced refresh loses an update,
      a CWT token is accepted after its expiry, an RSA-signed one never; an
      admin session whose subject no rule names, and a rule with a prefix for
      its source, get no query filter; an upload is authorized on one
      reading and bound on another; a mobile document issued with SHA-384 is
      refused, the upper bounds of integers are off by one, and the unbound
      verification, which the verifier service calls, ignores the device; a
      scanned code can make the reader panic, the key of an engagement is never
      read back, and a forged message puts a session out of step; a query that names its circuits in
      capitals is sent without them, and a raw query does not state the
      holder binding its channel requires; PINs tried at the same time are all
      compared before one is counted, and a token is promised for longer than
      the document behind it is kept; a list declared whole and in part is
      filtered to the part; an access token works past its time as long as
      it is used; and a rule on a claim that is asked for, but not to identify the
      person, is refused as one that is not.

    ** Bounds and recursion

    Seven recursions take fuel.  Putting disclosures back recurses into the
    disclosed values: fuel above the nesting depth of the claims is enough
    for an issued credential, which the round trip proves; without fuel the
    result is none, never a claim.  The search for anchored digests has one
    unit for every digest in sight, and [collectAnchoredHashes_spec] shows
    that this is enough.  The rule parser has twice the length of its
    input and two, and [parser_total] shows that no input exhausts it;
    decoding the runes of a string has its length in bytes, and each rune
    takes one at least; the filter by the schema of a mobile document has the depth
    of the schema.  The serializer of IPv6 addresses takes the number of pieces, one
    of which each round passes at least, and sixteen digits.  The retry loop of [Add] runs its three attempts and
    the decoy loop its fifty draws, which are constants of the source; every
    other recursion is structural over the list or the document that the code
    ranges over.  The size limits of the source (ten and sixteen megabyte
    downloads, the decompression limit) appear as its constants.

    ** What is not modelled

    The HTTP layer, the consent, offer and metadata endpoints and the identity
    providers, the encryption of responses, the MongoDB and Redis variants of the
    caches, the rate limiters, the YAML form of the query, the verifier service, W3C
    credentials, the reader, status and zero-knowledge parts of mobile documents,
    DIDComm, key loading and PKI, message brokers, logging, tracing, configuration,
    user interfaces and generated code.

    The order in which the rest would follow: the MongoDB store as a second
    implementation of the operations of [AuthStore], the verifier service over
    [Handlers], the DIDComm exchange as a state machine, and the in-memory
    broker. *)

From stdpp Require Export base tactics list strings gmap sets fin_maps.
From Stdlib Require Export ZArith Lia.
From Stdlib Require Export Ascii.

#[global] Open Scope string_scope.
#[global] Open Scope Z_scope.

(** ** Results

    A Go function with results [(A, error)] is a function into [result E A]:
    [Ok a] for a nil error, [Err e] otherwise.  The values Go returns beside a
    non-nil error are never read by the callers modelled here, so [Err]
    carries none. *)

Inductive result (E A : Type) : Type :=
| Ok (a : A)
| Err (e : E).
Arguments Ok {E A} a.
Arguments Err {E A} e.

#[global] Instance result_ret {E} : MRet (result E) := fun A a => Ok a.
#[global] Instance result_bind {E} : MBind (result E) :=
  fun A B f m => match m with Ok a => f a | Err e => Err e end.
#[global] Instance result_fmap {E} : FMap (result E) :=
  fun A B f m => match m with Ok a => Ok (f a) | Err e => Err e end.

(** [fmt.Errorf("...: %w", err)]: the error is wrapped, the value kept. *)
Definition map_err {E F A} (f : E → F) (m : result E A) : result F A :=
  match m with Ok a => Ok a | Err e => Err (f e) end.

Definition is_ok {E A} (m : result E A) : bool :=
  match m with Ok _ => true | Err _ => false end.

Lemma bind_Ok {E A B} (m : result E A) (f : A → result E B) b :
  (m ≫= f) = Ok b ↔ ∃ a, m = Ok a ∧ f a = Ok b.
Proof. destruct m; naive_solver. Qed.

Lemma map_err_Ok {E F A} (f : E → F) (m : result E A) a :
  map_err f m = Ok a ↔ m = Ok a.
Proof. destruct m; naive_solver. Qed.

Lemma is_ok_Ok {E A} (m : result E A) : is_ok m = true ↔ ∃ a, m = Ok a.
Proof. destruct m; naive_solver. Qed.

#[global] Instance result_eq_dec {E A} `{EqDecision E, EqDecision A} :
  EqDecision (result E A).
Proof. solve_decision. Defined.

(** ** Machine integers

    [int64] and [int] values are [Z]; [in_int64] is their range and [wrap64]
    the two's complement wrap-around of the Go operators. *)

Definition in_int64 (z : Z) : Prop := - 2 ^ 63 ≤ z < 2 ^ 63.
Definition wrap64 (z : Z) : Z := (z + 2 ^ 63) mod 2 ^ 64 - 2 ^ 63.
Definition in_uint8 (z : Z) : Prop := 0 ≤ z < 256.

Lemma wrap64_id z : in_int64 z → wrap64 z = z.
Proof. unfold in_int64, wrap64. intros. rewrite Z.mod_small; lia. Qed.

Lemma wrap64_range z : in_int64 (wrap64 z).
Proof.
  unfold in_int64, wrap64.
  pose proof (Z.mod_pos_bound (z + 2 ^ 63) (2 ^ 64)). lia.
Qed.

(** ** Time

    A [time.Time] is its distance from 1970 in nanoseconds, a [time.Duration]
    a number of nanoseconds.  [time.Unix] counts seconds from the year 1 in an
    [int64], which wraps. *)

Definition second : Z := 1000000000.
Definition minute : Z := 60 * second.
Definition unixToInternal : Z := 62135596800.
Definition time_Unix (sec : Z) : Z := (wrap64 (sec + unixToInternal) - unixToInternal) * second.

(** ** Strings

    Go strings are byte strings; [string] is a sequence of 8-bit [ascii]. *)

Definition str_empty (s : string) : bool := bool_decide (s = "").

Lemma str_empty_true s : str_empty s = true ↔ s = "".
Proof. unfold str_empty. by rewrite bool_decide_eq_true. Qed.
Lemma str_empty_false s : str_empty s = false ↔ s ≠ "".
Proof. unfold str_empty. by rewrite bool_decide_eq_false. Qed.

Lemma append_cons c s t : String c s +:+ t = String c (s +:+ t).
Proof. reflexivity. Qed.

Lemma append_inj_l p s t : p +:+ s = p +:+ t → s = t.
Proof. induction p as [|c p IH]; cbn; [done|]. intros [=]. auto. Qed.

Lemma append_empty_r s : s +:+ "" = s.
Proof. induction s as [|c s IH]; [done|]. by rewrite append_cons, IH. Qed.

Lemma append_assoc_str r s t : (r +:+ s) +:+ t = r +:+ (s +:+ t).
Proof. induction r as [|c r IH]; [done|]. by rewrite !append_cons, IH. Qed.

(** [strings.Contains(s, string(c))] for a single byte [c]. *)
Fixpoint has_byte (c : Ascii.ascii) (s : string) : bool :=
  match s with
  | EmptyString => false
  | String d s' => bool_decide (d = c) || has_byte c s'
  end.

(** A [name:value] key determines both parts when the names carry no colon. *)
Lemma colon_key_inj p q v w :
  has_byte ":"%char p = false → has_byte ":"%char q = false →
  p +:+ ":" +:+ v = q +:+ ":" +:+ w → p = q ∧ v = w.
Proof.
  revert q. induction p as [|c p IH]; intros [|d q]; cbn.
  - intros _ _ [=]. done.
  - intros _ [Hd _]%orb_false_iff. rewrite bool_decide_eq_false in Hd.
    intros [= <- _]. done.
  - intros [Hc _]%orb_false_iff _. rewrite bool_decide_eq_false in Hc.
    intros [= -> _]. done.
  - intros [_ Hp]%orb_false_iff [_ Hq]%orb_false_iff [= -> E].
    destruct (IH q Hp Hq E) as [-> ->]. done.
Qed.

(** ** Tactics shared by the components *)

(** Split every [match] and [if] of the hypothesis [H], closing the branches
    in which it becomes absurd. *)
Ltac split_matches_in H :=
  repeat (case_match; simplify_eq/=; try done).

(** Invert a successful call: unfold one [≫=] or one guard at a time. *)
Ltac inv_ok :=
  repeat match goal with
  | H : (_ ≫= _) = Ok _ |- _ =>
      let a := fresh "a" in let Ha := fresh "Ha" in
      apply bind_Ok in H as (a & Ha & H)
  | H : map_err _ _ = Ok _ |- _ => apply map_err_Ok in H
  | H : Ok _ = Ok _ |- _ => injection H as H
  | H : Err _ = Ok _ |- _ => discriminate H
  | H : Ok _ = Err _ |- _ => discriminate H
  end.

(** ** Hints *)

Create HintDb vc discriminated.
#[export] Hint Resolve wrap64_range : vc.
#[export] Hint Resolve lookup_insert_eq lookup_delete_eq : vc.
