(* ===== verification/Bytes.v ===== *)
(** * Byte strings of integers

    [big.Int.Bytes], the fixed-width buffers the code copies such bytes into,
    and the lemmas that the integers read back. *)

From S2P Require Import Prelude.

(** [big.Int.Bytes]: big-endian, without leading zeros. *)
Fixpoint be_fixed (n : nat) (z : Z) : list Z :=
  match n with
  | O => []
  | S n => (be_fixed n (z / 256) ++ [z mod 256])%list
  end.
Definition byte_len (z : Z) : nat := if bool_decide (z ≤ 0) then 0%nat else Z.to_nat (Z.log2 z / 8 + 1).
Definition big_bytes (z : Z) : list Z := be_fixed (byte_len z) z.
Definition of_be (l : list Z) : Z := foldl (fun a b => a * 256 + b) 0 l.

(** [copy(dst[at:], src)] for a [src] that fits. *)
Definition copy_at (dst : list Z) (at_ : nat) (src : list Z) : list Z :=
  (take at_ dst ++ src ++ drop (at_ + length src) dst)%list.

(** [make([]byte, n)] with [b] copied to its end; [None] for the panic of a
    negative slice bound. *)
Definition pad_left (n : nat) (b : list Z) : option (list Z) :=
  if bool_decide (n < length b)%nat then None
  else Some (copy_at (replicate n 0) (n - length b) b).

Lemma be_fixed_length n z : length (be_fixed n z) = n.
Proof. revert z. induction n as [|n IH]; intros z; cbn; [done|]. rewrite length_app, IH. cbn. lia. Qed.

Lemma be_fixed_uint8 n z : Forall in_uint8 (be_fixed n z).
Proof.
  revert z. induction n as [|n IH]; intros z; cbn; [constructor|]. apply Forall_app. split; [apply IH|].
  constructor; [|constructor]. unfold in_uint8. apply Z.mod_pos_bound. lia.
Qed.

Lemma of_be_app l m : of_be (l ++ m)%list = of_be l * 256 ^ Z.of_nat (length m) + of_be m.
Proof.
  unfold of_be. rewrite foldl_app. generalize (foldl (fun a b => a * 256 + b) 0 l) as a.
  induction m as [|x m IH] using rev_ind; intros a.
  { cbn [foldl length]. rewrite Z.pow_0_r. lia. }
  rewrite !foldl_app, length_app, Nat2Z.inj_add, Z.pow_add_r by lia.
  cbn [foldl length]. rewrite IH, Z.pow_1_r. ring.
Qed.

Lemma of_be_fixed n z : 0 ≤ z < 256 ^ Z.of_nat n → of_be (be_fixed n z) = z.
Proof.
  revert z. induction n as [|n IH]; intros z Hz; [cbn in *; lia|].
  cbn [be_fixed]. rewrite Nat2Z.inj_succ, Z.pow_succ_r in Hz by lia.
  rewrite of_be_app, IH.
  - cbn. pose proof (Z.div_mod z 256). lia.
  - split; [apply Z.div_pos; lia|]. apply Z.div_lt_upper_bound; lia.
Qed.

Lemma of_be_zeros n : of_be (replicate n 0) = 0.
Proof. induction n as [|n IH]; [done|]. exact IH. Qed.

Lemma pow_256 n : 256 ^ n = 2 ^ (8 * n).
Proof. rewrite Z.mul_comm. change 256 with (2 ^ 8). destruct (Z.le_gt_cases 0 n).
  - rewrite <- Z.pow_mul_r by lia. f_equal. lia.
  - rewrite !Z.pow_neg_r by lia. done.
Qed.

Lemma of_be_big_bytes z : 0 ≤ z → of_be (big_bytes z) = z.
Proof.
  intros Hz. unfold big_bytes, byte_len. case_bool_decide; [cbn; lia|].
  apply of_be_fixed. split; [done|].
  pose proof (Z.log2_nonneg z). pose proof (Z.div_pos (Z.log2 z) 8).
  rewrite Z2Nat.id by lia. rewrite pow_256.
  pose proof (Z.log2_spec z). eapply Z.lt_le_trans; [apply Z.log2_spec; lia|].
  apply Z.pow_le_mono_r; [lia|]. pose proof (Z.div_mod (Z.log2 z) 8).
  pose proof (Z.mod_pos_bound (Z.log2 z) 8). lia.
Qed.

Lemma big_bytes_length z n : 0 ≤ z < 256 ^ Z.of_nat n → (length (big_bytes z) ≤ n)%nat.
Proof.
  intros Hz. unfold big_bytes. rewrite be_fixed_length. unfold byte_len. case_bool_decide; [lia|].
  rewrite pow_256 in Hz. assert (Z.log2 z < 8 * Z.of_nat n) by (apply Z.log2_lt_pow2; lia).
  pose proof (Z.div_lt_upper_bound (Z.log2 z) 8 (Z.of_nat n)). pose proof (Z.log2_nonneg z).
  pose proof (Z.div_pos (Z.log2 z) 8). lia.
Qed.

(** Two integers copied to the ends of the two halves of a zeroed buffer. *)
Lemma copy_halves n a b :
  (length a ≤ n)%nat → (length b ≤ n)%nat →
  copy_at (copy_at (replicate (2 * n) 0) (n - length a) a) (2 * n - length b) b =
  ((replicate (n - length a) 0 ++ a) ++ (replicate (n - length b) 0 ++ b))%list.
Proof.
  intros Ha Hb. unfold copy_at.
  rewrite take_replicate, drop_replicate.
  replace ((n - length a) `min` (2 * n))%nat with (n - length a)%nat by lia.
  replace (2 * n - (n - length a + length a))%nat with n by lia.
  rewrite !(app_assoc (replicate (n - length a) 0) a).
  assert (length (replicate (n - length a) 0 ++ a)%list = n) as Hl
    by (rewrite length_app, length_replicate; lia).
  revert Hl. generalize (replicate (n - length a) 0 ++ a)%list. intros l Hl.
  rewrite take_app_ge, drop_ge, take_replicate, app_nil_r, Hl, <- app_assoc
    by (rewrite ?length_app, ?length_replicate; lia).
  replace ((2 * n - length b - n) `min` n)%nat with (n - length b)%nat by lia. done.
Qed.


Lemma copy_halves_read n r s :
  0 ≤ r < 256 ^ Z.of_nat n → 0 ≤ s < 256 ^ Z.of_nat n →
  let sig := copy_at (copy_at (replicate (2 * n) 0) (n - length (big_bytes r)) (big_bytes r))
               (2 * n - length (big_bytes s)) (big_bytes s) in
  length sig = (2 * n)%nat ∧ of_be (take n sig) = r ∧ of_be (drop n sig) = s.
Proof.
  intros Hr Hs. pose proof (big_bytes_length r n Hr) as Lr. pose proof (big_bytes_length s n Hs) as Ls.
  cbn zeta. rewrite copy_halves by lia.
  set (a := (_ ++ big_bytes r)%list). set (b := (_ ++ big_bytes s)%list).
  assert (length a = n) as La by (unfold a; rewrite length_app, length_replicate; lia).
  assert (length b = n) as Lb by (unfold b; rewrite length_app, length_replicate; lia).
  split_and!.
  - rewrite length_app. lia.
  - rewrite take_app_length' by done. unfold a.
    rewrite of_be_app, of_be_zeros, of_be_big_bytes by lia. lia.
  - rewrite drop_app_length' by done. unfold b.
    rewrite of_be_app, of_be_zeros, of_be_big_bytes by lia. lia.
Qed.
