(* ===== verification/GoStrings.v ===== *)
(** * Strings cut at a separator

    [strings.Split], [strings.Join], [strings.Cut] and [strings.Count] for a
    separator of one byte. *)

From S2P Require Import Prelude.

Definition chr (c : Ascii.ascii) : string := String c EmptyString.

Fixpoint Split (c : Ascii.ascii) (s : string) : list string :=
  match s with
  | EmptyString => [""]
  | String d s =>
      if bool_decide (d = c) then "" :: Split c s
      else match Split c s with
           | [] => [chr d]
           | w :: ws => String d w :: ws
           end
  end.

Fixpoint Join (c : Ascii.ascii) (ws : list string) : string :=
  match ws with
  | [] => ""
  | [w] => w
  | w :: ws => w +:+ String c (Join c ws)
  end.

Fixpoint Count (c : Ascii.ascii) (s : string) : nat :=
  match s with
  | EmptyString => 0
  | String d s => (if bool_decide (d = c) then 1 else 0) + Count c s
  end.

(** [before, after, found := strings.Cut(s, c)] *)
Fixpoint Cut (c : Ascii.ascii) (s : string) : option (string * string) :=
  match s with
  | EmptyString => None
  | String d s =>
      if bool_decide (d = c) then Some ("", s)
      else match Cut c s with Some (a, b) => Some (String d a, b) | None => None end
  end.

Definition HasPrefix (p s : string) : bool := String.prefix p s.

Lemma Split_nonempty c s : Split c s ≠ [].
Proof. destruct s as [|d s]; cbn; [done|]. case_bool_decide; [done|]. by destruct (Split c s). Qed.

Lemma Join_Split c s : Join c (Split c s) = s.
Proof.
  induction s as [|d s IH]; [done|]. cbn. pose proof (Split_nonempty c s).
  case_bool_decide as Hd; destruct (Split c s) as [|w ws]; try done.
  - subst d. change (Join c ("" :: w :: ws)) with (String c (Join c (w :: ws))). by rewrite IH.
  - rewrite <- IH. by destruct ws.
Qed.

Lemma Split_length c s : length (Split c s) = S (Count c s).
Proof.
  induction s as [|d s IH]; [done|]. cbn. case_bool_decide; cbn; [by rewrite IH|].
  by destruct (Split c s).
Qed.

Lemma Count_has_byte c s : Count c s = 0%nat ↔ has_byte c s = false.
Proof.
  induction s as [|d s IH]; cbn; [done|]. case_bool_decide; cbn; [split; [lia|done]|]. done.
Qed.

Lemma Split_no_sep c s : has_byte c s = false → Split c s = [s].
Proof.
  induction s as [|d s IH]; cbn; [done|]. intros [Hd Hs]%orb_false_iff. rewrite Hd. by rewrite IH.
Qed.

Lemma Split_app c a b : has_byte c a = false → Split c (a +:+ String c b) = a :: Split c b.
Proof.
  induction a as [|d a IH].
  - intros _. change ("" +:+ String c b) with (String c b). cbn. by rewrite bool_decide_eq_true_2.
  - rewrite append_cons. cbn. intros [Hd Ha]%orb_false_iff. rewrite Hd. by rewrite IH.
Qed.

Lemma Split_Join c ws : ws ≠ [] → Forall (fun w => has_byte c w = false) ws → Split c (Join c ws) = ws.
Proof.
  intros Hne Hw. induction Hw as [|w ws Hw Hws IH]; [done|]. destruct ws as [|w' ws]; cbn.
  - by apply Split_no_sep.
  - rewrite Split_app by done. f_equal. by apply IH.
Qed.

Lemma Join_app c a b : a ≠ [] → b ≠ [] → Join c (a ++ b)%list = Join c a +:+ String c (Join c b).
Proof.
  intros Ha Hb. induction a as [|w a IH]; [done|]. destruct a as [|w' a].
  - cbn. by destruct b.
  - change (Join c ((w :: w' :: a) ++ b)%list) with (w +:+ String c (Join c ((w' :: a) ++ b)%list)).
    rewrite IH by done. change (Join c (w :: w' :: a)) with (w +:+ String c (Join c (w' :: a))).
    by rewrite append_assoc_str, append_cons.
Qed.

Lemma Cut_app c a b : has_byte c a = false → Cut c (a +:+ String c b) = Some (a, b).
Proof.
  induction a as [|d a IH].
  - intros _. change ("" +:+ String c b) with (String c b). cbn. by rewrite bool_decide_eq_true_2.
  - rewrite append_cons. cbn. intros [Hd Ha]%orb_false_iff. by rewrite Hd, IH.
Qed.

Lemma Cut_None c s : has_byte c s = false → Cut c s = None.
Proof. induction s as [|d s IH]; cbn; [done|]. intros [Hd Hs]%orb_false_iff. by rewrite Hd, IH. Qed.

Lemma Cut_Some c s a b : Cut c s = Some (a, b) → s = a +:+ String c b ∧ has_byte c a = false.
Proof.
  revert a. induction s as [|d s IH]; cbn; [done|]. intros a. case_bool_decide as Hd.
  - intros [= <- <-]. by subst.
  - destruct (Cut c s) as [[a' b']|]; [|done]. intros [= <- <-]. destruct (IH a' eq_refl) as [-> Ha].
    split; [done|]. cbn. by rewrite bool_decide_eq_false_2.
Qed.

Lemma Split_elem_no_sep c s w : w ∈ Split c s → has_byte c w = false.
Proof.
  revert w. induction s as [|d s IH]; cbn; intros w; [by intros ->%list_elem_of_singleton|].
  case_bool_decide as Hd.
  - intros [->|Hw]%elem_of_cons; [done|by apply IH].
  - pose proof (Split_nonempty c s). destruct (Split c s) as [|w0 ws]; [done|].
    intros [->|Hw]%elem_of_cons; [|apply IH; set_solver]. cbn. rewrite bool_decide_eq_false_2 by done.
    apply IH. set_solver.
Qed.

Lemma has_byte_app c a b : has_byte c (a +:+ b) = has_byte c a || has_byte c b.
Proof. induction a as [|d a IH]; [done|]. rewrite append_cons. cbn. by rewrite IH, orb_assoc. Qed.

Lemma Count_app c a b : Count c (a +:+ b) = (Count c a + Count c b)%nat.
Proof. induction a as [|d a IH]; [done|]. rewrite append_cons. cbn. rewrite IH. lia. Qed.

Lemma Split_Cut c s a b : Cut c s = Some (a, b) → Split c s = a :: Split c b.
Proof. intros (-> & Ha)%Cut_Some. by apply Split_app. Qed.

Lemma Split_Cut_None c s : Cut c s = None → Split c s = [s].
Proof.
  intros E. apply Split_no_sep. destruct (has_byte c s) eqn:Eb; [|done]. exfalso. revert Eb E.
  induction s as [|d s IH]; [done|]. cbn. case_bool_decide; [done|]. cbn. intros Eb.
  destruct (Cut c s) as [[a b]|]; [done|]. by intros _; apply IH.
Qed.
