(* ===== verification/Base64.v ===== *)
(** * base64url without padding

    The part of Go's [encoding/base64] the sources use: [RawURLEncoding]'s
    [EncodeToString] and [DecodeString] (RFC 4648 section 5, no padding).
    [DecodeString] skips carriage returns and line feeds, refuses a character
    outside the alphabet (the padding character included) and a final group
    of one character, and ignores the unused low bits of the last group. *)

From S2P Require Import Prelude.

Module RawURLEncoding.

Definition alphabet : list ascii :=
  String.list_ascii_of_string
    "ABCDEFGHIJKLMNOPQRSTUVWXYZabcdefghijklmnopqrstuvwxyz0123456789-_".

Definition enc6 (v : Z) : ascii := nth (Z.to_nat v) alphabet "A"%char.

Fixpoint index_of (c : ascii) (l : list ascii) (i : Z) : option Z :=
  match l with
  | [] => None
  | d :: l' => if bool_decide (d = c) then Some i else index_of c l' (i + 1)
  end.
Definition dec6 (c : ascii) : option Z := index_of c alphabet 0.

Fixpoint encode (l : list Z) : list ascii :=
  match l with
  | [] => []
  | [a] =>
      let v := a * 65536 in
      [enc6 (v / 262144); enc6 (v / 4096 mod 64)]
  | [a; b] =>
      let v := a * 65536 + b * 256 in
      [enc6 (v / 262144); enc6 (v / 4096 mod 64); enc6 (v / 64 mod 64)]
  | a :: b :: c :: r =>
      let v := a * 65536 + b * 256 + c in
      enc6 (v / 262144) :: enc6 (v / 4096 mod 64) ::
      enc6 (v / 64 mod 64) :: enc6 (v mod 64) :: encode r
  end.

Definition EncodeToString (l : list Z) : string :=
  String.string_of_list_ascii (encode l).

Definition is_newline (c : ascii) : bool :=
  bool_decide (c = "010"%char) || bool_decide (c = "013"%char).

Definition quad (v0 v1 v2 v3 : Z) : Z :=
  ((v0 * 64 + v1) * 64 + v2) * 64 + v3.

Fixpoint decode (l : list ascii) : option (list Z) :=
  match l with
  | [] => Some []
  | [c0] => None
  | [c0; c1] =>
      v0 ← dec6 c0; v1 ← dec6 c1;
      Some [quad v0 v1 0 0 / 65536]
  | [c0; c1; c2] =>
      v0 ← dec6 c0; v1 ← dec6 c1; v2 ← dec6 c2;
      Some [quad v0 v1 v2 0 / 65536; quad v0 v1 v2 0 / 256 mod 256]
  | c0 :: c1 :: c2 :: c3 :: r =>
      v0 ← dec6 c0; v1 ← dec6 c1; v2 ← dec6 c2; v3 ← dec6 c3;
      t ← decode r;
      Some (quad v0 v1 v2 v3 / 65536 :: quad v0 v1 v2 v3 / 256 mod 256 ::
            quad v0 v1 v2 v3 mod 256 :: t)
  end.

Definition DecodeString (s : string) : option (list Z) :=
  decode (List.filter (fun c => negb (is_newline c)) (String.list_ascii_of_string s)).

(** ** Round trip *)

Definition sextets : list Z := seqZ 0 64.

Lemma sextet_cases (P : Z → bool) v :
  0 ≤ v < 64 → forallb P sextets = true → P v = true.
Proof.
  intros Hv. rewrite forallb_forall. intros H. apply H.
  apply list_elem_of_In, elem_of_seqZ. lia.
Qed.

Lemma dec6_enc6 v : 0 ≤ v < 64 → dec6 (enc6 v) = Some v.
Proof.
  intros Hv.
  assert (forallb (fun v => bool_decide (dec6 (enc6 v) = Some v)) sextets = true)
    as Hall by (vm_compute; reflexivity).
  apply (sextet_cases _ v Hv), bool_decide_eq_true in Hall. done.
Qed.

Lemma enc6_not_newline v : 0 ≤ v < 64 → negb (is_newline (enc6 v)) = true.
Proof.
  intros Hv.
  apply (sextet_cases (fun v => negb (is_newline (enc6 v)))); [done|].
  vm_compute. reflexivity.
Qed.

Ltac b64_cbn := cbn -[Z.mul Z.add Z.div Z.modulo quad enc6 dec6].
Ltac bytes := unfold quad, in_uint8 in *; Z.div_mod_to_equations; lia.

(** Lists are consumed three bytes at a time. *)
Lemma list_ind3 {A} (P : list A → Prop) :
  P [] → (∀ a, P [a]) → (∀ a b, P [a; b]) →
  (∀ a b c r, P r → P (a :: b :: c :: r)) → ∀ l, P l.
Proof.
  intros H0 H1 H2 H3 l.
  enough (P l ∧ (∀ a, P (a :: l)) ∧ (∀ a b, P (a :: b :: l))) by tauto.
  induction l as [|x l (I0 & I1 & I2)]; repeat split; auto.
Qed.

Lemma decode_encode l : Forall in_uint8 l → decode (encode l) = Some l.
Proof.
  induction l as [|a|a b|a b c r IH] using list_ind3; intros Hl;
    repeat match goal with H : Forall _ (_ :: _) |- _ => apply Forall_cons in H as [? H] end;
    b64_cbn;
    repeat (rewrite dec6_enc6 by bytes; b64_cbn).
  - done.
  - do 2 f_equal. bytes.
  - do 2 f_equal; [bytes|]. f_equal. bytes.
  - rewrite IH by done. b64_cbn.
    do 2 f_equal; [bytes|]. f_equal; [bytes|]. f_equal. bytes.
Qed.

Lemma encode_no_newline l :
  Forall in_uint8 l → Forall (fun c => negb (is_newline c) = true) (encode l).
Proof.
  induction l as [|a|a b|a b c r IH] using list_ind3; intros Hl;
    repeat match goal with H : Forall _ (_ :: _) |- _ => apply Forall_cons in H as [? H] end;
    b64_cbn;
    repeat (apply Forall_cons; split); try (apply enc6_not_newline; bytes); auto.
Qed.

Lemma filter_all {A} (f : A → bool) l :
  Forall (fun x => f x = true) l → List.filter f l = l.
Proof. induction 1 as [|x l Hx _ IH]; cbn; [done|]. by rewrite Hx, IH. Qed.

Lemma DecodeString_EncodeToString l :
  Forall in_uint8 l → DecodeString (EncodeToString l) = Some l.
Proof.
  intros Hl. unfold DecodeString, EncodeToString.
  rewrite String.list_ascii_of_string_of_list_ascii.
  rewrite filter_all by (by apply encode_no_newline).
  by apply decode_encode.
Qed.

End RawURLEncoding.

#[export] Hint Resolve RawURLEncoding.DecodeString_EncodeToString : vc.
