(* ===== verification/GoValue.v ===== *)
(** * Dynamic Go values

    The values an [any] holds in the modelled code: what [encoding/json]
    decodes claims into, plus the slices and integers Go code stores beside
    them.  A [map[string]any] is an association list with one entry per key:
    [mget] is [m[k]] with its comma-ok flag, [mset] is [m[k] = v] and
    [mdelete] is [delete(m, k)].  The position of an entry stands for Go's
    unspecified iteration order. *)

From Stdlib Require Import SpecFloat.
From S2P Require Import Prelude.

Inductive goval : Type :=
| GNil
| GBool (b : bool)
| GString (s : string)
| GFloat64 (f : spec_float)
| GInt (z : Z)
| GInt64 (z : Z)
| GNumber (lit : string)
| GStrings (l : list string)
| GArr (l : list goval)
| GMap (m : list (string * goval)).

Abbreviation gomap := (list (string * goval)).

(** ** Maps *)

Section maps.
Context {V : Type}.
Implicit Types (m : list (string * V)) (k : string) (v : V).

Fixpoint mget m k : option V :=
  match m with
  | [] => None
  | (k', v) :: m' => if bool_decide (k' = k) then Some v else mget m' k
  end.

Fixpoint mset m k v : list (string * V) :=
  match m with
  | [] => [(k, v)]
  | (k', v') :: m' =>
      if bool_decide (k' = k) then (k, v) :: m' else (k', v') :: mset m' k v
  end.

Definition mdelete m k : list (string * V) :=
  List.filter (fun e => negb (bool_decide (fst e = k))) m.

Definition mkeys m : list string := map fst m.

Lemma mget_mset_eq m k v : mget (mset m k v) k = Some v.
Proof.
  induction m as [|[k' v'] m IH]; cbn; [by rewrite bool_decide_true|].
  destruct (bool_decide_reflect (k' = k)); cbn;
    [by rewrite bool_decide_true | by rewrite bool_decide_false].
Qed.

Lemma mget_mset_ne m k k' v : k ≠ k' → mget (mset m k v) k' = mget m k'.
Proof.
  intros Hne. induction m as [|[j w] m IH]; cbn; [by rewrite bool_decide_false|].
  destruct (bool_decide_reflect (j = k)); cbn.
  - subst. by rewrite !bool_decide_false.
  - by destruct (bool_decide_reflect (j = k')).
Qed.

Lemma mget_mset m k k' v :
  mget (mset m k v) k' = if bool_decide (k = k') then Some v else mget m k'.
Proof.
  destruct (bool_decide_reflect (k = k')); subst;
    [apply mget_mset_eq | by apply mget_mset_ne].
Qed.

Lemma mget_mdelete_eq m k : mget (mdelete m k) k = None.
Proof.
  induction m as [|[j w] m IH]; cbn; [done|].
  destruct (bool_decide_reflect (j = k)); cbn; [done|].
  by rewrite bool_decide_false.
Qed.

Lemma mget_mdelete_ne m k k' : k ≠ k' → mget (mdelete m k) k' = mget m k'.
Proof.
  intros Hne. induction m as [|[j w] m IH]; cbn; [done|].
  destruct (bool_decide_reflect (j = k)); cbn.
  - subst. by rewrite bool_decide_false.
  - by destruct (bool_decide_reflect (j = k')).
Qed.

Lemma mget_Some_elem m k v : mget m k = Some v → (k, v) ∈ m.
Proof.
  induction m as [|[j w] m IH]; cbn; [done|].
  destruct (bool_decide_reflect (j = k)); intros; simplify_eq; set_solver.
Qed.

Lemma mget_elem_NoDup m k v : NoDup (mkeys m) → (k, v) ∈ m → mget m k = Some v.
Proof.
  induction m as [|[j w] m IH]; cbn; [set_solver|].
  intros [Hj HN]%NoDup_cons [[= <- <-]|Hin]%elem_of_cons.
  - by rewrite bool_decide_true.
  - rewrite bool_decide_false; [by apply IH|].
    intros ->. apply Hj. apply list_elem_of_fmap. by exists (k, v).
Qed.

Lemma mget_None m k : mget m k = None ↔ k ∉ mkeys m.
Proof.
  induction m as [|[j w] m IH]; cbn; [set_solver|].
  destruct (bool_decide_reflect (j = k)); rewrite elem_of_cons; naive_solver.
Qed.

Lemma mkeys_mset m k v : k ∈ mkeys m → mkeys (mset m k v) = mkeys m.
Proof.
  induction m as [|[j w] m IH]; cbn; [set_solver|].
  destruct (bool_decide_reflect (j = k)); cbn; [by subst|].
  intros [->|]%elem_of_cons; [done|]. f_equal. by apply IH.
Qed.

Lemma NoDup_mkeys_mset m k v : NoDup (mkeys m) → NoDup (mkeys (mset m k v)).
Proof.
  induction m as [|[j w] m IH]; cbn; [intros; apply NoDup_singleton|].
  intros [Hj HN]%NoDup_cons.
  destruct (bool_decide_reflect (j = k)); cbn; [subst; by constructor|].
  constructor; [|by apply IH].
  intros Hin. apply Hj. destruct (decide (k ∈ mkeys m)) as [Hk|Hk].
  - pose proof (mkeys_mset m k v Hk) as E. unfold mkeys in *. by rewrite <- E.
  - exfalso. revert Hin. clear IH HN. induction m as [|[i u] m IH]; cbn in *.
    + set_solver.
    + destruct (bool_decide_reflect (i = k)); cbn in *; set_solver.
Qed.
End maps.

#[export] Hint Resolve mget_mset_eq mget_mdelete_eq NoDup_mkeys_mset : vc.

(** ** Type assertions: [v.(T)] with its comma-ok flag *)

Definition as_map (v : goval) : option gomap := match v with GMap m => Some m | _ => None end.
Definition as_string (v : goval) : option string := match v with GString s => Some s | _ => None end.

(** [s, _ := x.(string)], the empty string when the assertion fails; [x] is
    the result of a map lookup, nil when the key is absent. *)
Definition string_or_empty (x : option goval) : string :=
  match x with Some (GString s) => s | _ => "" end.

(** ** Induction over nested values *)

Section goval_ind.
Context (P : goval → Prop).
Context (Hnil : P GNil) (Hbool : ∀ b, P (GBool b)) (Hstr : ∀ s, P (GString s)).
Context (Hflt : ∀ f, P (GFloat64 f)) (Hint : ∀ z, P (GInt z)) (Hi64 : ∀ z, P (GInt64 z)).
Context (Hnum : ∀ s, P (GNumber s)) (Hstrs : ∀ l, P (GStrings l)).
Context (Harr : ∀ l, Forall P l → P (GArr l)).
Context (Hmap : ∀ m, Forall (fun e => P (snd e)) m → P (GMap m)).

Fixpoint goval_nested_ind (v : goval) : P v :=
  match v with
  | GNil => Hnil
  | GBool b => Hbool b
  | GString s => Hstr s
  | GFloat64 f => Hflt f
  | GInt z => Hint z
  | GInt64 z => Hi64 z
  | GNumber s => Hnum s
  | GStrings l => Hstrs l
  | GArr l =>
      Harr l ((fix go l : Forall P l :=
        match l with
        | [] => Forall_nil_2 P
        | x :: l => Forall_cons_2 P x l (goval_nested_ind x) (go l)
        end) l)
  | GMap m =>
      Hmap m ((fix go m : Forall (fun e => P (snd e)) m :=
        match m with
        | [] => Forall_nil_2 _
        | e :: m => Forall_cons_2 (fun e => P (snd e)) e m (goval_nested_ind (snd e)) (go m)
        end) m)
  end.
End goval_ind.

(** ** [float64] to [int64]

    [float_value f] is the integer a finite [float64] denotes, if it denotes
    one; [S754_finite s m e] is [(-1)^s * m * 2^e]. *)

Definition float_value (f : spec_float) : option Z :=
  match f with
  | S754_zero _ => Some 0
  | S754_finite s m e =>
      let a := if s then Z.neg m else Z.pos m in
      if bool_decide (0 ≤ e) then Some (a * 2 ^ e)
      else if bool_decide (a mod 2 ^ (- e) = 0) then Some (a / 2 ^ (- e)) else None
  | _ => None
  end.

(** ** Decidable equality and countability, through stdpp's generic trees *)

Abbreviation gleaf := (string + Z)%type.

Definition enc_bool (b : bool) : gen_tree gleaf := GenLeaf (inr (if b then 1 else 0)).
Definition enc_Z (z : Z) : gen_tree gleaf := GenLeaf (inr z).
Definition enc_str (s : string) : gen_tree gleaf := GenLeaf (inl s).

Definition enc_float (f : spec_float) : list (gen_tree gleaf) :=
  match f with
  | S754_zero s => [enc_Z 0; enc_bool s]
  | S754_infinity s => [enc_Z 1; enc_bool s]
  | S754_nan => [enc_Z 2]
  | S754_finite s m e => [enc_Z 3; enc_bool s; enc_Z (Z.pos m); enc_Z e]
  end.

Fixpoint enc_val (v : goval) : gen_tree gleaf :=
  match v with
  | GNil => GenNode 0 []
  | GBool b => GenNode 1 [enc_bool b]
  | GString s => GenNode 2 [enc_str s]
  | GFloat64 f => GenNode 3 (enc_float f)
  | GInt z => GenNode 4 [enc_Z z]
  | GInt64 z => GenNode 5 [enc_Z z]
  | GNumber s => GenNode 6 [enc_str s]
  | GStrings l => GenNode 7 (map enc_str l)
  | GArr l => GenNode 8 (map enc_val l)
  | GMap m => GenNode 9 (map (fun e => GenNode 0 [enc_str (fst e); enc_val (snd e)]) m)
  end.

Definition dec_bool (t : gen_tree gleaf) : bool :=
  match t with GenLeaf (inr 0) => false | _ => true end.
Definition dec_Z (t : gen_tree gleaf) : Z := match t with GenLeaf (inr z) => z | _ => 0 end.
Definition dec_str (t : gen_tree gleaf) : string :=
  match t with GenLeaf (inl s) => s | _ => "" end.

Definition dec_float (l : list (gen_tree gleaf)) : spec_float :=
  match l with
  | [t; s] => if bool_decide (dec_Z t = 0) then S754_zero (dec_bool s) else S754_infinity (dec_bool s)
  | [_; s; m; e] => S754_finite (dec_bool s) (Z.to_pos (dec_Z m)) (dec_Z e)
  | _ => S754_nan
  end.

Fixpoint dec_val (t : gen_tree gleaf) : goval :=
  match t with
  | GenNode 1 [b] => GBool (dec_bool b)
  | GenNode 2 [s] => GString (dec_str s)
  | GenNode 3 l => GFloat64 (dec_float l)
  | GenNode 4 [z] => GInt (dec_Z z)
  | GenNode 5 [z] => GInt64 (dec_Z z)
  | GenNode 6 [s] => GNumber (dec_str s)
  | GenNode 7 l => GStrings (map dec_str l)
  | GenNode 8 l => GArr (map dec_val l)
  | GenNode 9 l =>
      GMap (map (fun e => match e with
                          | GenNode 0 [k; v] => (dec_str k, dec_val v)
                          | _ => ("", GNil)
                          end) l)
  | _ => GNil
  end.

Lemma dec_enc_bool b : dec_bool (enc_bool b) = b.
Proof. by destruct b. Qed.

Lemma dec_enc_float f : dec_float (enc_float f) = f.
Proof. by destruct f as [[]|[]| |[] m e]. Qed.

Lemma map_map_id {A B} (f : A → B) (g : B → A) l :
  Forall (fun x => g (f x) = x) l → map g (map f l) = l.
Proof. induction 1 as [|x l Hx _ IH]; cbn; congruence. Qed.

Lemma dec_enc_val v : dec_val (enc_val v) = v.
Proof.
  induction v as [|b|s|f|z|z|s|l|l IH|m IH] using goval_nested_ind; cbn;
    rewrite ?dec_enc_float; try done.
  - by destruct b.
  - f_equal. apply map_map_id. by apply Forall_forall.
  - f_equal. by apply map_map_id.
  - f_equal. apply map_map_id. eapply Forall_impl; [exact IH|].
    intros [k w] Hw. cbn in *. by rewrite Hw.
Qed.

#[global] Instance enc_val_inj : Inj (=) (=) enc_val.
Proof. intros v w E. rewrite <- (dec_enc_val v), <- (dec_enc_val w). by rewrite E. Qed.
#[global] Instance goval_eq_dec : EqDecision goval.
Proof.
  intros v w. destruct (decide (enc_val v = enc_val w)) as [E|E].
  - left. by apply (inj enc_val).
  - right. by intros ->.
Defined.
#[global] Instance goval_countable : Countable goval :=
  inj_countable' enc_val dec_val dec_enc_val.

(** ** Binary numerals, a printable injection of positives *)

Fixpoint pos_str (p : positive) : string :=
  match p with
  | xH => ""
  | xO p => String "0" (pos_str p)
  | xI p => String "1" (pos_str p)
  end.

Fixpoint str_pos (s : string) : positive :=
  match s with
  | EmptyString => xH
  | String c s => if bool_decide (c = "0"%char) then xO (str_pos s) else xI (str_pos s)
  end.

Lemma str_pos_pos_str p : str_pos (pos_str p) = p.
Proof. induction p as [p IH|p IH|]; cbn; [..|done]; by rewrite IH. Qed.
