(* ===== verification/Utf8.v ===== *)
(** * Strings and runes

    Go's conversions between a string, which is a sequence of bytes, and
    [[]rune]: UTF-8 decoding, in which every byte that does not start a valid
    encoding becomes U+FFFD on its own, and UTF-8 encoding.  [unicode.IsSpace]
    and the trimming of white space are defined on runes. *)

From S2P Require Import Prelude.

Abbreviation rune := Z (only parsing).

Definition RuneError : Z := 65533.

Definition byte_of (c : Ascii.ascii) : Z := Z.of_N (Ascii.N_of_ascii c).
Definition ascii_of (z : Z) : Ascii.ascii := Ascii.ascii_of_N (Z.to_N z).
Definition str_bytes (s : string) : list Z := map byte_of (String.list_ascii_of_string s).
Definition bytes_str (b : list Z) : string := String.string_of_list_ascii (map ascii_of b).

(** The code points UTF-8 encodes: no surrogates. *)
Definition valid_rune (r : Z) : bool :=
  bool_decide (0 ≤ r < 55296) || bool_decide (57344 ≤ r < 1114112).

Definition encode_rune (r : Z) : list Z :=
  if bool_decide (r < 128) then [r] else
  if bool_decide (r < 2048) then [192 + r / 64; 128 + r mod 64] else
  if bool_decide (r < 65536) then [224 + r / 4096; 128 + r / 64 mod 64; 128 + r mod 64] else
  [240 + r / 262144; 128 + r / 4096 mod 64; 128 + r / 64 mod 64; 128 + r mod 64].

(** [string(runes)]: an invalid rune is written as U+FFFD. *)
Definition of_runes (rs : list Z) : string :=
  bytes_str (flat_map (fun r => encode_rune (if valid_rune r then r else RuneError)) rs).

Definition cont (b : Z) : bool := bool_decide (128 ≤ b < 192).
Definition low6 (b : Z) : Z := b - 128.

(** The first rune of a byte string and the bytes after it. *)
Definition decode_rune (b0 : Z) (b : list Z) : Z * list Z :=
  if bool_decide (b0 < 128) then (b0, b) else
  match b with
  | b1 :: b' =>
      let r2 := (b0 - 192) * 64 + low6 b1 in
      if bool_decide (b0 < 224) then
        if cont b1 && bool_decide (128 ≤ r2 < 2048) then (r2, b') else (RuneError, b)
      else
      match b' with
      | b2 :: b'' =>
          let r3 := (b0 - 224) * 4096 + low6 b1 * 64 + low6 b2 in
          if bool_decide (b0 < 240) then
            if cont b1 && cont b2 && bool_decide (2048 ≤ r3 < 65536) && valid_rune r3 then (r3, b'')
            else (RuneError, b)
          else
          match b'' with
          | b3 :: b''' =>
              let r4 := (b0 - 240) * 262144 + low6 b1 * 4096 + low6 b2 * 64 + low6 b3 in
              if bool_decide (b0 < 248) && cont b1 && cont b2 && cont b3 && bool_decide (65536 ≤ r4 < 1114112)
              then (r4, b''') else (RuneError, b)
          | [] => (RuneError, b)
          end
      | [] => (RuneError, b)
      end
  | [] => (RuneError, b)
  end.

(** One rune takes at least one byte, so the number of bytes is fuel enough. *)
Fixpoint decode_runes (fuel : nat) (b : list Z) : list Z :=
  match fuel, b with
  | S fuel, b0 :: b => let '(r, rest) := decode_rune b0 b in r :: decode_runes fuel rest
  | _, _ => []
  end.

(** [[]rune(s)] *)
Definition to_runes (s : string) : list Z := let b := str_bytes s in decode_runes (length b) b.

(** [unicode.IsSpace] *)
Definition IsSpace (r : Z) : bool :=
  bool_decide (r ∈ [9; 10; 11; 12; 13; 32; 133; 160; 5760; 8232; 8233; 8239; 8287; 12288]) ||
  bool_decide (8192 ≤ r ≤ 8202).

Fixpoint skip_spaces (rs : list Z) : list Z :=
  match rs with
  | r :: rs' => if IsSpace r then skip_spaces rs' else rs
  | [] => []
  end.

(** [strings.TrimSpace], on the runes of the string. *)
Definition trim_space (rs : list Z) : list Z := rev (skip_spaces (rev (skip_spaces rs))).

(** ** Round trip *)

Lemma byte_of_ascii_of z : 0 ≤ z < 256 → byte_of (ascii_of z) = z.
Proof.
  intros Hz. unfold byte_of, ascii_of. rewrite Ascii.N_ascii_embedding by lia. lia.
Qed.

Lemma str_bytes_str b : Forall (fun z => 0 ≤ z < 256) b → str_bytes (bytes_str b) = b.
Proof.
  intros Hb. unfold str_bytes, bytes_str. rewrite String.list_ascii_of_string_of_list_ascii, map_map.
  induction Hb as [|z b Hz Hb IH]; [done|]. cbn. by rewrite byte_of_ascii_of, IH.
Qed.

Lemma valid_rune_spec r : valid_rune r = true ↔ 0 ≤ r < 55296 ∨ 57344 ≤ r < 1114112.
Proof. unfold valid_rune. by rewrite orb_true_iff, !bool_decide_eq_true. Qed.

Ltac rune_cases := repeat (case_bool_decide; try lia).

Lemma encode_rune_bytes r : valid_rune r = true → Forall (fun z => 0 ≤ z < 256) (encode_rune r).
Proof.
  rewrite valid_rune_spec. intros Hr. unfold encode_rune. rune_cases;
    repeat constructor; Z.to_euclidean_division_equations; lia.
Qed.

Lemma decode_encode_rune r rest :
  valid_rune r = true → ∃ b0 bs, encode_rune r = b0 :: bs ∧ decode_rune b0 (bs ++ rest)%list = (r, rest).
Proof.
  intros Hv. pose proof (proj1 (valid_rune_spec r) Hv) as Hr. unfold encode_rune.
  case_bool_decide as H1; [|case_bool_decide as H2; [|case_bool_decide as H3]];
    eexists _, _; (split; [reflexivity|]); unfold decode_rune, cont, low6; cbn [app].
  - by rewrite bool_decide_eq_true_2 by lia.
  - assert (r = 64 * (r / 64) + r mod 64 ∧ 0 ≤ r mod 64 < 64 ∧ 2 ≤ r / 64 < 32) as (E & Hm & Hd)
      by (Z.to_euclidean_division_equations; lia).
    rewrite (bool_decide_eq_false_2 (192 + _ < 128)), (bool_decide_eq_true_2 (192 + _ < 224)),
      !bool_decide_eq_true_2 by lia. cbn [andb]. f_equal. lia.
  - assert (r = 4096 * (r / 4096) + 64 * (r / 64 mod 64) + r mod 64 ∧ 0 ≤ r mod 64 < 64 ∧
            0 ≤ r / 64 mod 64 < 64 ∧ 0 ≤ r / 4096 < 16) as (E & Hm & Hn & Hd)
      by (Z.to_euclidean_division_equations; lia).
    set (a := r / 4096) in *. set (b := r / 64 mod 64) in *. set (c := r mod 64) in *.
    replace ((224 + a - 224) * 4096 + (128 + b - 128) * 64 + (128 + c - 128)) with r by lia.
    rewrite (bool_decide_eq_false_2 (224 + _ < 128)), (bool_decide_eq_false_2 (224 + _ < 224)),
      !bool_decide_eq_true_2 by lia. cbn [andb]. by rewrite Hv.
  - assert (r = 262144 * (r / 262144) + 4096 * (r / 4096 mod 64) + 64 * (r / 64 mod 64) + r mod 64 ∧
            0 ≤ r mod 64 < 64 ∧ 0 ≤ r / 64 mod 64 < 64 ∧ 0 ≤ r / 4096 mod 64 < 64 ∧ 0 ≤ r / 262144 < 5)
      as (E & Hm & Hn & Ho & Hd) by (Z.to_euclidean_division_equations; lia).
    set (a := r / 262144) in *. set (b := r / 4096 mod 64) in *. set (c := r / 64 mod 64) in *. set (d := r mod 64) in *.
    replace ((240 + a - 240) * 262144 + (128 + b - 128) * 4096 + (128 + c - 128) * 64 + (128 + d - 128)) with r by lia.
    rewrite (bool_decide_eq_false_2 (240 + _ < 128)), (bool_decide_eq_false_2 (240 + _ < 224)),
      (bool_decide_eq_false_2 (240 + _ < 240)), !bool_decide_eq_true_2 by lia. done.
Qed.

Lemma decode_runes_encode rs fuel :
  Forall (fun r => valid_rune r = true) rs → (length (flat_map encode_rune rs) ≤ fuel)%nat →
  decode_runes fuel (flat_map encode_rune rs) = rs.
Proof.
  intros Hv. revert fuel. induction Hv as [|r rs Hr Hv IH]; intros fuel Hf; [by destruct fuel|].
  cbn [flat_map] in *. destruct (decode_encode_rune r (flat_map encode_rune rs) Hr) as (b0 & bs & E & D).
  rewrite E in Hf |- *. cbn [app length] in Hf |- *. rewrite length_app in Hf.
  destruct fuel as [|fuel]; [lia|]. cbn [decode_runes]. rewrite D, IH by lia. done.
Qed.

Lemma flat_map_bytes rs :
  Forall (fun r => valid_rune r = true) rs → Forall (fun z => 0 ≤ z < 256) (flat_map encode_rune rs).
Proof.
  induction 1 as [|r rs Hr _ IH]; cbn; [constructor|].
  apply Forall_app. split; [by apply encode_rune_bytes|done].
Qed.

Lemma of_runes_valid rs :
  Forall (fun r => valid_rune r = true) rs → of_runes rs = bytes_str (flat_map encode_rune rs).
Proof.
  intros Hv. unfold of_runes. f_equal. induction Hv as [|r rs Hr _ IH]; [done|]. cbn. by rewrite Hr, IH.
Qed.

(** A string of valid runes has them as its runes. *)
Lemma to_runes_of_runes rs : Forall (fun r => valid_rune r = true) rs → to_runes (of_runes rs) = rs.
Proof.
  intros Hv. rewrite of_runes_valid by done. unfold to_runes. rewrite str_bytes_str by by apply flat_map_bytes.
  by apply decode_runes_encode.
Qed.

Lemma decode_rune_valid b0 b r rest : 0 ≤ b0 → decode_rune b0 b = (r, rest) → valid_rune r = true.
Proof.
  intros H0. unfold decode_rune. intros E. assert (valid_rune RuneError = true) as HE by done.
  case_bool_decide as H1; [injection E as <- _; apply valid_rune_spec; lia|].
  destruct b as [|b1 b1s]; [by injection E as <- _|].
  case_bool_decide as H2.
  { destruct (_ && _) eqn:C; [|by injection E as <- _]. apply andb_true_iff in C as [_ C%bool_decide_eq_true].
    injection E as <- _. apply valid_rune_spec. lia. }
  destruct b1s as [|b2 b2s]; [by injection E as <- _|].
  case_bool_decide as H3.
  { destruct (_ && valid_rune _) eqn:C; [|by injection E as <- _]. apply andb_true_iff in C as [_ C].
    by injection E as <- _. }
  destruct b2s as [|b3 b3s]; [by injection E as <- _|].
  destruct (_ && _) eqn:C; [|by injection E as <- _]. apply andb_true_iff in C as [_ C%bool_decide_eq_true].
  injection E as <- _. apply valid_rune_spec. lia.
Qed.

Lemma to_runes_valid s : Forall (fun r => valid_rune r = true) (to_runes s).
Proof.
  unfold to_runes. assert (Forall (Z.le 0) (str_bytes s)) as Hb.
  { unfold str_bytes. apply Forall_map, Forall_true. intros c. unfold byte_of. cbn. lia. }
  generalize (length (str_bytes s)) as fuel. revert Hb. generalize (str_bytes s) as b. intros b Hb fuel.
  revert b Hb. induction fuel as [|fuel IH]; intros [|b0 b] Hb; cbn; try constructor.
  apply Forall_cons in Hb as [H0 Hb]. destruct (decode_rune b0 b) as [r rest] eqn:E.
  constructor; [by eapply decode_rune_valid|]. apply IH.
  assert (rest = b ∨ ∃ p, b = (p ++ rest)%list) as [-> |[p ->]]; [|done|by apply Forall_app in Hb as [_ ?]].
  unfold decode_rune in E. clear -E. repeat (case_match; simplify_eq/=; auto);
    right; match goal with
           | |- ∃ p, ?a :: ?rest = (p ++ ?rest)%list => by exists [a]
           | |- ∃ p, ?a :: ?b :: ?rest = (p ++ ?rest)%list => by exists [a; b]
           | |- ∃ p, ?a :: ?b :: ?c :: ?rest = (p ++ ?rest)%list => by exists [a; b; c]
           end.
Qed.

Lemma bytes_str_bytes s : bytes_str (str_bytes s) = s.
Proof.
  unfold bytes_str, str_bytes. rewrite map_map.
  rewrite <- (String.string_of_list_ascii_of_string s) at 2. f_equal.
  rewrite <- map_id. apply map_ext. intros c. unfold ascii_of, byte_of. rewrite N2Z.id. apply Ascii.ascii_N_embedding.
Qed.

Lemma str_bytes_app s t : str_bytes (s +:+ t) = (str_bytes s ++ str_bytes t)%list.
Proof. unfold str_bytes. induction s as [|c s IH]; [done|]. rewrite append_cons. cbn. by f_equal. Qed.

(** Only an ASCII rune ends in its own byte. *)
Lemma encode_rune_last r p c : c < 128 → valid_rune r = true → encode_rune r = (p ++ [c])%list → r = c ∧ p = [].
Proof.
  rewrite valid_rune_spec. intros Hc Hr. unfold encode_rune. intros E.
  assert (last (encode_rune r) = Some c) as L by (unfold encode_rune; rewrite E; apply last_snoc).
  unfold encode_rune in L. repeat case_bool_decide; cbn in L; injection L as L;
    try (exfalso; Z.to_euclidean_division_equations; lia).
  subst. destruct p as [|x p]; [done|]. by destruct p.
Qed.
