(* ===== verification/Json.v ===== *)
(** * JSON trees

    A value decoded by [encoding/json] into [any], with [map[string]any] as a
    finite map: two objects with the same members are equal, whatever order
    Go would iterate them in.  [JInt] is an integer that Go code stored in
    such a tree before it is encoded; decoding gives [JFloat] for every
    number.  [JSON] is the text encoding itself, with its round trip as law. *)

From Stdlib Require Import SpecFloat.
From S2P Require Import Prelude GoValue Utf8.

Inductive json : Type :=
| JNull
| JBool (b : bool)
| JStr (s : string)
| JFloat (f : spec_float)
| JInt (z : Z)
| JArr (l : list json)
| JObj (m : gmap string json).

Abbreviation jobject := (gmap string json).

Definition as_obj (v : json) : option jobject := match v with JObj m => Some m | _ => None end.
Definition as_arr (v : json) : option (list json) := match v with JArr l => Some l | _ => None end.
Definition as_str (v : json) : option string := match v with JStr s => Some s | _ => None end.

(** [s, _ := m[k].(string)] *)
Definition str_field (m : jobject) (k : string) : string :=
  match m !! k with Some (JStr s) => s | _ => "" end.

(** ** Nesting *)

Fixpoint list_max (l : list nat) : nat :=
  match l with [] => 0%nat | n :: l => Nat.max n (list_max l) end.

Fixpoint jdepth (v : json) : nat :=
  match v with
  | JArr l => S (list_max (map jdepth l))
  | JObj m => S (list_max (map snd (map_to_list (jdepth <$> m))))
  | _ => 1
  end.

Lemma list_max_elem n l : n ∈ l → (n ≤ list_max l)%nat.
Proof.
  induction l as [|x l IH]; [by intros ?%elem_of_nil|]. cbn. intros [->|Hn%IH]%elem_of_cons; lia.
Qed.

Lemma list_max_le l b : (∀ n, n ∈ l → (n ≤ b)%nat) → (list_max l ≤ b)%nat.
Proof.
  induction l as [|x l IH]; cbn; [lia|]. intros H. pose proof (H x (list_elem_of_here _ _)).
  assert (list_max l ≤ b)%nat by (apply IH; set_solver). lia.
Qed.

Lemma jdepth_elem v l : v ∈ l → (jdepth v < jdepth (JArr l))%nat.
Proof.
  intros Hv. cbn. apply Nat.lt_succ_r, list_max_elem, list_elem_of_In, in_map, list_elem_of_In, Hv.
Qed.

Lemma elem_of_map_snd {A} (m : gmap string A) x : x ∈ map snd (map_to_list m) ↔ ∃ k, m !! k = Some x.
Proof.
  rewrite list_elem_of_In, in_map_iff. setoid_rewrite <- elem_of_map_to_list. split.
  - intros ([k y] & <- & H). exists k. by apply list_elem_of_In.
  - intros (k & H). exists (k, x). split; [done|]. by apply list_elem_of_In.
Qed.

Lemma jdepth_member v m k : m !! k = Some v → (jdepth v < jdepth (JObj m))%nat.
Proof.
  intros Hv. cbn. apply Nat.lt_succ_r, list_max_elem, elem_of_map_snd. exists k. by rewrite lookup_fmap, Hv.
Qed.

Lemma jdepth_pos v : (0 < jdepth v)%nat.
Proof. destruct v; cbn; lia. Qed.

Lemma json_nested_ind (P : json → Prop) :
  P JNull → (∀ b, P (JBool b)) → (∀ s, P (JStr s)) → (∀ f, P (JFloat f)) → (∀ z, P (JInt z)) →
  (∀ l, (∀ v, v ∈ l → P v) → P (JArr l)) →
  (∀ m, (∀ k v, m !! k = Some v → P v) → P (JObj m)) → ∀ v, P v.
Proof.
  intros H0 H1 H2 H3 H4 Ha Ho v. remember (jdepth v) as n eqn:Hn. revert v Hn.
  induction n as [n IH] using lt_wf_ind. intros v ->. destruct v; try done.
  - apply Ha. intros v Hv. eapply IH; [|done]. by apply jdepth_elem.
  - apply Ho. intros k v Hv. eapply IH; [|done]. by eapply jdepth_member.
Qed.

(** ** Finite maps of results *)

Definition sequence_map {A} (m : gmap string (option A)) : option (gmap string A) :=
  if bool_decide (map_Forall (fun _ o => is_Some o) m) then Some (omap id m) else None.

Lemma sequence_map_Some {A} (m : gmap string (option A)) m' : sequence_map m = Some m' ↔ m = Some <$> m'.
Proof.
  unfold sequence_map. case_bool_decide as Hm.
  - split; [intros [= <-]|intros ->; f_equal]; apply map_eq; intros k; rewrite ?lookup_fmap, lookup_omap, ?lookup_fmap.
    + destruct (m !! k) as [o|] eqn:E; [|done]. destruct (Hm k o E) as [x ->]. done.
    + by destruct (m' !! k).
  - split; [done|]. intros ->. destruct Hm. intros k o. rewrite lookup_fmap. destruct (m' !! k); naive_solver.
Qed.

Lemma sequence_map_fmap {A B} (f : A → option B) m m' :
  sequence_map (f <$> m) = Some m' ↔
  (∀ k, match m !! k with Some a => ∃ b, f a = Some b ∧ m' !! k = Some b | None => m' !! k = None end).
Proof.
  rewrite sequence_map_Some. split.
  - intros E k. pose proof (f_equal (.!! k) E) as Ek. rewrite !lookup_fmap in Ek.
    destruct (m !! k) as [a|], (m' !! k) as [b|]; naive_solver.
  - intros H. apply map_eq. intros k. specialize (H k). rewrite !lookup_fmap.
    destruct (m !! k) as [a|]; [destruct H as (b & E & ->); cbn; by rewrite E|]. by rewrite H.
Qed.

(** ** Numbers *)

(** [math.Trunc], as an integer. *)
Definition float_trunc (f : spec_float) : option Z :=
  match f with
  | S754_zero _ => Some 0
  | S754_finite s m e =>
      let a := if s then Z.neg m else Z.pos m in
      Some (if bool_decide (0 ≤ e) then a * 2 ^ e else Z.quot a (2 ^ (- e)))
  | _ => None
  end.

Definition finite (f : spec_float) : bool :=
  match f with S754_zero _ | S754_finite _ _ _ => true | _ => false end.

(** What the machine gives for [int64(f)] when [f] has no integer part in
    range, which Go leaves to the implementation. *)
Class Arch := { int64_overflow : spec_float → Z }.

Definition float_int64 `{Arch} (f : spec_float) : Z :=
  match float_trunc f with
  | Some z => if bool_decide (- 2 ^ 63 ≤ z < 2 ^ 63) then z else int64_overflow f
  | None => int64_overflow f
  end.

Definition float_of_Z (z : Z) : spec_float := binary_normalize 53 1024 z 0 false.

(** ** Text *)

(** A string [encoding/json] writes as it is: valid UTF-8. *)
Definition utf8_valid (s : string) : bool := bool_decide (of_runes (to_runes s) = s).

(** The values that survive being written and read. *)
Fixpoint plain (v : json) : bool :=
  match v with
  | JNull | JBool _ | JInt _ => true
  | JStr s => utf8_valid s
  | JFloat f => finite f
  | JArr l => forallb plain l
  | JObj m => forallb utf8_valid (map fst (map_to_list m)) && forallb id (map snd (map_to_list (plain <$> m)))
  end.

(** What a value is after being written and read: integers are floats. *)
Fixpoint decoded (v : json) : json :=
  match v with
  | JInt z => JFloat (float_of_Z z)
  | JArr l => JArr (map decoded l)
  | JObj m => JObj (decoded <$> m)
  | v => v
  end.

(** [json.Marshal] and [json.Unmarshal] into [any]. *)
Class JSON := {
  Marshal : json → option string;
  Unmarshal : string → option json
}.
Class JSONLaws `{JSON} : Prop := {
  Unmarshal_Marshal : ∀ v, plain v = true → ∃ s, Marshal v = Some s ∧ Unmarshal s = Some (decoded v);
  Marshal_nonempty : ∀ v, Marshal v ≠ Some ""
}.

(** [json.Unmarshal] into a [map[string]any]: null gives no members. *)
Definition UnmarshalMap `{JSON} (s : string) : option jobject :=
  match Unmarshal s with
  | Some (JObj m) => Some m
  | Some JNull => Some ∅
  | _ => None
  end.

(** A tree without integers is read back as it is. *)
Fixpoint no_ints (v : json) : bool :=
  match v with
  | JInt _ => false
  | JArr l => forallb no_ints l
  | JObj m => forallb id (map snd (map_to_list (no_ints <$> m)))
  | _ => true
  end.

Lemma forallb_elem {A} (f : A → bool) l : forallb f l = true ↔ ∀ x, x ∈ l → f x = true.
Proof. rewrite forallb_forall. by setoid_rewrite list_elem_of_In. Qed.

Lemma forallb_members {A} (f : A → bool) (m : gmap string A) :
  forallb id (map snd (map_to_list (f <$> m))) = true ↔ ∀ k v, m !! k = Some v → f v = true.
Proof.
  rewrite forallb_elem. setoid_rewrite elem_of_map_snd. setoid_rewrite lookup_fmap. split.
  - intros H k v Hv. apply (H (f v)). exists k. by rewrite Hv.
  - intros H b (k & Hk). destruct (m !! k) as [v|] eqn:E; [|done]. cbn in Hk. injection Hk as <-. by apply (H k).
Qed.

Lemma decoded_no_ints v : no_ints v = true → decoded v = v.
Proof.
  induction v as [| | | | |l IH|m IH] using json_nested_ind; cbn; intros H; try done.
  - f_equal. rewrite forallb_elem in H. rewrite <- (map_id l) at 2. apply map_ext_in. intros v Hv%list_elem_of_In. auto.
  - f_equal. rewrite forallb_members in H. apply map_eq. intros k. rewrite lookup_fmap.
    destruct (m !! k) as [v|] eqn:E; [|done]. cbn. f_equal. eauto.
Qed.

Lemma ascii_runes s : (∀ c, c ∈ String.list_ascii_of_string s → byte_of c < 128) → utf8_valid s = true.
Proof.
  intros H. apply bool_decide_eq_true. unfold of_runes, to_runes.
  enough (flat_map (fun r => encode_rune (if valid_rune r then r else RuneError))
            (decode_runes (length (str_bytes s)) (str_bytes s)) = str_bytes s) as -> by apply bytes_str_bytes.
  unfold str_bytes. induction (String.list_ascii_of_string s) as [|c l IH]; [done|]. cbn.
  assert (byte_of c < 128) as Hc by (apply H; set_solver).
  assert (0 ≤ byte_of c) by (unfold byte_of; lia).
  unfold decode_rune. rewrite (bool_decide_eq_true_2 (byte_of c < 128)) by done. cbn.
  rewrite (proj2 (valid_rune_spec (byte_of c))) by lia. unfold encode_rune at 1.
  rewrite bool_decide_eq_true_2 by done. cbn. f_equal. apply IH. set_solver.
Qed.

(** ** Integers a [float64] holds exactly *)

Lemma digits2_bounds p : 2 ^ (Z.pos (digits2_pos p) - 1) ≤ Z.pos p < 2 ^ Z.pos (digits2_pos p).
Proof.
  induction p as [p IH|p IH|]; cbn [digits2_pos]; [| |done];
    rewrite Pos2Z.inj_succ, Z.pow_succ_r by lia;
    replace (Z.succ (Z.pos (digits2_pos p)) - 1) with (Z.succ (Z.pos (digits2_pos p) - 1)) by lia;
    rewrite Z.pow_succ_r by lia; lia.
Qed.

Lemma digits2_shift p d : Z.pos (digits2_pos (Pos.iter xO p d)) = Z.pos (digits2_pos p) + Z.pos d.
Proof.
  induction d as [|d IH] using Pos.peano_ind; [cbn; lia|]. rewrite Pos.iter_succ. cbn [digits2_pos].
  rewrite Pos2Z.inj_succ, IH. lia.
Qed.

Lemma iter_xO_value p d : Z.pos (Pos.iter xO p d) = Z.pos p * 2 ^ Z.pos d.
Proof.
  induction d as [|d IH] using Pos.peano_ind; [cbn; lia|]. rewrite Pos.iter_succ, Pos2Z.inj_succ, Z.pow_succ_r by lia.
  rewrite Pos2Z.inj_xO, IH. lia.
Qed.

(** A mantissa of full width is not rounded. *)
Lemma round_full s m e : Z.pos (digits2_pos m) = 53 → - 53 < e ≤ 971 → binary_round_aux 53 1024 s (Z.pos m) e loc_Exact = S754_finite s m e.
Proof.
  intros Hd He. unfold binary_round_aux, shr_fexp. cbn [Zdigits2 shr_record_of_loc].
  assert (fexp 53 1024 (Z.pos (digits2_pos m) + e) - e = 0) as Hf by (rewrite Hd; unfold fexp, emin; lia).
  rewrite Hf. cbn [shr shr_m loc_of_shr_record round_nearest_even Zdigits2]. rewrite Hf. cbn [shr shr_m].
  by rewrite (proj2 (Z.leb_le e (1024 - 53))) by lia.
Qed.

Lemma binary_round_small s p : Z.pos p < 2 ^ 53 →
  ∃ m e, binary_round 53 1024 s p 0 = S754_finite s m e ∧ -53 < e ≤ 0 ∧ Z.pos m = Z.pos p * 2 ^ (- e).
Proof.
  intros Hp. pose proof (digits2_bounds p) as [Hlo _]. unfold binary_round. rewrite Z.add_0_r.
  assert (Z.pos (digits2_pos p) ≤ 53) as Hd.
  { apply Z.nlt_ge. intros Hgt. assert (2 ^ 53 ≤ 2 ^ (Z.pos (digits2_pos p) - 1)) by (apply Z.pow_le_mono_r; lia). lia. }
  assert (fexp 53 1024 (Z.pos (digits2_pos p)) = Z.pos (digits2_pos p) - 53) as -> by (unfold fexp, emin; lia).
  unfold shl_align. rewrite Z.sub_0_r. destruct (Z.pos (digits2_pos p) - 53) as [|d|d] eqn:E; [|lia|].
  - exists p, 0. split_and!; [|lia..]. apply round_full; lia.
  - exists (Pos.iter xO p d), (Z.neg d). split_and!; [|lia..|by rewrite iter_xO_value].
    apply round_full; [rewrite digits2_shift|]; lia.
Qed.

Lemma float_of_Z_trunc z : Z.abs z < 2 ^ 53 → float_trunc (float_of_Z z) = Some z ∧ finite (float_of_Z z) = true.
Proof.
  intros Hz. unfold float_of_Z, binary_normalize. destruct z as [|p|p]; [done| |].
  - destruct (binary_round_small false p) as (m & e & -> & He & Hm); [lia|]. split; [|done]. cbn. f_equal.
    case_bool_decide; [replace e with 0 in * by lia; lia|]. rewrite Hm. apply Z.quot_mul. lia.
  - destruct (binary_round_small true p) as (m & e & -> & He & Hm); [lia|]. split; [|done]. cbn. f_equal.
    assert (Z.neg m = Z.neg p * 2 ^ (- e)) as E by lia. rewrite E.
    case_bool_decide; [replace e with 0 in * by lia; lia|]. apply Z.quot_mul. lia.
Qed.

Lemma float_int64_of_Z `{Arch} z : Z.abs z < 2 ^ 53 → float_int64 (float_of_Z z) = z.
Proof.
  intros Hz. unfold float_int64. destruct (float_of_Z_trunc z Hz) as [-> _]. rewrite bool_decide_eq_true_2; [done|lia].
Qed.
