(* ===== verification/Jwt.v ===== *)
(** * JSON Web Tokens

    The parts of golang-jwt (vendored) that the token handling of the program
    rests on: signing, parsing with and without verification, the registered
    methods, and the [exp] and [nbf] checks of [MapClaims].  Signatures are an
    interface; [GetSigningMethodFromKey] is [pkg/jose/jwt.go]. *)

From Stdlib Require Import SpecFloat.
From S2P Require Import Prelude GoStrings Base64 GoValue Utf8 Json.

(** ** base64url of strings *)

Definition b64 (s : string) : string := RawURLEncoding.EncodeToString (str_bytes s).
Definition unb64 (s : string) : option string := bytes_str <$> RawURLEncoding.DecodeString s.

Lemma str_bytes_range s : Forall in_uint8 (str_bytes s).
Proof.
  unfold str_bytes. apply Forall_forall. intros z (c & -> & _)%list_elem_of_fmap. unfold in_uint8, byte_of.
  pose proof (Ascii.N_ascii_bounded c). lia.
Qed.

Lemma unb64_b64 s : unb64 (b64 s) = Some s.
Proof.
  unfold unb64, b64. rewrite RawURLEncoding.DecodeString_EncodeToString by apply str_bytes_range.
  cbn. by rewrite bytes_str_bytes.
Qed.

(** Every character of the text is of the alphabet. *)
Lemma enc6_alphabet v : RawURLEncoding.enc6 v ∈ RawURLEncoding.alphabet.
Proof.
  unfold RawURLEncoding.enc6.
  destruct (nth_in_or_default (Z.to_nat v) RawURLEncoding.alphabet "A"%char) as [H| ->].
  - by apply list_elem_of_In.
  - by apply list_elem_of_here.
Qed.

Lemma encode_alphabet l c : c ∈ RawURLEncoding.encode l → c ∈ RawURLEncoding.alphabet.
Proof.
  induction l as [|a|a b|a b d r IH] using RawURLEncoding.list_ind3;
    cbn -[RawURLEncoding.enc6 RawURLEncoding.alphabet Z.mul Z.div Z.modulo Z.add];
    rewrite ?elem_of_cons, ?elem_of_nil;
    intros H; repeat destruct H as [->|H]; try apply enc6_alphabet; auto; done.
Qed.

Lemma has_byte_elem c s : has_byte c s = true ↔ c ∈ String.list_ascii_of_string s.
Proof.
  induction s as [|d s IH]; cbn; [split; [done|by intros ?%elem_of_nil]|].
  rewrite orb_true_iff, bool_decide_eq_true, elem_of_cons, IH. split; intros [?|?]; auto.
Qed.

Lemma b64_no_sep c s : bool_decide (c ∈ RawURLEncoding.alphabet) = false → has_byte c (b64 s) = false.
Proof.
  intros Hc%bool_decide_eq_false. apply not_true_is_false. rewrite has_byte_elem. unfold b64, RawURLEncoding.EncodeToString.
  rewrite String.list_ascii_of_string_of_list_ascii. intros H%encode_alphabet. done.
Qed.

Lemma b64_utf8 s : utf8_valid (b64 s) = true.
Proof.
  apply ascii_runes. intros c. unfold b64, RawURLEncoding.EncodeToString.
  rewrite String.list_ascii_of_string_of_list_ascii. intros H%encode_alphabet.
  assert (forallb (fun c => bool_decide (byte_of c < 128)) RawURLEncoding.alphabet = true) as Ha by reflexivity.
  rewrite forallb_elem in Ha. apply (bool_decide_eq_true (byte_of c < 128)). by apply Ha.
Qed.

Lemma b64_empty s : b64 s = "" → s = "".
Proof.
  intros E. pose proof (unb64_b64 s) as H. rewrite E in H. cbn in H. unfold unb64, RawURLEncoding.DecodeString in H.
  cbn in H. by injection H as <-.
Qed.

(** ** Methods and keys *)

Inductive sig_method := MHmac | MRsa | MRsaPss | MEcdsa | MEd25519 | MNone.
#[global] Instance sig_method_eq_dec : EqDecision sig_method.
Proof. solve_decision. Defined.

Definition GetSigningMethod (alg : string) : option sig_method :=
  if bool_decide (alg ∈ ["HS256"; "HS384"; "HS512"]) then Some MHmac else
  if bool_decide (alg ∈ ["RS256"; "RS384"; "RS512"]) then Some MRsa else
  if bool_decide (alg ∈ ["PS256"; "PS384"; "PS512"]) then Some MRsaPss else
  if bool_decide (alg ∈ ["ES256"; "ES384"; "ES512"]) then Some MEcdsa else
  if bool_decide (alg = "EdDSA") then Some MEd25519 else
  if bool_decide (alg = "none") then Some MNone else None.

(** The dynamic type of a key. *)
Inductive key_type := KEcdsa | KRsa | KEd25519 | KOther.
#[global] Instance key_type_eq_dec : EqDecision key_type.
Proof. solve_decision. Defined.

(** What is read of a private key: the modulus length or the curve's name. *)
Inductive priv_view := PrivRsa (bits : Z) | PrivEcdsa (curve : string) | PrivOther.

Definition GetSigningMethodFromKey (k : priv_view) : string :=
  match k with
  | PrivRsa bits =>
      if bool_decide (4096 ≤ bits) then "RS512" else if bool_decide (3072 ≤ bits) then "RS384" else "RS256"
  | PrivEcdsa curve =>
      if bool_decide (curve = "P-256") then "ES256" else
      if bool_decide (curve = "P-384") then "ES384" else
      if bool_decide (curve = "P-521") then "ES512" else "ES256"
  | PrivOther => "ES256"
  end.

(** Signing and verification, by the name of the method. *)
Class Signatures := {
  sig_key : Type;
  sig_priv : Type;
  sig_public : sig_priv → sig_key;
  key_type_of : sig_key → key_type;
  view_of : sig_priv → priv_view;
  sig_sign : string → sig_priv → string → option string;
  sig_verify : string → sig_key → string → string → bool
}.
Class SignaturesLaws `{Signatures} : Prop := {
  sig_verify_sign : ∀ alg sk text sig,
    sig_sign alg sk text = Some sig → sig_verify alg (sig_public sk) text sig = true;
  rsa_key : ∀ sk bits, view_of sk = PrivRsa bits → key_type_of (sig_public sk) = KRsa;
  ecdsa_key : ∀ sk curve, view_of sk = PrivEcdsa curve → key_type_of (sig_public sk) = KEcdsa
}.

(** ** Tokens *)

Record Token := mkToken {
  Header : jobject;
  Claims : jobject;
  Alg : string;
  Method : sig_method;
  signed_text : string;
  Signature : string
}.

Inductive jwt_error :=
| TokenMalformed | TokenUnverifiable | MethodInvalid | KeyfuncFailed | SignatureInvalid | ClaimsInvalid.
#[global] Instance jwt_error_eq_dec : EqDecision jwt_error.
Proof. solve_decision. Defined.

(** [splitToken]: exactly two delimiters. *)
Definition splitToken (token : string) : option (string * string * string) :=
  '(header, remain) ← Cut "." token;
  '(claims, signature) ← Cut "." remain;
  match Cut "." signature with None => Some (header, claims, signature) | Some _ => None end.

Section jwt.
Context `{JSON} `{Arch} `{Signatures}.

Definition or_malformed {A} (o : option A) : result jwt_error A :=
  match o with Some a => Ok a | None => Err TokenMalformed end.

Definition ParseUnverified (token : string) : result jwt_error Token :=
  '(h, c, s) ← or_malformed (splitToken token);
  header ← or_malformed (unb64 h ≫= UnmarshalMap);
  claims ← or_malformed (unb64 c ≫= UnmarshalMap);
  match header !! "alg" with
  | Some (JStr alg) =>
      match GetSigningMethod alg with
      | Some m =>
          sig ← or_malformed (unb64 s);
          Ok (mkToken header claims alg m (h +:+ "." +:+ c) sig)
      | None => Err TokenUnverifiable
      end
  | _ => Err TokenUnverifiable
  end.

(** The header and claims [ParseUnverified] leaves in the token it returns
    beside an error; nothing when the token does not split. *)
Definition parsed_so_far (token : string) : option (jobject * jobject) :=
  '(h, c, _) ← splitToken token;
  match unb64 h ≫= UnmarshalMap with
  | Some header =>
      Some (header, match unb64 c ≫= UnmarshalMap with Some claims => claims | None => ∅ end)
  | None => Some (∅, ∅)
  end.

(** ** Times in claims *)

(** [math.Modf]'s fraction *)
Definition float_frac (f : spec_float) : spec_float :=
  match f with
  | S754_finite s m e =>
      if bool_decide (0 ≤ e) then S754_zero s
      else binary_normalize 53 1024 (Z.rem (if s then Z.neg m else Z.pos m) (2 ^ (- e))) e s
  | S754_zero s => S754_zero s
  | f => f
  end.

(** [newNumericDateFromSeconds], truncated to the second *)
Definition numeric_date (f : spec_float) : Z :=
  let nsec := float_int64 (SFmul 53 1024 (float_frac f) (float_of_Z 1000000000)) in
  time_Unix (float_int64 f + nsec / second).

(** [parseNumericDate]: absent and zero are no date. *)
Definition parseNumericDate (m : jobject) (key : string) : result jwt_error (option Z) :=
  match m !! key with
  | None => Ok None
  | Some (JFloat (S754_zero _)) => Ok None
  | Some (JFloat f) => Ok (Some (numeric_date f))
  | Some _ => Err ClaimsInvalid
  end.

(** [Validator.Validate] with no expectations set *)
Definition validClaims (m : jobject) (now : Z) : bool :=
  match parseNumericDate m "exp" with
  | Ok (Some e) => bool_decide (now < e)
  | Ok None => true
  | Err _ => false
  end &&
  match parseNumericDate m "nbf" with
  | Ok (Some b) => negb (bool_decide (now < b))
  | Ok None => true
  | Err _ => false
  end.

(** ** Parsing *)

(** [Parser.Parse]; [now] is [None] under [WithoutClaimsValidation]. *)
Definition Parse (methods : option (list string)) (keyfunc : Token → option sig_key) (now : option Z)
    (token : string) : result jwt_error Token :=
  t ← ParseUnverified token;
  if match methods with Some ms => negb (bool_decide (Alg t ∈ ms)) | None => false end then Err MethodInvalid else
  match keyfunc t with
  | None => Err KeyfuncFailed
  | Some key =>
      if negb (sig_verify (Alg t) key (signed_text t) (Signature t)) then Err SignatureInvalid else
      if match now with Some n => negb (validClaims (Claims t) n) | None => false end then Err ClaimsInvalid
      else Ok t
  end.

(** ** Signing *)

Definition SigningString (header claims : jobject) : option string :=
  h ← Marshal (JObj header); c ← Marshal (JObj claims); Some (b64 h +:+ "." +:+ b64 c).

(** [Token.SignedString] with the method named [alg] *)
Definition SignedString (alg : string) (key : sig_priv) (header claims : jobject) : option string :=
  text ← SigningString header claims;
  sig ← sig_sign alg key text;
  Some (text +:+ "." +:+ b64 sig).

(** ** A signed token parses *)

Lemma splitToken_dots h c s :
  has_byte "." h = false → has_byte "." c = false → has_byte "." s = false →
  splitToken ((h +:+ "." +:+ c) +:+ "." +:+ s) = Some (h, c, s).
Proof.
  intros Hh Hc Hs. unfold splitToken.
  replace ((h +:+ "." +:+ c) +:+ "." +:+ s) with (h +:+ String "." (c +:+ String "." s)) by (by rewrite !append_assoc_str).
  rewrite Cut_app by done. cbn. rewrite Cut_app by done. cbn. by rewrite Cut_None.
Qed.

(** The two ways the source cuts a compact token agree. *)
Lemma splitToken_Split s h c g : splitToken s = Some (h, c, g) ↔ Split "." s = [h; c; g].
Proof.
  unfold splitToken. split.
  - destruct (Cut "." s) as [[h' r]|] eqn:E1; [|done]. cbn. destruct (Cut "." r) as [[c' g']|] eqn:E2; [|done]. cbn.
    destruct (Cut "." g') eqn:E3; [done|]. intros [= -> -> ->].
    by rewrite (Split_Cut _ _ _ _ E1), (Split_Cut _ _ _ _ E2), (Split_Cut_None _ _ E3).
  - destruct (Cut "." s) as [[h' r]|] eqn:E1; [|by rewrite (Split_Cut_None _ _ E1)].
    rewrite (Split_Cut _ _ _ _ E1). cbn. destruct (Cut "." r) as [[c' g']|] eqn:E2; [|by rewrite (Split_Cut_None _ _ E2)].
    rewrite (Split_Cut _ _ _ _ E2). cbn. destruct (Cut "." g') as [[x y]|] eqn:E3.
    + rewrite (Split_Cut _ _ _ _ E3). pose proof (Split_nonempty "." y). by destruct (Split "." y).
    + rewrite (Split_Cut_None _ _ E3). by intros [= -> -> ->].
Qed.

Lemma ParseUnverified_parts p t :
  ParseUnverified p = Ok t → ∃ h c s, Split "." p = [h; c; s] ∧ unb64 h ≫= UnmarshalMap = Some (Header t) ∧
    unb64 c ≫= UnmarshalMap = Some (Claims t).
Proof.
  unfold ParseUnverified. intros ([[h c] s] & Es & Hp)%bind_Ok. destruct (splitToken p) as [[[h' c'] s']|] eqn:E; [|done].
  injection Es as -> -> ->. apply splitToken_Split in E. exists h, c, s. split; [done|].
  apply bind_Ok in Hp as (header & Eh & Hp). apply bind_Ok in Hp as (claims & Ec & Hp).
  destruct (unb64 h ≫= UnmarshalMap) as [m1|] eqn:E1; [|done]. destruct (unb64 c ≫= UnmarshalMap) as [m2|] eqn:E2; [|done].
  injection Eh as ->. injection Ec as ->. repeat case_match; try done. destruct (unb64 s); [|done]. by injection Hp as <-.
Qed.

Context `{!JSONLaws} `{!SignaturesLaws}.

Definition decoded_map (m : jobject) : jobject := decoded <$> m.

Lemma Marshal_map (m : jobject) s :
  plain (JObj m) = true → Marshal (JObj m) = Some s → UnmarshalMap s = Some (decoded_map m).
Proof.
  intros Hp Hm. destruct (Unmarshal_Marshal (JObj m) Hp) as (s' & E & Eu). rewrite E in Hm. injection Hm as ->.
  unfold UnmarshalMap. rewrite Eu. done.
Qed.

(** A signed token is read back as what was signed. *)
Lemma ParseUnverified_signed alg key header claims tok m :
  SignedString alg key header claims = Some tok →
  plain (JObj header) = true → plain (JObj claims) = true →
  header !! "alg" = Some (JStr alg) → GetSigningMethod alg = Some m →
  ∃ text sig, sig_sign alg key text = Some sig ∧
    ParseUnverified tok = Ok (mkToken (decoded_map header) (decoded_map claims) alg m text sig).
Proof.
  intros Hs Hph Hpc Ha Hm. unfold SignedString, SigningString in Hs.
  destruct (Marshal (JObj header)) as [h|] eqn:Eh; [|done]. cbn in Hs.
  destruct (Marshal (JObj claims)) as [c|] eqn:Ec; [|done]. cbn in Hs.
  destruct (sig_sign alg key _) as [sig|] eqn:Es; [|done]. cbn in Hs. injection Hs as <-.
  exists (b64 h +:+ "." +:+ b64 c), sig. split; [done|].
  unfold ParseUnverified. rewrite splitToken_dots by (by apply b64_no_sep). cbn.
  rewrite !unb64_b64. cbn. rewrite (Marshal_map header h), (Marshal_map claims c) by done. cbn.
  unfold decoded_map at 1. rewrite lookup_fmap, Ha. cbn. by rewrite Hm.
Qed.

(** And verifies under the public key, at a time its claims allow. *)
Lemma Parse_signed alg key header claims tok m methods keyfunc now :
  SignedString alg key header claims = Some tok →
  plain (JObj header) = true → plain (JObj claims) = true →
  header !! "alg" = Some (JStr alg) → GetSigningMethod alg = Some m →
  match methods with Some ms => alg ∈ ms | None => True end →
  (∀ text sig, keyfunc (mkToken (decoded_map header) (decoded_map claims) alg m text sig) = Some (sig_public key)) →
  match now with Some n => validClaims (decoded_map claims) n = true | None => True end →
  ∃ text sig, Parse methods keyfunc now tok = Ok (mkToken (decoded_map header) (decoded_map claims) alg m text sig).
Proof.
  intros Hs Hph Hpc Ha Hm Hms Hk Hn.
  destruct (ParseUnverified_signed _ _ _ _ _ _ Hs Hph Hpc Ha Hm) as (text & sig & Hsig & E).
  exists text, sig. unfold Parse. rewrite E. cbn.
  assert (match methods with Some ms => negb (bool_decide (alg ∈ ms)) | None => false end = false) as ->.
  { destruct methods; [|done]. by rewrite bool_decide_eq_true_2. }
  rewrite Hk, (sig_verify_sign _ _ _ _ Hsig). cbn. by destruct now as [n|]; [rewrite Hn|].
Qed.

(** What parses is what was in the text, under a key that verifies it. *)
Lemma Parse_Ok methods keyfunc now tok t :
  Parse methods keyfunc now tok = Ok t →
  ParseUnverified tok = Ok t ∧ (∃ key, keyfunc t = Some key ∧ sig_verify (Alg t) key (signed_text t) (Signature t) = true) ∧
  match methods with Some ms => Alg t ∈ ms | None => True end ∧
  match now with Some n => validClaims (Claims t) n = true | None => True end.
Proof.
  unfold Parse. intros (t' & E & Ht)%bind_Ok.
  destruct (match methods with Some ms => _ | None => _ end) eqn:Em; [done|].
  destruct (keyfunc t') as [key|] eqn:Ek; [|done]. destruct (sig_verify _ _ _ _) eqn:Ev; [|done]. cbn in Ht.
  destruct (match now with Some n => _ | None => _ end) eqn:En; [done|]. injection Ht as ->.
  split_and!; [done| by exists key| |].
  - destruct methods; [|done]. by apply negb_false_iff, bool_decide_eq_true in Em.
  - destruct now; [|done]. by apply negb_false_iff in En.
Qed.
End jwt.
