(* ===== verification/SdJwt.v ===== *)
(** * Selective disclosure

    [pkg/sdjwtvc]: the disclosures of an SD-JWT ([types.go], [parseDisclosure]
    of [verification.go]), the digests a claims tree refers to, the search for
    those an issuer has vouched for ([collectAnchoredHashes]) and the two
    functions that put disclosed values back in place: [reconstructNode] of
    [verification.go] and [resolveNode] of [utils.go].

    Objects are finite maps, so the result does not depend on the order in
    which Go ranges over a map.  A disclosed object is copied where the Go
    code shares it between the claims and the list of disclosures; the two
    differ only for a digest that is referred to more than once.  The two
    resolvers recurse into disclosed values, so they take fuel: running out of
    it ([None]) is the recursion that does not end. *)

From S2P Require Import Prelude GoStrings Base64 GoValue Utf8 Json Jwt.

(** ** Hashes *)

(** A hash function of the standard library by its registered name. *)
Class Hashes := { hash_sum : string → string → string }.

Definition hash_names : list string := ["sha-256"; "sha-384"; "sha-512"; "sha3-256"; "sha3-512"].

Definition getHashFromAlgorithm `{Hashes} (algName : string) : option (string → string) :=
  if bool_decide (algName ∈ hash_names) then Some (hash_sum algName) else None.

(** [base64.RawURLEncoding.EncodeToString(h.Sum(nil))] of a text *)
Definition digest (h : string → string) (s : string) : string := b64 (h s).

(** ** Disclosures *)

Record Discloser := mkDiscloser { d_Salt : string; d_ClaimName : string; d_Value : json; d_IsArray : bool }.

Record Disclosure := mkDisclosure { Salt : string; Claim : string; Value : json; Raw : string; Hash : string }.

Inductive disclosure_error :=
| NotBase64 | NotJSONArray | SaltNotString | NameNotString | WrongLength (n : nat).

Section disclosures.
Context `{JSON}.

(** [Discloser.Hash]: the digest and the encoded disclosure *)
Definition Discloser_Hash (h : string → string) (d : Discloser) : option (string * string) :=
  let array := if d_IsArray d then [JStr (d_Salt d); d_Value d]
               else [JStr (d_Salt d); JStr (d_ClaimName d); d_Value d] in
  text ← Marshal (JArr array);
  Some (digest h (b64 text), b64 text).

(** [json.Unmarshal] into [[]any] *)
Definition UnmarshalArray (s : string) : option (list json) :=
  match Unmarshal s with
  | Some (JArr l) => Some l
  | Some JNull => Some []
  | _ => None
  end.

Definition parseDisclosure (h : string → string) (s : string) : result disclosure_error Disclosure :=
  match unb64 s with
  | None => Err NotBase64
  | Some text =>
      match UnmarshalArray text with
      | None => Err NotJSONArray
      | Some [salt; claim; value] =>
          match salt with
          | JStr salt =>
              match claim with
              | JStr claim => Ok (mkDisclosure salt claim value s (digest h s))
              | _ => Err NameNotString
              end
          | _ => Err SaltNotString
          end
      | Some [salt; value] =>
          match salt with
          | JStr salt => Ok (mkDisclosure salt "" value s (digest h s))
          | _ => Err SaltNotString
          end
      | Some l => Err (WrongLength (length l))
      end
  end.

(** [resolveDisclosuresRecursive]'s reading of a disclosure, which does not
    look at the salt *)
Record sdParsedDisclosure := mkParsed { claimName : string; claimValue : json; isArray : bool }.

Definition parse_entry (s : string) : result disclosure_error sdParsedDisclosure :=
  match unb64 s with
  | None => Err NotBase64
  | Some text =>
      match UnmarshalArray text with
      | None => Err NotJSONArray
      | Some [_; value] => Ok (mkParsed "" value true)
      | Some [_; claim; value] =>
          match claim with JStr claim => Ok (mkParsed claim value false) | _ => Err NameNotString end
      | Some l => Err (WrongLength (length l))
      end
  end.
End disclosures.

(** ** Digests in a tree *)

(** An array element [{"...": digest}] *)
Definition marker (v : json) : option string :=
  match v with
  | JObj m => if bool_decide (size m = 1%nat) then match m !! "..." with Some (JStr h) => Some h | _ => None end else None
  | _ => None
  end.

(** The strings of an object's [_sd] array *)
Definition sd_digests (m : jobject) : list string :=
  match m !! "_sd" with Some (JArr l) => omap as_str l | _ => [] end.

(** [collectHashesFromValue], with [collectHashesFromNodeInto] on objects and
    [collectHashesFromArrayInto] on arrays *)
Fixpoint collectHashes (v : json) : gset string :=
  match v with
  | JArr l => ⋃ map (fun e => match marker e with Some h => {[h]} | None => collectHashes e end) l
  | JObj m => list_to_set (sd_digests m) ∪ ⋃ map snd (map_to_list (delete "_sd" (collectHashes <$> m)))
  | _ => ∅
  end.

Lemma collectHashes_arr l h :
  h ∈ collectHashes (JArr l) ↔ ∃ e, e ∈ l ∧ h ∈ match marker e with Some h => {[h]} | None => collectHashes e end.
Proof.
  cbn. rewrite elem_of_union_list. split.
  - intros (X & HX & Hh). apply list_elem_of_fmap in HX as (e & -> & He). eauto.
  - intros (e & He & Hh). eexists. split; [|exact Hh]. apply list_elem_of_fmap. eauto.
Qed.

Lemma collectHashes_obj m h :
  h ∈ collectHashes (JObj m) ↔ h ∈ sd_digests m ∨ ∃ k v, k ≠ "_sd" ∧ m !! k = Some v ∧ h ∈ collectHashes v.
Proof.
  cbn. rewrite elem_of_union, elem_of_list_to_set, elem_of_union_list. f_equiv. split.
  - intros (X & (k & Hk)%elem_of_map_snd & Hh). apply lookup_delete_Some in Hk as [Hne Hk].
    rewrite lookup_fmap in Hk. destruct (m !! k) as [v|] eqn:E; [|done]. injection Hk as <-. eauto.
  - intros (k & v & Hne & Hv & Hh). exists (collectHashes v). split; [|done]. apply elem_of_map_snd.
    exists k. rewrite lookup_delete_ne by done. by rewrite lookup_fmap, Hv.
Qed.

(** ** Putting values back *)

Section resolve.
Context {D : Type} (value : D → json) (claim_of : D → option string) (in_array : D → bool).

(** The claim a digest of an [_sd] array stands for, if it is disclosed *)
Definition sd_claim (dm : gmap string D) (h : string) : option (string * json) :=
  d ← dm !! h; name ← claim_of d; Some (name, value d).

Definition apply_sd (dm : gmap string D) (m : jobject) : jobject :=
  foldl (fun m h => match sd_claim dm h with Some (name, v) => <[name := v]> m | None => m end) m (sd_digests m).

Definition strip (m : jobject) : jobject := delete "_sd_alg" (delete "_sd" m).

(** The disclosure that stands behind an array entry *)
Definition hidden (dm : gmap string D) (e : json) : option D :=
  h ← marker e; d ← dm !! h; if in_array d then Some d else None.

Definition element (dm : gmap string D) (e : json) : json :=
  match hidden dm e with Some d => value d | None => e end.

Fixpoint resolve (dm : gmap string D) (fuel : nat) (v : json) : option json :=
  match fuel with
  | O => None
  | S fuel =>
      match v with
      | JObj m => JObj <$> sequence_map (resolve dm fuel <$> strip (apply_sd dm m))
      | JArr l => JArr <$> mapM (fun e => resolve dm fuel (element dm e)) l
      | v => Some v
      end
  end.
End resolve.

(** [disclosureMap[d.Hash] = d]: of equal digests the last one counts. *)
Definition disclosure_map (ds : list Disclosure) : gmap string Disclosure :=
  foldl (fun m d => <[Hash d := d]> m) ∅ ds.

(** [verification.go]: a claim name is not empty; any disclosure may stand in
    an array. *)
Definition named (d : Disclosure) : option string := if str_empty (Claim d) then None else Some (Claim d).

Definition reconstruct : gmap string Disclosure → nat → json → option json :=
  resolve Value named (fun _ => true).

(** [utils.go]: objects take the three-part disclosures, arrays the others. *)
Definition resolveNode : gmap string sdParsedDisclosure → nat → json → option json :=
  resolve claimValue (fun d => if isArray d then None else Some (claimName d)) isArray.

(** [cleanUnresolvedMarkers] and [cleanArrayMarkers] *)
Definition is_marker (v : json) : bool :=
  match v with JObj m => bool_decide (size m = 1%nat) && bool_decide (is_Some (m !! "...")) | _ => false end.

Fixpoint cleanMarkers (v : json) : json :=
  match v with
  | JArr l => JArr (omap (fun e => if is_marker e then None else Some (cleanMarkers e)) l)
  | JObj m => JObj (cleanMarkers <$> m)
  | v => v
  end.

(** ** What a tree of digests stands for

    [committed n v u]: under the disclosures [dm], every digest of [v] that is
    known stands for something, the claims an object hides have names of their
    own, and with everything disclosed [v] is [u].  [n] bounds the nesting of
    [u]. *)

Section committed.
Context {D : Type} (value : D → json) (claim_of : D → option string) (in_array : D → bool).
Implicit Types dm : gmap string D.

Abbreviation sd_claim := (sd_claim value claim_of).
Abbreviation element := (element value in_array).
Abbreviation resolve := (resolve value claim_of in_array).

Definition sd_claims dm (m : jobject) : list (string * json) := omap (sd_claim dm) (sd_digests m).

(** The claims are distinct, new and not reserved. *)
Definition proper_names dm (m : jobject) : Prop :=
  NoDup (sd_claims dm m).*1 ∧
  Forall (fun name => strip m !! name = None ∧ name ≠ "_sd" ∧ name ≠ "_sd_alg") (sd_claims dm m).*1.

(** The members of the object with everything disclosed *)
Definition members dm (m : jobject) : jobject := list_to_map (sd_claims dm m) ∪ strip m.

Definition scalar (v : json) : bool := match v with JArr _ | JObj _ => false | _ => true end.

Fixpoint committed dm (n : nat) (v u : json) : Prop :=
  match n with
  | O => False
  | S n =>
      match v, u with
      | JObj m, JObj us => proper_names dm m ∧ map_Forall2 (fun _ => committed dm n) (members dm m) us
      | JArr l, JArr us => Forall2 (fun e u => committed dm n (element dm e) u) l us
      | v, u => scalar v = true ∧ v = u
      end
  end.

(** What a partial disclosure may show of [u]: objects lack members, and an
    array shows a digest in place of an element. *)
Inductive part_of : json → json → Prop :=
| part_scalar v : part_of v v
| part_arr l us : Forall2 (fun e u => is_Some (marker e) ∨ part_of e u) l us → part_of (JArr l) (JArr us)
| part_obj m us : (∀ k v, m !! k = Some v → ∃ u, us !! k = Some u ∧ part_of v u) → part_of (JObj m) (JObj us).

Lemma strip_lookup m k : strip m !! k = if bool_decide (k = "_sd" ∨ k = "_sd_alg") then None else m !! k.
Proof.
  unfold strip. case_bool_decide as Hk.
  - destruct Hk as [-> | ->]; [|by simplify_map_eq]. rewrite lookup_delete_ne by done. by simplify_map_eq.
  - by rewrite !lookup_delete_ne by naive_solver.
Qed.

Lemma strip_insert m k v : k ≠ "_sd" → k ≠ "_sd_alg" → strip (<[k := v]> m) = <[k := v]> (strip m).
Proof. intros H1 H2. unfold strip. by rewrite !delete_insert_ne by done. Qed.

(** The loop over the digests leaves the members of the object. *)
Lemma strip_apply_sd dm m : proper_names dm m → strip (apply_sd value claim_of dm m) = members dm m.
Proof.
  unfold proper_names, apply_sd, members, sd_claims. intros [Hn Hf].
  assert (∀ m', strip m' = strip m →
    strip (foldl (fun m h => match sd_claim dm h with Some (name, v) => <[name := v]> m | None => m end) m' (sd_digests m)) =
    list_to_map (omap (sd_claim dm) (sd_digests m)) ∪ strip m') as Hgen; [|by apply Hgen].
  intros m' _. clear -Hn Hf. revert m' Hn Hf. generalize (strip m) as base.
  induction (sd_digests m) as [|h hs IH]; intros base m' Hn Hf; cbn.
  - by rewrite (map_empty_union (M:=gmap string)).
  - cbn in Hn, Hf. destruct (sd_claim dm h) as [[name v]|] eqn:E; [|by apply (IH base)].
    cbn in Hn, Hf. apply NoDup_cons in Hn as [Hnot Hn]. apply Forall_cons in Hf as [(Hb & H1 & H2) Hf].
    rewrite (IH base) by done. rewrite strip_insert by done. cbn.
    rewrite <- (insert_union_l _ _ name v). rewrite insert_union_r; [done|].
    apply not_elem_of_list_to_map_1. done.
Qed.

Lemma committed_resolve dm n v u : committed dm n v u → resolve dm n v = Some u.
Proof.
  revert v u. induction n as [|n IH]; [done|]. intros v u. cbn. destruct v, u; try (by intros [? [=]]).
  all: try (by intros [_ [= ->]]).
  - intros H. assert (mapM (fun e => resolve dm n (element dm e)) l = Some l0) as ->; [|done].
    apply mapM_Some. eapply Forall2_impl; [exact H|]. intros e u He. by apply IH.
  - intros [Hp H]. rewrite strip_apply_sd by done.
    assert (sequence_map (resolve dm n <$> members dm m) = Some m0) as ->; [|done].
    apply sequence_map_fmap. intros k. specialize (H k).
    destruct (members dm m !! k) as [v|], (m0 !! k) as [u|]; inversion H; subst; [|done]. eauto.
Qed.

Lemma committed_S dm n v u : committed dm n v u → committed dm (S n) v u.
Proof.
  revert v u. induction n as [|n IH]; [done|]. intros v u H.
  change (match v, u with
      | JObj m, JObj us => proper_names dm m ∧ map_Forall2 (fun _ => committed dm (S n)) (members dm m) us
      | JArr l, JArr us => Forall2 (fun e u => committed dm (S n) (element dm e) u) l us
      | v, u => scalar v = true ∧ v = u
      end).
  cbn in H. destruct v, u; try done.
  - eapply Forall2_impl; [exact H|]. intros. by apply IH.
  - destruct H as [Hp H]. split; [done|]. intros k. specialize (H k). inversion H; constructor. by apply IH.
Qed.

Lemma committed_le dm n n' v u : (n ≤ n')%nat → committed dm n v u → committed dm n' v u.
Proof. induction 1 as [|n' _ IH]; [done|]. intros. by apply committed_S, IH. Qed.

(** ** Partial disclosure *)

(** A set of digests that contains those of the values behind it *)
Definition closed dm (R : gset string) : Prop :=
  ∀ h d, h ∈ R → dm !! h = Some d → collectHashes (value d) ⊆ R.

(** What is presented for a digest of [R] is what was issued for it. *)
Definition agrees dm dm' (R : gset string) : Prop :=
  ∀ h d, h ∈ R → dm' !! h = Some d → dm !! h = Some d.

Lemma sd_claims_agree dm dm' R m :
  agrees dm dm' R → (∀ h, h ∈ sd_digests m → h ∈ R) → sd_claims dm' m `sublist_of` sd_claims dm m.
Proof.
  intros Ha. unfold sd_claims. induction (sd_digests m) as [|h hs IH]; intros HR; cbn; [constructor|].
  specialize (IH ltac:(set_solver)). destruct (dm' !! h) as [d|] eqn:E.
  - unfold sd_claim, SdJwt.sd_claim in *. rewrite E, (Ha h d) by (done || set_solver). cbn.
    by destruct (claim_of d); cbn; [constructor|].
  - assert (sd_claim dm' h = None) as -> by (unfold SdJwt.sd_claim; by rewrite E).
    destruct (sd_claim dm h); [by constructor|done].
Qed.

Lemma sublist_fst {A B} (l k : list (A * B)) : l `sublist_of` k → l.*1 `sublist_of` k.*1.
Proof. induction 1; cbn; by constructor. Qed.

Lemma members_agree dm dm' R m :
  agrees dm dm' R → (∀ h, h ∈ sd_digests m → h ∈ R) → proper_names dm m →
  proper_names dm' m ∧ members dm' m ⊆ members dm m.
Proof.
  intros Ha HR [Hn Hf]. pose proof (sd_claims_agree dm dm' R m Ha HR) as Hs.
  pose proof (sublist_fst _ _ Hs) as Hs1. split; [split|].
  - by eapply sublist_NoDup.
  - rewrite Forall_forall in Hf |- *. intros name Hname. apply Hf. by eapply elem_of_sublist.
  - unfold members. apply map_union_mono_r.
    + apply map_disjoint_spec. intros k x y Hx Hy. apply elem_of_list_to_map_2 in Hx.
      rewrite Forall_forall in Hf. destruct (Hf k) as [Hk _]; [|congruence].
      apply list_elem_of_fmap. by exists (k, x).
    + apply map_subseteq_spec. intros k v Hk. apply elem_of_list_to_map_2 in Hk.
      apply elem_of_list_to_map_1; [done|]. eapply elem_of_sublist; [exact Hk|done].
Qed.

Lemma members_digests dm R m k v :
  closed dm R → collectHashes (JObj m) ⊆ R → members dm m !! k = Some v → collectHashes v ⊆ R.
Proof.
  intros Hc HR [Hk|[_ Hk]]%lookup_union_Some_raw.
  - apply elem_of_list_to_map_2 in Hk. unfold sd_claims in Hk. apply list_elem_of_omap in Hk as (h & Hh & E).
    unfold SdJwt.sd_claim in E. destruct (dm !! h) as [d|] eqn:Ed; [|done]. cbn in E.
    destruct (claim_of d); [|done]. injection E as <- <-. apply (Hc h d); [|done].
    apply HR, collectHashes_obj. by left.
  - rewrite strip_lookup in Hk. case_bool_decide as Hne; [done|].
    intros h Hh. apply HR, collectHashes_obj. right. exists k, v. split; [naive_solver|done].
Qed.

Lemma marker_obj v h : marker v = Some h → ∃ m, v = JObj m ∧ m = {["..." := JStr h]}.
Proof.
  destruct v as [| | | | | |m]; try done. cbn. case_bool_decide as Hs; [|done].
  destruct (m !! "...") as [[]|] eqn:E; try done. intros [= ->]. exists m. split; [done|].
  assert (delete "..." m = ∅) as Hd.
  { apply map_size_empty_inv. rewrite map_size_delete_Some by eauto. by rewrite Hs. }
  rewrite <- (insert_delete_id m "..." (JStr h) E), Hd. done.
Qed.

(** A digest nobody disclosed stays where it is. *)
Lemma marker_stays dm n v h : marker v = Some h → (2 ≤ n)%nat → resolve dm n v = Some v.
Proof.
  intros (m & -> & ->)%marker_obj Hn. destruct n as [|[|n]]; [lia..|].
  assert (strip (apply_sd value claim_of dm {["..." := JStr h]}) = {["..." := JStr h]}) as E.
  { unfold apply_sd. cbn. apply map_eq. intros k. rewrite strip_lookup. case_bool_decide as Hk; [|done].
    symmetry. apply lookup_singleton_None. naive_solver. }
  cbn -[strip apply_sd]. rewrite E. rewrite map_fmap_singleton. cbn.
  assert (sequence_map {["..." := Some (JStr h)]} = Some {["..." := JStr h]}) as ->; [|done].
  apply sequence_map_Some. by rewrite map_fmap_singleton.
Qed.

(** [v] resolves to part of [u]. *)
Definition shows dm' n (v u : json) : Prop := ∃ w, resolve dm' (S n) v = Some w ∧ part_of w u.

Lemma present_element dm dm' R n e u :
  closed dm R → agrees dm dm' R →
  (∀ v u, committed dm n v u → collectHashes v ⊆ R → shows dm' n v u) →
  (∀ h, h ∈ match marker e with Some h => {[h]} | None => collectHashes e end → h ∈ R) →
  committed dm n (element dm e) u →
  ∃ w, resolve dm' (S n) (element dm' e) = Some w ∧ (is_Some (marker w) ∨ part_of w u).
Proof.
  intros Hc Ha IH He' He. unfold SdJwt.element, hidden in *. destruct (marker e) as [h|] eqn:Em; cbn [mbind option_bind] in *.
  - specialize (He' h ltac:(set_solver)).
    assert (∃ w, resolve dm' (S n) e = Some w ∧ (is_Some (marker w) ∨ part_of w u)) as Hstay.
    { exists e. split; [|eauto]. eapply marker_stays; [done|]. destruct n; [done|lia]. }
    destruct (dm' !! h) as [d|] eqn:Ed; [|done]. pose proof (Ha h d He' Ed) as Ed'. rewrite Ed' in He. cbn in He |- *.
    destruct (in_array d); [|done]. destruct (IH _ _ He) as (w & Ew & Hw'); [by eapply Hc|]. eauto.
  - destruct (IH _ _ He) as (w & Ew & Hw'); [set_solver|]. eauto.
Qed.

Lemma present_arr dm dm' R n l us :
  closed dm R → agrees dm dm' R →
  (∀ v u, committed dm n v u → collectHashes v ⊆ R → shows dm' n v u) →
  collectHashes (JArr l) ⊆ R → Forall2 (fun e u => committed dm n (element dm e) u) l us →
  shows dm' (S n) (JArr l) (JArr us).
Proof.
  intros Hc Ha IH HR H.
  assert (∃ ws, mapM (fun e => resolve dm' (S n) (element dm' e)) l = Some ws ∧
            Forall2 (fun e u => is_Some (marker e) ∨ part_of e u) ws us) as (ws & E & Hw).
  { induction H as [|e u l us He Hl IHl]; [by exists []|].
    assert (∀ h, h ∈ match marker e with Some h => {[h]} | None => collectHashes e end → h ∈ R) as HRe.
    { intros h Hh. apply HR, collectHashes_arr. exists e. split; [set_solver|done]. }
    destruct IHl as (ws & E & Hw).
    { intros h (e' & He' & Hh)%collectHashes_arr. apply HR, collectHashes_arr. exists e'. split; [set_solver|done]. }
    destruct (present_element dm dm' R n e u Hc Ha IH HRe He) as (w & Ew & Hwu).
    exists (w :: ws). split; [|by constructor].
    change (x ← resolve dm' (S n) (element dm' e); y ← mapM (fun e => resolve dm' (S n) (element dm' e)) l; Some (x :: y)) with
      (mapM (fun e => resolve dm' (S n) (element dm' e)) (e :: l)).
    cbn [mapM]. rewrite Ew. cbn [mbind option_bind]. by rewrite E. }
  exists (JArr ws). split; [|by constructor].
  change (JArr <$> mapM (fun e => resolve dm' (S n) (element dm' e)) l = Some (JArr ws)). by rewrite E.
Qed.

Lemma present_obj dm dm' R n m us :
  closed dm R → agrees dm dm' R →
  (∀ v u, committed dm n v u → collectHashes v ⊆ R → shows dm' n v u) →
  collectHashes (JObj m) ⊆ R → proper_names dm m →
  map_Forall2 (fun _ => committed dm n) (members dm m) us → shows dm' (S n) (JObj m) (JObj us).
Proof.
  intros Hc Ha IH HR Hp H. destruct (members_agree dm dm' R m Ha) as [Hp' Hm]; [|done|].
  { intros h Hh. apply HR, collectHashes_obj. by left. }
  assert (∀ k v, members dm' m !! k = Some v →
            ∃ u w, us !! k = Some u ∧ resolve dm' (S n) v = Some w ∧ part_of w u) as Hk.
  { intros k v Hv. pose proof (lookup_weaken _ _ _ _ Hv Hm) as Hv'. specialize (H k). rewrite Hv' in H.
    inversion H as [? u Hvu Eu|]; subst. destruct (IH _ _ Hvu) as (w & Ew & Hw).
    - by eapply members_digests.
    - exists u, w. done. }
  set (ws := omap (resolve dm' (S n)) (members dm' m)). exists (JObj ws). split.
  - change (JObj <$> sequence_map (resolve dm' (S n) <$> strip (apply_sd value claim_of dm' m)) = Some (JObj ws)).
    rewrite strip_apply_sd by done. assert (sequence_map (resolve dm' (S n) <$> members dm' m) = Some ws) as ->; [|done].
    apply sequence_map_fmap. intros k. unfold ws. rewrite lookup_omap.
    destruct (members dm' m !! k) as [v|] eqn:E; [|done]. cbn [mbind option_bind].
    destruct (Hk k v E) as (u & w & _ & Ew & _). by exists w.
  - constructor. intros k w. unfold ws. rewrite lookup_omap. destruct (members dm' m !! k) as [v|] eqn:E; [|done].
    destruct (Hk k v E) as (u & w' & Eu & Ew & Hw). cbn [mbind option_bind]. rewrite Ew. intros [= <-]. eauto.
Qed.

(** Whatever subset of the disclosures is presented, and whatever else is
    presented beside them, resolution ends and shows part of what was
    committed to. *)
Lemma present_part dm dm' R n v u :
  committed dm n v u → closed dm R → agrees dm dm' R → collectHashes v ⊆ R → shows dm' n v u.
Proof.
  intros H Hc Ha. revert v u H. induction n as [|n IH]; [done|]. intros v u H HR. cbn in H.
  destruct v as [| | | | |l|m].
  1-5: assert (_ = u) as <- by (by destruct u; destruct H as [_ H]); eexists; split; [done|constructor].
  - destruct u; try (by destruct H). by eapply present_arr.
  - destruct u; try (by destruct H). destruct H. by eapply present_obj.
Qed.
End committed.
