(* ===== verification/SdJwtVerify.v ===== *)
(** * Verifying SD-JWT presentations

    [pkg/sdjwtvc]: [ParseAndVerify] and what it calls ([verification.go]), the
    unverified [Token.Parse] ([utils.go]), [VerifyKeyBinding]
    ([keybinding_verify.go]), [CreateKeyBindingJWT] ([keybinding.go]), [Combine]
    ([jwt.go]) and [VerifyAndExtract] ([openid4vp_handler.go]).

    Certificates, the reading of a JWK into a key and the trust framework are
    interfaces.  Three fields of the Go result are left out, which report and
    decide nothing: the type metadata of the header, and the parsed disclosures
    and the map of disclosed claims, whose objects Go shares with the claims
    while it rewrites them; [RawDisclosures] has the disclosures as text. *)

From Stdlib Require Import SpecFloat.
From S2P Require Import Prelude Bytes GoStrings Base64 GoValue Utf8 Json Jwt SdJwt.

(** ** Digests an issuer vouches for *)

(** The breadth-first search.  Each digest enters the queue once, so the
    number of digests in sight is fuel enough ([collectAnchoredHashes_spec]). *)
Fixpoint expand (fuel : nat) (byHash : gmap string Disclosure) (queue : list string) (anchored : gset string) :
    gset string :=
  match fuel, queue with
  | S fuel, h :: queue =>
      match byHash !! h with
      | None => expand fuel byHash queue anchored
      | Some d =>
          let new := collectHashes (Value d) ∖ anchored in
          expand fuel byHash (queue ++ elements new)%list (anchored ∪ new)
      end
  | _, _ => anchored
  end.

Definition digests_in_sight (claims : json) (ds : list Disclosure) : gset string :=
  collectHashes claims ∪ ⋃ map (fun d => collectHashes (Value d)) ds.

Definition collectAnchoredHashes (claims : json) (ds : list Disclosure) : gset string :=
  let direct := collectHashes claims in
  expand (size (digests_in_sight claims ds)) (disclosure_map ds) (elements direct) direct.

(** ** Verification *)

Record VerificationOptions := mkOptions {
  RequireKeyBinding : bool;
  ExpectedNonce : string;
  ExpectedAudience : string;
  AllowedClockSkew : Z;
  ValidateTime : bool;
  CredentialType : string
}.

Definition default_options : VerificationOptions := mkOptions false "" "" (5 * minute) true "".

Inductive verify_error :=
| X5CInvalid | TrustFailed | IssuerNotTrusted
| BadSignature (e : jwt_error)
| BadTyp (typ : string) | NoVCT | Expired | IssuedInFuture | NotYetValid
| UnknownHash (alg : string)
| Diverges
| NoCnf | NoJWK | BadHolderKey | BadKBSignature (e : jwt_error) | BadKBTyp (typ : string)
| NonceMismatch | AudienceMismatch | SDHashMismatch
| NoKeyBinding.

(** The errors that are collected and make a result invalid. *)
Inductive verify_note := DisclosureRefused (e : disclosure_error) | NotAnchored (h : string).

Record VerificationResult {C} := mkResult {
  Valid : bool;
  ResultHeader : jobject;
  CertChain : list C;
  ResultClaims : jobject;
  RawDisclosures : list string;
  KeyBindingValid : bool;
  KeyBindingClaims : option jobject;
  Errors : list verify_note
}.
Arguments VerificationResult : clear implicits.

(** [strings.Split(sdJWT, "~")] into issuer JWT, disclosures and proof, the
    proof being a last part with two dots *)
Definition split_sdjwt (sdJWT : string) : string * list string * string :=
  match Split "~" sdJWT with
  | [] => ("", [], "")
  | issuerJWT :: rest =>
      match reverse rest with
      | [] => (issuerJWT, [], "")
      | lastPart :: init =>
          if negb (str_empty lastPart) && bool_decide (Count "." lastPart = 2%nat)
          then (issuerJWT, reverse init, lastPart)
          else (issuerJWT, rest, "")
      end
  end.

(** Everything before the proof, the trailing separator included *)
Definition presented_text (issuerJWT : string) (disclosures : list string) : string :=
  foldl (fun acc d => acc +:+ "~" +:+ d) issuerJWT disclosures +:+ "~".

(** Certificates, keys and trust *)
Class SdEnv `{Signatures} := {
  cert : Type;
  ParseX5CHeader : json → option (list cert);
  cert_key : cert → sig_key;
  CommonName : cert → string;
  ec_key : string → Z → Z → sig_key;
  ParseJWKToPublicKey : jobject → option sig_key
}.

Section verify.
Context `{JSON} `{Arch} `{Hashes} `{Sig : Signatures} `{!SdEnv}.

(** The trust framework: subject, chain and type to a decision or an error *)
Variable TrustEvaluator : option (string → list cert → string → option bool).

Definition method_fits (key : sig_key) (t : Token) : option sig_key :=
  match key_type_of key, Method t with
  | KEcdsa, MEcdsa | KRsa, MRsa => Some key
  | _, _ => None
  end.

Definition verifyJWTSignature (token : string) (key : sig_key) : result jwt_error Token :=
  Parse None (method_fits key) None token.

Definition float_field (m : jobject) (k : string) : option spec_float :=
  match m !! k with Some (JFloat f) => Some f | _ => None end.

Definition validateSDJWTVCStructure (header claims : jobject) (opts : VerificationOptions) (now : Z) :
    result verify_error unit :=
  let typ := str_field header "typ" in
  if negb (bool_decide (typ = "dc+sd-jwt")) && negb (bool_decide (typ = "vc+sd-jwt")) then Err (BadTyp typ) else
  if str_empty (str_field claims "vct") then Err NoVCT else
  if negb (ValidateTime opts) then Ok tt else
  let at_ k := (fun f => time_Unix (float_int64 f)) <$> float_field claims k in
  if match at_ "exp" with Some exp => bool_decide (exp + AllowedClockSkew opts < now) | None => false end then Err Expired else
  if match at_ "iat" with Some iat => bool_decide (now < iat - AllowedClockSkew opts) | None => false end
  then Err IssuedInFuture else
  if match at_ "nbf" with Some nbf => bool_decide (now < nbf - AllowedClockSkew opts) | None => false end
  then Err NotYetValid else Ok tt.

(** The key the signature is checked against: the given one, or the leaf's
    when the header carries certificates and they are trusted *)
Definition choose_key (issuerJWT : string) (publicKey : sig_key) (opts : VerificationOptions) :
    result verify_error (sig_key * list cert) :=
  match parsed_so_far issuerJWT, TrustEvaluator with
  | Some (header, claims), Some evaluate =>
      match header !! "x5c" with
      | None => Ok (publicKey, [])
      | Some x5cRaw =>
          match ParseX5CHeader x5cRaw with
          | None => Err X5CInvalid
          | Some chain =>
              let iss := str_field claims "iss" in
              let issuerID := if str_empty iss then match chain with leaf :: _ => CommonName leaf | [] => "" end else iss in
              let credentialType :=
                if str_empty (CredentialType opts) then str_field claims "vct" else CredentialType opts in
              match evaluate issuerID chain credentialType with
              | None => Err TrustFailed
              | Some false => Err IssuerNotTrusted
              | Some true => Ok (match chain with leaf :: _ => cert_key leaf | [] => publicKey end, chain)
              end
          end
      end
  | _, _ => Ok (publicKey, [])
  end.

Definition sd_alg (claims : jobject) : string :=
  let alg := str_field claims "_sd_alg" in if str_empty alg then "sha-256" else alg.

(** The loop over the disclosures: parsed ones, and the errors *)
Fixpoint parse_disclosures (h : string → string) (parts : list string) : list Disclosure * list verify_note :=
  match parts with
  | [] => ([], [])
  | part :: parts =>
      let '(ds, notes) := parse_disclosures h parts in
      if str_empty part then (ds, notes) else
      match parseDisclosure h part with
      | Ok d => (d :: ds, notes)
      | Err e => (ds, DisclosureRefused e :: notes)
      end
  end.

Definition unanchored (anchored : gset string) (ds : list Disclosure) : list verify_note :=
  omap (fun d => if bool_decide (Hash d ∈ anchored) then None else Some (NotAnchored (Hash d))) ds.

Definition jwkToPublicKey (jwk : jobject) : option sig_key :=
  if negb (bool_decide (str_field jwk "kty" = "EC")) then None else
  let x := str_field jwk "x" in let y := str_field jwk "y" in
  if str_empty x || str_empty y then None else
  xb ← RawURLEncoding.DecodeString x; yb ← RawURLEncoding.DecodeString y;
  if bool_decide (str_field jwk "crv" ∈ ["P-256"; "P-384"; "P-521"])
  then Some (ec_key (str_field jwk "crv") (of_be xb) (of_be yb)) else None.

Definition cnf_jwk (claims : jobject) : result verify_error jobject :=
  match claims !! "cnf" with
  | Some (JObj cnf) => match cnf !! "jwk" with Some (JObj jwk) => Ok jwk | _ => Err NoJWK end
  | _ => Err NoCnf
  end.

Definition verifyKeyBindingJWT (kbJWT issuerJWT : string) (disclosures : list string) (issuerClaims : jobject)
    (opts : VerificationOptions) (h : string → string) : result verify_error jobject :=
  jwk ← cnf_jwk issuerClaims;
  match jwkToPublicKey jwk with
  | None => Err BadHolderKey
  | Some holder =>
      t ← map_err BadKBSignature (verifyJWTSignature kbJWT holder);
      let typ := str_field (Header t) "typ" in
      if negb (bool_decide (typ = "kb+jwt")) then Err (BadKBTyp typ) else
      let kb := Claims t in
      if negb (str_empty (ExpectedNonce opts)) && negb (bool_decide (str_field kb "nonce" = ExpectedNonce opts))
      then Err NonceMismatch else
      if negb (str_empty (ExpectedAudience opts)) && negb (bool_decide (str_field kb "aud" = ExpectedAudience opts))
      then Err AudienceMismatch else
      if negb (bool_decide (str_field kb "sd_hash" = digest h (presented_text issuerJWT disclosures)))
      then Err SDHashMismatch else Ok kb
  end.

Definition ParseAndVerify (fuel : nat) (sdJWT : string) (publicKey : sig_key) (opts : VerificationOptions) (now : Z) :
    result verify_error (VerificationResult cert) :=
  let '(issuerJWT, disclosureParts, kbJWT) := split_sdjwt sdJWT in
  '(verificationKey, chain) ← choose_key issuerJWT publicKey opts;
  token ← map_err BadSignature (verifyJWTSignature issuerJWT verificationKey);
  let claims := Claims token in
  _ ← validateSDJWTVCStructure (Header token) claims opts now;
  match getHashFromAlgorithm (sd_alg claims) with
  | None => Err (UnknownHash (sd_alg claims))
  | Some h =>
      let '(ds, notes) := parse_disclosures h disclosureParts in
      let errors := (notes ++ unanchored (collectAnchoredHashes (JObj claims) ds) ds)%list in
      match reconstruct (disclosure_map ds) fuel (JObj claims) with
      | Some (JObj full) =>
          let verified kbValid kbClaims :=
            mkResult _ (bool_decide (length errors = 0%nat)) (Header token) chain full (map Raw ds)
              kbValid kbClaims errors in
          if negb (str_empty kbJWT) then
            kb ← verifyKeyBindingJWT kbJWT issuerJWT disclosureParts full opts h;
            Ok (verified true (Some kb))
          else if RequireKeyBinding opts then Err NoKeyBinding
          else Ok (verified false None)
      | _ => Err Diverges
      end
  end.

(** ** [Token.Parse]: no signature is checked *)

Inductive parse_failure :=
| EmptyToken | NotThreeParts | HeaderNotBase64 | HeaderNotJSON | BodyNotBase64 | BodyNotJSON
| UnknownSdAlg (alg : string) | EntryRefused (e : disclosure_error) | ParseDiverges.

Record ParsedCredential := mkParsedCredential {
  ParsedClaims : jobject;
  ParsedDisclosures : list string;
  ParsedHeader : jobject;
  ParsedSignature : string;
  KeyBinding : option (list string)
}.

(** [Token.Split]: the last part is never a disclosure. *)
Definition Token_Split (token : string) : result parse_failure (string * string * string * list string * option (list string)) :=
  if str_empty token then Err EmptyToken else
  match Split "~" token with
  | [] => Err NotThreeParts
  | sdToken :: rest =>
      match Split "." sdToken with
      | [header; body; signature] =>
          match reverse rest with
          | [] => Ok (header, body, signature, [], None)
          | lastPart :: init =>
              let kb := Split "." lastPart in
              Ok (header, body, signature, reverse init, if bool_decide ("" ∈ kb) then None else Some kb)
          end
      | _ => Err NotThreeParts
      end
  end.

(** The map of [resolveDisclosuresRecursive]; the first bad disclosure ends it *)
Fixpoint entry_map (h : string → string) (ds : list string) (m : gmap string sdParsedDisclosure) :
    result disclosure_error (gmap string sdParsedDisclosure) :=
  match ds with
  | [] => Ok m
  | d :: ds => e ← parse_entry d; entry_map h ds (<[digest h d := e]> m)
  end.

Definition or_fail {A} (e : parse_failure) (o : option A) : result parse_failure A :=
  match o with Some a => Ok a | None => Err e end.

Definition Token_Parse (fuel : nat) (token : string) : result parse_failure ParsedCredential :=
  '(header, body, signature, disclosures, kb) ← Token_Split token;
  headerBytes ← or_fail HeaderNotBase64 (unb64 header);
  headerMap ← or_fail HeaderNotJSON (UnmarshalMap headerBytes);
  bodyBytes ← or_fail BodyNotBase64 (unb64 body);
  claims ← or_fail BodyNotJSON (UnmarshalMap bodyBytes);
  h ← or_fail (UnknownSdAlg (sd_alg claims)) (getHashFromAlgorithm (sd_alg claims));
  dm ← map_err EntryRefused (entry_map h disclosures ∅);
  match resolveNode dm fuel (JObj claims) with
  | Some (JObj full) =>
      Ok (mkParsedCredential (cleanMarkers <$> full) disclosures headerMap signature kb)
  | _ => Err ParseDiverges
  end.

(** ** [VerifyKeyBinding] *)

Record KeyBindingExpectations := mkExpectations { Nonce : string; Audience : string; MaxAge : Z; ClockSkew : Z }.

Definition DefaultKeyBindingMaxAge : Z := 5 * minute.
Definition DefaultKeyBindingClockSkew : Z := minute.

Inductive binding_error :=
| NoNonce | NoAudience | NoProof | IssuerJWTMalformed | BindingNoCnf | BindingNoJWK | BindingKeyRefused
| NotSignedByHolder (e : jwt_error) | BindingTyp (typ : string) | OtherRequest | OtherAudience
| NoIat | BadIat | FromTheFuture | Stale | BindingUnknownHash (alg : string) | OtherPresentation.

Definition splitPresentation (vpToken : string) : result binding_error (string * list string * string) :=
  match Split "~" vpToken with
  | issuerJWT :: rest =>
      match reverse rest with
      | [] => Err NoProof
      | kbJWT :: init =>
          if negb (bool_decide (Count "." issuerJWT = 2%nat)) then Err IssuerJWTMalformed else
          if negb (bool_decide (Count "." kbJWT = 2%nat)) then Err NoProof else
          Ok (issuerJWT, reverse init, kbJWT)
      end
  | [] => Err NoProof
  end.

Definition holderKeyFromCnf (issuerClaims : jobject) : result binding_error sig_key :=
  match issuerClaims !! "cnf" with
  | Some (JObj cnf) =>
      match cnf !! "jwk" with
      | Some (JObj jwk) =>
          match ParseJWKToPublicKey jwk with
          | Some key => match key_type_of key with KOther => Err BindingKeyRefused | _ => Ok key end
          | None => Err BindingKeyRefused
          end
      | _ => Err BindingNoJWK
      end
  | _ => Err BindingNoCnf
  end.

Definition validMethodsFor (key : sig_key) : list string :=
  match key_type_of key with
  | KEcdsa => ["ES256"; "ES384"; "ES512"]
  | KEd25519 => ["EdDSA"]
  | KRsa => ["RS256"; "RS384"; "RS512"; "PS256"; "PS384"; "PS512"]
  | KOther => []
  end.

Definition numericDateSeconds (raw : json) : option Z :=
  match raw with JFloat f => if finite f then Some (float_int64 f) else None | _ => None end.

Definition or_default (d def : Z) : Z := if bool_decide (d = 0) then def else d.

Definition checkIssuedAt (claims : jobject) (expected : KeyBindingExpectations) (now : Z) : result binding_error unit :=
  match claims !! "iat" with
  | None => Err NoIat
  | Some raw =>
      match numericDateSeconds raw with
      | None => Err BadIat
      | Some seconds =>
          let issuedAt := time_Unix seconds in
          let maxAge := or_default (MaxAge expected) DefaultKeyBindingMaxAge in
          let skew := or_default (ClockSkew expected) DefaultKeyBindingClockSkew in
          if bool_decide (now + skew < issuedAt) then Err FromTheFuture else
          if bool_decide (issuedAt < now - maxAge - skew) then Err Stale else Ok tt
      end
  end.

Definition VerifyKeyBinding (vpToken : string) (issuerClaims : jobject) (expected : KeyBindingExpectations) (now : Z) :
    result binding_error unit :=
  if str_empty (Nonce expected) then Err NoNonce else
  if str_empty (Audience expected) then Err NoAudience else
  '(issuerJWT, disclosures, kbJWT) ← splitPresentation vpToken;
  holderKey ← holderKeyFromCnf issuerClaims;
  kb ← map_err NotSignedByHolder (Parse (Some (validMethodsFor holderKey)) (fun _ => Some holderKey) (Some now) kbJWT);
  let typ := str_field (Header kb) "typ" in
  if negb (bool_decide (typ = "kb+jwt")) then Err (BindingTyp typ) else
  let claims := Claims kb in
  if negb (bool_decide (str_field claims "nonce" = Nonce expected)) then Err OtherRequest else
  if negb (bool_decide (str_field claims "aud" = Audience expected)) then Err OtherAudience else
  _ ← checkIssuedAt claims expected now;
  match getHashFromAlgorithm (sd_alg issuerClaims) with
  | None => Err (BindingUnknownHash (sd_alg issuerClaims))
  | Some h =>
      if negb (bool_decide (str_field claims "sd_hash" = digest h (presented_text issuerJWT disclosures)))
      then Err OtherPresentation else Ok tt
  end.

(** ** Presenting *)

(** [Combine] *)
Definition Combine (token : string) (disclosures : list string) (keyBinding : string) : string :=
  let token := match disclosures with [] => token +:+ "~" | _ => token +:+ "~" +:+ Join "~" disclosures +:+ "~" end in
  if str_empty keyBinding then token else token +:+ keyBinding.

(** [CombineWithKeyBinding]: one trailing separator is dropped and put back *)
Fixpoint trim_tilde (s : string) : string :=
  match s with
  | EmptyString => EmptyString
  | String c EmptyString => if bool_decide (c = "~"%char) then EmptyString else String c EmptyString
  | String c s => String c (trim_tilde s)
  end.
Definition CombineWithKeyBinding (sdJWT kbJWT : string) : string := trim_tilde sdJWT +:+ "~" +:+ kbJWT.

Inductive create_error := CreateUnknownHash | BadHashesAlg (alg : string) | SigningFailed.

(** [CreateKeyBindingJWT]; [tx] is the transaction data option. *)
Definition CreateKeyBindingJWT (sdJWT nonce audience : string) (key : sig_priv) (hashAlg : string)
    (tx : option (list string * string)) (now : Z) : result create_error string :=
  match getHashFromAlgorithm hashAlg with
  | None => Err CreateUnknownHash
  | Some h =>
      let claims : jobject := <["nonce" := JStr nonce]> (<["aud" := JStr audience]>
        (<["iat" := JInt (now / second)]> {["sd_hash" := JStr (digest h sdJWT)]})) in
      let hashes := match tx with Some (hs, _) => hs | None => [] end in
      let alg := match tx with Some (_, a) => a | None => "" end in
      claims ← (match hashes with
                | [] => Ok claims
                | _ => if bool_decide (alg ∈ ["sha-256"; "sha-384"; "sha-512"])
                       then Ok (<["transaction_data_hashes" := JArr (map JStr hashes)]>
                                 (<["transaction_data_hashes_alg" := JStr alg]> claims))
                       else Err (BadHashesAlg alg)
                end);
      let method := GetSigningMethodFromKey (view_of key) in
      let header : jobject := <["typ" := JStr "kb+jwt"]> {["alg" := JStr method]} in
      match SignedString method key header claims with Some tok => Ok tok | None => Err SigningFailed end
  end.

(** ** [VerifyAndExtract] *)

Inductive handler_error :=
| EmptyVPToken | HandlerParse (e : parse_failure) | NoIssuer | UntrustedIssuer | NoKeyResolver | KeyNotResolved
| HandlerVerify (e : verify_error) | HandlerInvalid (notes : list verify_note).

Record SDJWTHandler := mkHandler {
  keyResolver : option (string → string → option sig_key);
  verifyOpts : VerificationOptions;
  trustedIssuers : list string
}.

Record SDJWTVerificationResult := mkExtracted {
  Issuer : string; Subject : string; VCT : string; ExtractedClaims : jobject; ExtractedKeyBinding : bool;
  ExpiresAt : option Z; IssuedAt : option Z
}.

Definition VerifyAndExtract (fuel : nat) (h : SDJWTHandler) (vpToken : string) (now : Z) :
    result handler_error SDJWTVerificationResult :=
  if str_empty vpToken then Err EmptyVPToken else
  parsed ← map_err HandlerParse (Token_Parse fuel vpToken);
  let issuer := str_field (ParsedClaims parsed) "iss" in
  if str_empty issuer then Err NoIssuer else
  if negb (bool_decide (length (trustedIssuers h) = 0%nat)) && negb (bool_decide (issuer ∈ trustedIssuers h))
  then Err UntrustedIssuer else
  match keyResolver h with
  | None => Err NoKeyResolver
  | Some resolveKey =>
      match resolveKey issuer (str_field (ParsedHeader parsed) "kid") with
      | None => Err KeyNotResolved
      | Some key =>
          r ← map_err HandlerVerify (ParseAndVerify fuel vpToken key (verifyOpts h) now);
          if negb (Valid r) then Err (HandlerInvalid (Errors r)) else
          let c := ResultClaims r in
          let at_ k := (fun f => time_Unix (float_int64 f)) <$> float_field c k in
          Ok (mkExtracted issuer (str_field c "sub") (str_field c "vct") c (KeyBindingValid r) (at_ "exp") (at_ "iat"))
      end
  end.
End verify.

(** ** What the search finds *)

(** A digest in the claims, or in the value of a disclosure that is vouched
    for itself *)
Inductive vouched (claims : json) (byHash : gmap string Disclosure) : string → Prop :=
| vouched_direct h : h ∈ collectHashes claims → vouched claims byHash h
| vouched_via h d h' : vouched claims byHash h → byHash !! h = Some d → h' ∈ collectHashes (Value d) →
    vouched claims byHash h'.

Lemma disclosure_map_elem ds h d : disclosure_map ds !! h = Some d → d ∈ ds ∧ Hash d = h.
Proof.
  unfold disclosure_map. induction ds as [|d' ds IH] using rev_ind; cbn; [by rewrite lookup_empty|].
  rewrite foldl_snoc, elem_of_app, list_elem_of_singleton. intros [[<- <-]|[_ Hl%IH]]%lookup_insert_Some; [auto|].
  naive_solver.
Qed.

Lemma subseteq_union_diff (X Y : gset string) : X ⊆ Y ∪ (X ∖ Y).
Proof. intros x Hx. destruct (decide (x ∈ Y)); set_solver. Qed.

Section search.
Context (claims : json) (ds : list Disclosure).
Let byHash := disclosure_map ds.
Let U := digests_in_sight claims ds.

(** Nothing is forgotten: what has left the queue has been looked into. *)
Record search_inv (queue : list string) (anchored : gset string) : Prop := {
  inv_nodup : NoDup queue;
  inv_queue : ∀ h, h ∈ queue → h ∈ anchored;
  inv_sound : ∀ h, h ∈ anchored → vouched claims byHash h;
  inv_sight : anchored ⊆ U;
  inv_done : ∀ h d, h ∈ anchored → h ∉ queue → byHash !! h = Some d → collectHashes (Value d) ⊆ anchored
}.

Lemma value_in_sight h d : byHash !! h = Some d → collectHashes (Value d) ⊆ U.
Proof.
  intros [Hd _]%disclosure_map_elem. unfold U, digests_in_sight. intros x Hx. apply elem_of_union_r, elem_of_union_list.
  exists (collectHashes (Value d)). split; [|done]. apply list_elem_of_fmap. eauto.
Qed.

Lemma search_step_none h queue anchored :
  search_inv (h :: queue) anchored → byHash !! h = None → search_inv queue anchored.
Proof.
  intros [Hn Hq Hs Hu Hd] E. apply NoDup_cons in Hn as [Hh Hn]. split; try done.
  - intros x Hx. apply Hq. set_solver.
  - intros x d Hx Hnx Ex. apply (Hd x); [done| |done]. rewrite elem_of_cons. naive_solver.
Qed.

Lemma search_step_some h queue anchored d :
  search_inv (h :: queue) anchored → byHash !! h = Some d →
  search_inv (queue ++ elements (collectHashes (Value d) ∖ anchored))%list
    (anchored ∪ (collectHashes (Value d) ∖ anchored)).
Proof.
  intros [Hn Hq Hs Hu Hd] E. apply NoDup_cons in Hn as [Hh Hn]. pose proof (value_in_sight h d E) as Hsee. split.
  - apply NoDup_app. split_and!; [done| |apply NoDup_elements]. intros x Hx. rewrite elem_of_elements.
    pose proof (Hq x). set_solver.
  - intros x. rewrite elem_of_app, elem_of_elements. pose proof (Hq x). set_solver.
  - intros x [Hx|Hx]%elem_of_union; [by apply Hs|]. eapply vouched_via; [|exact E|set_solver]. apply Hs, Hq. set_solver.
  - set_solver.
  - intros x d' Hx Hnx Ex. rewrite elem_of_app, elem_of_elements in Hnx.
    assert (x ∉ queue ∧ x ∉ collectHashes (Value d) ∖ anchored) as [Hnq Hnew] by tauto.
    destruct (decide (x = h)) as [->|Hne]; [simplify_eq; apply subseteq_union_diff|].
    etrans; [|apply union_subseteq_l]. apply (Hd x); [|by rewrite elem_of_cons; intros [|]|done].
    apply elem_of_union in Hx as [Hx|Hx]; [done|]. done.
Qed.

Lemma expand_inv fuel queue anchored :
  search_inv queue anchored → (length queue + size (U ∖ anchored) ≤ fuel)%nat →
  search_inv [] (expand fuel byHash queue anchored).
Proof.
  revert queue anchored. induction fuel as [|fuel IH]; intros [|h queue] anchored Hi Hf; cbn in *; try done; [lia|].
  destruct (byHash !! h) as [d|] eqn:E.
  - apply IH; [by eapply search_step_some|]. set (new := collectHashes (Value d) ∖ anchored).
    rewrite length_app. replace (U ∖ (anchored ∪ new)) with ((U ∖ anchored) ∖ new) by set_solver.
    assert (new ⊆ U ∖ anchored) as Hn by (pose proof (value_in_sight h d E); set_solver).
    pose proof (size_difference (U ∖ anchored) new Hn). pose proof (subseteq_size _ _ Hn).
    assert (length (elements new) = size new) as -> by done. lia.
  - apply IH; [by eapply search_step_none|]. lia.
Qed.

Lemma collectAnchoredHashes_inv : search_inv [] (collectAnchoredHashes claims ds).
Proof.
  unfold collectAnchoredHashes. apply expand_inv.
  - split; [apply NoDup_elements| | | |].
    + by intros h ?%elem_of_elements.
    + intros h. by apply vouched_direct.
    + unfold U, digests_in_sight. set_solver.
    + intros h d Hh Hn. by rewrite elem_of_elements in Hn.
  - assert (collectHashes claims ⊆ U) as Hc by (unfold U, digests_in_sight; set_solver).
    change (length (elements (collectHashes claims))) with (size (collectHashes claims)).
    pose proof (size_difference U _ Hc). pose proof (subseteq_size _ _ Hc). fold U. lia.
Qed.
End search.

Lemma anchored_vouched claims ds h :
  h ∈ collectAnchoredHashes claims ds ↔ vouched claims (disclosure_map ds) h.
Proof.
  destruct (collectAnchoredHashes_inv claims ds) as [_ _ Hs _ Hd]. split; [apply Hs|].
  assert (collectHashes claims ⊆ collectAnchoredHashes claims ds) as Hdir.
  { unfold collectAnchoredHashes. generalize (elements (collectHashes claims)) (size (digests_in_sight claims ds)).
    assert (∀ n q (X : gset string), X ⊆ expand n (disclosure_map ds) q X) as Hm; [|intros; apply Hm].
    intros n. induction n as [|n IH]; intros [|x q] X; cbn; try done. destruct (_ !! x); [|apply IH].
    etrans; [|apply IH]. set_solver. }
  induction 1 as [h Hh|h d h' _ IH E Hh']; [set_solver|]. eapply (Hd h d); [done| |done|done]. set_solver.
Qed.

(** C35: The search for vouched-for digests finds exactly those reachable from
    the signed claims through disclosures that are themselves vouched for:
    the queue is worked off within the fuel given and two forged disclosures
    that name each other do not enter. *)
Theorem collectAnchoredHashes_spec claims ds h :
  h ∈ collectAnchoredHashes claims ds ↔ vouched claims (disclosure_map ds) h.
Proof. apply anchored_vouched. Qed.

(** ** Presentations as text *)

Lemma presented_text_join issuerJWT ds : presented_text issuerJWT ds = Join "~" (issuerJWT :: ds) +:+ "~".
Proof.
  unfold presented_text. f_equal. revert issuerJWT. induction ds as [|d ds IH]; intros i; [done|]. cbn [foldl].
  rewrite IH. destruct ds as [|d' ds].
  - done.
  - change (Join "~" ((i +:+ "~" +:+ d) :: d' :: ds)) with ((i +:+ "~" +:+ d) +:+ String "~" (Join "~" (d' :: ds))).
    change (Join "~" (i :: d :: d' :: ds)) with (i +:+ String "~" (d +:+ String "~" (Join "~" (d' :: ds)))).
    by rewrite !append_assoc_str.
Qed.

Lemma Combine_presented issuerJWT ds : Combine issuerJWT ds "" = presented_text issuerJWT ds.
Proof.
  rewrite presented_text_join. unfold Combine. change (str_empty "") with true. cbv iota. destruct ds as [|d ds]; [done|].
  change (Join "~" (issuerJWT :: d :: ds)) with (issuerJWT +:+ String "~" (Join "~" (d :: ds))).
  by rewrite append_assoc_str.
Qed.

Lemma trim_tilde_app s : trim_tilde (s +:+ "~") = s.
Proof.
  induction s as [|c s IH]; [done|]. rewrite append_cons.
  destruct s as [|d s]; [done|]. change (trim_tilde (String c (String d s +:+ "~"))) with (String c (trim_tilde (String d s +:+ "~"))).
  by rewrite IH.
Qed.

Lemma presentation_join issuerJWT ds kb :
  CombineWithKeyBinding (Combine issuerJWT ds "") kb = Join "~" ((issuerJWT :: ds) ++ [kb])%list.
Proof.
  rewrite Combine_presented, presented_text_join. unfold CombineWithKeyBinding. rewrite trim_tilde_app.
  rewrite Join_app by done. done.
Qed.

Lemma splitPresentation_Join issuerJWT ds kb :
  Forall (fun w => has_byte "~" w = false) ((issuerJWT :: ds) ++ [kb])%list →
  Count "." issuerJWT = 2%nat → Count "." kb = 2%nat →
  splitPresentation (Join "~" ((issuerJWT :: ds) ++ [kb])%list) = Ok (issuerJWT, ds, kb).
Proof.
  intros Hn Hi Hk. unfold splitPresentation. rewrite Split_Join by done. cbn.
  rewrite reverse_snoc. rewrite (bool_decide_eq_true_2 (Count "." issuerJWT = _)), (bool_decide_eq_true_2 (Count "." kb = _)) by done.
  cbn. by rewrite reverse_involutive.
Qed.

Lemma splitPresentation_Ok vp issuerJWT ds kb :
  splitPresentation vp = Ok (issuerJWT, ds, kb) → vp = presented_text issuerJWT ds +:+ kb.
Proof.
  unfold splitPresentation. rewrite <- (Join_Split "~" vp) at 2. destruct (Split "~" vp) as [|i rest]; [done|].
  destruct (reverse rest) as [|k init] eqn:Er; [done|]. repeat (case_bool_decide; cbn; [|done]). intros [= <- <- <-].
  apply (f_equal reverse) in Er. rewrite reverse_involutive, reverse_cons in Er. subst rest.
  change (Join "~" ((i :: reverse init) ++ [k])%list = presented_text i (reverse init) +:+ k).
  rewrite Join_app by done. by rewrite presented_text_join, append_assoc_str.
Qed.

(** ** Key binding *)

Section binding.
Context `{JSON} `{Arch} `{Hashes} `{Sig : Signatures} `{!SdEnv} `{!JSONLaws} `{!SignaturesLaws}.

Lemma method_valid key :
  view_of key ≠ PrivOther → GetSigningMethodFromKey (view_of key) ∈ validMethodsFor (sig_public key) ∧
  is_Some (GetSigningMethod (GetSigningMethodFromKey (view_of key))) ∧ key_type_of (sig_public key) ≠ KOther.
Proof.
  intros Hv. unfold validMethodsFor. destruct (view_of key) as [bits|curve|] eqn:E; [| |done].
  - rewrite (rsa_key _ _ E). cbn. repeat case_bool_decide; (split; [set_solver|]); by split.
  - rewrite (ecdsa_key _ _ E). cbn. repeat case_bool_decide; (split; [set_solver|]); by split.
Qed.

(** The claims of a proof without transaction data *)
Definition proof_claims (nonce audience sd_hash : string) (now : Z) : jobject :=
  <["nonce" := JStr nonce]> (<["aud" := JStr audience]> (<["iat" := JInt (now / second)]> {["sd_hash" := JStr sd_hash]})).

Lemma plain_obj (m : jobject) :
  (∀ k v, m !! k = Some v → utf8_valid k = true ∧ plain v = true) → plain (JObj m) = true.
Proof.
  intros Hm. cbn. apply andb_true_iff. split; [|apply forallb_members; intros k v Hv; by eapply Hm].
  apply forallb_elem. intros k ([k' v] & -> & Hk)%list_elem_of_fmap. apply elem_of_map_to_list in Hk. by eapply Hm.
Qed.

Lemma proof_claims_plain nonce audience h text now :
  utf8_valid nonce = true → utf8_valid audience = true → plain (JObj (proof_claims nonce audience (digest h text) now)) = true.
Proof.
  intros Hn Ha. apply plain_obj. unfold proof_claims. intros k v.
  intros [[<- <-]|[_ [[<- <-]|[_ [[<- <-]|[_ Hk]]%lookup_insert_Some]]%lookup_insert_Some]]%lookup_insert_Some;
    try (by split; [|done]); [done..|].
  apply lookup_singleton_Some in Hk as [<- <-]. split; [done|]. apply b64_utf8.
Qed.

Lemma SignedString_dots alg key header claims tok :
  SignedString alg key header claims = Some tok → Count "." tok = 2%nat ∧ has_byte "~" tok = false.
Proof.
  unfold SignedString, SigningString. destruct (Marshal (JObj header)) as [h|]; [|done]. cbn.
  destruct (Marshal (JObj claims)) as [c|]; [|done]. cbn. destruct (sig_sign _ _ _) as [sig|]; [|done]. cbn. intros [= <-].
  rewrite !Count_app, !has_byte_app, !(b64_no_sep "~") by done. split; [|done].
  by rewrite !(proj2 (Count_has_byte "." (b64 _))) by (by apply b64_no_sep).
Qed.

Lemma checkIssuedAt_fresh (claims : jobject) expected made now :
  claims !! "iat" = Some (JFloat (float_of_Z (made / second))) → MaxAge expected = 0 → ClockSkew expected = 0 →
  0 ≤ made < 2 ^ 53 * second → made - minute ≤ now ≤ made + 5 * minute → checkIssuedAt claims expected now = Ok tt.
Proof.
  intros Hi Ha Hs Hm Hn. unfold checkIssuedAt. rewrite Hi. cbn.
  assert (0 ≤ made / second < 2 ^ 53) as Hr by (unfold second in *; Z.div_mod_to_equations; lia).
  destruct (float_of_Z_trunc (made / second)) as [_ ->]; [lia|]. rewrite float_int64_of_Z by lia.
  rewrite Ha, Hs. change (or_default 0 DefaultKeyBindingMaxAge) with (5 * minute).
  change (or_default 0 DefaultKeyBindingClockSkew) with minute.
  unfold time_Unix. rewrite wrap64_id by (unfold in_int64, unixToInternal; lia).
  replace (made / second + unixToInternal - unixToInternal) with (made / second) by lia.
  assert (made - second < made / second * second ≤ made) by (unfold second in *; Z.div_mod_to_equations; lia).
  rewrite !bool_decide_eq_false_2; [done|unfold minute in *; unfold second in *; lia..].
Qed.

(** What an accepted proof says about the presentation *)
Lemma VerifyKeyBinding_proof vp claims expected now i ds kb h :
  VerifyKeyBinding vp claims expected now = Ok tt → splitPresentation vp = Ok (i, ds, kb) →
  getHashFromAlgorithm (sd_alg claims) = Some h →
  ∃ t, ParseUnverified kb = Ok t ∧ str_field (Claims t) "sd_hash" = digest h (presented_text i ds).
Proof.
  unfold VerifyKeyBinding. intros Hv Hs Hh. rewrite Hs, Hh in Hv. destruct (str_empty _); [done|]. destruct (str_empty _); [done|].
  cbn in Hv. destruct (holderKeyFromCnf claims) as [key|]; [|done]. cbn in Hv.
  destruct (Parse _ _ _ kb) as [t|] eqn:Ep; [|done]. cbn in Hv. apply Parse_Ok in Ep as [Ep _]. exists t. split; [done|].
  repeat (destruct (negb _); [done|]). destruct (checkIssuedAt _ _ _); [|done]. cbn in Hv.
  by destruct (bool_decide_reflect (str_field (Claims t) "sd_hash" = digest h (presented_text i ds))).
Qed.

(** A holder's proof is accepted: what [CreateKeyBindingJWT] signs over a
    presentation with the key the credential is bound to passes
    [VerifyKeyBinding] for the nonce and audience it was made for, whenever
    the clocks of the two differ by less than the skew and less than the
    maximal age has passed. *)
Theorem key_binding_accepted issuerJWT ds nonce audience key alg issuerClaims cnf jwk made now kb :
  CreateKeyBindingJWT (Combine issuerJWT ds "") nonce audience key alg None made = Ok kb →
  Forall (fun w => has_byte "~" w = false) (issuerJWT :: ds) → Count "." issuerJWT = 2%nat →
  nonce ≠ "" → audience ≠ "" → utf8_valid nonce = true → utf8_valid audience = true →
  issuerClaims !! "cnf" = Some (JObj cnf) → cnf !! "jwk" = Some (JObj jwk) →
  ParseJWKToPublicKey jwk = Some (sig_public key) → view_of key ≠ PrivOther → sd_alg issuerClaims = alg →
  0 ≤ made < 2 ^ 53 * second → made - minute ≤ now ≤ made + 5 * minute →
  VerifyKeyBinding (CombineWithKeyBinding (Combine issuerJWT ds "") kb) issuerClaims (mkExpectations nonce audience 0 0) now = Ok tt.
Proof.
  intros Hk Hw Hi Hn Ha Hun Hua Hcnf Hjwk Hkey Hv Hsd Hm Hnow.
  unfold CreateKeyBindingJWT in Hk. destruct (getHashFromAlgorithm alg) as [h|] eqn:Eh; [|done]. cbn in Hk.
  set (method := GetSigningMethodFromKey (view_of key)) in *.
  fold (proof_claims nonce audience (digest h (Combine issuerJWT ds "")) made) in Hk.
  destruct (SignedString method key _ _) as [tok|] eqn:Es; [|done]. injection Hk as ->.
  destruct (method_valid key Hv) as (Hmv & [m Hgm] & Hkt). fold method in Hmv, Hgm.
  destruct (SignedString_dots _ _ _ _ _ Es) as [Hc Ht].
  rewrite presentation_join. unfold VerifyKeyBinding. cbn [Nonce Audience].
  rewrite (proj2 (str_empty_false nonce)), (proj2 (str_empty_false audience)) by done.
  rewrite splitPresentation_Join; [|by apply Forall_app; split; [|apply Forall_singleton]|done|done]. cbn [mbind result_bind].
  assert (holderKeyFromCnf issuerClaims = Ok (sig_public key)) as ->.
  { unfold holderKeyFromCnf. rewrite Hcnf, Hjwk, Hkey. by destruct (key_type_of (sig_public key)). }
  set (claims := proof_claims nonce audience (digest h (Combine issuerJWT ds "")) made) in *.
  destruct (Parse_signed method key _ claims kb m (Some (validMethodsFor (sig_public key))) (fun _ => Some (sig_public key)) (Some now) Es)
    as (text & sig & Ep); try done.
  { apply plain_obj. intros k v [[<- <-]|[_ [<- <-]%lookup_singleton_Some]]%lookup_insert_Some; [done|].
    split; [done|]. unfold method. destruct (view_of key); cbn; repeat case_bool_decide; done. }
  { by apply proof_claims_plain. }
  cbn [mbind result_bind]. rewrite Ep. cbn [mbind result_bind map_err Header Claims].
  rewrite (checkIssuedAt_fresh _ _ made now); [|unfold claims, proof_claims, decoded_map; by simplify_map_eq|done..].
  unfold decoded_map, str_field. rewrite !lookup_fmap. unfold claims, proof_claims. simplify_map_eq.
  cbn [decoded fmap option_fmap option_map mbind result_bind]. rewrite !bool_decide_eq_true_2 by done.
  cbn [negb]. rewrite Combine_presented. by rewrite bool_decide_eq_true_2.
Qed.

(** A proof is not transferable: presented again with the same proof and
    digest algorithm, a token that is accepted is the token it was made over,
    character by character, unless the hash collides on the two.  Claims can
    be neither added nor withheld once the holder has signed. *)
Theorem proof_not_transferable vp vp' claims claims' expected expected' now now' i ds i' ds' kb h :
  VerifyKeyBinding vp claims expected now = Ok tt → VerifyKeyBinding vp' claims' expected' now' = Ok tt →
  splitPresentation vp = Ok (i, ds, kb) → splitPresentation vp' = Ok (i', ds', kb) →
  sd_alg claims = sd_alg claims' → getHashFromAlgorithm (sd_alg claims) = Some h →
  (h (presented_text i ds) = h (presented_text i' ds') → presented_text i ds = presented_text i' ds') →
  vp = vp'.
Proof.
  intros Hv Hv' Hs Hs' Ha Hh Hinj.
  destruct (VerifyKeyBinding_proof _ _ _ _ _ _ _ _ Hv Hs Hh) as (t & Et & Ht).
  rewrite Ha in Hh. destruct (VerifyKeyBinding_proof _ _ _ _ _ _ _ _ Hv' Hs' Hh) as (t' & Et' & Ht').
  rewrite Et in Et'. injection Et' as <-. rewrite Ht in Ht'.
  rewrite (splitPresentation_Ok _ _ _ _ Hs), (splitPresentation_Ok _ _ _ _ Hs'). f_equal. apply Hinj.
  apply (f_equal unb64) in Ht'. unfold digest in Ht'. rewrite !unb64_b64 in Ht'. by injection Ht'.
Qed.
End binding.
