(* ===== verification/SdJwtIssue.v ===== *)
(** * Issuing SD-JWT credentials

    [pkg/sdjwtvc]: [MakeCredential] and what it calls ([methods.go]).  The claims are one tree that the functions
    rewrite; each returns it rewritten.  Salts and decoy digests come from the
    random source and are arguments: [salt i] are the bytes of the [i]-th draw
    of [generateSalt], [decoy path i] those of the [i]-th decoy for the object
    at [path]. *)

From S2P Require Import Prelude GoStrings Base64 GoValue Utf8 Json Jwt SdJwt SdJwtVerify.

Record VctmClaim := mkVctmClaim { Path : list (option string); SD : string; Mandatory : bool }.
Record VCTM := mkVCTM { vctm_VCT : string; vctm_Claims : list VctmClaim }.

Inductive issue_error :=
| BadHash | EmptyPath | NilInPath | NilName | NonObject | ReservedName | MarshalFailed
| ShortArrayPath | NotAnArray | PathNotFound | SdNotArray | DuplicateDigest (h : string).

(** ** Order *)

(** One pass of the exchange sort: [x] sits at position [i] while the rest is
    scanned, and changes places with every deeper claim. *)
Fixpoint exchange_pass (x : VctmClaim) (l : list VctmClaim) : VctmClaim * list VctmClaim :=
  match l with
  | [] => (x, [])
  | y :: l =>
      if bool_decide (length (Path x) < length (Path y))%nat
      then let '(z, l') := exchange_pass y l in (z, x :: l')
      else let '(z, l') := exchange_pass x l in (z, y :: l')
  end.

Fixpoint exchange_sort (n : nat) (l : list VctmClaim) : list VctmClaim :=
  match n, l with
  | S n, x :: l => let '(z, l') := exchange_pass x l in z :: exchange_sort n l'
  | _, _ => []
  end.

Definition sortClaimsByDepth (claims : list VctmClaim) : list VctmClaim := exchange_sort (length claims) claims.

Section issue.
Context `{JSON} `{Hashes}.
Variable h : string → string.          (* the hash function *)
Variable salt : nat → string.
Variable decoy : list string → nat → string.
Variable mixed : list json → list json.

(** The encoded disclosure and its digest, with what they are made of *)
Definition make_disclosure (s name : string) (v : json) (array : bool) : option Disclosure :=
  '(hash, raw) ← Discloser_Hash h (mkDiscloser s name v array);
  Some (mkDisclosure s name v raw hash).

(** ** Hiding an object's member *)

Fixpoint processClaimPath (s : string) (m : jobject) (path : list (option string)) :
    result issue_error (option (jobject * Disclosure)) :=
  match path with
  | [] => Err EmptyPath
  | [Some name] =>
      if bool_decide (name = "_sd" ∨ name = "...") then Err ReservedName else
      match m !! name with
      | None => Ok None
      | Some v =>
          match make_disclosure s name v false with
          | None => Err MarshalFailed
          | Some d => Ok (Some (delete name m, d))
          end
      end
  | [None] => Err NilName
  | Some k :: rest =>
      match m !! k with
      | None => Ok None
      | Some (JObj sub) =>
          r ← processClaimPath s sub rest;
          Ok (match r with Some (sub', d) => Some (<[k := JObj sub']> m, d) | None => None end)
      | Some _ => Err NonObject
      end
  | None :: _ => Err NilInPath
  end.

Fixpoint addHashToPath (m : jobject) (path : list (option string)) (hash : string) : result issue_error jobject :=
  match path with
  | [] =>
      match m !! "_sd" with
      | None => Ok (<["_sd" := JArr [JStr hash]]> m)
      | Some (JArr l) =>
          if existsb (fun e => match e with JStr s => bool_decide (s = hash) | _ => false end) l
          then Err (DuplicateDigest hash)
          else Ok (<["_sd" := JArr (l ++ [JStr hash])]> m)
      | Some _ => Err SdNotArray
      end
  | None :: _ => Err NilInPath
  | Some k :: rest =>
      match m !! k with
      | None => Err PathNotFound
      | Some (JObj sub) => sub' ← addHashToPath sub rest hash; Ok (<[k := JObj sub']> m)
      | Some _ => Err NonObject
      end
  end.

(** ** Hiding the elements of an array *)

Definition marker_of (hash : string) : json := JObj {["..." := JStr hash]}.

Fixpoint disclose_elements (i : nat) (l : list json) : option (list Disclosure) :=
  match l with
  | [] => Some []
  | e :: l => d ← make_disclosure (b64 (salt i)) "" e true; ds ← disclose_elements (S i) l; Some (d :: ds)
  end.

(** The Go function joins the disclosures with [~] and its caller splits them
    again ([raws_split]). *)
Fixpoint processArrayElementPath (i : nat) (m : jobject) (path : list (option string)) :
    result issue_error (option (jobject * list Disclosure)) :=
  match path with
  | [] | [_] => Err ShortArrayPath
  | [Some name; _] =>
      match m !! name with
      | None => Ok None
      | Some (JArr l) =>
          match disclose_elements i l with
          | None => Err MarshalFailed
          | Some ds => Ok (Some (<[name := JArr (map (fun d => marker_of (Hash d)) ds)]> m, ds))
          end
      | Some _ => Err NotAnArray
      end
  | [None; _] => Err NilName
  | Some k :: rest =>
      match m !! k with
      | None => Ok None
      | Some (JObj sub) =>
          r ← processArrayElementPath i sub rest;
          Ok (match r with Some (sub', ds) => Some (<[k := JObj sub']> m, ds) | None => None end)
      | Some _ => Err NonObject
      end
  | None :: _ => Err NilInPath
  end.

(** ** All claims *)

Definition is_array_path (path : list (option string)) : bool :=
  match last path with Some None => true | _ => false end.

Definition process_claim (c : VctmClaim) (data : jobject) (made : list Disclosure) :
    result issue_error (jobject * list Disclosure) :=
  if negb (bool_decide (SD c = "always")) || bool_decide (Path c = []) then Ok (data, made) else
  if is_array_path (Path c) then
    r ← processArrayElementPath (length made) data (Path c);
    Ok (match r with Some (data', ds) => (data', (made ++ ds)%list) | None => (data, made) end)
  else
    r ← processClaimPath (b64 (salt (length made))) data (Path c);
    match r with
    | None => Ok (data, made)
    | Some (data', d) =>
        if str_empty (Raw d) then Ok (data', made) else
        data'' ← addHashToPath data' (removelast (Path c)) (Hash d);
        Ok (data'', (made ++ [d])%list)
    end.

Fixpoint process_claims (cs : list VctmClaim) (data : jobject) (made : list Disclosure) :
    result issue_error (jobject * list Disclosure) :=
  match cs with
  | [] => Ok (data, made)
  | c :: cs => '(data, made) ← process_claim c data made; process_claims cs data made
  end.

(** [addDecoyDigestsRecursive]; [generateDecoyDigest] hashes 32 random bytes *)
Definition decoys (count : nat) (path : list string) : list string :=
  map (fun i => digest h (decoy path i)) (seq 0 count).

Definition append_decoys (count : nat) (path : list string) (m : jobject) : jobject :=
  match m !! "_sd" with
  | Some (JArr l) => <["_sd" := JArr (l ++ map JStr (decoys count path))]> m
  | _ => m
  end.

Fixpoint add_decoys (count : nat) (v : json) : list string → json :=
  match v with
  | JObj m => fun path => JObj (append_decoys count path (map_imap (fun k f => Some (f (path ++ [k])%list)) (add_decoys count <$> m)))
  | v => fun _ => v
  end.

(** ** Sorted digests *)

Fixpoint insert_str (s : string) (l : list string) : list string :=
  match l with
  | [] => [s]
  | t :: l => if String.leb s t then s :: t :: l else t :: insert_str s l
  end.
Definition sort_strs (l : list string) : list string := foldr insert_str [] l.

(** [sort.Slice] by the strings.  With anything else in the array the
    comparison is not an order, and [mixed] is what [sort.Slice] makes of it. *)
Definition sortSDArray (l : list json) : list json :=
  if forallb (fun e => match e with JStr _ => true | _ => false end) l then map JStr (sort_strs (omap as_str l)) else mixed l.

Definition sort_sd (m : jobject) : jobject :=
  match m !! "_sd" with Some (JArr l) => <["_sd" := JArr (sortSDArray l)]> m | _ => m end.

(** [shuffleSDArrays]: objects, and objects that are elements of a member *)
Fixpoint shuffleSDArrays (v : json) : json :=
  match v with
  | JObj m => JObj (sort_sd (shuffleSDArrays <$> m))
  | JArr l => JArr (map (fun e => match e with JObj _ => shuffleSDArrays e | _ => e end) l)
  | v => v
  end.

(** [MakeCredential]; [algName] is the registered name of [h].
    [make_credential] keeps the disclosures it encodes. *)
Definition make_credential (algName : string) (data : jobject) (vctm : VCTM) (decoyCount : Z) :
    result issue_error (json * list Disclosure) :=
  '(data, made) ← process_claims (sortClaimsByDepth (vctm_Claims vctm)) (<["_sd_alg" := JStr algName]> data) [];
  let tree := if bool_decide (0 < decoyCount) then add_decoys (Z.to_nat decoyCount) (JObj data) [] else JObj data in
  Ok (shuffleSDArrays tree, made).

Definition MakeCredential (algName : string) (data : jobject) (vctm : VCTM) (decoyCount : Z) :
    result issue_error (json * list string) :=
  '(tree, made) ← make_credential algName data vctm decoyCount; Ok (tree, map Raw made).
End issue.

(** [getHashAlgorithmName]: by size, then by the digest of a test text *)
Definition getHashAlgorithmName `{Hashes} (size : Z) (sum : string → string) : option string :=
  if bool_decide (size = 32) then
    Some (if bool_decide (sum "test" = hash_sum "sha-256" "test") then "sha-256" else
          if bool_decide (sum "test" = hash_sum "sha3-256" "test") then "sha3-256" else "sha-256")
  else if bool_decide (size = 48) then Some "sha-384"
  else if bool_decide (size = 64) then
    Some (if bool_decide (sum "test" = hash_sum "sha-512" "test") then "sha-512" else
          if bool_decide (sum "test" = hash_sum "sha3-512" "test") then "sha3-512" else "sha-512")
  else if bool_decide (size = 28) then Some "sha-224" else None.
