(* ===== verification/SdJwtTree.v ===== *)
(** * Rewriting trees of digests

    What a tree stands for when one of its objects is rewritten deep inside:
    a member is taken out and its digest put in, or the elements of an array
    are replaced by their digests.  [SdJwtRoundTrip] uses these for the loop of
    [MakeCredential]. *)

From S2P Require Import Prelude GoStrings Base64 GoValue Utf8 Json Jwt SdJwt SdJwtVerify SdJwtIssue.

Abbreviation Committed := (committed Value named (fun _ => true)).
Abbreviation Closed := (closed Value).

(** ** Trees without digests *)

Fixpoint clean (v : json) : bool :=
  match v with
  | JArr l => forallb (fun e => bool_decide (marker e = None) && clean e) l
  | JObj m => bool_decide (m !! "_sd" = None) && bool_decide (m !! "_sd_alg" = None) &&
              forallb id (map snd (map_to_list (clean <$> m)))
  | _ => true
  end.

Lemma clean_arr l e : clean (JArr l) = true → e ∈ l → marker e = None ∧ clean e = true.
Proof.
  cbn. rewrite forallb_elem. intros H He. specialize (H e He). apply andb_true_iff in H as [Hm Hc].
  by apply bool_decide_eq_true in Hm.
Qed.

Lemma clean_obj m : clean (JObj m) = true →
  m !! "_sd" = None ∧ m !! "_sd_alg" = None ∧ ∀ k v, m !! k = Some v → clean v = true.
Proof.
  cbn. rewrite !andb_true_iff, !bool_decide_eq_true, forallb_members. tauto.
Qed.

Lemma clean_hashes v : clean v = true → collectHashes v = ∅.
Proof.
  induction v as [| | | | |l IH|m IH] using json_nested_ind; intros Hc; try done; apply set_eq; intros x; split; try (by intros []%elem_of_empty).
  - intros (e & He & Hx)%collectHashes_arr. destruct (clean_arr l e Hc He) as [Hm Hce]. rewrite Hm, (IH e He Hce) in Hx.
    by apply elem_of_empty in Hx.
  - destruct (clean_obj m Hc) as (H1 & _ & Hall). intros [Hx|(k & v & _ & Hv & Hx)]%collectHashes_obj.
    + unfold sd_digests in Hx. rewrite H1 in Hx. by apply elem_of_nil in Hx.
    + rewrite (IH k v Hv (Hall k v Hv)) in Hx. by apply elem_of_empty in Hx.
Qed.

Lemma digests_none m : m !! "_sd" = None → sd_digests m = [].
Proof. unfold sd_digests. by intros ->. Qed.

Section theory.
Context {D : Type} (value : D → json) (claim_of : D → option string) (in_array : D → bool).
Implicit Types dm : gmap string D.
Abbreviation committed := (committed value claim_of in_array).
Abbreviation members := (members value claim_of).
Abbreviation element := (element value in_array).
Abbreviation closed := (closed value).

Lemma members_none dm m : m !! "_sd" = None → m !! "_sd_alg" = None → members dm m = m ∧ proper_names value claim_of dm m.
Proof.
  intros H1 H2. unfold SdJwt.members, proper_names, sd_claims. rewrite digests_none by done. cbn. split; [|split; [apply NoDup_nil_2|apply Forall_nil_2; done]].
  rewrite map_empty_union. unfold strip. rewrite (delete_id m "_sd") by done. by apply delete_id.
Qed.

Lemma committed_clean dm v : clean v = true → committed dm (jdepth v) v v.
Proof.
  induction v as [| | | | |l IH|m IH] using json_nested_ind; intros Hc; try done.
  - change (Forall2 (fun e u => committed dm (list_max (map jdepth l)) (element dm e) u) l l).
    apply Forall2_same_length_lookup. split; [done|]. intros i e e' He He'. rewrite He in He'. injection He' as <-.
    assert (e ∈ l) as Hin by (apply list_elem_of_lookup; eauto). destruct (clean_arr l e Hc Hin) as [Hm Hce].
    unfold SdJwt.element, hidden. rewrite Hm. cbn. eapply committed_le; [|by apply IH].
    apply list_max_elem, list_elem_of_In, in_map, list_elem_of_In, Hin.
  - destruct (clean_obj m Hc) as (H1 & H2 & Hall). destruct (members_none dm m H1 H2) as [Em Hp].
    change (proper_names value claim_of dm m ∧
            map_Forall2 (fun _ => committed dm (list_max (map snd (map_to_list (jdepth <$> m))))) (members dm m) m).
    split; [done|]. rewrite Em. intros k. destruct (m !! k) as [v|] eqn:E; constructor.
    eapply committed_le; [|by apply (IH k v E), (Hall k)]. apply list_max_elem, elem_of_map_snd. exists k. by rewrite lookup_fmap, E.
Qed.

(** ** More disclosures *)

(** [dm'] knows the same about the digests of [R]. *)
Definition same_on (R : gset string) dm dm' : Prop := ∀ h, h ∈ R → dm' !! h = dm !! h.

Lemma sd_claims_same R dm dm' m :
  same_on R dm dm' → (∀ h, h ∈ sd_digests m → h ∈ R) → sd_claims value claim_of dm' m = sd_claims value claim_of dm m.
Proof.
  intros Hs HR. unfold sd_claims. induction (sd_digests m) as [|h hs IH]; [done|]. cbn.
  assert (sd_claim value claim_of dm' h = sd_claim value claim_of dm h) as ->.
  { unfold sd_claim. by rewrite Hs by set_solver. }
  rewrite IH by set_solver. done.
Qed.

Lemma members_same R dm dm' m :
  same_on R dm dm' → collectHashes (JObj m) ⊆ R → members dm' m = members dm m ∧
  (proper_names value claim_of dm m → proper_names value claim_of dm' m).
Proof.
  intros Hs HR. unfold SdJwt.members, proper_names. rewrite (sd_claims_same R dm dm' m Hs); [done|].
  intros h Hh. apply HR, collectHashes_obj. by left.
Qed.

Lemma element_same R dm dm' l e :
  same_on R dm dm' → collectHashes (JArr l) ⊆ R → e ∈ l → element dm' e = element dm e.
Proof.
  intros Hs HR He. unfold SdJwt.element, hidden. destruct (marker e) as [h|] eqn:Em; [|done]. cbn. rewrite Hs; [done|].
  apply HR, collectHashes_arr. exists e. rewrite Em. split; [done|]. set_solver.
Qed.

Lemma element_digests R dm l e :
  closed dm R → collectHashes (JArr l) ⊆ R → e ∈ l → collectHashes (element dm e) ⊆ R.
Proof.
  intros Hc HR He. assert (∀ h, h ∈ match marker e with Some h => {[h]} | None => collectHashes e end → h ∈ R) as He'.
  { intros h Hh. apply HR, collectHashes_arr. eauto. }
  unfold SdJwt.element, hidden. destruct (marker e) as [h|] eqn:Em; cbn; [|set_solver].
  assert (collectHashes e ⊆ R) as Hce.
  { apply marker_obj in Em as (m & -> & ->). intros x Hx. apply collectHashes_obj in Hx as [Hx|(k & v & Hk & Hv & Hx)].
    - unfold sd_digests in Hx. rewrite lookup_singleton_ne in Hx by done. by apply elem_of_nil in Hx.
    - apply lookup_singleton_Some in Hv as [_ <-]. cbn in Hx. set_solver. }
  destruct (dm !! h) as [d|] eqn:Ed; [|done]. cbn. destruct (in_array d); [|done]. eapply (Hc h d); [set_solver|done].
Qed.

Lemma committed_weaken R dm dm' n v u :
  closed dm R → same_on R dm dm' → committed dm n v u → collectHashes v ⊆ R → committed dm' n v u.
Proof.
  intros Hc Hs. revert v u. induction n as [|n IH]; [done|]. intros v u Hv HR. cbn in Hv |- *.
  destruct v as [| | | | |l|m]; try done; destruct u as [| | | | |us|us]; try done.
  - apply Forall2_same_length_lookup in Hv as [Hl Hv]. apply Forall2_same_length_lookup. split; [done|].
    intros i e u He Hu. assert (e ∈ l) as Hin by (apply list_elem_of_lookup; eauto).
    rewrite (element_same R dm dm' l e) by done. apply IH; [by eapply Hv|]. by eapply element_digests.
  - destruct Hv as [Hp Hv]. destruct (members_same R dm dm' m Hs HR) as [Em Hp']. split; [auto|]. rewrite Em.
    intros k. specialize (Hv k). destruct (members dm m !! k) as [v|] eqn:E, (us !! k) as [u|]; inversion Hv; subst; constructor.
    apply IH; [done|]. by eapply members_digests.
Qed.

(** ** Rewriting one object deep in the tree *)

Inductive edited : list string → jobject → jobject → jobject → jobject → Prop :=
| edited_here sub sub' : edited [] sub sub' sub sub'
| edited_in k ks m x x' sub sub' :
    m !! k = Some (JObj x) → edited ks x x' sub sub' → edited (k :: ks) m (<[k := JObj x']> m) sub sub'.

Definition plain_key (k : string) : Prop := k ≠ "_sd" ∧ k ≠ "_sd_alg".

Lemma edited_compose ks m m' m'' sub sub' sub2 sub'' :
  edited ks m m' sub sub' → edited ks m' m'' sub2 sub'' → sub2 = sub' ∧ edited ks m m'' sub sub''.
Proof.
  intros He. revert m''. induction He as [sub sub'|k ks m x x' sub sub' Hk He IH]; intros m'' He2; inversion He2; subst.
  - split; [done|constructor].
  - rewrite lookup_insert_eq in *. simplify_eq. destruct (IH _ ltac:(eassumption)) as [-> He3]. split; [done|].
    rewrite insert_insert_eq. by econstructor.
Qed.

Lemma digests_insert m k v : k ≠ "_sd" → sd_digests (<[k := v]> m) = sd_digests m.
Proof. intros Hk. unfold sd_digests. by rewrite lookup_insert_ne. Qed.

Lemma edited_hashes X ks m m' sub sub' :
  Forall plain_key ks → edited ks m m' sub sub' →
  collectHashes (JObj sub') ⊆ X ∪ collectHashes (JObj sub) → collectHashes (JObj m') ⊆ X ∪ collectHashes (JObj m).
Proof.
  intros Hk He Hx. induction He as [|k ks m x x' sub sub' Hm He IH]; [done|]. apply Forall_cons in Hk as [[Hk _] Hks].
  specialize (IH Hks Hx). intros h Hh. apply collectHashes_obj in Hh as [Hh|(j & v & Hj & Hv & Hh)].
  - rewrite digests_insert in Hh by done. apply elem_of_union_r, collectHashes_obj. by left.
  - apply lookup_insert_Some in Hv as [[<- <-]|[Hne Hv]].
    + apply IH, elem_of_union in Hh as [Hh|Hh]; [by apply elem_of_union_l|]. apply elem_of_union_r, collectHashes_obj. eauto 8.
    + apply elem_of_union_r, collectHashes_obj. eauto 8.
Qed.

Lemma members_insert dm m k v w :
  plain_key k → m !! k = Some w → proper_names value claim_of dm m →
  members dm (<[k := v]> m) = <[k := v]> (members dm m) ∧ proper_names value claim_of dm (<[k := v]> m) ∧
  members dm m !! k = Some w.
Proof.
  intros [Hk1 Hk2] Hm [Hn Hf]. unfold SdJwt.members, proper_names, sd_claims in *. rewrite digests_insert by done.
  assert (strip m !! k = Some w) as Hsk.
  { rewrite strip_lookup. by rewrite bool_decide_eq_false_2 by naive_solver. }
  assert (k ∉ (omap (sd_claim value claim_of dm) (sd_digests m)).*1) as Hnk.
  { intros Hin. rewrite Forall_forall in Hf. destruct (Hf k Hin) as [Hf' _]. congruence. }
  split_and!; [|done| |].
  - rewrite strip_insert by done. rewrite insert_union_r; [done|]. by apply not_elem_of_list_to_map_1.
  - rewrite Forall_forall in Hf |- *. intros name Hname. destruct (Hf name Hname) as (Hs & H1 & H2). split; [|done].
    rewrite strip_insert by done. rewrite lookup_insert_ne; [done|]. by intros ->.
  - apply lookup_union_Some_raw. right. split; [|done]. by apply not_elem_of_list_to_map_1.
Qed.

Lemma edited_committed R dm dm' ks m m' sub sub' n u :
  closed dm R → same_on R dm dm' → Forall plain_key ks → edited ks m m' sub sub' →
  (∀ n u, committed dm n (JObj sub) u → collectHashes (JObj sub) ⊆ R → committed dm' n (JObj sub') u) →
  committed dm n (JObj m) u → collectHashes (JObj m) ⊆ R → committed dm' n (JObj m') u.
Proof.
  intros Hc Hs Hk He Hsub. revert n u. induction He as [|k ks m x x' sub sub' Hm He IH]; [done|]. intros n u Hcm HR.
  apply Forall_cons in Hk as [Hk Hks]. specialize (IH Hks Hsub).
  destruct n as [|n]; [done|]. cbn in Hcm |- *. destruct u as [| | | | | |us]; try (by destruct Hcm). destruct Hcm as [Hp Hcm].
  destruct (members_same R dm dm' m Hs HR) as [Em Hp'].
  destruct (members_insert dm' m k (JObj x') (JObj x) Hk Hm (Hp' Hp)) as (Ei & Hpi & Hl). split; [done|].
  rewrite Ei, Em. rewrite Em in Hl. intros j. pose proof (Hcm j) as Hj. destruct (decide (k = j)) as [<-|Hne].
  - rewrite lookup_insert_eq. rewrite Hl in Hj. inversion Hj as [? u Hu Eu|]; subst. constructor. apply IH; [done|].
    intros h Hh. apply HR, collectHashes_obj. right. exists k, (JObj x). split; [apply Hk|done].
  - rewrite lookup_insert_ne by done. destruct (members dm m !! j) as [v|] eqn:E, (us !! j) as [u|]; inversion Hj; subst; constructor.
    eapply committed_weaken; [done..|]. by eapply members_digests.
Qed.
End theory.

(** ** Disclosure maps *)

Lemma disclosure_map_snoc ds d : disclosure_map (ds ++ [d])%list = <[Hash d := d]> (disclosure_map ds).
Proof. unfold disclosure_map. by rewrite foldl_snoc. Qed.

Lemma disclosure_map_None ds x : x ∉ map Hash ds → disclosure_map ds !! x = None.
Proof.
  intros Hx. destruct (disclosure_map ds !! x) as [d|] eqn:E; [|done]. apply disclosure_map_elem in E as [Hd <-].
  destruct Hx. apply list_elem_of_fmap. eauto.
Qed.

Lemma disclosure_map_dom ds : dom (disclosure_map ds) = list_to_set (map Hash ds) :> gset string.
Proof.
  induction ds as [|d ds IH] using rev_ind; [done|]. rewrite disclosure_map_snoc, dom_insert_L, IH, map_app, list_to_set_app_L.
  cbn. set_solver.
Qed.

(** Later disclosures with digests of their own change nothing for the earlier. *)
Lemma disclosure_map_app ds ds' :
  NoDup (map Hash (ds ++ ds')) → same_on (dom (disclosure_map ds)) (disclosure_map ds) (disclosure_map (ds ++ ds')%list).
Proof.
  induction ds' as [|d ds' IH] using rev_ind; intros Hn x Hx; [by rewrite app_nil_r|].
  rewrite app_assoc, map_app in Hn. apply NoDup_app in Hn as (Hn & Hd & _). rewrite app_assoc, disclosure_map_snoc.
  rewrite lookup_insert_ne; [by apply IH|]. intros <-. apply (Hd (Hash d)); [|by apply list_elem_of_here].
  rewrite disclosure_map_dom, elem_of_list_to_set in Hx. rewrite map_app. apply elem_of_app. by left.
Qed.

Lemma disclosure_map_lookup ds d : NoDup (map Hash ds) → d ∈ ds → disclosure_map ds !! Hash d = Some d.
Proof.
  induction ds as [|d' ds IH] using rev_ind; [by intros _ ?%elem_of_nil|]. rewrite map_app, disclosure_map_snoc.
  intros (Hn & Hd & _)%NoDup_app [Hin| ->%list_elem_of_singleton]%elem_of_app; [|by rewrite lookup_insert_eq].
  rewrite lookup_insert_ne; [by apply IH|]. intros E. apply (Hd (Hash d)); [apply list_elem_of_fmap; eauto|].
  rewrite <- E. by apply list_elem_of_here.
Qed.

(** ** Hiding a member *)

Definition sd_list (m : jobject) (l : list json) : Prop := m !! "_sd" = Some (JArr l) ∨ (m !! "_sd" = None ∧ l = []).

Lemma sd_list_digests m l : sd_list m l → sd_digests m = omap as_str l.
Proof. unfold sd_list, sd_digests. intros [->|[-> ->]]; done. Qed.

(** The object without the member and with the digest *)
Definition hide (name : string) (l : list json) (hs : string) (sub : jobject) : jobject :=
  <["_sd" := JArr (l ++ [JStr hs])]> (delete name sub).

Lemma hide_digests name l hs sub : sd_list sub l → sd_digests (hide name l hs sub) = (sd_digests sub ++ [hs])%list.
Proof.
  intros Hl. unfold hide. unfold sd_digests at 1. rewrite lookup_insert_eq, omap_app, (sd_list_digests _ _ Hl). done.
Qed.

Lemma hide_member R dm d name v l sub n u :
  Closed dm R → Hash d ∉ R → Claim d = name → Value d = v →
  plain_key name → name ≠ "" → sub !! name = Some v → sd_list sub l →
  Committed dm n (JObj sub) u → collectHashes (JObj sub) ⊆ R →
  Committed (<[Hash d := d]> dm) n (JObj (hide name l (Hash d) sub)) u.
Proof.
  intros Hc Hd Ename Ev [Hk1 Hk2] Hne Hv Hl Hcm HR. set (dm' := <[Hash d := d]> dm).
  assert (same_on R dm dm') as Hs. { intros x Hx. unfold dm'. rewrite lookup_insert_ne; [done|]. by intros <-. }
  destruct n as [|n]; [done|]. cbn in Hcm |- *. destruct u as [| | | | | |us]; try (by destruct Hcm). destruct Hcm as [[Hn Hf] Hcm].
  assert (∀ x, x ∈ sd_digests sub → x ∈ R) as HRd. { intros x Hx. apply HR, collectHashes_obj. by left. }
  assert (sd_claims Value named dm' (hide name l (Hash d) sub) = (sd_claims Value named dm sub ++ [(name, v)])%list) as Ecs.
  { unfold sd_claims at 1. rewrite hide_digests, omap_app by done. f_equal; [by apply (sd_claims_same _ _ R)|]. cbn.
    unfold sd_claim, dm'. rewrite lookup_insert_eq. cbn. unfold named. rewrite (proj2 (str_empty_false _)) by congruence. cbn.
    by rewrite Ename, Ev. }
  assert (strip (hide name l (Hash d) sub) = delete name (strip sub)) as Est.
  { unfold hide, strip. rewrite delete_insert_eq. rewrite !(delete_delete _ _ name). done. }
  assert (strip sub !! name = Some v) as Hsv. { rewrite strip_lookup. by rewrite bool_decide_eq_false_2 by naive_solver. }
  assert (name ∉ (sd_claims Value named dm sub).*1) as Hnew.
  { intros Hin. rewrite Forall_forall in Hf. destruct (Hf name Hin) as [? _]. congruence. }
  split.
  - unfold proper_names. rewrite Ecs, Est, fmap_app. split.
    + apply NoDup_app. split_and!; [done| |apply NoDup_singleton]. intros x Hx ->%list_elem_of_singleton. done.
    + apply Forall_app. split; [|apply Forall_singleton; cbn; by rewrite lookup_delete_eq].
      eapply Forall_impl; [exact Hf|]. cbn. intros x (Hx & ? & ?). split; [|done]. apply lookup_delete_None. by right.
  - assert (members Value named dm' (hide name l (Hash d) sub) = members Value named dm sub) as ->.
    { unfold members. rewrite Ecs, Est. apply map_eq. intros k. rewrite list_to_map_app, !lookup_union. cbn.
      destruct (decide (k = name)) as [->|Hk].
      - rewrite (not_elem_of_list_to_map_1 _ _ Hnew). rewrite lookup_delete_eq, Hsv. by rewrite lookup_insert_eq.
      - rewrite lookup_delete_ne by done. rewrite lookup_insert_ne by done. rewrite lookup_empty.
        by destruct (list_to_map _ !! k), (strip sub !! k). }
    intros k. specialize (Hcm k). destruct (members Value named dm sub !! k) as [w|] eqn:E, (us !! k) as [x|];
      inversion Hcm; subst; constructor. eapply committed_weaken; [done..|]. eapply members_digests; done.
Qed.

Lemma hide_hashes name v l hs sub :
  sd_list sub l → sub !! name = Some v → name ≠ "_sd" → collectHashes (JObj (hide name l hs sub)) ⊆ {[hs]} ∪ collectHashes (JObj sub).
Proof.
  intros Hl Hv Hn x Hx. apply collectHashes_obj in Hx as [Hx|(k & w & Hk & Hw & Hx)].
  - rewrite hide_digests in Hx by done. apply elem_of_app in Hx as [Hx| ->%list_elem_of_singleton]; [|set_solver].
    apply elem_of_union_r, collectHashes_obj. by left.
  - unfold hide in Hw. rewrite lookup_insert_ne in Hw by done. apply lookup_delete_Some in Hw as [_ Hw].
    apply elem_of_union_r, collectHashes_obj. eauto 8.
Qed.

(** ** Hiding the elements of an array *)

Lemma marker_of_marker hs : marker (marker_of hs) = Some hs.
Proof. unfold marker_of, marker. rewrite map_size_singleton. cbn. by rewrite lookup_singleton_eq. Qed.

Definition markers (ds : list Disclosure) : list json := map (fun d => marker_of (Hash d)) ds.

Lemma hide_array R dm dm' ds l us n :
  Closed dm R → same_on R dm dm' → (∀ d, d ∈ ds → dm' !! Hash d = Some d) → map Value ds = l →
  (∀ e, e ∈ l → marker e = None) → collectHashes (JArr l) ⊆ R →
  Committed dm n (JArr l) us → Committed dm' n (JArr (markers ds)) us.
Proof.
  intros Hc Hs Hd El Hm HR Hcm. destruct n as [|n]; [done|]. cbn in Hcm |- *. destruct us as [| | | | |us|]; try (by destruct Hcm).
  subst l. apply (Forall2_fmap_l (fun d => marker_of (Hash d))). apply (Forall2_fmap_l Value) in Hcm.
  apply Forall2_same_length_lookup in Hcm as [Hlen Hcm]. apply Forall2_same_length_lookup. split; [done|].
  intros i d u Hi Hu. assert (d ∈ ds) as Hin by (apply list_elem_of_lookup; eauto).
  assert (Value d ∈ map Value ds) as Hvin by (apply list_elem_of_fmap; eauto).
  change (Committed dm' n (element Value (fun _ => true) dm' (marker_of (Hash d))) u).
  assert (element Value (fun _ => true) dm' (marker_of (Hash d)) = Value d) as ->.
  { unfold element, hidden. rewrite marker_of_marker. cbn. by rewrite (Hd d Hin). }
  specialize (Hcm i d u Hi Hu). cbn in Hcm. unfold element, hidden in Hcm. rewrite (Hm _ Hvin) in Hcm. cbn in Hcm.
  eapply committed_weaken; [done..|]. intros x Hx. apply HR, collectHashes_arr. exists (Value d). rewrite (Hm _ Hvin). done.
Qed.

Lemma hide_elements R dm dm' ds l name sub n u :
  Closed dm R → same_on R dm dm' → (∀ d, d ∈ ds → dm' !! Hash d = Some d) → map Value ds = l →
  (∀ e, e ∈ l → marker e = None) → plain_key name → sub !! name = Some (JArr l) →
  Committed dm n (JObj sub) u → collectHashes (JObj sub) ⊆ R →
  Committed dm' n (JObj (<[name := JArr (markers ds)]> sub)) u.
Proof.
  intros Hc Hs Hd El Hm Hk Hl Hcm HR. destruct n as [|n]; [done|]. cbn in Hcm |- *.
  destruct u as [| | | | | |us]; try (by destruct Hcm). destruct Hcm as [Hp Hcm].
  destruct (members_same Value named R dm dm' sub Hs HR) as [Em Hp'].
  destruct (members_insert Value named dm' sub name (JArr (markers ds)) (JArr l) Hk Hl (Hp' Hp)) as (Ei & Hpi & Hml).
  split; [done|]. rewrite Ei, Em. rewrite Em in Hml. intros j. pose proof (Hcm j) as Hj. destruct (decide (name = j)) as [<-|Hne].
  - rewrite lookup_insert_eq. rewrite Hml in Hj. inversion Hj as [? u Hu Eu|]; subst. constructor.
    eapply (hide_array R dm); [exact Hc|exact Hs|exact Hd|done|exact Hm| |exact Hu]. intros x Hx. apply HR, collectHashes_obj. right. exists name, (JArr (map Value ds)).
    split; [apply Hk|done].
  - rewrite lookup_insert_ne by done. destruct (members Value named dm sub !! j) as [v|] eqn:E, (us !! j) as [u|];
      inversion Hj; subst; constructor. eapply committed_weaken; [done..|]. by eapply members_digests.
Qed.

Lemma elements_hashes ds l name sub :
  name ≠ "_sd" → sub !! name = Some (JArr l) →
  collectHashes (JObj (<[name := JArr (markers ds)]> sub)) ⊆ list_to_set (map Hash ds) ∪ collectHashes (JObj sub).
Proof.
  intros Hn Hl x Hx. apply collectHashes_obj in Hx as [Hx|(k & w & Hk & Hw & Hx)].
  - rewrite digests_insert in Hx by done. apply elem_of_union_r, collectHashes_obj. by left.
  - apply lookup_insert_Some in Hw as [[<- <-]|[Hne Hw]].
    + apply collectHashes_arr in Hx as (e & He & Hx). apply list_elem_of_fmap in He as (d & -> & Hd).
      rewrite marker_of_marker in Hx. apply elem_of_singleton in Hx as ->. apply elem_of_union_l, elem_of_list_to_set, list_elem_of_fmap. eauto.
    + apply elem_of_union_r, collectHashes_obj. eauto 8.
Qed.

(** ** Where arrays are *)

Inductive arr_at : jobject → list string → string → list json → Prop :=
| arr_here m name l : m !! name = Some (JArr l) → arr_at m [] name l
| arr_in m k x ks name l : m !! k = Some (JObj x) → arr_at x ks name l → arr_at m (k :: ks) name l.

Lemma edited_arr ks m m' sub sub' ks' name l :
  edited ks m m' sub sub' → arr_at m' ks' name l →
  arr_at m ks' name l ∨ ∃ r, ks' = (ks ++ r)%list ∧ arr_at sub' r name l.
Proof.
  intros He. revert ks'. induction He as [sub sub'|k ks m x x' sub sub' Hm He IH]; intros ks' Ha; [right; by exists ks'|].
  inversion Ha as [? ? ? Hl|? j y js ? ? Hj Hy]; subst.
  - apply lookup_insert_Some in Hl as [[_ [=]]|[_ Hl]]. left. by constructor.
  - apply lookup_insert_Some in Hj as [[<- [= <-]]|[_ Hj]]; [|left; by econstructor].
    destruct (IH _ Hy) as [Hx|(r & -> & Hr)]; [left; by econstructor|]. right. by exists r.
Qed.

(** An array below the rewritten object is one below the original. *)
Lemma edited_lift ks m m' sub sub' r name l : edited ks m m' sub sub' → arr_at sub r name l → arr_at m (ks ++ r)%list name l.
Proof. induction 1; cbn; [done|]. intros. econstructor; eauto. Qed.

Lemma hide_arr name l hs sub r name' l' :
  name' ≠ "_sd" → arr_at (hide name l hs sub) r name' l' → arr_at sub r name' l'.
Proof.
  intros Hn Ha. unfold hide in Ha. inversion Ha as [? ? ? Hl|? k x ks ? ? Hk Hx]; subst.
  - rewrite lookup_insert_ne in Hl by done. apply lookup_delete_Some in Hl as [_ Hl]. by constructor.
  - apply lookup_insert_Some in Hk as [[_ [=]]|[_ Hk]]. apply lookup_delete_Some in Hk as [_ Hk]. by econstructor.
Qed.

Lemma elements_arr ds name sub r name' l' :
  (r, name') ≠ ([], name) → arr_at (<[name := JArr (markers ds)]> sub) r name' l' → arr_at sub r name' l'.
Proof.
  intros Hne Ha. inversion Ha as [? ? ? Hl|? k x ks ? ? Hk Hx]; subst.
  - rewrite lookup_insert_ne in Hl by (intros ->; done). by constructor.
  - apply lookup_insert_Some in Hk as [[_ [=]]|[_ Hk]]. by econstructor.
Qed.

Lemma clean_at m ks name l e : clean (JObj m) = true → arr_at m ks name l → e ∈ l → marker e = None.
Proof.
  intros Hc Ha. revert Hc. induction Ha as [m name l Hl|m k x ks name l Hk Ha IH]; intros (_ & _ & Hall)%clean_obj He.
  - by apply (clean_arr l e (Hall name _ Hl)).
  - apply IH; [by apply (Hall k)|done].
Qed.
