(* ===== verification/SdJwtRoundTrip.v ===== *)
(** * What an issued SD-JWT stands for

    The claims tree [MakeCredential] signs is committed to the claims it was
    given: with every disclosure put back it is those claims again.  The proof
    follows the loop; each step hides one member or the elements of one array
    and adds the disclosures that bring them back ([claim_step]). *)

From Stdlib Require Import Sorting.Sorted.
From S2P Require Import Prelude GoStrings Base64 GoValue Utf8 Json Jwt SdJwt SdJwtVerify SdJwtIssue SdJwtTree.

(** ** One claim *)

Section one.
Context `{JSON} `{Hashes} (h : string → string) (salt : nat → string).

Lemma make_disclosure_Some s name v array d :
  make_disclosure h s name v array = Some d →
  Salt d = s ∧ Claim d = name ∧ Value d = v ∧ Hash d = digest h (Raw d) ∧
  ∃ text, Marshal (JArr (if array then [JStr s; v] else [JStr s; JStr name; v])) = Some text ∧ Raw d = b64 text.
Proof.
  unfold make_disclosure, Discloser_Hash. cbn. destruct (Marshal _) as [text|] eqn:E; [|done]. cbn. intros [= <-]. cbn. eauto 10.
Qed.

Lemma processClaimPath_hides s m path m' d :
  processClaimPath h s m path = Ok (Some (m', d)) →
  ∃ ks name sub v, path = (map Some ks ++ [Some name])%list ∧ name ≠ "_sd" ∧ sub !! name = Some v ∧
    edited ks m m' sub (delete name sub) ∧ make_disclosure h s name v false = Some d.
Proof.
  revert m m'. induction path as [|[k|] rest IH]; intros m m' Hp; [done| |by destruct rest].
  destruct rest as [|o rest].
  - cbn in Hp. case_bool_decide as Hr; [done|]. destruct (m !! k) as [v|] eqn:Ev; [|done].
    destruct (make_disclosure h s k v false) as [d'|] eqn:Ed; [|done]. injection Hp as <- <-.
    exists [], k, m, v. split_and!; try done; [naive_solver|constructor].
  - change (match m !! k with
      | None => Ok None
      | Some (JObj sub) => r ← processClaimPath h s sub (o :: rest);
          Ok (match r with Some (sub', d) => Some (<[k := JObj sub']> m, d) | None => None end)
      | Some _ => Err NonObject end = Ok (Some (m', d))) in Hp.
    destruct (m !! k) as [[| | | | | |sub]|] eqn:Ek; try done.
    destruct (processClaimPath h s sub (o :: rest)) as [[[sub' d']|]|] eqn:Es; cbn in Hp; try done. injection Hp as <- <-.
    destruct (IH _ _ Es) as (ks & name & sub0 & v & -> & Hn & Hv & He & Hd).
    exists (k :: ks), name, sub0, v. split_and!; try done. by econstructor.
Qed.

Lemma addHashToPath_adds m ks hs m' :
  addHashToPath m (map Some ks) hs = Ok m' →
  ∃ sub l, sd_list sub l ∧ edited ks m m' sub (<["_sd" := JArr (l ++ [JStr hs])]> sub).
Proof.
  revert m m'. induction ks as [|k ks IH]; intros m m' Hp; cbn in Hp.
  - destruct (m !! "_sd") as [[| | | | |l|]|] eqn:E; try done.
    + destruct (existsb _ l); [done|]. injection Hp as <-. exists m, l. split; [by left|constructor].
    + injection Hp as <-. exists m, []. split; [by right|constructor].
  - destruct (m !! k) as [[| | | | | |sub]|] eqn:Ek; try done.
    destruct (addHashToPath sub _ hs) as [sub'|] eqn:Es; [|done]. injection Hp as <-.
    destruct (IH _ _ Es) as (sub0 & l & Hl & He). exists sub0, l. split; [done|]. by econstructor.
Qed.

Lemma processArrayElementPath_hides i m path m' ds :
  processArrayElementPath h salt i m path = Ok (Some (m', ds)) →
  ∃ ks name x sub l, path = (map Some ks ++ [Some name; x])%list ∧ sub !! name = Some (JArr l) ∧
    edited ks m m' sub (<[name := JArr (markers ds)]> sub) ∧ disclose_elements h salt i l = Some ds.
Proof.
  revert m m'. induction path as [|[k|] rest IH]; intros m m' Hp; [done| |by destruct rest as [|? []]].
  destruct rest as [|o [|o' rest]]; [done| |].
  - cbn in Hp. destruct (m !! k) as [[| | | | |l|]|] eqn:El; try done.
    destruct (disclose_elements h salt i l) as [ds'|] eqn:Ed; [|done]. injection Hp as <- <-.
    exists [], k, o, m, l. split_and!; try done. constructor.
  - change (match m !! k with
      | None => Ok None
      | Some (JObj sub) => r ← processArrayElementPath h salt i sub (o :: o' :: rest);
          Ok (match r with Some (sub', ds) => Some (<[k := JObj sub']> m, ds) | None => None end)
      | Some _ => Err NonObject end = Ok (Some (m', ds))) in Hp.
    destruct (m !! k) as [[| | | | | |sub]|] eqn:Ek; try done.
    destruct (processArrayElementPath h salt i sub (o :: o' :: rest)) as [[[sub' d']|]|] eqn:Es; cbn in Hp; try done.
    injection Hp as <- <-. destruct (IH _ _ Es) as (ks & name & x & sub0 & l & -> & Hl & He & Hd).
    exists (k :: ks), name, x, sub0, l. split_and!; try done. by econstructor.
Qed.

Lemma disclose_elements_values i l ds : disclose_elements h salt i l = Some ds → map Value ds = l.
Proof.
  revert i ds. induction l as [|e l IH]; intros i ds; cbn; [by intros [= <-]|].
  destruct (make_disclosure h _ "" e true) as [d|] eqn:Ed; [|done]. cbn.
  destruct (disclose_elements h salt (S i) l) as [ds'|] eqn:Es; [|done]. intros [= <-]. cbn.
  destruct (make_disclosure_Some _ _ _ _ _ Ed) as (_ & _ & -> & _). f_equal. eauto.
Qed.

(** Joining the disclosures of an array and splitting them again gives them back. *)
Lemma raws_split i l ds :
  disclose_elements h salt i l = Some ds → ds ≠ [] → Split "~" (Join "~" (map Raw ds)) = map Raw ds.
Proof.
  intros Hd Hne. apply Split_Join; [by destruct ds|]. clear Hne. revert i ds Hd.
  induction l as [|e l IH]; intros i ds; cbn; [intros [= <-]; constructor|].
  destruct (make_disclosure h _ "" e true) as [d|] eqn:Ed; [|done]. cbn.
  destruct (disclose_elements h salt (S i) l) as [ds'|] eqn:Es; [|done]. intros [= <-]. constructor; [|eauto].
  destruct (make_disclosure_Some _ _ _ _ _ Ed) as (_ & _ & _ & _ & text & _ & ->). by apply b64_no_sep.
Qed.
End one.

(** ** The loop *)

Lemma edited_sub_hashes ks m m' sub sub' :
  Forall plain_key ks → edited ks m m' sub sub' → collectHashes (JObj sub) ⊆ collectHashes (JObj m).
Proof.
  intros Hk He. induction He as [|k ks m x x' sub sub' Hm He IH]; [done|]. apply Forall_cons in Hk as [[Hk _] Hks].
  intros y Hy. apply collectHashes_obj. right. exists k, (JObj x). split_and!; [done..|by apply IH].
Qed.

Lemma member_hashes (m : jobject) k v : k ≠ "_sd" → m !! k = Some v → collectHashes v ⊆ collectHashes (JObj m).
Proof. intros Hk Hv x Hx. apply collectHashes_obj. eauto 8. Qed.

Lemma closed_extend made ds :
  NoDup (map Hash (made ++ ds)) → Closed (disclosure_map made) (dom (disclosure_map made)) →
  (∀ d, d ∈ ds → collectHashes (Value d) ⊆ dom (disclosure_map made)) →
  Closed (disclosure_map (made ++ ds)%list) (dom (disclosure_map (made ++ ds)%list)).
Proof.
  intros Hn Hc Hd.
  assert (dom (disclosure_map made) ⊆@{gset string} dom (disclosure_map (made ++ ds)%list)) as Hsub.
  { rewrite !disclosure_map_dom, map_app, list_to_set_app_L. set_solver. }
  intros x d _ Hx. etrans; [|exact Hsub]. apply disclosure_map_elem in Hx as [Hin _].
  apply elem_of_app in Hin as [Hin|Hin]; [|by apply Hd].
  rewrite map_app in Hn. apply NoDup_app in Hn as (Hn & _). apply (Hc (Hash d)); [|by apply disclosure_map_lookup].
  apply elem_of_dom. exists d. by apply disclosure_map_lookup.
Qed.

Definition proper_path (path : list (option string)) : Prop := ∀ k, Some k ∈ path → plain_key k ∧ k ≠ "".

(** Between two claims: the tree stands for [u] under the disclosures made so
    far, refers to no others, and the arrays still to be hidden are as they
    were. *)
Record issuing (cs : list VctmClaim) (n : nat) (u : json) (data : jobject) (made : list Disclosure) : Prop := {
  is_committed : Committed (disclosure_map made) n (JObj data) u;
  is_anchored : collectHashes (JObj data) ⊆ dom (disclosure_map made);
  is_closed : Closed (disclosure_map made) (dom (disclosure_map made));
  is_arrays : ∀ ks name l e, (map Some ks ++ [Some name; None])%list ∈ map Path cs →
    arr_at data ks name l → e ∈ l → marker e = None
}.

Lemma issuing_edit c cs n u data data' made ds ks sub sub' :
  issuing (c :: cs) n u data made → NoDup (map Hash (made ++ ds)) →
  edited ks data data' sub sub' → Forall plain_key ks →
  (∀ d, d ∈ ds → collectHashes (Value d) ⊆ collectHashes (JObj sub)) →
  collectHashes (JObj sub') ⊆ list_to_set (map Hash ds) ∪ collectHashes (JObj sub) →
  (∀ n u, Committed (disclosure_map made) n (JObj sub) u → collectHashes (JObj sub) ⊆ dom (disclosure_map made) →
     Committed (disclosure_map (made ++ ds)%list) n (JObj sub') u) →
  (∀ r name l, (map Some (ks ++ r) ++ [Some name; None])%list ∈ map Path cs → arr_at sub' r name l → arr_at sub r name l) →
  issuing cs n u data' (made ++ ds)%list.
Proof.
  intros [Hcm Hr Hc Ha] Hn He Hk Hv Hh Hsub Harr.
  pose proof (edited_sub_hashes _ _ _ _ _ Hk He) as Hss.
  assert (dom (disclosure_map made) ⊆@{gset string} dom (disclosure_map (made ++ ds)%list)) as Hdom.
  { rewrite !disclosure_map_dom, map_app, list_to_set_app_L. set_solver. }
  split.
  - eapply (edited_committed Value named (fun _ => true)); [exact Hc|by apply disclosure_map_app|exact Hk|exact He|exact Hsub|done|done].
  - etrans; [by eapply edited_hashes|]. apply union_least; [|by etrans].
    rewrite disclosure_map_dom, map_app, list_to_set_app_L. set_solver.
  - apply closed_extend; [done..|]. intros d Hd. etrans; [by apply Hv|]. by etrans.
  - intros ks' name l e Hp Hat Hin. destruct (edited_arr _ _ _ _ _ _ _ _ He Hat) as [Hat'|(r & -> & Hr')].
    + eapply Ha; [|exact Hat'|exact Hin]. cbn. by apply list_elem_of_further.
    + eapply Ha; [cbn; apply list_elem_of_further, Hp| |exact Hin]. eapply edited_lift; [done|]. by eapply Harr.
Qed.

Section loop.
Context `{JSON} `{Hashes} `{!JSONLaws} (h : string → string) (salt : nat → string).

Lemma proper_keys ks rest : proper_path (map Some ks ++ rest)%list → Forall plain_key ks ∧ proper_path rest.
Proof.
  intros Hp. split; [|intros k Hk; apply Hp, elem_of_app; by right]. apply Forall_forall. intros k Hk.
  apply Hp, elem_of_app. left. apply list_elem_of_fmap. eauto.
Qed.

Lemma made_nonempty s name v array d : make_disclosure h s name v array = Some d → str_empty (Raw d) = false.
Proof.
  intros (_ & _ & _ & _ & text & Et & ->)%make_disclosure_Some. apply str_empty_false. intros ->%b64_empty.
  by eapply Marshal_nonempty.
Qed.

(** What one claim does to the tree *)
Inductive claim_step (c : VctmClaim) (data : jobject) (made : list Disclosure) : jobject → list Disclosure → Prop :=
| step_skip : claim_step c data made data made
| step_member ks name sub l v d data' :
    SD c = "always" → Path c = (map Some ks ++ [Some name])%list → name ≠ "_sd" → sub !! name = Some v → sd_list sub l →
    edited ks data data' sub (hide name l (Hash d) sub) →
    make_disclosure h (b64 (salt (length made))) name v false = Some d →
    claim_step c data made data' (made ++ [d])%list
| step_elements ks name sub l ds data' :
    SD c = "always" → Path c = (map Some ks ++ [Some name; None])%list → sub !! name = Some (JArr l) →
    edited ks data data' sub (<[name := JArr (markers ds)]> sub) →
    disclose_elements h salt (length made) l = Some ds →
    claim_step c data made data' (made ++ ds)%list.

Lemma process_claim_step c data made data' made' :
  process_claim h salt c data made = Ok (data', made') → claim_step c data made data' made'.
Proof.
  unfold process_claim. case_bool_decide as Hsd; cbn [negb orb]; [|intros [= <- <-]; constructor].
  case_bool_decide; [intros [= <- <-]; constructor|]. destruct (is_array_path (Path c)) eqn:Harr.
  - destruct (processArrayElementPath h salt _ _ _) as [[[data1 ds]|]|] eqn:E; cbn; try done; intros [= <- <-]; [|constructor].
    destruct (processArrayElementPath_hides _ _ _ _ _ _ _ E) as (ks & name & x & sub & l & Epath & Hl & He & Hds).
    assert (x = None) as ->. { unfold is_array_path in Harr. rewrite Epath, last_app in Harr. cbn in Harr. by destruct x. }
    by eapply step_elements.
  - destruct (processClaimPath h _ _ _) as [[[data1 d]|]|] eqn:E; cbn; try done; [|intros [= <- <-]; constructor].
    destruct (processClaimPath_hides _ _ _ _ _ _ E) as (ks & name & sub & v & Epath & Hne & Hv & He & Hd).
    rewrite (made_nonempty _ _ _ _ _ Hd). rewrite Epath, removelast_last.
    destruct (addHashToPath data1 _ _) as [data2|] eqn:Ea; cbn; [|done]. intros [= <- <-].
    destruct (addHashToPath_adds _ _ _ _ Ea) as (sub2 & l & Hl & He2).
    destruct (edited_compose _ _ _ _ _ _ _ _ He He2) as [-> He3].
    eapply (step_member _ _ _ ks name sub l v d); try done. unfold sd_list in *. by rewrite lookup_delete_ne in Hl.
Qed.

Lemma process_claims_extends cs data made data' made' :
  process_claims h salt cs data made = Ok (data', made') → ∃ ds, made' = (made ++ ds)%list.
Proof.
  revert data made. induction cs as [|c cs IH]; intros data made; cbn; [intros [= <- <-]; exists []; by rewrite app_nil_r|].
  destruct (process_claim h salt c data made) as [[data1 made1]|] eqn:E; [|done]. cbn. intros Hr.
  destruct (IH _ _ Hr) as [ds' ->]. destruct (process_claim_step _ _ _ _ _ E).
  - by exists ds'.
  - rewrite <- app_assoc. by eexists.
  - rewrite <- app_assoc. by eexists.
Qed.

(** A relation every step keeps is kept by the loop. *)
Lemma process_claims_ind (P : list VctmClaim → jobject → list Disclosure → Prop) cs data made data' made' :
  (∀ c cs data made data' made', P (c :: cs) data made → NoDup (map Hash made') →
     process_claim h salt c data made = Ok (data', made') → P cs data' made') →
  P cs data made → NoDup (map Hash made') →
  process_claims h salt cs data made = Ok (data', made') → P [] data' made'.
Proof.
  intros Hstep. revert data made. induction cs as [|c cs IH]; intros data made Hi Hn; cbn; [by intros [= <- <-]|].
  destruct (process_claim h salt c data made) as [[data1 made1]|] eqn:E; [|done]. cbn. intros Hr.
  apply (IH data1 made1); [|done..]. eapply Hstep; [exact Hi| |exact E].
  destruct (process_claims_extends _ _ _ _ _ Hr) as [ds ->]. rewrite map_app in Hn. by apply NoDup_app in Hn as (? & _).
Qed.

Lemma issuing_skip c cs n u data made : issuing (c :: cs) n u data made → issuing cs n u data made.
Proof. intros [? ? ? Ha]. split; try done. intros ks name l e Hin. apply Ha. by apply list_elem_of_further. Qed.

Lemma issuing_member c cs n u data made ks name sub l v d data' :
  issuing (c :: cs) n u data made → Forall plain_key ks → plain_key name → name ≠ "" →
  (∀ c', c' ∈ cs → proper_path (Path c')) → NoDup (map Hash (made ++ [d])) →
  sub !! name = Some v → sd_list sub l → edited ks data data' sub (hide name l (Hash d) sub) →
  make_disclosure h (b64 (salt (length made))) name v false = Some d → issuing cs n u data' (made ++ [d])%list.
Proof.
  intros Hi Hks Hpk Hnn Hps Hn Hv Hl He Hd. destruct (make_disclosure_Some _ _ _ _ _ _ Hd) as (_ & Ec & Ev & _).
  pose proof Hn as Hn'. rewrite map_app in Hn'. apply NoDup_app in Hn' as (_ & Hdis & _).
  eapply issuing_edit; [exact Hi|done|exact He|done|..].
  - intros d' ->%list_elem_of_singleton. rewrite Ev. apply (member_hashes sub name); [apply Hpk|done].
  - cbn. rewrite union_empty_r_L. apply (hide_hashes name v); [done..|apply Hpk].
  - intros n' u' Hcm HR. rewrite disclosure_map_snoc. apply (hide_member (dom (disclosure_map made)) _ d name v l sub); try done.
    + apply Hi.
    + rewrite disclosure_map_dom, elem_of_list_to_set. intros Hin. by apply (Hdis (Hash d)), list_elem_of_here.
  - intros r name' l' Hin. apply hide_arr. apply list_elem_of_fmap in Hin as (c' & E & Hc').
    specialize (Hps c' Hc'). rewrite <- E in Hps. destruct (proper_keys _ _ Hps) as [_ Hq]. apply (Hq name'). by apply list_elem_of_here.
Qed.

(** The arrays a claim is about still have their elements. *)
Lemma issuing_unmarked c cs n u data made ks name sub sub' data' l e :
  issuing (c :: cs) n u data made → Path c = (map Some ks ++ [Some name; None])%list →
  edited ks data data' sub sub' → sub !! name = Some (JArr l) → e ∈ l → marker e = None.
Proof.
  intros Hi Epath He Hl. eapply (is_arrays _ _ _ _ _ Hi ks name); [cbn; rewrite Epath; by apply list_elem_of_here|].
  rewrite <- (app_nil_r ks). eapply edited_lift; [done|]. by constructor.
Qed.

Lemma issuing_elements c cs n u data made ks name sub l ds data' :
  issuing (c :: cs) n u data made → Path c = (map Some ks ++ [Some name; None])%list → Forall plain_key ks → plain_key name →
  Path c ∉ map Path cs → NoDup (map Hash (made ++ ds)) → sub !! name = Some (JArr l) →
  edited ks data data' sub (<[name := JArr (markers ds)]> sub) →
  disclose_elements h salt (length made) l = Some ds → issuing cs n u data' (made ++ ds)%list.
Proof.
  intros Hi Epath Hks Hpk Hnew Hn Hl He Hds. pose proof (disclose_elements_values _ _ _ _ _ Hds) as Ev.
  assert (∀ e, e ∈ l → marker e = None) as Hm by (intros e; by eapply issuing_unmarked).
  assert (collectHashes (JArr l) ⊆ collectHashes (JObj sub)) as Hsub by (apply (member_hashes sub name); [apply Hpk|done]).
  eapply issuing_edit; [exact Hi|done|exact He|done|..].
  - intros d Hd. etrans; [|exact Hsub]. assert (Value d ∈ l) as Hdl by (rewrite <- Ev; apply list_elem_of_fmap; eauto).
    intros y Hy. apply collectHashes_arr. exists (Value d). rewrite (Hm _ Hdl). done.
  - apply (elements_hashes ds l); [apply Hpk|done].
  - intros n' u' Hcm HR. eapply (hide_elements (dom (disclosure_map made)) (disclosure_map made)); try done.
    + apply Hi.
    + by apply disclosure_map_app.
    + intros d Hd. apply disclosure_map_lookup; [done|]. apply elem_of_app. by right.
  - intros r name' l' Hin. apply elements_arr. intros [= -> ->]. rewrite app_nil_r in Hin. by rewrite <- Epath in Hin.
Qed.

Definition proper_claims (cs : list VctmClaim) : Prop := (∀ c, c ∈ cs → proper_path (Path c)) ∧ NoDup (map Path cs).

Lemma proper_claims_cons c cs :
  proper_claims (c :: cs) → proper_path (Path c) ∧ Path c ∉ map Path cs ∧ proper_claims cs.
Proof.
  intros [Hp Hn]. cbn in Hn. apply NoDup_cons in Hn as [? ?]. split_and!; [apply Hp; by apply list_elem_of_here|done|].
  split; [|done]. intros c' Hc'. apply Hp. by apply list_elem_of_further.
Qed.

Lemma issuing_claim c cs n u data made data' made' :
  issuing (c :: cs) n u data made → proper_claims (c :: cs) → NoDup (map Hash made') →
  process_claim h salt c data made = Ok (data', made') → issuing cs n u data' made'.
Proof.
  intros Hi (Hp & Hnew & [Hps _])%proper_claims_cons Hn Hstep%process_claim_step.
  destruct Hstep as [|ks name sub l v d data' _ Epath Hne Hv Hl He Hd|ks name sub l ds data' _ Epath Hl He Hds]; [by eapply issuing_skip|..];
    pose proof Hp as Hp'; rewrite Epath in Hp'; destruct (proper_keys _ _ Hp') as [Hks Hname];
    destruct (Hname name ltac:(by apply list_elem_of_here)) as [Hpk Hnn].
  - by eapply issuing_member.
  - by eapply issuing_elements.
Qed.

Lemma issuing_claims cs n u data made data' made' :
  issuing cs n u data made → proper_claims cs → NoDup (map Hash made') →
  process_claims h salt cs data made = Ok (data', made') → issuing [] n u data' made'.
Proof.
  intros Hi Hp Hn Hr. enough (issuing [] n u data' made' ∧ proper_claims []) as [? _] by done. revert Hn Hr.
  apply (process_claims_ind (fun cs data made => issuing cs n u data made ∧ proper_claims cs)); [|done].
  clear cs data made data' made' Hi Hp. intros c cs data made data' made' [Hi Hp] Hn E. split; [by eapply issuing_claim|]. by apply proper_claims_cons in Hp as (_ & _ & ?).
Qed.
End loop.

(** ** Decoys and order *)

(** A relation that keeps what every object hides, up to order, and goes
    through what is not hidden *)
Definition tidying (dm : gmap string Disclosure) (R : json → json → Prop) : Prop :=
  ∀ v v', R v v' →
  match v, v' with
  | JObj m, JObj m' =>
      sd_claims Value named dm m' ≡ₚ sd_claims Value named dm m ∧
      ∀ k, plain_key k → option_Forall2 (fun a b => a = b ∨ R a b) (m !! k) (m' !! k)
  | JArr l, JArr l' => Forall2 (fun e e' => e = e' ∨ marker e = None ∧ marker e' = None ∧ R e e') l l'
  | v, v' => v = v'
  end.

Lemma tidy_names dm (m m' : jobject) :
  sd_claims Value named dm m' ≡ₚ sd_claims Value named dm m →
  (∀ k, plain_key k → m !! k = None → m' !! k = None) →
  proper_names Value named dm m → proper_names Value named dm m'.
Proof.
  intros Hp Hn [Hd Hf]. assert ((sd_claims Value named dm m').*1 ≡ₚ (sd_claims Value named dm m).*1) as Hp1 by by rewrite Hp.
  split; [by rewrite Hp1|]. rewrite Hp1. eapply Forall_impl; [exact Hf|]. cbn. intros k (Hk & H1 & H2). split; [|done].
  rewrite strip_lookup in Hk |- *. rewrite bool_decide_eq_false_2 in Hk |- * by naive_solver. by apply Hn.
Qed.

Lemma tidy_committed dm R n v v' u :
  tidying dm R → R v v' → Committed dm n v u → Committed dm n v' u.
Proof.
  intros Ht. revert v v' u. induction n as [|n IH]; [done|]. intros v v' u Hr Hc. pose proof (Ht v v' Hr) as Hvv.
  destruct v as [| | | | |l|m]; try (by subst v'); destruct v' as [| | | | |l'|m']; try done; cbn in Hc |- *.
  - destruct u as [| | | | |us|]; try (by destruct Hc). clear Hr. revert us Hc.
    induction Hvv as [|e e' l l' He Hl IHl]; intros us Hc; inversion Hc as [|? u ? us' Hu Hus]; subst; [constructor|].
    constructor; [|by apply IHl].
    destruct He as [->|(Hm & Hm' & He)]; [done|]. unfold element, hidden in *. rewrite Hm in Hu. rewrite Hm'. by eapply IH.
  - destruct u as [| | | | | |us]; try (by destruct Hc). destruct Hc as [Hp Hc]. destruct Hvv as [Hperm Hk].
    assert (∀ k, plain_key k → m !! k = None → m' !! k = None) as Hnone.
    { intros k Hpk Hm. specialize (Hk k Hpk). rewrite Hm in Hk. by inversion Hk. }
    split; [by eapply tidy_names|]. intros k. specialize (Hc k). unfold members in *.
    rewrite (list_to_map_proper _ _ (proj1 (tidy_names _ _ _ Hperm Hnone Hp)) Hperm).
    rewrite lookup_union in Hc |- *. destruct (list_to_map (sd_claims Value named dm m) !! k) as [w|] eqn:Ew.
    { rewrite union_Some_l in Hc |- *. done. }
    rewrite !(left_id_L None _) in Hc |- *. rewrite strip_lookup in Hc |- *. case_bool_decide as Hb; [done|].
    specialize (Hk k ltac:(unfold plain_key; naive_solver)).
    destruct Hk as [a b [->|Hab]|]; [done| |done]. inversion Hc as [? u Hu Eu|]; subst. constructor. by eapply IH.
Qed.

Lemma sd_claims_app dm m hs hs' :
  sd_digests m = (hs ++ hs')%list → (∀ x, x ∈ hs' → dm !! x = None) →
  sd_claims Value named dm m = omap (sd_claim Value named dm) hs.
Proof.
  intros E Hn. unfold sd_claims. rewrite E, omap_app.
  assert (omap (sd_claim Value named dm) hs' = []) as ->; [|apply app_nil_r].
  clear E. induction hs' as [|x hs' IH]; [done|]. cbn. unfold sd_claim at 1. rewrite Hn by set_solver. cbn. apply IH. set_solver.
Qed.

Lemma omap_as_str ws : omap as_str (map JStr ws) = ws.
Proof. induction ws as [|w ws IH]; cbn; [done|]. by rewrite IH. Qed.

Section decoys.
Context (h : string → string) (decoy : list string → nat → string) (count : nat).

Lemma decoys_lookup m path k :
  k ≠ "_sd" → append_decoys h decoy count path (map_imap (fun k f => Some (f (path ++ [k])%list)) (add_decoys h decoy count <$> m)) !! k =
  (fun v => add_decoys h decoy count v (path ++ [k])%list) <$> m !! k.
Proof.
  intros Hk. unfold append_decoys. set (m1 := map_imap _ _).
  assert (m1 !! k = (fun v => add_decoys h decoy count v (path ++ [k])%list) <$> m !! k) as E.
  { unfold m1. rewrite map_lookup_imap, lookup_fmap. by destruct (m !! k). }
  destruct (m1 !! "_sd") as [[]|]; try done. by rewrite lookup_insert_ne by done.
Qed.

Lemma decoys_digests m path :
  ∃ hs', (∀ x, x ∈ hs' → x ∈ decoys h decoy count path) ∧
  sd_digests (append_decoys h decoy count path (map_imap (fun k f => Some (f (path ++ [k])%list)) (add_decoys h decoy count <$> m))) =
  (sd_digests m ++ hs')%list.
Proof.
  unfold append_decoys, sd_digests. rewrite !map_lookup_imap, !lookup_fmap. destruct (m !! "_sd") as [[| | | | |l|m']|] eqn:E; cbn.
  6: { exists (decoys h decoy count path). split; [done|]. rewrite lookup_insert_eq, omap_app. f_equal. apply omap_as_str. }
  all: exists []; (split; [by intros x ?%elem_of_nil|]); rewrite ?map_lookup_imap, ?lookup_fmap, ?E; by rewrite ?app_nil_r.
Qed.

(** Digests that stand for nothing do not change what a tree stands for. *)
Lemma decoys_tidy dm :
  (∀ path x, x ∈ decoys h decoy count path → dm !! x = None) →
  tidying dm (fun v v' => ∃ path, v' = add_decoys h decoy count v path).
Proof.
  intros Hd v v' [path ->]. destruct v as [| | | | |l|m]; try done.
  - cbn. apply Forall_Forall2_diag, Forall_true. by left.
  - cbn -[append_decoys]. destruct (decoys_digests m path) as (hs' & Hhs & E). split.
    + unfold sd_claims at 2. rewrite (sd_claims_app _ _ _ _ E); [done|]. intros x Hx. by eapply Hd, Hhs.
    + intros k [Hk _]. rewrite decoys_lookup by done. destruct (m !! k) as [v|]; constructor. eauto.
Qed.
End decoys.

Lemma insert_str_perm s l : insert_str s l ≡ₚ s :: l.
Proof.
  induction l as [|t l IH]; [done|]. cbn. destruct (String.leb s t); [done|]. rewrite IH. apply Permutation_swap.
Qed.

Lemma sort_strs_perm l : sort_strs l ≡ₚ l.
Proof. induction l as [|s l IH]; [done|]. cbn. by rewrite insert_str_perm, IH. Qed.

Section shuffle.
Context (mixed : list json → list json) (Hmixed : ∀ l, mixed l ≡ₚ l).
Abbreviation shuffle := (shuffleSDArrays mixed).

Lemma sortSDArray_strs l : omap as_str (sortSDArray mixed l) ≡ₚ omap as_str l.
Proof.
  unfold sortSDArray. destruct (forallb _ l); [rewrite omap_as_str; apply sort_strs_perm|]. by rewrite Hmixed.
Qed.

Lemma shuffle_lookup m k : k ≠ "_sd" → sort_sd mixed (shuffle <$> m) !! k = shuffle <$> m !! k.
Proof.
  intros Hk. unfold sort_sd. destruct ((shuffle <$> m) !! "_sd") as [[]|]; rewrite ?lookup_insert_ne by done; by rewrite lookup_fmap.
Qed.

Lemma shuffle_digests m : sd_digests (sort_sd mixed (shuffle <$> m)) ≡ₚ sd_digests m.
Proof.
  unfold sort_sd, sd_digests. rewrite !lookup_fmap. destruct (m !! "_sd") as [[| | | | |l|]|] eqn:E; cbn;
    rewrite ?lookup_fmap, ?E; cbn; try done.
  rewrite lookup_insert_eq, sortSDArray_strs. clear E. induction l as [|e l IH]; [done|]. destruct e; cbn; try done. by rewrite IH.
Qed.

Lemma shuffle_size m : size (sort_sd mixed (shuffle <$> m)) = size m.
Proof.
  unfold sort_sd. destruct ((shuffle <$> m) !! "_sd") as [[]|] eqn:E; rewrite ?map_size_insert_Some by (by eexists);
    by rewrite map_size_fmap.
Qed.

Lemma shuffle_marker m : marker (shuffle (JObj m)) = marker (JObj m).
Proof.
  cbn -[sort_sd]. rewrite shuffle_size, shuffle_lookup by done. case_bool_decide; [|done].
  destruct (m !! "...") as [[]|]; done.
Qed.

Lemma shuffle_marked e h : marker e = Some h → shuffle e = e.
Proof.
  by intros (m & -> & ->)%marker_obj.
Qed.

(** The order of the digests of an object does not matter. *)
Lemma shuffle_tidy dm : tidying dm (fun v v' => v' = shuffle v).
Proof.
  intros v v' ->. destruct v as [| | | | |l|m]; try done.
  - cbn. induction l as [|e l IH]; constructor; [|done]. destruct e as [| | | | | |m]; try (by left).
    destruct (marker (JObj m)) as [x|] eqn:E; [left; by rewrite (shuffle_marked _ _ E)|].
    right. by rewrite shuffle_marker.
  - cbn -[sort_sd]. split; [unfold sd_claims; by rewrite shuffle_digests|].
    intros k [Hk _]. rewrite shuffle_lookup by done. destruct (m !! k); constructor. by right.
Qed.
End shuffle.

(** ** Sorting by depth *)

Lemma exchange_pass_perm x l z l' : exchange_pass x l = (z, l') → z :: l' ≡ₚ x :: l.
Proof.
  revert x z l'. induction l as [|y l IH]; intros x z l'; cbn; [by intros [= <- <-]|]. case_bool_decide.
  - destruct (exchange_pass y l) as [z' l1] eqn:E. intros [= <- <-]. rewrite Permutation_swap, (IH _ _ _ E). done.
  - destruct (exchange_pass x l) as [z' l1] eqn:E. intros [= <- <-]. rewrite Permutation_swap, (IH _ _ _ E). apply Permutation_swap.
Qed.

Lemma exchange_pass_max x l z l' c : exchange_pass x l = (z, l') → c ∈ x :: l → (length (Path c) ≤ length (Path z))%nat.
Proof.
  revert x z l' c. induction l as [|y l IH]; intros x z l' c; cbn.
  { intros [= <- <-] ->%list_elem_of_singleton. done. }
  case_bool_decide as Hd.
  - destruct (exchange_pass y l) as [z' l1] eqn:E. intros [= <- <-]. rewrite !elem_of_cons. intros [->|Hc].
    + etrans; [by apply Nat.lt_le_incl|]. eapply IH; [done|]. by apply list_elem_of_here.
    + eapply IH; [done|]. by apply elem_of_cons.
  - destruct (exchange_pass x l) as [z' l1] eqn:E. intros [= <- <-]. rewrite !elem_of_cons. intros [->|[->|Hc]].
    + eapply IH; [done|]. by apply list_elem_of_here.
    + etrans; [by apply Nat.nlt_ge|]. eapply IH; [done|]. by apply list_elem_of_here.
    + eapply IH; [done|]. by apply list_elem_of_further.
Qed.

Lemma exchange_sort_perm n l : (length l ≤ n)%nat → exchange_sort n l ≡ₚ l.
Proof.
  revert l. induction n as [|n IH]; intros [|x l] Hl; cbn in *; try done; [lia|].
  destruct (exchange_pass x l) as [z l'] eqn:E. pose proof (exchange_pass_perm _ _ _ _ E) as Hp.
  rewrite IH; [done|]. apply Permutation_length in Hp. cbn in Hp. lia.
Qed.

Lemma sortClaimsByDepth_perm claims : sortClaimsByDepth claims ≡ₚ claims.
Proof. by apply exchange_sort_perm. Qed.

(** The exchange sort is a sort: [sortClaimsByDepth] rearranges the claims
    and no claim comes before one with a longer path, so that what is nested is
    hidden before what it is nested in. *)
Theorem sortClaimsByDepth_sorts claims :
  sortClaimsByDepth claims ≡ₚ claims ∧
  StronglySorted (fun a b => length (Path b) ≤ length (Path a))%nat (sortClaimsByDepth claims).
Proof.
  split; [by apply sortClaimsByDepth_perm|]. unfold sortClaimsByDepth. generalize (le_n (length claims)).
  generalize (length claims) at 2 3 as n. intros n. revert claims.
  induction n as [|n IH]; intros [|x l] Hl; cbn in *; try constructor.
  destruct (exchange_pass x l) as [z l'] eqn:E. pose proof (exchange_pass_perm _ _ _ _ E) as Hp.
  assert (length l' ≤ n)%nat as Hl' by (apply Permutation_length in Hp; cbn in Hp; lia).
  constructor; [by apply IH|]. apply Forall_forall. intros c Hc. eapply exchange_pass_max; [done|].
  rewrite exchange_sort_perm in Hc by done. rewrite <- Hp. by apply list_elem_of_further.
Qed.

(** ** The whole credential *)

Section credential.
Context `{JSON} `{Hashes} `{!JSONLaws} (h : string → string) (salt : nat → string).
Context (decoy : list string → nat → string) (mixed : list json → list json).

(** What is asked of type metadata: names that exist and are not reserved, and
    no path twice *)
Definition proper_vctm (vctm : VCTM) : Prop := proper_claims (vctm_Claims vctm).

Lemma sorted_proper cs : proper_claims cs → proper_claims (sortClaimsByDepth cs).
Proof.
  intros [Hp Hn]. pose proof (sortClaimsByDepth_perm cs) as Hperm. split.
  - intros c Hc. apply Hp. by rewrite Hperm in Hc.
  - change (NoDup (Path <$> sortClaimsByDepth cs)). by rewrite Hperm.
Qed.

(** The digests are those of different disclosures and not of decoys. *)
Definition distinct_digests (count : Z) (made : list Disclosure) : Prop :=
  NoDup (map Hash made) ∧ ∀ path x, x ∈ decoys h decoy (Z.to_nat count) path → x ∉ map Hash made.

Lemma issuing_start cs alg data :
  clean (JObj data) = true → issuing cs (jdepth (JObj data)) (JObj data) (<["_sd_alg" := JStr alg]> data) [].
Proof.
  intros Hc. destruct (clean_obj data Hc) as (Hsd & Halg & Hall).
  assert (Committed ∅ (jdepth (JObj data)) (JObj data) (JObj data)) as Hcm by by apply committed_clean.
  assert (sd_digests (<["_sd_alg" := JStr alg]> data) = []) as Ed by by (rewrite digests_insert by done; apply digests_none).
  split.
  - unfold disclosure_map. cbn [foldl]. revert Hcm.
    change (jdepth (JObj data)) with (S (list_max (map snd (map_to_list (jdepth <$> data))))). cbn.
    assert (strip (<["_sd_alg" := JStr alg]> data) = strip data) as Es.
    { unfold strip. rewrite delete_insert_ne by done. by rewrite delete_insert_eq. }
    unfold proper_names, members, sd_claims. by rewrite Ed, (digests_none data Hsd), Es.
  - intros x Hx. exfalso. apply collectHashes_obj in Hx as [Hx|(k & v & Hk & Hv & Hx)]; [rewrite Ed in Hx; by apply elem_of_nil in Hx|].
    apply lookup_insert_Some in Hv as [[<- <-]|[_ Hv]]; [by apply elem_of_empty in Hx|].
    by rewrite (clean_hashes v (Hall k v Hv)) in Hx.
  - intros x d. rewrite disclosure_map_dom. intros []%elem_of_empty.
  - intros ks name l e _ Ha. revert Ha. rename name into nm. intros Ha. inversion Ha as [? ? ? Hl|? k x ks' ? ? Hk Hx]; subst.
    + apply lookup_insert_Some in Hl as [[_ [=]]|[_ Hl]]. eapply (clean_at data []); [done|by constructor].
    + apply lookup_insert_Some in Hk as [[_ [=]]|[_ Hk]]. eapply (clean_at data (k :: ks')); [done|by econstructor].
Qed.

Lemma MakeCredential_committed alg data vctm count tree made :
  (∀ l, mixed l ≡ₚ l) → clean (JObj data) = true → proper_vctm vctm →
  make_credential h salt decoy mixed alg data vctm count = Ok (tree, made) → distinct_digests count made →
  Committed (disclosure_map made) (jdepth (JObj data)) tree (JObj data) ∧
  Closed (disclosure_map made) (dom (disclosure_map made) ∪ collectHashes tree).
Proof.
  intros Hmx Hc Hp. unfold make_credential. destruct (process_claims h salt _ _ _) as [[data' made']|] eqn:E; [|done].
  cbn [mbind result_bind]. intros [= <- <-] [Hn Hd].
  pose proof (issuing_start (sortClaimsByDepth (vctm_Claims vctm)) alg data Hc) as Hi.
  assert (∀ path x, x ∈ decoys h decoy (Z.to_nat count) path → disclosure_map made' !! x = None) as Hdec.
  { intros path x Hx. apply disclosure_map_None. by eapply Hd. }
  eapply issuing_claims in Hi; [|by apply sorted_proper|exact Hn|exact E].
  split.
  - eapply (tidy_committed _ _ _ _ _ _ (shuffle_tidy mixed Hmx _)); [done|]. case_bool_decide; [|apply Hi].
    eapply (tidy_committed _ _ _ (JObj data') _ _ (decoys_tidy h decoy (Z.to_nat count) _ Hdec)); [exists []; reflexivity|apply Hi].
  - intros x d _ Hx. etrans; [|apply union_subseteq_l]. eapply (is_closed _ _ _ _ _ Hi); [|done].
    apply elem_of_dom. by eexists.
Qed.

(** The disclosures someone presents *)
Lemma disclosure_map_part made ds :
  NoDup (map Hash made) → (∀ d, d ∈ ds → d ∈ made) → ∀ x d, disclosure_map ds !! x = Some d → disclosure_map made !! x = Some d.
Proof. intros Hn Hin x d [Hd <-]%disclosure_map_elem. apply disclosure_map_lookup; auto. Qed.

(** Selective disclosure works: whatever part of the disclosures of an
    issued credential is presented, in any order and with repetitions, the
    verifier's resolution of the signed claims ends and shows part of the
    claims that were issued, each value where it was; with all of them it
    shows exactly the claims that were issued.  The hypotheses: the claims have
    no [_sd] and no digests of their own, the type metadata names no path twice
    and no reserved or empty name, and digests do not collide. *)
Theorem selective_disclosure alg data vctm count tree made :
  (∀ l, mixed l ≡ₚ l) → clean (JObj data) = true → proper_vctm vctm →
  make_credential h salt decoy mixed alg data vctm count = Ok (tree, made) → distinct_digests count made →
  MakeCredential h salt decoy mixed alg data vctm count = Ok (tree, map Raw made) ∧
  reconstruct (disclosure_map made) (jdepth (JObj data)) tree = Some (JObj data) ∧
  ∀ ds, (∀ d, d ∈ ds → d ∈ made) →
    ∃ w, reconstruct (disclosure_map ds) (S (jdepth (JObj data))) tree = Some w ∧ part_of w (JObj data).
Proof.
  intros Hmx Hc Hp Hm Hd. destruct (MakeCredential_committed _ _ _ _ _ _ Hmx Hc Hp Hm Hd) as [Hcm Hcl].
  split_and!; [unfold MakeCredential; by rewrite Hm|by apply committed_resolve|].
  intros ds Hds. eapply (present_part Value named (fun _ => true)); [exact Hcm|exact Hcl| |apply union_subseteq_r].
  intros x d _. apply disclosure_map_part; [apply Hd|done].
Qed.

(** ** What is hidden *)

(** The values a claim path leads to: a name selects a member of an object, null
    every element of an array. *)
Fixpoint at_path (v : json) (path : list (option string)) : list json :=
  match path with
  | [] => [v]
  | Some k :: path => match v with JObj m => from_option (fun v => at_path v path) [] (m !! k) | _ => [] end
  | None :: path => match v with JArr l => concat (map (fun e => at_path e path) l) | _ => [] end
  end.

(** Nothing is in the clear at a path: it leads nowhere, or it ends at the
    elements of an array and these are digests. *)
Definition concealed (v : json) (path : list (option string)) : Prop :=
  ∀ x, x ∈ at_path v path → is_array_path path = true ∧ ∃ digest, x = marker_of digest.

(** A path to claims: it does not name the digests of an object, nor what stands
    for an element of an array. *)
Fixpoint claim_path (path : list (option string)) : Prop :=
  match path with
  | [] => True
  | Some k :: path => k ≠ "_sd" ∧ claim_path path
  | None :: path => head path ≠ Some (Some "...") ∧ claim_path path
  end.

(** What is hidden stays hidden. *)
Definition shrinks (v v' : json) : Prop := ∀ path, claim_path path → concealed v path → concealed v' path.

#[local] Instance shrinks_preorder : PreOrder shrinks.
Proof. split; [by intros v path|]. intros v1 v2 v3 H12 H23 path Hp Hr. auto. Qed.

Lemma concealed_nil v : ¬ concealed v [].
Proof. intros Hh. destruct (Hh v) as [Ha _]; [by constructor|done]. Qed.

Lemma is_array_path_cons o path : path ≠ [] → is_array_path (o :: path) = is_array_path path.
Proof. unfold is_array_path. by destruct path. Qed.

Lemma concealed_member m k path :
  concealed (JObj m) (Some k :: path) ↔ ∀ v, m !! k = Some v → path ≠ [] ∧ concealed v path.
Proof.
  unfold concealed. cbn [at_path]. destruct (m !! k) as [v|]; cbn; [|split; [done|by intros _ x ?%elem_of_nil]].
  destruct path as [|o path].
  - split; [|by intros Hv; destruct (Hv v eq_refl)]. intros Hx. destruct (Hx v) as [Ha _]; [by constructor|done].
  - rewrite is_array_path_cons by done. split; [by intros Hx ? [= <-]|]. intros Hv. by apply Hv.
Qed.

Lemma concealed_elements l path :
  path ≠ [] → concealed (JArr l) (None :: path) ↔ ∀ e, e ∈ l → concealed e path.
Proof.
  intros Hp. unfold concealed. cbn [at_path]. setoid_rewrite list_elem_of_In. setoid_rewrite in_concat.
  setoid_rewrite in_map_iff. rewrite is_array_path_cons by done. split.
  - intros Hx e He x Hin. apply Hx. eauto.
  - intros He x (? & (e & <- & Hin) & Hx). eauto.
Qed.

Lemma concealed_markers l : concealed (JArr l) [None] ↔ ∀ e, e ∈ l → ∃ digest, e = marker_of digest.
Proof.
  unfold concealed. cbn [at_path]. split.
  - intros Hx e He. apply Hx. apply list_elem_of_In, in_concat. exists [e]. split; [|by left].
    apply in_map_iff. exists e. by rewrite <- list_elem_of_In.
  - intros Hl x Hx. split; [done|]. apply list_elem_of_In, in_concat in Hx as (? & (e & <- & He)%in_map_iff & [<-|[]]).
    by apply Hl, list_elem_of_In.
Qed.

Lemma concealed_elsewhere v path :
  path ≠ [] → (∀ k rest, path = Some k :: rest → ∀ m, v ≠ JObj m) → (∀ rest, path = None :: rest → ∀ l, v ≠ JArr l) →
  concealed v path.
Proof.
  intros Hp Ho Ha x. destruct path as [|[k|] rest]; [done|..]; cbn.
  - destruct v; try by intros ?%elem_of_nil. by destruct (Ho k rest eq_refl m).
  - destruct v; try by intros ?%elem_of_nil. by destruct (Ha rest eq_refl l).
Qed.

Lemma concealed_marker digest path : path ≠ [] → head path ≠ Some (Some "...") → concealed (marker_of digest) path.
Proof.
  intros Hp Hu. destruct path as [|[k|] rest]; [done|..].
  - apply concealed_member. by intros v [<- _]%lookup_singleton_Some.
  - by apply concealed_elsewhere.
Qed.

(** Members other than the digests may only go. *)
Lemma members_shrink (m m' : jobject) :
  (∀ k v', k ≠ "_sd" → m' !! k = Some v' → ∃ v, m !! k = Some v ∧ shrinks v v') → shrinks (JObj m) (JObj m').
Proof.
  intros Hm [|[k|] path] Hu; [by intros ?%concealed_nil|..|by intros; apply concealed_elsewhere].
  destruct Hu as [Hk Hu]. rewrite !concealed_member. intros Hh v' Hv'.
  destruct (Hm k v' Hk Hv') as (v & Hv & Hs). destruct (Hh v Hv) as [Hp Hv2]. split; [done|]. by apply Hs.
Qed.

Lemma edited_shrinks ks m m' sub sub' :
  edited ks m m' sub sub' → shrinks (JObj sub) (JObj sub') → shrinks (JObj m) (JObj m').
Proof.
  intros He Hs. induction He as [|k ks m x x' sub sub' Hm He IH]; [done|]. apply members_shrink.
  intros j v' Hj. destruct (decide (k = j)) as [<-|Hne].
  - rewrite lookup_insert_eq. intros [= <-]. exists (JObj x). split; [done|]. by apply IH.
  - rewrite lookup_insert_ne by done. intros Hv. by exists v'.
Qed.

Lemma hide_shrinks name l hs (sub : jobject) : shrinks (JObj sub) (JObj (hide name l hs sub)).
Proof.
  apply members_shrink. unfold hide. intros k v' Hk. rewrite lookup_insert_ne by done.
  intros [_ Hv]%lookup_delete_Some. by exists v'.
Qed.

Lemma sd_shrinks l (sub : jobject) : shrinks (JObj sub) (JObj (<["_sd" := JArr l]> sub)).
Proof. apply members_shrink. intros k v' Hk. rewrite lookup_insert_ne by done. intros Hv. by exists v'. Qed.

Lemma markers_elem ds e : e ∈ markers ds → ∃ digest, e = marker_of digest.
Proof. intros (d & -> & _)%list_elem_of_fmap. by eexists. Qed.

Lemma arr_shrinks name l ds (sub : jobject) :
  sub !! name = Some (JArr l) → shrinks (JObj sub) (JObj (<[name := JArr (markers ds)]> sub)).
Proof.
  intros Hl. apply members_shrink. intros k v' Hk. destruct (decide (name = k)) as [<-|Hne].
  2:{ rewrite lookup_insert_ne by done. intros Hv. by exists v'. }
  rewrite lookup_insert_eq. intros [= <-]. exists (JArr l). split; [done|].
  intros [|[j|] path] Hu; [by intros ?%concealed_nil|by intros; apply concealed_elsewhere|]. intros _.
  destruct path as [|o path]; [apply concealed_markers; apply markers_elem|]. apply concealed_elements; [done|].
  intros e [digest ->]%markers_elem. apply concealed_marker; [done|]. apply Hu.
Qed.

Lemma process_claim_shrinks c data made data' made' :
  process_claim h salt c data made = Ok (data', made') → shrinks (JObj data) (JObj data').
Proof.
  intros Hstep%process_claim_step. destruct Hstep as [|ks name sub l v d data' _ _ _ Hv _ He _|ks name sub l ds data' _ _ Hl He _]; [done|..].
  - eapply edited_shrinks; [done|]. apply hide_shrinks.
  - eapply edited_shrinks; [done|]. by eapply arr_shrinks.
Qed.

Lemma process_claims_shrinks cs data made data' made' :
  process_claims h salt cs data made = Ok (data', made') → shrinks (JObj data) (JObj data').
Proof.
  revert data made. induction cs as [|c cs IH]; intros data made; cbn; [by intros [= <- <-]|].
  destruct (process_claim h salt c data made) as [[data1 made1]|] eqn:E; [|done]. cbn. intros Hr.
  etrans; [by eapply process_claim_shrinks|eauto].
Qed.

(** A claim that is not there *)
Lemma processClaimPath_absent s path : ∀ m, processClaimPath h s m path = Ok None → concealed (JObj m) path.
Proof.
  induction path as [|[k|] rest IH]; intros m; [done| |by destruct rest]. rewrite concealed_member. destruct rest as [|o rest].
  - cbn. case_bool_decide; [done|]. destruct (m !! k); [|done]. by destruct (make_disclosure h s k j false).
  - intros Hp v Hv. split; [done|]. change (processClaimPath h s m (Some k :: o :: rest)) with
      (match m !! k with
       | None => Ok None
       | Some (JObj sub) => r ← processClaimPath h s sub (o :: rest);
           Ok (match r with Some (sub', d) => Some (<[k := JObj sub']> m, d) | None => None end)
       | Some _ => Err NonObject end) in Hp.
    rewrite Hv in Hp. destruct v; try done. apply IH.
    by destruct (processClaimPath h s m0 (o :: rest)) as [[[]|]|].
Qed.

Lemma processArrayElementPath_absent i path : ∀ m, processArrayElementPath h salt i m path = Ok None → concealed (JObj m) path.
Proof.
  induction path as [|[k|] rest IH]; intros m; [done| |by destruct rest as [|? []]]. rewrite concealed_member.
  destruct rest as [|o [|o' rest]]; [done| |].
  - cbn. destruct (m !! k) as [[]|]; try done. by destruct (disclose_elements h salt i l).
  - intros Hp v Hv. split; [done|]. change (processArrayElementPath h salt i m (Some k :: o :: o' :: rest)) with
      (match m !! k with
       | None => Ok None
       | Some (JObj sub) => r ← processArrayElementPath h salt i sub (o :: o' :: rest);
           Ok (match r with Some (sub', ds) => Some (<[k := JObj sub']> m, ds) | None => None end)
       | Some _ => Err NonObject end) in Hp.
    rewrite Hv in Hp. destruct v; try done. apply IH.
    by destruct (processArrayElementPath h salt i m0 (o :: o' :: rest)) as [[[]|]|].
Qed.

Lemma edited_hidden ks m m' sub sub' path :
  path ≠ [] → edited ks m m' sub sub' → concealed (JObj sub') path → concealed (JObj m') (map Some ks ++ path)%list.
Proof.
  intros Hp He Hh. induction He as [|k ks m x x' sub sub' Hm He IH]; [done|]. cbn [map app]. apply concealed_member.
  intros v. rewrite lookup_insert_eq. intros [= <-]. split; [by destruct ks|]. by apply IH.
Qed.

Lemma process_claim_hidden c data made data' made' :
  SD c = "always" → Path c ≠ [] → claim_path (Path c) →
  process_claim h salt c data made = Ok (data', made') → concealed (JObj data') (Path c).
Proof.
  intros Hsd Hne Hu. unfold process_claim. rewrite Hsd, (bool_decide_eq_true_2 (_ = "always")), (bool_decide_eq_false_2 (_ = [])) by done.
  cbn [negb orb]. destruct (is_array_path (Path c)) eqn:Ha.
  - destruct (processArrayElementPath h salt _ _ _) as [[[data1 ds]|]|] eqn:E; cbn; try done; intros [= <- <-];
      [|by eapply processArrayElementPath_absent].
    destruct (processArrayElementPath_hides _ _ _ _ _ _ _ E) as (ks & name & x & sub & l & Ep & Hl & He & _).
    rewrite Ep in Ha |- *. eapply edited_hidden; [done..|]. apply concealed_member. intros v.
    rewrite lookup_insert_eq. intros [= <-]. split; [done|].
    assert (x = None) as ->. { unfold is_array_path in Ha. rewrite last_app in Ha. cbn in Ha. by destruct x. }
    apply concealed_markers, markers_elem.
  - destruct (processClaimPath h _ _ _) as [[[data1 d]|]|] eqn:E; cbn; try done;
      [|intros [= <- <-]; by eapply processClaimPath_absent].
    destruct (processClaimPath_hides _ _ _ _ _ _ E) as (ks & name & sub & v & Ep & _ & _ & He & _).
    assert (concealed (JObj data1) (Path c)) as Hh.
    { rewrite Ep. eapply edited_hidden; [done..|]. apply concealed_member. intros w. by rewrite lookup_delete_eq. }
    destruct (str_empty _); [by intros [= <- <-]|]. destruct (addHashToPath _ _ _) as [data2|] eqn:Ea; cbn; [|done].
    intros [= <- <-]. rewrite Ep, removelast_last in Ea. destruct (addHashToPath_adds _ _ _ _ Ea) as (sub2 & l & _ & He2).
    revert Hu Hh. apply (edited_shrinks _ _ _ _ _ He2), sd_shrinks.
Qed.

Lemma decoys_shrink count path v : shrinks v (add_decoys h decoy count v path).
Proof.
  intros p. revert v path. induction p as [|[k|] p IH]; intros v path Hu; [by intros ?%concealed_nil|..].
  - destruct v; try done. destruct Hu as [Hk Hu]. cbn [add_decoys]. rewrite !concealed_member.
    intros Hh w. rewrite decoys_lookup by done. intros (v & Hv & ->)%fmap_Some.
    destruct (Hh v Hv) as [Hp Hv2]. split; [done|]. by apply IH.
  - by destruct v.
Qed.

Lemma shuffle_marker_of digest : shuffleSDArrays mixed (marker_of digest) = marker_of digest.
Proof. done. Qed.

Lemma shuffle_shrinks v : shrinks v (shuffleSDArrays mixed v).
Proof.
  intros p. revert v. induction p as [|[k|] p IH]; intros v Hu; [by intros ?%concealed_nil|..].
  - destruct v; try done. destruct Hu as [Hk Hu]. cbn [shuffleSDArrays].
    rewrite !concealed_member. intros Hh w. rewrite shuffle_lookup by done. intros (v & Hv & ->)%fmap_Some.
    destruct (Hh v Hv) as [Hp Hv2]. split; [done|]. by apply IH.
  - destruct v; try done. destruct Hu as [_ Hu]. cbn [shuffleSDArrays].
    destruct p as [|o p].
    + rewrite !concealed_markers. intros Hl e (e' & -> & He)%list_elem_of_fmap. destruct (Hl e' He) as [digest ->].
      exists digest. apply shuffle_marker_of.
    + rewrite !concealed_elements by done. intros Hl e (e' & -> & He)%list_elem_of_fmap.
      destruct e'; try by apply Hl. apply IH; [done|]. by apply Hl.
Qed.

End credential.
