(* ===== verification/SdJwtBuild.v ===== *)
(** * Building a credential

    [pkg/sdjwtvc]: the validation of a document against the type metadata
    ([validation.go], the paths of [vctm_methods.go]), [SignWithSigner]
    ([jwt.go]) and [BuildCredentialWithSigner] ([methods.go]).

    The random identifier and the clock are arguments, and so is the decoding
    of the type metadata into its struct.  [null] for a document leaves a nil
    map, and the first claim added to it panics. *)

From S2P Require Import Prelude GoStrings Base64 GoValue Utf8 Json Jwt SdJwt SdJwtVerify SdJwtIssue.

(** ** Paths *)

Definition JSONPath (path : list (option string)) : string :=
  foldl (fun acc p => acc +:+ match p with Some k => "." +:+ k | None => "[*]" end) "$" path.

(** [lookupPath]: a null selects every element, in each of which the rest must
    resolve, and not to null *)
Fixpoint lookupPath (current : json) (path : list (option string)) : option json :=
  match path with
  | [] => Some current
  | None :: rest =>
      match current with
      | JArr l =>
          match rest with
          | [] => Some (JArr l)
          | _ => JArr <$> mapM (fun item => match lookupPath item rest with Some JNull => None | v => v end) l
          end
      | _ => None
      end
  | Some key :: rest => match current with JObj m => v ← m !! key; lookupPath v rest | _ => None end
  end.

Definition getClaimValue (claims : jobject) (path : list (option string)) : option json :=
  match path with [] => None | _ => lookupPath (JObj claims) path end.

(** ** Validation *)

Inductive violation := MandatoryMissing | NilMandatory | NotDefined.

Inductive validation_error :=
| InvalidDocument | NilClaims
| Violations (errors : list (string * violation)).

Definition isIssuerSuppliedClaim (path : list (option string)) : bool :=
  match path with
  | [Some k] => bool_decide (k ∈ ["iss"; "nbf"; "exp"; "cnf"; "vct"; "status"; "iat"])
  | _ => false
  end.

Definition validateClaimValue (c : VctmClaim) (v : json) : option violation :=
  match v with JNull => if Mandatory c then Some NilMandatory else None | _ => None end.

Definition missing_claims (claims : jobject) (skip : bool) (cs : list VctmClaim) : list (string * violation) :=
  omap (fun c =>
    if negb (Mandatory c) || (skip && isIssuerSuppliedClaim (Path c)) then None else
    match getClaimValue claims (Path c) with
    | Some _ => None
    | None => Some (JSONPath (Path c), MandatoryMissing)
    end) cs.

Definition bad_values (claims : jobject) (cs : list VctmClaim) : list (string * violation) :=
  omap (fun c => v ← getClaimValue claims (Path c); e ← validateClaimValue c v; Some (JSONPath (Path c), e)) cs.

(** [claims] is [None] for a nil map. *)
Definition validateClaims (claims : option jobject) (vctm : VCTM) (skipIssuerSupplied : bool) :
    result validation_error unit :=
  match claims with
  | None => Err NilClaims
  | Some claims =>
      match (missing_claims claims skipIssuerSupplied (vctm_Claims vctm) ++ bad_values claims (vctm_Claims vctm))%list with
      | [] => Ok tt
      | errors => Err (Violations errors)
      end
  end.

Definition ValidateClaims (claims : option jobject) (vctm : VCTM) := validateClaims claims vctm false.

Definition isStandardClaim (claim : string) : bool :=
  bool_decide (claim ∈ ["iss"; "sub"; "aud"; "exp"; "nbf"; "iat"; "jti"; "vct"; "cnf"; "_sd"; "_sd_alg"; "..."]).

(** The errors about members come in the order of the map here; in Go, in any. *)
Definition ValidateClaimPaths (claims : option jobject) (vctm : VCTM) (strict : bool) : result validation_error unit :=
  if negb strict then validateClaims claims vctm true else
  let allowed := omap (fun c => match Path c with Some k :: _ => Some k | _ => None end) (vctm_Claims vctm) in
  let extra := omap (fun '(k, _) => if isStandardClaim k || bool_decide (k ∈ allowed) then None else Some (k, NotDefined))
                 (map_to_list (default ∅ claims)) in
  match validateClaims claims vctm true with
  | Ok _ => match extra with [] => Ok tt | errors => Err (Violations errors) end
  | Err (Violations errors) => Err (Violations (errors ++ extra)%list)
  | Err e => Err e
  end.

Lemma omap_nil {A B} (f : A → option B) l : omap f l = [] ↔ ∀ x, x ∈ l → f x = None.
Proof.
  induction l as [|x l IH]; cbn; [split; [by intros _ x ?%elem_of_nil|done]|]. destruct (f x) as [y|] eqn:E.
  - split; [done|]. intros H. specialize (H x (list_elem_of_here _ _)). congruence.
  - rewrite IH. split; [|set_solver]. intros H y [->|Hy]%elem_of_cons; auto.
Qed.

(** Validation accepts a claims set exactly when every claim the metadata
    marks mandatory is there, resolved through every array element on its path
    where the path has a null, and is not null; with [skipIssuerSupplied] the
    seven envelope claims may be missing, but not be null. *)
Theorem validateClaims_spec claims vctm skip :
  validateClaims (Some claims) vctm skip = Ok tt ↔
  ∀ c, c ∈ vctm_Claims vctm → Mandatory c = true →
    match getClaimValue claims (Path c) with
    | None => skip && isIssuerSuppliedClaim (Path c) = true
    | Some v => v ≠ JNull
    end.
Proof.
  unfold validateClaims.
  transitivity (missing_claims claims skip (vctm_Claims vctm) = [] ∧ bad_values claims (vctm_Claims vctm) = []).
  { destruct (missing_claims _ _ _), (bad_values _ _); cbn; naive_solver. }
  unfold missing_claims, bad_values. rewrite !omap_nil. split.
  - intros [Hm Hb] c Hc Hman. specialize (Hm c Hc). specialize (Hb c Hc). rewrite Hman in Hm. cbn [negb orb] in Hm.
    destruct (getClaimValue claims (Path c)) as [v|]; [|by destruct (skip && _)].
    intros ->. cbn in Hb. by rewrite Hman in Hb.
  - intros H. split; intros c Hc; specialize (H c Hc).
    + destruct (Mandatory c); [|done]. specialize (H eq_refl). cbn [negb orb].
      destruct (getClaimValue claims (Path c)); [by destruct (skip && _)|]. by rewrite H.
    + destruct (getClaimValue claims (Path c)) as [v|]; [|done]. cbn. destruct v; try done. cbn.
      destruct (Mandatory c); [|done]. by specialize (H eq_refl).
Qed.

Section build.
Context `{JSON} `{Hashes}.

(** [json.Unmarshal] into a map: null makes it nil. *)
Definition UnmarshalNilMap (s : string) : option (option jobject) :=
  match Unmarshal s with
  | Some (JObj m) => Some (Some m)
  | Some JNull => Some None
  | _ => None
  end.

Definition ValidateDocument (documentData : string) (vctm : VCTM) : result validation_error unit :=
  match UnmarshalNilMap documentData with
  | None => Err InvalidDocument
  | Some claims => validateClaims claims vctm true
  end.

(** ** Signing *)

(** [Signer], with the optional certificate chain *)
Record Signer := mkSigner {
  Algorithm : string;
  KeyID : string;
  GetCertificateChain : list string;
  signer_Sign : string → option string
}.

Definition SignWithSigner (header body : jobject) (signer : Signer) : option string :=
  let header := <["kid" := JStr (KeyID signer)]> (<["alg" := JStr (Algorithm signer)]> header) in
  let header := match GetCertificateChain signer with
                | [] => header
                | chain => <["x5c" := JArr (map JStr chain)]> header
                end in
  text ← SigningString header body;
  sig ← signer_Sign signer text;
  Some (text +:+ "." +:+ b64 sig).

(** ** Building *)

Record CredentialOptions := mkCredentialOptions {
  DecoyDigests : Z;
  ExpirationDays : Z;
  StatusReference : option (Z * string);   (* TokenStatusList: index and URI *)
  Integrity : string
}.

Inductive build_error :=
| BadDocument | PanicNilMap | BadVCTM | EmptyVCT
| DocumentInvalid (e : validation_error) | DisclosureFailed (e : issue_error) | SignFailed.

Variable UnmarshalVCTM : string → option VCTM.

Definition parseVCTM (raw : string) : result build_error VCTM :=
  match UnmarshalVCTM raw with
  | None => Err BadVCTM
  | Some vctm => if str_empty (vctm_VCT vctm) then Err EmptyVCT else Ok vctm
  end.

(** A missing option struct, and zero days, mean a year without decoys. *)
Definition with_defaults (opts : option CredentialOptions) : CredentialOptions :=
  match opts with
  | None => mkCredentialOptions 0 365 None ""
  | Some o =>
      if bool_decide (ExpirationDays o = 0)
      then mkCredentialOptions (DecoyDigests o) 365 (StatusReference o) (Integrity o) else o
  end.

Definition hour : Z := 3600 * second.

Definition when (b : bool) (k : string) (v : json) (m : jobject) : jobject := if b then <[k := v]> m else m.

(** The claims before selective disclosure.  The holder's key is a JSON tree; the
    source takes any value that encodes to one. *)
Definition credential_body (doc : jobject) (issuer jti : string) (holderJWK : json) (vct : string)
    (opts : CredentialOptions) (now : Z) : jobject :=
  let body := <["iat" := JInt (now / second)]> doc in
  let body := <["nbf" := JInt (now / second)]> body in
  let body := <["exp" := JInt ((now + wrap64 (wrap64 (ExpirationDays opts * 24) * hour)) / second)]> body in
  let body := when (negb (str_empty issuer)) "iss" (JStr issuer) body in
  let body := <["jti" := JStr jti]> body in
  let body := <["vct" := JStr vct]> body in
  let body := when (negb (str_empty (Integrity opts))) "vct#integrity" (JStr (Integrity opts)) body in
  let body := <["cnf" := JObj {["jwk" := holderJWK]}]> body in
  match StatusReference opts with
  | Some (idx, uri) =>
      when (negb (str_empty uri)) "status"
        (JObj {["status_list" := JObj (<["idx" := JInt idx]> {["uri" := JStr uri]})]}) body
  | None => body
  end.

Variables (salt : nat → string) (decoy : list string → nat → string) (mixed : list json → list json).

(** The signed token, its claims and the disclosures *)
Definition build_credential (issuer jti : string) (signer : Signer) (vctmRaw documentData : string)
    (holderJWK : json) (opts : option CredentialOptions) (now : Z) : result build_error (string * jobject * list Disclosure) :=
  let opts := with_defaults opts in
  match UnmarshalNilMap documentData with
  | None => Err BadDocument
  | Some None => Err PanicNilMap
  | Some (Some doc) =>
      vctm ← parseVCTM vctmRaw;
      let body := credential_body doc issuer jti holderJWK (vctm_VCT vctm) opts now in
      _ ← map_err DocumentInvalid (ValidateDocument documentData vctm);
      let header : jobject := <["typ" := JStr "dc+sd-jwt"]> (<["kid" := JStr (KeyID signer)]> {["alg" := JStr (Algorithm signer)]}) in
      '(token, made) ← map_err DisclosureFailed
        (make_credential (hash_sum "sha-256") salt decoy mixed "sha-256" body vctm (DecoyDigests opts));
      match token with
      | JObj token =>
          match SignWithSigner header token signer with
          | None => Err SignFailed
          | Some signed => Ok (signed, token, made)
          end
      | _ => Err SignFailed
      end
  end.

Definition BuildCredentialWithSigner (issuer jti : string) (signer : Signer) (vctmRaw documentData : string)
    (holderJWK : json) (opts : option CredentialOptions) (now : Z) : result build_error string :=
  '(signed, _, made) ← build_credential issuer jti signer vctmRaw documentData holderJWK opts now;
  Ok (Combine signed (map Raw made) "").
End build.
