(* ===== verification/SdJwtEndToEnd.v ===== *)
(** * From the issuer to the verifier

    A credential [BuildCredentialWithSigner] makes, presented with any part of
    its disclosures, is accepted by [ParseAndVerify] under the issuer's key and
    shows part of the claims it was built from.  The signed tree and the
    disclosures cross as JSON text, where integers become floats: the claims at
    the verifier are [decoded] claims. *)

From Stdlib Require Import SpecFloat.
From S2P Require Import Prelude GoStrings Base64 GoValue Utf8 Json Jwt SdJwt SdJwtVerify SdJwtIssue SdJwtTree SdJwtRoundTrip SdJwtBuild.

(** ** Through JSON text *)

Definition decoded_disclosure (d : Disclosure) : Disclosure :=
  mkDisclosure (Salt d) (Claim d) (decoded (Value d)) (Raw d) (Hash d).

Lemma decoded_marker e : marker (decoded e) = marker e.
Proof.
  destruct e as [| | | | | |m]; try done. cbn. rewrite map_size_fmap. case_bool_decide; [|done].
  rewrite lookup_fmap. by destruct (m !! "...") as [[]|].
Qed.

Lemma decoded_digests m : sd_digests (decoded <$> m) = sd_digests m.
Proof.
  unfold sd_digests. rewrite lookup_fmap. destruct (m !! "_sd") as [[| | | | |l|]|]; try done. cbn.
  induction l as [|e l IH]; [done|]. destruct e; cbn; try done. by rewrite IH.
Qed.

Lemma disclosure_map_decoded ds : disclosure_map (map decoded_disclosure ds) = decoded_disclosure <$> disclosure_map ds.
Proof.
  induction ds as [|d ds IH] using rev_ind; [done|].
  rewrite map_app. cbn [map]. rewrite !disclosure_map_snoc, IH. by rewrite fmap_insert.
Qed.

Lemma decoded_claims dm m :
  sd_claims Value named (decoded_disclosure <$> dm) (decoded <$> m) = prod_map id decoded <$> sd_claims Value named dm m.
Proof.
  unfold sd_claims. rewrite decoded_digests. induction (sd_digests m) as [|x hs IH]; [done|]. cbn.
  assert (sd_claim Value named (decoded_disclosure <$> dm) x = prod_map id decoded <$> sd_claim Value named dm x) as ->.
  { unfold sd_claim. rewrite lookup_fmap. destruct (dm !! x) as [d|]; [|done]. cbn. unfold named. cbn.
    by destruct (str_empty (Claim d)). }
  rewrite IH. by destruct (sd_claim Value named dm x).
Qed.

Lemma decoded_names {A} (f : A → A) (l : list (string * A)) : (prod_map id f <$> l).*1 = l.*1.
Proof. induction l as [|[] l IH]; [done|]. cbn. by f_equal. Qed.

Lemma decoded_members dm m :
  members Value named (decoded_disclosure <$> dm) (decoded <$> m) = decoded <$> members Value named dm m.
Proof.
  unfold members. rewrite decoded_claims, map_fmap_union. f_equal.
  - by rewrite list_to_map_fmap.
  - unfold strip. by rewrite !fmap_delete.
Qed.

Lemma committed_decoded dm n v u :
  Committed dm n v u → Committed (decoded_disclosure <$> dm) n (decoded v) (decoded u).
Proof.
  revert v u. induction n as [|n IH]; [done|]. intros v u Hc. cbn in Hc.
  destruct v as [| | | | |l|m]; try (destruct u; destruct Hc as [_ [=]]; by subst).
  - destruct u as [| | | | |us|]; try (by destruct Hc). cbn.
    apply (Forall2_fmap_l decoded), (Forall2_fmap_r decoded). eapply Forall2_impl; [exact Hc|]. cbn. intros e u He.
    assert (element Value (fun _ => true) (decoded_disclosure <$> dm) (decoded e) = decoded (element Value (fun _ => true) dm e)) as ->.
    { unfold element, hidden. rewrite decoded_marker. destruct (marker e) as [x|]; [|done]. cbn. rewrite lookup_fmap.
      by destruct (dm !! x). }
    by apply IH.
  - destruct u as [| | | | | |us]; try (by destruct Hc). destruct Hc as [[Hn Hf] Hc]. cbn. split.
    + unfold proper_names. rewrite decoded_claims, decoded_names. split; [done|].
      eapply Forall_impl; [exact Hf|]. cbn. intros k (Hk & Hk'). split; [|done]. unfold strip in *. rewrite <- !fmap_delete, lookup_fmap.
      by rewrite Hk.
    + rewrite decoded_members. intros k. rewrite !lookup_fmap. specialize (Hc k).
      destruct (members Value named dm m !! k), (us !! k); inversion Hc; subst; constructor. by apply IH.
Qed.

(** The digests of the decoded tree *)
Lemma decoded_hashes v : collectHashes (decoded v) = collectHashes v.
Proof.
  induction v as [| | | | |l IH|m IH] using json_nested_ind; try done; apply set_eq; intros x.
  - change (decoded (JArr l)) with (JArr (map decoded l)). rewrite !collectHashes_arr. split.
    + intros (e & (e' & -> & He)%list_elem_of_fmap & Hx). exists e'. rewrite decoded_marker, (IH e' He) in Hx. done.
    + intros (e & He & Hx). exists (decoded e). rewrite decoded_marker, (IH e He). split; [|done]. apply list_elem_of_fmap. eauto.
  - change (decoded (JObj m)) with (JObj (decoded <$> m)). rewrite !collectHashes_obj, decoded_digests. f_equiv. split.
    + intros (k & v & Hk & Hv & Hx). rewrite lookup_fmap in Hv. destruct (m !! k) as [w|] eqn:E; [|done]. injection Hv as <-.
      exists k, w. by rewrite (IH k w E) in Hx.
    + intros (k & v & Hk & Hv & Hx). exists k, (decoded v). rewrite lookup_fmap, Hv, (IH k v Hv). done.
Qed.

(** ** Trees that can be written *)

Lemma plain_obj_inv (m : jobject) k v : plain (JObj m) = true → m !! k = Some v → utf8_valid k = true ∧ plain v = true.
Proof.
  intros [Hk Hv]%andb_true_iff Hl. rewrite forallb_elem in Hk. rewrite forallb_members in Hv. split; [|by eapply Hv].
  apply Hk. apply list_elem_of_fmap. exists (k, v). split; [done|]. by apply elem_of_map_to_list.
Qed.

Lemma plain_insert (m : jobject) k v : plain (JObj m) = true → utf8_valid k = true → plain v = true → plain (JObj (<[k := v]> m)) = true.
Proof.
  intros Hm Hk Hv. apply plain_obj. intros k' v' [[<- <-]|[_ Hl]]%lookup_insert_Some; [done|]. by eapply plain_obj_inv.
Qed.

Lemma plain_delete (m : jobject) k : plain (JObj m) = true → plain (JObj (delete k m)) = true.
Proof. intros Hm. apply plain_obj. intros k' v' [_ Hl]%lookup_delete_Some. by eapply plain_obj_inv. Qed.

Lemma edited_plain ks m m' sub sub' :
  edited ks m m' sub sub' → plain (JObj m) = true →
  plain (JObj sub) = true ∧ (plain (JObj sub') = true → plain (JObj m') = true).
Proof.
  induction 1 as [|k ks m x x' sub sub' Hm He IH]; [done|]. intros Hp. destruct (plain_obj_inv _ _ _ Hp Hm) as [Hk Hx].
  destruct (IH Hx) as [Hs Hs']. split; [done|]. intros H. apply plain_insert; auto.
Qed.

Lemma hide_plain name l hs (sub : jobject) :
  plain (JObj sub) = true → sd_list sub l → utf8_valid hs = true → plain (JObj (hide name l hs sub)) = true.
Proof.
  intros Hp Hl Hh. apply plain_insert; [by apply plain_delete|done|]. cbn. rewrite forallb_app. cbn. rewrite Hh, andb_true_r.
  destruct Hl as [Hl|[_ ->]]; [|done]. by destruct (plain_obj_inv _ _ _ Hp Hl).
Qed.

Lemma markers_plain ds : (∀ d, d ∈ ds → utf8_valid (Hash d) = true) → plain (JArr (markers ds)) = true.
Proof.
  intros H. apply forallb_elem. intros e (d & -> & Hd)%list_elem_of_fmap. apply plain_obj.
  intros k v [<- <-]%lookup_singleton_Some. split; [done|]. by apply H.
Qed.

(** ** Disclosures that can be read *)

Section honest.
Context `{JSON} `{Hashes} `{!JSONLaws} (h : string → string) (salt : nat → string).

Definition readable (d : Disclosure) : Prop :=
  parseDisclosure h (Raw d) = Ok (decoded_disclosure d) ∧ has_byte "~" (Raw d) = false ∧ str_empty (Raw d) = false ∧
  utf8_valid (Hash d) = true.

Lemma made_readable s name v (array : bool) d :
  make_disclosure h (b64 s) name v array = Some d → utf8_valid name = true → plain v = true → (array = true → name = "") → readable d.
Proof.
  intros Hd Hn Hv Ha. pose proof (made_nonempty _ _ _ _ _ _ Hd) as Hne.
  destruct (make_disclosure_Some _ _ _ _ _ _ Hd) as (Es & Ec & Ev & Eh & text & Et & Er).
  unfold readable. rewrite Eh, Er. split_and!; [| by apply b64_no_sep|by rewrite <- Er|by apply b64_utf8].
  assert (plain (JArr (if array then [JStr (b64 s); v] else [JStr (b64 s); JStr name; v])) = true) as Hp.
  { pose proof (b64_utf8 s) as Hb. destruct array; cbn [plain forallb]; by rewrite Hb, ?Hn, Hv. }
  destruct (Unmarshal_Marshal _ Hp) as (text' & Et' & Eu). rewrite Et in Et'. injection Et' as <-.
  unfold parseDisclosure, UnmarshalArray. rewrite unb64_b64, Eu. unfold decoded_disclosure. rewrite Es, Ec, Ev, Eh, Er.
  destruct array; [by rewrite Ha by done|done].
Qed.

Lemma elements_readable i l ds :
  disclose_elements h salt i l = Some ds → plain (JArr l) = true → ∀ d, d ∈ ds → readable d.
Proof.
  revert i ds. induction l as [|e l IH]; intros i ds; cbn; [by intros [= <-] _ d ?%elem_of_nil|].
  destruct (make_disclosure h _ "" e true) as [d|] eqn:Ed; [|done]. cbn.
  destruct (disclose_elements h salt (S i) l) as [ds'|] eqn:Es; [|done]. intros [= <-] [He Hl]%andb_true_iff d' [->|Hd']%elem_of_cons.
  - by eapply made_readable.
  - by eapply IH.
Qed.

(** ** Disclosures the issuer vouches for *)

Lemma edited_new_hashes ks m m' sub sub' :
  Forall plain_key ks → edited ks m m' sub sub' → collectHashes (JObj sub') ⊆ collectHashes (JObj m').
Proof.
  intros Hk He. induction He as [|k ks m x x' sub sub' Hm He IH]; [done|]. apply Forall_cons in Hk as [[Hk _] Hks].
  intros y Hy. apply collectHashes_obj. right. exists k, (JObj x'). rewrite lookup_insert_eq. split_and!; [done..|by apply IH].
Qed.

Lemma edited_kept_hashes ks m m' sub sub' x :
  Forall plain_key ks → edited ks m m' sub sub' → x ∈ collectHashes (JObj m) → x ∈ collectHashes (JObj m') ∨ x ∈ collectHashes (JObj sub).
Proof.
  intros Hk He. induction He as [|k ks m y y' sub sub' Hm He IH]; [by right|]. apply Forall_cons in Hk as [[Hk _] Hks].
  specialize (IH Hks). intros [Hx|(j & v & Hj & Hv & Hx)]%collectHashes_obj.
  - left. apply collectHashes_obj. left. by rewrite digests_insert.
  - destruct (decide (k = j)) as [<-|Hne].
    + rewrite Hm in Hv. injection Hv as <-. destruct (IH Hx) as [Hx'|Hx']; [left|by right].
      apply collectHashes_obj. right. exists k, (JObj y'). by rewrite lookup_insert_eq.
    + left. apply collectHashes_obj. right. exists j, v. by rewrite lookup_insert_ne.
Qed.

(** What a rewrite takes away stands behind the digests it puts in. *)
Lemma vouched_edit made ds data data' ks sub sub' x :
  NoDup (map Hash (made ++ ds)) → Forall plain_key ks → edited ks data data' sub sub' →
  (∀ d, d ∈ ds → Hash d ∈ collectHashes (JObj sub')) →
  (∀ y, y ∈ collectHashes (JObj sub) → y ∈ collectHashes (JObj sub') ∨ ∃ d, d ∈ ds ∧ y ∈ collectHashes (Value d)) →
  vouched (JObj data) (disclosure_map made) x → vouched (JObj data') (disclosure_map (made ++ ds)%list) x.
Proof.
  intros Hn Hk He Hds Hsub.
  assert (∀ d, d ∈ ds → vouched (JObj data') (disclosure_map (made ++ ds)%list) (Hash d)) as Hnew.
  { intros d Hd. apply vouched_direct. eapply edited_new_hashes; [done..|]. by apply Hds. }
  induction 1 as [x Hx|x d y _ IH Hd Hy].
  - destruct (edited_kept_hashes _ _ _ _ _ _ Hk He Hx) as [Hx'|Hx']; [by apply vouched_direct|].
    destruct (Hsub x Hx') as [Hy|(d & Hd & Hy)]; [apply vouched_direct; by eapply edited_new_hashes|].
    eapply (vouched_via _ _ (Hash d)); [by apply Hnew|apply disclosure_map_lookup; [done|]|done]. apply elem_of_app. by right.
  - eapply vouched_via; [exact IH| |exact Hy]. rewrite (disclosure_map_app made ds) by (done || apply elem_of_dom; by eexists). done.
Qed.

Record honest (data : jobject) (made : list Disclosure) : Prop := {
  honest_plain : plain (JObj data) = true;
  honest_made : ∀ d, d ∈ made → readable d;
  honest_vouched : ∀ d, d ∈ made → vouched (JObj data) (disclosure_map made) (Hash d)
}.

Lemma honest_edit data data' made ds ks sub sub' :
  honest data made → NoDup (map Hash (made ++ ds)) → Forall plain_key ks → edited ks data data' sub sub' →
  plain (JObj sub') = true → (∀ d, d ∈ ds → readable d) →
  (∀ d, d ∈ ds → Hash d ∈ collectHashes (JObj sub')) →
  (∀ y, y ∈ collectHashes (JObj sub) → y ∈ collectHashes (JObj sub') ∨ ∃ d, d ∈ ds ∧ y ∈ collectHashes (Value d)) →
  honest data' (made ++ ds)%list.
Proof.
  intros [Hp Hm Hv] Hn Hk He Hp' Hr Hds Hsub. split.
  - by eapply edited_plain.
  - intros d [Hd|Hd]%elem_of_app; auto.
  - intros d [Hd|Hd]%elem_of_app; [by eapply vouched_edit, Hv|].
    apply vouched_direct. eapply edited_new_hashes; [done..|]. by apply Hds.
Qed.

Lemma honest_claim c cs n u data made data' made' :
  issuing (c :: cs) n u data made → proper_claims (c :: cs) → NoDup (map Hash made') → honest data made →
  process_claim h salt c data made = Ok (data', made') → honest data' made'.
Proof.
  intros Hi (Hp & _)%proper_claims_cons Hn Hh Hstep%process_claim_step.
  destruct Hstep as [|ks name sub l v d data' _ Epath Hne Hv Hl He Hd|ks name sub l ds data' _ Epath Hl He Hds]; [done|..];
    rewrite Epath in Hp; destruct (proper_keys _ _ Hp) as [Hks Hname];
    destruct (edited_plain _ _ _ _ _ He (honest_plain _ _ Hh)) as [Hsub _].
  - destruct (plain_obj_inv _ _ _ Hsub Hv) as [Hu Hpv]. assert (readable d) as Hr by by eapply made_readable.
    destruct (make_disclosure_Some _ _ _ _ _ _ Hd) as (_ & _ & Ev & _).
    eapply honest_edit; [done..| | | |].
    + by apply hide_plain, Hr.
    + by intros d' ->%list_elem_of_singleton.
    + intros d' ->%list_elem_of_singleton. apply collectHashes_obj. left. rewrite hide_digests by done. set_solver.
    + intros y [Hy|(k & w & Hk & Hw & Hy)]%collectHashes_obj.
      * left. apply collectHashes_obj. left. rewrite hide_digests by done. set_solver.
      * destruct (decide (k = name)) as [->|Hkn].
        -- right. exists d. split; [by apply list_elem_of_here|]. rewrite Ev. congruence.
        -- left. apply collectHashes_obj. right. exists k, w. unfold hide. by rewrite lookup_insert_ne, lookup_delete_ne.
  - destruct (Hname name ltac:(by apply list_elem_of_here)) as [[Hpk _] _].
    destruct (plain_obj_inv _ _ _ Hsub Hl) as [Hu Hpv]. pose proof (elements_readable _ _ _ Hds Hpv) as Hr.
    pose proof (disclose_elements_values _ _ _ _ _ Hds) as Ev.
    assert (∀ d, d ∈ ds → Hash d ∈ collectHashes (JArr (markers ds))) as Hmk.
    { intros d Hd. apply collectHashes_arr. exists (marker_of (Hash d)). rewrite marker_of_marker. split; [|set_solver].
      apply list_elem_of_fmap. eauto. }
    eapply honest_edit; [done..| |done| |].
    + apply plain_insert; [done..|]. apply markers_plain. intros d Hd. by apply Hr.
    + intros d Hd. apply collectHashes_obj. right. exists name, (JArr (markers ds)). by rewrite lookup_insert_eq; auto.
    + intros y [Hy|(k & w & Hk & Hw & Hy)]%collectHashes_obj.
      * left. apply collectHashes_obj. left. by rewrite digests_insert.
      * destruct (decide (k = name)) as [->|Hkn].
        -- right. rewrite Hl in Hw. injection Hw as <-. apply collectHashes_arr in Hy as (e & Hel & Hy).
           rewrite (issuing_unmarked _ _ _ _ _ _ _ _ _ _ _ _ e Hi Epath He Hl Hel) in Hy. rewrite <- Ev in Hel.
           apply list_elem_of_fmap in Hel as (d & -> & Hd). eauto.
        -- left. apply collectHashes_obj. right. exists k, w. by rewrite lookup_insert_ne.
Qed.

Lemma honest_claims cs n u data made data' made' :
  issuing cs n u data made → proper_claims cs → honest data made → NoDup (map Hash made') →
  process_claims h salt cs data made = Ok (data', made') → issuing [] n u data' made' ∧ honest data' made'.
Proof.
  intros Hi Hp Hh Hn Hr. enough ((issuing [] n u data' made' ∧ honest data' made') ∧ proper_claims []) as [? _] by done. revert Hn Hr.
  apply (process_claims_ind h salt (fun cs data made => (issuing cs n u data made ∧ honest data made) ∧ proper_claims cs)); [|done].
  clear cs data made data' made' Hi Hp Hh. intros c cs data made data' made' [[Hi Hh] Hp] Hn E.
  split_and!; [by eapply issuing_claim|by eapply honest_claim|]. by apply proper_claims_cons in Hp as (_ & _ & ?).
Qed.
End honest.

(** ** Decoys and order *)

Lemma vouched_mono c c' dm x : collectHashes c ⊆ collectHashes c' → vouched c dm x → vouched c' dm x.
Proof. intros Hc. induction 1 as [x Hx|x d y _ IH Hd Hy]; [apply vouched_direct; by apply Hc|by eapply vouched_via]. Qed.

Section decoys.
Context (h : string → string) (decoy : list string → nat → string) (count : nat).
Abbreviation add := (add_decoys h decoy count).

Lemma add_decoys_hashes v path : collectHashes v ⊆ collectHashes (add v path).
Proof.
  revert path. induction v as [| | | | |l _|m IH] using json_nested_ind; intros path x Hx; try done.
  cbn -[append_decoys]. apply collectHashes_obj. apply collectHashes_obj in Hx as [Hx|(k & v & Hk & Hv & Hx)].
  - left. destruct (decoys_digests h decoy count m path) as (hs' & _ & ->). apply elem_of_app. by left.
  - right. exists k, (add v (path ++ [k])%list). rewrite decoys_lookup, Hv by done. split_and!; [done..|]. by eapply IH.
Qed.

Lemma decoys_plain path : forallb plain (map JStr (decoys h decoy count path)) = true.
Proof.
  apply forallb_elem. intros e (s & -> & (i & -> & _)%list_elem_of_fmap)%list_elem_of_fmap. apply b64_utf8.
Qed.

Lemma add_decoys_plain v path : plain v = true → plain (add v path) = true.
Proof.
  revert path. induction v as [| | | | |l _|m IH] using json_nested_ind; intros path Hp; try done. cbn -[append_decoys plain].
  assert (plain (JObj (map_imap (fun k f => Some (f (path ++ [k])%list)) (add <$> m))) = true) as Hm.
  { apply plain_obj. intros k v Hv. rewrite map_lookup_imap, lookup_fmap in Hv. destruct (m !! k) as [w|] eqn:E; [|done].
    injection Hv as <-. destruct (plain_obj_inv _ _ _ Hp E) as [? ?]. split; [done|]. by eapply IH. }
  unfold append_decoys. destruct (map_imap _ _ !! "_sd") as [[| | | | |l|]|] eqn:E; try done.
  apply plain_insert; [done..|]. cbn. rewrite forallb_app. apply andb_true_iff. split; [|apply decoys_plain].
  by destruct (plain_obj_inv _ _ _ Hm E).
Qed.
End decoys.

Section shuffle.
Context (mixed : list json → list json) (Hmixed : ∀ l, mixed l ≡ₚ l).
Abbreviation shuffle := (shuffleSDArrays mixed).

Lemma shuffle_hashes v : collectHashes v ⊆ collectHashes (shuffle v).
Proof.
  induction v as [| | | | |l IH|m IH] using json_nested_ind; intros x Hx; try done.
  - change (shuffle (JArr l)) with (JArr (map (fun e => match e with JObj _ => shuffle e | _ => e end) l)).
    apply collectHashes_arr in Hx as (e & He & Hx). apply collectHashes_arr.
    exists (match e with JObj _ => shuffle e | _ => e end). split; [apply list_elem_of_fmap; eauto|].
    destruct e as [| | | | | |m]; try done. destruct (marker (JObj m)) as [y|] eqn:E; rewrite shuffle_marker, E; [done|]. by apply (IH _ He).
  - change (shuffle (JObj m)) with (JObj (sort_sd mixed (shuffle <$> m))).
    apply collectHashes_obj. apply collectHashes_obj in Hx as [Hx|(k & v & Hk & Hv & Hx)].
    + left. by rewrite (shuffle_digests mixed Hmixed).
    + right. exists k, (shuffle v). rewrite shuffle_lookup, Hv by done. split_and!; [done..|]. by apply (IH k).
Qed.

Lemma sortSDArray_plain l : forallb plain l = true → forallb plain (sortSDArray mixed l) = true.
Proof.
  rewrite !forallb_elem. intros Hl e. unfold sortSDArray. destruct (forallb _ l); [|rewrite Hmixed; apply Hl].
  intros (s & -> & Hs)%list_elem_of_fmap. rewrite sort_strs_perm in Hs. apply list_elem_of_omap in Hs as (e & He & Hs).
  destruct e; try done. injection Hs as ->. by apply (Hl (JStr s)).
Qed.

Lemma shuffle_plain v : plain v = true → plain (shuffle v) = true.
Proof.
  induction v as [| | | | |l IH|m IH] using json_nested_ind; intros Hp; try done.
  - cbn in Hp |- *. rewrite forallb_elem in Hp |- *. intros e (e' & -> & He)%list_elem_of_fmap.
    destruct e'; try (by apply Hp). apply IH; auto.
  - change (plain (JObj (sort_sd mixed (shuffle <$> m))) = true).
    assert (plain (JObj (shuffle <$> m)) = true) as Hm.
    { apply plain_obj. intros k v Hv. rewrite lookup_fmap in Hv. destruct (m !! k) as [w|] eqn:E; [|done]. injection Hv as <-.
      destruct (plain_obj_inv _ _ _ Hp E). split; [done|]. by eapply IH. }
    unfold sort_sd. destruct ((shuffle <$> m) !! "_sd") as [[| | | | |l|]|] eqn:E; try done.
    apply plain_insert; [done..|]. apply sortSDArray_plain. by destruct (plain_obj_inv _ _ _ Hm E).
Qed.
End shuffle.

(** ** Top-level values *)

Section issued.
Context `{JSON} `{Hashes} `{!JSONLaws} (salt : nat → string).
Context (decoy : list string → nat → string) (mixed : list json → list json) (Hmixed : ∀ l, mixed l ≡ₚ l).
Variable h : string → string.

(** A top-level scalar stays, or is hidden by a claim of its own. *)
Definition kept (cs : list VctmClaim) (m m' : jobject) : Prop :=
  ∀ name v, name ≠ "_sd" → m !! name = Some v → scalar v = true →
    m' !! name = Some v ∨ m' !! name = None ∧ ∃ c, c ∈ cs ∧ SD c = "always" ∧ Path c = [Some name].

Lemma process_claim_kept c data made data' made' :
  process_claim h salt c data made = Ok (data', made') → kept [c] data data'.
Proof.
  intros Hstep%process_claim_step name v Hn Hv Hs.
  destruct Hstep as [|ks k sub l w d data' Hsd Epath _ Hw _ He _|ks k sub l ds data' _ _ Hl He _]; [by left| |];
    inversion He as [? ?|j js m x x' ? ? Hj Hx]; subst.
  - unfold hide. rewrite lookup_insert_ne by done. destruct (decide (k = name)) as [->|Hne]; [right|left; by rewrite lookup_delete_ne].
    rewrite lookup_delete_eq. split; [done|]. exists c. split; [by apply list_elem_of_here|done].
  - left. rewrite lookup_insert_ne; [done|]. intros ->. rewrite Hv in Hj. injection Hj as ->. done.
  - left. rewrite lookup_insert_ne; [done|]. intros ->. rewrite Hv in Hl. injection Hl as ->. done.
  - left. rewrite lookup_insert_ne; [done|]. intros ->. rewrite Hv in Hj. injection Hj as ->. done.
Qed.

Lemma process_claims_kept cs data made data' made' :
  process_claims h salt cs data made = Ok (data', made') → kept cs data data'.
Proof.
  revert data made. induction cs as [|c cs IH]; intros data made; cbn; [intros [= <- <-]; by left|].
  destruct (process_claim h salt c data made) as [[data1 made1]|] eqn:E; [|done]. cbn. intros Hr name v Hn Hv Hs.
  destruct (process_claim_kept _ _ _ _ _ E name v Hn Hv Hs) as [Hv1|(Hnone & c' & ->%list_elem_of_singleton & Hc')].
  - destruct (IH _ _ Hr name v Hn Hv1 Hs) as [?|(? & c' & Hin & ?)]; [by left|right]. split; [done|]. exists c'. set_solver.
  - right. split; [|exists c; set_solver].
    assert (concealed (JObj data') [Some name]) as Hc.
    { apply (process_claims_shrinks h salt _ _ _ _ _ Hr); [done|]. apply concealed_member. by rewrite Hnone. }
    rewrite concealed_member in Hc. destruct (data' !! name) as [w|]; [|done]. by destruct (Hc w eq_refl).
Qed.

(** What the signed tree of a proper credential is like *)
Record signed_tree (count : Z) (data : jobject) (cs : list VctmClaim) (tree : jobject) (made : list Disclosure) : Prop := {
  st_committed : Committed (disclosure_map made) (jdepth (JObj data)) (JObj tree) (JObj data);
  st_closed : Closed (disclosure_map made) (dom (disclosure_map made) ∪ collectHashes (JObj tree));
  st_plain : plain (JObj tree) = true;
  st_readable : ∀ d, d ∈ made → readable h d;
  st_vouched : ∀ d, d ∈ made → vouched (JObj tree) (disclosure_map made) (Hash d);
  st_kept : kept cs data tree;
  st_alg : tree !! "_sd_alg" = Some (JStr "sha-256")
}.

Lemma honest_start (data : jobject) alg :
  plain (JObj data) = true → utf8_valid alg = true → honest h (<["_sd_alg" := JStr alg]> data) [].
Proof. intros Hp Ha. split; [by apply plain_insert|by intros d ?%elem_of_nil..]. Qed.

Lemma proper_no_alg cs c : proper_claims cs → c ∈ cs → Path c ≠ [Some "_sd_alg"].
Proof. intros [Hp _] Hc E. destruct (Hp c Hc "_sd_alg") as [[_ ?] _]; [rewrite E; by apply list_elem_of_here|done]. Qed.

Lemma MakeCredential_tree data vctm count tree made :
  clean (JObj data) = true → plain (JObj data) = true → proper_vctm vctm →
  make_credential h salt decoy mixed "sha-256" data vctm count = Ok (tree, made) → distinct_digests h decoy count made →
  ∃ m, tree = JObj m ∧ signed_tree count data (vctm_Claims vctm) m made.
Proof.
  intros Hc Hpl Hp Hm Hd. destruct (MakeCredential_committed h salt decoy mixed _ _ _ _ _ _ Hmixed Hc Hp Hm Hd) as [Hcm Hcl].
  unfold make_credential in Hm. destruct (process_claims h salt _ _ _) as [[data' made']|] eqn:E; [|done].
  cbn [mbind result_bind] in Hm. set (before := if bool_decide (0 < count) then _ else _) in Hm. injection Hm as <- ->.
  assert (∃ m, shuffleSDArrays mixed before = JObj m ∧ ∀ name, name ≠ "_sd" →
            (∀ v, scalar v = true → data' !! name = Some v → m !! name = Some v) ∧ (data' !! name = None → m !! name = None))
    as (m & Em & Htop).
  { unfold before. case_bool_decide; eexists; (split; [done|]); intros name Hne; rewrite shuffle_lookup, ?decoys_lookup by done;
      (split; [intros [] Hs ->; done|by intros ->]). }
  exists m. split; [done|]. pose proof (issuing_start (sortClaimsByDepth (vctm_Claims vctm)) "sha-256" data Hc) as Hi.
  destruct (honest_claims h salt _ _ _ _ _ _ _ Hi (sorted_proper _ Hp) (honest_start data "sha-256" Hpl eq_refl) (proj1 Hd) E) as [_ Hh].
  pose proof (process_claims_kept _ _ _ _ _ E) as Hkept. rewrite Em in Hcm, Hcl. split; [done|done|..]; rewrite <- ?Em.
  - apply shuffle_plain; [done|]. unfold before. case_bool_decide; [apply add_decoys_plain|]; apply Hh.
  - apply Hh.
  - intros d Hin. eapply vouched_mono; [|by apply Hh]. etrans; [|by apply shuffle_hashes]. unfold before.
    case_bool_decide; [apply add_decoys_hashes|done].
  - intros name v Hne Hv Hs. destruct (Htop name Hne) as [Hsome Hnone]. destruct (decide (name = "_sd_alg")) as [->|Hna].
    { apply clean_obj in Hc as (_ & Ha & _). congruence. }
    destruct (Hkept name v Hne) as [Hv'|(Hv' & c & Hin & Hcc)]; [by rewrite lookup_insert_ne|done|left; by apply Hsome|right].
    split; [by apply Hnone|]. exists c. by rewrite sortClaimsByDepth_perm in Hin.
  - apply (Htop "_sd_alg"); [done..|]. destruct (Hkept "_sd_alg" (JStr "sha-256")) as [?|(_ & c & Hin & _ & Hc')]; try done.
    + by rewrite lookup_insert_eq.
    + by apply (proper_no_alg _ _ (sorted_proper _ Hp)) in Hc'.
Qed.

End issued.

(** ** At the verifier *)

Section verifier.
Context `{JSON} `{Hashes} `{!JSONLaws} (h : string → string).

Lemma parse_readable ds : (∀ d, d ∈ ds → readable h d) →
  parse_disclosures h (map Raw ds ++ [""])%list = (map decoded_disclosure ds, []).
Proof.
  induction ds as [|d ds IH]; intros Hr; [done|]. cbn. rewrite IH by set_solver.
  destruct (Hr d (list_elem_of_here _ _)) as (Ep & _ & Ee & _). by rewrite Ee, Ep.
Qed.

Lemma vouched_decoded tree ds x :
  vouched tree (disclosure_map ds) x → vouched (decoded tree) (disclosure_map (map decoded_disclosure ds)) x.
Proof.
  rewrite disclosure_map_decoded. induction 1 as [x Hx|x d y _ IH Hd Hy].
  - apply vouched_direct. by rewrite decoded_hashes.
  - eapply (vouched_via _ _ x (decoded_disclosure d)); [done| |cbn; by rewrite decoded_hashes]. by rewrite lookup_fmap, Hd.
Qed.

Lemma unanchored_nil tree ds :
  (∀ d, d ∈ ds → vouched tree (disclosure_map ds) (Hash d)) →
  unanchored (collectAnchoredHashes (decoded tree) (map decoded_disclosure ds)) (map decoded_disclosure ds) = [].
Proof.
  intros Hv. apply omap_nil. intros d' (d & -> & Hd)%list_elem_of_fmap. rewrite bool_decide_eq_true_2; [done|].
  apply anchored_vouched, vouched_decoded. exact (Hv d Hd).
Qed.

(** [Split] of a presentation without a proof *)
Lemma split_Combine jwt raws :
  Forall (fun w => has_byte "~" w = false) (jwt :: raws) → split_sdjwt (Combine jwt raws "") = (jwt, (raws ++ [""])%list, "").
Proof.
  intros Hw. unfold split_sdjwt. rewrite Combine_presented, presented_text_join.
  replace (Join "~" (jwt :: raws) +:+ "~") with (Join "~" ((jwt :: raws) ++ [""])%list) by by rewrite Join_app.
  rewrite Split_Join; [|done|by apply Forall_app; split; [|apply Forall_singleton]]. cbn [app].
  by rewrite reverse_snoc.
Qed.

Lemma date_exact `{Arch} e : Z.abs e < 2 ^ 53 → time_Unix (float_int64 (float_of_Z e)) = e * second.
Proof.
  intros He. rewrite float_int64_of_Z by done. unfold time_Unix. rewrite wrap64_id by (unfold in_int64, unixToInternal; lia). lia.
Qed.

(** Times that are missing or good *)
Definition good_time (m : jobject) (k : string) (e : Z) : Prop := m !! k = Some (JInt e) ∨ m !! k = None.

Lemma structure_ok `{Arch} (header claims : jobject) vct iat nbf exp at_time :
  header !! "typ" = Some (JStr "dc+sd-jwt") → claims !! "vct" = Some (JStr vct) → vct ≠ "" →
  good_time claims "exp" exp → good_time claims "iat" iat → good_time claims "nbf" nbf →
  Z.abs exp < 2 ^ 53 → Z.abs iat < 2 ^ 53 → Z.abs nbf < 2 ^ 53 →
  iat * second ≤ at_time → nbf * second ≤ at_time → at_time ≤ exp * second + 5 * minute →
  validateSDJWTVCStructure (decoded_map header) (decoded_map claims) default_options at_time = Ok tt.
Proof.
  intros Ht Hv Hne He Hi Hn He' Hi' Hn' Hti Htn Hte. unfold validateSDJWTVCStructure.
  assert (∀ (P : Z → Prop) `{!∀ z, Decision (P z)} k e, good_time claims k e → Z.abs e < 2 ^ 53 → ¬ P (e * second) →
    match (fun f => time_Unix (float_int64 f)) <$> float_field (decoded_map claims) k with
    | Some z => bool_decide (P z) | None => false end = false) as Hg.
  { intros P HP k e Hg Hb Hnp. unfold float_field, decoded_map. rewrite lookup_fmap. destruct Hg as [-> | ->]; [|done]. cbn.
    rewrite date_exact by done. by rewrite bool_decide_eq_false_2. }
  assert (str_field (decoded_map header) "typ" = "dc+sd-jwt") as -> by by unfold str_field, decoded_map; rewrite lookup_fmap, Ht.
  assert (str_field (decoded_map claims) "vct" = vct) as -> by by unfold str_field, decoded_map; rewrite lookup_fmap, Hv.
  rewrite (bool_decide_eq_true_2 ("dc+sd-jwt" = _)), (proj2 (str_empty_false vct)) by done. cbn [negb andb ValidateTime default_options].
  rewrite (Hg (fun z => z + 5 * minute < at_time) _ "exp" exp) by (done || lia).
  rewrite (Hg (fun z => at_time < z - 5 * minute) _ "iat" iat) by (done || unfold minute, second in *; lia).
  by rewrite (Hg (fun z => at_time < z - 5 * minute) _ "nbf" nbf) by (done || unfold minute, second in *; lia).
Qed.

Context `{Arch} `{Sig : Signatures} `{!SdEnv} `{!SignaturesLaws}.

(** The key a signer signs with *)
Definition signs_with (signer : Signer) (key : sig_priv) : Prop :=
  (∀ text, signer_Sign signer text = sig_sign (Algorithm signer) key text) ∧
  (∃ m, GetSigningMethod (Algorithm signer) = Some m ∧
     ∀ hd cl text sig, method_fits (sig_public key) (mkToken hd cl (Algorithm signer) m text sig) = Some (sig_public key)) ∧
  utf8_valid (Algorithm signer) = true ∧ utf8_valid (KeyID signer) = true ∧
  Forall (fun s => utf8_valid s = true) (GetCertificateChain signer).

Definition full_header (header : jobject) (signer : Signer) : jobject :=
  let header := <["kid" := JStr (KeyID signer)]> (<["alg" := JStr (Algorithm signer)]> header) in
  match GetCertificateChain signer with [] => header | chain => <["x5c" := JArr (map JStr chain)]> header end.

Lemma SignWithSigner_SignedString header body signer key :
  signs_with signer key → SignWithSigner header body signer = SignedString (Algorithm signer) key (full_header header signer) body.
Proof.
  intros [Hs _]. unfold SignWithSigner, SignedString. fold (full_header header signer).
  destruct (SigningString _ _) as [text|]; [|done]. cbn. by rewrite Hs.
Qed.

Lemma full_header_ok header signer key :
  signs_with signer key → plain (JObj header) = true →
  plain (JObj (full_header header signer)) = true ∧ full_header header signer !! "alg" = Some (JStr (Algorithm signer)) ∧
  full_header header signer !! "typ" = header !! "typ".
Proof.
  intros (_ & _ & Ha & Hk & Hc) Hp. unfold full_header.
  assert (plain (JObj (<["kid" := JStr (KeyID signer)]> (<["alg" := JStr (Algorithm signer)]> header))) = true) as Hp2
    by (repeat apply plain_insert; done).
  destruct (GetCertificateChain signer) as [|x chain]; [split; [done|by simplify_map_eq]|]. split; [|by simplify_map_eq].
  apply plain_insert; [done..|]. apply forallb_elem. intros e (s & -> & Hin)%list_elem_of_fmap. rewrite Forall_forall in Hc. by apply Hc.
Qed.

(** What is returned is resolved from the token's claims and the parsed
    disclosures. *)
Lemma parseDisclosure_Ok p d : parseDisclosure h p = Ok d → Raw d = p ∧ Hash d = digest h p.
Proof.
  unfold parseDisclosure. destruct (unb64 p) as [text|]; [|done].
  destruct (UnmarshalArray text) as [[|a [|b [|c [|? ?]]]]|]; try done; destruct a; try done; [|destruct b; try done]; by intros [= <-].
Qed.

Lemma parse_disclosures_parsed parts ds notes :
  parse_disclosures h parts = (ds, notes) → ∀ d, d ∈ ds → ∃ p, p ∈ parts ∧ parseDisclosure h p = Ok d.
Proof.
  revert ds notes. induction parts as [|p parts IH]; intros ds notes; cbn; [by intros [= <- <-] d ?%elem_of_nil|].
  destruct (parse_disclosures h parts) as [ds' notes'] eqn:E. specialize (IH _ _ eq_refl).
  assert (∀ d, d ∈ ds' → ∃ q, q ∈ p :: parts ∧ parseDisclosure h q = Ok d) as IH'.
  { intros d (q & Hq & Eq)%IH. exists q. split; [by apply list_elem_of_further|done]. }
  destruct (str_empty p); [by intros [= <- <-]|]. destruct (parseDisclosure h p) as [d|] eqn:Ed; intros [= <- <-]; [|done].
  intros d' [->|Hd']%elem_of_cons; [|by apply IH']. exists p. split; [by apply list_elem_of_here|done].
Qed.

Lemma sd_alg_tree count data cs tree made :
  signed_tree h count data cs tree made → getHashFromAlgorithm (sd_alg (decoded_map tree)) = Some (hash_sum "sha-256").
Proof. intros Ht. unfold sd_alg, str_field, decoded_map. by rewrite lookup_fmap, (st_alg _ _ _ _ _ _ Ht). Qed.

(** Disclosures that are issued ones wherever the tree refers to them *)
Lemma presentation_part count data cs tree made ds fuel :
  signed_tree h count data cs tree made → NoDup (map Hash made) →
  (∀ d, d ∈ ds → Hash d ∈ map Hash made ∨ Hash d ∈ collectHashes (JObj tree) → ∃ d0, d0 ∈ made ∧ d = decoded_disclosure d0) →
  (jdepth (JObj data) < fuel)%nat →
  ∃ w, reconstruct (disclosure_map ds) fuel (decoded (JObj tree)) = Some w ∧ part_of w (decoded (JObj data)).
Proof.
  intros Ht Hn Hsub Hf. pose proof (committed_decoded _ _ _ _ (st_committed _ _ _ _ _ _ Ht)) as Hcm. destruct fuel as [|fuel]; [lia|].
  eapply (committed_le _ _ _ _ _ fuel) in Hcm; [|lia].
  eapply (present_part Value named (fun _ => true) _ _ (dom (disclosure_map made) ∪ collectHashes (JObj tree))); [exact Hcm|..].
  - intros x d Hx Hd. rewrite lookup_fmap in Hd. destruct (disclosure_map made !! x) as [d'|] eqn:E; [|done]. injection Hd as <-.
    cbn. rewrite decoded_hashes. by apply (st_closed _ _ _ _ _ _ Ht x d').
  - intros x d Hx [Hin Ex]%disclosure_map_elem. destruct (Hsub d Hin) as (d0 & Hd0 & ->).
    { rewrite Ex. apply elem_of_union in Hx as [Hx|Hx]; [left|by right]. by rewrite disclosure_map_dom, elem_of_list_to_set in Hx. }
    cbn in Ex. by rewrite lookup_fmap, <- Ex, (disclosure_map_lookup made d0).
  - rewrite decoded_hashes. apply union_subseteq_r.
Qed.

(** What some of the disclosures show of a signed tree *)
Lemma presentation_resolves count data cs tree made ds fuel :
  signed_tree h count data cs tree made → NoDup (map Hash made) → (∀ d, d ∈ ds → d ∈ made) → (jdepth (JObj data) < fuel)%nat →
  ∃ w, reconstruct (disclosure_map (map decoded_disclosure ds)) fuel (decoded (JObj tree)) = Some (JObj w) ∧
    part_of (JObj w) (decoded (JObj data)) ∧ (ds = made → JObj w = decoded (JObj data)).
Proof.
  intros Ht Hn Hsub Hf. destruct (presentation_part _ _ _ _ _ (map decoded_disclosure ds) fuel Ht Hn) as (w & Ew & Hw); [|done|].
  { intros d (d0 & -> & Hd0)%list_elem_of_fmap _. eauto. }
  assert (∃ o, w = JObj o) as [o ->] by (cbn in Hw; inversion Hw; eauto). exists o. split_and!; [done..|]. intros ->.
  rewrite disclosure_map_decoded in Ew. pose proof (committed_decoded _ _ _ _ (st_committed _ _ _ _ _ _ Ht)) as Hcm.
  eapply (committed_le _ _ _ _ _ fuel) in Hcm; [|lia]. apply committed_resolve in Hcm.
  apply (inj Some). by etrans; [symmetry; exact Ew|exact Hcm].
Qed.

Lemma ParseAndVerify_Ok evaluator fuel sdJWT key opts now r jwt parts kb :
  ParseAndVerify evaluator fuel sdJWT key opts now = Ok r → split_sdjwt sdJWT = (jwt, parts, kb) →
  ∃ t h' ds notes, ParseUnverified jwt = Ok t ∧ getHashFromAlgorithm (sd_alg (Claims t)) = Some h' ∧
    parse_disclosures h' parts = (ds, notes) ∧
    reconstruct (disclosure_map ds) fuel (JObj (Claims t)) = Some (JObj (ResultClaims r)).
Proof.
  unfold ParseAndVerify. intros Hv Esplit. rewrite Esplit in Hv. apply bind_Ok in Hv as ([vk chain] & _ & Hv).
  apply bind_Ok in Hv as (t & Et & Hv). destruct (verifyJWTSignature jwt vk) as [t'|] eqn:Ej; [|done]. injection Et as ->.
  apply Parse_Ok in Ej as [Ej _]. apply bind_Ok in Hv as (_ & _ & Hv).
  destruct (getHashFromAlgorithm _) as [h'|] eqn:Eh; [|done]. destruct (parse_disclosures h' parts) as [ds notes] eqn:Ed.
  destruct (reconstruct _ _ _) as [[| | | | | |full]|] eqn:Er; try done. exists t, h', ds, notes. split_and!; try done.
  destruct (negb (str_empty kb)).
  - apply bind_Ok in Hv as (kbc & _ & Hv). by injection Hv as <-.
  - destruct (RequireKeyBinding opts); [done|]. by injection Hv as <-.
Qed.

(** A signed tree and some of its disclosures *)
Lemma presentation_accepted data vctm count tree made ds header signer key jwt fuel at_time :
  h = hash_sum "sha-256" → signed_tree h count data (vctm_Claims vctm) tree made → NoDup (map Hash made) →
  signs_with signer key → plain (JObj header) = true → SignWithSigner header tree signer = Some jwt →
  validateSDJWTVCStructure (decoded_map (full_header header signer)) (decoded_map tree) default_options at_time = Ok tt →
  (∀ d, d ∈ ds → d ∈ made) → (∀ d, d ∈ ds → vouched (JObj tree) (disclosure_map ds) (Hash d)) →
  (jdepth (JObj data) < fuel)%nat →
  ∃ r, ParseAndVerify None fuel (Combine jwt (map Raw ds) "") (sig_public key) default_options at_time = Ok r ∧
    Valid r = true ∧ part_of (JObj (ResultClaims r)) (decoded (JObj data)) ∧ (ds = made → JObj (ResultClaims r) = decoded (JObj data)).
Proof.
  intros Eh Ht Hn Hs Hph Hj Hstruct Hsub Hv Hf. rewrite (SignWithSigner_SignedString _ _ _ _ Hs) in Hj.
  destruct (full_header_ok _ _ _ Hs Hph) as (Hpl & Halg & _). destruct (SignedString_dots _ _ _ _ _ Hj) as [_ Htilde].
  pose proof Hs as (_ & (m & Hm & Hfits) & _).
  destruct (Parse_signed _ _ _ _ _ m None (method_fits (sig_public key)) None Hj Hpl (st_plain _ _ _ _ _ _ Ht) Halg Hm) as (text & sig & Ep); try done.
  unfold ParseAndVerify. rewrite split_Combine.
  2: { constructor; [done|]. apply Forall_forall. intros w (d & -> & Hd)%list_elem_of_fmap. by apply (st_readable _ _ _ _ _ _ Ht d (Hsub d Hd)). }
  unfold choose_key.
  assert (match parsed_so_far jwt with Some (_, _) | _ => Ok (sig_public key, []) end = Ok (sig_public key, @nil cert) :> result verify_error _)
    as -> by by destruct (parsed_so_far jwt) as [[]|].
  cbn [mbind result_bind]. unfold verifyJWTSignature. rewrite Ep. cbn [mbind result_bind map_err Header Claims]. rewrite Hstruct.
  cbn [mbind result_bind].
  rewrite (sd_alg_tree _ _ _ _ _ Ht), <- Eh.
  rewrite parse_readable by (intros d Hd; by apply (st_readable _ _ _ _ _ _ Ht), Hsub).
  change (JObj (decoded_map tree)) with (decoded (JObj tree)). rewrite unanchored_nil by done. cbn [app].
  destruct (presentation_resolves _ _ _ _ _ ds fuel Ht Hn Hsub Hf) as (w & Ew & Hw & Hall).
  rewrite Ew. cbn. eexists. split; [done|]. cbn. done.
Qed.

End verifier.

(** ** Whole credentials *)

Section built.
Context `{JSON} `{Hashes} `{!JSONLaws} (salt : nat → string).
Context (decoy : list string → nat → string) (mixed : list json → list json) (Hmixed : ∀ l, mixed l ≡ₚ l).
Context `{Arch} `{Sig : Signatures} `{!SdEnv} `{!SignaturesLaws}.
Abbreviation h := (hash_sum "sha-256").

Lemma body_fields doc issuer jti jwk vct opts now :
  let body := credential_body doc issuer jti jwk vct opts now in
  body !! "vct" = Some (JStr vct) ∧ body !! "iat" = Some (JInt (now / second)) ∧ body !! "nbf" = Some (JInt (now / second)) ∧
  body !! "exp" = Some (JInt ((now + wrap64 (wrap64 (ExpirationDays opts * 24) * hour)) / second)).
Proof.
  unfold credential_body, when. cbv zeta.
  destruct (StatusReference opts) as [[idx uri]|]; repeat case_match; split_and!; by simplify_map_eq.
Qed.

Lemma kept_time cs data tree k e : kept cs data tree → k ≠ "_sd" → data !! k = Some (JInt e) → good_time tree k e.
Proof. intros Hk Hne Hd. destruct (Hk k _ Hne Hd eq_refl) as [?|[? _]]; [by left|by right]. Qed.

Lemma lifetime now days :
  0 ≤ now → now < 2 ^ 50 * second → 0 < days ≤ 36500 →
  let exp := (now + wrap64 (wrap64 (days * 24) * hour)) / second in
  Z.abs exp < 2 ^ 53 ∧ Z.abs (now / second) < 2 ^ 53 ∧ now / second * second ≤ now ∧ now + days * 24 * hour ≤ exp * second + 5 * minute.
Proof.
  intros Hn Hn' Hd. cbv zeta. assert (0 < days * 24 * hour ≤ 36500 * 24 * hour) as Hh by (unfold hour, second; lia).
  rewrite (wrap64_id (days * 24)) by (unfold in_int64; lia). rewrite wrap64_id by (unfold in_int64, hour, second in *; lia).
  set (life := days * 24 * hour) in *. assert (life ≤ 2 ^ 62) by (unfold hour, second in *; lia). clearbody life. clear Hd.
  change (5 * minute) with (300 * second).
  assert (now / second * second ≤ now < now / second * second + second) by (unfold second in *; Z.div_mod_to_equations; lia).
  assert ((now + life) / second * second ≤ now + life < (now + life) / second * second + second)
    by (unfold second in *; Z.div_mod_to_equations; lia).
  unfold second in *. lia.
Qed.

Definition issued_header (signer : Signer) : jobject :=
  <["typ" := JStr "dc+sd-jwt"]> (<["kid" := JStr (KeyID signer)]> {["alg" := JStr (Algorithm signer)]}).

Lemma issued_header_plain signer key : signs_with signer key → plain (JObj (issued_header signer)) = true.
Proof. intros (_ & _ & Ha & Hk & _). by repeat apply plain_insert. Qed.

Section one_credential.
Context (UnmarshalVCTM : string → option VCTM) (issuer jti vctmRaw documentData : string) (signer : Signer) (key : sig_priv).
Context (doc : jobject) (jwk : json) (opts : option CredentialOptions) (now : Z) (vctm : VCTM).
Abbreviation o := (with_defaults opts).
Abbreviation body := (credential_body doc issuer jti jwk (vctm_VCT vctm) o now).

(** What is asked of the inputs: they decode, the signer has a registered
    method for its key, the claims are such as JSON text carries and hold no
    digests of their own, and the metadata names no path twice and no reserved
    or empty name *)
Record proper_inputs : Prop := {
  pi_doc : UnmarshalNilMap documentData = Some (Some doc);
  pi_vctm : UnmarshalVCTM vctmRaw = Some vctm;
  pi_signer : signs_with signer key;
  pi_clean : clean (JObj body) = true;
  pi_plain : plain (JObj body) = true;
  pi_proper : proper_vctm vctm
}.

Abbreviation built := (build_credential UnmarshalVCTM salt decoy mixed issuer jti signer vctmRaw documentData jwk opts now).
Abbreviation credential := (BuildCredentialWithSigner UnmarshalVCTM salt decoy mixed issuer jti signer vctmRaw documentData jwk opts now).

Lemma built_signed jwt tree made :
  proper_inputs → built = Ok (jwt, tree, made) → distinct_digests h decoy (DecoyDigests o) made →
  credential = Ok (Combine jwt (map Raw made) "") ∧ SignWithSigner (issued_header signer) tree signer = Some jwt ∧
  vctm_VCT vctm ≠ "" ∧ signed_tree h (DecoyDigests o) body (vctm_Claims vctm) tree made.
Proof.
  intros [Edoc Evctm Hs Hc Hp Hpv] Hb Hd. split; [unfold BuildCredentialWithSigner; by rewrite Hb|].
  unfold build_credential in Hb. rewrite Edoc in Hb.
  unfold parseVCTM in Hb. rewrite Evctm in Hb. destruct (str_empty (vctm_VCT vctm)) eqn:Hne; [done|]. cbn [mbind result_bind] in Hb.
  destruct (ValidateDocument _ _) as [[]|]; [|done]. cbn [mbind result_bind map_err] in Hb.
  destruct (make_credential _ _ _ _ _ _ _ _) as [[tree' made']|] eqn:Em; [|done]. cbn [mbind result_bind map_err] in Hb.
  destruct tree' as [| | | | | |m]; try done. destruct (SignWithSigner _ m signer) as [jwt'|] eqn:Ej; [|done]. injection Hb as -> -> ->.
  destruct (MakeCredential_tree salt decoy mixed Hmixed _ _ _ _ _ _ Hc Hp Hpv Em Hd) as (m & [= <-] & Ht).
  split_and!; try done. by apply str_empty_false.
Qed.

(** C18: What the issuer builds, the verifier accepts.  A credential of
    [BuildCredentialWithSigner] is a signed token and its disclosures.
    Presented with any part of them in which nothing lacks what it is nested
    in, within its lifetime, it passes [ParseAndVerify] under the signer's
    public key, the result is valid, and its claims are part of the claims the
    credential was built from; with all disclosures they are those claims.
    All disclosures together are such a part.  The hypotheses: proper inputs,
    metadata that does not hide [vct], a verifier without a trust framework,
    digests that do not collide, fuel beyond the nesting of the claims. *)
Theorem issued_credential_verifies jwt tree made :
  proper_inputs → built = Ok (jwt, tree, made) → distinct_digests h decoy (DecoyDigests o) made →
  (∀ c, c ∈ vctm_Claims vctm → SD c = "always" → Path c ≠ [Some "vct"]) →
  0 ≤ now < 2 ^ 50 * second → 0 < ExpirationDays o ≤ 36500 →
  credential = Ok (Combine jwt (map Raw made) "") ∧
  (∀ d, d ∈ made → vouched (JObj tree) (disclosure_map made) (Hash d)) ∧
  ∀ ds fuel at_time,
    (∀ d, d ∈ ds → d ∈ made ∧ vouched (JObj tree) (disclosure_map ds) (Hash d)) →
    (jdepth (JObj body) < fuel)%nat → now ≤ at_time ≤ now + ExpirationDays o * 24 * hour →
    ∃ r, ParseAndVerify None fuel (Combine jwt (map Raw ds) "") (sig_public key) default_options at_time = Ok r ∧
      Valid r = true ∧ part_of (JObj (ResultClaims r)) (decoded (JObj body)) ∧
      (ds = made → JObj (ResultClaims r) = decoded (JObj body)).
Proof.
  intros Hi Hb Hd Hvct [Hn Hn'] Hdays. destruct (built_signed jwt tree made Hi Hb Hd) as (Ec & Ej & Hne & Ht). rename tree into m.
  split; [done|]. split; [apply Ht|]. intros ds fuel at_time Hds Hf Hat.
  destruct (body_fields doc issuer jti jwk (vctm_VCT vctm) o now) as (Bvct & Biat & Bnbf & Bexp).
  assert (m !! "vct" = Some (JStr (vctm_VCT vctm))) as Hmv.
  { destruct (st_kept _ _ _ _ _ _ Ht "vct" _ ltac:(done) Bvct eq_refl) as [?|(_ & c & Hin & Hsd & Hcp)]; [done|]. by apply Hvct in Hcp. }
  pose proof (pi_signer Hi) as Hs. pose proof (issued_header_plain signer key Hs) as Hph.
  eapply (presentation_accepted h) with (vctm := vctm);
    [reflexivity|exact Ht|apply Hd|exact Hs|exact Hph|exact Ej| |apply Hds|apply Hds|exact Hf].
  destruct (full_header_ok _ _ _ Hs Hph) as (_ & _ & Htyp). pose proof (st_kept _ _ _ _ _ _ Ht) as Hkept.
  assert ("exp" ≠ "_sd" ∧ "iat" ≠ "_sd" ∧ "nbf" ≠ "_sd") as (N1 & N2 & N3) by (split_and!; discriminate).
  pose proof (kept_time _ _ _ _ _ Hkept N1 Bexp) as Ge. pose proof (kept_time _ _ _ _ _ Hkept N2 Biat) as Gi.
  pose proof (kept_time _ _ _ _ _ Hkept N3 Bnbf) as Gn.
  destruct (lifetime now (ExpirationDays o) Hn Hn' Hdays) as (L1 & L2 & L3 & L4).
  refine (structure_ok _ _ (vctm_VCT vctm) _ _ _ _ _ Hmv Hne Ge Gi Gn L1 L2 L2 _ _ _);
    [rewrite Htyp; unfold issued_header; by rewrite lookup_insert_eq|clear - L3 Hat; lia|clear - L3 Hat; lia|clear - L4 Hat; lia].
Qed.

(** C19: What the verifier is shown, the issuer issued.  Whatever anyone makes
    of a credential (disclosures dropped, added, repeated or forged, any proof
    after them) and under whatever key, policy and options it is verified: if
    [ParseAndVerify] returns claims for the credential's signed token, they are
    part of the claims the credential was built from.  Assumed is that nobody
    presents a text with the digest of another disclosure or of a decoy. *)
Theorem shown_was_issued jwt tree made evaluator fuel presentation parts kb someKey someOpts at_time r :
  proper_inputs → built = Ok (jwt, tree, made) → distinct_digests h decoy (DecoyDigests o) made →
  split_sdjwt presentation = (jwt, parts, kb) →
  ParseAndVerify evaluator fuel presentation someKey someOpts at_time = Ok r →
  (∀ p, p ∈ parts → digest h p ∈ map Hash made ∨ digest h p ∈ collectHashes (JObj tree) → p ∈ map Raw made) →
  (jdepth (JObj body) < fuel)%nat → part_of (JObj (ResultClaims r)) (decoded (JObj body)).
Proof.
  intros Hi Hb Hd Esplit Hv Hcol Hf. destruct (built_signed jwt tree made Hi Hb Hd) as (_ & Ej & Hne & Ht). rename tree into m.
  pose proof (pi_signer Hi) as Hs. rewrite (SignWithSigner_SignedString _ _ _ _ Hs) in Ej.
  destruct (full_header_ok _ _ _ Hs (issued_header_plain signer key Hs)) as (Hpl & Halg & _). pose proof Hs as (_ & (mt & Hm & _) & _).
  destruct (ParseUnverified_signed _ _ _ _ _ mt Ej Hpl (st_plain _ _ _ _ _ _ Ht) Halg Hm) as (text & sig & _ & Ep).
  destruct (ParseAndVerify_Ok _ _ _ _ _ _ _ _ _ _ Hv Esplit) as (t & h' & ds & notes & Et & Eh & Eds & Er).
  rewrite Ep in Et. injection Et as <-. cbn [Claims] in *.
  rewrite (sd_alg_tree _ _ _ _ _ _ Ht) in Eh. injection Eh as <-.
  destruct (presentation_part h _ _ _ _ _ ds fuel Ht) as (w & Ew & Hw); [apply Hd| |done|].
  - intros d Hin. destruct (parse_disclosures_parsed _ _ _ _ Eds d Hin) as (p & Hp & Epd).
    destruct (parseDisclosure_Ok _ _ _ Epd) as [Er' Eh']. rewrite Eh'. intros Hdig. apply Hcol in Hdig; [|done].
    apply list_elem_of_fmap in Hdig as (d0 & -> & Hd0). destruct (st_readable _ _ _ _ _ _ Ht d0 Hd0) as [Erd _].
    rewrite Epd in Erd. injection Erd as ->. eauto.
  - change (JObj (decoded_map m)) with (decoded (JObj m)) in Er. rewrite Ew in Er. by injection Er as ->.
Qed.
End one_credential.
End built.
