(* ===== verification/SdJwtWitness.v ===== *)
(** * Witnesses for SD-JWT credentials

    Instances of the interfaces (a binary JSON text, a checksum for a hash,
    keys whose signature is the key's name, no certificates) and the theorems
    applied to one credential with a hidden name, a hidden address with a
    hidden street, and a list whose elements are hidden. *)

From Stdlib Require Import SpecFloat.
From S2P Require Import Prelude Bytes GoStrings Base64 GoValue Utf8 Json Jwt SdJwt SdJwtVerify SdJwtIssue SdJwtTree SdJwtRoundTrip SdJwtBuild SdJwtEndToEnd.

(** ** Instances *)

Fixpoint to_go (v : json) : goval :=
  match v with
  | JNull => GNil
  | JBool b => GBool b
  | JStr s => GString s
  | JFloat f => GFloat64 f
  | JInt z => GInt z
  | JArr l => GArr (map to_go l)
  | JObj m => GMap (map_to_list (to_go <$> m))
  end.

Fixpoint of_go (v : goval) : json :=
  match v with
  | GBool b => JBool b
  | GString s => JStr s
  | GFloat64 f => JFloat f
  | GInt z => JInt z
  | GArr l => JArr (map of_go l)
  | GMap m => JObj (list_to_map (map (fun e => (fst e, of_go (snd e))) m))
  | _ => JNull
  end.

Lemma of_to_go v : of_go (to_go v) = v.
Proof.
  induction v as [| | | | |l IH|m IH] using json_nested_ind; cbn; try done.
  - f_equal. rewrite map_map. rewrite <- (map_id l) at 2. apply map_ext_in. intros v Hv%list_elem_of_In. auto.
  - f_equal. change (list_to_map ((fun e => (fst e, of_go (snd e))) <$> map_to_list (to_go <$> m)) = m).
    rewrite <- (list_to_map_to_list m) at 2. rewrite map_to_list_fmap, <- list_fmap_compose.
    f_equal. rewrite <- (list_fmap_id (map_to_list m)) at 2. apply list_fmap_ext. intros i [k v] Hi.
    apply list_elem_of_lookup_2, elem_of_map_to_list in Hi. cbn. by rewrite (IH k v Hi).
Qed.

(** A positive as bytes, lowest bit first *)
Fixpoint pos_bits (p : positive) : list bool :=
  match p with xH => [true] | xO p => false :: pos_bits p | xI p => true :: pos_bits p end.

Fixpoint bits_pos (l : list bool) : option positive :=
  match l with
  | [] => None
  | b :: l => match bits_pos l with
              | None => if b then Some xH else None
              | Some p => Some (if b then xI p else xO p)
              end
  end.

Fixpoint pack (l : list bool) : string :=
  match l with
  | [] => EmptyString
  | b0 :: b1 :: b2 :: b3 :: b4 :: b5 :: b6 :: b7 :: l => String (Ascii.Ascii b0 b1 b2 b3 b4 b5 b6 b7) (pack l)
  | l => let bit i := nth i l false in
         String (Ascii.Ascii (bit 0) (bit 1) (bit 2) (bit 3) (bit 4) (bit 5) (bit 6) false)%nat EmptyString
  end.

Fixpoint unpack (s : string) : list bool :=
  match s with
  | EmptyString => []
  | String (Ascii.Ascii b0 b1 b2 b3 b4 b5 b6 b7) s => b0 :: b1 :: b2 :: b3 :: b4 :: b5 :: b6 :: b7 :: unpack s
  end.

Lemma bits_pos_pad l k : bits_pos (l ++ repeat false k)%list = bits_pos l.
Proof.
  induction l as [|b l IH]; cbn; [|by rewrite IH]. induction k as [|k IH]; [done|]. cbn. by rewrite IH.
Qed.

Lemma bits_pos_bits p : bits_pos (pos_bits p) = Some p.
Proof. induction p as [p IH|p IH|]; cbn; [..|done]; by rewrite IH. Qed.

Lemma unpack_pack l : ∃ k, unpack (pack l) = (l ++ repeat false k)%list.
Proof.
  remember (length l) as n eqn:Hn. revert l Hn. induction n as [n IH] using lt_wf_ind. intros l ->.
  destruct l as [|b0 [|b1 [|b2 [|b3 [|b4 [|b5 [|b6 [|b7 l]]]]]]]]; [by exists 0%nat| | | | | | | |].
  - by exists 7%nat.
  - by exists 6%nat.
  - by exists 5%nat.
  - by exists 4%nat.
  - by exists 3%nat.
  - by exists 2%nat.
  - by exists 1%nat.
  - destruct (IH (length l) ltac:(cbn; lia) l eq_refl) as [k E]. exists k. cbn. by rewrite E.
Qed.

#[export] Instance binary_json : JSON := {|
  Marshal v := Some (String "{" (pack (pos_bits (encode (to_go (decoded v))))));
  Unmarshal s := match s with String "{" s => p ← bits_pos (unpack s); of_go <$> decode p | _ => None end
|}.

#[export] Instance binary_json_laws : JSONLaws.
Proof.
  split; [|done]. intros v _. eexists. split; [reflexivity|]. cbn [Unmarshal binary_json].
  destruct (unpack_pack (pos_bits (encode (to_go (decoded v))))) as [k ->]. rewrite bits_pos_pad, bits_pos_bits. cbn [mbind option_bind].
  rewrite decode_encode. cbn. by rewrite of_to_go.
Qed.

#[export] Instance amd64 : Arch := {| int64_overflow _ := - 2 ^ 63 |}.

(** A checksum of 40 bits *)
Definition checksum (s : string) : string :=
  pack (pos_bits (Z.to_pos (2 ^ 40 + foldl (fun acc c => (acc * 131 + byte_of c) mod 2 ^ 40) 7 (String.list_ascii_of_string s)))).

#[export] Instance checksums : Hashes := {| hash_sum _ := checksum |}.

#[export] Instance named_keys : Signatures := {|
  sig_key := string;
  sig_priv := string;
  sig_public k := k;
  key_type_of _ := KEcdsa;
  view_of _ := PrivEcdsa "P-256";
  sig_sign _ k text := Some (k +:+ checksum text);
  sig_verify _ k text sig := bool_decide (sig = k +:+ checksum text)
|}.

#[export] Instance named_keys_laws : SignaturesLaws.
Proof.
  split; cbn.
  - intros alg sk text sig [= <-]. by apply bool_decide_eq_true.
  - done.
  - done.
Qed.

#[export] Instance no_certificates : SdEnv := {|
  cert := string;
  ParseX5CHeader _ := None;
  cert_key c := c;
  CommonName c := c;
  ec_key crv x y := "holder";
  ParseJWKToPublicKey jwk := match jwk !! "kid" with Some (JStr k) => Some k | _ => None end
|}.

(** ** A credential *)

Definition person : jobject :=
  <["given_name" := JStr "Ada"]> (<["address" := JObj {["street" := JStr "Main"]}]>
    {["nationalities" := JArr [JStr "SE"]]}).

Definition person_vctm : VCTM := mkVCTM "person"
  [mkVctmClaim [Some "vct"] "never" true;
   mkVctmClaim [Some "given_name"] "always" true;
   mkVctmClaim [Some "address"] "always" false;
   mkVctmClaim [Some "address"; Some "street"] "always" false;
   mkVctmClaim [Some "nationalities"; None] "always" false].

(** The salts and decoys of a run *)
Definition salts (i : nat) : string := pos_str (Pos.of_nat (S i)).
Definition noise (_ : list string) (i : nat) : string := "#" +:+ salts i.

Definition issuer_key : sig_priv := "issuer".
Definition person_signer : Signer := mkSigner "ES256" "key-1" [] (fun text => sig_sign "ES256" issuer_key text).
Definition person_doc : string := default "" (Marshal (JObj person)).
Definition person_opts : CredentialOptions := mkCredentialOptions 1 30 (Some (7, "/list")) "".
Definition clock : Z := 1700000000 * second.
Definition read_vctm (raw : string) : option VCTM := if bool_decide (raw = "vctm") then Some person_vctm else None.
Definition holder_jwk : json := JObj (<["kty" := JStr "EC"]> {["kid" := JStr "holder"]}).

Definition person_built : result build_error (string * jobject * list Disclosure) :=
  build_credential read_vctm salts noise id "issuer" "1" person_signer "vctm" person_doc holder_jwk
    (Some person_opts) clock.
Definition person_body : jobject :=
  credential_body person "issuer" "1" holder_jwk "person" person_opts clock.

Definition parts_of (r : result build_error (string * jobject * list Disclosure)) : string * jobject * list Disclosure :=
  match r with Ok p => p | Err _ => ("", ∅, []) end.
Definition person_parts : string * jobject * list Disclosure := parts_of person_built.
Definition person_jwt : string := fst (fst person_parts).
Definition person_tree : jobject := snd (fst person_parts).
Definition person_made : list Disclosure := snd person_parts.

(** ** The hypotheses hold *)

Lemma person_vctm_proper : proper_vctm person_vctm.
Proof.
  split; [|by apply (bool_decide_unpack _)]. intros c Hc k Hk.
  repeat (apply elem_of_cons in Hc as [->|Hc];
    [repeat (apply elem_of_cons in Hk as [Hk|Hk]; [first [discriminate Hk|injection Hk as ->; by repeat split]|]); by apply elem_of_nil in Hk|]).
  by apply elem_of_nil in Hc.
Qed.

Lemma person_signs : signs_with person_signer issuer_key.
Proof. split_and!; try done. by exists MEcdsa. Qed.

Lemma person_doc_reads : UnmarshalNilMap person_doc = Some (Some person).
Proof.
  destruct (Unmarshal_Marshal (JObj person)) as (s & Em & Eu); [vm_compute; reflexivity|].
  assert (person_doc = s) as -> by (unfold person_doc; rewrite Em; reflexivity). unfold UnmarshalNilMap. rewrite Eu. reflexivity.
Qed.

Lemma person_inputs :
  proper_inputs read_vctm "issuer" "1" "vctm" person_doc person_signer issuer_key person holder_jwk
    (Some person_opts) clock person_vctm.
Proof.
  split; [apply person_doc_reads|reflexivity|apply person_signs|vm_compute; reflexivity|vm_compute; reflexivity|apply person_vctm_proper].
Qed.

Lemma parts_ok r : match r with Ok _ => true | Err _ => false end = true → r = Ok (fst (fst (parts_of r)), snd (fst (parts_of r)), snd (parts_of r)).
Proof. by destruct r as [[[] ?]|]. Qed.

Lemma person_built_ok : person_built = Ok (person_jwt, person_tree, person_made).
Proof. apply parts_ok. vm_compute. reflexivity. Qed.

Lemma person_distinct : distinct_digests (hash_sum "sha-256") noise 1 person_made.
Proof.
  assert (bool_decide (NoDup (map Hash person_made)) &&
    forallb (fun x => negb (bool_decide (x ∈ map Hash person_made))) (decoys (hash_sum "sha-256") noise 1 []) = true)
    as [Hn Hd]%andb_true_iff by (vm_compute; reflexivity).
  split; [by apply bool_decide_eq_true in Hn|]. intros path x Hx. rewrite forallb_elem in Hd. specialize (Hd x Hx).
  by apply negb_true_iff, bool_decide_eq_false in Hd.
Qed.

Lemma id_perm (l : list json) : id l ≡ₚ l.
Proof. done. Qed.

(** ** The theorems at this credential *)

Lemma issued_credential_verifies_witness :
  person_built = Ok (person_jwt, person_tree, person_made) ∧
  ∃ r, ParseAndVerify None 20 (Combine person_jwt (map Raw person_made) "") (sig_public issuer_key) default_options (clock + hour) = Ok r ∧
    Valid r = true ∧ JObj (ResultClaims r) = decoded (JObj person_body).
Proof.
  split; [exact person_built_ok|].
  destruct (issued_credential_verifies salts noise id id_perm read_vctm "issuer" "1" "vctm" person_doc
    person_signer issuer_key person holder_jwk (Some person_opts) clock person_vctm person_jwt person_tree person_made
    person_inputs person_built_ok person_distinct) as (_ & Hv & Hr).
  - intros c Hc Hs. repeat (apply elem_of_cons in Hc as [->|Hc]; [discriminate|]). by apply elem_of_nil in Hc.
  - vm_compute. split; [discriminate|reflexivity].
  - vm_compute. split; [reflexivity|discriminate].
  - destruct (Hr person_made 20%nat (clock + hour)) as (r & Er & Hvalid & _ & Hall).
    + intros d Hd. split; [exact Hd|]. by apply Hv.
    + apply Nat.ltb_lt. vm_compute. reflexivity.
    + vm_compute. split; discriminate.
    + exists r. split; [exact Er|]. split; [exact Hvalid|]. exact (Hall eq_refl).
Defined.

(** A name disclosed, the elements of the list not, and a forged disclosure *)
Definition tampered : string :=
  Combine person_jwt (map Raw (drop 3 person_made) ++ [b64 (default "" (Marshal (JArr [JStr "x"; JStr "admin"; JBool true])))])%list "".
Definition tampered_result : result verify_error (VerificationResult cert) :=
  ParseAndVerify None 20 tampered (sig_public issuer_key) default_options (clock + hour).
Definition collides (made : list Disclosure) (tree : jobject) (p : string) : bool :=
  negb (bool_decide (p ∈ map Raw made)) &&
  (bool_decide (digest (hash_sum "sha-256") p ∈ map Hash made) || bool_decide (digest (hash_sum "sha-256") p ∈ collectHashes (JObj tree))).

Lemma no_collision made tree parts :
  forallb (fun p => negb (collides made tree p)) parts = true →
  ∀ p, p ∈ parts → digest (hash_sum "sha-256") p ∈ map Hash made ∨ digest (hash_sum "sha-256") p ∈ collectHashes (JObj tree) →
    p ∈ map Raw made.
Proof.
  rewrite forallb_elem. unfold collides. intros H p Hp Hd. specialize (H p Hp). case_bool_decide; [done|]. cbn in H.
  repeat case_bool_decide; tauto || done.
Qed.

Lemma tampered_split : split_sdjwt tampered = (person_jwt, tail (Split "~" tampered), "").
Proof. vm_compute. reflexivity. Qed.

Definition verified_of (r : result verify_error (VerificationResult cert)) : VerificationResult cert :=
  match r with Ok r => r | Err _ => mkResult _ false ∅ [] ∅ [] false None [] end.
Lemma verified_ok r : match r with Ok _ => true | Err _ => false end = true → r = Ok (verified_of r).
Proof. by destruct r. Qed.

Definition verified : VerificationResult cert := verified_of tampered_result.
Lemma tampered_verified :
  ParseAndVerify None 20 tampered (sig_public issuer_key) default_options (clock + hour) = Ok verified.
Proof. apply (verified_ok tampered_result). vm_compute. reflexivity. Qed.

Lemma shown_was_issued_witness :
  Valid verified = false ∧ ResultClaims verified !! "given_name" = Some (JStr "Ada") ∧
  part_of (JObj (ResultClaims verified)) (decoded (JObj person_body)).
Proof.
  split; [vm_compute; reflexivity|]. split; [vm_compute; reflexivity|].
  apply (shown_was_issued salts noise id id_perm read_vctm "issuer" "1" "vctm" person_doc
    person_signer issuer_key person holder_jwk (Some person_opts) clock person_vctm person_jwt person_tree person_made
    None 20%nat tampered (tail (Split "~" tampered)) "" (sig_public issuer_key) default_options (clock + hour) verified
    person_inputs person_built_ok person_distinct tampered_split tampered_verified).
  - apply no_collision. vm_compute. reflexivity.
  - apply Nat.ltb_lt. vm_compute. reflexivity.
Defined.

(** The loop on its own, with another digest algorithm *)
Definition plain_made : result issue_error (json * list Disclosure) :=
  make_credential checksum salts noise id "sha-512" person person_vctm 1.
Definition made_parts (r : result issue_error (json * list Disclosure)) : json * list Disclosure :=
  match r with Ok p => p | Err _ => (JNull, []) end.
Lemma made_parts_ok r : match r with Ok _ => true | Err _ => false end = true → r = Ok (fst (made_parts r), snd (made_parts r)).
Proof. by destruct r as [[]|]. Qed.

Lemma plain_made_ok : plain_made = Ok (fst (made_parts plain_made), snd (made_parts plain_made)).
Proof. apply made_parts_ok. vm_compute. reflexivity. Qed.

Lemma plain_distinct : distinct_digests checksum noise 1 (snd (made_parts plain_made)).
Proof.
  assert (bool_decide (NoDup (map Hash (snd (made_parts plain_made)))) &&
    forallb (fun x => negb (bool_decide (x ∈ map Hash (snd (made_parts plain_made))))) (decoys checksum noise 1 []) = true)
    as [Hn Hd]%andb_true_iff by (vm_compute; reflexivity).
  split; [by apply bool_decide_eq_true in Hn|]. intros path x Hx. rewrite forallb_elem in Hd. specialize (Hd x Hx).
  by apply negb_true_iff, bool_decide_eq_false in Hd.
Qed.

Lemma selective_disclosure_witness :
  reconstruct (disclosure_map (snd (made_parts plain_made))) (jdepth (JObj person)) (fst (made_parts plain_made)) = Some (JObj person) ∧
  ∃ w, reconstruct (disclosure_map (take 2 (snd (made_parts plain_made)))) (S (jdepth (JObj person))) (fst (made_parts plain_made)) = Some w ∧
    part_of w (JObj person).
Proof.
  destruct (selective_disclosure checksum salts noise id "sha-512" person person_vctm 1 _ _
    id_perm eq_refl person_vctm_proper plain_made_ok plain_distinct) as (_ & Hall & Hpart).
  split; [exact Hall|]. apply Hpart. intros d Hd. by apply (elem_of_sublist _ _ _ Hd), sublist_take.
Defined.


(** ** Key binding *)

Definition holder_key : sig_priv := "holder".
Definition proof_of (r : result create_error string) : string := match r with Ok kb => kb | Err _ => "" end.
Lemma proof_of_ok r : match r with Ok _ => true | Err _ => false end = true → r = Ok (proof_of r).
Proof. by destruct r. Qed.

Definition person_kb : string :=
  proof_of (CreateKeyBindingJWT (Combine person_jwt (map Raw person_made) "") "n-1" "verifier" holder_key "sha-256" None clock).
Lemma person_kb_ok :
  CreateKeyBindingJWT (Combine person_jwt (map Raw person_made) "") "n-1" "verifier" holder_key "sha-256" None clock = Ok person_kb.
Proof. apply proof_of_ok. vm_compute. reflexivity. Qed.

Definition person_vp : string := CombineWithKeyBinding (Combine person_jwt (map Raw person_made) "") person_kb.
Definition vp_claims : jobject := <["_sd_alg" := JStr "sha-256"]> {["cnf" := JObj {["jwk" := holder_jwk]}]}.

Lemma key_binding_accepted_witness :
  VerifyKeyBinding person_vp vp_claims (mkExpectations "n-1" "verifier" 0 0) (clock + minute) = Ok tt.
Proof.
  apply (key_binding_accepted person_jwt (map Raw person_made) "n-1" "verifier" holder_key "sha-256" vp_claims
    {["jwk" := holder_jwk]} (<["kty" := JStr "EC"]> {["kid" := JStr "holder"]}) clock (clock + minute) person_kb person_kb_ok).
  - assert (forallb (fun w => negb (has_byte "~" w)) (person_jwt :: map Raw person_made) = true) as H by (vm_compute; reflexivity).
    apply Forall_forall. intros w Hw. rewrite forallb_elem in H. exact (proj1 (negb_true_iff _) (H w Hw)).
  - vm_compute. reflexivity.
  - discriminate.
  - discriminate.
  - vm_compute. reflexivity.
  - vm_compute. reflexivity.
  - reflexivity.
  - reflexivity.
  - reflexivity.
  - discriminate.
  - reflexivity.
  - vm_compute. split; [discriminate|reflexivity].
  - vm_compute. split; discriminate.
Defined.

Lemma person_vp_split : splitPresentation person_vp = Ok (person_jwt, map Raw person_made, person_kb).
Proof. vm_compute. reflexivity. Qed.

Lemma proof_not_transferable_witness :
  VerifyKeyBinding person_vp vp_claims (mkExpectations "n-1" "verifier" 0 0) (clock + minute) = Ok tt ∧ person_vp = person_vp.
Proof.
  split; [vm_compute; reflexivity|].
  apply (proof_not_transferable person_vp person_vp vp_claims vp_claims (mkExpectations "n-1" "verifier" 0 0)
    (mkExpectations "n-1" "verifier" 0 0) (clock + minute) (clock + 2 * minute) person_jwt (map Raw person_made)
    person_jwt (map Raw person_made) person_kb (hash_sum "sha-256")).
  - vm_compute. reflexivity.
  - vm_compute. reflexivity.
  - exact person_vp_split.
  - exact person_vp_split.
  - reflexivity.
  - reflexivity.
  - intros _. reflexivity.
Defined.
