(* ===== verification/JsonDoc.v ===== *)
(** * JSON documents

    A JSON text as the token stream of [encoding/json] shows it: members in
    the order they were written, a name as often as it occurs, a number as its
    literal.  Strings are decoded, and [encoding/json] only hands valid text to
    the code modelled here; white space is not kept.

    A decode into [any] ([UseNumber]) keeps the last of the members that share
    a name: [as_any].  Its result is again a document, with each name once and
    the members in the order in which [json.Marshal] writes a map, so two
    values are equal when their documents are.

    A decode into a Go variable overwrites what is there, which shows when two
    members of one object match the same field: names match a field up to
    letter case.  [null] leaves a string or a struct as it is, and a slice is
    decoded over its old elements, those beyond its length included, as long
    as they are in its backing array. *)

From stdpp Require Import sorting.
From S2P Require Import Prelude GoStrings Utf8.

Inductive doc : Type :=
| DNull
| DBool (b : bool)
| DStr (s : string)
| DNum (literal : string)
| DArr (l : list doc)
| DObj (ms : list (string * doc)).

Abbreviation members := (list (string * doc)).

Section nested.
Context (P : doc → Prop) (Hnull : P DNull) (Hbool : ∀ b, P (DBool b)) (Hstr : ∀ s, P (DStr s))
  (Hnum : ∀ l, P (DNum l)) (Harr : ∀ l, Forall P l → P (DArr l))
  (Hobj : ∀ ms, Forall (fun m => P (snd m)) ms → P (DObj ms)).

Fixpoint doc_nested_ind (d : doc) : P d :=
  match d with
  | DNull => Hnull
  | DBool b => Hbool b
  | DStr s => Hstr s
  | DNum l => Hnum l
  | DArr l => Harr l
      ((fix go l : Forall P l :=
        match l with
        | [] => Forall_nil_2 P
        | x :: l => Forall_cons_2 P x l (doc_nested_ind x) (go l)
        end) l)
  | DObj ms => Hobj ms
      ((fix go ms : Forall (fun m => P (snd m)) ms :=
        match ms with
        | [] => Forall_nil_2 _
        | m :: ms => Forall_cons_2 (fun m => P (snd m)) m ms (doc_nested_ind (snd m)) (go ms)
        end) ms)
  end.
End nested.

#[global] Instance doc_eq_dec : EqDecision doc.
Proof.
  refine (fix go (x y : doc) : Decision (x = y) :=
    let _ : EqDecision doc := go in
    match x, y with
    | DNull, DNull => left eq_refl
    | DBool a, DBool b => cast_if (decide (a = b))
    | DStr a, DStr b => cast_if (decide (a = b))
    | DNum a, DNum b => cast_if (decide (a = b))
    | DArr a, DArr b => cast_if (decide (a = b))
    | DObj a, DObj b => cast_if (decide (a = b))
    | _, _ => right _
    end); try clear r; clear go; abstract congruence.
Defined.

(** ** Maps *)

(** the order in which [json.Marshal] writes the keys of a map *)
Definition key_le (a b : string * doc) : Prop := String.leb (fst a) (fst b) = true.
#[global] Instance key_le_dec : RelDecision key_le.
Proof. intros a b. unfold key_le. apply _. Defined.

Definition map_members (m : gmap string doc) : members := merge_sort key_le (map_to_list m).

(** [map[string]json.RawMessage]: the last member of a name wins. *)
Definition last_wins (ms : members) : gmap string doc := list_to_map (reverse ms).

Lemma map_members_perm m : map_members m ≡ₚ map_to_list m.
Proof. apply merge_sort_Permutation. Qed.

Lemma elem_of_map_members m k d : (k, d) ∈ map_members m ↔ m !! k = Some d.
Proof. by rewrite map_members_perm, elem_of_map_to_list. Qed.

Lemma map_members_NoDup m : NoDup (map_members m).*1.
Proof. rewrite map_members_perm. apply NoDup_fst_map_to_list. Qed.

Lemma last_wins_map_members m : last_wins (map_members m) = m.
Proof.
  unfold last_wins. rewrite (list_to_map_proper (reverse (map_members m)) (map_to_list m)).
  - apply list_to_map_to_list.
  - rewrite fmap_reverse, reverse_Permutation. apply map_members_NoDup.
  - by rewrite reverse_Permutation, map_members_perm.
Qed.

Lemma last_wins_lookup ms k d : NoDup ms.*1 → last_wins ms !! k = Some d ↔ (k, d) ∈ ms.
Proof.
  intros Hd. rewrite <- (reverse_Permutation ms) at 2. symmetry. apply elem_of_list_to_map.
  by rewrite fmap_reverse, reverse_Permutation.
Qed.

Lemma last_wins_elem ms k d : last_wins ms !! k = Some d → (k, d) ∈ ms.
Proof. unfold last_wins. intros H%elem_of_list_to_map_2. by rewrite reverse_Permutation in H. Qed.

Lemma last_wins_None ms k : last_wins ms !! k = None ↔ k ∉ ms.*1.
Proof. unfold last_wins. rewrite <- not_elem_of_list_to_map, fmap_reverse. by rewrite reverse_Permutation. Qed.

(** [json.Unmarshal] into [map[string]json.RawMessage]; [null] leaves it nil *)
Definition as_map (d : doc) : option (gmap string doc) :=
  match d with
  | DObj ms => Some (last_wins ms)
  | DNull => Some ∅
  | _ => None
  end.

(** ** Values *)

Fixpoint as_any (d : doc) : doc :=
  match d with
  | DArr l => DArr (map as_any l)
  | DObj ms => DObj (map_members (last_wins (map (fun m => (fst m, as_any (snd m))) ms)))
  | _ => d
  end.

(** [jsonEquivalent]: equal as values, numbers as literals *)
Definition jsonEquivalent (a b : doc) : bool := bool_decide (as_any a = as_any b).

Lemma last_wins_fmap (f : doc → doc) ms :
  last_wins (map (fun m => (fst m, f (snd m))) ms) = f <$> last_wins ms.
Proof.
  unfold last_wins. change (map ?g ms) with (g <$> ms). rewrite <- list_to_map_fmap, <- fmap_reverse.
  done.
Qed.

(** A map of values is a value. *)
Definition is_any (d : doc) : Prop := as_any d = d.

Lemma as_any_obj ms : as_any (DObj ms) = DObj (map_members (as_any <$> last_wins ms)).
Proof. cbn. by rewrite last_wins_fmap. Qed.

Lemma as_any_idem d : is_any (as_any d).
Proof.
  unfold is_any. induction d as [| | | |l IH|ms IH] using doc_nested_ind; try done.
  - cbn. f_equal. rewrite map_map. apply map_ext_Forall, IH.
  - rewrite as_any_obj at 1. rewrite as_any_obj, as_any_obj, last_wins_map_members, <- map_fmap_compose.
    f_equal. f_equal. apply map_fmap_ext. intros k x Hx%last_wins_elem.
    rewrite Forall_forall in IH. exact (IH (k, x) Hx).
Qed.

Lemma as_any_map m : as_any (DObj (map_members m)) = DObj (map_members (as_any <$> m)).
Proof. by rewrite as_any_obj, last_wins_map_members. Qed.

(** ** Members named more than once *)

Fixpoint hasDuplicateMembers (d : doc) : bool :=
  match d with
  | DArr l => existsb hasDuplicateMembers l
  | DObj ms => negb (bool_decide (NoDup ms.*1)) || existsb (fun m => hasDuplicateMembers (snd m)) ms
  | _ => false
  end.

(** [topLevelMemberNames]: how often each name appears, of an object *)
Definition count_name (counts : gmap string nat) (m : string * doc) : gmap string nat :=
  <[fst m := S (default 0%nat (counts !! fst m))]> counts.

Definition topLevelMemberNames (d : doc) : option (gmap string nat) :=
  match d with
  | DObj ms => Some (foldl count_name ∅ ms)
  | _ => None
  end.

Lemma counts_lookup ms counts k :
  foldl count_name counts ms !! k =
  match length (filter (fun m : string * doc => fst m = k) ms) with
  | O => counts !! k
  | S n => Some (S n + default 0%nat (counts !! k))%nat
  end.
Proof.
  revert counts. induction ms as [|[j d] ms IH]; intros counts; [done|]. cbn [foldl fst]. rewrite IH, filter_cons. cbn [fst].
  case_decide as E.
  - subst j. unfold count_name. cbn [fst]. rewrite lookup_insert_eq. cbn [length]. destruct (length _); cbn; f_equal; lia.
  - unfold count_name. cbn [fst]. by rewrite lookup_insert_ne.
Qed.

Lemma count_NoDup ms k : NoDup ms.*1 → (length (filter (fun m : string * doc => fst m = k) ms) ≤ 1)%nat.
Proof.
  induction ms as [|[j d] ms IH]; [cbn; lia|]. intros [Hj Hd]%NoDup_cons. rewrite filter_cons. cbn [fst].
  case_decide as E; [|auto]. subst j. cbn [length]. destruct (filter _ ms) as [|[i x] l] eqn:E; [cbn; lia|]. destruct Hj.
  assert ((i, x) ∈ filter (fun m : string * doc => fst m = k) ms) as [<- Hx]%list_elem_of_filter by (rewrite E; left).
  apply list_elem_of_fmap. by exists (i, x).
Qed.

Lemma NoDup_count ms : (∀ k, (length (filter (fun m : string * doc => fst m = k) ms) ≤ 1)%nat) → NoDup ms.*1.
Proof.
  induction ms as [|[j d] ms IH]; [constructor|]. intros H. cbn. constructor.
  - intros ([i x] & Ej & Hx)%list_elem_of_fmap. cbn [fst] in Ej. subst j. specialize (H i). rewrite filter_cons in H.
    cbn [fst] in H. rewrite decide_True in H by done. cbn [length] in H.
    assert ((i, x) ∈ filter (fun m : string * doc => fst m = i) ms) as Hf by (by apply list_elem_of_filter).
    destruct (filter _ ms) eqn:E; [by apply elem_of_nil in Hf|cbn in H; lia].
  - apply IH. intros k. specialize (H k). rewrite filter_cons in H. case_decide; cbn in H; lia.
Qed.

Lemma hasDup_arr l : hasDuplicateMembers (DArr l) = false ↔ ∀ d, d ∈ l → hasDuplicateMembers d = false.
Proof.
  cbn. rewrite <- not_true_iff_false, existsb_exists. split.
  - intros H d Hd. apply not_true_iff_false. intros E. apply H. exists d. split; [by apply list_elem_of_In|done].
  - intros H (d & Hd%list_elem_of_In & E). rewrite H in E; done.
Qed.

Lemma hasDup_obj ms :
  hasDuplicateMembers (DObj ms) = false ↔ NoDup ms.*1 ∧ ∀ k d, (k, d) ∈ ms → hasDuplicateMembers d = false.
Proof.
  cbn [hasDuplicateMembers]. rewrite orb_false_iff, negb_false_iff, bool_decide_eq_true. f_equiv.
  rewrite <- not_true_iff_false, existsb_exists. split.
  - intros H k d Hd. apply not_true_iff_false. intros E. apply H. exists (k, d). split; [by apply list_elem_of_In|done].
  - intros H ([k d] & Hd%list_elem_of_In & E). cbn in E. rewrite (H k d) in E; done.
Qed.

Lemma as_any_no_dup d : hasDuplicateMembers (as_any d) = false.
Proof.
  induction d as [| | | |l IH|ms IH] using doc_nested_ind; try done.
  - cbn [as_any]. apply hasDup_arr. intros d Hd. rewrite Forall_forall in IH.
    apply list_elem_of_In, in_map_iff in Hd as (x & <- & Hx). apply IH. by apply list_elem_of_In.
  - rewrite as_any_obj. apply hasDup_obj. split; [apply map_members_NoDup|]. intros k d Hd%elem_of_map_members.
    rewrite lookup_fmap in Hd. apply fmap_Some in Hd as (x & Hx%last_wins_elem & ->). rewrite Forall_forall in IH.
    exact (IH (k, x) Hx).
Qed.

(** ** Letter case *)

Definition lower_byte (c : Ascii.ascii) : Ascii.ascii :=
  if bool_decide (65 ≤ byte_of c ≤ 90) then ascii_of (byte_of c + 32) else c.

(** [strings.EqualFold] and the field lookup of [encoding/json], against a
    name of small ASCII letters.  Two runes beyond ASCII fold into it: the long
    s (U+017F) and the Kelvin sign (U+212A). *)
Fixpoint fold (s : string) : string :=
  match s with
  | EmptyString => EmptyString
  | String a s1 =>
      match s1 with
      | EmptyString => String (lower_byte a) EmptyString
      | String b s2 =>
          if bool_decide (byte_of a = 197 ∧ byte_of b = 191) then String "s" (fold s2)
          else match s2 with
               | EmptyString => String (lower_byte a) (fold s1)
               | String c s3 =>
                   if bool_decide (byte_of a = 226 ∧ byte_of b = 132 ∧ byte_of c = 170) then String "k" (fold s3)
                   else String (lower_byte a) (fold s1)
               end
      end
  end.

(** ** Decoding into Go variables *)

(** Decode over the value that is there; [None] is a type error. *)
Definition into (A : Type) : Type := A → doc → option A.

Definition into_string : into string := fun old d =>
  match d with DStr s => Some s | DNull => Some old | _ => None end.

Definition into_bool_ptr : into (option bool) := fun _ d =>
  match d with DBool b => Some (Some b) | DNull => Some None | _ => None end.

Definition into_string_ptr : into (option string) := fun _ d =>
  match d with DStr s => Some (Some s) | DNull => Some None | _ => None end.

(** A slice with what its backing array holds beyond its length. *)
Inductive slice (A : Type) :=
| SNil
| Slice (elems beyond : list A).
Arguments SNil {A}.
Arguments Slice {A} elems beyond.

Definition backing {A} (s : slice A) : list A :=
  match s with SNil => [] | Slice l b => (l ++ b)%list end.

(** The elements; [None] is the nil slice. *)
Definition contents {A} (s : slice A) : option (list A) :=
  match s with SNil => None | Slice l _ => Some l end.

Fixpoint over {A} (zero : A) (f : into A) (old : list A) (l : list doc) : option (list A) :=
  match l with
  | [] => Some []
  | d :: l => x ← f (default zero (head old)) d; xs ← over zero f (tail old) l; Some (x :: xs)
  end.

Definition into_slice {A} (zero : A) (f : into A) : into (slice A) := fun old d =>
  match d with
  | DNull => Some SNil
  | DArr [] => Some (Slice [] [])
  | DArr l => xs ← over zero f (backing old) l; Some (Slice xs (drop (length l) (backing old)))
  | _ => None
  end.

(** A type with its own [UnmarshalJSON] replaces what was there. *)
Definition fresh {A} (f : doc → option A) : into A := fun _ d => f d.

(** The documents an object has for a field, in the order they are decoded *)
Definition field_docs (name : string) (ms : members) : list doc :=
  omap (fun m => if bool_decide (fold (fst m) = name) then Some (snd m) else None) ms.

Definition into_all {A} (f : into A) (zero : A) (ds : list doc) : option A :=
  foldl (fun acc d => a ← acc; f a d) (Some zero) ds.

(** The members of a struct that is decoded from its zero value *)
Definition struct_members (d : doc) : option members :=
  match d with DNull => Some [] | DObj ms => Some ms | _ => None end.

Definition field {A} (f : into A) (zero : A) (name : string) (ms : members) : option A :=
  into_all f zero (field_docs name ms).
