(* ===== verification/JsonNumber.v ===== *)
(** * Number literals

    [strconv.Atoi] and [isIntegralNumber] of [pkg/openid4vp/dcql.go], which
    decides on the digits of a JSON number whether it denotes an integer.
    Lengths are [int]s, and [int] arithmetic wraps around. *)

From S2P Require Import Prelude GoStrings Utf8.

(** ** Digits *)

Definition is_digit (c : Ascii.ascii) : bool := bool_decide (48 ≤ byte_of c ≤ 57).
Definition digit (c : Ascii.ascii) : Z := byte_of c - 48.

Fixpoint all_digits (s : string) : bool :=
  match s with
  | EmptyString => true
  | String c s => is_digit c && all_digits s
  end.

Fixpoint digits_value (acc : Z) (s : string) : Z :=
  match s with
  | EmptyString => acc
  | String c s => digits_value (10 * acc + digit c) s
  end.

Definition len (s : string) : Z := Z.of_nat (String.length s).

(** [strconv.Atoi] *)
Definition Atoi (s : string) : option Z :=
  let '(neg, t) := match s with
                   | String "-" t => (true, t)
                   | String "+" t => (false, t)
                   | _ => (false, s)
                   end in
  if str_empty t || negb (all_digits t) then None
  else let v := if neg : bool then - digits_value 0 t else digits_value 0 t in
       if bool_decide (- 2 ^ 63 ≤ v < 2 ^ 63) then Some v else None.

(** ** Integral literals *)

(** [strings.IndexAny(s, "eE")], cut there *)
Fixpoint cut_exponent (s : string) : string * option string :=
  match s with
  | EmptyString => ("", None)
  | String c t =>
      if bool_decide (c = "e"%char ∨ c = "E"%char) then ("", Some t)
      else let '(m, e) := cut_exponent t in (String c m, e)
  end.

Definition trim_prefix (c : Ascii.ascii) (s : string) : string :=
  match s with String d t => if bool_decide (d = c) then t else s | _ => s end.

(** [strings.Trim(s, "0") == ""] *)
Fixpoint all_zeros (s : string) : bool :=
  match s with
  | EmptyString => true
  | String c s => bool_decide (c = "0"%char) && all_zeros s
  end.

(** [s[n:]], a panic out of range *)
Fixpoint slice_from (n : nat) (s : string) : option string :=
  match n, s with
  | O, s => Some s
  | S n, String _ s => slice_from n s
  | S _, EmptyString => None
  end.

Definition integral_digits (whole fraction : string) (exponent : Z) : option bool :=
  let digits := whole +:+ fraction in
  if str_empty digits then Some false
  else if negb (all_digits digits) then Some false
  else if all_zeros digits then Some true
  else if bool_decide (exponent ≤ wrap64 (len fraction - len digits)) then Some false
  else let shift := wrap64 (exponent - len fraction) in
       if bool_decide (0 ≤ shift) then Some true
       else let at_ := wrap64 (len digits + shift) in
            if bool_decide (at_ < 0) then None
            else all_zeros <$> slice_from (Z.to_nat at_) digits.

(** [isIntegralNumber]; [None] is the panic of a slice out of range. *)
Definition isIntegralNumber (literal : string) : option bool :=
  let '(mantissa, exp) := cut_exponent literal in
  match match exp with None => Some 0 | Some e => Atoi e end with
  | None => Some false
  | Some exponent =>
      let mantissa := trim_prefix "+" (trim_prefix "-" mantissa) in
      let '(whole, fraction) := default (mantissa, "") (Cut "." mantissa) in
      integral_digits whole fraction exponent
  end.

(** ** The integers among the literals *)

Lemma digit_range c : is_digit c = true → 0 ≤ digit c ≤ 9.
Proof. unfold is_digit, digit. rewrite bool_decide_eq_true. lia. Qed.

Lemma digit_zero c : is_digit c = true → digit c = 0 ↔ c = "0"%char.
Proof.
  unfold is_digit, digit. rewrite bool_decide_eq_true. intros H. split; [|by intros ->].
  intros E. assert (byte_of c = 48) as Hc by lia. unfold byte_of in Hc.
  rewrite <- (Ascii.ascii_N_embedding c). assert (Ascii.N_of_ascii c = 48%N) as -> by lia. reflexivity.
Qed.

Lemma len_nonneg s : 0 ≤ len s.
Proof. unfold len. lia. Qed.

Lemma len_app s t : len (s +:+ t) = len s + len t.
Proof.
  unfold len. rewrite <- Nat2Z.inj_add. f_equal. induction s as [|c s IH]; [done|]. rewrite append_cons. cbn. by rewrite IH.
Qed.

Lemma len_cons c s : len (String c s) = len s + 1.
Proof. unfold len. cbn [String.length]. lia. Qed.

Lemma all_digits_app s t : all_digits (s +:+ t) = all_digits s && all_digits t.
Proof.
  induction s as [|c s IH]; [done|]. rewrite append_cons. cbn [all_digits]. by rewrite IH, andb_assoc.
Qed.

Lemma digits_value_acc s acc : digits_value acc s = acc * 10 ^ len s + digits_value 0 s.
Proof.
  revert acc. induction s as [|c s IH]; intros acc; [unfold len; cbn; lia|]. cbn [digits_value].
  rewrite IH, (IH (10 * 0 + _)), len_cons. rewrite Z.pow_add_r by (pose proof (len_nonneg s); lia). ring.
Qed.

Lemma digits_value_app s t : digits_value 0 (s +:+ t) = digits_value 0 s * 10 ^ len t + digits_value 0 t.
Proof.
  rewrite <- digits_value_acc. generalize 0. induction s as [|c s IH]; intros acc; [done|]. rewrite append_cons. cbn. apply IH.
Qed.

Lemma digits_value_range s : all_digits s = true → 0 ≤ digits_value 0 s < 10 ^ len s.
Proof.
  induction s as [|c s IH]; [unfold len; cbn; lia|]. cbn [all_digits digits_value]. intros [Hc%digit_range Hs%IH]%andb_true_iff.
  rewrite digits_value_acc, len_cons, Z.pow_add_r by (pose proof (len_nonneg s); lia).
  replace (10 * 0 + digit c) with (digit c) by lia. nia.
Qed.

Lemma all_zeros_value s : all_digits s = true → all_zeros s = true ↔ digits_value 0 s = 0.
Proof.
  induction s as [|c s IH]; [done|]. cbn [all_digits all_zeros digits_value]. intros [Hc Hs]%andb_true_iff.
  rewrite digits_value_acc, andb_true_iff, bool_decide_eq_true, (IH Hs), <- (digit_zero c Hc).
  pose proof (digits_value_range s Hs). pose proof (digit_range c Hc). pose proof (Z.pow_pos_nonneg 10 (len s)).
  pose proof (len_nonneg s). nia.
Qed.

(** Cutting a text of digits behind its first [n] *)
Lemma slice_from_spec n s :
  (n ≤ String.length s)%nat → ∃ a b, s = a +:+ b ∧ String.length a = n ∧ slice_from n s = Some b.
Proof.
  revert s. induction n as [|n IH]; intros s Hn; [by exists "", s|]. destruct s as [|c s]; cbn in Hn; [lia|].
  destruct (IH s) as (a & b & -> & Ha & E); [lia|]. exists (String c a), b. rewrite append_cons. cbn. by rewrite Ha.
Qed.

Lemma pow10_divide a b d : 0 ≤ a → 0 ≤ b →
  (10 ^ a | d * 10 ^ b) ↔ a ≤ b ∨ (10 ^ (a - b) | d).
Proof.
  intros Ha Hb. assert (0 < 10 ^ b) by (apply Z.pow_pos_nonneg; lia). destruct (Z.le_gt_cases a b) as [Hab|Hab].
  - split; [auto|]. intros _. replace b with (a + (b - a)) by lia. rewrite Z.pow_add_r by lia.
    exists (d * 10 ^ (b - a)). ring.
  - replace (10 ^ a) with (10 ^ (a - b) * 10 ^ b) by (rewrite <- Z.pow_add_r by lia; f_equal; lia).
    rewrite Z.mul_divide_cancel_r by lia. split; [auto|]. intros [?|?]; [lia|done].
Qed.

(** [digits * 10 ^ (exponent - length of the fraction)] is an integer. *)
Definition denotes_integer (whole fraction : string) (exponent : Z) : Prop :=
  (10 ^ (len fraction + Z.max 0 (- exponent)) | digits_value 0 (whole +:+ fraction) * 10 ^ Z.max 0 exponent).

Lemma denotes_integer_shift whole fraction exponent :
  denotes_integer whole fraction exponent ↔
  0 ≤ exponent - len fraction ∨ (10 ^ (len fraction - exponent) | digits_value 0 (whole +:+ fraction)).
Proof.
  unfold denotes_integer. pose proof (len_nonneg fraction). rewrite pow10_divide by lia.
  replace (len fraction + Z.max 0 (- exponent) - Z.max 0 exponent) with (len fraction - exponent) by lia.
  split; (intros [?|?]; [left; lia|by right]).
Qed.

Lemma integral_digits_spec whole fraction exponent :
  len (whole +:+ fraction) < 2 ^ 63 → - 2 ^ 63 ≤ exponent < 2 ^ 63 → whole ≠ "" →
  all_digits (whole +:+ fraction) = true →
  ∃ b, integral_digits whole fraction exponent = Some b ∧ (b = true ↔ denotes_integer whole fraction exponent).
Proof.
  intros Hlen Hexp Hw Hd. setoid_rewrite denotes_integer_shift. unfold integral_digits. set (ds := whole +:+ fraction) in *.
  assert (len ds = len whole + len fraction) as Hl by apply len_app.
  pose proof (len_nonneg whole). pose proof (len_nonneg fraction).
  assert (0 < len whole) by (destruct whole; [done|rewrite len_cons; pose proof (len_nonneg whole); lia]).
  rewrite (proj2 (str_empty_false ds)) by (intros E; rewrite E in Hl; unfold len in Hl at 1; cbn in Hl; lia).
  rewrite Hd. cbn [negb]. pose proof (digits_value_range ds Hd) as Hr.
  destruct (all_zeros ds) eqn:Hz.
  { apply (all_zeros_value ds Hd) in Hz. eexists. split; [done|]. split; [|done]. intros _. right. rewrite Hz. apply Z.divide_0_r. }
  assert (digits_value 0 ds ≠ 0) as Hnz by (intros E%(all_zeros_value ds Hd); congruence).
  rewrite wrap64_id by (unfold in_int64; lia). case_bool_decide as Hc1.
  { eexists. split; [done|]. split; [done|]. intros [?|Hdiv]; [lia|].
    apply Z.divide_pos_le in Hdiv; [|lia]. pose proof (Z.pow_le_mono_r 10 (len ds) (len fraction - exponent)). lia. }
  rewrite wrap64_id by (unfold in_int64; lia). case_bool_decide as Hc2; [eexists; split; [done|]; naive_solver|].
  rewrite wrap64_id by (unfold in_int64; lia). rewrite bool_decide_eq_false_2 by lia.
  destruct (slice_from_spec (Z.to_nat (len ds + (exponent - len fraction))) ds) as (a & b & Eds & Ha & ->); [unfold len in *; lia|].
  eexists. split; [done|]. rewrite Eds in Hd. rewrite all_digits_app in Hd. apply andb_true_iff in Hd as [Hda Hdb].
  assert (len b = len fraction - exponent) as Hb.
  { assert (len a = len ds + (exponent - len fraction)) by (unfold len at 1; rewrite Ha; lia).
    assert (len ds = len a + len b) by (rewrite Eds; apply len_app). lia. }
  rewrite (all_zeros_value b Hdb), Eds, digits_value_app, <- Hb. pose proof (digits_value_range b Hdb).
  split; [intros ->; right; exists (digits_value 0 a); ring|]. intros [?|Hdiv]; [lia|].
  apply Z.divide_add_cancel_r in Hdiv; [|apply Z.divide_factor_r]. destruct (Z.eq_dec (digits_value 0 b) 0) as [|Hb0]; [done|].
  apply Z.divide_pos_le in Hdiv; lia.
Qed.

(** The digits before and behind the point *)
Definition mantissa (whole : string) (fraction : option string) : string :=
  whole +:+ match fraction with Some f => String "." f | None => "" end.

(** A JSON number: a sign, digits, a fraction and an exponent. *)
Definition number_text (neg : bool) (whole : string) (fraction : option string) (exp : option (Ascii.ascii * string)) :
    string :=
  (if neg then "-" else "") +:+ mantissa whole fraction +:+
  match exp with Some (c, t) => String c t | None => "" end.

Definition is_number (whole : string) (fraction : option string) (exp : option (Ascii.ascii * string)) : Prop :=
  whole ≠ "" ∧ all_digits whole = true ∧ all_digits (default "" fraction) = true ∧
  match exp with Some (c, _) => c = "e"%char ∨ c = "E"%char | None => True end.

(** A byte that is neither a digit nor starts an exponent. *)
Definition plain_byte (c : Ascii.ascii) : Prop := c ≠ "e"%char ∧ c ≠ "E"%char.

Lemma digit_not c d : is_digit c = true → is_digit d = false → c ≠ d.
Proof. intros Hc Hd ->. congruence. Qed.

Lemma cut_exponent_app s t :
  Forall plain_byte (String.list_ascii_of_string s) →
  cut_exponent (s +:+ t) = let '(m, e) := cut_exponent t in (s +:+ m, e).
Proof.
  induction s as [|c s IH]; cbn [String.list_ascii_of_string].
  - intros _. change ("" +:+ t) with t. by destruct (cut_exponent t).
  - intros [[H1 H2] Hs]%Forall_cons. rewrite append_cons. cbn [cut_exponent]. rewrite bool_decide_eq_false_2 by naive_solver.
    rewrite (IH Hs). by destruct (cut_exponent t).
Qed.

Lemma digits_plain s : all_digits s = true → Forall plain_byte (String.list_ascii_of_string s).
Proof.
  induction s as [|c s IH]; [constructor|]. cbn. intros [Hc Hs]%andb_true_iff. constructor; [|auto].
  split; (apply (digit_not c _ Hc); reflexivity).
Qed.

Lemma digits_no_byte d s : is_digit d = false → all_digits s = true → has_byte d s = false.
Proof.
  intros Hd. induction s as [|c s IH]; [done|]. cbn. intros [Hc Hs]%andb_true_iff.
  by rewrite (IH Hs), bool_decide_eq_false_2 by exact (digit_not c _ Hc Hd).
Qed.

Lemma list_ascii_app s t :
  String.list_ascii_of_string (s +:+ t) = (String.list_ascii_of_string s ++ String.list_ascii_of_string t)%list.
Proof. induction s as [|c s IH]; [done|]. rewrite append_cons. cbn. by rewrite IH. Qed.

Lemma mantissa_plain whole fraction :
  all_digits whole = true → all_digits (default "" fraction) = true →
  Forall plain_byte (String.list_ascii_of_string (mantissa whole fraction)).
Proof.
  intros Hw Hf. unfold mantissa. rewrite list_ascii_app. apply Forall_app. split; [by apply digits_plain|].
  destruct fraction; cbn; [|constructor]. constructor; [done|]. by apply digits_plain.
Qed.

Lemma Cut_mantissa whole fraction :
  all_digits whole = true →
  default (mantissa whole fraction, "") (Cut "." (mantissa whole fraction)) = (whole, default "" fraction).
Proof.
  intros Hw. assert (has_byte "." whole = false) as Hn by (by apply digits_no_byte). unfold mantissa. destruct fraction as [f|].
  - by rewrite Cut_app.
  - by rewrite append_empty_r, Cut_None.
Qed.

Lemma trim_sign neg whole t :
  whole ≠ "" → all_digits whole = true →
  trim_prefix "+" (trim_prefix "-" ((if neg : bool then "-" else "") +:+ whole +:+ t)) = whole +:+ t.
Proof.
  intros Hw Hd. destruct whole as [|c s]; [done|]. cbn in Hd. apply andb_true_iff in Hd as [Hc _].
  assert (trim_prefix "+" (String c s +:+ t) = String c s +:+ t) as Hp.
  { rewrite append_cons. cbn. by rewrite bool_decide_eq_false_2 by (apply (digit_not c _ Hc); reflexivity). }
  destruct neg; [exact Hp|]. change ("" +:+ String c s +:+ t) with (String c s +:+ t).
  assert (trim_prefix "-" (String c s +:+ t) = String c s +:+ t) as ->; [|exact Hp].
  rewrite append_cons. cbn. by rewrite bool_decide_eq_false_2 by (apply (digit_not c _ Hc); reflexivity).
Qed.

(** C36: The validator decides a JSON number by its value: [isIntegralNumber]
    accepts a literal exactly when [digits * 10 ^ (exponent - fraction)] is an
    integer, however it is spelled, and its [int] arithmetic neither wraps
    around nor cuts out of range, for any exponent an [int] can hold.  A literal
    whose exponent does not fit an [int] is refused. *)
Theorem isIntegralNumber_spec neg whole fraction exp :
  is_number whole fraction exp → len (number_text neg whole fraction exp) < 2 ^ 63 →
  match match exp with None => Some 0 | Some (_, t) => Atoi t end with
  | None => isIntegralNumber (number_text neg whole fraction exp) = Some false
  | Some x =>
      ∃ b, isIntegralNumber (number_text neg whole fraction exp) = Some b ∧
           (b = true ↔ denotes_integer whole (default "" fraction) x)
  end.
Proof.
  intros (Hw & Hdw & Hdf & He) Hlen. unfold isIntegralNumber, number_text in *.
  rewrite <- append_assoc_str, cut_exponent_app by (rewrite list_ascii_app; apply Forall_app; split;
    [destruct neg; repeat constructor; done|by apply mantissa_plain]).
  assert (cut_exponent match exp with Some (c, t) => String c t | None => "" end = ("", snd <$> exp)) as ->.
  { destruct exp as [[c t]|]; [|done]. cbn. by rewrite bool_decide_eq_true_2. }
  replace (match snd <$> exp with None => Some 0 | Some e => Atoi e end)
    with (match exp with None => Some 0 | Some (_, t) => Atoi t end) by (by destruct exp as [[]|]).
  destruct (match exp with None => Some 0 | Some (_, t) => Atoi t end) as [x|] eqn:Ex; [|done].
  rewrite append_empty_r. unfold mantissa at 1 2. rewrite trim_sign by done. fold (mantissa whole fraction).
  rewrite Cut_mantissa by done. apply integral_digits_spec; [| |done|by rewrite all_digits_app, Hdw].
  - rewrite len_app in Hlen. rewrite len_app in Hlen. unfold mantissa in Hlen. rewrite len_app in Hlen.
    destruct fraction as [f|]; rewrite len_app, ?len_cons in *; cbn [default] in *;
      pose proof (len_nonneg (if neg then "-" else "")); pose proof (len_nonneg (match exp with Some (c, t) => String c t | None => "" end));
      unfold len in *; cbn in *; lia.
  - destruct exp as [[c t]|]; [|by injection Ex as <-]. unfold Atoi in Ex.
    destruct (match t with String "-" _ => _ | _ => _ end) as [n u]. destruct (_ || _); [done|].
    case_bool_decide; [|done]. by injection Ex as <-.
Qed.
