(* ===== verification/Dcql.v ===== *)
(** * The credential query language

    [pkg/openid4vp/dcql.go] and what it uses of [dcql_zk.go] and [zkp_req.go]:
    the queries a verifier sends, their JSON form in both directions, the raw
    queries that are sent as they came, and the validation that a query
    constrains what it asks for.

    A [json.RawMessage] of the program is a document, or a text that is no JSON.
    A slice that [omitempty] drops is a list, the nil slice and the empty one
    alike; where the encoding tells them apart it is an [option].  A nil map is an
    empty one.  A map of
    [any] holds documents as [as_any] makes them.  YAML is not modelled. *)

From Stdlib Require Import SpecFloat.
From stdpp Require Import sorting pretty.
From S2P Require Import Prelude GoStrings Utf8 GoValue Json JsonDoc JsonNumber.

(** ** Data *)

Record ZKSystemTypeSpec := mkZKSystemTypeSpec {
  zk_ID : string;
  zk_System : string;
  zk_Params : gmap string string }.

Record MetaQuery := mkMetaQuery {
  VCTValues : list string;
  TypeValues : list (option (list string));
  DoctypeValue : string;
  SchemaIDValue : string;
  SourceFormat : string;
  ZKSystemType : list ZKSystemTypeSpec;
  PPIDContext : string }.

Record TrustedAuthority := mkTrustedAuthority { ta_Type : string; ta_Values : option (list string) }.

(** An element of [Values []any], by its dynamic type *)
Inductive claim_value :=
| CStr (s : string)
| CBool (b : bool)
| CInt (z : Z)
| CNumber (literal : string)
| CFloat (f : spec_float)
| COther (d : doc).

Record ClaimQuery := mkClaimQuery {
  cq_ID : string;
  cq_Path : list (option string);
  cq_Values : option (list claim_value) }.

Record ReqItem := mkReqItem {
  FnID : string;
  Return : string;
  Params : gmap string doc;
  req_Extra : gmap string doc }.

Inductive RawMessage :=
| RawDoc (d : doc)
| RawBytes (invalid : string).

Record CredentialQuery := mkCredentialQuery {
  ID : string;
  Format : string;
  Multiple : option bool;
  Meta : MetaQuery;
  TrustedAuthorities : list TrustedAuthority;
  RequireCryptographicHolderBinding : option bool;
  Claims : list ClaimQuery;
  ClaimSet : list (option (list string));
  Req : list ReqItem;
  Extra : gmap string doc;
  Raw : option RawMessage }.

Record CredentialSetQuery := mkCredentialSetQuery {
  Options : option (list (option (list string)));
  Required : option bool }.

Record DCQL := mkDCQL {
  Credentials : option (list CredentialQuery);
  CredentialSets : list CredentialSetQuery }.

Definition zero_meta : MetaQuery := mkMetaQuery [] [] "" "" "" [] "".
Definition zero_query : CredentialQuery := mkCredentialQuery "" "" None zero_meta [] None [] [] [] ∅ None.

Inductive dcql_error :=
| Ambiguous (names : list string)
| Aliased (names : list string)
| NotJSON
| RawAndExtra
| DuplicateMembers
| WrongType
| ExtraCollides (name : string)
| BadClaim
| Invalid (field : string).

(** ** Members the constraint depends on *)

Fixpoint Compact (l : list string) : list string :=
  match l with
  | x :: (y :: _) as t => if bool_decide (x = y) then Compact t else x :: Compact t
  | _ => l
  end.

Definition str_le (a b : string) : Prop := String.leb a b = true.
#[global] Instance str_le_dec : RelDecision str_le.
Proof. intros a b. unfold str_le. apply _. Defined.

(** [slices.Sort] and [slices.Compact] *)
Definition sorted_names (l : list string) : list string := Compact (merge_sort str_le l).

(** the names an object has more than once, and [want] among them *)
Definition repeated (counts : gmap string nat) (name : string) : bool :=
  bool_decide (1 < default 0%nat (counts !! name))%nat.

Definition nested_meta (data : doc) : option doc := m ← as_map data; m !! "meta".

Definition ambiguousConstraintMembers (data : doc) : list string :=
  match topLevelMemberNames data with
  | None => []
  | Some counts =>
      sorted_names
        (List.filter (repeated counts) ["format"; "meta"] ++
         match nested_meta data ≫= topLevelMemberNames with
         | None => []
         | Some inner => map (fun name => "meta." +:+ name) (List.filter (repeated inner) (map fst (map_to_list inner)))
         end)
  end.

(** the members of [document] that match one of [modelled] in another case *)
Definition aliases (prefix : string) (document : doc) (modelled : list string) : list string :=
  match topLevelMemberNames document with
  | None => []
  | Some counts =>
      name ← map fst (map_to_list counts);
      want ← modelled;
      if bool_decide (name ≠ want ∧ fold name = want) then [prefix +:+ name] else []
  end.

Definition constraint_members : list string := ["format"; "meta"; "claims"].
Definition meta_constraint_members : list string :=
  ["vct_values"; "doctype_value"; "type_values"; "schema_id_value"; "source_format"].

Definition aliasedConstraintMembers (data : doc) : list string :=
  sorted_names
    (aliases "" data constraint_members ++
     match nested_meta data with
     | Some nested => aliases "meta." nested meta_constraint_members
     | None => []
     end).

Definition checkRawConstraints (raw : doc) : result dcql_error unit :=
  match ambiguousConstraintMembers raw with
  | (_ :: _) as names => Err (Ambiguous names)
  | [] =>
      match aliasedConstraintMembers raw with
      | (_ :: _) as names => Err (Aliased names)
      | [] => Ok tt
      end
  end.

(** ** Claims *)

Definition validateClaimPath (path : list (option string)) : bool :=
  negb (bool_decide (path = [])) && forallb (fun p => negb (bool_decide (p = Some ""))) path.

Definition maxSafeInt : Z := 2 ^ 53 - 1.

Definition checkIntegralFloat (f : spec_float) : bool :=
  match float_value f with
  | Some z => bool_decide (- maxSafeInt ≤ z ≤ maxSafeInt)
  | None => false
  end.

Definition valid_claim_value (v : claim_value) : bool :=
  match v with
  | CStr _ | CBool _ | CInt _ => true
  | CNumber literal => bool_decide (isIntegralNumber literal = Some true)
  | CFloat f => checkIntegralFloat f
  | COther _ => false
  end.

Definition validateClaimValues (values : list claim_value) (present : bool) : bool :=
  negb present || (negb (bool_decide (length values = 0%nat)) && forallb valid_claim_value values).

(** ** Decoding *)

(** [splitMembers]: the known members, and the others as values *)
Definition splitMembers (data : doc) (known : list string) :
    result dcql_error (gmap string doc * gmap string doc) :=
  if hasDuplicateMembers data then Err DuplicateMembers
  else match as_map data with
       | None => Err WrongType
       | Some all =>
           Ok (filter (fun m => m.1 ∈ known) all, as_any <$> filter (fun m => m.1 ∉ known) all)
       end.

(** A member of the known object, which names each exactly once *)
Definition known_field {A} (dec : doc → option A) (zero : A) (name : string) (m : gmap string doc) : option A :=
  match m !! name with None => Some zero | Some d => dec d end.

Definition dec_string : doc → option string := into_string "".
Definition dec_bool_ptr : doc → option (option bool) := into_bool_ptr None.

Definition dec_list {A} (dec : doc → option A) (d : doc) : option (list A) :=
  match d with DNull => Some [] | DArr l => mapM dec l | _ => None end.

Definition into_strings : into (slice string) := into_slice "" into_string.
Definition into_string_lists : into (slice (slice string)) := into_slice SNil into_strings.

Definition string_lists (s : slice (slice string)) : option (list (option (list string))) :=
  map contents <$> contents s.

(** [map[string]any] *)
Definition dec_any_map (d : doc) : option (gmap string doc) :=
  match as_map d with Some m => Some (as_any <$> m) | None => None end.

Definition dec_TrustedAuthority (d : doc) : option TrustedAuthority :=
  ms ← struct_members d;
  type ← field into_string "" "type" ms;
  values ← field into_strings SNil "values" ms;
  Some (mkTrustedAuthority type (contents values)).

Definition value_of (d : doc) : claim_value :=
  match d with
  | DStr s => CStr s
  | DBool b => CBool b
  | DNum l => CNumber l
  | d => COther (as_any d)
  end.

(** [ClaimQuery.UnmarshalJSON] *)
Definition dec_ClaimQuery (d : doc) : option ClaimQuery :=
  ms ← struct_members d;
  id ← field into_string "" "id" ms;
  path ← field (into_slice None into_string_ptr) SNil "path" ms;
  let path := default [] (contents path) in
  if negb (validateClaimPath path) then None
  else match last (field_docs "values" ms) with
       | None => Some (mkClaimQuery id path None)
       | Some (DArr l) =>
           let values := map value_of l in
           if validateClaimValues values true then Some (mkClaimQuery id path (Some values)) else None
       | Some _ => None
       end.

Definition reqitem_members : list string := ["fn_id"; "return"; "params"].

(** [ReqItem.UnmarshalJSON] *)
Definition dec_ReqItem (d : doc) : option ReqItem :=
  match splitMembers d reqitem_members with
  | Err _ => None
  | Ok (known, extra) =>
      fn ← known_field dec_string "" "fn_id" known;
      ret ← known_field dec_string "" "return" known;
      params ← known_field dec_any_map ∅ "params" known;
      Some (mkReqItem fn ret params extra)
  end.

(** The text of an array or an object, as it stood in the document *)
Class RawText := { raw_text : doc → string }.

Section codec.
Context `{RawText}.

Definition param_text (d : doc) : string :=
  match d with
  | DStr s => s
  | DNull => ""
  | DBool true => "true"
  | DBool false => "false"
  | DNum l => l
  | d => raw_text d
  end.

(** [ZKSystemTypeSpec.UnmarshalJSON] *)
Definition dec_ZKSystemTypeSpec (d : doc) : option ZKSystemTypeSpec :=
  m ← as_map d;
  id ← (m !! "id") ≫= dec_string;
  system ← (m !! "system") ≫= dec_string;
  Some (mkZKSystemTypeSpec id system (param_text <$> delete "id" (delete "system" m))).

Definition dec_MetaQuery (d : doc) : option MetaQuery :=
  ms ← struct_members d;
  vct ← field into_strings SNil "vct_values" ms;
  types ← field into_string_lists SNil "type_values" ms;
  doctype ← field into_string "" "doctype_value" ms;
  schema ← field into_string "" "schema_id_value" ms;
  source ← field into_string "" "source_format" ms;
  zk ← field (into_slice (mkZKSystemTypeSpec "" "" ∅) (fresh dec_ZKSystemTypeSpec)) SNil "zk_system_type" ms;
  ppid ← field into_string "" "ppid_context" ms;
  Some (mkMetaQuery (default [] (contents vct)) (default [] (string_lists types)) doctype schema source
          (default [] (contents zk)) ppid).

Definition dec_claim_sets (d : doc) : option (list (option (list string))) :=
  default [] ∘ string_lists <$> into_string_lists SNil d.

Definition query_members : list string :=
  ["id"; "format"; "multiple"; "meta"; "trusted_authorities";
   "require_cryptographic_holder_binding"; "claims"; "claim_sets"; "_req"].

(** [decodeExact(knownObject, &known)] *)
Definition decode_known (m : gmap string doc) : option CredentialQuery :=
  id ← known_field dec_string "" "id" m;
  format ← known_field dec_string "" "format" m;
  multiple ← known_field dec_bool_ptr None "multiple" m;
  meta ← known_field dec_MetaQuery zero_meta "meta" m;
  trusted ← known_field (dec_list dec_TrustedAuthority) [] "trusted_authorities" m;
  binding ← known_field dec_bool_ptr None "require_cryptographic_holder_binding" m;
  claims ← known_field (dec_list dec_ClaimQuery) [] "claims" m;
  sets ← known_field dec_claim_sets [] "claim_sets" m;
  req ← known_field (dec_list dec_ReqItem) [] "_req" m;
  Some (mkCredentialQuery id format multiple meta trusted binding claims sets req ∅ None).

(** ** The shadow of a raw query *)

Inductive kind := KString | KBool | KStruct | KSlice.

Definition jsonKindMatches (target : kind) (d : doc) : bool :=
  match target, d with
  | _, DNull => true
  | KString, DStr _ | KBool, DBool _ | KStruct, DObj _ | KSlice, DArr _ => true
  | _, _ => false
  end.

Definition openItemMembers : list string := ["_req"].

(** One field: its value, and whether it is unreadable and invalid *)
Definition shadow_field {A} (dec : doc → option A) (zero : A) (k : kind) (name : string) (m : gmap string doc) :
    A * list string * list string :=
  match m !! name with
  | None => (zero, [], [])
  | Some d =>
      match dec d with
      | Some a => (a, [], [])
      | None =>
          (zero, [name], if jsonKindMatches k d && negb (bool_decide (name ∈ openItemMembers)) then [name] else [])
      end
  end.

Definition sort_names (l : list string) : list string := merge_sort str_le l.

(** [adoptRawShadowReporting] of a query that has only [Raw] *)
Definition adoptRawShadowReporting (raw : doc) : CredentialQuery * list string * list string :=
  match as_map raw with
  | None => (mkCredentialQuery "" "" None zero_meta [] None [] [] [] ∅ (Some (RawDoc raw)), [], [])
  | Some m =>
      let '(id, u1, i1) := shadow_field dec_string "" KString "id" m in
      let '(format, u2, i2) := shadow_field dec_string "" KString "format" m in
      let '(multiple, u3, i3) := shadow_field dec_bool_ptr None KBool "multiple" m in
      let '(meta, u4, i4) := shadow_field dec_MetaQuery zero_meta KStruct "meta" m in
      let '(trusted, u5, i5) := shadow_field (dec_list dec_TrustedAuthority) [] KSlice "trusted_authorities" m in
      let '(binding, u6, i6) := shadow_field dec_bool_ptr None KBool "require_cryptographic_holder_binding" m in
      let '(claims, u7, i7) := shadow_field (dec_list dec_ClaimQuery) [] KSlice "claims" m in
      let '(sets, u8, i8) := shadow_field dec_claim_sets [] KSlice "claim_sets" m in
      let '(req, u9, i9) := shadow_field (dec_list dec_ReqItem) [] KSlice "_req" m in
      (mkCredentialQuery id format multiple meta trusted binding claims sets req ∅ (Some (RawDoc raw)),
       sort_names (u1 ++ u2 ++ u3 ++ u4 ++ u5 ++ u6 ++ u7 ++ u8 ++ u9),
       sort_names (i1 ++ i2 ++ i3 ++ i4 ++ i5 ++ i6 ++ i7 ++ i8 ++ i9))
  end.

Definition adoptRawShadow (raw : doc) : CredentialQuery * list string := (adoptRawShadowReporting raw).1.

(** [NewRawCredentialQuery] *)
Definition NewRawCredentialQuery (raw : RawMessage) : result dcql_error CredentialQuery :=
  match raw with
  | RawBytes _ => Err NotJSON
  | RawDoc d => _ ← checkRawConstraints d; Ok (adoptRawShadow d).1
  end.

(** ** Encoding *)

(** A field with [omitempty] *)
Definition omitempty (name : string) (empty : bool) (d : doc) : members := if empty then [] else [(name, d)].

Definition enc_strings (l : option (list string)) : doc :=
  match l with None => DNull | Some l => DArr (map DStr l) end.

Definition enc_bool_ptr (name : string) (b : option bool) : members :=
  match b with None => [] | Some b => [(name, DBool b)] end.

Definition is_nil {A} (l : list A) : bool := match l with [] => true | _ => false end.

(** [ZKSystemTypeSpec.MarshalJSON] *)
Definition enc_ZKSystemTypeSpec (z : ZKSystemTypeSpec) : doc :=
  DObj (map_members (<["system" := DStr (zk_System z)]> (<["id" := DStr (zk_ID z)]> (DStr <$> zk_Params z)))).

Definition enc_MetaQuery (m : MetaQuery) : doc :=
  DObj (omitempty "vct_values" (is_nil (VCTValues m)) (DArr (map DStr (VCTValues m))) ++
        omitempty "type_values" (is_nil (TypeValues m)) (DArr (map enc_strings (TypeValues m))) ++
        omitempty "doctype_value" (str_empty (DoctypeValue m)) (DStr (DoctypeValue m)) ++
        omitempty "schema_id_value" (str_empty (SchemaIDValue m)) (DStr (SchemaIDValue m)) ++
        omitempty "source_format" (str_empty (SourceFormat m)) (DStr (SourceFormat m)) ++
        omitempty "zk_system_type" (is_nil (ZKSystemType m)) (DArr (map enc_ZKSystemTypeSpec (ZKSystemType m))) ++
        omitempty "ppid_context" (str_empty (PPIDContext m)) (DStr (PPIDContext m))).

Definition enc_TrustedAuthority (t : TrustedAuthority) : doc :=
  DObj [("type", DStr (ta_Type t)); ("values", enc_strings (ta_Values t))].

(** The text of an integral float64 below 2^53 *)
Definition float_text (f : spec_float) : string :=
  match f, float_value f with
  | S754_zero true, _ => "-0"
  | _, Some z => pretty z
  | _, None => ""
  end.

Definition enc_value (v : claim_value) : doc :=
  match v with
  | CStr s => DStr s
  | CBool b => DBool b
  | CInt z => DNum (pretty z)
  | CNumber l => DNum l
  | CFloat f => DNum (float_text f)
  | COther d => d
  end.

Definition enc_path (path : list (option string)) : doc :=
  DArr (map (fun p => match p with Some s => DStr s | None => DNull end) path).

(** [ClaimQuery.MarshalJSON] *)
Definition enc_ClaimQuery (c : ClaimQuery) : result dcql_error doc :=
  if negb (validateClaimPath (cq_Path c)) then Err BadClaim
  else match cq_Values c with
       | Some l => if negb (validateClaimValues l true) then Err BadClaim else Ok tt
       | None => Ok tt
       end ≫= fun _ =>
  let values := default [] (cq_Values c) in
  Ok (DObj (omitempty "id" (str_empty (cq_ID c)) (DStr (cq_ID c)) ++
            [("path", enc_path (cq_Path c))] ++
            omitempty "values" (is_nil values) (DArr (map enc_value values)))).

(** [marshalWithExtra]: the names of the struct are reserved *)
Definition marshalWithExtra (known : members) (reserved : list string) (extra : gmap string doc) :
    result dcql_error doc :=
  if bool_decide (extra = ∅) then Ok (DObj known)
  else
    let merged := last_wins known in
    match List.filter (fun m => bool_decide (fst m ∈ reserved) || bool_decide (is_Some (merged !! fst m))) (map_members extra) with
    | (name, _) :: _ => Err (ExtraCollides name)
    | [] => Ok (DObj (map_members ((as_any <$> extra) ∪ merged)))
    end.

(** [ReqItem.MarshalJSON] *)
Definition enc_ReqItem (r : ReqItem) : result dcql_error doc :=
  marshalWithExtra
    ([("fn_id", DStr (FnID r)); ("return", DStr (Return r))] ++
     omitempty "params" (bool_decide (Params r = ∅)) (DObj (map_members (as_any <$> Params r))))
    reqitem_members (req_Extra r).

Definition enc_all {A} (enc : A → result dcql_error doc) (l : list A) : result dcql_error (list doc) :=
  foldr (fun x acc => d ← enc x; ds ← acc; Ok (d :: ds)) (Ok []) l.

(** [json.Marshal(plain(q))] *)
Definition encode_known (q : CredentialQuery) : result dcql_error members :=
  claims ← enc_all enc_ClaimQuery (Claims q);
  req ← enc_all enc_ReqItem (Req q);
  Ok ([("id", DStr (ID q)); ("format", DStr (Format q))] ++
      enc_bool_ptr "multiple" (Multiple q) ++
      [("meta", enc_MetaQuery (Meta q))] ++
      omitempty "trusted_authorities" (is_nil (TrustedAuthorities q)) (DArr (map enc_TrustedAuthority (TrustedAuthorities q))) ++
      enc_bool_ptr "require_cryptographic_holder_binding" (RequireCryptographicHolderBinding q) ++
      omitempty "claims" (is_nil (Claims q)) (DArr claims) ++
      omitempty "claim_sets" (is_nil (ClaimSet q)) (DArr (map enc_strings (ClaimSet q))) ++
      omitempty "_req" (is_nil (Req q)) (DArr req))%list.

(** [CredentialQuery.MarshalJSON] *)
Definition MarshalJSON (q : CredentialQuery) : result dcql_error doc :=
  match Raw q with
  | Some raw =>
      if negb (bool_decide (Extra q = ∅)) then Err RawAndExtra
      else match raw with RawDoc d => Ok d | RawBytes _ => Err NotJSON end
  | None =>
      known ← encode_known q;
      marshalWithExtra known query_members (Extra q)
  end.

(** [encodesBackTo] *)
Definition encodesBackTo (q : CredentialQuery) (data : doc) : bool :=
  match MarshalJSON q with
  | Ok e => jsonEquivalent data e
  | Err _ => false
  end.

Definition with_extra (q : CredentialQuery) (extra : gmap string doc) : CredentialQuery :=
  mkCredentialQuery (ID q) (Format q) (Multiple q) (Meta q) (TrustedAuthorities q)
    (RequireCryptographicHolderBinding q) (Claims q) (ClaimSet q) (Req q) extra (Raw q).

Definition typed_decode (data : doc) : result dcql_error CredentialQuery :=
  split ← splitMembers data query_members;
  match decode_known split.1 with
  | Some q => Ok (with_extra q split.2)
  | None => Err WrongType
  end.

(** [CredentialQuery.UnmarshalJSON] *)
Definition UnmarshalJSON (data : doc) : result dcql_error CredentialQuery :=
  match typed_decode data with
  | Err err =>
      _ ← checkRawConstraints data;
      let '(fallback, _, invalid) := adoptRawShadowReporting data in
      match invalid with
      | _ :: _ => Err err
      | [] => Ok fallback
      end
  | Ok q =>
      match ambiguousConstraintMembers data with
      | (_ :: _) as names => Err (Ambiguous names)
      | [] =>
          if hasDuplicateMembers data || negb (encodesBackTo q data) then
            _ ← checkRawConstraints data;
            Ok (adoptRawShadow data).1
          else Ok q
      end
  end.

(** ** A whole query *)

Definition into_set : into (slice (slice string) * option bool) := fun old d =>
  match d with
  | DNull => Some old
  | DObj ms =>
      options ← into_all into_string_lists old.1 (field_docs "options" ms);
      required ← into_all into_bool_ptr old.2 (field_docs "required" ms);
      Some (options, required)
  | _ => None
  end.

Definition dec_sets (ms : members) : option (list CredentialSetQuery) :=
  sets ← field (into_slice (SNil, None) into_set) SNil "credential_sets" ms;
  Some (map (fun s => mkCredentialSetQuery (string_lists s.1) s.2) (default [] (contents sets))).

Definition as_option {E A} (m : result E A) : option A := match m with Ok a => Some a | Err _ => None end.

(** [json.Unmarshal(data, &dcql)] *)
Definition UnmarshalDCQL (data : doc) : option DCQL :=
  ms ← struct_members data;
  credentials ← field (into_slice zero_query (fresh (as_option ∘ UnmarshalJSON))) SNil "credentials" ms;
  sets ← dec_sets ms;
  Some (mkDCQL (contents credentials) sets).

Definition reload (raw : doc) : option CredentialQuery :=
  match UnmarshalJSON raw with
  | Ok q => Some q
  | Err _ => as_option (NewRawCredentialQuery (RawDoc raw))
  end.

(** [UnmarshalTrustedDCQL] *)
Definition UnmarshalTrustedDCQL (data : doc) : option DCQL :=
  match UnmarshalDCQL data with
  | Some strict => Some strict
  | None =>
      ms ← struct_members data;
      raws ← field (into_slice DNull (fresh Some)) SNil "credentials" ms;
      sets ← dec_sets ms;
      credentials ← mapM reload (default [] (contents raws));
      Some (mkDCQL (Some credentials) sets)
  end.

Definition enc_set (s : CredentialSetQuery) : doc :=
  DObj ([("options", match Options s with None => DNull | Some l => DArr (map enc_strings l) end)] ++
        enc_bool_ptr "required" (Required s)).

(** [json.Marshal] of a [DCQL] *)
Definition MarshalDCQL (q : DCQL) : result dcql_error doc :=
  credentials ← match Credentials q with
                | None => Ok DNull
                | Some l => ds ← enc_all MarshalJSON l; Ok (DArr ds)
                end;
  Ok (DObj ([("credentials", credentials)] ++
            omitempty "credential_sets" (is_nil (CredentialSets q)) (DArr (map enc_set (CredentialSets q))))).

(** ** Validation *)

Definition FormatJwtVCJson : string := "jwt_vc_json".
Definition FormatSDJWTVC : string := "dc+sd-jwt".
Definition FormatMsoMdoc : string := "mso_mdoc".
Definition FormatLdpVCDCQL : string := "ldp_vc".
Definition FormatVCLDJSON : string := "vc+ld+json".
Definition FormatMsoMdocZk : string := "mso_mdoc_zk".
Definition BaseVCTypeIRI : string := "https://www.w3.org/2018/credentials#VerifiableCredential".

(** the first index at which [f] has something to report *)
Fixpoint first_error {A} (f : nat → A → option string) (i : nat) (l : list A) : option string :=
  match l with
  | [] => None
  | x :: l => match f i x with Some e => Some e | None => first_error f (S i) l end
  end.
End codec.

(** ** Absolute IRIs ([pkg/vc20/credential/preload.go]) *)

Definition isSchemeStart (c : Ascii.ascii) : bool :=
  bool_decide (97 ≤ byte_of c ≤ 122) || bool_decide (65 ≤ byte_of c ≤ 90).

Definition isSchemeByte (c : Ascii.ascii) : bool :=
  isSchemeStart c || bool_decide (48 ≤ byte_of c ≤ 57) || bool_decide (c ∈ ["+"; "-"; "."]%char).

Fixpoint isSchemeTail (s : string) : bool :=
  match s with EmptyString => true | String c s => isSchemeByte c && isSchemeTail s end.

(** The bytes before the first colon, unless a [/], [#] or [?] comes first *)
Fixpoint scheme (s : string) : option string :=
  match s with
  | EmptyString => None
  | String c s =>
      if bool_decide (c = ":"%char) then Some ""
      else if bool_decide (c ∈ ["/"; "#"; "?"]%char) then None
      else String c <$> scheme s
  end.

Definition IsAbsoluteIRI (s : string) : bool :=
  match scheme s with
  | Some (String c t) => isSchemeStart c && isSchemeTail t
  | _ => false
  end.

Section validation.
Context `{RawText}.

(** One alternative of [type_values] *)
Definition check_alternative (i : nat) (alternative : option (list string)) : option string :=
  let alternative := default [] alternative in
  match first_error (fun j member =>
          if negb (str_empty member) && IsAbsoluteIRI member then None
          else Some ("meta.type_values[" +:+ pretty i +:+ "][" +:+ pretty j +:+ "]")) 0 alternative with
  | Some field => Some field
  | None =>
      if existsb (fun t => negb (bool_decide (t = BaseVCTypeIRI))) alternative then None
      else Some ("meta.type_values[" +:+ pretty i +:+ "]")
  end.

Definition check_spec (i : nat) (spec : ZKSystemTypeSpec) : option string :=
  if str_empty (zk_ID spec) then Some ("meta.zk_system_type[" +:+ pretty i +:+ "].id")
  else if str_empty (zk_System spec) then Some ("meta.zk_system_type[" +:+ pretty i +:+ "].system")
  else None.

Definition validateMsoMdocZkQuery (query : CredentialQuery) : result dcql_error unit :=
  if str_empty (DoctypeValue (Meta query)) then Err (Invalid "meta.doctype_value")
  else if is_nil (ZKSystemType (Meta query)) then Err (Invalid "meta.zk_system_type")
  else match first_error check_spec 0 (ZKSystemType (Meta query)) with
       | Some field => Err (Invalid field)
       | None => Ok tt
       end.

(** The switch over the format, for a query that is not raw *)
Definition validate_format (query : CredentialQuery) : result dcql_error unit :=
  let f := Format query in
  if bool_decide (f ∈ [FormatLdpVCDCQL; FormatVCLDJSON]) then
    match first_error check_alternative 0 (TypeValues (Meta query)) with
    | Some field => Err (Invalid field)
    | None => if is_nil (TypeValues (Meta query)) then Err (Invalid "meta.type_values") else Ok tt
    end
  else if bool_decide (f ∈ [FormatSDJWTVC; "vc+sd-jwt"; ""]) then
    if is_nil (VCTValues (Meta query)) then Err (Invalid "meta.vct_values") else Ok tt
  else if bool_decide (f = FormatMsoMdoc) then
    if str_empty (DoctypeValue (Meta query)) then Err (Invalid "meta.doctype_value") else Ok tt
  else if bool_decide (f = FormatMsoMdocZk) then validateMsoMdocZkQuery query
  else if bool_decide (f ∈ [FormatJwtVCJson; "jwt_vc_json-ld"]) then Err (Invalid "format")
  else Ok tt.

Definition isJSONObject (d : doc) : bool := bool_decide (is_Some (as_map d)).

(** [ValidateCredentialQuery]: a raw query is judged by its document. *)
Definition ValidateCredentialQuery (query : CredentialQuery) : result dcql_error unit :=
  match Raw query with
  | None => validate_format query
  | Some (RawBytes _) => Err (Invalid "raw")
  | Some (RawDoc d) =>
      let '(shadow, unreadable) := adoptRawShadow d in
      let unreadable := if isJSONObject d then unreadable else (unreadable ++ ["meta"])%list in
      if bool_decide ("meta" ∈ unreadable) then
        match validate_format shadow with
        | Err _ => Err (Invalid "meta")
        | Ok _ => Ok tt
        end
      else validate_format shadow
  end.

(** ** Defaults and matching *)

Definition IsRequired (s : CredentialSetQuery) : bool := default true (Required s).
Definition AllowsMultiple (q : CredentialQuery) : bool := default false (Multiple q).
Definition RequiresCryptographicHolderBinding (q : CredentialQuery) : bool :=
  default true (RequireCryptographicHolderBinding q).

Definition bind_holder (q : CredentialQuery) : CredentialQuery :=
  mkCredentialQuery (ID q) (Format q) (Multiple q) (Meta q) (TrustedAuthorities q) (Some true) (Claims q) (ClaimSet q)
    (Req q) (Extra q) (Raw q).

Definition withCryptographicHolderBinding (q : DCQL) : DCQL :=
  mkDCQL (Some (map bind_holder (default [] (Credentials q)))) (CredentialSets q).

Definition containsAll (credentialTypes requiredTypes : list string) : bool :=
  forallb (fun required => bool_decide (required ∈ credentialTypes)) requiredTypes.

Definition MatchTypeValues (credentialTypes : list string) (typeValues : list (option (list string))) : bool :=
  is_nil typeValues || existsb (fun requiredTypes => containsAll credentialTypes (default [] requiredTypes)) typeValues.

Definition MatchZKSystemType (requested : list ZKSystemTypeSpec) (presentedZkSystemID : string) : option ZKSystemTypeSpec :=
  List.find (fun spec => bool_decide (zk_ID spec = presentedZkSystemID)) requested.
End validation.
