(* ===== verification/DcqlWire.v ===== *)
(** * What a query says on the wire

    A wallet reads the document the verifier sends, and where a member is named
    more than once it reads one of them, whichever its decoder keeps.  The
    theorems here are about every such reader.  [accepted_is_constrained]: a
    query that passed the checks constrains what it asks for, as every reader
    sees it. *)

From stdpp Require Import sorting.
From S2P Require Import Prelude GoStrings Utf8 JsonDoc JsonNumber Dcql.

(** ** Readers *)

(** A choice among the members that share a name *)
Definition reader (pick : list doc → option doc) : Prop :=
  ∀ l, match pick l with Some d => d ∈ l | None => l = [] end.

Definition occurrences (name : string) (ms : members) : list doc :=
  map snd (filter (fun m => fst m = name) ms).

Definition read (pick : list doc → option doc) (name : string) (d : doc) : option doc :=
  match d with DObj ms => pick (occurrences name ms) | _ => None end.

Definition format_read (pick : list doc → option doc) (d : doc) : string :=
  match read pick "format" d with Some (DStr s) => s | _ => "" end.

(** A set of types a credential must all have: absolute, and not the base type only *)
Definition narrow (alternative : doc) : Prop :=
  ∃ types, alternative = DArr (map DStr types) ∧
    (∀ t, t ∈ types → IsAbsoluteIRI t = true) ∧ ∃ t, t ∈ types ∧ t ≠ BaseVCTypeIRI.

(** What the formats that have a rule must say *)
Definition constrained (pick : list doc → option doc) (d : doc) : Prop :=
  let member name := read pick "meta" d ≫= read pick name in
  let f := format_read pick d in
  if bool_decide (f ∈ [FormatLdpVCDCQL; FormatVCLDJSON]) then
    ∃ a l, member "type_values" = Some (DArr (a :: l)) ∧ ∀ x, x ∈ a :: l → narrow x
  else if bool_decide (f ∈ [FormatSDJWTVC; "vc+sd-jwt"; ""]) then
    ∃ v l, member "vct_values" = Some (DArr (v :: l))
  else if bool_decide (f ∈ [FormatMsoMdoc; FormatMsoMdocZk]) then
    ∃ s, member "doctype_value" = Some (DStr s) ∧ s ≠ ""
  else f ≠ FormatJwtVCJson ∧ f ≠ "jwt_vc_json-ld".

(** ** Names that occur once *)

Definition once (name : string) (ms : members) : Prop := (length (occurrences name ms) ≤ 1)%nat.

Lemma occurrences_length name ms : length (occurrences name ms) = length (filter (fun m : string * doc => fst m = name) ms).
Proof. unfold occurrences. by rewrite length_map. Qed.

Lemma NoDup_once ms name : NoDup ms.*1 → once name ms.
Proof. intros Hd. unfold once. rewrite occurrences_length. by apply count_NoDup. Qed.

Lemma elem_of_occurrences name ms d : d ∈ occurrences name ms ↔ (name, d) ∈ ms.
Proof.
  unfold occurrences. rewrite list_elem_of_In, in_map_iff. split.
  - intros ([k x] & <- & Hx%list_elem_of_In). apply list_elem_of_filter in Hx as [<- Hx]. done.
  - intros Hd. exists (name, d). split; [done|]. apply list_elem_of_In. by apply list_elem_of_filter.
Qed.

Lemma once_occurrences name ms : once name ms → occurrences name ms = option_list (last_wins ms !! name).
Proof.
  unfold once. intros Hl. destruct (last_wins ms !! name) as [d|] eqn:E.
  - apply last_wins_elem, elem_of_occurrences in E. destruct (occurrences name ms) as [|x [|y l]]; cbn in Hl; [set_solver| |lia].
    apply list_elem_of_singleton in E as ->. done.
  - apply last_wins_None in E. destruct (occurrences name ms) as [|x l] eqn:Eo; [done|]. destruct E.
    assert ((name, x) ∈ ms) by (apply elem_of_occurrences; rewrite Eo; left). apply list_elem_of_fmap. by exists (name, x).
Qed.

Lemma read_once pick name ms : reader pick → once name ms → read pick name (DObj ms) = last_wins ms !! name.
Proof.
  intros Hp Ho. cbn. rewrite (once_occurrences name ms Ho). specialize (Hp (option_list (last_wins ms !! name))).
  destruct (last_wins ms !! name) as [d|]; cbn in *; destruct (pick _) as [x|]; try done.
  - apply list_elem_of_singleton in Hp as ->. done.
  - by apply elem_of_nil in Hp.
Qed.

Lemma not_repeated ms name : repeated (foldl count_name ∅ ms) name = false ↔ once name ms.
Proof.
  unfold repeated, once. rewrite occurrences_length, bool_decide_eq_false, counts_lookup, lookup_empty.
  destruct (length _); cbn; lia.
Qed.

(** ** What the two checks establish *)

Lemma Compact_nil l : Compact l = [] ↔ l = [].
Proof. induction l as [|x [|y l] IH]; [done|done|]. cbn. case_bool_decide; [|done]. rewrite IH. done. Qed.

Lemma sorted_names_nil l : sorted_names l = [] ↔ l = [].
Proof.
  unfold sorted_names. rewrite Compact_nil. split; [|by intros ->]. intros E.
  pose proof (merge_sort_Permutation str_le l) as Hp. rewrite E in Hp. by apply Permutation_nil in Hp.
Qed.

Lemma list_filter_nil {A} (f : A → bool) l : List.filter f l = [] ↔ ∀ x, x ∈ l → f x = false.
Proof.
  induction l as [|x l IH]; cbn; [split; [by intros _ x ?%elem_of_nil|done]|]. destruct (f x) eqn:E.
  - split; [done|]. intros H. specialize (H x (list_elem_of_here _ _)). congruence.
  - rewrite IH. split; [|set_solver]. intros H y [->|Hy]%elem_of_cons; auto.
Qed.

(** The two members of a query and all members of its [meta] occur once. *)
Lemma ambiguous_nil ms :
  ambiguousConstraintMembers (DObj ms) = [] →
  once "format" ms ∧ once "meta" ms ∧
  ∀ inner name, last_wins ms !! "meta" = Some (DObj inner) → once name inner.
Proof.
  unfold ambiguousConstraintMembers. cbn [topLevelMemberNames]. rewrite sorted_names_nil. intros [H1 H2]%app_eq_nil.
  rewrite list_filter_nil in H1. split; [apply not_repeated, H1; set_solver|].
  split; [apply not_repeated, H1; set_solver|]. intros inner name E.
  unfold nested_meta in H2. cbn in H2. rewrite E in H2. cbn in H2. apply map_eq_nil in H2. rewrite list_filter_nil in H2.
  apply not_repeated. destruct (foldl count_name ∅ inner !! name) as [n|] eqn:En.
  - apply H2. apply list_elem_of_In, in_map_iff. exists (name, n). split; [done|].
    by apply list_elem_of_In, elem_of_map_to_list.
  - unfold repeated. by rewrite En.
Qed.

Lemma aliases_nil prefix ms modelled :
  aliases prefix (DObj ms) modelled = [] → ∀ k d, (k, d) ∈ ms → fold k ∈ modelled → fold k = k.
Proof.
  unfold aliases. cbn. intros E k d Hk Hm. destruct (decide (fold k = k)) as [|Hne]; [done|]. exfalso.
  assert (prefix +:+ k ∈ ([] : list string)) as []%elem_of_nil. rewrite <- E. apply list_elem_of_bind. exists k. split.
  - apply list_elem_of_bind. exists (fold k). split; [|done]. rewrite bool_decide_eq_true_2 by naive_solver. left.
  - apply list_elem_of_In, in_map_iff. destruct (foldl count_name ∅ ms !! k) as [n|] eqn:En.
    + exists (k, n). split; [done|]. by apply list_elem_of_In, elem_of_map_to_list.
    + exfalso. rewrite counts_lookup, <- occurrences_length in En. destruct (occurrences k ms) eqn:Eo; [|done].
      assert (d ∈ occurrences k ms) as Hd by (by apply elem_of_occurrences). rewrite Eo in Hd. by apply elem_of_nil in Hd.
Qed.

(** ** From the members to the struct *)

Lemma field_docs_exact name ms :
  fold name = name → (∀ k d, (k, d) ∈ ms → fold k = name → k = name) → field_docs name ms = occurrences name ms.
Proof.
  intros Hn. unfold field_docs, occurrences. induction ms as [|[k d] ms IH]; [done|]. intros Hk.
  rewrite filter_cons. cbn [omap list_omap fst snd].
  assert (omap (fun m => if bool_decide (fold (fst m) = name) then Some (snd m) else None) ms =
          map snd (filter (fun m => fst m = name) ms)) as IH' by (apply IH; intros; eapply Hk; [by right|done]).
  cbn in IH'. rewrite IH'. destruct (decide (k = name)) as [->|Hne]; [by rewrite Hn, bool_decide_eq_true_2|].
  rewrite bool_decide_eq_false_2; [done|]. intros E. apply Hne. eapply Hk; [by left|done].
Qed.

(** A field that one member has, under its own name *)
Lemma field_exact {A} (f : into A) zero name ms :
  fold name = name → (∀ k d, (k, d) ∈ ms → fold k = name → k = name) → once name ms →
  field f zero name ms = match last_wins ms !! name with None => Some zero | Some d => f zero d end.
Proof.
  intros Hn Hk Ho. unfold field. rewrite field_docs_exact, once_occurrences by done.
  by destruct (last_wins ms !! name).
Qed.

Lemma over_fresh {A} (zero : A) f l : over zero f [] l = mapM (f zero) l.
Proof. induction l as [|d l IH]; [done|]. cbn. by rewrite IH. Qed.

Lemma into_slice_fresh {A} (zero : A) f d :
  into_slice zero f SNil d =
  match d with DNull => Some SNil | DArr l => xs ← mapM (f zero) l; Some (Slice xs []) | _ => None end.
Proof. destruct d as [| | | |[|x l]|]; try done. cbn [into_slice backing]. by rewrite over_fresh, drop_nil. Qed.

Lemma into_string_Some old d s : into_string old d = Some s → s ≠ old → d = DStr s.
Proof. destruct d; cbn; naive_solver. Qed.

(** Strings that are not empty are written as they are. *)
Lemma into_strings_Some d s types :
  into_strings SNil d = Some s → contents s = Some types → "" ∉ types → d = DArr (map DStr types).
Proof.
  unfold into_strings. rewrite into_slice_fresh. destruct d as [| | | |l|]; try done; [by intros [= <-]|].
  destruct (mapM _ l) as [xs|] eqn:E; [|done]. cbn. intros [= <-] [= ->] Hne. f_equal. apply mapM_Some in E.
  induction E as [|d s l xs Hd Hl IH]; [done|]. cbn. apply not_elem_of_cons in Hne as [Hs Hne].
  rewrite (into_string_Some _ _ _ Hd) by done. by rewrite IH.
Qed.

(** How the members of [meta] carry the struct *)
Definition says (member : string → option doc) (m : MetaQuery) : Prop :=
  (VCTValues m ≠ [] → ∃ v l, member "vct_values" = Some (DArr (v :: l))) ∧
  (DoctypeValue m ≠ "" → member "doctype_value" = Some (DStr (DoctypeValue m))) ∧
  (TypeValues m ≠ [] → (∀ a, a ∈ TypeValues m → ∃ types, a = Some types ∧ "" ∉ types) →
   member "type_values" = Some (DArr (map enc_strings (TypeValues m)))).

Section decode.
Context `{RawText}.

Lemma dec_MetaQuery_says ms m :
  dec_MetaQuery (DObj ms) = Some m → (∀ name, once name ms) →
  (∀ k d, (k, d) ∈ ms → fold k ∈ meta_constraint_members → fold k = k) →
  says (fun name => last_wins ms !! name) m.
Proof.
  intros Hm Ho Ha. unfold dec_MetaQuery in Hm. cbn [struct_members mbind option_bind] in Hm.
  assert (∀ A (f : into A) zero name, fold name = name → name ∈ meta_constraint_members →
    field f zero name ms = match last_wins ms !! name with None => Some zero | Some d => f zero d end) as Hf.
  { intros A f zero name Hn Hin. apply field_exact; [done| |apply Ho]. intros k d Hk <-. symmetry. by apply (Ha k d). }
  rewrite (Hf _ into_strings SNil "vct_values"), (Hf _ into_string_lists SNil "type_values"),
    (Hf _ into_string "" "doctype_value") in Hm by (reflexivity || (unfold meta_constraint_members; set_solver)).
  apply bind_Some in Hm as (vct & Hvct & Hm). apply bind_Some in Hm as (types & Htypes & Hm).
  apply bind_Some in Hm as (doctype & Hdoctype & Hm).
  do 4 (apply bind_Some in Hm as (? & _ & Hm)). injection Hm as <-. unfold says. cbn [VCTValues DoctypeValue TypeValues].
  split; [|split].
  - intros Hne. destruct (last_wins ms !! "vct_values") as [d|]; [|by injection Hvct as <-].
    unfold into_strings in Hvct. rewrite into_slice_fresh in Hvct. destruct d as [| | | |l|]; try done; [by injection Hvct as <-|].
    destruct l; [by injection Hvct as <-|eauto].
  - intros Hne. destruct (last_wins ms !! "doctype_value") as [d|]; [|by injection Hdoctype as <-].
    by rewrite (into_string_Some _ _ _ Hdoctype).
  - intros Hne Hall. destruct (last_wins ms !! "type_values") as [d|]; [|by injection Htypes as <-]. f_equal.
    unfold into_string_lists in Htypes. rewrite into_slice_fresh in Htypes. destruct d as [| | | |l|]; try done; [by injection Htypes as <-|].
    apply bind_Some in Htypes as (xs & Exs & [= <-]). cbn in Hall |- *. f_equal. apply mapM_Some in Exs. clear Hne.
    induction Exs as [|d s l xs Hd Hl IH]; [done|]. cbn. destruct (Hall (contents s)) as (t & Et & Hne); [left|].
    rewrite (into_strings_Some _ _ _ Hd Et Hne), Et, IH; [done|]. intros a Hin. apply Hall. by right.
Qed.
End decode.

(** ** What validation establishes *)

Lemma first_error_None {A} (f : nat → A → option string) i l x :
  first_error f i l = None → x ∈ l → ∃ j, f j x = None.
Proof.
  revert i. induction l as [|y l IH]; intros i; cbn; [by intros _ ?%elem_of_nil|].
  destruct (f i y) eqn:E; [done|]. intros Hl [->|Hx]%elem_of_cons; eauto.
Qed.

(** The types of a set that narrows a request *)
Definition narrow_types (types : list string) : Prop :=
  (∀ t, t ∈ types → IsAbsoluteIRI t = true) ∧ ∃ t, t ∈ types ∧ t ≠ BaseVCTypeIRI.

Lemma check_alternative_None i a : check_alternative i a = None → ∃ types, a = Some types ∧ narrow_types types.
Proof.
  unfold check_alternative. destruct (first_error _ _ _) eqn:E; [done|]. destruct (existsb _ _) eqn:Ex; [|done]. intros _.
  apply existsb_exists in Ex as (t & Ht%list_elem_of_In & Hb). destruct a as [types|]; [|by apply elem_of_nil in Ht].
  exists types. split; [done|]. split.
  - intros u Hu. destruct (first_error_None _ _ _ u E Hu) as [j Hj]. destruct (str_empty u), (IsAbsoluteIRI u); done.
  - exists t. split; [done|]. by apply negb_true_iff, bool_decide_eq_false in Hb.
Qed.

Lemma narrow_no_empty types : narrow_types types → "" ∉ types.
Proof. intros [Ha _] Hin. by apply Ha in Hin. Qed.

Definition valid_meta (f : string) (m : MetaQuery) : Prop :=
  if bool_decide (f ∈ [FormatLdpVCDCQL; FormatVCLDJSON]) then
    TypeValues m ≠ [] ∧ ∀ a, a ∈ TypeValues m → ∃ types, a = Some types ∧ narrow_types types
  else if bool_decide (f ∈ [FormatSDJWTVC; "vc+sd-jwt"; ""]) then VCTValues m ≠ []
  else if bool_decide (f ∈ [FormatMsoMdoc; FormatMsoMdocZk]) then DoctypeValue m ≠ ""
  else f ≠ FormatJwtVCJson ∧ f ≠ "jwt_vc_json-ld".

Lemma validate_format_Ok q : validate_format q = Ok tt → valid_meta (Format q) (Meta q).
Proof.
  unfold validate_format, valid_meta. case_bool_decide as Hw.
  { destruct (first_error _ _ _) eqn:E; [done|]. destruct (TypeValues (Meta q)) as [|a l] eqn:Et; [done|]. intros _.
    split; [done|]. intros x Hx. destruct (first_error_None _ _ _ x E Hx) as [j Hj]. by apply check_alternative_None in Hj. }
  case_bool_decide as Hs; [by destruct (VCTValues (Meta q))|].
  case_bool_decide as Hm.
  { rewrite bool_decide_eq_true_2 by (rewrite Hm; set_solver). destruct (str_empty _) eqn:E; [done|]. by apply str_empty_false in E. }
  case_bool_decide as Hz.
  { rewrite bool_decide_eq_true_2 by (rewrite Hz; set_solver). unfold validateMsoMdocZkQuery.
    destruct (str_empty _) eqn:E; [done|]. by apply str_empty_false in E. }
  case_bool_decide as Hj; [done|]. intros _.
  rewrite bool_decide_eq_false_2 by (by intros [?|[?|[]%elem_of_nil]%elem_of_cons]%elem_of_cons). split; intros E; apply Hj; rewrite E; [left|right; left].
Qed.

(** Read as it is meant, a valid query constrains. *)
Lemma constrained_intro pick d f m :
  format_read pick d = f → says (fun name => read pick "meta" d ≫= read pick name) m → valid_meta f m → constrained pick d.
Proof.
  intros Hf (Hv & Hd & Ht) Hm. unfold constrained. rewrite Hf. unfold valid_meta in Hm.
  case_bool_decide.
  { destruct Hm as [Hne Hall]. rewrite Ht by (first [done | intros a (t & -> & Hn)%Hall; eauto using narrow_no_empty]).
    destruct (TypeValues m) as [|a l]; [done|]. exists (enc_strings a), (map enc_strings l). split; [done|]. intros x Hx.
    assert (x ∈ map enc_strings (a :: l)) as Hx' by exact Hx.
    apply list_elem_of_In, in_map_iff in Hx' as (b & <- & Hb%list_elem_of_In). destruct (Hall b Hb) as (types & -> & Hn1 & Hn2).
    exists types. done. }
  case_bool_decide; [by apply Hv|]. case_bool_decide; [|done]. eauto.
Qed.

Lemma valid_meta_zero f : valid_meta f zero_meta → ∀ m, valid_meta f m.
Proof.
  unfold valid_meta. cbn. repeat case_bool_decide; naive_solver.
Qed.

(** ** The encoded struct *)

Lemma sublist_NoDup_names {A} (l k : list A) : l `sublist_of` k → NoDup k → NoDup l.
Proof.
  induction 1 as [|x l k Hs IH|x l k Hs IH]; [done| |]; intros [Hx Hk]%NoDup_cons; [|auto].
  constructor; [|auto]. intros Hin. apply Hx. by eapply sublist_subseteq.
Qed.

Lemma omitempty_names name b d : (omitempty name b d).*1 `sublist_of` [name].
Proof. destruct b; repeat constructor. Qed.

Lemma enc_bool_ptr_names name b : (enc_bool_ptr name b).*1 `sublist_of` [name].
Proof. destruct b; repeat constructor. Qed.

Lemma names_cons {A} (n : A) l r k : l `sublist_of` [n] → r `sublist_of` k → (l ++ r)%list `sublist_of` n :: k.
Proof. intros Hl Hr. change (n :: k) with ([n] ++ k)%list. by apply sublist_app. Qed.

(** The names of a struct encoding are those of its fields, in their order. *)
Ltac field_names :=
  repeat first
    [ rewrite fmap_app
    | apply omitempty_names
    | apply names_cons; [first [apply omitempty_names | apply enc_bool_ptr_names | apply sublist_skip, sublist_nil]|]
    | progress cbn [fmap list_fmap app fst]
    | apply sublist_skip ].

Definition meta_members : list string :=
  ["vct_values"; "type_values"; "doctype_value"; "schema_id_value"; "source_format"; "zk_system_type"; "ppid_context"].

Definition enc_meta_members (m : MetaQuery) : members :=
  match enc_MetaQuery m with DObj ms => ms | _ => [] end.

Lemma enc_meta_names m : (enc_meta_members m).*1 `sublist_of` meta_members.
Proof. unfold enc_meta_members, enc_MetaQuery, meta_members. field_names. Qed.

Lemma enc_meta_NoDup m : NoDup (enc_meta_members m).*1.
Proof. eapply sublist_NoDup_names; [apply enc_meta_names|]. by apply (bool_decide_unpack _). Qed.

Lemma encode_known_names q ms : encode_known q = Ok ms → ms.*1 `sublist_of` query_members.
Proof. unfold encode_known, query_members. intros. inv_ok. subst ms. field_names. Qed.

Lemma encode_known_NoDup q ms : encode_known q = Ok ms → NoDup ms.*1.
Proof. intros E. eapply sublist_NoDup_names; [by eapply encode_known_names|]. by apply (bool_decide_unpack _). Qed.

Lemma encode_known_members q ms :
  encode_known q = Ok ms → ("format", DStr (Format q)) ∈ ms ∧ ("meta", enc_MetaQuery (Meta q)) ∈ ms.
Proof. unfold encode_known. intros. inv_ok. subst ms. repeat (rewrite elem_of_cons || rewrite elem_of_app). tauto. Qed.

(** A member the struct writes *)
Lemma enc_meta_says m : says (fun name => last_wins (enc_meta_members m) !! name) m.
Proof.
  assert (∀ name d, (name, d) ∈ enc_meta_members m → last_wins (enc_meta_members m) !! name = Some d) as Hl
    by (intros; by apply last_wins_lookup; [apply enc_meta_NoDup|]).
  unfold says. split; [|split].
  - intros Hne. destruct (VCTValues m) as [|v l] eqn:E; [done|]. exists (DStr v), (map DStr l). apply Hl.
    unfold enc_meta_members, enc_MetaQuery. rewrite E. apply elem_of_app. left. left.
  - intros Hne. apply Hl. unfold enc_meta_members, enc_MetaQuery. rewrite !elem_of_app. do 2 right. left.
    apply str_empty_false in Hne. rewrite Hne. left.
  - intros Hne _. apply Hl. unfold enc_meta_members, enc_MetaQuery. rewrite !elem_of_app. right. left.
    destruct (TypeValues m); [done|]. left.
Qed.

(** The extension is merged into the known members, and never over them. *)
Lemma marshalWithExtra_Ok known reserved extra e :
  marshalWithExtra known reserved extra = Ok e → NoDup known.*1 →
  (∀ k v, extra !! k = Some v → k ∉ reserved ∧ last_wins known !! k = None) ∧
  ∃ ms, e = DObj ms ∧ NoDup ms.*1 ∧ last_wins ms = (as_any <$> extra) ∪ last_wins known.
Proof.
  unfold marshalWithExtra. intros E Hd. case_bool_decide as He.
  { subst extra. injection E as <-. split; [by intros k v ?|]. exists known. by rewrite fmap_empty, map_empty_union. }
  destruct (List.filter _ _) as [|[]] eqn:Hf; [|done]. injection E as <-. rewrite list_filter_nil in Hf. split.
  - intros k v Hk. specialize (Hf (k, v)). rewrite elem_of_map_members in Hf. specialize (Hf Hk).
    apply orb_false_iff in Hf as [H1%bool_decide_eq_false H2%bool_decide_eq_false]. split; [done|].
    by apply eq_None_not_Some.
  - eexists. split; [done|]. split; [apply map_members_NoDup|]. apply last_wins_map_members.
Qed.

(** ** The theorem *)

Section wire.
Context `{RawText}.

(** A query that is not raw is read as it stands. *)
Lemma typed_read q e pick :
  Raw q = None → MarshalJSON q = Ok e → reader pick →
  format_read pick e = Format q ∧ says (fun name => read pick "meta" e ≫= read pick name) (Meta q).
Proof.
  unfold MarshalJSON. intros Hr E Hp. rewrite Hr in E. apply bind_Ok in E as (known & Hk & E).
  pose proof (encode_known_NoDup q known Hk) as Hd. destruct (encode_known_members q known Hk) as [Hf Hm].
  destruct (marshalWithExtra_Ok _ _ _ _ E Hd) as (Hx & ms & -> & Hms & Hl).
  assert (∀ name d, (name, d) ∈ known → name ∈ query_members → last_wins ms !! name = Some d) as Hin.
  { intros name d Hn Hq. rewrite Hl. apply lookup_union_Some_raw. right. split; [|by apply last_wins_lookup].
    rewrite lookup_fmap. destruct (Extra q !! name) as [v|] eqn:Ev; [|done]. by apply Hx in Ev as []. }
  unfold format_read. rewrite !read_once by (try apply NoDup_once; done).
  rewrite (Hin _ _ Hf), (Hin _ _ Hm) by (unfold query_members; set_solver). split; [done|]. cbn [mbind option_bind].
  assert (∀ name, read pick name (enc_MetaQuery (Meta q)) = last_wins (enc_meta_members (Meta q)) !! name) as Hr'.
  { intros name. change (enc_MetaQuery (Meta q)) with (DObj (enc_meta_members (Meta q))).
    apply read_once; [done|]. apply NoDup_once, enc_meta_NoDup. }
  unfold says. rewrite !Hr'. apply enc_meta_says.
Qed.

Lemma says_zero member : says member zero_meta.
Proof. done. Qed.

(** The two members of the shadow that validation reads *)
Lemma shadow_format_meta ms :
  let q := (adoptRawShadow (DObj ms)).1 in
  Format q = (shadow_field dec_string "" KString "format" (last_wins ms)).1.1 ∧
  Meta q = (shadow_field dec_MetaQuery zero_meta KStruct "meta" (last_wins ms)).1.1.
Proof.
  unfold adoptRawShadow, adoptRawShadowReporting. cbn [as_map].
  repeat destruct (shadow_field _ _ _ _ _) as [[? ?] ?]. done.
Qed.

Lemma checkRawConstraints_Ok d :
  checkRawConstraints d = Ok tt → ambiguousConstraintMembers d = [] ∧ aliasedConstraintMembers d = [].
Proof.
  unfold checkRawConstraints. destruct (ambiguousConstraintMembers d); [|done]. by destruct (aliasedConstraintMembers d).
Qed.

(** A raw query whose constraint passed the checks is read as its shadow. *)
Lemma raw_read ms pick :
  checkRawConstraints (DObj ms) = Ok tt → reader pick →
  let q := (adoptRawShadow (DObj ms)).1 in
  format_read pick (DObj ms) = Format q ∧ says (fun name => read pick "meta" (DObj ms) ≫= read pick name) (Meta q).
Proof.
  intros [Ha Hb]%checkRawConstraints_Ok Hp. destruct (ambiguous_nil ms Ha) as (Hf & Hm & Hi).
  cbv zeta. destruct (shadow_format_meta ms) as [-> ->]. unfold format_read. rewrite !read_once by done. split.
  { unfold shadow_field. by destruct (last_wins ms !! "format") as [[]|]. }
  unfold shadow_field. destruct (last_wins ms !! "meta") as [dm|] eqn:Em; [|apply says_zero].
  destruct (dec_MetaQuery dm) as [m|] eqn:Ed; [|apply says_zero]. cbn [fst]. cbn [mbind option_bind].
  destruct dm as [| | | | |inner]; try done; [by injection Ed as <-|].
  specialize (Hi inner). pose proof (fun name => read_once pick name inner Hp (Hi name eq_refl)) as Hr.
  unfold says. rewrite !Hr. apply dec_MetaQuery_says; [done|by intros; apply Hi|].
  unfold aliasedConstraintMembers in Hb. rewrite sorted_names_nil in Hb. apply app_eq_nil in Hb as [_ Hb].
  unfold nested_meta in Hb. cbn in Hb. rewrite Em in Hb. by eapply aliases_nil.
Qed.

(** Where the queries of the program come from: built in code from the typed
    fields, by the constructor for raw queries, or decoded. *)
Definition provenance (q : CredentialQuery) : Prop :=
  Raw q = None ∨ (∃ raw, NewRawCredentialQuery raw = Ok q) ∨ ∃ d, UnmarshalJSON d = Ok q.

Lemma adoptRawShadow_Raw d : Raw (adoptRawShadow d).1 = Some (RawDoc d).
Proof.
  unfold adoptRawShadow, adoptRawShadowReporting. destruct (as_map d); [|done].
  by repeat destruct (shadow_field _ _ _ _ _) as [[? ?] ?].
Qed.

Lemma adoptRawShadow_Extra d : Extra (adoptRawShadow d).1 = ∅.
Proof.
  unfold adoptRawShadow, adoptRawShadowReporting. destruct (as_map d); [|done].
  by repeat destruct (shadow_field _ _ _ _ _) as [[? ?] ?].
Qed.

Lemma typed_decode_Raw d q : typed_decode d = Ok q → Raw q = None.
Proof.
  unfold typed_decode. intros. inv_ok. destruct (decode_known _) as [k|] eqn:E; [|done]. injection H0 as <-.
  unfold decode_known in E. repeat (apply bind_Some in E as (? & _ & E)). by injection E as <-.
Qed.

(** A decoded query is typed, and says again what was decoded, or it is the
    document itself, checked. *)
Lemma UnmarshalJSON_cases d q :
  UnmarshalJSON d = Ok q →
  (Raw q = None ∧ typed_decode d = Ok q ∧ hasDuplicateMembers d = false ∧ encodesBackTo q d = true ∧
   ambiguousConstraintMembers d = []) ∨
  (checkRawConstraints d = Ok tt ∧ q = (adoptRawShadow d).1).
Proof.
  unfold UnmarshalJSON. destruct (typed_decode d) as [k|err] eqn:E.
  - destruct (ambiguousConstraintMembers d) eqn:Ea; [|done]. destruct (hasDuplicateMembers d || _) eqn:Ed.
    + intros. inv_ok. right. by destruct a.
    + intros [= ->]. left. apply orb_false_iff in Ed as [? ?%negb_false_iff].
      split_and!; eauto using typed_decode_Raw.
  - intros. inv_ok. right. destruct a. split; [done|]. unfold adoptRawShadow.
    destruct (adoptRawShadowReporting d) as [[k u] i]. destruct i; [|done]. by injection H0 as <-.
Qed.

Lemma provenance_checked q d : provenance q → Raw q = Some (RawDoc d) → checkRawConstraints d = Ok tt.
Proof.
  intros [Hn|[[raw Hn]|[x Hx]]] Hr.
  - congruence.
  - destruct raw as [x|]; [|done]. cbn in Hn. inv_ok. subst q. rewrite adoptRawShadow_Raw in Hr. injection Hr as ->. by destruct a.
  - apply UnmarshalJSON_cases in Hx as [(Hn & _)|[Hc ->]]; [congruence|]. rewrite adoptRawShadow_Raw in Hr. by injection Hr as ->.
Qed.

Lemma ValidateCredentialQuery_raw q d :
  Raw q = Some (RawDoc d) → ValidateCredentialQuery q = Ok tt → validate_format (adoptRawShadow d).1 = Ok tt.
Proof.
  unfold ValidateCredentialQuery. intros ->. destruct (adoptRawShadow d) as [k u]. cbn [fst].
  case_bool_decide; [|done]. by destruct (validate_format k) as [[]|].
Qed.

(** C29: A request is never sent unconstrained: the document sent for a query
    that passed [ValidateCredentialQuery], whether it was built in code, taken
    raw or decoded, names the types, the [vct_values] or the document type its
    format calls for, and it does so for a wallet that keeps the first of two
    members with one name, for one that keeps the last, and for any other that
    keeps one of them. *)
Theorem accepted_is_constrained q e pick :
  provenance q → ValidateCredentialQuery q = Ok tt → MarshalJSON q = Ok e → reader pick → constrained pick e.
Proof.
  intros Hq Hv He Hp. destruct (Raw q) as [[d|bytes]|] eqn:Hr.
  - pose proof (provenance_checked q d Hq Hr) as Hc. apply (ValidateCredentialQuery_raw q d Hr), validate_format_Ok in Hv.
    assert (e = d) as ->. { unfold MarshalJSON in He. rewrite Hr in He. destruct (negb _); [done|]. by injection He. }
    destruct d as [| | | | |ms]; try by destruct Hv.
    destruct (raw_read ms pick Hc Hp) as [Hf Hs]. by eapply constrained_intro.
  - unfold ValidateCredentialQuery in Hv. by rewrite Hr in Hv.
  - unfold ValidateCredentialQuery in Hv. rewrite Hr in Hv. apply validate_format_Ok in Hv.
    destruct (typed_read q e pick Hr He Hp) as [Hf Hs]. by eapply constrained_intro.
Qed.

(** ** Matching *)

(** The struct of a query is what validation judges. *)
Lemma provenance_validated q :
  provenance q → ValidateCredentialQuery q = Ok tt → valid_meta (Format q) (Meta q).
Proof.
  intros Hq Hv. destruct (Raw q) as [[d|]|] eqn:Hr.
  - apply (ValidateCredentialQuery_raw q d Hr), validate_format_Ok in Hv. enough (q = (adoptRawShadow d).1) as -> by done.
    destruct Hq as [?|[[raw Hn]|[x Hx]]]; [congruence| |].
    + destruct raw as [x|]; [|done]. cbn in Hn. inv_ok. subst q. rewrite adoptRawShadow_Raw in Hr. by injection Hr as ->.
    + apply UnmarshalJSON_cases in Hx as [(Hn & _)|[_ ->]]; [congruence|]. rewrite adoptRawShadow_Raw in Hr. by injection Hr as ->.
  - unfold ValidateCredentialQuery in Hv. by rewrite Hr in Hv.
  - unfold ValidateCredentialQuery in Hv. rewrite Hr in Hv. by apply validate_format_Ok in Hv.
Qed.

(** A credential that matches the [type_values] of a validated W3C query
    has a type beyond the one every W3C credential has, an absolute IRI that
    the query names: no such query is answered by any credential whatever. *)
Theorem validated_types_narrow q credentialTypes :
  provenance q → ValidateCredentialQuery q = Ok tt → Format q ∈ [FormatLdpVCDCQL; FormatVCLDJSON] →
  MatchTypeValues credentialTypes (TypeValues (Meta q)) = true →
  ∃ types t, Some types ∈ TypeValues (Meta q) ∧ types ⊆ credentialTypes ∧ t ∈ types ∧ t ≠ BaseVCTypeIRI ∧ IsAbsoluteIRI t = true.
Proof.
  intros Hq Hv Hf Hm. pose proof (provenance_validated q Hq Hv) as Hval. unfold valid_meta in Hval.
  rewrite bool_decide_eq_true_2 in Hval by done. destruct Hval as [Hne Hall].
  unfold MatchTypeValues in Hm. apply orb_true_iff in Hm as [Hm|Hm]; [by destruct (TypeValues (Meta q))|].
  apply existsb_exists in Hm as (a & Ha%list_elem_of_In & Hc). destruct (Hall a Ha) as (types & -> & Habs & t & Ht & Hb).
  exists types, t. split_and!; [done| |done|done|by apply Habs]. intros x Hx. cbn in Hc. unfold containsAll in Hc.
  rewrite forallb_forall in Hc. apply list_elem_of_In, Hc, bool_decide_eq_true in Hx. done.
Qed.

(** ** Where the wire and the struct part *)

(** The variant of a request for a channel that verifies holder binding
    says so on the wire for a typed query.  A raw query is sent as it came: the
    struct requires the binding, and the document still says what it said. *)
Theorem binding_variant_on_wire dcql q pick e :
  q ∈ default [] (Credentials (withCryptographicHolderBinding dcql)) → MarshalJSON q = Ok e → reader pick →
  RequiresCryptographicHolderBinding q = true ∧
  match Raw q with
  | None => read pick "require_cryptographic_holder_binding" e = Some (DBool true)
  | Some raw => raw = RawDoc e
  end.
Proof.
  intros Hq He Hp. cbn in Hq. apply list_elem_of_In, in_map_iff in Hq as (q0 & <- & _). split; [done|].
  unfold MarshalJSON in He. destruct (Raw (bind_holder q0)) as [raw|] eqn:Hr.
  { destruct (negb _); [done|]. destruct raw; [by injection He as ->|done]. }
  apply bind_Ok in He as (known & Hk & E). pose proof (encode_known_NoDup _ _ Hk) as Hd.
  destruct (marshalWithExtra_Ok _ _ _ _ E Hd) as (Hx & ms & -> & Hms & Hl).
  rewrite read_once by (try apply NoDup_once; done). rewrite Hl. apply lookup_union_Some_raw. right. split.
  - rewrite lookup_fmap. destruct (Extra _ !! _) as [v|] eqn:Ev; [|done]. apply Hx in Ev as [Hn _]. destruct Hn.
    unfold query_members. set_solver.
  - apply last_wins_lookup; [done|]. unfold encode_known in Hk. inv_ok. subst known.
    cbn [enc_bool_ptr RequireCryptographicHolderBinding bind_holder].
    repeat (rewrite elem_of_cons || rewrite elem_of_app). tauto.
Qed.

(** A query for a zero-knowledge proof that names its circuits in capitals *)
Definition aliased_zk_query : doc :=
  DObj [("id", DStr "age"); ("format", DStr "mso_mdoc_zk");
        ("meta", DObj [("doctype_value", DStr "org.iso.18013.5.1.mDL");
                       ("ZK_SYSTEM_TYPE", DArr [DObj [("id", DStr "longfellow"); ("system", DStr "libzk")]])])].

(** The list of aliases that are refused leaves out [zk_system_type], which
    validation reads: a query that names the accepted circuits only in another
    letter case is decoded, validated and sent, and no wallet that reads
    [zk_system_type] finds one. *)
Theorem zk_system_alias_passes :
  ∃ q, UnmarshalJSON aliased_zk_query = Ok q ∧ ValidateCredentialQuery q = Ok tt ∧ ZKSystemType (Meta q) ≠ [] ∧
       MarshalJSON q = Ok aliased_zk_query ∧
       ∀ pick, reader pick → format_read pick aliased_zk_query = FormatMsoMdocZk ∧
         (read pick "meta" aliased_zk_query ≫= read pick "zk_system_type") = None.
Proof.
  exists (adoptRawShadow aliased_zk_query).1. split; [by vm_compute|]. split; [by vm_compute|]. split; [done|].
  split; [by vm_compute|]. intros pick Hp. unfold aliased_zk_query, format_read.
  rewrite !read_once by (done || (unfold once; vm_compute; lia)). split; [done|].
  cbn [mbind option_bind]. vm_compute (last_wins _ !! _). cbn [mbind option_bind]. rewrite read_once by (done || (unfold once; vm_compute; lia)). done.
Qed.
End wire.
