(* ===== verification/DcqlReload.v ===== *)
(** * Queries through storage

    A query that was decoded is stored and sent as JSON, and another node
    decodes it again.  [reload_same]: that gives the same query.
    [trusted_reload]: every query that could be published reloads, those that
    strict decoding refuses included. *)

From S2P Require Import Prelude GoStrings Utf8 JsonDoc JsonNumber Dcql DcqlWire.

(** ** Looking members up *)

Lemma last_wins_app a b k :
  last_wins (a ++ b)%list !! k = match last_wins b !! k with Some d => Some d | None => last_wins a !! k end.
Proof.
  unfold last_wins. rewrite reverse_app, list_to_map_app, lookup_union. by destruct (list_to_map (reverse b) !! k), (list_to_map (reverse a) !! k).
Qed.

Lemma last_wins_single n d k : last_wins [(n, d)] !! k = if String.eqb n k then Some d else None.
Proof.
  unfold last_wins. cbn. destruct (String.eqb_spec n k) as [->|Hne]; [apply lookup_insert_eq|by rewrite lookup_insert_ne].
Qed.

Lemma last_wins_cons n d ms k :
  last_wins ((n, d) :: ms) !! k =
  match last_wins ms !! k with Some x => Some x | None => if String.eqb n k then Some d else None end.
Proof. change ((n, d) :: ms) with ([(n, d)] ++ ms)%list. by rewrite last_wins_app, last_wins_single. Qed.

Lemma last_wins_nil k : last_wins [] !! k = None.
Proof. done. Qed.

Lemma last_wins_omitempty n b d k :
  last_wins (omitempty n b d) !! k = if String.eqb n k then (if b then None else Some d) else None.
Proof. destruct b; cbn [omitempty]; [|apply last_wins_single]. by destruct (String.eqb n k). Qed.

Lemma last_wins_bool_ptr n b k :
  last_wins (enc_bool_ptr n b) !! k = if String.eqb n k then DBool <$> b else None.
Proof. destruct b; cbn [enc_bool_ptr fmap option_fmap option_map]; [apply last_wins_single|]. by destruct (String.eqb n k). Qed.

Lemma option_match_id {A} (o : option A) : match o with Some d => Some d | None => None end = o.
Proof. by destruct o. Qed.

(** Look a literal name up in an encoded struct. *)
Ltac look_up :=
  repeat first
    [ rewrite last_wins_app
    | rewrite last_wins_omitempty
    | rewrite last_wins_bool_ptr
    | rewrite last_wins_cons
    | rewrite last_wins_nil ];
  cbn [String.eqb Ascii.eqb Bool.eqb]; rewrite ?option_match_id.

Section reload.
Context `{RawText}.

(** ** Fields *)

Lemma mapM_map_Some {A B C} (f : B → option C) (g : A → B) (h : A → C) l :
  (∀ x, x ∈ l → f (g x) = Some (h x)) → mapM f (map g l) = Some (map h l).
Proof.
  induction l as [|x l IH]; [done|]. intros Hx. cbn. rewrite (Hx x) by left. cbn. rewrite IH; [done|].
  intros y Hy. apply Hx. by right.
Qed.

Lemma into_strings_enc o : ∃ s, into_strings SNil (enc_strings o) = Some s ∧ contents s = o.
Proof.
  unfold into_strings. rewrite into_slice_fresh. destruct o as [l|]; cbn [enc_strings]; [|by eexists].
  rewrite (mapM_map_Some _ _ (fun s => s)) by done. eexists. split; [done|]. cbn. by rewrite map_id.
Qed.

Lemma into_string_lists_enc l :
  ∃ s, into_string_lists SNil (DArr (map enc_strings l)) = Some s ∧ string_lists s = Some l.
Proof.
  unfold into_string_lists. rewrite into_slice_fresh.
  enough (∃ xs, mapM (into_strings SNil) (map enc_strings l) = Some xs ∧ map contents xs = l) as (xs & -> & E).
  { eexists. split; [done|]. cbn. by rewrite E. }
  induction l as [|o l (xs & E & Hc)]; [by exists []|]. destruct (into_strings_enc o) as (s & Es & Ho).
  exists (s :: xs). cbn. rewrite Es. cbn. rewrite E. cbn. by rewrite Ho, Hc.
Qed.

(** A struct with its own names, each once *)
Definition exact_names (names : list string) : Prop := Forall (fun n => fold n = n) names.

Lemma field_of_struct {A} (f : into A) zero name names ms :
  ms.*1 `sublist_of` names → exact_names names → NoDup names → name ∈ names →
  field f zero name ms = match last_wins ms !! name with None => Some zero | Some d => f zero d end.
Proof.
  intros Hs He Hd Hn. unfold exact_names in He. rewrite Forall_forall in He. apply field_exact; [by apply He| |].
  - intros k d Hk E. rewrite <- E. symmetry. apply He. eapply sublist_subseteq; [exact Hs|].
    apply list_elem_of_fmap. by exists (k, d).
  - apply NoDup_once. by eapply sublist_NoDup_names.
Qed.

Definition wf_zk (z : ZKSystemTypeSpec) : Prop := zk_Params z !! "id" = None ∧ zk_Params z !! "system" = None.

Lemma dec_enc_zk z : wf_zk z → dec_ZKSystemTypeSpec (enc_ZKSystemTypeSpec z) = Some z.
Proof.
  intros [Hi Hs]. unfold dec_ZKSystemTypeSpec, enc_ZKSystemTypeSpec. cbn [as_map]. rewrite last_wins_map_members.
  cbn [mbind option_bind]. rewrite (lookup_insert_ne _ "system" "id") by done. rewrite !lookup_insert_eq. cbn.
  rewrite delete_insert_id by (by rewrite lookup_insert_ne, lookup_fmap, Hs).
  rewrite delete_insert_id by (by rewrite lookup_fmap, Hi).
  rewrite <- map_fmap_compose. destruct z as [i s p]. cbn. do 2 f_equal. apply map_fmap_id.
Qed.

Lemma meta_names_ok : exact_names meta_members ∧ NoDup meta_members.
Proof. split; [by repeat constructor|by apply (bool_decide_unpack _)]. Qed.

Definition wf_meta (m : MetaQuery) : Prop := Forall wf_zk (ZKSystemType m).

(** What [omitempty] leaves out is the zero value. *)
Lemma omit_str (s : string) :
  match (if str_empty s then None else Some (DStr s)) with Some d => into_string "" d | None => Some "" end = Some s.
Proof. destruct (str_empty s) eqn:E; [|done]. apply str_empty_true in E. by subst. Qed.

Lemma omit_strings l :
  ∃ s, match (if is_nil l then None else Some (DArr (map DStr l))) with Some d => into_strings SNil d | None => Some SNil end = Some s ∧
       default [] (contents s) = l.
Proof.
  destruct l as [|x l]; [by exists SNil|]. cbn [is_nil]. destruct (into_strings_enc (Some (x :: l))) as (s & Es & Hc).
  exists s. cbn [enc_strings] in Es. by rewrite Es, Hc.
Qed.

Lemma omit_lists l :
  ∃ s, match (if is_nil l then None else Some (DArr (map enc_strings l))) with Some d => into_string_lists SNil d | None => Some SNil end = Some s ∧
       default [] (string_lists s) = l.
Proof.
  destruct l as [|x l]; [by exists SNil|]. cbn [is_nil]. destruct (into_string_lists_enc (x :: l)) as (s & Es & Hc).
  exists s. by rewrite Es, Hc.
Qed.

Lemma omit_zk zero l : Forall wf_zk l →
  ∃ s, match (if is_nil l then None else Some (DArr (map enc_ZKSystemTypeSpec l))) with
       | Some d => into_slice zero (fresh dec_ZKSystemTypeSpec) SNil d | None => Some SNil end = Some s ∧
       default [] (contents s) = l.
Proof.
  destruct l as [|x l]; [by exists SNil|]. cbn [is_nil]. intros Hw. rewrite Forall_forall in Hw.
  rewrite into_slice_fresh, (mapM_map_Some _ _ (fun z => z)) by (intros z Hz; by apply dec_enc_zk, Hw).
  eexists. split; [done|]. cbn. by rewrite map_id.
Qed.

Lemma dec_enc_meta m : wf_meta m → dec_MetaQuery (enc_MetaQuery m) = Some m.
Proof.
  intros Hw. unfold dec_MetaQuery. change (enc_MetaQuery m) with (DObj (enc_meta_members m)). cbn [struct_members].
  cbn [mbind option_bind]. destruct meta_names_ok as [He Hd].
  rewrite !(field_of_struct _ _ _ meta_members) by (first [apply enc_meta_names | done | unfold meta_members; set_solver]).
  unfold enc_meta_members, enc_MetaQuery. look_up.
  destruct (omit_strings (VCTValues m)) as (v & -> & Hv), (omit_lists (TypeValues m)) as (t & -> & Ht).
  cbn [mbind option_bind]. rewrite !omit_str. cbn [mbind option_bind].
  destruct (omit_zk (mkZKSystemTypeSpec "" "" ∅) (ZKSystemType m) Hw) as (z & -> & Hz).
  cbn [mbind option_bind]. rewrite Hv, Ht, Hz. by destruct m.
Qed.

Lemma dec_enc_trusted t : dec_TrustedAuthority (enc_TrustedAuthority t) = Some t.
Proof.
  unfold dec_TrustedAuthority, enc_TrustedAuthority. cbn [struct_members mbind option_bind].
  rewrite !(field_of_struct _ _ _ ["type"; "values"])
    by (first [by repeat constructor | by apply (bool_decide_unpack _) | set_solver]).
  look_up. cbn [mbind option_bind into_string]. destruct (into_strings_enc (ta_Values t)) as (s & -> & Hs).
  cbn. rewrite Hs. by destruct t.
Qed.

(** ** Claims *)

Definition from_json (v : claim_value) : Prop :=
  match v with CStr _ | CBool _ | CNumber _ => True | _ => False end.

Definition wf_claim (c : ClaimQuery) : Prop := Forall from_json (default [] (cq_Values c)).

Lemma field_docs_of_struct name names ms :
  ms.*1 `sublist_of` names → exact_names names → NoDup names → name ∈ names →
  last (field_docs name ms) = last_wins ms !! name.
Proof.
  intros Hs He Hd Hn. unfold exact_names in He. rewrite Forall_forall in He. rewrite field_docs_exact, once_occurrences.
  - by destruct (last_wins ms !! name).
  - apply NoDup_once. by eapply sublist_NoDup_names.
  - by apply He.
  - intros k d Hk E. rewrite <- E. symmetry. apply He. eapply sublist_subseteq; [exact Hs|].
    apply list_elem_of_fmap. by exists (k, d).
Qed.

Lemma value_of_enc l : Forall from_json l → map value_of (map enc_value l) = l.
Proof. induction 1 as [|v l Hv Hl IH]; [done|]. cbn. rewrite IH. by destruct v. Qed.

Lemma into_path_enc path : into_slice None into_string_ptr SNil (enc_path path) = Some (Slice path []).
Proof.
  unfold enc_path. rewrite into_slice_fresh, (mapM_map_Some _ _ (fun p => p)) by (by intros []). by rewrite map_id.
Qed.

Lemma dec_enc_claim c d : enc_ClaimQuery c = Ok d → wf_claim c → dec_ClaimQuery d = Some c.
Proof.
  unfold enc_ClaimQuery, wf_claim. destruct (validateClaimPath (cq_Path c)) eqn:Hp; [|done]. cbn [negb].
  intros E Hw. apply bind_Ok in E as ([] & Hv & [= <-]). unfold dec_ClaimQuery. cbn [struct_members mbind option_bind].
  assert (exact_names ["id"; "path"; "values"] ∧ NoDup ["id"; "path"; "values"]) as [He Hd]
    by (split; [by repeat constructor|by apply (bool_decide_unpack _)]).
  rewrite !(field_of_struct _ _ _ ["id"; "path"; "values"]), (field_docs_of_struct _ ["id"; "path"; "values"])
    by (first [done | set_solver | field_names]).
  look_up. rewrite omit_str. cbn [mbind option_bind]. rewrite into_path_enc. cbn [mbind option_bind contents default from_option id].
  rewrite Hp. cbn [negb]. destruct c as [i path [l|]]; [|done]. cbn [cq_ID cq_Path cq_Values default from_option id] in *.
  destruct l as [|v l]; [done|]. cbn [is_nil]. rewrite value_of_enc by done. by destruct (validateClaimValues (v :: l) true).
Qed.

(** ** Extensions *)

Lemma is_any_no_dup d : is_any d → hasDuplicateMembers d = false.
Proof. intros <-. apply as_any_no_dup. Qed.

Lemma is_any_fmap (m : gmap string doc) : map_Forall (fun _ => is_any) m → as_any <$> m = m.
Proof. intros Hm. rewrite <- (map_fmap_id m) at 2. apply map_fmap_ext. exact Hm. Qed.

(** What [marshalWithExtra] writes, [splitMembers] takes apart. *)
Lemma split_marshalled known reserved extra e :
  marshalWithExtra known reserved extra = Ok e → NoDup known.*1 → known.*1 ⊆ reserved →
  (∀ k d, (k, d) ∈ known → hasDuplicateMembers d = false) → map_Forall (fun _ => is_any) extra →
  hasDuplicateMembers e = false ∧ splitMembers e reserved = Ok (last_wins known, extra).
Proof.
  intros E Hd Hs Hk Ha. destruct (marshalWithExtra_Ok _ _ _ _ E Hd) as (Hx & ms & -> & Hms & Hl).
  rewrite (is_any_fmap extra Ha) in Hl.
  assert (hasDuplicateMembers (DObj ms) = false) as Hdup.
  { apply hasDup_obj. split; [done|]. intros k d Hin. rewrite <- last_wins_lookup, Hl in Hin by done.
    apply lookup_union_Some_raw in Hin as [Hin|[_ Hin]]; [by apply is_any_no_dup, (Ha k)|].
    by eapply Hk, last_wins_elem. }
  split; [done|]. unfold splitMembers. rewrite Hdup. cbn [as_map]. rewrite Hl.
  assert (∀ k d, last_wins known !! k = Some d → k ∈ reserved) as Hr.
  { intros k d Hin%last_wins_elem. apply Hs, list_elem_of_fmap. by exists (k, d). }
  do 2 f_equal; apply map_eq; intros k; apply option_eq; intros d.
  - rewrite map_lookup_filter_Some, lookup_union_Some_raw. cbn. split.
    + intros [[Hin|[_ Hin]] Hin']; [by apply Hx in Hin as []|done].
    + intros Hin. split; [right; split; [|done]|by eapply Hr]. destruct (extra !! k) as [v|] eqn:Ev; [|done].
      apply Hx in Ev as []. by rewrite Hin in *.
  - rewrite lookup_fmap, fmap_Some. setoid_rewrite map_lookup_filter_Some. setoid_rewrite lookup_union_Some_raw. cbn. split.
    + intros (x & [[Hin|[_ Hin]] Hn] & ->); [|by apply Hr in Hin]. by rewrite (Ha k x Hin).
    + intros Hin. exists d. split; [split; [by left|by apply Hx in Hin as []]|]. symmetry. by apply (Ha k).
Qed.

Definition wf_req (r : ReqItem) : Prop :=
  map_Forall (fun _ => is_any) (Params r) ∧ map_Forall (fun _ => is_any) (req_Extra r).

Lemma any_map_no_dup (m : gmap string doc) :
  map_Forall (fun _ => is_any) m → hasDuplicateMembers (DObj (map_members m)) = false.
Proof.
  intros Hm. apply hasDup_obj. split; [apply map_members_NoDup|]. intros k d Hin%elem_of_map_members.
  by apply is_any_no_dup, (Hm k).
Qed.

Lemma enc_req_split r d :
  enc_ReqItem r = Ok d → wf_req r →
  hasDuplicateMembers d = false ∧
  splitMembers d reqitem_members =
    Ok (last_wins ([("fn_id", DStr (FnID r)); ("return", DStr (Return r))] ++
          omitempty "params" (bool_decide (Params r = ∅)) (DObj (map_members (Params r))))%list, req_Extra r).
Proof.
  intros E [Hp He]. unfold enc_ReqItem in E. rewrite (is_any_fmap _ Hp) in E.
  assert ((([("fn_id", DStr (FnID r)); ("return", DStr (Return r))] ++
    omitempty "params" (bool_decide (Params r = ∅)) (DObj (map_members (Params r))))%list).*1 `sublist_of` reqitem_members) as Hs
    by (unfold reqitem_members; field_names).
  eapply split_marshalled in E; [exact E| | | |done].
  - eapply sublist_NoDup_names; [exact Hs|]. by apply (bool_decide_unpack _).
  - intros k Hk. by eapply sublist_subseteq.
  - intros k x. cbn [app]. rewrite !elem_of_cons. intros [[= -> ->]|[[= -> ->]|Hx]]; [done|done|].
    destruct (bool_decide _); [by apply elem_of_nil in Hx|]. apply list_elem_of_singleton in Hx as [= -> ->]. by apply any_map_no_dup.
Qed.

Lemma dec_enc_req r d : enc_ReqItem r = Ok d → wf_req r → dec_ReqItem d = Some r.
Proof.
  intros E Hw. destruct (enc_req_split r d E Hw) as [_ Es]. unfold dec_ReqItem. rewrite Es. unfold known_field. look_up.
  cbn [mbind option_bind dec_string into_string]. destruct Hw as [Hp He]. destruct r as [fn ret params extra]. cbn in *.
  case_bool_decide as Hc; [by subst params|]. unfold dec_any_map. cbn [as_map].
  rewrite last_wins_map_members, (is_any_fmap _ Hp). done.
Qed.

(** ** The whole query *)

Definition wf_query (q : CredentialQuery) : Prop :=
  wf_meta (Meta q) ∧ Forall wf_claim (Claims q) ∧ Forall wf_req (Req q) ∧ map_Forall (fun _ => is_any) (Extra q).

Lemma enc_all_Forall2 {A} (enc : A → result dcql_error doc) l ds :
  enc_all enc l = Ok ds ↔ Forall2 (fun x d => enc x = Ok d) l ds.
Proof.
  revert ds. induction l as [|x l IH]; intros ds; cbn.
  - split; [by intros [= <-]|by inversion 1].
  - fold (enc_all enc l). split.
    + intros. inv_ok. subst ds. constructor; [done|]. by apply IH.
    + inversion 1 as [|? d ? ds' Hd Hds]; subst. rewrite Hd. cbn. by rewrite (proj2 (IH ds') Hds).
Qed.

Lemma dec_list_enc {A} (enc : A → result dcql_error doc) dec (wf : A → Prop) l ds :
  (∀ x d, enc x = Ok d → wf x → dec d = Some x) → enc_all enc l = Ok ds → Forall wf l → mapM dec ds = Some l.
Proof.
  intros Hdec E%enc_all_Forall2 Hw. apply mapM_Some. induction E as [|x d l ds Hx Hl IH]; [constructor|].
  apply Forall_cons in Hw as [Hx' Hw]. constructor; eauto.
Qed.

Lemma enc_all_no_dup {A} (enc : A → result dcql_error doc) (wf : A → Prop) l ds :
  (∀ x d, enc x = Ok d → wf x → hasDuplicateMembers d = false) → enc_all enc l = Ok ds → Forall wf l →
  hasDuplicateMembers (DArr ds) = false.
Proof.
  intros Hd E%enc_all_Forall2 Hw. apply hasDup_arr. induction E as [|x d l ds Hx Hl IH]; [by intros ? ?%elem_of_nil|].
  apply Forall_cons in Hw as [Hx' Hw]. intros y [->|Hy]%elem_of_cons; eauto.
Qed.

Lemma strings_no_dup l : hasDuplicateMembers (DArr (map DStr l)) = false.
Proof. induction l as [|s l IH]; [done|]. exact IH. Qed.

Lemma enc_strings_no_dup o : hasDuplicateMembers (enc_strings o) = false.
Proof. destruct o; [apply strings_no_dup|done]. Qed.

Lemma map_no_dup {A} (f : A → doc) l :
  (∀ x, hasDuplicateMembers (f x) = false) → hasDuplicateMembers (DArr (map f l)) = false.
Proof. intros Hf. induction l as [|x l IH]; [done|]. cbn. rewrite Hf. exact IH. Qed.

Lemma enc_zk_no_dup z : hasDuplicateMembers (enc_ZKSystemTypeSpec z) = false.
Proof.
  apply hasDup_obj. split; [apply map_members_NoDup|]. intros k d Hd%elem_of_map_members.
  apply lookup_insert_Some in Hd as [[_ <-]|[_ Hd]]; [done|]. apply lookup_insert_Some in Hd as [[_ <-]|[_ Hd]]; [done|].
  rewrite lookup_fmap in Hd. by apply fmap_Some in Hd as (s & _ & ->).
Qed.

(** One member of a struct encoding *)
Ltac each_member :=
  repeat match goal with
  | Hx : _ ∈ (_ ++ _)%list |- _ => apply elem_of_app in Hx as [Hx|Hx]
  | Hx : _ ∈ omitempty _ ?b _ |- _ => destruct b; cbn [omitempty] in Hx
  | Hx : _ ∈ enc_bool_ptr _ ?b |- _ => destruct b; cbn [enc_bool_ptr] in Hx
  | Hx : _ ∈ [] |- _ => by apply elem_of_nil in Hx
  | Hx : _ ∈ _ :: _ |- _ => apply elem_of_cons in Hx as [[= -> ->]|Hx]
  end.

Lemma enc_meta_no_dup m : hasDuplicateMembers (enc_MetaQuery m) = false.
Proof.
  apply hasDup_obj. split; [exact (enc_meta_NoDup m)|]. intros k d Hd. each_member; try done.
  - apply strings_no_dup.
  - apply map_no_dup, enc_strings_no_dup.
  - apply map_no_dup, enc_zk_no_dup.
Qed.

Lemma enc_claim_no_dup c d : enc_ClaimQuery c = Ok d → wf_claim c → hasDuplicateMembers d = false.
Proof.
  unfold enc_ClaimQuery, wf_claim. destruct (negb _); [done|]. intros E Hw. apply bind_Ok in E as ([] & _ & [= <-]).
  apply hasDup_obj. split.
  { eapply sublist_NoDup_names; [|by apply (bool_decide_unpack (NoDup ["id"; "path"; "values"]))]. field_names. }
  intros k d Hd. each_member; try done; [apply map_no_dup; by intros []|].
  apply hasDup_arr. intros d Hd. apply list_elem_of_In, in_map_iff in Hd as (v & <- & Hv%list_elem_of_In).
  rewrite Forall_forall in Hw. by destruct v; try destruct (Hw _ Hv).
Qed.

Lemma encode_known_no_dup q known :
  encode_known q = Ok known → wf_query q → ∀ k d, (k, d) ∈ known → hasDuplicateMembers d = false.
Proof.
  intros E (Hm & Hc & Hr & _) k d Hd. unfold encode_known in E. apply bind_Ok in E as (claims & Hcl & E).
  apply bind_Ok in E as (req & Hreq & E). injection E as E. rewrite <- E in Hd. each_member; try done.
  - apply enc_meta_no_dup.
  - apply map_no_dup. intros t. cbn. by rewrite enc_strings_no_dup.
  - eapply (enc_all_no_dup enc_ClaimQuery wf_claim); eauto using enc_claim_no_dup.
  - apply map_no_dup, enc_strings_no_dup.
  - eapply (enc_all_no_dup enc_ReqItem wf_req); [|done|done]. intros r x Er Hw. by apply (enc_req_split r x Er).
Qed.

Lemma omit_sets l :
  match (if is_nil l then None else Some (DArr (map enc_strings l))) with Some d => dec_claim_sets d | None => Some [] end = Some l.
Proof.
  destruct l as [|x l]; [done|]. cbn [is_nil]. unfold dec_claim_sets. destruct (into_string_lists_enc (x :: l)) as (s & -> & Hc).
  cbn. by rewrite Hc.
Qed.

Lemma omit_list {A} (l : list A) dec ds :
  mapM dec ds = Some l →
  match (if is_nil l then None else Some (DArr ds)) with Some d => dec_list dec d | None => Some [] end = Some l.
Proof. by destruct l. Qed.

Lemma decode_encode_known q known :
  encode_known q = Ok known → wf_query q →
  decode_known (last_wins known) =
  Some (mkCredentialQuery (ID q) (Format q) (Multiple q) (Meta q) (TrustedAuthorities q)
          (RequireCryptographicHolderBinding q) (Claims q) (ClaimSet q) (Req q) ∅ None).
Proof.
  intros E (Hm & Hc & Hr & _). unfold encode_known in E. apply bind_Ok in E as (claims & Hcl & E).
  apply bind_Ok in E as (req & Hreq & E). injection E as E. rewrite <- E. unfold decode_known, known_field. clear E. look_up.
  rewrite (dec_enc_meta _ Hm), omit_sets.
  rewrite (omit_list (TrustedAuthorities q)) by (rewrite (mapM_map_Some _ _ (fun t => t)) by (intros; apply dec_enc_trusted); by rewrite map_id).
  rewrite (omit_list (Claims q)) by (by apply (dec_list_enc enc_ClaimQuery _ wf_claim); first [apply dec_enc_claim|done]).
  rewrite (omit_list (Req q)) by (by apply (dec_list_enc enc_ReqItem _ wf_req); first [apply dec_enc_req|done]).
  cbn [mbind option_bind dec_string into_string]. destruct (Multiple q), (RequireCryptographicHolderBinding q); done.
Qed.

(** ** What decoding gives *)

Lemma into_all_last {A} (f : into A) zero ds a :
  into_all f zero ds = Some a → a = zero ∨ ∃ old d, f old d = Some a.
Proof.
  unfold into_all. induction ds as [|d ds IH] using rev_ind; cbn; [intros [= <-]; by left|].
  rewrite foldl_app. cbn. intros (old & _ & E)%bind_Some. eauto.
Qed.

Lemma over_decoded {A} (zero : A) dec old l xs :
  over zero (fresh dec) old l = Some xs → ∀ x, x ∈ xs → ∃ d, dec d = Some x.
Proof.
  revert old xs. induction l as [|d l IH]; intros old xs; cbn; [intros [= <-] x ?%elem_of_nil; done|].
  intros (y & Hy & E)%bind_Some x. apply bind_Some in E as (ys & Hys & [= <-]).
  intros [->|Hx]%elem_of_cons; [by exists d|by eapply IH].
Qed.

Lemma slice_decoded {A} (zero : A) dec name ms s :
  field (into_slice zero (fresh dec)) SNil name ms = Some s → ∀ x, x ∈ default [] (contents s) → ∃ d, dec d = Some x.
Proof.
  intros [->|(old & d & E)]%into_all_last x Hx; [by apply elem_of_nil in Hx|].
  destruct d as [| | | |[|d l]|]; try done; [by injection E as <-; apply elem_of_nil in Hx|by injection E as <-; apply elem_of_nil in Hx|].
  apply bind_Some in E as (xs & Exs & [= <-]). by eapply over_decoded.
Qed.

Lemma dec_zk_wf d z : dec_ZKSystemTypeSpec d = Some z → wf_zk z.
Proof.
  unfold dec_ZKSystemTypeSpec. intros (m & _ & E)%bind_Some. apply bind_Some in E as (i & _ & E).
  apply bind_Some in E as (sys & _ & [= <-]). split; cbn; rewrite lookup_fmap.
  - by rewrite lookup_delete_eq.
  - by rewrite lookup_delete_ne, lookup_delete_eq.
Qed.

Lemma dec_meta_wf d m : dec_MetaQuery d = Some m → wf_meta m.
Proof.
  unfold dec_MetaQuery. intros E. do 6 (apply bind_Some in E as (? & _ & E)).
  apply bind_Some in E as (zk & Hzk & E). apply bind_Some in E as (? & _ & [= <-]). apply Forall_forall. cbn [ZKSystemType].
  intros z Hz. destruct (slice_decoded _ _ _ _ _ Hzk z Hz) as [y Hy]. by eapply dec_zk_wf.
Qed.

Lemma dec_claim_wf d c : dec_ClaimQuery d = Some c → wf_claim c.
Proof.
  unfold dec_ClaimQuery. intros E. do 3 (apply bind_Some in E as (? & _ & E)). destruct (negb _); [done|].
  destruct (last _) as [[| | | |l|]|]; try done; [|injection E as <-; constructor].
  destruct (validateClaimValues _ _) eqn:Hv; [|done]. injection E as <-. unfold wf_claim. cbn [cq_Values default from_option id].
  unfold validateClaimValues in Hv. cbn [negb orb] in Hv. apply andb_true_iff in Hv as [_ Hv].
  rewrite forallb_forall in Hv. apply Forall_forall. intros v Hin. specialize (Hv v (proj1 (list_elem_of_In _ _) Hin)).
  apply list_elem_of_In, in_map_iff in Hin as (y & <- & _). by destruct y.
Qed.

Lemma is_any_values (m : gmap string doc) : map_Forall (fun _ => is_any) (as_any <$> m).
Proof. intros k x. rewrite lookup_fmap, fmap_Some. intros (y & _ & ->). apply as_any_idem. Qed.

Lemma split_extra d known all extra : splitMembers d known = Ok (all, extra) → map_Forall (fun _ => is_any) extra.
Proof. unfold splitMembers. destruct (hasDuplicateMembers d); [done|]. destruct (as_map d); [|done]. intros [= _ <-]. apply is_any_values. Qed.

Lemma dec_req_wf d r : dec_ReqItem d = Some r → wf_req r.
Proof.
  unfold dec_ReqItem. destruct (splitMembers d _) as [[known extra]|] eqn:Es; [|done]. intros E.
  do 2 (apply bind_Some in E as (? & _ & E)). apply bind_Some in E as (params & Hp & [= <-]). split; cbn; [|by eapply split_extra].
  unfold known_field, dec_any_map in Hp. destruct (known !! "params") as [y|]; [|injection Hp as <-; apply map_Forall_empty].
  destruct (as_map y); [|done]. injection Hp as <-. apply is_any_values.
Qed.

Lemma dec_list_wf {A} (dec : doc → option A) (wf : A → Prop) name m l :
  (∀ d x, dec d = Some x → wf x) → known_field (dec_list dec) [] name m = Some l → Forall wf l.
Proof.
  intros Hw. unfold known_field. destruct (m !! name) as [d|]; [|intros [= <-]; constructor].
  destruct d as [| | | |ds|]; try done; cbn; [intros [= <-]; constructor|]. intros E%mapM_Some.
  induction E; constructor; eauto.
Qed.

Lemma typed_decode_wf d q : typed_decode d = Ok q → wf_query q.
Proof.
  unfold typed_decode. intros E. apply bind_Ok in E as ([known extra] & Es & E).
  destruct (decode_known _) as [k|] eqn:Ek; [|done]. injection E as <-. unfold decode_known in Ek.
  do 3 (apply bind_Some in Ek as (? & _ & Ek)). apply bind_Some in Ek as (meta & Hm & Ek).
  do 2 (apply bind_Some in Ek as (? & _ & Ek)). apply bind_Some in Ek as (claims & Hc & Ek).
  apply bind_Some in Ek as (? & _ & Ek). apply bind_Some in Ek as (req & Hr & [= <-]). unfold wf_query. cbn. split_and!.
  - unfold known_field in Hm. cbn in Hm. destruct (known !! "meta"); [by eapply dec_meta_wf|]. injection Hm as <-. constructor.
  - eapply dec_list_wf, Hc. apply dec_claim_wf.
  - eapply dec_list_wf, Hr. apply dec_req_wf.
  - by eapply split_extra.
Qed.

Lemma no_dup_not_ambiguous d : hasDuplicateMembers d = false → ambiguousConstraintMembers d = [].
Proof.
  unfold ambiguousConstraintMembers. destruct d as [| | | | |ms]; try done. intros [Hd Hn]%hasDup_obj.
  cbn [topLevelMemberNames]. apply sorted_names_nil, app_nil. split.
  - apply list_filter_nil. intros x _. by apply not_repeated, NoDup_once.
  - unfold nested_meta. cbn. destruct (last_wins ms !! "meta") as [dm|] eqn:Em; [|done]. cbn.
    destruct dm as [| | | | |inner]; try done. apply last_wins_elem, Hn, hasDup_obj in Em as [Hi _].
    cbn. enough (List.filter (repeated (foldl count_name ∅ inner)) (map fst (map_to_list (foldl count_name ∅ inner))) = []) as -> by done.
    apply list_filter_nil. intros x _. by apply not_repeated, NoDup_once.
Qed.

(** A typed query, written and decoded again *)
Lemma typed_reload q e : Raw q = None → wf_query q → MarshalJSON q = Ok e → UnmarshalJSON e = Ok q.
Proof.
  intros Hr Hw He. pose proof He as Hm. unfold MarshalJSON in Hm. rewrite Hr in Hm. apply bind_Ok in Hm as (known & Hk & Hm).
  destruct (split_marshalled _ _ _ _ Hm) as [Hdup Hs].
  - by eapply encode_known_NoDup.
  - intros k Hin. eapply sublist_subseteq; [by eapply encode_known_names|done].
  - by eapply encode_known_no_dup.
  - apply Hw.
  - assert (typed_decode e = Ok q) as Ht.
    { unfold typed_decode. rewrite Hs. cbn [mbind result_bind fst snd]. rewrite (decode_encode_known q known Hk Hw).
      unfold with_extra. cbn. destruct q; cbn in *. by subst. }
    unfold UnmarshalJSON. rewrite Ht, (no_dup_not_ambiguous e Hdup), Hdup. unfold encodesBackTo. rewrite He.
    unfold jsonEquivalent. by rewrite bool_decide_eq_true_2.
Qed.

(** Decoding loses nothing.  What a decoded query is sent as has the value
    of the document it came from, and is that document itself where the typed
    form would not do; sent on, stored or read by another node, it decodes to
    the same query. *)
Theorem reload_same d q :
  UnmarshalJSON d = Ok q →
  ∃ e, MarshalJSON q = Ok e ∧ jsonEquivalent d e = true ∧ UnmarshalJSON e = Ok q ∧
       (Raw q = Some (RawDoc d) ∧ e = d ∨ Raw q = None ∧ hasDuplicateMembers d = false).
Proof.
  intros E. destruct (UnmarshalJSON_cases d q E) as [(Hr & Ht & Hd & Hb & _)|[Hc ->]].
  - unfold encodesBackTo in Hb. destruct (MarshalJSON q) as [e|] eqn:He; [|done]. exists e. split_and!; [done|done| |by right].
    apply typed_reload; [done| |done]. by eapply typed_decode_wf.
  - exists d. split_and!; [| |done|left; by rewrite adoptRawShadow_Raw].
    + unfold MarshalJSON. rewrite adoptRawShadow_Raw, adoptRawShadow_Extra. done.
    + unfold jsonEquivalent. by rewrite bool_decide_eq_true_2.
Qed.

(** ** Stored requests *)

(** The queries this verifier stores: decoded ones, and raw ones *)
Definition stored (q : CredentialQuery) : Prop :=
  (∃ raw, NewRawCredentialQuery raw = Ok q) ∨ ∃ d, UnmarshalJSON d = Ok q.

(** The members the program reads off a query, apart from how it is sent *)
Definition modelled (q : CredentialQuery) :=
  (ID q, Format q, Multiple q, Meta q, TrustedAuthorities q, RequireCryptographicHolderBinding q, Claims q, ClaimSet q, Req q).

(** The same query to the program and on the wire *)
Definition same_query (q q' : CredentialQuery) : Prop :=
  modelled q = modelled q' ∧
  ∃ e e', MarshalJSON q = Ok e ∧ MarshalJSON q' = Ok e' ∧ jsonEquivalent e e' = true.

Lemma shadow_of_known {A} (dec : doc → option A) zero name m (names : list string) a :
  name ∈ names → known_field dec zero name (filter (fun x => x.1 ∈ names) m) = Some a →
  ∀ k, (shadow_field dec zero k name m).1.1 = a.
Proof.
  unfold known_field, shadow_field. intros Hn E k. destruct (m !! name) as [d|] eqn:Em.
  - rewrite (map_lookup_filter_Some_2 _ _ _ d) in E by done. by rewrite E.
  - rewrite map_lookup_filter_None_2 in E by (by left). by injection E.
Qed.

(** Where the typed decode succeeds, the shadow has the same members. *)
Lemma shadow_modelled d q : typed_decode d = Ok q → modelled (adoptRawShadow d).1 = modelled q.
Proof.
  unfold typed_decode, splitMembers. destruct (hasDuplicateMembers d); [done|]. destruct (as_map d) as [m|] eqn:Em; [|done].
  cbn [mbind result_bind fst snd]. destruct (decode_known _) as [k|] eqn:Ek; [|done]. intros [= <-].
  unfold decode_known in Ek.
  do 9 (let Ha := fresh "Ha" in let Hs := fresh "Hs" in apply bind_Some in Ek as (? & Ha & Ek);
        pose proof (fun Hn => shadow_of_known _ _ _ _ query_members _ Hn Ha) as Hs; clear Ha;
        specialize (Hs ltac:(unfold query_members; set_solver))).
  injection Ek as <-. unfold adoptRawShadow, adoptRawShadowReporting. rewrite Em.
  repeat match goal with
  | Ha : ∀ k, (shadow_field ?dec ?zero k ?n ?m).1.1 = _ |- context [shadow_field ?dec ?zero ?k ?n ?m] =>
      specialize (Ha k); destruct (shadow_field dec zero k n m) as [[? ?] ?]; cbn [fst] in Ha; subst
  end.
  done.
Qed.

Lemma jsonEquivalent_refl d : jsonEquivalent d d = true.
Proof. unfold jsonEquivalent. by rewrite bool_decide_eq_true_2. Qed.

(** Each stored query reloads from what it was written as. *)
Lemma reload_stored q e : stored q → MarshalJSON q = Ok e → ∃ q', reload e = Some q' ∧ same_query q q'.
Proof.
  intros [[raw Hn]|[d Hd]] He.
  - destruct raw as [d|]; [|done]. unfold NewRawCredentialQuery in Hn. apply bind_Ok in Hn as ([] & Hc & [= <-]).
    pose proof He as He'. unfold MarshalJSON in He'. rewrite adoptRawShadow_Raw, adoptRawShadow_Extra, bool_decide_eq_true_2 in He' by done.
    injection He' as <-.
    unfold reload. destruct (UnmarshalJSON d) as [q'|] eqn:Eu.
    + exists q'. split; [done|]. destruct (reload_same d q' Eu) as (e' & He' & Heq & _ & _). split; [|by exists d, e'].
      destruct (UnmarshalJSON_cases d q' Eu) as [(_ & Ht & _)|[_ ->]]; [by apply shadow_modelled|done].
    + unfold NewRawCredentialQuery. rewrite Hc. eexists. split; [done|]. split; [done|]. exists d, d.
      split_and!; [done|done|apply jsonEquivalent_refl].
  - destruct (reload_same d q Hd) as (e' & He' & _ & Hu & _). rewrite He in He'. injection He' as <-.
    exists q. unfold reload. rewrite Hu. split; [done|]. split; [done|]. exists e, e. split_and!; [done|done|apply jsonEquivalent_refl].
Qed.

Lemma into_set_enc s : ∃ x, into_set (SNil, None) (enc_set s) = Some x ∧ mkCredentialSetQuery (string_lists x.1) x.2 = s.
Proof.
  unfold into_set, enc_set. set (ms := ([("options", _)] ++ _)%list).
  assert (ms.*1 `sublist_of` ["options"; "required"]) as Hs.
  { unfold ms. rewrite fmap_app. apply names_cons; [apply sublist_skip, sublist_nil|apply enc_bool_ptr_names]. }
  assert (exact_names ["options"; "required"] ∧ NoDup ["options"; "required"]) as [He Hd]
    by (split; [by repeat constructor|by apply (bool_decide_unpack _)]).
  fold (field into_string_lists (fst (SNil, @None bool)) "options" ms).
  fold (field into_bool_ptr (snd (@SNil (slice string), None)) "required" ms).
  rewrite !(field_of_struct _ _ _ ["options"; "required"]) by (first [done|set_solver]). unfold ms. look_up.
  destruct s as [options required]. cbn [Options Required fst snd].
  assert (∃ o, into_string_lists SNil match options with Some l => DArr (map enc_strings l) | None => DNull end = Some o ∧
    string_lists o = options) as (o & -> & Ho).
  { destruct options as [l|]; [apply into_string_lists_enc|by exists SNil]. }
  destruct required; cbn; eexists; (split; [done|]); cbn; by rewrite Ho.
Qed.

(** The members of a stored request *)
Lemma dcql_members credentials sets :
  let ms := ([("credentials", credentials)] ++ omitempty "credential_sets" (is_nil sets) (DArr (map enc_set sets)))%list in
  dec_sets ms = Some sets ∧ ∀ A (f : into A) zero, field f zero "credentials" ms = f zero credentials.
Proof.
  cbv zeta. set (ms := ([("credentials", _)] ++ _)%list).
  assert (ms.*1 `sublist_of` ["credentials"; "credential_sets"]) as Hs by (unfold ms; field_names).
  assert (exact_names ["credentials"; "credential_sets"] ∧ NoDup ["credentials"; "credential_sets"]) as [He Hd]
    by (split; [by repeat constructor|by apply (bool_decide_unpack _)]).
  split.
  - unfold dec_sets. rewrite (field_of_struct _ _ _ ["credentials"; "credential_sets"]) by (first [done|set_solver]).
    unfold ms. look_up. destruct sets as [|s sets]; [done|]. cbn [is_nil]. rewrite into_slice_fresh.
    enough (∃ xs, mapM (into_set (SNil, None)) (map enc_set (s :: sets)) = Some xs ∧
      map (fun x => mkCredentialSetQuery (string_lists x.1) x.2) xs = s :: sets) as (xs & -> & E) by (cbn; by rewrite E).
    generalize (s :: sets). clear. intros all. induction all as [|t l (xs & E & Hx)]; [by exists []|]. destruct (into_set_enc t) as (x & Et & Hs').
    exists (x :: xs). split; [|cbn [map]; by rewrite Hs', Hx]. apply mapM_Some. cbn [map]. constructor; [done|]. by apply mapM_Some.
  - intros A f zero. rewrite (field_of_struct _ _ _ ["credentials"; "credential_sets"]) by (first [done|set_solver]).
    unfold ms. by look_up.
Qed.

(** C30: A request that could be published reloads.  For a request made of
    decoded queries and of raw queries, those included that strict decoding
    refuses, [UnmarshalTrustedDCQL] reads what was stored back to the same
    credential sets and, query by query, to the same members, sent as the same
    value. *)
Theorem trusted_reload queries sets e :
  Forall stored queries → MarshalDCQL (mkDCQL (Some queries) sets) = Ok e →
  ∃ queries', UnmarshalTrustedDCQL e = Some (mkDCQL (Some queries') sets) ∧ Forall2 same_query queries queries'.
Proof.
  intros Hst E. unfold MarshalDCQL in E. cbn [Credentials CredentialSets] in E. apply bind_Ok in E as (c & Hc & [= <-]).
  apply bind_Ok in Hc as (ds & Hds%enc_all_Forall2 & [= <-]).
  destruct (dcql_members (DArr ds) sets) as [Hsets Hcred]. cbn [app] in Hsets, Hcred.
  assert (∃ qs, mapM reload ds = Some qs ∧ Forall2 same_query queries qs) as (qs & Hqs & Hsame).
  { clear Hsets Hcred. induction Hds as [|q d queries ds Hd Hds IH]; [by exists []|]. apply Forall_cons in Hst as [Hq Hst].
    destruct (reload_stored q d Hq Hd) as (q' & Hr & Hs), (IH Hst) as (qs & Hqs & Hf). exists (q' :: qs). split; [|by constructor].
    cbn. rewrite Hr. cbn. by rewrite Hqs. }
  exists qs. split; [|done]. unfold UnmarshalTrustedDCQL, UnmarshalDCQL. cbn [struct_members]. cbn [mbind option_bind].
  rewrite !Hcred, Hsets. rewrite !into_slice_fresh. cbn [mbind option_bind].
  assert (mapM (fresh Some DNull) ds = Some ds) as -> by (apply mapM_Some; clear; induction ds; constructor; done).
  destruct (mapM (fresh (as_option ∘ UnmarshalJSON) zero_query) ds) as [strict|] eqn:Es; cbn [mbind option_bind contents default from_option id]; [|by rewrite Hqs].
  enough (strict = qs) as -> by done. apply mapM_Some in Es. apply mapM_Some in Hqs. clear -Es Hqs. revert qs Hqs.
  induction Es as [|d q ds strict Hd Hs IH]; intros qs; inversion 1 as [|? q' ? qs' Hr Hrs]; subst; [done|].
  f_equal; [|by apply IH]. unfold reload in Hr. unfold fresh in Hd. cbn in Hd. destruct (UnmarshalJSON d); [|done].
  cbn in Hd. congruence.
Qed.
End reload.
