(* ===== verification/DcqlWitness.v ===== *)
(** * Witnesses for the credential query language

    The theorems of [JsonNumber], [DcqlWire] and [DcqlReload] at concrete
    queries: a typed one, one that is carried raw because its [meta] has a
    member the program does not know, one that only the raw constructor takes,
    and a W3C query. *)

From S2P Require Import Prelude GoStrings Utf8 JsonDoc JsonNumber Dcql DcqlWire DcqlReload.

(** Text of arrays and objects, without their contents *)
#[export] Instance brackets : RawText := {|
  raw_text d := match d with DArr _ => "[]" | _ => "{}" end |}.

Definition query_of (d : doc) : CredentialQuery :=
  match UnmarshalJSON d with Ok q => q | Err _ => zero_query end.

(** Two readers *)
Lemma head_reader : reader head.
Proof. intros [|d l]; [done|left]. Qed.

Lemma last_reader : reader last.
Proof. intros l. destruct (last l) as [d|] eqn:E; [|by apply last_None]. by apply last_Some_elem_of. Qed.

(** ** Numbers *)

(** 150e-1 is fifteen; an exponent at the end of the [int] range is no trap. *)
Lemma isIntegralNumber_spec_witness :
  (∃ b, isIntegralNumber "150e-1" = Some b ∧ (b = true ↔ denotes_integer "150" "" (-1))) ∧
  ∃ b, isIntegralNumber "-1.5E-9223372036854775808" = Some b ∧
       (b = true ↔ denotes_integer "1" "5" (-9223372036854775808)).
Proof.
  split.
  - apply (isIntegralNumber_spec false "150" None (Some ("e"%char, "-1"))); [|reflexivity].
    split; [discriminate|]. split; [reflexivity|]. split; [reflexivity|]. by left.
  - apply (isIntegralNumber_spec true "1" (Some "5") (Some ("E"%char, "-9223372036854775808"))); [|reflexivity].
    split; [discriminate|]. split; [reflexivity|]. split; [reflexivity|]. by right.
Defined.

(** ** Queries *)

Definition typed_query : doc :=
  DObj [("id", DStr "pid"); ("format", DStr "dc+sd-jwt");
        ("meta", DObj [("vct_values", DArr [DStr "urn:eudi:pid:1"])]);
        ("claims", DArr [DObj [("path", DArr [DStr "nationalities"; DNull]); ("values", DArr [DStr "SE"; DNum "10.0"])]]);
        ("x_purpose", DObj [("b", DNum "9007199254740993"); ("a", DNull)])].

(** A member of [meta] that is not modelled: the query is kept as it came. *)
Definition raw_query : doc :=
  DObj [("id", DStr "mdl"); ("format", DStr "mso_mdoc"); ("require_cryptographic_holder_binding", DBool false);
        ("meta", DObj [("doctype_value", DStr "org.iso.18013.5.1.mDL"); ("future", DNum "1")])].

(** Strict decoding refuses this one. *)
Definition malformed_query : doc :=
  DObj [("id", DStr "bad"); ("format", DStr "mso_mdoc"); ("meta", DObj [("doctype_value", DNum "1")])].

Definition w3c_query : doc :=
  DObj [("id", DStr "degree"); ("format", DStr "ldp_vc");
        ("meta", DObj [("type_values", DArr [DArr [DStr BaseVCTypeIRI; DStr "https://example.org/Degree"]])])].

Lemma decoded_query d : (∃ q, UnmarshalJSON d = Ok q) → UnmarshalJSON d = Ok (query_of d).
Proof. intros [q E]. unfold query_of. by rewrite E. Qed.

Ltac decoded := apply decoded_query; eexists; vm_compute; reflexivity.

Lemma accepted_is_constrained_witness :
  constrained head (default DNull (as_option (MarshalJSON (query_of typed_query)))) ∧ constrained last raw_query.
Proof.
  split.
  - apply (accepted_is_constrained (query_of typed_query) _ head);
      [right; right; exists typed_query; decoded|vm_compute; reflexivity|vm_compute; reflexivity|apply head_reader].
  - apply (accepted_is_constrained (query_of raw_query) raw_query last);
      [right; right; exists raw_query; decoded|vm_compute; reflexivity|vm_compute; reflexivity|apply last_reader].
Defined.

Lemma validated_types_narrow_witness :
  ∃ types t, Some types ∈ TypeValues (Meta (query_of w3c_query)) ∧
    types ⊆ [BaseVCTypeIRI; "https://example.org/Degree"; "https://example.org/Other"] ∧
    t ∈ types ∧ t ≠ BaseVCTypeIRI ∧ IsAbsoluteIRI t = true.
Proof.
  apply (validated_types_narrow (query_of w3c_query)).
  - right. right. exists w3c_query. decoded.
  - vm_compute. reflexivity.
  - apply (bool_decide_unpack _). vm_compute. exact I.
  - vm_compute. reflexivity.
Defined.

(** The raw query still says that the binding is optional. *)
Lemma binding_variant_on_wire_witness :
  RequiresCryptographicHolderBinding (bind_holder (query_of raw_query)) = true ∧
  Raw (bind_holder (query_of raw_query)) = Some (RawDoc raw_query) ∧
  read head "require_cryptographic_holder_binding" raw_query = Some (DBool false).
Proof.
  destruct (binding_variant_on_wire (mkDCQL (Some [query_of raw_query]) []) (bind_holder (query_of raw_query)) head raw_query)
    as [Hr _]; [left|vm_compute; reflexivity|apply head_reader|].
  split; [exact Hr|]. split; vm_compute; reflexivity.
Defined.

Lemma reload_same_witness :
  ∃ e, MarshalJSON (query_of typed_query) = Ok e ∧ jsonEquivalent typed_query e = true ∧
       UnmarshalJSON e = Ok (query_of typed_query).
Proof.
  destruct (reload_same typed_query (query_of typed_query)) as (e & H1 & H2 & H3 & _); [decoded|]. exists e. auto.
Defined.

Definition raw_of (d : doc) : CredentialQuery :=
  match NewRawCredentialQuery (RawDoc d) with Ok q => q | Err _ => zero_query end.

Definition stored_request : DCQL :=
  mkDCQL (Some [query_of typed_query; raw_of malformed_query]) [mkCredentialSetQuery (Some [Some ["pid"; "bad"]; None]) (Some false)].

Definition stored_doc : doc := default DNull (as_option (MarshalDCQL stored_request)).

(** Strict decoding refuses what was stored, and the trusted decoding reads it. *)
Lemma trusted_reload_witness :
  UnmarshalDCQL stored_doc = None ∧
  ∃ queries', UnmarshalTrustedDCQL stored_doc = Some (mkDCQL (Some queries') (CredentialSets stored_request)) ∧
    Forall2 same_query [query_of typed_query; raw_of malformed_query] queries'.
Proof.
  split; [vm_compute; reflexivity|]. apply trusted_reload; [|vm_compute; reflexivity].
  constructor; [right; exists typed_query; decoded|]. constructor; [|constructor].
  left. exists (RawDoc malformed_query). vm_compute. reflexivity.
Defined.
