(* ===== verification/ZkpReqFormat.v ===== *)
(** * Circuit filters

    [ZkpReqFormat] of [pkg/openid4vp/zkp_req.go]: the proof systems and circuits
    a verifier accepts, as it says in its metadata.  An absent filter allows
    everything and an empty one nothing, so the two slices are options. *)

From S2P Require Import Prelude GoStrings Utf8 JsonDoc JsonNumber Dcql DcqlWire DcqlReload.

Record ZkpReqFormat := mkZkpReqFormat {
  ProofSystemValues : option (list string);
  SystemIDValues : option (list string);
  zkp_Extra : gmap string doc }.

Definition filter_members : list string := ["proof_system_values"; "system_id_values"].

(** A filter that is null, or has an element that is *)
Definition null_filter (d : doc) : bool :=
  match d with
  | DNull => true
  | DArr l => bool_decide (DNull ∈ l)
  | _ => false
  end.

Definition refuseNullFiltersJSON (data : doc) (names : list string) : bool :=
  match as_map data with
  | None => true
  | Some members => forallb (fun name => match members !! name with Some d => negb (null_filter d) | None => true end) names
  end.

Definition dec_strings (d : doc) : option (option (list string)) := contents <$> into_strings SNil d.

(** [ZkpReqFormat.UnmarshalJSON] *)
Definition UnmarshalZkpReqFormat (data : doc) : result dcql_error ZkpReqFormat :=
  if negb (refuseNullFiltersJSON data filter_members) then Err (Invalid "null filter")
  else
    split ← splitMembers data filter_members;
    match known_field dec_strings None "proof_system_values" split.1,
          known_field dec_strings None "system_id_values" split.1 with
    | Some systems, Some ids => Ok (mkZkpReqFormat systems ids split.2)
    | _, _ => Err WrongType
    end.

(** [omitzero]: the nil slice is left out, the empty one is not *)
Definition omitzero (name : string) (l : option (list string)) : members :=
  match l with None => [] | Some l => [(name, DArr (map DStr l))] end.

(** [ZkpReqFormat.MarshalJSON] *)
Definition MarshalZkpReqFormat (c : ZkpReqFormat) : result dcql_error doc :=
  marshalWithExtra
    (omitzero "proof_system_values" (ProofSystemValues c) ++ omitzero "system_id_values" (SystemIDValues c))
    filter_members (zkp_Extra c).

(** ** Nothing is lost *)

Lemma omitzero_names name l : (omitzero name l).*1 `sublist_of` [name].
Proof. destruct l; repeat constructor. Qed.

Lemma last_wins_omitzero n l k :
  last_wins (omitzero n l) !! k = if String.eqb n k then (fun l => DArr (map DStr l)) <$> l else None.
Proof. destruct l; cbn [omitzero fmap option_fmap option_map]; [apply last_wins_single|]. by destruct (String.eqb n k). Qed.

(** A filter without null is decoded to what it says. *)
Lemma dec_filter d l :
  null_filter d = false → dec_strings d = Some l → ∃ ss, l = Some ss ∧ d = DArr (map DStr ss).
Proof.
  unfold dec_strings, into_strings. rewrite into_slice_fresh. destruct d as [| | | |ds|]; try done. cbn [null_filter].
  rewrite bool_decide_eq_false. intros Hn E. apply fmap_Some in E as (s & E & ->). apply bind_Some in E as (xs & Exs & [= <-]).
  exists xs. split; [done|]. f_equal. apply mapM_Some in Exs. induction Exs as [|d s ds xs Hd Hs IH]; [done|].
  apply not_elem_of_cons in Hn as [Hd' Hn]. cbn. rewrite IH by done. f_equal. by destruct d; try injection Hd as ->.
Qed.

Definition filter_known (m : gmap string doc) : gmap string doc := filter (fun x => x.1 ∈ filter_members) m.

(** A filter of the decoded struct against the member it came from *)
Lemma known_filter m name l :
  match m !! name with Some d => negb (null_filter d) | None => true end = true → name ∈ filter_members →
  known_field dec_strings None name (filter_known m) = Some l →
  (fun l => DArr (map DStr l)) <$> l = m !! name.
Proof.
  unfold known_field, filter_known. intros Hn Hin E. destruct (m !! name) as [d|] eqn:Em.
  - rewrite (map_lookup_filter_Some_2 _ _ _ d) in E by done. apply negb_true_iff in Hn.
    destruct (dec_filter d l Hn E) as (ss & -> & ->). done.
  - rewrite map_lookup_filter_None_2 in E by (by left). by injection E as <-.
Qed.

Lemma fresh_extra known reserved (extra : gmap string doc) :
  known.*1 ⊆ reserved → (∀ k v, extra !! k = Some v → k ∉ reserved) → ∃ e, marshalWithExtra known reserved extra = Ok e.
Proof.
  intros Hk Hx. unfold marshalWithExtra. case_bool_decide; [by eexists|]. destruct (List.filter _ _) as [|[k v] l] eqn:E; [by eexists|].
  exfalso. assert ((k, v) ∈ List.filter (fun m => bool_decide (fst m ∈ reserved) || bool_decide (is_Some (last_wins known !! fst m)))
    (map_members extra)) as Hin by (rewrite E; left).
  apply list_elem_of_In, filter_In in Hin as [Hin Hb]. apply list_elem_of_In, elem_of_map_members, Hx in Hin. cbn in Hb.
  apply orb_true_iff in Hb as [Hb|Hb]; apply bool_decide_eq_true in Hb; [done|]. destruct Hb as [d Hd%last_wins_elem].
  apply Hin, Hk, list_elem_of_fmap. by exists (k, d).
Qed.

(** Client metadata survives a decode and an encode: what is written for a
    decoded filter has the value of what was read, members that are not
    modelled, their numbers and the difference between an empty filter and no
    filter included. *)
Theorem filter_lossless ms c :
  UnmarshalZkpReqFormat (DObj ms) = Ok c → ∃ e, MarshalZkpReqFormat c = Ok e ∧ jsonEquivalent (DObj ms) e = true.
Proof.
  unfold UnmarshalZkpReqFormat. destruct (refuseNullFiltersJSON _ _) eqn:Hn; [|done]. cbn [negb]. unfold splitMembers.
  destruct (hasDuplicateMembers (DObj ms)); [done|]. cbn [as_map mbind result_bind fst snd]. unfold refuseNullFiltersJSON in Hn. cbn [as_map] in Hn.
  set (m := last_wins ms) in *. fold (filter_known m). destruct (known_field _ _ "proof_system_values" _) as [systems|] eqn:E1; [|done].
  destruct (known_field _ _ "system_id_values" _) as [ids|] eqn:E2; [|done]. intros [= <-]. unfold MarshalZkpReqFormat.
  cbn [forallb filter_members] in Hn. apply andb_true_iff in Hn as [Hn1 Hn2%andb_true_iff]. destruct Hn2 as [Hn2 _].
  apply known_filter in E1; [|done|unfold filter_members; set_solver]. apply known_filter in E2; [|done|unfold filter_members; set_solver].
  cbn [ProofSystemValues SystemIDValues zkp_Extra]. set (known := (omitzero _ systems ++ _)%list).
  assert (known.*1 `sublist_of` filter_members) as Hs.
  { unfold known. rewrite fmap_app. apply names_cons; [apply omitzero_names|apply omitzero_names]. }
  assert (∀ k, last_wins known !! k = if bool_decide (k ∈ filter_members) then m !! k else None) as Hl.
  { intros k. unfold known. rewrite last_wins_app, !last_wins_omitzero, E1, E2. unfold filter_members.
    destruct (String.eqb_spec "system_id_values" k) as [<-|H1].
    { rewrite bool_decide_eq_true_2 by set_solver. by destruct (m !! "system_id_values"). }
    destruct (String.eqb_spec "proof_system_values" k) as [<-|H2]; [by rewrite bool_decide_eq_true_2 by set_solver|].
    by rewrite bool_decide_eq_false_2 by set_solver. }
  destruct (fresh_extra known filter_members (as_any <$> filter (fun x => x.1 ∉ filter_members) m)) as [e He].
  { intros k Hk. by eapply sublist_subseteq. }
  { intros k v. rewrite lookup_fmap, fmap_Some. intros (x & Hx & _). by apply map_lookup_filter_Some in Hx as []. }
  exists e. split; [done|]. apply marshalWithExtra_Ok in He as (_ & ms' & -> & Hd & Hms'); [|eapply sublist_NoDup_names; [exact Hs|by apply (bool_decide_unpack _)]].
  apply bool_decide_eq_true. rewrite !as_any_obj, Hms'. f_equal. f_equal. fold m. apply map_eq. intros k.
  rewrite !lookup_fmap, lookup_union, !lookup_fmap, Hl. destruct (decide (k ∈ filter_members)) as [Hk|Hk].
  - rewrite bool_decide_eq_true_2, map_lookup_filter_None_2 by (done || (right; intros x _ Hx; by destruct Hx)). by destruct (m !! k).
  - rewrite bool_decide_eq_false_2 by done. destruct (m !! k) as [x|] eqn:Ek.
    + rewrite (map_lookup_filter_Some_2 _ _ _ x) by done. cbn. by rewrite !as_any_idem.
    + by rewrite map_lookup_filter_None_2 by (by left).
Qed.

(** An empty filter stays one, next to a member that is not modelled. *)
Lemma filter_lossless_witness :
  ∃ e, MarshalZkpReqFormat (mkZkpReqFormat None (Some []) {[ "CIRCUIT_ID_VALUES" := DArr [DStr "urn:x"] ]}) = Ok e ∧
       jsonEquivalent (DObj [("system_id_values", DArr []); ("CIRCUIT_ID_VALUES", DArr [DStr "urn:x"])]) e = true.
Proof. apply filter_lossless. vm_compute. reflexivity. Defined.
