(* ===== verification/TokenStatusList.v ===== *)
(** * Token Status Lists

    [pkg/tokenstatuslist]: the list of status bytes, its compressed and
    base64url-encoded form, and the signed JWT that carries it ([types.go],
    [jwt.go]).

    The DEFLATE codec and the JWT library are interfaces: [Zlib] with the
    round trip RFC 1950 promises, [JWTLib] with signing, signature
    verification and the [exp] check of golang-jwt.  Instances at the end of
    the file show that the laws can hold. *)

From Stdlib Require Import SpecFloat.
From S2P Require Import Prelude Bytes Base64 GoValue.

(** ** Constants *)

Definition StatusValid : Z := 0.
Definition StatusInvalid : Z := 1.
Definition StatusSuspended : Z := 2.
Definition Bits : Z := 8.
Definition MediaTypeJWT : string := "application/statuslist+jwt".
Definition MediaTypeCWT : string := "application/statuslist+cwt".
Definition JWTTypHeader : string := "statuslist+jwt".
Definition maxDecompressedSize : Z := Z.shiftl 50 20.

Inductive tsl_error :=
| ErrInvalidStatusIndex
| ErrZlibWriter
| ErrZlibHeader
| ErrZlibRead
| ErrTooLarge
| ErrBase64
| ErrSigningKeyRequired
| ErrSigningMethodRequired
| ErrJWK
| ErrSign
| ErrParse
| ErrTypHeader.

(** ** The list of statuses *)

Record StatusList := mkStatusList {
  statuses : list Z;
  Issuer : string;
  Subject : string;
  TTL : Z;
  ExpiresIn : Z;            (* time.Duration, nanoseconds *)
  KeyID : string;
  AggregationURI : string
}.

Definition New (l : list Z) : StatusList := mkStatusList l "" "" 0 0 "" "".

Definition NewWithConfig (l : list Z) (issuer subject : string) : StatusList :=
  mkStatusList l issuer subject 0 0 "" "".

Definition Statuses (sl : StatusList) : list Z := statuses sl.

Definition Len (sl : StatusList) : Z := Z.of_nat (length (statuses sl)).

Definition GetStatus (l : list Z) (index : Z) : result tsl_error Z :=
  if bool_decide (index < 0) || bool_decide (Z.of_nat (length l) ≤ index)
  then Err ErrInvalidStatusIndex
  else match l !! Z.to_nat index with
       | Some s => Ok s
       | None => Err ErrInvalidStatusIndex
       end.

Definition Get (sl : StatusList) (index : Z) : result tsl_error Z :=
  if bool_decide (index < 0) || bool_decide (Z.of_nat (length (statuses sl)) ≤ index)
  then Err ErrInvalidStatusIndex
  else match statuses sl !! Z.to_nat index with
       | Some s => Ok s
       | None => Err ErrInvalidStatusIndex
       end.

Definition with_statuses (sl : StatusList) (l : list Z) : StatusList :=
  mkStatusList l (Issuer sl) (Subject sl) (TTL sl) (ExpiresIn sl) (KeyID sl)
    (AggregationURI sl).

Definition Set_ (sl : StatusList) (index : Z) (status : Z) : result tsl_error StatusList :=
  if bool_decide (index < 0) || bool_decide (Z.of_nat (length (statuses sl)) ≤ index)
  then Err ErrInvalidStatusIndex
  else Ok (with_statuses sl (<[Z.to_nat index := status]> (statuses sl))).

(** ** DEFLATE *)

(** [deflate] is a [zlib.NewWriterLevel] writer given the whole input and
    closed, [None] when it reports an error.  [inflate] is a [zlib.NewReader]:
    [None] when the header is refused, otherwise the bytes it yields before it
    ends, and whether it ends with [io.EOF] ([true]) or an error. *)
Class Zlib := {
  deflate : list Z → option (list Z);
  inflate : list Z → option (list Z * bool)
}.

Class ZlibLaws `{Zlib} : Prop := {
  deflate_total : ∀ b, Forall in_uint8 b → is_Some (deflate b);
  deflate_bytes : ∀ b z, Forall in_uint8 b → deflate b = Some z → Forall in_uint8 z;
  inflate_deflate : ∀ b z, Forall in_uint8 b → deflate b = Some z → inflate z = Some (b, true)
}.

Section codec.
Context `{Zlib}.

Definition CompressStatuses (l : list Z) : result tsl_error (list Z) :=
  match deflate l with Some z => Ok z | None => Err ErrZlibWriter end.

Definition CompressAndEncode (l : list Z) : result tsl_error string :=
  compressed ← CompressStatuses l;
  Ok (RawURLEncoding.EncodeToString compressed).

(** [io.ReadAll(io.LimitReader(r, max+1))]: more than [max] bytes are an
    error whatever follows them, so the error at the end of the stream is
    only seen below the limit. *)
Definition DecompressStatuses (compressed : list Z) : result tsl_error (list Z) :=
  match inflate compressed with
  | None => Err ErrZlibHeader
  | Some (b, eof) =>
      if bool_decide (maxDecompressedSize < Z.of_nat (length b)) then Err ErrTooLarge
      else if eof then Ok b else Err ErrZlibRead
  end.

Definition DecodeAndDecompress (encoded : string) : result tsl_error (list Z) :=
  match RawURLEncoding.DecodeString encoded with
  | None => Err ErrBase64
  | Some compressed => DecompressStatuses compressed
  end.
End codec.

(** ** JWT *)

Record StatusListClaim := mkStatusListClaim {
  slc_Bits : Z;
  slc_Lst : string;
  slc_AggregationURI : string
}.

(** [jwt.RegisteredClaims] is embedded; only the members set here are kept.
    Times are Unix seconds. *)
Record JWTClaims := mkJWTClaims {
  jc_Subject : string;
  jc_Issuer : string;
  jc_IssuedAt : option Z;
  jc_ExpiresAt : option Z;
  jc_StatusList : StatusListClaim;
  jc_TTL : Z
}.

(** A JSON number read back into a [float64]; the value, not its normal form. *)
Definition json_num (z : Z) : goval :=
  GFloat64 (match z with
            | Z0 => S754_zero false
            | Zpos p => S754_finite false p 0
            | Zneg p => S754_finite true p 0
            end).

Definition omitempty_str (k s : string) : gomap :=
  if str_empty s then [] else [(k, GString s)].
Definition omitempty_num (k : string) (z : Z) : gomap :=
  if bool_decide (z = 0) then [] else [(k, json_num z)].
Definition opt_num (k : string) (z : option Z) : gomap :=
  match z with Some z => [(k, json_num z)] | None => [] end.

(** [json.Marshal] of the claims, decoded again: the payload as a receiver's
    [MapClaims] holds it. *)
Definition status_list_json (c : StatusListClaim) : gomap :=
  [("bits", json_num (slc_Bits c)); ("lst", GString (slc_Lst c))]
  ++ omitempty_str "aggregation_uri" (slc_AggregationURI c).

Definition claims_json (c : JWTClaims) : gomap :=
  omitempty_str "iss" (jc_Issuer c) ++ omitempty_str "sub" (jc_Subject c)
  ++ opt_num "exp" (jc_ExpiresAt c) ++ opt_num "iat" (jc_IssuedAt c)
  ++ [("status_list", GMap (status_list_json (jc_StatusList c)))]
  ++ omitempty_num "ttl" (jc_TTL c).

(** [json.Unmarshal] into a struct: an absent member is the zero value, a
    member of the wrong kind is an error. *)
Definition read_str (m : gomap) (k : string) : option string :=
  match mget m k with
  | None | Some GNil => Some ""
  | Some (GString s) => Some s
  | Some _ => None
  end.
Definition read_num (m : gomap) (k : string) : option (option Z) :=
  match mget m k with
  | None | Some GNil => Some None
  | Some (GFloat64 f) => match float_value f with Some z => Some (Some z) | None => None end
  | Some _ => None
  end.
Definition read_map (m : gomap) (k : string) : option gomap :=
  match mget m k with
  | None | Some GNil => Some []
  | Some (GMap m') => Some m'
  | Some _ => None
  end.

Definition claims_of_json (m : gomap) : option JWTClaims :=
  iss ← read_str m "iss"; sub ← read_str m "sub";
  exp ← read_num m "exp"; iat ← read_num m "iat";
  sl ← read_map m "status_list";
  bits ← read_num sl "bits"; lst ← read_str sl "lst"; agg ← read_str sl "aggregation_uri";
  ttl ← read_num m "ttl";
  Some (mkJWTClaims sub iss iat exp
          (mkStatusListClaim (default 0 bits) lst agg) (default 0 ttl)).

(** The dynamic types of a [crypto.PublicKey] the code distinguishes; an
    elliptic curve is given by its name and bit size. *)
Inductive pub_view :=
| ViewECDSA (curve : string) (bits : Z) (x y : Z)
| ViewRSA (n e : Z)
| ViewOther.

Definition publicKeyToJWK_view (v : pub_view) : option gomap :=
  match v with
  | ViewECDSA curve bits x y =>
      if bool_decide (curve ∈ ["P-256"; "P-384"; "P-521"]) then
        let byteLen := Z.to_nat ((bits + 7) / 8) in
        xPadded ← pad_left byteLen (big_bytes x);
        yPadded ← pad_left byteLen (big_bytes y);
        Some [("kty", GString "EC"); ("crv", GString curve);
              ("x", GString (RawURLEncoding.EncodeToString xPadded));
              ("y", GString (RawURLEncoding.EncodeToString yPadded))]
      else None
  | ViewRSA n e =>
      Some [("kty", GString "RSA"); ("n", GString (RawURLEncoding.EncodeToString (big_bytes n)));
            ("e", GString (RawURLEncoding.EncodeToString (big_bytes e)))]
  | ViewOther => None
  end.

(** golang-jwt.  [sign alg key header payload] is [SignedString]; [jwt_parse]
    is [Parse] with the accepted algorithms ([None] for no
    [WithValidMethods]), the key function and the current time in
    nanoseconds. *)
Class JWTLib := {
  private_key : Type;
  public_key : Type;
  public : private_key → public_key;
  sign : string → private_key → gomap → gomap → option string;
  jwt_parse : option (list string) → (gomap → gomap → option public_key) → Z → string →
              option (gomap * gomap);
  key_view : public_key → pub_view
}.

Definition publicKeyToJWK `{JWTLib} (pub : public_key) : option gomap := publicKeyToJWK_view (key_view pub).

(** [exp], in seconds, of a payload. *)
Definition claims_exp (payload : gomap) : option Z :=
  match mget payload "exp" with Some (GFloat64 f) => float_value f | _ => None end.
Definition expired (payload : gomap) (now : Z) : bool :=
  match claims_exp payload with Some e => bool_decide (e * second ≤ now) | None => false end.

Definition alg_allowed (methods : option (list string)) (alg : string) : bool :=
  match methods with None => true | Some l => bool_decide (alg ∈ l) end.

Class JWTLaws `{JWTLib} : Prop := {
  parse_signed : ∀ alg sk hdr payload tok methods keyfunc now,
    sign alg sk hdr payload = Some tok →
    alg_allowed methods alg = true →
    keyfunc (mset hdr "alg" (GString alg)) payload = Some (public sk) →
    mget payload "nbf" = None →
    expired payload now = false →
    jwt_parse methods keyfunc now tok = Some (mset hdr "alg" (GString alg), payload);
  parse_not_expired : ∀ methods keyfunc now tok hdr payload,
    jwt_parse methods keyfunc now tok = Some (hdr, payload) → expired payload now = false;
  parse_claims : ∀ alg sk hdr payload tok methods keyfunc now hdr' payload',
    sign alg sk hdr payload = Some tok →
    jwt_parse methods keyfunc now tok = Some (hdr', payload') → payload' = payload
}.

Section jwt.
Context `{Zlib} `{JWTLib}.

Record JWTSigningConfig := mkJWTSigningConfig {
  SigningKey : option private_key;
  SigningMethod : option string;
  PublicKey : option public_key
}.

(** [time.Time.Unix] of a time in nanoseconds. *)
Definition unix (t : Z) : Z := t / second.

Definition jwt_claims (sl : StatusList) (lst : string) (now : Z) : JWTClaims :=
  mkJWTClaims (Subject sl) (Issuer sl) (Some (unix now))
    (if bool_decide (0 < ExpiresIn sl) then Some (unix (now + ExpiresIn sl)) else None)
    (mkStatusListClaim Bits lst (AggregationURI sl))
    (if bool_decide (0 < TTL sl) then TTL sl else 0).

Definition GenerateJWT (sl : StatusList) (cfg : JWTSigningConfig) (now : Z) :
    result tsl_error string :=
  match SigningKey cfg, SigningMethod cfg with
  | None, _ => Err ErrSigningKeyRequired
  | _, None => Err ErrSigningMethodRequired
  | Some sk, Some alg =>
      lst ← CompressAndEncode (statuses sl);
      let claims := jwt_claims sl lst now in
      let header := [("typ", GString JWTTypHeader)] in
      let header := if str_empty (KeyID sl) then header else mset header "kid" (GString (KeyID sl)) in
      header ← match PublicKey cfg with
               | None => Ok header
               | Some pk => match publicKeyToJWK pk with
                            | None => Err ErrJWK
                            | Some jwk => Ok (mset header "jwk" (GMap jwk))
                            end
               end;
      match sign alg sk header (claims_json claims) with
      | None => Err ErrSign
      | Some tok => Ok tok
      end
  end.

Definition ParseJWT (tok : string) (keyFunc : gomap → gomap → option public_key) (now : Z) :
    result tsl_error JWTClaims :=
  match jwt_parse None keyFunc now tok with
  | None => Err ErrParse
  | Some (hdr, payload) =>
      match claims_of_json payload with
      | None => Err ErrParse
      | Some claims =>
          match mget hdr "typ" with
          | Some (GString typ) =>
              if bool_decide (typ = JWTTypHeader) then Ok claims else Err ErrTypHeader
          | _ => Err ErrTypHeader
          end
      end
  end.

Definition GetStatusFromJWT (claims : JWTClaims) (index : Z) : result tsl_error Z :=
  l ← DecodeAndDecompress (slc_Lst (jc_StatusList claims));
  GetStatus l index.
End jwt.

(** ** Theorems: the list *)

Lemma in_range_lookup {A} (l : list A) i :
  bool_decide (i < 0) || bool_decide (Z.of_nat (length l) ≤ i) = false →
  (Z.to_nat i < length l)%nat ∧ 0 ≤ i < Z.of_nat (length l).
Proof. intros [?%bool_decide_eq_false ?%bool_decide_eq_false]%orb_false_iff. lia. Qed.

Lemma out_of_range_iff {A} (l : list A) i :
  bool_decide (i < 0) || bool_decide (Z.of_nat (length l) ≤ i) = true ↔
  ¬ (0 ≤ i < Z.of_nat (length l)).
Proof. rewrite orb_true_iff, !bool_decide_eq_true. lia. Qed.

Lemma Get_GetStatus sl i : Get sl i = GetStatus (statuses sl) i.
Proof. reflexivity. Qed.

Lemma GetStatus_in_range l i :
  0 ≤ i < Z.of_nat (length l) → ∃ s, l !! Z.to_nat i = Some s ∧ GetStatus l i = Ok s.
Proof.
  intros Hi. destruct (lookup_lt_is_Some_2 l (Z.to_nat i)) as [s Hs]; [lia|].
  exists s. split; [done|]. unfold GetStatus.
  rewrite !bool_decide_false by lia. cbn. by rewrite Hs.
Qed.

Lemma GetStatus_lookup l i s :
  GetStatus l i = Ok s ↔ 0 ≤ i ∧ l !! Z.to_nat i = Some s.
Proof.
  unfold GetStatus. destruct (_ || _) eqn:E.
  - split; [done|]. intros [? Hs%lookup_lt_Some]. apply out_of_range_iff in E. lia.
  - apply in_range_lookup in E as [? ?]. case_match; naive_solver.
Qed.

(** [Set] fails exactly when the index is outside the list, and then
    changes nothing; otherwise the list keeps its length, the written index
    reads back the written status and every other index reads what it did. *)
Theorem Set_Get_spec sl i v :
  match Set_ sl i v with
  | Err e => e = ErrInvalidStatusIndex ∧ ¬ (0 ≤ i < Len sl)
  | Ok sl' =>
      0 ≤ i < Len sl ∧ Len sl' = Len sl ∧ Get sl' i = Ok v ∧
      ∀ j, j ≠ i → Get sl' j = Get sl j
  end.
Proof.
  unfold Set_. destruct (_ || _) eqn:E; [by apply out_of_range_iff in E|].
  pose proof (in_range_lookup _ _ E) as [Hi Hr].
  unfold Len, Get. cbn. rewrite length_insert, E.
  split_and!; [lia|lia|done| |].
  - by rewrite list_lookup_insert_eq.
  - intros j Hj.
    destruct (bool_decide (j < 0) || _) eqn:Ej; [done|].
    apply in_range_lookup in Ej as [? ?].
    rewrite list_lookup_insert_ne by lia. done.
Qed.

(** ** Theorems: the codec *)

Section codec_laws.
Context `{ZlibLaws}.

Lemma CompressAndEncode_total l :
  Forall in_uint8 l → ∃ e, CompressAndEncode l = Ok e.
Proof.
  intros Hl. destruct (deflate_total l Hl) as [z Hz].
  unfold CompressAndEncode, CompressStatuses. rewrite Hz. cbn. eauto.
Qed.

(** The encoded list decodes to the list it was made from, and a list
    longer than the 50 MiB limit is refused rather than cut short. *)
Theorem codec_roundtrip l e :
  Forall in_uint8 l → CompressAndEncode l = Ok e →
  DecodeAndDecompress e =
    if bool_decide (maxDecompressedSize < Z.of_nat (length l)) then Err ErrTooLarge else Ok l.
Proof.
  intros Hl He. unfold CompressAndEncode, CompressStatuses in He.
  destruct (deflate l) as [z|] eqn:Hz; [|done]. cbn in He. simplify_eq.
  unfold DecodeAndDecompress.
  rewrite RawURLEncoding.DecodeString_EncodeToString by (by eapply deflate_bytes).
  unfold DecompressStatuses. rewrite (inflate_deflate l z) by done. done.
Qed.

Lemma decode_small l e :
  Forall in_uint8 l → Z.of_nat (length l) ≤ maxDecompressedSize →
  CompressAndEncode l = Ok e → DecodeAndDecompress e = Ok l.
Proof.
  intros Hl Hlen He. unfold CompressAndEncode, CompressStatuses in He.
  destruct (deflate l) as [z|] eqn:Hz; [|done]. cbn in He. simplify_eq.
  unfold DecodeAndDecompress.
  rewrite RawURLEncoding.DecodeString_EncodeToString by (by eapply deflate_bytes).
  unfold DecompressStatuses. rewrite (inflate_deflate l z) by done.
  by rewrite bool_decide_false by lia.
Qed.
End codec_laws.

(** ** Theorems: the signed token *)

Lemma float_value_json_num z :
  match json_num z with GFloat64 f => float_value f | _ => None end = Some z.
Proof.
  destruct z; unfold json_num, float_value; [done| |];
    rewrite bool_decide_true by done; by rewrite Z.pow_0_r, Z.mul_1_r.
Qed.

Lemma read_num_hit m k z : mget m k = Some (json_num z) → read_num m k = Some (Some z).
Proof.
  unfold read_num. intros ->. pose proof (float_value_json_num z) as E.
  unfold json_num in *. cbn in *. by rewrite E.
Qed.

(** Unfold a lookup in a payload built from optional members. *)
Ltac payload :=
  unfold claims_json, status_list_json, omitempty_str, omitempty_num, opt_num;
  repeat (case_match; cbn [app]); cbn -[json_num float_value];
  repeat match goal with
  | H : str_empty _ = true |- _ => apply str_empty_true in H; subst
  | H : bool_decide (_ = _) = true |- _ => apply bool_decide_eq_true in H; subst
  end.

Lemma claims_json_status_list c :
  mget (claims_json c) "status_list" = Some (GMap (status_list_json (jc_StatusList c))).
Proof. payload; done. Qed.

Lemma status_list_json_lst c : mget (status_list_json c) "lst" = Some (GString (slc_Lst c)).
Proof. payload; done. Qed.

Lemma claims_json_iss c :
  jc_Issuer c ≠ "" → mget (claims_json c) "iss" = Some (GString (jc_Issuer c)).
Proof. intros Hi. payload; try done. Qed.

Lemma claims_json_exp_member c :
  mget (claims_json c) "exp" = json_num <$> jc_ExpiresAt c.
Proof. payload; simplify_eq/=; done. Qed.

Lemma claims_json_exp c : claims_exp (claims_json c) = jc_ExpiresAt c.
Proof.
  unfold claims_exp. rewrite claims_json_exp_member.
  destruct (jc_ExpiresAt c) as [z|]; [apply float_value_json_num|done].
Qed.

Lemma claims_json_nbf c : mget (claims_json c) "nbf" = None.
Proof. payload; done. Qed.

Lemma read_str_member m k s :
  mget m k = (if str_empty s then None else Some (GString s)) → read_str m k = Some s.
Proof.
  unfold read_str. intros ->. destruct (str_empty s) eqn:E; [|done].
  apply str_empty_true in E. by subst.
Qed.

Lemma read_num_member m k z : mget m k = json_num <$> z → read_num m k = Some z.
Proof.
  destruct z as [z|]; [by apply read_num_hit|]. unfold read_num. by intros ->.
Qed.

Lemma claims_of_json_claims_json c : claims_of_json (claims_json c) = Some c.
Proof.
  unfold claims_of_json.
  rewrite (read_str_member _ "iss" (jc_Issuer c)) by (payload; done).
  rewrite (read_str_member _ "sub" (jc_Subject c)) by (payload; done).
  rewrite (read_num_member _ "exp" (jc_ExpiresAt c)) by apply claims_json_exp_member.
  rewrite (read_num_member _ "iat" (jc_IssuedAt c)) by (payload; simplify_eq/=; done).
  rewrite (read_num_member _ "ttl" (if bool_decide (jc_TTL c = 0) then None else Some (jc_TTL c)))
    by (payload; done).
  unfold read_map. rewrite claims_json_status_list.
  cbn [mbind option_bind].
  rewrite (read_num_hit _ "bits" (slc_Bits (jc_StatusList c))) by (payload; done).
  rewrite (read_str_member _ "aggregation_uri" (slc_AggregationURI (jc_StatusList c)))
    by (payload; done).
  unfold read_str. rewrite status_list_json_lst.
  cbn [mbind option_bind]. destruct c as [sub iss iat exp [bits lst agg] ttl]. cbn.
  by destruct (bool_decide_reflect (ttl = 0)) as [->|?].
Qed.

Lemma header_typ (sl : StatusList) (jwk : option gomap) alg :
  mget (mset (match jwk with
              | Some j => mset (if str_empty (KeyID sl) then [("typ", GString JWTTypHeader)]
                                else mset [("typ", GString JWTTypHeader)] "kid" (GString (KeyID sl)))
                               "jwk" (GMap j)
              | None => if str_empty (KeyID sl) then [("typ", GString JWTTypHeader)]
                        else mset [("typ", GString JWTTypHeader)] "kid" (GString (KeyID sl))
              end) "alg" (GString alg)) "typ" = Some (GString JWTTypHeader).
Proof. destruct jwk, (str_empty (KeyID sl)); reflexivity. Qed.

Section jwt_laws.
Context `{ZlibLaws} `{JWTLaws}.

(** What a successful [GenerateJWT] signed: the header carries the
    [statuslist+jwt] type and the payload is the claims of the list. *)
Lemma GenerateJWT_signed sl cfg now tok :
  GenerateJWT sl cfg now = Ok tok →
  ∃ sk alg hdr lst,
    SigningKey cfg = Some sk ∧ SigningMethod cfg = Some alg ∧
    CompressAndEncode (statuses sl) = Ok lst ∧
    sign alg sk hdr (claims_json (jwt_claims sl lst now)) = Some tok ∧
    mget (mset hdr "alg" (GString alg)) "typ" = Some (GString JWTTypHeader).
Proof.
  unfold GenerateJWT.
  destruct (SigningKey cfg) as [sk|], (SigningMethod cfg) as [alg|]; try done.
  intros (lst & Hlst & Hrest)%bind_Ok. apply bind_Ok in Hrest as (hdr & Hhdr & Hs).
  destruct (sign _ _ _ _) as [t|] eqn:Et; simplify_eq.
  exists sk, alg, hdr, lst. split_and!; try done.
  destruct (PublicKey cfg) as [pk|]; [destruct (publicKeyToJWK pk) as [jwk|]; [|done]|];
    simplify_eq; [apply (header_typ sl (Some jwk)) | apply (header_typ sl None)].
Qed.

Lemma jwt_read sl cfg sk now now' tok keyFunc i :
  Forall in_uint8 (statuses sl) → Len sl ≤ maxDecompressedSize →
  SigningKey cfg = Some sk → GenerateJWT sl cfg now = Ok tok →
  (∀ h p, keyFunc h p = Some (public sk)) →
  (0 < ExpiresIn sl → now' < unix (now + ExpiresIn sl) * second) →
  (c ← ParseJWT tok keyFunc now'; GetStatusFromJWT c i) = Get sl i.
Proof.
  intros Hb Hlen Hsk Hgen Hkey Hexp.
  destruct (GenerateJWT_signed sl cfg now tok Hgen)
    as (sk' & alg & hdr & lst & Hsk' & _ & Hlst & Hsign & Htyp).
  simplify_eq. unfold ParseJWT.
  erewrite parse_signed; [| exact Hsign | done | apply Hkey | apply claims_json_nbf |].
  2:{ unfold expired. rewrite claims_json_exp. cbn.
      destruct (bool_decide_reflect (0 < ExpiresIn sl)); [|done].
      apply bool_decide_eq_false. lia. }
  rewrite claims_of_json_claims_json, Htyp, bool_decide_true by done.
  cbn. unfold GetStatusFromJWT. cbn.
  rewrite (decode_small (statuses sl) lst) by done. reflexivity.
Qed.

(** A verifier that resolves the issuer's key reads from a token that
    has not expired exactly the statuses the issuer put in the list, and the
    same index error outside it. *)
Theorem jwt_status_roundtrip sl cfg sk now now' tok keyFunc i :
  Forall in_uint8 (statuses sl) → Len sl ≤ maxDecompressedSize →
  SigningKey cfg = Some sk → GenerateJWT sl cfg now = Ok tok →
  (∀ h p, keyFunc h p = Some (public sk)) →
  (0 < ExpiresIn sl → now' < unix (now + ExpiresIn sl) * second) →
  (c ← ParseJWT tok keyFunc now'; GetStatusFromJWT c i) = Get sl i.
Proof. apply jwt_read. Qed.
End jwt_laws.

(** ** Instances

    A store-only codec and a JWT library whose token is the printed header
    and payload and whose keys are strings: the laws above can hold. *)

#[local] Instance stored_zlib : Zlib := {|
  deflate b := Some (120 :: b);
  inflate z := match z with 120 :: b => Some (b, true) | _ => None end
|}.

#[local] Instance stored_zlib_laws : ZlibLaws.
Proof.
  split.
  - intros. by eexists.
  - cbn. intros b z Hb [= <-]. constructor; [unfold in_uint8; lia|done].
  - cbn. intros b z Hb [= <-]. done.
Qed.

Definition plain_token (h p : gomap) (k : string) : string :=
  pos_str (encode (GMap h, GMap p, k)).

Definition plain_parse (methods : option (list string))
    (keyfunc : gomap → gomap → option string) (now : Z) (tok : string) :
    option (gomap * gomap) :=
  match @decode (goval * goval * string) _ _ (str_pos tok) with
  | Some (GMap h, GMap p, k) =>
      if alg_allowed methods (string_or_empty (mget h "alg"))
         && bool_decide (keyfunc h p = Some k)
         && bool_decide (mget p "nbf" = None)
         && negb (expired p now)
      then Some (h, p) else None
  | _ => None
  end.

#[local] Instance plain_jwt : JWTLib := {|
  private_key := string;
  public_key := string;
  public k := k;
  sign alg k h p := Some (plain_token (mset h "alg" (GString alg)) p k);
  jwt_parse := plain_parse;
  key_view k := ViewECDSA "P-256" 256 3 5
|}.

#[local] Instance plain_jwt_laws : JWTLaws.
Proof.
  split.
  - cbn. intros alg sk hdr p tok methods kf now [= <-] Halg Hkf Hnbf Hexp.
    unfold plain_parse, plain_token. rewrite str_pos_pos_str, decode_encode.
    rewrite mget_mset_eq. cbn [string_or_empty].
    rewrite Halg, Hexp, !bool_decide_true by done. done.
  - cbn. unfold plain_parse. intros methods kf now tok h p Hp.
    repeat case_match; simplify_eq.
    match goal with H : _ && _ = true |- _ =>
      apply andb_true_iff in H as [_ H]; by apply negb_true_iff in H end.
  - cbn. intros alg sk hdr p tok methods kf now h' p' [= <-].
    unfold plain_parse, plain_token. rewrite str_pos_pos_str, decode_encode.
    by case_match; intros; simplify_eq.
Qed.

(** ** Witnesses *)

Definition witness_list : StatusList :=
  mkStatusList [0; 1; 2; 0] "https://registry.example" "https://registry.example/statuslists/0"
    43200 (10 * second) "key-1" "".
Definition witness_cfg : JWTSigningConfig :=
  mkJWTSigningConfig (Some "secret") (Some "ES256") (Some "secret").

Lemma codec_roundtrip_witness :
  Forall in_uint8 [0; 1; 2] ∧
  ∃ e, CompressAndEncode [0; 1; 2] = Ok e ∧ DecodeAndDecompress e = Ok [0; 1; 2].
Proof.
  assert (Forall in_uint8 [0; 1; 2]) as Hb by (repeat constructor; unfold in_uint8; lia).
  split; [exact Hb|].
  destruct (CompressAndEncode [0; 1; 2]) as [e|] eqn:E; [|discriminate E].
  exists e. split; [reflexivity|].
  rewrite (codec_roundtrip [0; 1; 2] e Hb E). vm_compute. reflexivity.
Defined.

Lemma jwt_status_roundtrip_witness :
  ∃ tok, GenerateJWT witness_list witness_cfg 0 = Ok tok ∧
  (c ← ParseJWT tok (fun _ _ => Some "secret") (5 * second); GetStatusFromJWT c 1) = Ok 1.
Proof.
  destruct (GenerateJWT witness_list witness_cfg 0) as [tok|] eqn:E; [|discriminate E].
  exists tok. split; [reflexivity|].
  rewrite (jwt_status_roundtrip witness_list witness_cfg "secret" 0 (5 * second) tok).
  - reflexivity.
  - repeat constructor; unfold in_uint8; lia.
  - vm_compute. discriminate.
  - reflexivity.
  - exact E.
  - reflexivity.
  - intros _. vm_compute. reflexivity.
Defined.
