(* ===== verification/TokenStatusListCWT.v ===== *)
(** * The status list token as a CWT

    [pkg/tokenstatuslist/cwt.go]: a COSE_Sign1 structure over a CBOR map of
    claims.  [cval] holds the Go values that are handed to and come back from
    the CBOR library, with the dynamic types the code switches on; [norm] is
    what the library documents of decoding into [any]: an unsigned integer
    comes back as [uint64], a negative one as [int64], every map as
    [map[any]any], and a struct tagged [keyasint] as the map of its fields.
    The library itself, the hash functions and the two signature primitives
    are interfaces. *)

From S2P Require Import Prelude Bytes TokenStatusList.

Definition CWTTypHeader : string := "statuslist+cwt".
Definition coseHeaderAlg : Z := 1.
Definition coseHeaderKid : Z := 4.
Definition coseHeaderTyp : Z := 16.
Definition cwtClaimIss : Z := 1.
Definition cwtClaimSub : Z := 2.
Definition cwtClaimExp : Z := 4.
Definition cwtClaimIat : Z := 6.
Definition cwtClaimStatusList : Z := 65534.
Definition cwtClaimTTL : Z := 65535.
Definition statusListKeyBits : Z := 1.
Definition statusListKeyLst : Z := 2.
Definition statusListKeyAggregationURI : Z := 3.
Definition CoseAlgES256 : Z := -7.
Definition CoseAlgES384 : Z := -35.
Definition CoseAlgES512 : Z := -36.
Definition CoseAlgPS256 : Z := -37.
Definition CoseAlgPS384 : Z := -38.
Definition CoseAlgPS512 : Z := -39.

Record CWTStatusList := mkCWTStatusList {
  cwt_Bits : Z;
  cwt_Lst : list Z;
  cwt_AggregationURI : string
}.

Inductive cval :=
| CInt (z : Z)                         (* int *)
| CInt64 (z : Z)
| CUint64 (z : Z)
| CText (s : string)
| CBytes (b : list Z)
| CArr (l : list cval)                 (* []any *)
| CMapInt (m : list (Z * cval))        (* map[int]any, map[int64]any *)
| CMapAny (m : list (cval * cval))     (* map[any]any *)
| CStruct (s : CWTStatusList)
| CTag (n : Z) (v : cval)
| CNull                                (* a nil slice or map *)
| CByteSlices (l : list (list Z)).     (* [][]byte *)

(** An integer decoded into [any]. *)
Definition norm_int (z : Z) : cval := if bool_decide (0 ≤ z) then CUint64 z else CInt64 z.

Definition norm_status_list (s : CWTStatusList) : cval :=
  CMapAny ([(CUint64 statusListKeyBits, norm_int (cwt_Bits s));
            (CUint64 statusListKeyLst, CBytes (cwt_Lst s))]
           ++ (if str_empty (cwt_AggregationURI s) then []
               else [(CUint64 statusListKeyAggregationURI, CText (cwt_AggregationURI s))])).

(** The value the library decodes from what it encoded. *)
Fixpoint norm (v : cval) : cval :=
  match v with
  | CInt z | CInt64 z | CUint64 z => norm_int z
  | CText s => CText s
  | CBytes b => CBytes b
  | CArr l => CArr (map norm l)
  | CMapInt m => CMapAny (map (fun kv => (norm_int (fst kv), norm (snd kv))) m)
  | CMapAny m => CMapAny (map (fun kv => (norm (fst kv), norm (snd kv))) m)
  | CStruct s => norm_status_list s
  | CTag n v => CTag n (norm v)
  | CNull => CNull
  | CByteSlices l => CArr (map CBytes l)
  end.

(** Decoding a map into [map[int]any]: every key must be an integer. *)
Fixpoint int_keys (m : list (cval * cval)) : option (list (Z * cval)) :=
  match m with
  | [] => Some []
  | (CUint64 z, v) :: m | (CInt64 z, v) :: m => r ← int_keys m; Some ((z, v) :: r)
  | _ => None
  end.

Fixpoint zget (m : list (Z * cval)) (k : Z) : option cval :=
  match m with
  | [] => None
  | (k', v) :: m => if bool_decide (k' = k) then Some v else zget m k
  end.

(** [cbor_marshal] is meant for the values the library reads again: texts are
    UTF-8, integers have at most 64 bits, tags are above 3 (the lower ones are
    read as times and big numbers), a map lists its keys once and in the order
    of their encoding.  It is [None] on other values, which are outside the
    model, and where the library fails. *)
Class CBOR := {
  cbor_marshal : cval → option (list Z);
  cbor_unmarshal : list Z → option cval
}.
Class CBORLaws `{CBOR} : Prop := {
  cbor_roundtrip : ∀ v b, cbor_marshal v = Some b → cbor_unmarshal b = Some (norm v);
}.

(** ** Keys and signatures *)

Inductive curve := P256 | P384 | P521 | OtherCurve.
Inductive hash_alg := SHA256 | SHA384 | SHA512.

(** The private key types the code distinguishes. *)
Inductive cose_key (EC RSA OTHER : Type) :=
| ECKey (k : EC)
| RSAKey (k : RSA)
| OtherKey (k : OTHER).
Arguments ECKey {EC RSA OTHER} k.
Arguments RSAKey {EC RSA OTHER} k.
Arguments OtherKey {EC RSA OTHER} k.

Class CoseCrypto := {
  ec_key : Type; rsa_key : Type; other_key : Type;
  ec_curve : ec_key → curve;
  curve_bits : ec_key → Z;
  digest : hash_alg → list Z → list Z;
  ecdsa_sign : ec_key → list Z → option (Z * Z);
  rsa_sign_pss : rsa_key → hash_alg → list Z → option (list Z)
}.

Inductive cwt_error :=
| CErrCompress (e : tsl_error)
| CErrCurve | CErrKeyType | CErrAlg (alg : Z) | CErrSign | CErrPanic
| CErrEncode
| CErrDecode | CErrTag (n : Z) | CErrStructure | CErrPayload
| CErrNoStatusList | CErrStatusListFormat | CErrNoLst
| CErrStatus (e : tsl_error).

Section cwt.
Context `{Zlib} `{CBOR} `{CoseCrypto}.
Abbreviation key := (cose_key ec_key rsa_key other_key).

Definition signECDSA (data : list Z) (k : key) (h : hash_alg) : result cwt_error (list Z) :=
  match k with
  | ECKey k =>
      match ecdsa_sign k (digest h data) with
      | None => Err CErrSign
      | Some (sigR, sigS) =>
          let keyBytes := Z.to_nat ((curve_bits k + 7) / 8) in
          let sigRBytes := big_bytes sigR in
          let sigSBytes := big_bytes sigS in
          (* signature[keyBytes-len(b):] panics on a negative bound *)
          if bool_decide (keyBytes < length sigRBytes)%nat ||
             bool_decide (2 * keyBytes < length sigSBytes)%nat then Err CErrPanic else
          let signature := replicate (2 * keyBytes) 0 in
          let signature := copy_at signature (keyBytes - length sigRBytes) sigRBytes in
          Ok (copy_at signature (2 * keyBytes - length sigSBytes) sigSBytes)
      end
  | _ => Err CErrKeyType
  end.

Definition signRSAPSS (data : list Z) (k : key) (h : hash_alg) : result cwt_error (list Z) :=
  match k with
  | RSAKey k => match rsa_sign_pss k h (digest h data) with Some s => Ok s | None => Err CErrSign end
  | _ => Err CErrKeyType
  end.

Definition signCOSE (protectedBytes payloadBytes : list Z) (k : key) (alg : Z) :
    result cwt_error (list Z) :=
  match cbor_marshal (CArr [CText "Signature1"; CBytes protectedBytes; CBytes []; CBytes payloadBytes]) with
  | None => Err CErrEncode
  | Some tbs =>
      if bool_decide (alg = CoseAlgES256) then signECDSA tbs k SHA256 else
      if bool_decide (alg = CoseAlgES384) then signECDSA tbs k SHA384 else
      if bool_decide (alg = CoseAlgES512) then signECDSA tbs k SHA512 else
      if bool_decide (alg = CoseAlgPS256) then signRSAPSS tbs k SHA256 else
      if bool_decide (alg = CoseAlgPS384) then signRSAPSS tbs k SHA384 else
      if bool_decide (alg = CoseAlgPS512) then signRSAPSS tbs k SHA512 else
      Err (CErrAlg alg)
  end.

Definition detectCOSEAlgorithm (k : key) : result cwt_error Z :=
  match k with
  | ECKey k =>
      match ec_curve k with
      | P256 => Ok CoseAlgES256
      | P384 => Ok CoseAlgES384
      | P521 => Ok CoseAlgES512
      | OtherCurve => Err CErrCurve
      end
  | RSAKey _ => Ok CoseAlgPS256
  | OtherKey _ => Err CErrKeyType
  end.

Record CWTSigningConfig := mkCWTSigningConfig { cwt_SigningKey : key; cwt_Algorithm : Z }.

Definition cwt_claims (sl : StatusList) (compressed : list Z) (now : Z) : list (Z * cval) :=
  ([(cwtClaimIss, CText (Issuer sl)); (cwtClaimSub, CText (Subject sl));
    (cwtClaimIat, CInt64 (unix now));
    (cwtClaimStatusList, CStruct (mkCWTStatusList Bits compressed (AggregationURI sl)))]
   ++ (if bool_decide (0 < ExpiresIn sl)
       then [(cwtClaimExp, CInt64 (unix (now + ExpiresIn sl)))] else [])
   ++ (if bool_decide (0 < TTL sl) then [(cwtClaimTTL, CInt64 (TTL sl))] else []))%list.

Definition marshal (v : cval) : result cwt_error (list Z) :=
  match cbor_marshal v with Some b => Ok b | None => Err CErrEncode end.

Definition GenerateCWT (sl : StatusList) (cfg : CWTSigningConfig) (now : Z) :
    result cwt_error (list Z) :=
  compressed ← map_err CErrCompress (CompressStatuses (statuses sl));
  let claims := cwt_claims sl compressed now in
  alg ← (if bool_decide (cwt_Algorithm cfg = 0) then detectCOSEAlgorithm (cwt_SigningKey cfg)
         else Ok (cwt_Algorithm cfg));
  let protectedHeader :=
    ([(coseHeaderAlg, CInt alg); (coseHeaderTyp, CText CWTTypHeader)]
     ++ (if str_empty (KeyID sl) then [] else [(coseHeaderKid, CText (KeyID sl))]))%list in
  protectedBytes ← marshal (CMapInt protectedHeader);
  payloadBytes ← marshal (CMapInt claims);
  signature ← signCOSE protectedBytes payloadBytes (cwt_SigningKey cfg) alg;
  marshal (CTag 18 (CArr [CBytes protectedBytes; CMapInt []; CBytes payloadBytes; CBytes signature])).

Definition ParseCWT (cwtBytes : list Z) : result cwt_error (list (Z * cval)) :=
  match cbor_unmarshal cwtBytes with
  | Some (CTag n content) =>
      if negb (bool_decide (n = 18)) then Err (CErrTag n) else
      match content with
      | CArr [_; _; payload; _] =>
          match payload with
          | CBytes payloadBytes =>
              match cbor_unmarshal payloadBytes with
              | Some (CMapAny m) =>
                  match int_keys m with Some claims => Ok claims | None => Err CErrDecode end
              | _ => Err CErrDecode
              end
          | _ => Err CErrPayload
          end
      | _ => Err CErrStructure
      end
  | _ => Err CErrDecode
  end.

(** The loop over a [map[any]any]: the last [lst] member wins. *)
Definition find_lst (m : list (cval * cval)) : option (list Z) :=
  foldl (fun acc kv =>
    match kv with
    | (CInt z, CBytes b) | (CInt64 z, CBytes b) | (CUint64 z, CBytes b) =>
        if bool_decide (z = statusListKeyLst) then Some b else acc
    | _ => acc
    end) None m.

Definition GetStatusFromCWT (claims : list (Z * cval)) (index : Z) : result cwt_error Z :=
  match zget claims cwtClaimStatusList with
  | None => Err CErrNoStatusList
  | Some raw =>
      lst ← match raw with
            | CMapAny m => match find_lst m with Some b => Ok b | None => Err CErrNoLst end
            | CMapInt m => match zget m statusListKeyLst with
                           | Some (CBytes b) => Ok b
                           | _ => Err CErrNoLst
                           end
            | CStruct s => match cwt_Lst s with [] => Err CErrNoLst | b => Ok b end
            | _ => Err CErrStatusListFormat
            end;
      l ← map_err CErrStatus (DecompressStatuses lst);
      map_err CErrStatus (GetStatus l index)
  end.
End cwt.

(** ** Signatures *)

Section cwt_laws.
Context `{ZlibLaws} `{CBORLaws} `{CoseCrypto}.

Lemma signECDSA_halves data k h r s :
  let keyBytes := Z.to_nat ((curve_bits k + 7) / 8) in
  ecdsa_sign k (digest h data) = Some (r, s) →
  0 ≤ r < 256 ^ Z.of_nat keyBytes → 0 ≤ s < 256 ^ Z.of_nat keyBytes →
  ∃ signature, signECDSA data (ECKey k) h = Ok signature ∧
    length signature = (2 * keyBytes)%nat ∧
    of_be (take keyBytes signature) = r ∧ of_be (drop keyBytes signature) = s.
Proof.
  intros n E Hr Hs. unfold signECDSA. rewrite E. fold n.
  pose proof (big_bytes_length r n Hr) as Lr. pose proof (big_bytes_length s n Hs) as Ls.
  rewrite !bool_decide_eq_false_2 by lia. cbn [orb].
  eexists. split; [done|]. by apply copy_halves_read.
Qed.

(** The COSE signature has the fixed width of the curve, twice its
    field size in bytes, and its two halves are the big-endian integers the
    signature primitive produced, leading zeros included. *)
Theorem signECDSA_layout data k h r s :
  let keyBytes := Z.to_nat ((curve_bits k + 7) / 8) in
  ecdsa_sign k (digest h data) = Some (r, s) →
  0 ≤ r < 256 ^ Z.of_nat keyBytes → 0 ≤ s < 256 ^ Z.of_nat keyBytes →
  ∃ signature, signECDSA data (ECKey k) h = Ok signature ∧
    length signature = (2 * keyBytes)%nat ∧
    of_be (take keyBytes signature) = r ∧ of_be (drop keyBytes signature) = s.
Proof. apply signECDSA_halves. Qed.

(** An algorithm detected from the key is one [signCOSE] supports and one
    that fits the key: it never fails on the algorithm or the key type. *)
Lemma detected_algorithm_signs k alg pb pl :
  detectCOSEAlgorithm k = Ok alg →
  match signCOSE pb pl k alg with
  | Err (CErrAlg _) | Err CErrKeyType => False
  | _ => True
  end.
Proof.
  unfold signCOSE. destruct (cbor_marshal _); [|done].
  destruct k as [k|k|k]; cbn; [|intros [= <-]; cbn; unfold signRSAPSS; by repeat case_match|done].
  destruct (ec_curve k); intros [= <-]; cbn; unfold signECDSA; by repeat case_match.
Qed.

Lemma int_keys_norm m :
  int_keys (map (fun kv => (norm_int (fst kv), norm (snd kv))) m) =
  Some (map (fun kv => (fst kv, norm (snd kv))) m).
Proof.
  induction m as [|[k v] m IH]; [done|]. cbn.
  assert (norm_int k = CUint64 k ∨ norm_int k = CInt64 k) as [-> | ->]
    by (unfold norm_int; case_bool_decide; auto); by rewrite IH.
Qed.

Lemma zget_map_norm m k : zget (map (fun kv => (fst kv, norm (snd kv))) m) k = norm <$> zget m k.
Proof. induction m as [|[k' v] m IH]; [done|]. cbn. by case_bool_decide. Qed.

Lemma norm_status_list_lst s :
  ∃ m, norm_status_list s = CMapAny m ∧ find_lst m = Some (cwt_Lst s).
Proof. eexists. split; [done|]. by destruct (str_empty (cwt_AggregationURI s)). Qed.

(** What a successful [GenerateCWT] parses to. *)
Lemma ParseCWT_GenerateCWT sl cfg now tok :
  GenerateCWT sl cfg now = Ok tok →
  ∃ z, CompressStatuses (statuses sl) = Ok z ∧
    ParseCWT tok = Ok (map (fun kv => (fst kv, norm (snd kv))) (cwt_claims sl z now)).
Proof.
  unfold GenerateCWT, marshal. intros (z & Hz%map_err_Ok & (alg & _ & Hg)%bind_Ok)%bind_Ok.
  apply bind_Ok in Hg as (pb & _ & (pl & Hpl & (sig & _ & Ht)%bind_Ok)%bind_Ok).
  destruct (cbor_marshal (CMapInt (cwt_claims _ _ _))) as [pl'|] eqn:Ep; [|done]. injection Hpl as ->.
  destruct (cbor_marshal (CTag _ _)) as [t|] eqn:Et; [|done]. injection Ht as ->.
  exists z. split; [done|]. unfold ParseCWT. rewrite (cbor_roundtrip _ _ Et). cbn.
  rewrite (cbor_roundtrip _ _ Ep). cbn [norm]. by rewrite int_keys_norm.
Qed.

(** The CWT form of the token carries the same statuses as the list it
    was made from: parsing it and reading an index gives what [Get] gives
    on the list, the index error included. *)
Theorem cwt_status_roundtrip sl cfg now tok i :
  Forall in_uint8 (statuses sl) → Len sl ≤ maxDecompressedSize →
  GenerateCWT sl cfg now = Ok tok →
  (c ← ParseCWT tok; GetStatusFromCWT c i) = map_err CErrStatus (Get sl i).
Proof.
  intros Hb Hlen (z & Hz & ->)%ParseCWT_GenerateCWT. cbn [mbind result_bind].
  unfold GetStatusFromCWT. rewrite zget_map_norm.
  set (st := mkCWTStatusList Bits z (AggregationURI sl)).
  change (zget (cwt_claims sl z now) cwtClaimStatusList) with (Some (CStruct st)).
  cbn [fmap option_fmap option_map norm]. destruct (norm_status_list_lst st) as (m & -> & ->).
  cbn. unfold CompressStatuses in Hz.
  destruct (deflate (statuses sl)) as [z'|] eqn:Ez; [|done]. injection Hz as ->.
  unfold DecompressStatuses. rewrite (inflate_deflate _ _ Hb Ez).
  rewrite bool_decide_false by (unfold Len in Hlen; lia). done.
Qed.
End cwt_laws.

(** ** Instances and witnesses *)

#[local] Existing Instance stored_zlib.
#[local] Existing Instance stored_zlib_laws.

Lemma cval_nested_ind (P : cval → Prop) :
  (∀ z, P (CInt z)) → (∀ z, P (CInt64 z)) → (∀ z, P (CUint64 z)) → (∀ s, P (CText s)) →
  (∀ b, P (CBytes b)) → (∀ l, Forall P l → P (CArr l)) →
  (∀ m, Forall (fun kv => P (snd kv)) m → P (CMapInt m)) →
  (∀ m, Forall (fun kv => P (fst kv) ∧ P (snd kv)) m → P (CMapAny m)) →
  (∀ s, P (CStruct s)) → (∀ n v, P v → P (CTag n v)) → P CNull → (∀ l, P (CByteSlices l)) → ∀ v, P v.
Proof.
  intros H1 H2 H3 H4 H5 H6 H7 H8 H9 H10 H11 H12. fix IH 1.
  intros [z|z|z|s|b|l|m|m|s|n v| |l];
    [apply H1|apply H2|apply H3|apply H4|apply H5|apply H6|apply H7|apply H8|apply H9|apply H10, IH|apply H11|apply H12].
  - induction l as [|v l IHl]; constructor; [apply IH|exact IHl].
  - induction m as [|[k v] m IHm]; constructor; [apply IH|exact IHm].
  - induction m as [|[k v] m IHm]; constructor; [split; apply IH|exact IHm].
Qed.

(** A byte-level code for normalised values: a type byte, a payload. *)
Fixpoint toy_tree (v : cval) : gen_tree (Z + string + list Z) :=
  match v with
  | CInt z | CInt64 z | CUint64 z => GenLeaf (inl (inl z))
  | CText s => GenLeaf (inl (inr s))
  | CBytes b => GenLeaf (inr b)
  | CArr l => GenNode 0 (map toy_tree l)
  | CMapInt m => GenNode 1 (map (fun kv => GenNode 0 [GenLeaf (inl (inl (fst kv))); toy_tree (snd kv)]) m)
  | CMapAny m => GenNode 1 (map (fun kv => GenNode 0 [toy_tree (fst kv); toy_tree (snd kv)]) m)
  | CStruct s =>
      GenNode 1 ([GenNode 0 [GenLeaf (inl (inl 1)); GenLeaf (inl (inl (cwt_Bits s)))];
                  GenNode 0 [GenLeaf (inl (inl 2)); GenLeaf (inr (cwt_Lst s))]]
                 ++ (if str_empty (cwt_AggregationURI s) then []
                     else [GenNode 0 [GenLeaf (inl (inl 3)); GenLeaf (inl (inr (cwt_AggregationURI s)))]]))
  | CTag n v => GenNode 2 [GenLeaf (inl (inl n)); toy_tree v]
  | CNull => GenNode 3 []
  | CByteSlices l => GenNode 0 (map (fun b => GenLeaf (inr b)) l)
  end.

Fixpoint toy_value (t : gen_tree (Z + string + list Z)) : cval :=
  match t with
  | GenLeaf (inl (inl z)) => norm_int z
  | GenLeaf (inl (inr s)) => CText s
  | GenLeaf (inr b) => CBytes b
  | GenNode 0 l => CArr (map toy_value l)
  | GenNode 1 l => CMapAny (map (fun t => match t with
                                          | GenNode _ [k; v] => (toy_value k, toy_value v)
                                          | _ => (CBytes [], CBytes [])
                                          end) l)
  | GenNode 3 _ => CNull
  | GenNode _ [GenLeaf (inl (inl n)); v] => CTag n (toy_value v)
  | GenNode _ _ => CBytes []
  end.

Lemma toy_value_tree v : toy_value (toy_tree v) = norm v.
Proof.
  induction v as [z|z|z|s|b|l IH|m IH|m IH|[bits lst uri]|n v IH| |l] using cval_nested_ind; cbn; try done.
  - f_equal. rewrite map_map. by apply map_ext_Forall.
  - f_equal. rewrite map_map. apply map_ext_Forall. eapply Forall_impl; [exact IH|].
    intros [k v]. cbn. by intros ->.
  - f_equal. rewrite map_map. apply map_ext_Forall. eapply Forall_impl; [exact IH|].
    intros [k v]. cbn. by intros [-> ->].
  - unfold norm_status_list. cbn. by destruct (str_empty uri).
  - by rewrite IH.
  - f_equal. by rewrite map_map.
Qed.

#[local] Instance toy_cbor : CBOR := {|
  cbor_marshal v := Some [Zpos (encode (toy_tree v))];
  cbor_unmarshal b := match b with
                      | [Zpos p] => toy_value <$> decode p
                      | _ => None
                      end
|}.
#[local] Instance toy_cbor_laws : CBORLaws.
Proof.
  split. intros v b [= <-]. cbn [cbor_unmarshal toy_cbor].
  rewrite decode_encode. cbn. by rewrite toy_value_tree.
Qed.

#[local] Instance toy_crypto : CoseCrypto := {|
  ec_key := unit; rsa_key := unit; other_key := unit;
  ec_curve _ := P521; curve_bits _ := 521;
  digest _ d := d;
  ecdsa_sign _ _ := Some (258, 7);
  rsa_sign_pss _ _ d := Some d
|}.

Definition toy_key : cose_key (@ec_key toy_crypto) (@rsa_key toy_crypto) (@other_key toy_crypto) :=
  ECKey (tt : @ec_key toy_crypto).

(** On P-521 a half has 66 bytes; both integers here need padding. *)
Lemma signECDSA_layout_witness :
  ∃ signature, signECDSA [1; 2; 3] toy_key SHA512 = Ok signature ∧ length signature = 132%nat ∧
    of_be (take 66 signature) = 258 ∧ of_be (drop 66 signature) = 7.
Proof.
  destruct (signECDSA_layout [1; 2; 3] (tt : @ec_key toy_crypto) SHA512 258 7) as (sig & E & L & R & S);
    [reflexivity|split; [lia|reflexivity]|split; [lia|reflexivity]|].
  exists sig. exact (conj E (conj L (conj R S))).
Defined.

Lemma cwt_status_roundtrip_witness :
  ∃ tok, GenerateCWT witness_list (mkCWTSigningConfig toy_key 0) 0 = Ok tok ∧
    (c ← ParseCWT tok; GetStatusFromCWT c 2) = Ok 2.
Proof.
  eexists. split; [reflexivity|].
  rewrite (cwt_status_roundtrip witness_list (mkCWTSigningConfig toy_key 0) 0);
    [reflexivity| |vm_compute; discriminate|reflexivity].
  repeat constructor; unfold in_uint8; lia.
Defined.
