(* ===== verification/Cose.v ===== *)
(** * COSE messages

    [pkg/mdoc/cose.go]: COSE_Sign1 and COSE_Mac0 messages, their CBOR form,
    the certificate chain header and COSE keys.  A [[]byte] that the code
    compares with nil is an [option]; [None] is the nil slice, which the CBOR
    library writes as null.  The CBOR library, the hash and signature
    primitives, HMAC, ASN.1 and X.509 parsing are interfaces. *)

From stdpp Require Import pretty.
From S2P Require Import Prelude Bytes TokenStatusList TokenStatusListCWT.

Definition AlgorithmES256 : Z := -7.
Definition AlgorithmES384 : Z := -35.
Definition AlgorithmES512 : Z := -36.
Definition AlgorithmEdDSA : Z := -8.
Definition AlgorithmHMAC256 : Z := 5.
Definition AlgorithmHMAC384 : Z := 6.
Definition AlgorithmHMAC512 : Z := 7.
Definition KeyTypeEC2 : Z := 2.
Definition KeyTypeOKP : Z := 1.
Definition CurveP256 : Z := 1.
Definition CurveP384 : Z := 2.
Definition CurveP521 : Z := 3.
Definition CurveEd25519 : Z := 6.
Definition HeaderAlgorithm : Z := 1.
Definition HeaderKeyID : Z := 4.
Definition HeaderX5Chain : Z := 33.
Definition HeaderX5ChainAlt : Z := 34.

Inductive cose_error :=
| EHeaders | ENoAlg | EAlgType | EAlgOverflow | EAlg (alg : Z)
| EEncode | EDecode | ETag (n : Z) | EStructure
| ESign | EASN1 | EPanic | ESigLength | ESignature
| EMac | ENoPayload
| ENoChain | EChainType | EChainEntry | ECertificate
| ECurve | EKeyType | EKeySize.

Abbreviation gobytes := (option (list Z)).
Definition raw (b : gobytes) : list Z := default [] b.
Definition cbytes (b : gobytes) : cval := match b with Some b => CBytes b | None => CNull end.
Definition cmap (m : option (list (cval * cval))) : cval :=
  match m with Some m => CMapAny m | None => CNull end.
(** The type assertions [v.([]byte)] and [v.(map[any]any)], nil on failure. *)
Definition as_bytes (v : cval) : gobytes := match v with CBytes b => Some b | _ => None end.
Definition as_map (v : cval) : option (list (cval * cval)) := match v with CMapAny m => Some m | _ => None end.

(** ** Keys *)

#[global] Instance curve_eq_dec : EqDecision curve.
Proof. solve_decision. Defined.

Record ecdsa_pub := mkECDSA { pub_Curve : curve; pub_X : Z; pub_Y : Z }.
Inductive cose_pub := PubEC (k : ecdsa_pub) | PubEd25519 (k : list Z) | PubOther.

Record COSEKey := mkCOSEKey { Kty : Z; Alg : Z; Crv : Z; key_X : list Z; key_Y : gobytes }.

Definition curve_size (c : curve) : Z :=
  match c with P256 => 256 | P384 => 384 | P521 => 521 | OtherCurve => 0 end.

Definition pad_coordinate (byteLen : nat) (x : list Z) : list Z :=
  if bool_decide (length x < byteLen)%nat then (replicate (byteLen - length x) 0 ++ x)%list else x.

Definition NewCOSEKeyFromECDSA (pub : ecdsa_pub) : result cose_error COSEKey :=
  crv ← match pub_Curve pub with
        | P256 => Ok CurveP256 | P384 => Ok CurveP384 | P521 => Ok CurveP521
        | OtherCurve => Err ECurve
        end;
  let byteLen := Z.to_nat ((curve_size (pub_Curve pub) + 7) / 8) in
  let x := pad_coordinate byteLen (big_bytes (Z.abs (pub_X pub))) in
  let y := pad_coordinate byteLen (big_bytes (Z.abs (pub_Y pub))) in
  Ok (mkCOSEKey KeyTypeEC2 0 crv x (Some y)).

Definition NewCOSEKeyFromCoordinates (kty crv : string) (x : list Z) (y : gobytes) : result cose_error COSEKey :=
  kty ← (if bool_decide (kty = "EC") then Ok KeyTypeEC2 else
         if bool_decide (kty = "OKP") then Ok KeyTypeOKP else Err EKeyType);
  crv ← (if bool_decide (crv = "P-256") then Ok CurveP256 else
         if bool_decide (crv = "P-384") then Ok CurveP384 else
         if bool_decide (crv = "P-521") then Ok CurveP521 else
         if bool_decide (crv = "Ed25519") then Ok CurveEd25519 else Err ECurve);
  Ok (mkCOSEKey kty 0 crv x y).

Definition NewCOSEKeyFromEd25519 (pub : list Z) : COSEKey := mkCOSEKey KeyTypeOKP 0 CurveEd25519 pub None.

Definition toECDSAPublicKey (k : COSEKey) : result cose_error cose_pub :=
  c ← (if bool_decide (Crv k = CurveP256) then Ok P256 else
       if bool_decide (Crv k = CurveP384) then Ok P384 else
       if bool_decide (Crv k = CurveP521) then Ok P521 else Err ECurve);
  Ok (PubEC (mkECDSA c (of_be (key_X k)) (of_be (raw (key_Y k))))).

Definition ed25519_PublicKeySize : nat := 32.

Definition toEd25519PublicKey (k : COSEKey) : result cose_error cose_pub :=
  if negb (bool_decide (Crv k = CurveEd25519)) then Err ECurve else
  if negb (bool_decide (length (key_X k) = ed25519_PublicKeySize)) then Err EKeySize else
  Ok (PubEd25519 (key_X k)).

Definition ToPublicKey (k : COSEKey) : result cose_error cose_pub :=
  if bool_decide (Kty k = KeyTypeEC2) then toECDSAPublicKey k else
  if bool_decide (Kty k = KeyTypeOKP) then toEd25519PublicKey k else Err EKeyType.

(** The struct as the CBOR library writes it, without its empty fields. *)
Definition COSEKey_Bytes `{CBOR} (k : COSEKey) : option (list Z) :=
  cbor_marshal (CMapInt ([(1, CInt64 (Kty k))]
    ++ (if bool_decide (Alg k = 0) then [] else [(3, CInt64 (Alg k))])
    ++ [(-1, CInt64 (Crv k)); (-2, CBytes (key_X k))]
    ++ (match raw (key_Y k) with [] => [] | y => [(-3, CBytes y)] end))%list).

(** ** The primitives *)

Class CoseVerify `{CoseCrypto} := {
  ec_public : ec_key → ecdsa_pub;
  ecdsa_verify : ecdsa_pub → list Z → Z → Z → bool;
  ed25519_verify : list Z → list Z → list Z → bool
}.

(** A [crypto.Signer] with its public key, which may live in an HSM. *)
Class CoseSigner `{CoseVerify} := {
  signer : Type;
  signer_public : signer → cose_pub;
  (* Sign(rand, digest, opts); opts is a hash or crypto.Hash(0) *)
  sign_digest : signer → list Z → option hash_alg → option (list Z);
  (* asn1.Unmarshal into struct{R, S *big.Int} *)
  asn1_signature : list Z → option (Z * Z);
  hmac : hash_alg → list Z → list Z → list Z
}.

Definition AlgorithmForKey `{CoseSigner} (key : signer + cose_pub) : result cose_error Z :=
  match match key with inl s => signer_public s | inr k => k end with
  | PubEC k =>
      match pub_Curve k with
      | P256 => Ok AlgorithmES256 | P384 => Ok AlgorithmES384 | P521 => Ok AlgorithmES512
      | OtherCurve => Err ECurve
      end
  | PubEd25519 _ => Ok AlgorithmEdDSA
  | PubOther => Err EKeyType
  end.

(** ** COSE_Sign1 *)

Record COSESign1 := mkSign1 {
  Protected : gobytes; Unprotected : option (list (cval * cval)); Payload : gobytes; Signature : gobytes
}.

Definition is_ecdsa (algorithm : Z) : bool :=
  bool_decide (algorithm = AlgorithmES256) || bool_decide (algorithm = AlgorithmES384) ||
  bool_decide (algorithm = AlgorithmES512).

(** The hash and the width of one half of the signature. *)
Definition ec_params (algorithm : Z) : hash_alg * nat :=
  if bool_decide (algorithm = AlgorithmES256) then (SHA256, 32%nat) else
  if bool_decide (algorithm = AlgorithmES384) then (SHA384, 48%nat) else (SHA512, 66%nat).

Section sign1.
Context `{CBOR} `{CoseVerify}.

Definition MarshalCBOR (s : COSESign1) : option (list Z) :=
  cbor_marshal (CTag 18 (CArr [cbytes (Protected s); cmap (Unprotected s); cbytes (Payload s); cbytes (Signature s)])).

Definition UnmarshalCBOR (data : list Z) : result cose_error COSESign1 :=
  match cbor_unmarshal data with
  | Some (CTag n content) =>
      if negb (bool_decide (n = 18)) then Err (ETag n) else
      match content with
      | CArr [a0; a1; a2; a3] => Ok (mkSign1 (as_bytes a0) (as_map a1) (as_bytes a2) (as_bytes a3))
      | _ => Err EStructure
      end
  | _ => Err EDecode
  end.

(** Decoding into [map[int64]any]. *)
Definition decode_headers (b : gobytes) : option (list (Z * cval)) :=
  match cbor_unmarshal (raw b) with Some (CMapAny m) => int_keys m | _ => None end.

Definition header_algorithm (headers : list (Z * cval)) : result cose_error Z :=
  match zget headers HeaderAlgorithm with
  | None => Err ENoAlg
  | Some (CInt64 algorithm) | Some (CInt algorithm) => Ok algorithm
  | Some (CUint64 v) => if bool_decide (2 ^ 63 ≤ v) then Err EAlgOverflow else Ok v
  | Some _ => Err EAlgType
  end.

(** The Sig_structure and the MAC_structure. *)
Definition to_be_signed (context : string) (protected externalAAD payload : gobytes) : option (list Z) :=
  cbor_marshal (CArr [CText context; cbytes protected; CBytes (raw externalAAD); cbytes payload]).

Definition verifyECDSA (data signature : list Z) (k : ecdsa_pub) (algorithm : Z) : result cose_error unit :=
  let '(h, byteLen) := ec_params algorithm in
  if negb (bool_decide (length signature = byteLen * 2)%nat) then Err ESigLength else
  let r := of_be (take byteLen signature) in
  let s := of_be (drop byteLen signature) in
  if ecdsa_verify k (digest h data) r s then Ok tt else Err ESignature.

(** [ed25519.Verify] panics on a key of the wrong size. *)
Definition verifyEdDSA (data signature k : list Z) : result cose_error unit :=
  if negb (bool_decide (length k = ed25519_PublicKeySize)) then Err EPanic else
  if ed25519_verify k data signature then Ok tt else Err ESignature.

(** The type assertion on the key panics when it does not fit. *)
Definition verifySignature (data signature : list Z) (k : cose_pub) (algorithm : Z) : result cose_error unit :=
  if is_ecdsa algorithm then
    match k with PubEC k => verifyECDSA data signature k algorithm | _ => Err EPanic end
  else if bool_decide (algorithm = AlgorithmEdDSA) then
    match k with PubEd25519 k => verifyEdDSA data signature k | _ => Err EPanic end
  else Err (EAlg algorithm).

Definition Verify1 (sign1 : COSESign1) (payload : gobytes) (k : cose_pub) (externalAAD : gobytes) :
    result cose_error unit :=
  match decode_headers (Protected sign1) with
  | None => Err EHeaders
  | Some headers =>
      algorithm ← header_algorithm headers;
      let payload := match payload with None => Payload sign1 | Some _ => payload end in
      match to_be_signed "Signature1" (Protected sign1) externalAAD payload with
      | None => Err EEncode
      | Some tbs => verifySignature tbs (raw (Signature sign1)) k algorithm
      end
  end.
End sign1.

Section signing.
Context `{CBOR} `{CoseSigner}.

Definition raw_len (algorithm : Z) : nat :=
  if bool_decide (algorithm = AlgorithmES256) then 32 else
  if bool_decide (algorithm = AlgorithmES384) then 48 else
  if bool_decide (algorithm = AlgorithmES512) then 66 else 0.

(** A slice bound below zero panics. *)
Definition convertECDSASignatureToRaw (asn1Sig : list Z) (algorithm : Z) : result cose_error (list Z) :=
  match asn1_signature asn1Sig with
  | None => Err EASN1
  | Some (r, s) =>
      let byteLen := raw_len algorithm in
      let rBytes := big_bytes (Z.abs r) in
      let sBytes := big_bytes (Z.abs s) in
      if bool_decide (byteLen < length rBytes)%nat || bool_decide (2 * byteLen < length sBytes)%nat
      then Err EPanic else
      let rawSig := replicate (2 * byteLen) 0 in
      let rawSig := copy_at rawSig (byteLen - length rBytes) rBytes in
      Ok (copy_at rawSig (2 * byteLen - length sBytes) sBytes)
  end.

(** The options name SHA-256 whatever the digest was computed with. *)
Definition signPayload (data : list Z) (s : signer) (algorithm : Z) : result cose_error (list Z) :=
  if is_ecdsa algorithm then
    match sign_digest s (digest (fst (ec_params algorithm)) data) (Some SHA256) with
    | None => Err ESign
    | Some sigBytes => convertECDSASignatureToRaw sigBytes algorithm
    end
  else if bool_decide (algorithm = AlgorithmEdDSA) then
    match sign_digest s data None with None => Err ESign | Some sig => Ok sig end
  else Err (EAlg algorithm).

Definition Sign1 (payload : gobytes) (s : signer) (algorithm : Z) (x5chain : list (list Z))
    (externalAAD : gobytes) : result cose_error COSESign1 :=
  match cbor_marshal (CMapInt [(HeaderAlgorithm, CInt64 algorithm)]) with
  | None => Err EEncode
  | Some protectedBytes =>
      match to_be_signed "Signature1" (Some protectedBytes) externalAAD payload with
      | None => Err EEncode
      | Some tbs =>
          signature ← signPayload tbs s algorithm;
          let unprotected := match x5chain with
                             | [] => []
                             | _ => [(CInt64 HeaderX5Chain, CByteSlices x5chain)]
                             end in
          Ok (mkSign1 (Some protectedBytes) (Some unprotected) payload (Some signature))
      end
  end.

Definition Sign1Detached (payload : gobytes) (s : signer) (algorithm : Z) (x5chain : list (list Z))
    (externalAAD : gobytes) : result cose_error COSESign1 :=
  result ← Sign1 payload s algorithm x5chain externalAAD;
  Ok (mkSign1 (Protected result) (Unprotected result) None (Signature result)).

(** ** COSE_Mac0 *)

Record COSEMac0 := mkMac0 {
  mac_Protected : gobytes; mac_Unprotected : option (list (cval * cval)); mac_Payload : gobytes; mac_Tag : gobytes
}.

Definition Mac0_MarshalCBOR (m : COSEMac0) : option (list Z) :=
  cbor_marshal (CTag 17 (CArr [cbytes (mac_Protected m); cmap (mac_Unprotected m);
                               cbytes (mac_Payload m); cbytes (mac_Tag m)])).

Definition Mac0_UnmarshalCBOR (data : list Z) : result cose_error COSEMac0 :=
  match cbor_unmarshal data with
  | Some (CTag n content) =>
      if negb (bool_decide (n = 17)) then Err (ETag n) else
      match content with
      | CArr [a0; a1; a2; a3] => Ok (mkMac0 (as_bytes a0) (as_map a1) (as_bytes a2) (as_bytes a3))
      | _ => Err EStructure
      end
  | _ => Err EDecode
  end.

Definition computeMAC (data key : list Z) (algorithm : Z) : result cose_error (list Z) :=
  '(h, truncate) ← (if bool_decide (algorithm = AlgorithmHMAC256) then Ok (SHA256, 32%nat) else
                    if bool_decide (algorithm = AlgorithmHMAC384) then Ok (SHA384, 48%nat) else
                    if bool_decide (algorithm = AlgorithmHMAC512) then Ok (SHA512, 64%nat) else
                    Err (EAlg algorithm));
  let res := hmac h key data in
  Ok (if bool_decide (truncate < length res)%nat then take truncate res else res).

Definition Mac0 (payload : gobytes) (key : list Z) (algorithm : Z) (externalAAD : gobytes) :
    result cose_error COSEMac0 :=
  match cbor_marshal (CMapInt [(HeaderAlgorithm, CInt64 algorithm)]) with
  | None => Err EEncode
  | Some protectedBytes =>
      match to_be_signed "MAC0" (Some protectedBytes) externalAAD payload with
      | None => Err EEncode
      | Some toMAC =>
          tag ← computeMAC toMAC key algorithm;
          Ok (mkMac0 (Some protectedBytes) (Some []) payload (Some tag))
      end
  end.

Definition VerifyCOSEMac0 (mac0 : COSEMac0) (key : list Z) (detachedPayload externalAAD : gobytes) :
    result cose_error unit :=
  match decode_headers (mac_Protected mac0) with
  | None => Err EHeaders
  | Some headers =>
      algorithm ← header_algorithm headers;
      match match mac_Payload mac0 with None => detachedPayload | Some _ => mac_Payload mac0 end with
      | None => Err ENoPayload
      | Some payload =>
          match to_be_signed "MAC0" (mac_Protected mac0) externalAAD (Some payload) with
          | None => Err EEncode
          | Some toMAC =>
              expectedTag ← computeMAC toMAC key algorithm;
              if bool_decide (raw (mac_Tag mac0) = expectedTag) then Ok tt else Err EMac
          end
      end
  end.
End signing.

(** ** The certificate chain *)

(** Equality of map keys whose dynamic types the lookup distinguishes. *)
Definition same_key (k want : cval) : bool :=
  match k, want with
  | CInt a, CInt b | CInt64 a, CInt64 b | CUint64 a, CUint64 b => bool_decide (a = b)
  | CText a, CText b => bool_decide (a = b)
  | _, _ => false
  end.

Definition any_get (m : list (cval * cval)) (k : cval) : option cval :=
  snd <$> List.find (fun e => same_key (fst e) k) m.

Definition lookupUnprotectedHeader (m : list (cval * cval)) (label : Z) : option cval :=
  match any_get m (CInt64 label) with Some v => Some v | None =>
  match any_get m (CUint64 (label mod 2 ^ 64)) with Some v => Some v | None =>
  match any_get m (CInt label) with Some v => Some v | None =>
  any_get m (CText (pretty label)) end end end.

Section chain.
Context `{CBOR} {certificate : Type} (ParseCertificate : list Z → option certificate).

Fixpoint chain_entries (l : list cval) : result cose_error (list (list Z)) :=
  match l with
  | [] => Ok []
  | CBytes b :: l => bs ← chain_entries l; Ok (b :: bs)
  | _ :: _ => Err EChainEntry
  end.

Fixpoint parse_certificates (l : list (list Z)) : result cose_error (list certificate) :=
  match l with
  | [] => Ok []
  | b :: l =>
      match ParseCertificate b with
      | None => Err ECertificate
      | Some c => cs ← parse_certificates l; Ok (c :: cs)
      end
  end.

Definition GetCertificateChainFromSign1 (sign1 : COSESign1) : result cose_error (list certificate) :=
  let unprotected := default [] (Unprotected sign1) in
  x5chainRaw ←
    match lookupUnprotectedHeader unprotected HeaderX5Chain with
    | Some v => Ok v
    | None =>
        match lookupUnprotectedHeader unprotected HeaderX5ChainAlt with
        | Some v => Ok v
        | None =>
            match decode_headers (Protected sign1) with
            | None => Err EHeaders
            | Some headers =>
                match zget headers HeaderX5Chain with
                | Some v => Ok v
                | None => match zget headers HeaderX5ChainAlt with Some v => Ok v | None => Err ENoChain end
                end
            end
        end
    end;
  certBytes ← match x5chainRaw with
              | CBytes v => Ok [v]
              | CByteSlices v => Ok v
              | CArr v => chain_entries v
              | _ => Err EChainType
              end;
  parse_certificates certBytes.
End chain.

(** ** Keys read back *)

Definition coordinate_bytes (c : curve) : nat := Z.to_nat ((curve_size c + 7) / 8).

Lemma pad_coordinate_spec n z :
  0 ≤ z < 256 ^ Z.of_nat n →
  length (pad_coordinate n (big_bytes z)) = n ∧ of_be (pad_coordinate n (big_bytes z)) = z.
Proof.
  intros Hz. pose proof (big_bytes_length z n Hz). unfold pad_coordinate. case_bool_decide.
  - rewrite length_app, length_replicate, of_be_app, of_be_zeros, of_be_big_bytes by lia. lia.
  - rewrite of_be_big_bytes by lia. lia.
Qed.

(** An ECDSA key on a supported curve, with coordinates of the field, has
    a COSE form with coordinates of the fixed width of the curve, from which
    exactly the key is read back; on any other curve it has none. *)
Theorem ecdsa_key_roundtrip pub :
  0 ≤ pub_X pub < 2 ^ curve_size (pub_Curve pub) → 0 ≤ pub_Y pub < 2 ^ curve_size (pub_Curve pub) →
  match NewCOSEKeyFromECDSA pub with
  | Ok k => ToPublicKey k = Ok (PubEC pub) ∧
      length (key_X k) = coordinate_bytes (pub_Curve pub) ∧
      length (raw (key_Y k)) = coordinate_bytes (pub_Curve pub)
  | Err e => pub_Curve pub = OtherCurve ∧ e = ECurve
  end.
Proof.
  destruct pub as [c x y]. cbn [pub_Curve pub_X pub_Y]. intros Hx Hy.
  unfold NewCOSEKeyFromECDSA. cbn [pub_Curve pub_X pub_Y].
  rewrite !Z.abs_eq by lia. fold (coordinate_bytes c).
  destruct (decide (c = OtherCurve)) as [->|Hc]; [done|].
  assert (2 ^ curve_size c ≤ 256 ^ Z.of_nat (coordinate_bytes c)) as Hle by (destruct c; done).
  destruct (pad_coordinate_spec (coordinate_bytes c) x) as [Lx Rx]; [lia|].
  destruct (pad_coordinate_spec (coordinate_bytes c) y) as [Ly Ry]; [lia|].
  destruct c; [..|done]; cbn [mbind result_bind]; (split; [|done]);
    unfold ToPublicKey, toECDSAPublicKey; cbn [Kty Crv key_X key_Y raw from_option id];
    unfold id; rewrite Rx, Ry; reflexivity.
Qed.

(** ** Protected headers *)

Section headers.
Context `{CBORLaws}.

Lemma headers_decoded m b :
  cbor_marshal (CMapInt m) = Some b →
  decode_headers (Some b) = Some (map (fun kv => (fst kv, norm (snd kv))) m).
Proof.
  intros E. unfold decode_headers. cbn [raw from_option]. unfold id.
  rewrite (cbor_roundtrip _ _ E). cbn [norm]. apply int_keys_norm.
Qed.

Lemma header_algorithm_decoded v hdr alg :
  v = CInt alg ∨ v = CInt64 alg → in_int64 alg →
  header_algorithm (map (fun kv => (fst kv, norm (snd kv))) ((HeaderAlgorithm, v) :: hdr)) = Ok alg.
Proof.
  intros Hv Halg. unfold header_algorithm, in_int64 in *. cbn [map fst snd zget].
  rewrite (bool_decide_eq_true_2 (HeaderAlgorithm = _)) by done.
  assert (norm v = norm_int alg) as -> by (destruct Hv as [-> | ->]; done). unfold norm_int.
  destruct (bool_decide_reflect (0 ≤ alg)); [|done].
  by rewrite (bool_decide_eq_false_2 (2 ^ 63 ≤ alg)) by lia.
Qed.

Lemma header_roundtrip alg b :
  in_int64 alg → cbor_marshal (CMapInt [(HeaderAlgorithm, CInt64 alg)]) = Some b →
  ∃ headers, decode_headers (Some b) = Some headers ∧ header_algorithm headers = Ok alg ∧
    zget headers HeaderX5Chain = None ∧ zget headers HeaderX5ChainAlt = None.
Proof.
  intros Halg E. rewrite (headers_decoded _ _ E). eexists. split; [done|].
  split_and!; [|done..]. apply header_algorithm_decoded; auto.
Qed.
End headers.

(** ** Messages verify *)

(** What the standard library documents of its signers: a signature parses to
    integers below the order of the curve that verify. *)
Class CoseSignerLaws `{CoseSigner} : Prop := {
  sign_ecdsa : ∀ s k d b,
    signer_public s = PubEC k → pub_Curve k ≠ OtherCurve → sign_digest s d (Some SHA256) = Some b →
    ∃ r t, asn1_signature b = Some (r, t) ∧ ecdsa_verify k d r t = true ∧
      0 ≤ r < 2 ^ curve_size (pub_Curve k) ∧ 0 ≤ t < 2 ^ curve_size (pub_Curve k);
  sign_ed25519 : ∀ s k d b,
    signer_public s = PubEd25519 k → sign_digest s d None = Some b →
    length k = ed25519_PublicKeySize ∧ ed25519_verify k d b = true
}.

Section messages.
Context `{CBORLaws} `{CoseSignerLaws}.

Lemma AlgorithmForKey_range key alg : AlgorithmForKey key = Ok alg → in_int64 alg.
Proof.
  unfold AlgorithmForKey. destruct (match key with inl s => _ | inr k => k end) as [k|k|]; [|intros [= <-]; done|done].
  destruct (pub_Curve k); intros [= <-]; done.
Qed.

Lemma convert_verifies s k d alg b sig data :
  signer_public s = PubEC k → pub_Curve k ≠ OtherCurve →
  raw_len alg = coordinate_bytes (pub_Curve k) → ec_params alg = (fst (ec_params alg), raw_len alg) →
  d = digest (fst (ec_params alg)) data → sign_digest s d (Some SHA256) = Some b →
  convertECDSASignatureToRaw b alg = Ok sig → verifyECDSA data sig k alg = Ok tt.
Proof.
  intros Hp Hc Hl Hh -> Hs. destruct (sign_ecdsa s k _ b Hp Hc Hs) as (r & t & Ha & Hv & Hr & Ht).
  unfold convertECDSASignatureToRaw. rewrite Ha, !Z.abs_eq by lia. cbn zeta. rewrite Hl.
  set (n := coordinate_bytes (pub_Curve k)).
  assert (2 ^ curve_size (pub_Curve k) ≤ 256 ^ Z.of_nat n) as Hle by (subst n; by destruct (pub_Curve k)).
  pose proof (big_bytes_length r n ltac:(lia)). pose proof (big_bytes_length t n ltac:(lia)).
  rewrite !bool_decide_eq_false_2 by lia. cbn [orb]. intros [= <-].
  change (n + (n + 0))%nat with (2 * n)%nat. destruct (copy_halves_read n r t) as (L & R & S); [lia..|].
  unfold verifyECDSA. rewrite Hh, Hl. fold n. rewrite L, R, S, Hv. by rewrite bool_decide_eq_true_2 by lia.
Qed.

(** A signature under the algorithm of the signer's key verifies under it. *)
Lemma signPayload_verifies s alg data sig :
  AlgorithmForKey (inl s) = Ok alg → signPayload data s alg = Ok sig →
  verifySignature data sig (signer_public s) alg = Ok tt.
Proof.
  unfold AlgorithmForKey. destruct (signer_public s) as [k|k|] eqn:Ep; [| |done].
  - intros Ha. assert (pub_Curve k ≠ OtherCurve) as Hc by (intros E; by rewrite E in Ha).
    assert (is_ecdsa alg = true ∧ raw_len alg = coordinate_bytes (pub_Curve k) ∧
            ec_params alg = (fst (ec_params alg), raw_len alg)) as (He & Hl & Hh)
      by (destruct (pub_Curve k); [injection Ha as <-; done..|done]).
    unfold signPayload, verifySignature. rewrite He. destruct (sign_digest _ _ _) as [b|] eqn:Es; [|done].
    by apply (convert_verifies s k (digest (fst (ec_params alg)) data) alg b sig data).
  - intros [= <-]. unfold signPayload, verifySignature. cbn.
    destruct (sign_digest s data None) as [b|] eqn:Es; [|done]. intros [= <-].
    destruct (sign_ed25519 s k data b Ep Es) as [Hl Hv]. unfold verifyEdDSA.
    by rewrite (bool_decide_eq_true_2 (length k = _)), Hv.
Qed.

Lemma to_be_signed_aad ctx p aad aad' pl : raw aad = raw aad' → to_be_signed ctx p aad pl = to_be_signed ctx p aad' pl.
Proof. unfold to_be_signed. by intros ->. Qed.

(** The parts of a signed message. *)
Lemma Sign1_parts payload s alg x5chain aad m :
  Sign1 payload s alg x5chain aad = Ok m →
  ∃ pb tbs sig, cbor_marshal (CMapInt [(HeaderAlgorithm, CInt64 alg)]) = Some pb ∧
    to_be_signed "Signature1" (Some pb) aad payload = Some tbs ∧ signPayload tbs s alg = Ok sig ∧
    m = mkSign1 (Some pb)
          (Some (match x5chain with [] => [] | _ => [(CInt64 HeaderX5Chain, CByteSlices x5chain)] end))
          payload (Some sig).
Proof.
  unfold Sign1. destruct (cbor_marshal _) as [pb|]; [|done].
  destruct (to_be_signed _ _ _ _) as [tbs|] eqn:Et; [|done].
  intros (sig & Hs & [= <-])%bind_Ok. by exists pb, tbs, sig.
Qed.

Lemma cbytes_norm b : as_bytes (norm (cbytes b)) = b.
Proof. by destruct b. Qed.

(** A message comes back from its CBOR form, up to the decoding of the
    unprotected header. *)
Lemma wire_message m b :
  MarshalCBOR m = Some b →
  UnmarshalCBOR b = Ok (mkSign1 (Protected m) (as_map (norm (cmap (Unprotected m)))) (Payload m) (Signature m)).
Proof.
  intros E. unfold UnmarshalCBOR. rewrite (cbor_roundtrip _ _ E). cbn [norm map].
  rewrite bool_decide_eq_true_2 by done. cbn [negb]. by rewrite !cbytes_norm.
Qed.

(** A message with the protected header and the signature of one that was
    signed verifies over the payload that was signed. *)
Lemma signed_verifies payload s alg x5chain aad aad' m m' p :
  AlgorithmForKey (inl s) = Ok alg → raw aad = raw aad' → Sign1 payload s alg x5chain aad = Ok m →
  Protected m' = Protected m → Signature m' = Signature m →
  match p with None => Payload m' | Some _ => p end = payload →
  Verify1 m' p (signer_public s) aad' = Ok tt.
Proof.
  intros Ha Haad Hs Hp Hsg Hpl.
  destruct (Sign1_parts _ _ _ _ _ _ Hs) as (pb & tbs & sig & Epb & Et & Hsig & ->). cbn in Hp, Hsg.
  destruct (header_roundtrip alg pb (AlgorithmForKey_range _ _ Ha) Epb) as (headers & Hh & Hg & _).
  rewrite (to_be_signed_aad _ _ aad aad') in Et by done.
  unfold Verify1. rewrite Hp, Hsg, Hpl, Hh, Hg. cbn [mbind result_bind]. rewrite Et. cbn [raw from_option]. unfold id.
  by apply signPayload_verifies.
Qed.

(** A message signed with the algorithm of the signer's key verifies under
    its public key, attached and detached, before and after its CBOR form, and
    whether the absent external data is nil or empty on either side. *)
Theorem sign1_verifies payload s alg x5chain aad aad' m m' b :
  AlgorithmForKey (inl s) = Ok alg → raw aad = raw aad' →
  Sign1 payload s alg x5chain aad = Ok m → Sign1Detached payload s alg x5chain aad = Ok m' →
  MarshalCBOR m = Some b →
  Verify1 m None (signer_public s) aad' = Ok tt ∧
  Verify1 m' payload (signer_public s) aad' = Ok tt ∧
  (m'' ← UnmarshalCBOR b; Verify1 m'' None (signer_public s) aad') = Ok tt.
Proof.
  intros Ha Haad Hs Hd Hb. unfold Sign1Detached in Hd. rewrite Hs in Hd. injection Hd as <-.
  rewrite (wire_message m b Hb). cbn [mbind result_bind].
  destruct (Sign1_parts _ _ _ _ _ _ Hs) as (? & ? & ? & _ & _ & _ & ->).
  split_and!; (eapply signed_verifies; [done|done|exact Hs|done|done|by destruct payload]).
Qed.

(** ** The chain arrives *)

Lemma chain_entries_slices l : chain_entries (map CBytes l) = Ok l.
Proof. induction l as [|b l IH]; [done|]. cbn. by rewrite IH. Qed.

(** The chain of a message that was decoded *)
Lemma chain_decoded {C} (parse : list Z → option C) payload s alg x5chain aad m unprotected :
  in_int64 alg → Sign1 payload s alg x5chain aad = Ok m →
  (x5chain = [] → unprotected = []) →
  (x5chain ≠ [] → ∃ lbl, lbl ∈ [CInt64 HeaderX5Chain; CUint64 HeaderX5Chain; CInt HeaderX5Chain; CText "33"] ∧
     (unprotected = [(lbl, CArr (map CBytes x5chain))] ∨ unprotected = [(lbl, CByteSlices x5chain)])) →
  GetCertificateChainFromSign1 parse (mkSign1 (Protected m) (Some unprotected) (Payload m) (Signature m)) =
  match x5chain with [] => Err ENoChain | _ => parse_certificates parse x5chain end.
Proof.
  intros Halg Hs Hnil Hcons. destruct (Sign1_parts _ _ _ _ _ _ Hs) as (pb & tbs & sig & Epb & _ & _ & ->).
  destruct (header_roundtrip alg pb Halg Epb) as (headers & Hh & _ & H33 & H34).
  unfold GetCertificateChainFromSign1. cbn [Protected Unprotected].
  destruct x5chain as [|c x5chain].
  - rewrite Hnil by done. cbn. by rewrite Hh, H33, H34.
  - destruct Hcons as (lbl & Hlbl & Hu); [done|].
    assert (∀ v, lookupUnprotectedHeader [(lbl, v)] HeaderX5Chain = Some v) as E.
    { intros v. repeat (apply elem_of_cons in Hlbl as [->|Hlbl]; [reflexivity|]). by apply elem_of_nil in Hlbl. }
    cbn [default from_option]. unfold id.
    destruct Hu as [-> | ->]; rewrite E; cbn -[parse_certificates chain_entries map]; [by rewrite chain_entries_slices|done].
Qed.

(** The unprotected header as it is decoded *)
Lemma chain_header_norm x5chain :
  as_map (norm (cmap (Some (match x5chain with [] => [] | _ => [(CInt64 HeaderX5Chain, CByteSlices x5chain)] end)))) =
  Some (match x5chain with [] => [] | _ => [(CUint64 HeaderX5Chain, CArr (map CBytes x5chain))] end).
Proof. by destruct x5chain. Qed.

(** The certificate chain a message was signed with is read from it as it
    is, after its CBOR form, and after a holder has rewritten the label of the
    unprotected header into a decimal string; a message signed without a chain
    has none, and a message with one is never read as having none. *)
Theorem chain_survives_wire {C} (parse : list Z → option C) payload s alg x5chain aad m b lbl :
  in_int64 alg → Sign1 payload s alg x5chain aad = Ok m → MarshalCBOR m = Some b →
  lbl ∈ [CInt64 HeaderX5Chain; CUint64 HeaderX5Chain; CInt HeaderX5Chain; CText "33"] →
  let chain := match x5chain with [] => Err ENoChain | _ => parse_certificates parse x5chain end in
  GetCertificateChainFromSign1 parse m = chain ∧
  (m' ← UnmarshalCBOR b; GetCertificateChainFromSign1 parse m') = chain ∧
  (x5chain ≠ [] →
   GetCertificateChainFromSign1 parse
     (mkSign1 (Protected m) (Some [(lbl, CArr (map CBytes x5chain))]) (Payload m) (Signature m)) = chain).
Proof.
  intros Halg Hs Hb Hlbl chain. rewrite (wire_message m b Hb). cbn [mbind result_bind].
  pose proof (chain_decoded parse payload s alg x5chain aad m) as Hc.
  destruct (Sign1_parts _ _ _ _ _ _ Hs) as (pb & tbs & sig & _ & _ & _ & ->). cbn [Protected Unprotected Payload Signature] in *.
  rewrite chain_header_norm. split_and!; [..|intros Hne]; apply Hc; try done; destruct x5chain; try done; intros _.
  - exists (CInt64 HeaderX5Chain). split; [set_solver|by right].
  - exists (CUint64 HeaderX5Chain). split; [set_solver|by left].
  - exists lbl. split; [done|by left].
Qed.

(** ** Authentication codes *)

(** A MAC message is accepted exactly when its tag is the code, under the
    algorithm of its protected header, of the attached payload or, when there
    is none, of the detached one; a message over nothing is never accepted. *)
Theorem VerifyCOSEMac0_spec mac0 key detached aad :
  VerifyCOSEMac0 mac0 key detached aad = Ok tt ↔
  ∃ headers alg payload toMAC,
    decode_headers (mac_Protected mac0) = Some headers ∧ header_algorithm headers = Ok alg ∧
    (mac_Payload mac0 = Some payload ∨ mac_Payload mac0 = None ∧ detached = Some payload) ∧
    to_be_signed "MAC0" (mac_Protected mac0) aad (Some payload) = Some toMAC ∧
    computeMAC toMAC key alg = Ok (raw (mac_Tag mac0)).
Proof.
  unfold VerifyCOSEMac0. split.
  - destruct (decode_headers _) as [headers|] eqn:Eh; [|done]. intros (alg & Ha & Hr)%bind_Ok.
    destruct (match mac_Payload mac0 with None => _ | Some _ => _ end) as [payload|] eqn:Ep; [|done].
    destruct (to_be_signed _ _ _ _) as [toMAC|] eqn:Et; [|done].
    apply bind_Ok in Hr as (tag & Ht & Hr). case_bool_decide as Htag; [|done].
    exists headers, alg, payload, toMAC. rewrite Htag. split_and!; try done.
    destruct (mac_Payload mac0); [left; done|right; done].
  - intros (headers & alg & payload & toMAC & Hh & Ha & Hp & Ht & Hm). rewrite Hh, Ha. cbn [mbind result_bind].
    assert (match mac_Payload mac0 with None => detached | Some _ => mac_Payload mac0 end = Some payload) as ->
      by (destruct Hp as [-> |[-> ->]]; done).
    rewrite Ht. cbn. rewrite Hm. cbn. by rewrite bool_decide_eq_true_2.
Qed.

(** A MAC message is accepted by the holder of the key, attached or with
    its payload detached, before and after its CBOR form; the message without
    its payload is refused when no detached payload is given. *)
Theorem mac0_verifies payload key alg aad aad' m b detached :
  in_int64 alg → raw aad = raw aad' →
  Mac0 (Some payload) key alg aad = Ok m → Mac0_MarshalCBOR m = Some b →
  let stripped := mkMac0 (mac_Protected m) (mac_Unprotected m) None (mac_Tag m) in
  VerifyCOSEMac0 m key detached aad' = Ok tt ∧
  (m' ← Mac0_UnmarshalCBOR b; VerifyCOSEMac0 m' key detached aad') = Ok tt ∧
  VerifyCOSEMac0 stripped key (Some payload) aad' = Ok tt ∧
  VerifyCOSEMac0 stripped key None aad' = Err ENoPayload.
Proof.
  intros Halg Haad Hm Hb stripped. unfold Mac0_UnmarshalCBOR. rewrite (cbor_roundtrip _ _ Hb).
  cbn [norm map]. rewrite bool_decide_eq_true_2 by done. cbn [negb]. rewrite !cbytes_norm. cbn [mbind result_bind].
  subst stripped. unfold Mac0 in Hm. destruct (cbor_marshal _) as [pb|] eqn:Epb; [|done].
  destruct (to_be_signed _ _ _ _) as [toMAC|] eqn:Et; [|done].
  apply bind_Ok in Hm as (tag & Ht & [= <-]).
  destruct (header_roundtrip alg pb Halg Epb) as (headers & Hh & Ha & _).
  rewrite (to_be_signed_aad _ _ aad aad') in Et by done.
  unfold VerifyCOSEMac0. cbn [mac_Protected mac_Payload mac_Tag]. rewrite Hh, Ha.
  cbn [mbind result_bind]. rewrite Et. cbn [mbind result_bind]. rewrite Ht. cbn.
  by rewrite bool_decide_eq_true_2.
Qed.
End messages.

(** * At concrete inputs *)

#[local] Existing Instances toy_cbor toy_cbor_laws toy_crypto.

#[local] Instance toy_verify : CoseVerify := {|
  ec_public _ := mkECDSA P384 3 5;
  ecdsa_verify _ _ r s := bool_decide (r = 258) && bool_decide (s = 7);
  ed25519_verify _ d s := bool_decide (d = s)
|}.

(** Signers: an ECDSA one on P-384 and an Ed25519 one. *)
#[local] Instance toy_signer : CoseSigner := {|
  signer := bool;
  signer_public b := if b then PubEC (mkECDSA P384 3 5) else PubEd25519 (replicate 32 9);
  sign_digest b d _ := Some (if b then [48; 6; 1; 2; 7] else d);
  asn1_signature _ := Some (258, 7);
  hmac _ k d := (k ++ d)%list
|}.
#[local] Instance toy_signer_laws : CoseSignerLaws.
Proof.
  split.
  - intros [] k d b; cbn; [|done]. intros [= <-] _ [= <-]. exists 258, 7. cbn. repeat split; lia.
  - intros [] k d b; cbn; [done|]. intros [= <-] [= <-]. split; [reflexivity|]. by apply bool_decide_eq_true_2.
Qed.

(** Both coordinates need leading zeros. *)
Lemma ecdsa_key_roundtrip_witness :
  match NewCOSEKeyFromECDSA (mkECDSA P256 258 7) with
  | Ok k => ToPublicKey k = Ok (PubEC (mkECDSA P256 258 7)) ∧ length (key_X k) = 32%nat
  | Err _ => False
  end.
Proof.
  destruct (ecdsa_key_roundtrip (mkECDSA P256 258 7)) as (H1 & H2 & _); [cbn; lia..|].
  split; [exact H1|exact H2].
Defined.

Definition w_chain : list (list Z) := [[1; 2]; [3]].
Definition w_parse (b : list Z) : option (list Z) := Some b.

Lemma sign1_verifies_witness :
  ∃ m, Sign1 (Some [4; 5]) (true : @signer _ _ toy_signer) AlgorithmES384 w_chain None = Ok m ∧
    Verify1 m None (PubEC (mkECDSA P384 3 5)) (Some []) = Ok tt.
Proof.
  destruct (Sign1 (Some [4; 5]) (true : @signer _ _ toy_signer) AlgorithmES384 w_chain None) as [m|] eqn:E;
    [|discriminate E].
  destruct (Sign1Detached (Some [4; 5]) (true : @signer _ _ toy_signer) AlgorithmES384 w_chain None)
    as [m'|] eqn:E'; [|unfold Sign1Detached in E'; rewrite E in E'; discriminate E'].
  exists m. split; [reflexivity|].
  exact (proj1 (sign1_verifies (Some [4; 5]) (true : @signer _ _ toy_signer) AlgorithmES384 w_chain None
                  (Some []) m m' _ eq_refl eq_refl E E' eq_refl)).
Defined.

Lemma chain_survives_wire_witness :
  ∃ m b, Sign1 (Some [4; 5]) (true : @signer _ _ toy_signer) AlgorithmES384 w_chain None = Ok m ∧
    MarshalCBOR m = Some b ∧
    (m' ← UnmarshalCBOR b; GetCertificateChainFromSign1 w_parse m') = Ok w_chain.
Proof.
  destruct (Sign1 (Some [4; 5]) (true : @signer _ _ toy_signer) AlgorithmES384 w_chain None) as [m|] eqn:E;
    [|discriminate E].
  eexists m, _. split; [reflexivity|]. split; [reflexivity|].
  refine (proj1 (proj2 (chain_survives_wire w_parse (Some [4; 5]) (true : @signer _ _ toy_signer) AlgorithmES384
                          w_chain None m _ (CText "33") _ E eq_refl _))).
  - unfold in_int64. vm_compute. split; [discriminate|reflexivity].
  - set_solver.
Defined.

(** An empty payload is a payload. *)
Lemma mac0_verifies_witness :
  ∃ m, Mac0 (Some []) [1; 2; 3] AlgorithmHMAC256 None = Ok m ∧
    VerifyCOSEMac0 m [1; 2; 3] (Some [9]) (Some []) = Ok tt.
Proof.
  destruct (Mac0 (Some []) [1; 2; 3] AlgorithmHMAC256 None) as [m|] eqn:E; [|discriminate E].
  exists m. split; [reflexivity|].
  refine (proj1 (mac0_verifies [] [1; 2; 3] AlgorithmHMAC256 None (Some []) m _ (Some [9]) _ eq_refl E eq_refl)).
  unfold in_int64. vm_compute. split; [discriminate|reflexivity].
Defined.
