(* ===== verification/MdocSchema.v ===== *)
(** * Schemas of mobile documents

    [pkg/mdoc/schema.go] and the conversion of [pkg/mdoc/issuer.go]: a schema
    declares, per namespace, the claims of a document type with their value
    type; [convertElementValue] turns decoded JSON into the value that is
    encoded.  The members of a schema that only concern display are left out.

    Go ranges over the maps in an order of its own: where a range can fail, the
    error is that of some failing member. *)

From Stdlib Require Import SpecFloat.
From S2P Require Import Prelude Bytes Utf8 GoStrings Base64 GoValue Json.

(** ** Padded base64 *)

(** [base64.StdEncoding.DecodeString]: line breaks are skipped, the last group
    is padded, its unused low bits are ignored. *)
Module StdEncoding.

Definition alphabet : list ascii :=
  String.list_ascii_of_string
    "ABCDEFGHIJKLMNOPQRSTUVWXYZabcdefghijklmnopqrstuvwxyz0123456789+/".
Definition pad : ascii := "="%char.
Definition dec6 (c : ascii) : option Z := RawURLEncoding.index_of c alphabet 0.

Fixpoint decode (l : list ascii) : option (list Z) :=
  match l with
  | [] => Some []
  | c0 :: c1 :: c2 :: c3 :: r =>
      v0 ← dec6 c0; v1 ← dec6 c1;
      if bool_decide (c2 = pad) then
        if bool_decide (c3 = pad ∧ r = []) then Some [RawURLEncoding.quad v0 v1 0 0 / 65536] else None
      else
        v2 ← dec6 c2;
        if bool_decide (c3 = pad) then
          if bool_decide (r = [])
          then Some [RawURLEncoding.quad v0 v1 v2 0 / 65536; RawURLEncoding.quad v0 v1 v2 0 / 256 mod 256]
          else None
        else
          v3 ← dec6 c3;
          t ← decode r;
          Some (RawURLEncoding.quad v0 v1 v2 v3 / 65536 :: RawURLEncoding.quad v0 v1 v2 v3 / 256 mod 256 ::
                RawURLEncoding.quad v0 v1 v2 v3 mod 256 :: t)
  | _ => None
  end.

Definition DecodeString (s : string) : option (list Z) :=
  decode (List.filter (fun c => negb (RawURLEncoding.is_newline c)) (String.list_ascii_of_string s)).

End StdEncoding.

(** ** Data *)

(** The values an issuer encodes: decoded JSON, and what it was converted to *)
Inductive element :=
| ERaw (v : json)
| EFullDate (s : string)
| ETDate (s : string)
| EBytes (b : list Z)
| EInt64 (z : Z)
| EUint64 (z : Z)
| EArr (l : list element)
| EMap (m : gmap string element).

Inductive ClaimMetadata := mkClaim {
  Mandatory : bool; ValueType : string; Elements : gmap string ClaimMetadata }.

Record MDDLSchema := mkSchema {
  s_Format : string;
  s_DocType : string;
  s_Claims : gmap string (gmap string ClaimMetadata);
  s_ZkSystems : list string;
  s_ZkSaltBytes : Z }.

Inductive schema_error :=
| SParse | SFormat | SNoDocType | SNoClaims | SSalt | SZkSystem (i : Z) | SDuplicate
| SMissing (key : string) | SType | SBase64 | SRange.

(** [uint64(f)] outside the range, which Go leaves to the implementation *)
Class ArchUint := { uint64_overflow : spec_float → Z }.

Definition float_uint64 `{ArchUint} (f : spec_float) : Z :=
  match float_trunc f with
  | Some z => if bool_decide (0 ≤ z < 2 ^ 64) then z else uint64_overflow f
  | None => uint64_overflow f
  end.

(** ** Maps of results *)

(** A range over a map that stops at an error *)
Definition sequence_results {E A} (m : gmap string (result E A)) : result E (gmap string A) :=
  map_fold (fun k r acc => a ← r; m ← acc; Ok (<[k := a]> m)) (Ok ∅) m.

Lemma sequence_results_Ok {E A} (m : gmap string (result E A)) m' :
  sequence_results m = Ok m' ↔ m = Ok <$> m'.
Proof.
  unfold sequence_results. revert m'.
  apply (map_fold_weak_ind (fun acc m => ∀ m', acc = Ok m' ↔ m = Ok <$> m')).
  - intros m'. split.
    + intros [= <-]. by rewrite fmap_empty.
    + intros E1. symmetry in E1. apply fmap_empty_inv in E1. by rewrite E1.
  - intros k r m0 acc Hk IH m'. destruct r as [a|e]; cbn.
    + destruct acc as [m1|e]; cbn.
      * pose proof (proj1 (IH m1) eq_refl) as ->. split.
        -- intros [= <-]. by rewrite fmap_insert.
        -- intros E1. f_equal. apply map_eq. intros k'. pose proof (f_equal (.!! k') E1) as E2.
           destruct (decide (k' = k)) as [->|Hne].
           ++ rewrite lookup_insert_eq, lookup_fmap in E2. rewrite lookup_insert_eq. destruct (m' !! k); naive_solver.
           ++ rewrite lookup_insert_ne, !lookup_fmap in E2 by done. rewrite lookup_insert_ne by done.
              destruct (m1 !! k'), (m' !! k'); naive_solver.
      * split; [done|]. intros E1. exfalso.
        assert (m0 = Ok <$> delete k m') as E2.
        { rewrite fmap_delete, <-E1. by rewrite delete_insert_id by done. }
        by apply IH in E2.
    + split; [done|]. intros E1. exfalso. pose proof (f_equal (.!! k) E1) as E2.
      rewrite lookup_insert_eq, lookup_fmap in E2. destruct (m' !! k); naive_solver.
Qed.

Lemma sequence_results_fmap {E A B} (f : A → result E B) (m : gmap string A) m' :
  sequence_results (f <$> m) = Ok m' ↔
  ∀ k, match m !! k with Some a => ∃ b, f a = Ok b ∧ m' !! k = Some b | None => m' !! k = None end.
Proof.
  rewrite sequence_results_Ok. split.
  - intros E1 k. pose proof (f_equal (.!! k) E1) as E2. rewrite !lookup_fmap in E2.
    destruct (m !! k), (m' !! k); naive_solver.
  - intros H. apply map_eq. intros k. specialize (H k). rewrite !lookup_fmap.
    destruct (m !! k) as [a|]; [|by rewrite H]. destruct H as (b & Hf & ->). cbn. by rewrite Hf.
Qed.

Fixpoint map_results {E A B} (f : A → result E B) (l : list A) : result E (list B) :=
  match l with
  | [] => Ok []
  | a :: l => b ← f a; bs ← map_results f l; Ok (b :: bs)
  end.

Lemma map_results_Ok {E A B} (f : A → result E B) l l' :
  map_results f l = Ok l' ↔ Forall2 (fun a b => f a = Ok b) l l'.
Proof.
  revert l'. induction l as [|a l IH]; intros l'; cbn.
  - split; [intros [= <-]; constructor|by inversion 1].
  - rewrite bind_Ok. split.
    + intros (b & Hb & (bs & Hbs & [= <-])%bind_Ok). constructor; [done|by apply IH].
    + inversion 1 as [|? b ? bs Hb Hbs]; subst. exists b. split; [done|]. apply bind_Ok.
      exists bs. split; [by apply IH|done].
Qed.

(** ** Conversion *)

Section convert.
Context `{Arch} `{ArchUint}.

(** A declared field: whether it is mandatory, and its conversion *)
Abbreviation field := (bool * (element → result schema_error element))%type.

Definition convert_field (m : jobject) (key : string) (f : field) : option (result schema_error element) :=
  match m !! key with
  | None | Some JNull => if f.1 then Some (Err (SMissing key)) else None
  | Some v => Some (f.2 (ERaw v))
  end.

Definition convertMapFields (elementsSchema : gmap string field) (m : jobject) :
    result schema_error (gmap string element) :=
  converted ← sequence_results (map_imap (convert_field m) elementsSchema);
  Ok (converted ∪ (ERaw <$> filter (fun kv => elementsSchema !! kv.1 = None) m)).

(** [math.MaxInt64] and [math.MaxUint64], compared with a [float64], are its
    nearest [2^63] and [2^64]. *)
Definition int_of_float (f : spec_float) : result schema_error element :=
  match float_value f with
  | Some z => if bool_decide (z < - 2 ^ 63) || bool_decide (2 ^ 63 < z) then Err SRange else Ok (EInt64 (float_int64 f))
  | None => Err SRange
  end.

Definition uint_of_float (f : spec_float) : result schema_error element :=
  match float_value f with
  | Some z => if bool_decide (z < 0) || bool_decide (2 ^ 64 < z) then Err SRange else Ok (EUint64 (float_uint64 f))
  | None => Err SRange
  end.

Fixpoint convertElementValue (meta : ClaimMetadata) (raw : element) : result schema_error element :=
  match meta with
  | mkClaim _ valueType elements =>
      let fields := (fun m => (Mandatory m, convertElementValue m)) <$> elements in
      if bool_decide (valueType = "array") then
        if bool_decide (elements = ∅) then Ok raw else
        match raw with
        | ERaw (JArr arr) =>
            EArr <$> map_results (fun item => match item with
                                              | JObj itemMap => EMap <$> convertMapFields fields itemMap
                                              | _ => Ok (ERaw item)
                                              end) arr
        | _ => Err SType
        end
      else if bool_decide (valueType = "map") then
        if bool_decide (elements = ∅) then Ok raw else
        match raw with ERaw (JObj m) => EMap <$> convertMapFields fields m | _ => Err SType end
      else if bool_decide (valueType = "full-date") then
        match raw with ERaw (JStr s) => Ok (EFullDate s) | _ => Err SType end
      else if bool_decide (valueType = "tdate") then
        match raw with ERaw (JStr s) => Ok (ETDate s) | _ => Err SType end
      else if bool_decide (valueType = "bstr") then
        match raw with
        | EBytes b => Ok (EBytes b)
        | ERaw (JStr s) =>
            match StdEncoding.DecodeString s with Some b => Ok (EBytes b) | None => Err SBase64 end
        | _ => Err SType
        end
      else if bool_decide (valueType = "int") then
        match raw with ERaw (JFloat f) => int_of_float f | _ => Err SType end
      else if bool_decide (valueType = "uint") then
        match raw with ERaw (JFloat f) => uint_of_float f | _ => Err SType end
      else Ok raw
  end.
End convert.

(** ** Loading *)

(** [zkcircuit.MinSaltBytes] and [MaxSaltBytes] *)
Definition MinSaltBytes : Z := 8.
Definition MaxSaltBytes : Z := 64.

Definition salt_ok (n : Z) : bool :=
  bool_decide (n = 0) || (bool_decide (MinSaltBytes ≤ n) && bool_decide (n ≤ MaxSaltBytes)).

(** The declared claims, namespace by namespace *)
Definition declared (claims : gmap string (gmap string ClaimMetadata)) : list (string * (string * ClaimMetadata)) :=
  ns ← map_to_list claims; (fun c => (ns.1, c)) <$> map_to_list ns.2.

Fixpoint seen_twice (seenIn : gmap string string) (l : list (string * (string * ClaimMetadata))) : bool :=
  match l with
  | [] => false
  | (namespace, (elementID, _)) :: l =>
      match seenIn !! elementID with
      | Some _ => true
      | None => seen_twice (<[elementID := namespace]> seenIn) l
      end
  end.

Fixpoint blank_system (i : Z) (l : list string) : option Z :=
  match l with
  | [] => None
  | system :: l => if bool_decide (trim_space (to_runes system) = []) then Some i else blank_system (i + 1) l
  end.

(** [LoadMDDLSchema] on the decoded document; [None] when it does not decode *)
Definition LoadMDDLSchema (decoded : option MDDLSchema) : result schema_error MDDLSchema :=
  match decoded with
  | None => Err SParse
  | Some schema =>
      if negb (bool_decide (s_Format schema = "mso_mdoc")) then Err SFormat else
      if str_empty (s_DocType schema) then Err SNoDocType else
      if bool_decide (s_Claims schema = ∅) then Err SNoClaims else
      if negb (salt_ok (s_ZkSaltBytes schema)) then Err SSalt else
      match blank_system 0 (s_ZkSystems schema) with
      | Some i => Err (SZkSystem i)
      | None => if seen_twice ∅ (declared (s_Claims schema)) then Err SDuplicate else Ok schema
      end
  end.

(** ** Numbers *)

Section numbers.
Context `{Arch} `{ArchUint}.

Lemma float_value_trunc f z : float_value f = Some z → float_trunc f = Some z.
Proof.
  destruct f as [s| | |s m e]; try done. cbn. case_bool_decide; [done|]. case_bool_decide as Hm; [|done].
  intros [= <-]. f_equal. apply Z.mod_divide in Hm as [q ->]; [|lia]. rewrite Z.quot_mul, Z.div_mul; lia.
Qed.

(** The whole number [f] is, from [lo] up to and including [hi]: [hi] itself is
    out of the range of the machine type and becomes whatever the conversion
    gives then. *)
Definition whole_number (lo hi : Z) (overflow : spec_float → Z) (f : spec_float) (n : Z) : Prop :=
  ∃ z, float_value f = Some z ∧ lo ≤ z ≤ hi ∧ n = if bool_decide (z = hi) then overflow f else z.

Lemma int_of_float_Ok f e :
  int_of_float f = Ok e ↔ ∃ n, e = EInt64 n ∧ whole_number (- 2 ^ 63) (2 ^ 63) int64_overflow f n.
Proof.
  unfold int_of_float, float_int64, whole_number.
  destruct (float_value f) as [z|] eqn:Ez; [|split; [done|naive_solver]]. rewrite (float_value_trunc f z Ez). split.
  - repeat case_bool_decide; cbn; intros [= <-]; (eexists; split; [done|]); exists z;
      (split; [done|split; [lia|]]); case_bool_decide; done || lia.
  - intros (n & -> & ? & [= <-] & Hz & ->). rewrite !(bool_decide_eq_false_2 (_ < _)) by lia. cbn [orb].
    do 2 f_equal. repeat case_bool_decide; (done || lia).
Qed.

Lemma uint_of_float_Ok f e :
  uint_of_float f = Ok e ↔ ∃ n, e = EUint64 n ∧ whole_number 0 (2 ^ 64) uint64_overflow f n.
Proof.
  unfold uint_of_float, float_uint64, whole_number.
  destruct (float_value f) as [z|] eqn:Ez; [|split; [done|naive_solver]]. rewrite (float_value_trunc f z Ez). split.
  - repeat case_bool_decide; cbn; intros [= <-]; (eexists; split; [done|]); exists z;
      (split; [done|split; [lia|]]); case_bool_decide; done || lia.
  - intros (n & -> & ? & [= <-] & Hz & ->). rewrite !(bool_decide_eq_false_2 (_ < _)) by lia. cbn [orb].
    do 2 f_equal. repeat case_bool_decide; (done || lia).
Qed.

(** A number is taken as an [int] exactly when it is a whole number from
    [-2^63] up to and including [2^63], and as a [uint] up to and including
    [2^64]; below the upper bound it is the number, at it whatever the machine
    makes of an overflow. *)
Theorem int_conversion f e :
  (int_of_float f = Ok e ↔ ∃ n, e = EInt64 n ∧ whole_number (- 2 ^ 63) (2 ^ 63) int64_overflow f n) ∧
  (uint_of_float f = Ok e ↔ ∃ n, e = EUint64 n ∧ whole_number 0 (2 ^ 64) uint64_overflow f n).
Proof. by rewrite int_of_float_Ok, uint_of_float_Ok. Qed.
End numbers.

(** ** What a claim is converted to

    The relation a schema declares between decoded JSON and the value that is
    encoded.  A declared field that is absent or null is left out when it is
    optional; fields the schema does not name stay as they are. *)

Fixpoint depth (meta : ClaimMetadata) : nat :=
  match meta with mkClaim _ _ els => S (list_max (map snd (map_to_list (depth <$> els)))) end.

Lemma depth_lookup mand vt els k meta : els !! k = Some meta → (depth meta < depth (mkClaim mand vt els))%nat.
Proof.
  intros Hk. cbn. apply Nat.lt_succ_r, list_max_elem, elem_of_map_snd. exists k. by rewrite lookup_fmap, Hk.
Qed.

Section typing.
Context `{Arch} `{ArchUint}.

Abbreviation declared_field := (bool * (element → element → Prop))%type.

Definition converted_fields (fields : gmap string declared_field) (m : jobject) (m' : gmap string element) : Prop :=
  ∀ k, match fields !! k, m !! k with
       | Some (mandatory, _), (None | Some JNull) => mandatory = false ∧ m' !! k = None
       | Some (_, P), Some v => ∃ e, m' !! k = Some e ∧ P (ERaw v) e
       | None, v => m' !! k = ERaw <$> v
       end.

Definition converted_item (fields : gmap string declared_field) (v : json) (e : element) : Prop :=
  match v with
  | JObj m => ∃ m', e = EMap m' ∧ converted_fields fields m m'
  | _ => e = ERaw v
  end.

Inductive converted_scalar : string → element → element → Prop :=
| conv_full_date s : converted_scalar "full-date" (ERaw (JStr s)) (EFullDate s)
| conv_tdate s : converted_scalar "tdate" (ERaw (JStr s)) (ETDate s)
| conv_bytes b : converted_scalar "bstr" (EBytes b) (EBytes b)
| conv_base64 s b :
    StdEncoding.DecodeString s = Some b → converted_scalar "bstr" (ERaw (JStr s)) (EBytes b)
| conv_int f n :
    whole_number (- 2 ^ 63) (2 ^ 63) int64_overflow f n → converted_scalar "int" (ERaw (JFloat f)) (EInt64 n)
| conv_uint f n :
    whole_number 0 (2 ^ 64) uint64_overflow f n → converted_scalar "uint" (ERaw (JFloat f)) (EUint64 n)
| conv_other valueType raw :
    valueType ∉ ["full-date"; "tdate"; "bstr"; "int"; "uint"] → converted_scalar valueType raw raw.

Fixpoint converted (meta : ClaimMetadata) (raw e : element) : Prop :=
  match meta with
  | mkClaim _ valueType elements =>
      let fields := (fun m => (Mandatory m, converted m)) <$> elements in
      if bool_decide (valueType = "array" ∧ elements ≠ ∅) then
        ∃ l l', raw = ERaw (JArr l) ∧ e = EArr l' ∧ Forall2 (converted_item fields) l l'
      else if bool_decide (valueType = "map" ∧ elements ≠ ∅) then
        ∃ m m', raw = ERaw (JObj m) ∧ e = EMap m' ∧ converted_fields fields m m'
      else converted_scalar valueType raw e
  end.

Lemma fmap_Ok {E A B} (f : A → B) (m : result E A) b : f <$> m = Ok b ↔ ∃ a, m = Ok a ∧ b = f a.
Proof. destruct m; naive_solver. Qed.

(** A converted object: every declared field, and the rest *)
Lemma convertMapFields_Ok fields m m' :
  convertMapFields fields m = Ok m' ↔
  ∀ k, match fields !! k with
       | Some f => match convert_field m k f with Some r => ∃ e, r = Ok e ∧ m' !! k = Some e | None => m' !! k = None end
       | None => m' !! k = ERaw <$> m !! k
       end.
Proof.
  unfold convertMapFields. rewrite bind_Ok. split.
  - intros (c & Hc & [= <-]) k. apply sequence_results_Ok in Hc.
    pose proof (f_equal (.!! k) Hc) as E1. rewrite map_lookup_imap, lookup_fmap in E1.
    destruct (fields !! k) as [f|] eqn:Ef; cbn in E1.
    + destruct (convert_field m k f) as [r|]; destruct (c !! k) as [e|] eqn:Ek; try discriminate E1.
      * cbn in E1. exists e. split; [congruence|]. by apply lookup_union_Some_l.
      * rewrite lookup_union_r by done. rewrite lookup_fmap, map_lookup_filter.
        destruct (m !! k); cbn; [|done]. rewrite option_guard_False; [done|]. cbn. congruence.
    + rewrite lookup_union_r by (by destruct (c !! k)). rewrite lookup_fmap, map_lookup_filter.
      destruct (m !! k); cbn; [|done]. by rewrite option_guard_True.
  - intros Hk. exists (filter (fun kv => is_Some (fields !! kv.1)) m'). split.
    + apply sequence_results_Ok, map_eq. intros k. specialize (Hk k).
      rewrite map_lookup_imap, lookup_fmap, map_lookup_filter. destruct (fields !! k) as [f|] eqn:Ef; cbn.
      * destruct (convert_field m k f) as [r|]; [|by rewrite Hk]. destruct Hk as (e & -> & ->). cbn.
        by rewrite option_guard_True by (cbn; eauto).
      * destruct (m' !! k); cbn; [|done]. rewrite option_guard_False; [done|]. cbn. rewrite Ef. by intros [].
    + f_equal. apply map_eq. intros k. specialize (Hk k). destruct (fields !! k) as [f|] eqn:Ef.
      * assert ((ERaw <$> filter (fun kv => fields !! kv.1 = None) m) !! k = None) as Hr.
        { rewrite lookup_fmap, map_lookup_filter. destruct (m !! k); cbn; [|done].
          rewrite option_guard_False; [done|]. cbn. congruence. }
        rewrite lookup_union_l by done. rewrite map_lookup_filter.
        destruct (m' !! k); cbn; [|done]. by rewrite option_guard_True by (cbn; eauto).
      * rewrite lookup_union_r.
        -- rewrite lookup_fmap, map_lookup_filter, Hk. destruct (m !! k); cbn; [|done]. by rewrite option_guard_True.
        -- rewrite map_lookup_filter. destruct (m' !! k); cbn; [|done]. rewrite option_guard_False; [done|].
           cbn. rewrite Ef. by intros [].
Qed.

Abbreviation exact meta := (∀ raw e, convertElementValue meta raw = Ok e ↔ converted meta raw e).

Lemma convertMapFields_converted elements m m' :
  (∀ k meta, elements !! k = Some meta → exact meta) →
  convertMapFields ((fun m => (Mandatory m, convertElementValue m)) <$> elements) m = Ok m' ↔
  converted_fields ((fun m => (Mandatory m, converted m)) <$> elements) m m'.
Proof.
  intros IH. rewrite convertMapFields_Ok. apply forall_proper. intros k. rewrite !lookup_fmap.
  destruct (elements !! k) as [meta|] eqn:Ek; cbn; [|done]. unfold convert_field. cbn.
  pose proof (IH k meta Ek) as Hm.
  destruct (m !! k) as [v|]; [destruct v|];
    try (destruct (Mandatory meta); [split; [by intros (? & [=] & _)|by intros []]|tauto]);
    setoid_rewrite Hm; naive_solver.
Qed.

Lemma convert_scalar (vt : string) raw e :
  (if bool_decide (vt = "full-date") then
     match raw with ERaw (JStr s) => Ok (EFullDate s) | _ => Err SType end
   else if bool_decide (vt = "tdate") then
     match raw with ERaw (JStr s) => Ok (ETDate s) | _ => Err SType end
   else if bool_decide (vt = "bstr") then
     match raw with
     | EBytes b => Ok (EBytes b)
     | ERaw (JStr s) =>
         match StdEncoding.DecodeString s with Some b => Ok (EBytes b) | None => Err SBase64 end
     | _ => Err SType
     end
   else if bool_decide (vt = "int") then
     match raw with ERaw (JFloat f) => int_of_float f | _ => Err SType end
   else if bool_decide (vt = "uint") then
     match raw with ERaw (JFloat f) => uint_of_float f | _ => Err SType end
   else Ok raw) = Ok e ↔ converted_scalar vt raw e.
Proof.
  split.
  - repeat case_bool_decide; subst; try (destruct raw as [[]| | | | | | |]; try done).
    all: try (intros [= <-]; constructor; set_solver).
    + destruct (StdEncoding.DecodeString _) eqn:E; [|done]. intros [= <-]. by constructor.
    + intros (n & -> & Hn)%int_of_float_Ok. by constructor.
    + intros (n & -> & Hn)%uint_of_float_Ok. by constructor.
  - destruct 1 as [s|s|b|s b Hb|f n Hn|f n Hn|vt raw Hv]; try done; cbn.
    + by rewrite Hb.
    + apply int_of_float_Ok. eauto.
    + apply uint_of_float_Ok. eauto.
    + rewrite !(bool_decide_eq_false_2 (vt = _)) by set_solver. done.
Qed.

Lemma convert_items elements l l' :
  (∀ k meta, elements !! k = Some meta → exact meta) →
  map_results (fun item => match item with
                           | JObj m => EMap <$> convertMapFields ((fun m => (Mandatory m, convertElementValue m)) <$> elements) m
                           | _ => Ok (ERaw item)
                           end) l = Ok l' ↔
  Forall2 (converted_item ((fun m => (Mandatory m, converted m)) <$> elements)) l l'.
Proof.
  intros IH. rewrite map_results_Ok. split; intros Hl; (eapply Forall2_impl; [exact Hl|]); intros v e; destruct v; cbn; try naive_solver;
    rewrite fmap_Ok; setoid_rewrite convertMapFields_converted; done || naive_solver.
Qed.

End typing.

(** ** Loaded schemas *)

Lemma seen_twice_false seenIn l :
  seen_twice seenIn l = false →
  NoDup (map (fun c => c.2.1) l) ∧ Forall (fun c => seenIn !! c.2.1 = None) l.
Proof.
  revert seenIn. induction l as [|[ns [id meta]] l IH]; intros seenIn; cbn; [repeat constructor|].
  destruct (seenIn !! id) eqn:Es; [done|]. intros [Hn Hf]%IH. split.
  - constructor; [|done]. intros ([n [i m]] & Hi & Hin)%list_elem_of_fmap. rewrite Forall_forall in Hf.
    apply Hf in Hin. cbn in *. subst. by rewrite lookup_insert_eq in Hin.
  - constructor; [done|]. eapply Forall_impl; [exact Hf|]. intros [n [i m]]. cbn.
    destruct (decide (i = id)) as [->|Hne]; [by rewrite lookup_insert_eq|by rewrite lookup_insert_ne by done].
Qed.

Lemma NoDup_map_inj {A B} (f : A → B) l x y : NoDup (map f l) → x ∈ l → y ∈ l → f x = f y → x = y.
Proof.
  induction l as [|a l IH]; cbn; [by intros _ ?%elem_of_nil|].
  rewrite NoDup_cons. intros [Ha Hl] [->|Hx]%elem_of_cons [->|Hy]%elem_of_cons E; try done; [| |by apply IH].
  - destruct Ha. rewrite E. by apply list_elem_of_fmap_2.
  - destruct Ha. rewrite <-E. by apply list_elem_of_fmap_2.
Qed.

Lemma elem_of_declared claims ns id meta :
  (ns, (id, meta)) ∈ declared claims ↔ ∃ c, claims !! ns = Some c ∧ c !! id = Some meta.
Proof.
  unfold declared. rewrite list_elem_of_bind. split.
  - intros ([n c] & ([i m] & [= -> -> ->] & Hc)%list_elem_of_fmap & Hn). apply elem_of_map_to_list in Hc, Hn. eauto.
  - intros (c & Hn & Hc). exists (ns, c). split; [|by apply elem_of_map_to_list].
    apply list_elem_of_fmap. exists (id, meta). split; [done|]. by apply elem_of_map_to_list.
Qed.

(** In a schema that was loaded an element identifier is declared in one
    namespace, and the size of the salts is one the issuer accepts. *)
Lemma LoadMDDLSchema_Ok decoded schema :
  LoadMDDLSchema decoded = Ok schema →
  decoded = Some schema ∧ s_DocType schema ≠ "" ∧ s_Claims schema ≠ ∅ ∧ salt_ok (s_ZkSaltBytes schema) = true ∧
  ∀ ns ns' c c' id, s_Claims schema !! ns = Some c → s_Claims schema !! ns' = Some c' →
    is_Some (c !! id) → is_Some (c' !! id) → ns = ns'.
Proof.
  unfold LoadMDDLSchema. destruct decoded as [s|]; [|done].
  destruct (bool_decide (s_Format s = _)); [|done]. destruct (str_empty _) eqn:Ed; [done|].
  destruct (bool_decide_reflect (s_Claims s = ∅)); [done|]. destruct (salt_ok _) eqn:Es; [|done].
  destruct (blank_system _ _); [done|]. destruct (seen_twice _ _) eqn:Et; [done|]. intros [= ->].
  apply str_empty_false in Ed. apply seen_twice_false in Et as [Hn _]. split_and!; try done.
  intros ns ns' c c' id Hc Hc' [m Hm] [m' Hm'].
  assert ((ns, (id, m)) = (ns', (id, m'))) as E; [|by injection E].
  apply (NoDup_map_inj (fun c => c.2.1) (declared (s_Claims schema))); [done|apply elem_of_declared; eauto..|done].
Qed.
