(* ===== verification/Mdoc.v ===== *)
(** * Mobile documents

    [pkg/mdoc]: the issuing of a mobile security object over salted items
    ([mso.go]'s [MSOBuilder], [issuer.go]), the holder's choice of items
    ([selective_disclosure.go]) and the verification of a document
    ([VerifyMSO] and [VerifyDigest] of [mso.go], [verifier.go]).

    The members of a namespace and the authentication arrays are CBOR values
    ([cval]); a document that crossed the wire holds them as the library decodes
    them ([norm]).  The library's encoding of the two structs is an interface.
    Certificates are the fields the code reads; the trust evaluator, the
    verifier's clock and the wall clock are arguments.  Go ranges over the maps
    of namespaces in an order of its own: what is computed for one namespace
    does not depend on the others, and the order in which errors are collected
    is that of [map_to_list]. *)

From stdpp Require Import pretty.
From S2P Require Import Prelude Bytes GoStrings Json MdocSchema TokenStatusList TokenStatusListCWT Cose.

(** ** Data *)

Definition TagEncodedCBOR : Z := 24.
Definition DigestAlgorithmSHA256 : string := "SHA-256".
Definition DigestAlgorithmSHA384 : string := "SHA-384".
Definition DigestAlgorithmSHA512 : string := "SHA-512".

(** [MSOIssuerSignedItem] with the issuer's value, [IssuerSignedItem] with the
    decoded one *)
Record IssuerSignedItem (V : Type) := mkItem {
  DigestID : Z; Random : list Z; ElementIdentifier : string; ElementValue : V }.
Arguments mkItem {V} _ _ _ _.
Arguments DigestID {V} _.
Arguments Random {V} _.
Arguments ElementIdentifier {V} _.
Arguments ElementValue {V} _.

Record ValidityInfo := mkValidity { Signed : Z; ValidFrom : Z; ValidUntil : Z }.

Record MobileSecurityObject := mkMSO {
  Version : string;
  mso_DigestAlgorithm : string;
  ValueDigests : gmap string (gmap Z (list Z));
  DeviceKey : COSEKey;
  DocType : string;
  mso_Validity : ValidityInfo }.

Record IssuerSignedMdoc := mkIssuerSigned { NameSpaces : gmap string (list cval); IssuerAuth : cval }.

Inductive mdoc_error :=
| MNoSigner | MNoDeviceKey | MNoValidity | MEncode | MDigestAlg (alg : string) | MCose (e : cose_error)
| MSalt | MRandom | MPanic | MSchema (e : schema_error) | MRequest
| MAuthArray | MAuthType | MAuthEmpty | MNoCertificates
| MCertNotYet | MCertExpired | MTrust | MUntrusted
| MDecode | MVersion | MStatus | MDocumentError (docType : string) (code : Z) | MDocType | MNotYetValid | MExpired
| MNotATag | MTagNumber | MContent | MItem | MNoNamespace | MNoDigest | MMismatch
| MTranscript | MNamespaces | MNoDeviceAuth | MMacUnsupported | MNoDeviceKeyInMSO | MDeviceSignature | MDeviceMac
| MToken | MDuplicate (docType : string).

(** The encoding of the two structs by the CBOR library.  [delivered v] is the
    value a verifier decodes for [v]; there is none for a date-time that is no
    date. *)
Class MdocCBOR := {
  dvalue : Type;
  delivered : element → option dvalue;
  value_bool : dvalue → option bool;
  marshal_item : IssuerSignedItem element → option (list Z);
  unmarshal_item : list Z → option (IssuerSignedItem dvalue);
  marshal_mso : MobileSecurityObject → option (list Z);
  unmarshal_mso : list Z → option MobileSecurityObject }.

(** A time in RFC 3339 text, and the times that read back: years 0 to 9999 *)
Definition rfc3339 (t : Z) : Z := t / second * second.
Definition writable (t : Z) : Prop := -62167219200 * second ≤ t < 253402300800 * second.

(** The key in the security object: an empty Y coordinate is not written. *)
Definition norm_key (k : COSEKey) : COSEKey :=
  mkCOSEKey (Kty k) (Alg k) (Crv k) (key_X k) (match raw (key_Y k) with [] => None | y => Some y end).

Definition item_with {V W} (i : IssuerSignedItem V) (v : W) : IssuerSignedItem W :=
  mkItem (DigestID i) (Random i) (ElementIdentifier i) v.

Class MdocCBORLaws `{MdocCBOR} : Prop := {
  item_roundtrip : ∀ i b, marshal_item i = Some b → unmarshal_item b = item_with i <$> delivered (ElementValue i);
  mso_roundtrip : ∀ m b, marshal_mso m = Some b →
    Forall (fun t => rfc3339 t = t ∧ writable t) [Signed (mso_Validity m); ValidFrom (mso_Validity m); ValidUntil (mso_Validity m)] →
    unmarshal_mso b =
      Some (mkMSO (Version m) (mso_DigestAlgorithm m) (ValueDigests m) (norm_key (DeviceKey m)) (DocType m) (mso_Validity m));
  delivered_bool : ∀ b, (v ← delivered (ERaw (JBool b)); value_bool v) = Some b }.

(** A document: what the issuer signed, and the device.  An absent signature
    is [CNull]. *)
Record DeviceSignedMdoc := mkDeviceSigned { d_NameSpaces : cval; DeviceSignature : cval; DeviceMac : list cval }.
Record DocumentMdoc := mkDocument {
  doc_DocType : string; IssuerSigned : IssuerSignedMdoc; DeviceSigned : DeviceSignedMdoc;
  doc_Errors : gmap string (gmap string Z) }.
Record DeviceResponseMdoc := mkResponse {
  r_Version : string; Documents : list DocumentMdoc; DocumentErrors : list (gmap string Z); Status : Z }.

(** The half of the issuer as a verifier decodes it *)
Definition transmitted (s : IssuerSignedMdoc) : IssuerSignedMdoc :=
  mkIssuerSigned (map norm <$> NameSpaces s) (norm (IssuerAuth s)).

(** ** Building the security object *)

Section issue.
Context `{CBOR} `{CoseSigner} `{MdocCBOR} `{Arch} `{ArchUint}.

(** A time is [None] when it is the zero time. *)
Record MSOBuilder := mkBuilder {
  b_docType : string;
  b_digestAlgorithm : string;
  b_validFrom : option Z;
  b_validUntil : option Z;
  b_deviceKey : option COSEKey;
  b_signer : option signer;
  b_certChain : list (list Z);
  b_namespaces : gmap string (list (IssuerSignedItem element));
  b_counter : gmap string Z;
  b_saltBytes : Z }.

Definition NewMSOBuilder (docType : string) : MSOBuilder :=
  mkBuilder docType DigestAlgorithmSHA256 None None None None [] ∅ ∅ 0.

(** The size of the salt that is drawn *)
Definition saltSize (b : MSOBuilder) (elementID : string) : Z :=
  if bool_decide (0 < b_saltBytes b) then b_saltBytes b
  else if bool_decide (elementID = "pseudonym_seed") then 8 else 16.

Definition AddDataElementWithRandom (b : MSOBuilder) (namespace elementID : string) (value : element)
    (random : list Z) : MSOBuilder :=
  let digestID := default 0 (b_counter b !! namespace) in
  mkBuilder (b_docType b) (b_digestAlgorithm b) (b_validFrom b) (b_validUntil b) (b_deviceKey b) (b_signer b) (b_certChain b)
    (<[namespace := (default [] (b_namespaces b !! namespace) ++ [mkItem digestID random elementID value])%list]> (b_namespaces b))
    (<[namespace := digestID + 1]> (b_counter b)) (b_saltBytes b).

(** [AddDataElement]; [rand n] are the [n] bytes that are drawn. *)
Definition AddDataElement (b : MSOBuilder) (namespace elementID : string) (value : element)
    (rand : Z → option (list Z)) : result mdoc_error MSOBuilder :=
  if negb (salt_ok (b_saltBytes b)) then Err MSalt else
  match rand (saltSize b elementID) with
  | None => Err MRandom
  | Some randomSalt => Ok (AddDataElementWithRandom b namespace elementID value randomSalt)
  end.

Definition computeDigest (alg : string) (data : list Z) : result mdoc_error (list Z) :=
  if bool_decide (alg = DigestAlgorithmSHA256) then Ok (digest SHA256 data)
  else if bool_decide (alg = DigestAlgorithmSHA384) then Ok (digest SHA384 data)
  else if bool_decide (alg = DigestAlgorithmSHA512) then Ok (digest SHA512 data)
  else Err (MDigestAlg alg).

Definition or_encode {A} (o : option A) : result mdoc_error A := match o with Some a => Ok a | None => Err MEncode end.

(** One item: its wrapper in tag 24, and the digest of the wrapper *)
Definition wrap_item (alg : string) (item : IssuerSignedItem element) : result mdoc_error (cval * list Z) :=
  inner ← or_encode (marshal_item item);
  let wrapper := CTag TagEncodedCBOR (CBytes inner) in
  encoded ← or_encode (cbor_marshal wrapper);
  d ← computeDigest alg encoded;
  Ok (wrapper, d).

(** The items of one namespace, with their digests by identifier *)
Definition wrap_items (alg : string) (items : list (IssuerSignedItem element)) :
    result mdoc_error (list cval * gmap Z (list Z)) :=
  ws ← map_results (wrap_item alg) items;
  Ok (map fst ws, list_to_map (reverse (zip (map DigestID items) (map snd ws)))).

(** [validFrom] and [validUntil] are checked together. *)
Definition Build (b : MSOBuilder) (now : Z) : result mdoc_error (COSESign1 * gmap string (list cval)) :=
  match b_signer b, b_deviceKey b, b_validFrom b, b_validUntil b with
  | None, _, _, _ => Err MNoSigner
  | _, None, _, _ => Err MNoDeviceKey
  | Some s, Some deviceKey, Some from, Some until =>
      nss ← sequence_results (wrap_items (b_digestAlgorithm b) <$> b_namespaces b);
      let mso := mkMSO "1.0" (b_digestAlgorithm b) (snd <$> nss) deviceKey (b_docType b)
                   (mkValidity (rfc3339 now) (rfc3339 from) (rfc3339 until)) in
      msoBytes ← or_encode (marshal_mso mso);
      payload ← or_encode (cbor_marshal (CTag TagEncodedCBOR (CBytes msoBytes)));
      algorithm ← map_err MCose (AlgorithmForKey (inl s));
      signedMSO ← map_err MCose (Sign1 (Some payload) s algorithm (b_certChain b) (Some []));
      Ok (signedMSO, fst <$> nss)
  | _, _, _, _ => Err MNoValidity
  end.

(** ** The issuer *)

Record Issuer := mkIssuer {
  signerKey : signer;
  certChain : list (list Z);
  defaultValidity : Z;
  digestAlgorithm : string;
  pseudonymSeed : bool }.

(** [FillBytes] into the width of the curve, after the check of the width *)
Definition NewCOSEKeyFromECDSAPublic (pub : ecdsa_pub) : result cose_error COSEKey :=
  crv ← match pub_Curve pub with
        | P256 => Ok CurveP256 | P384 => Ok CurveP384 | P521 => Ok CurveP521
        | OtherCurve => Err ECurve
        end;
  let byteLen := Z.to_nat ((curve_size (pub_Curve pub) + 7) / 8) in
  let x := big_bytes (Z.abs (pub_X pub)) in
  let y := big_bytes (Z.abs (pub_Y pub)) in
  if bool_decide (byteLen < length x)%nat || bool_decide (byteLen < length y)%nat then Err EKeySize else
  Ok (mkCOSEKey KeyTypeEC2 0 crv (pad_coordinate byteLen x) (Some (pad_coordinate byteLen y))).

Definition publicKeyToCOSEKey (pub : cose_pub) : result cose_error COSEKey :=
  match pub with
  | PubEC key => NewCOSEKeyFromECDSAPublic key
  | PubEd25519 key => Ok (NewCOSEKeyFromEd25519 key)
  | PubOther => Err EKeyType
  end.

(** [seed] are the bytes that are drawn.  The document is [None] when the JSON
    was null: a nil map, which cannot be written. *)
Definition injectPseudonymSeed (i : Issuer) (claims : gmap string (gmap string ClaimMetadata))
    (doc : option (gmap string element)) (seed : option (list Z)) : result mdoc_error (gmap string element) :=
  let plain := Ok (default ∅ doc) in
  if negb (pseudonymSeed i) then plain else
  match default ∅ doc !! "pseudonym_seed" with
  | Some _ => plain
  | None =>
      if bool_decide (map_Forall (fun _ elements => elements !! "pseudonym_seed" = None) claims) then plain else
      match seed, doc with
      | None, _ => Err MRandom
      | Some _, None => Err MPanic
      | Some seed, Some doc => Ok (<["pseudonym_seed" := EBytes seed]> doc)
      end
  end.

(** The claims come in the order in which Go ranges over the schema. *)
Fixpoint addElements (b : MSOBuilder) (claims : list (string * (string * ClaimMetadata)))
    (doc : gmap string element) (rand : string → string → Z → option (list Z)) : result mdoc_error MSOBuilder :=
  match claims with
  | [] => Ok b
  | (namespace, (elementID, meta)) :: claims =>
      match doc !! elementID with
      | None | Some (ERaw JNull) =>
          if Mandatory meta then Err (MSchema (SMissing elementID)) else addElements b claims doc rand
      | Some raw =>
          value ← map_err MSchema (convertElementValue meta raw);
          b ← AddDataElement b namespace elementID value (rand namespace elementID);
          addElements b claims doc rand
      end
  end.

Record IssuanceRequest := mkIssuance {
  DevicePublicKey : option cose_pub;
  (* the JSON text: absent, not an object, null or an object *)
  DocumentData : option (option (option jobject));
  Schema : option MDDLSchema;
  req_ValidFrom : option Z;
  req_ValidUntil : option Z }.

Definition issuer_signed (signedMSO : COSESign1) (nss : gmap string (list cval)) : IssuerSignedMdoc :=
  mkIssuerSigned nss
    (CArr [cbytes (Protected signedMSO); cmap (Unprotected signedMSO); cbytes (Payload signedMSO); cbytes (Signature signedMSO)]).

Definition configured (i : Issuer) (schema : MDDLSchema) (from until : Z) (key : COSEKey) : MSOBuilder :=
  mkBuilder (s_DocType schema) (digestAlgorithm i) (Some from) (Some until) (Some key) (Some (signerKey i)) (certChain i)
    ∅ ∅ (s_ZkSaltBytes schema).

(** What the wallet will replace by its own signature *)
Definition device_placeholder (pub : cose_pub) : result mdoc_error DeviceSignedMdoc :=
  emptyMapBytes ← or_encode (cbor_marshal (CMapAny []));
  deviceAlg ← map_err MCose (AlgorithmForKey (inr pub));
  deviceProtectedHeader ← or_encode (cbor_marshal (CMapInt [(HeaderAlgorithm, CInt64 deviceAlg)]));
  Ok (mkDeviceSigned (CTag TagEncodedCBOR (CBytes emptyMapBytes))
        (CArr [CBytes deviceProtectedHeader; CMapAny []; CNull; CBytes []]) []).

(** [order] lists the claims of the schema; [seed] and [rand] are random bytes,
    [now] is the time. *)
Definition issue_document (i : Issuer) (req : IssuanceRequest) (pub : cose_pub) (schema : MDDLSchema)
    (doc : option jobject) (order : list (string * (string * ClaimMetadata)))
    (seed : option (list Z)) (rand : string → string → Z → option (list Z)) (now : Z) :
    result mdoc_error DocumentMdoc :=
  doc ← injectPseudonymSeed i (s_Claims schema) ((fun m : jobject => ERaw <$> m) <$> doc) seed;
  deviceKey ← map_err MCose (publicKeyToCOSEKey pub);
  let validFrom := default now (req_ValidFrom req) in
  let validUntil := default (validFrom + defaultValidity i) (req_ValidUntil req) in
  b ← addElements (configured i schema validFrom validUntil deviceKey) order doc rand;
  built ← Build b now;
  deviceSigned ← device_placeholder pub;
  Ok (mkDocument (s_DocType schema) (issuer_signed built.1 built.2) deviceSigned ∅).

Definition Issue (i : Issuer) (req : IssuanceRequest) (order : list (string * (string * ClaimMetadata)))
    (seed : option (list Z)) (rand : string → string → Z → option (list Z)) (now : Z) :
    result mdoc_error DeviceResponseMdoc :=
  match DevicePublicKey req, Schema req, DocumentData req with
  | None, _, _ | _, None, _ | _, _, None => Err MRequest
  | _, _, Some None => Err MDecode
  | Some pub, Some schema, Some (Some doc) =>
      (fun document => mkResponse "1.0" [document] [] 0) <$> issue_document i req pub schema doc order seed rand now
  end.
End issue.

(** ** The holder *)

Section disclosure.
Context `{MdocCBOR}.

(** The item a member of a namespace holds.  Members are tags here; the code
    also takes the struct itself. *)
Definition peek_item (anyItem : cval) : option (IssuerSignedItem dvalue) :=
  match anyItem with CTag _ (CBytes content) => unmarshal_item content | _ => None end.

(** [iterateItems]: the callback has a state and says whether to go on; the
    result is whether it stopped. *)
Fixpoint iterateItems {S} (items : list cval) (fn : S → IssuerSignedItem dvalue → cval → S * bool) (s : S) : S * bool :=
  match items with
  | [] => (s, false)
  | anyItem :: items =>
      match peek_item anyItem with
      | None => iterateItems items fn s
      | Some item => let '(s', continue) := fn s item anyItem in
                     if continue then iterateItems items fn s' else (s', true)
      end
  end.

Definition disclosed_items (items : list cval) (requested : list string) : list cval :=
  (iterateItems items (fun acc item original =>
     (if bool_decide (ElementIdentifier item ∈ requested) then (acc ++ [original])%list else acc, true)) []).1.

Definition Disclose (issuerSigned : IssuerSignedMdoc) (request : option (gmap string (list string))) :
    result mdoc_error IssuerSignedMdoc :=
  match request with
  | None => Err MRequest
  | Some request =>
      Ok (mkIssuerSigned
            (map_imap (fun namespace requestedElements =>
               items ← NameSpaces issuerSigned !! namespace;
               match disclosed_items items requestedElements with [] => None | l => Some l end) request)
            (IssuerAuth issuerSigned))
  end.

(** [ItemsRequest.NameSpaces]: the requested elements, with the intent to retain *)
Abbreviation items_request := (gmap string (gmap string bool)).

Definition DiscloseFromItemsRequest (issuerSigned : IssuerSignedMdoc) (request : option items_request) :
    result mdoc_error IssuerSignedMdoc :=
  match request with
  | None => Err MRequest
  | Some request => Disclose issuerSigned (Some ((fun elems => (map_to_list elems).*1) <$> request))
  end.

Definition GetAvailableElements (issuerSigned : IssuerSignedMdoc) : gmap string (list string) :=
  omap (fun items =>
    match (iterateItems items (fun acc item _ => ((acc ++ [ElementIdentifier item])%list, true)) []).1 with
    | [] => None | l => Some l
    end) (NameSpaces issuerSigned).

Definition HasElement (issuerSigned : IssuerSignedMdoc) (namespace element : string) : bool :=
  match NameSpaces issuerSigned !! namespace with
  | None => false
  | Some items =>
      (iterateItems items (fun found item _ =>
         if bool_decide (ElementIdentifier item = element) then (true, false) else (found, true)) false).1
  end.
End disclosure.

(** ** The verifier *)

(** [url.URL]: [String()] writes the scheme, a colon and the rest. *)
Record url := mkURL { Scheme : string; url_rest : string }.
Definition url_String (u : url) : string :=
  if str_empty (Scheme u) then url_rest u else Scheme u +:+ ":" +:+ url_rest u.

Record certificate := mkCert {
  cert_PublicKey : cose_pub;
  NotBefore : Z;
  NotAfter : Z;
  URIs : list url;
  DNSNames : list string;
  Organization : list string;
  Country : list string;
  CommonName : string;
  issuer_CommonName : string }.

Record EvaluationRequest := mkEvaluation {
  SubjectID : string; KeyType : string; Key : list certificate; Role : string; ev_DocType : string }.

(** [Evaluate] answers whether the key is trusted, or fails. *)
Record Verifier := mkVerifier {
  Evaluate : EvaluationRequest → option bool;
  issuerURL : string;
  skipRevocationCheck : bool;
  clock : Z;
  cryptoExt : list Z → option certificate }.

(** The first URI with the scheme [https] or [http], as an https URL *)
Fixpoint uri_id (uris : list url) : option string :=
  match uris with
  | [] => None
  | u :: uris =>
      if bool_decide (Scheme u = "https") then Some (url_String u)
      else if bool_decide (Scheme u = "http") then Some (url_String (mkURL "https" (url_rest u)))
      else uri_id uris
  end.

(** The first DNS name that is no wildcard *)
Fixpoint dns_id (names : list string) : option string :=
  match names with
  | [] => None
  | dns :: names => if HasPrefix "*." dns then dns_id names else Some ("https://" +:+ dns)
  end.

Definition extractMDocIssuerID (cert : certificate) : string :=
  match uri_id (URIs cert), dns_id (DNSNames cert), Organization cert, Country cert with
  | Some s, _, _, _ => s
  | None, Some s, _, _ => s
  | None, None, s :: _, _ => s
  | None, None, [], s :: _ => s
  | None, None, [], [] => if str_empty (CommonName cert) then issuer_CommonName cert else CommonName cert
  end.

Section verify.
Context `{CBOR} `{CoseVerify} `{MdocCBOR}.

Record DocumentVerificationResult := mkDocResult {
  v_DocType : string;
  Valid : bool;
  MSO : option MobileSecurityObject;
  IssuerCertificate : option certificate;
  VerifiedElements : gmap string (gmap string dvalue);
  Errors : list mdoc_error }.

(** A value that was decoded; an absent payload is nil. *)
Definition parseIssuerAuthArray (arr : list cval) : result mdoc_error COSESign1 :=
  match arr with
  | [p; u; payload; sig] =>
      match p, payload, sig with
      | CBytes p, (CBytes _ | CNull), CBytes sig => Ok (mkSign1 (Some p) (as_map u) (as_bytes payload) (Some sig))
      | _, _, _ => Err MAuthType
      end
  | _ => Err MAuthArray
  end.

Definition parseIssuerAuth (data : cval) : result mdoc_error COSESign1 :=
  match data with
  | CBytes [] => Err MAuthEmpty
  | CBytes byteData => map_err MCose (UnmarshalCBOR byteData)
  | CArr arrayData => parseIssuerAuthArray arrayData
  | _ => Err MAuthType
  end.

Definition verifyCertificateChain (v : Verifier) (chain : list certificate) (docType : string) : result mdoc_error unit :=
  match chain with
  | [] => Err MNoCertificates
  | dsCert :: _ =>
      if bool_decide (clock v < NotBefore dsCert) then Err MCertNotYet else
      if bool_decide (NotAfter dsCert < clock v) then Err MCertExpired else
      let issuerID := if str_empty (issuerURL v) then extractMDocIssuerID dsCert else issuerURL v in
      match Evaluate v (mkEvaluation issuerID "x5c" chain "credential-issuer" docType) with
      | None => Err MTrust
      | Some false => Err MUntrusted
      | Some true => Ok tt
      end
  end.

Definition VerifyMSO (signedMSO : COSESign1) (issuerCert : certificate) : result mdoc_error MobileSecurityObject :=
  _ ← map_err MCose (Verify1 signedMSO (Payload signedMSO) (cert_PublicKey issuerCert) None);
  let payload :=
    match cbor_unmarshal (raw (Payload signedMSO)) with
    | Some (CTag n (CBytes content)) => if bool_decide (n = 24) then content else raw (Payload signedMSO)
    | _ => raw (Payload signedMSO)
    end in
  match unmarshal_mso payload with Some mso => Ok mso | None => Err MDecode end.

(** [now] is the wall clock, whatever the verifier's clock. *)
Definition ValidateMSOValidity (mso : MobileSecurityObject) (now : Z) : result mdoc_error unit :=
  if bool_decide (now < ValidFrom (mso_Validity mso)) then Err MNotYetValid else
  if bool_decide (ValidUntil (mso_Validity mso) < now) then Err MExpired else Ok tt.

Definition validateMSO (mso : MobileSecurityObject) (expectedDocType : string) (now : Z) : result mdoc_error unit :=
  if negb (bool_decide (Version mso = "1.0")) then Err MVersion else
  if negb (bool_decide (DocType mso = expectedDocType)) then Err MDocType else
  if negb (bool_decide (mso_DigestAlgorithm mso = "SHA-256")) && negb (bool_decide (mso_DigestAlgorithm mso = "SHA-512"))
  then Err (MDigestAlg (mso_DigestAlgorithm mso)) else
  ValidateMSOValidity mso now.

Definition VerifyDigest (mso : MobileSecurityObject) (namespace : string) (anyItem : cval) : result mdoc_error unit :=
  match anyItem with
  | CTag n content =>
      if negb (bool_decide (n = TagEncodedCBOR)) then Err MTagNumber else
      match content with
      | CBytes contentBytes =>
          match unmarshal_item contentBytes with
          | None => Err MItem
          | Some item =>
              match ValueDigests mso !! namespace with
              | None => Err MNoNamespace
              | Some nsDigests =>
                  match nsDigests !! DigestID item with
                  | None => Err MNoDigest
                  | Some expectedDigest =>
                      encodedFullItem ← or_encode (cbor_marshal anyItem);
                      actualDigest ← computeDigest (mso_DigestAlgorithm mso) encodedFullItem;
                      if bool_decide (actualDigest = expectedDigest) then Ok tt else Err MMismatch
                  end
              end
          end
      | _ => Err MContent
      end
  | _ => Err MNotATag
  end.

(** One member of a namespace: the item whose digest was verified *)
Definition verify_item (mso : MobileSecurityObject) (namespace : string) (anyItem : cval) :
    result mdoc_error (IssuerSignedItem dvalue) :=
  _ ← VerifyDigest mso namespace anyItem;
  match anyItem with
  | CTag _ (CBytes content) => match unmarshal_item content with Some item => Ok item | None => Err MItem end
  | CTag _ _ => Err MContent
  | _ => Err MNotATag
  end.

(** The members of a namespace in turn: the verified elements and the errors *)
Definition check_member (mso : MobileSecurityObject) (namespace : string) (acc : gmap string dvalue * list mdoc_error)
    (anyItem : cval) : gmap string dvalue * list mdoc_error :=
  match verify_item mso namespace anyItem with
  | Ok item => (<[ElementIdentifier item := ElementValue item]> acc.1, acc.2)
  | Err e => (acc.1, (acc.2 ++ [e])%list)
  end.

Definition verify_items (mso : MobileSecurityObject) (namespace : string) (items : list cval) :
    gmap string dvalue * list mdoc_error :=
  foldl (check_member mso namespace) (∅, []) items.

(** The checks before the items *)
Definition verify_auth (v : Verifier) (issuerAuth : cval) (docType trustDocType : string) (now : Z) :
    (option MobileSecurityObject * option certificate) * result mdoc_error MobileSecurityObject :=
  match parseIssuerAuth issuerAuth with
  | Err e => (None, None, Err e)
  | Ok sign1 =>
      match GetCertificateChainFromSign1 (cryptoExt v) sign1 with
      | Err e => (None, None, Err (MCose e))
      | Ok [] => (None, None, Err MNoCertificates)
      | Ok (dsCert :: rest) =>
          match verifyCertificateChain v (dsCert :: rest) trustDocType with
          | Err e => (None, Some dsCert, Err e)
          | Ok _ =>
              match VerifyMSO sign1 dsCert with
              | Err e => (None, Some dsCert, Err e)
              | Ok mso => (Some mso, Some dsCert, _ ← validateMSO mso docType now; Ok mso)
              end
          end
      end
  end.

Definition VerifyDocument (v : Verifier) (doc : DocumentMdoc) (now : Z) : DocumentVerificationResult :=
  match verify_auth v (IssuerAuth (IssuerSigned doc)) (doc_DocType doc) (doc_DocType doc) now with
  | (mso, cert, Err e) => mkDocResult (doc_DocType doc) false mso cert ∅ [e]
  | (_, cert, Ok mso) =>
      let checked := map_imap (fun namespace items => Some (verify_items mso namespace items)) (NameSpaces (IssuerSigned doc)) in
      let errors := concat (map (fun ns => ns.2.2) (map_to_list checked)) in
      mkDocResult (doc_DocType doc) (bool_decide (errors = [])) (Some mso) cert (fst <$> checked) errors
  end.

(** The members in turn, up to the first error *)
Definition add_verified (mso : MobileSecurityObject) (namespace : string) (acc : result mdoc_error (gmap string dvalue))
    (anyItem : cval) : result mdoc_error (gmap string dvalue) :=
  m ← acc; item ← verify_item mso namespace anyItem; Ok (<[ElementIdentifier item := ElementValue item]> m).

(** The trust evaluator is asked about no document type here. *)
Definition VerifyIssuerSigned (v : Verifier) (issuerSigned : IssuerSignedMdoc) (docType : string) (now : Z) :
    result mdoc_error (MobileSecurityObject * gmap string (gmap string dvalue)) :=
  mso ← (verify_auth v (IssuerAuth issuerSigned) docType "" now).2;
  verified ← sequence_results
    (map_imap (fun namespace items =>
       Some (foldl (add_verified mso namespace) (Ok ∅) items)) (NameSpaces issuerSigned));
  Ok (mso, verified).

Record VerificationResult := mkResult {
  res_Valid : bool; res_Documents : list DocumentVerificationResult; res_Errors : list mdoc_error }.

Definition VerifyDeviceResponse (v : Verifier) (response : DeviceResponseMdoc) (now : Z) : VerificationResult :=
  let docs := map (fun doc => VerifyDocument v doc now) (Documents response) in
  let header :=
    ((if bool_decide (r_Version response = "1.0") then [] else [MVersion]) ++
     (if bool_decide (Status response = 0) then [] else [MStatus]) ++
     concat (map (fun docErr => map (fun e => MDocumentError e.1 e.2) (map_to_list docErr)) (DocumentErrors response)))%list in
  mkResult
    (bool_decide (r_Version response = "1.0") && bool_decide (Status response = 0) &&
     bool_decide (DocumentErrors response = []) && forallb Valid docs)
    docs
    (header ++ concat (map (fun d => if Valid d then [] else Errors d) docs))%list.

(** [maps.Copy] of later documents over earlier ones *)
Definition ExtractElements (r : VerificationResult) : gmap string (gmap string dvalue) :=
  foldl (fun acc d => union_with (fun old new => Some (new ∪ old)) acc (VerifiedElements d)) ∅ (res_Documents r).

(** The first document that has the element *)
Fixpoint get_element (docs : list DocumentVerificationResult) (namespace elementID : string) : option dvalue :=
  match docs with
  | [] => None
  | doc :: docs =>
      match VerifiedElements doc !! namespace ≫= (.!! elementID) with
      | Some value => Some value
      | None => get_element docs namespace elementID
      end
  end.
Definition GetElement (r : VerificationResult) (namespace elementID : string) : option dvalue :=
  get_element (res_Documents r) namespace elementID.

Definition Namespace : string := "org.iso.18013.5.1".

(** Whether the holder is over the age; [None] when it is not attested *)
Definition VerifyAgeOver (r : VerificationResult) (age : Z) : option bool :=
  GetElement r Namespace ("age_over_" +:+ pretty age) ≫= value_bool.
End verify.
