(* ===== verification/MdocVerify.v ===== *)
(** * What a verifier accepts of a mobile document

    A document that was issued, of which the holder discloses some items and
    which crosses the wire, verifies, and shows exactly the requested elements
    that were issued; and whatever verifies was vouched for by a security object
    that a trusted certificate signed. *)

From S2P Require Import Prelude Bytes GoStrings Json MdocSchema TokenStatusList TokenStatusListCWT Cose Mdoc.

(** ** Digest identifiers *)

Section builder.
Context `{CBOR} `{CoseSigner} `{MdocCBOR}.

(** In every namespace the identifiers count the items. *)
Definition counted (b : MSOBuilder) : Prop :=
  ∀ ns, let items := default [] (b_namespaces b !! ns) in
    map DigestID items = seqZ 0 (Z.of_nat (length items)) ∧ default 0 (b_counter b !! ns) = Z.of_nat (length items).

Lemma counted_add b namespace elementID value random :
  counted b → counted (AddDataElementWithRandom b namespace elementID value random).
Proof.
  intros Hb ns. destruct (Hb namespace) as [Hi Hc]. unfold AddDataElementWithRandom. cbn [b_namespaces b_counter].
  set (items := default [] (b_namespaces b !! namespace)) in *. set (n := default 0 (b_counter b !! namespace)) in *.
  destruct (decide (ns = namespace)) as [->|Hne].
  - rewrite !lookup_insert_eq. cbn [default from_option]. unfold id.
    rewrite map_app, Hi, length_app, Nat2Z.inj_add, seqZ_app by lia. cbn [map DigestID length]. rewrite Hc.
    split; [by rewrite Z.add_0_l|lia].
  - rewrite !lookup_insert_ne by done. apply Hb.
Qed.

Lemma counted_NoDup b ns items : counted b → b_namespaces b !! ns = Some items → NoDup (map DigestID items).
Proof. intros Hb E. destruct (Hb ns) as [Hi _]. rewrite E in Hi. cbn in Hi. unfold id in Hi. rewrite Hi. apply NoDup_seqZ. Qed.

(** ** The items of a namespace *)

(** The member [c] holds the item, and its digest is listed. *)
Definition vouched (alg : string) (digests : gmap Z (list Z)) (item : IssuerSignedItem element) (c : cval) : Prop :=
  ∃ inner encoded d, marshal_item item = Some inner ∧ c = CTag TagEncodedCBOR (CBytes inner) ∧
    cbor_marshal c = Some encoded ∧ computeDigest alg encoded = Ok d ∧ digests !! DigestID item = Some d.

Lemma or_encode_Ok {A} (o : option A) a : or_encode o = Ok a ↔ o = Some a.
Proof. destruct o; cbn; naive_solver. Qed.

Lemma wrap_item_Ok alg item w :
  wrap_item alg item = Ok w →
  ∃ inner encoded, marshal_item item = Some inner ∧ w.1 = CTag TagEncodedCBOR (CBytes inner) ∧
    cbor_marshal w.1 = Some encoded ∧ computeDigest alg encoded = Ok w.2.
Proof.
  unfold wrap_item. intros (inner & Hi%or_encode_Ok & (encoded & He%or_encode_Ok & (d & Hd & [= <-])%bind_Ok)%bind_Ok)%bind_Ok.
  by exists inner, encoded.
Qed.

Lemma wrap_items_Ok alg items cs digests :
  wrap_items alg items = Ok (cs, digests) → NoDup (map DigestID items) → Forall2 (vouched alg digests) items cs.
Proof.
  unfold wrap_items. intros (ws & Hw & [= <- <-])%bind_Ok Hn. apply map_results_Ok in Hw.
  assert (length (map DigestID items) = length (map snd ws)) as Hl by (rewrite !length_map; by eapply Forall2_length).
  assert (∀ i item w, items !! i = Some item → ws !! i = Some w →
            (list_to_map (reverse (zip (map DigestID items) (map snd ws))) : gmap Z (list Z)) !! DigestID item = Some w.2) as Hd.
  { intros i item w Hi Hwi. apply elem_of_list_to_map_1.
    - rewrite fmap_reverse, fst_zip by lia. by rewrite (reverse_Permutation (map DigestID items)).
    - apply elem_of_reverse, list_elem_of_lookup. exists i. apply lookup_zip_Some.
      by rewrite !list_lookup_fmap, Hi, Hwi. }
  apply Forall2_fmap_r. eapply Forall2_same_length_lookup_2; [by eapply Forall2_length|].
  intros i item w Hi Hwi. pose proof (Forall2_lookup_lr _ _ _ _ _ _ Hw Hi Hwi) as (inner & encoded & ? & ? & ? & ?)%wrap_item_Ok.
  exists inner, encoded, w.2. split_and!; try done. by apply (Hd i).
Qed.
End builder.

(** ** Disclosed items verify *)

Section disclosed.
Context `{CBOR} `{CoseSigner} `{MdocCBORLaws}.
Implicit Types (requested : list string) (items : list (IssuerSignedItem element)).

(** The requested items, as they are read *)
Definition shown requested items : list (IssuerSignedItem dvalue) :=
  omap (fun item => if bool_decide (ElementIdentifier item ∈ requested)
                    then item_with item <$> delivered (ElementValue item) else None) items.

(** Elements by identifier; of two with the same, the later *)
Definition elements_of {V} (l : list (IssuerSignedItem V)) : gmap string V :=
  foldl (fun m item => <[ElementIdentifier item := ElementValue item]> m) ∅ l.

Definition wanted requested (c : cval) : bool :=
  match peek_item c with Some item => bool_decide (ElementIdentifier item ∈ requested) | None => false end.

Lemma disclosed_items_filter cs requested : disclosed_items cs requested = List.filter (wanted requested) cs.
Proof.
  unfold disclosed_items. set (fn := fun acc item original => _).
  assert (∀ acc, (iterateItems cs fn acc).1 = (acc ++ List.filter (wanted requested) cs)%list) as ->; [|done].
  induction cs as [|c cs IH]; intros acc; cbn [iterateItems List.filter]; [by rewrite app_nil_r|].
  unfold wanted at 1. destruct (peek_item c) as [item|]; [|apply IH]. unfold fn at 1. cbn iota beta. rewrite IH.
  case_bool_decide; [by rewrite <-app_assoc|done].
Qed.

Lemma vouched_peek alg digests item c :
  vouched alg digests item c → peek_item c = item_with item <$> delivered (ElementValue item).
Proof. intros (inner & _ & _ & Hi & -> & _). cbn. by apply item_roundtrip. Qed.

Lemma vouched_verifies mso ns digests item c v :
  ValueDigests mso !! ns = Some digests → vouched (mso_DigestAlgorithm mso) digests item c →
  delivered (ElementValue item) = Some v → verify_item mso ns c = Ok (item_with item v).
Proof.
  intros Hns (inner & encoded & d & Hi & -> & He & Hd & Hdig) Hv. unfold verify_item, VerifyDigest.
  rewrite bool_decide_eq_true_2 by done. cbn [negb]. rewrite (item_roundtrip _ _ Hi), Hv. cbn [fmap option_fmap option_map].
  rewrite Hns. cbn [item_with DigestID]. rewrite Hdig, He. cbn. rewrite Hd. cbn. by rewrite bool_decide_eq_true_2.
Qed.

(** The members the holder keeps verify, and are the requested items. *)
Lemma kept_verify mso ns digests requested items cs :
  ValueDigests mso !! ns = Some digests → Forall2 (vouched (mso_DigestAlgorithm mso) digests) items cs →
  verify_items mso ns (List.filter (wanted requested) cs) = (elements_of (shown requested items), []).
Proof.
  intros Hns Hf. unfold verify_items, elements_of. generalize (∅ : gmap string dvalue) as m.
  induction Hf as [|item c items cs Hc _ IH]; intros m; [done|]. cbn [List.filter shown omap list_omap].
  unfold wanted at 1. rewrite (vouched_peek _ _ _ _ Hc).
  destruct (delivered (ElementValue item)) as [v|] eqn:Ev; cbn.
  - case_bool_decide; [|apply IH]. cbn [foldl]. unfold check_member at 2. rewrite (vouched_verifies _ _ _ _ _ _ Hns Hc Ev). apply IH.
  - case_bool_decide; apply IH.
Qed.

Lemma kept_none requested alg digests items cs :
  Forall2 (vouched alg digests) items cs → List.filter (wanted requested) cs = [] ↔ shown requested items = [].
Proof.
  induction 1 as [|item c items cs Hc _ IH]; [done|]. cbn [List.filter shown omap list_omap].
  unfold wanted at 1. rewrite (vouched_peek _ _ _ _ Hc).
  destruct (delivered (ElementValue item)) as [v|]; cbn; case_bool_decide; done.
Qed.

(** They cross the wire as they are. *)
Lemma kept_norm requested alg digests items cs :
  Forall2 (vouched alg digests) items cs → map norm (List.filter (wanted requested) cs) = List.filter (wanted requested) cs.
Proof.
  induction 1 as [|item c items cs (? & ? & ? & _ & -> & _) _ IH]; [done|]. cbn [List.filter].
  destruct (wanted requested _); [|done]. cbn [map]. by rewrite IH.
Qed.
End disclosed.

(** ** The signed object verifies *)

Section issued.
Context `{CBORLaws} `{CoseSignerLaws} `{MdocCBORLaws}.

Lemma rfc3339_idem t : rfc3339 (rfc3339 t) = rfc3339 t.
Proof. unfold rfc3339. by rewrite Z.div_mul by done. Qed.

Lemma rfc3339_writable t : writable t → writable (rfc3339 t).
Proof.
  unfold writable, rfc3339, second. intros Ht.
  pose proof (Z.mul_div_le t 1000000000). pose proof (Z.div_le_lower_bound t 1000000000 (-62167219200)). lia.
Qed.

(** The times of a period, as they are written, read back. *)
Lemma validity_written signed from until :
  Forall writable [signed; from; until] →
  Forall (fun t => rfc3339 t = t ∧ writable t) [rfc3339 signed; rfc3339 from; rfc3339 until].
Proof.
  intros Hwr. apply Forall_cons in Hwr as [? Hwr]. apply Forall_cons in Hwr as [? Hwr]. apply Forall_cons in Hwr as [? _].
  repeat constructor; try apply rfc3339_idem; by apply rfc3339_writable.
Qed.

(** The verifier takes the chain of the signer for documents of the type. *)
Definition accepting (v : Verifier) (s : signer) (chain : list (list Z)) (docType : string) (cert : certificate) : Prop :=
  ∃ rest, parse_certificates (cryptoExt v) chain = Ok (cert :: rest) ∧ cert_PublicKey cert = signer_public s ∧
    verifyCertificateChain v (cert :: rest) docType = Ok tt.

(** The period, as it is written, includes the time [now]. *)
Definition in_force (signed from until now : Z) : Prop :=
  Forall writable [signed; from; until] ∧ rfc3339 from ≤ now ≤ rfc3339 until.

Definition digest_supported (alg : string) : Prop := alg = DigestAlgorithmSHA256 ∨ alg = DigestAlgorithmSHA512.

(** The security object a verifier decodes *)
Definition issued_mso (b : MSOBuilder) (key : COSEKey) (digests : gmap string (gmap Z (list Z))) (signed from until : Z) :
    MobileSecurityObject :=
  mkMSO "1.0" (b_digestAlgorithm b) digests (norm_key key) (b_docType b)
    (mkValidity (rfc3339 signed) (rfc3339 from) (rfc3339 until)).

Lemma Build_Ok b now signedMSO nss :
  Build b now = Ok (signedMSO, nss) →
  ∃ s key from until ws msoBytes payload alg,
    (b_signer b, b_deviceKey b, b_validFrom b, b_validUntil b) = (Some s, Some key, Some from, Some until) ∧
    sequence_results (wrap_items (b_digestAlgorithm b) <$> b_namespaces b) = Ok ws ∧ nss = fst <$> ws ∧
    marshal_mso (mkMSO "1.0" (b_digestAlgorithm b) (snd <$> ws) key (b_docType b)
                   (mkValidity (rfc3339 now) (rfc3339 from) (rfc3339 until))) = Some msoBytes ∧
    cbor_marshal (CTag TagEncodedCBOR (CBytes msoBytes)) = Some payload ∧
    AlgorithmForKey (inl s) = Ok alg ∧ Sign1 (Some payload) s alg (b_certChain b) (Some []) = Ok signedMSO.
Proof.
  unfold Build. destruct (b_signer b) as [s|]; [|done]. destruct (b_deviceKey b) as [key|]; [|done].
  destruct (b_validFrom b) as [from|]; [|done]. destruct (b_validUntil b) as [until|]; [|done].
  intros (ws & Hw & (mb & Hm%or_encode_Ok & (p & Hp%or_encode_Ok & (alg & Ha & (m & Hs & [= <- <-])%bind_Ok)%bind_Ok)%bind_Ok)%bind_Ok)%bind_Ok.
  apply map_err_Ok in Ha, Hs. by exists s, key, from, until, ws, mb, p, alg.
Qed.

Lemma validateMSO_issued b key digests signed from until now :
  digest_supported (b_digestAlgorithm b) → in_force signed from until now →
  validateMSO (issued_mso b key digests signed from until) (b_docType b) now = Ok tt.
Proof.
  intros Hd [_ [Hf Hu]]. unfold validateMSO, ValidateMSOValidity. cbn.
  rewrite !(bool_decide_eq_false_2 (_ < _)) by lia. rewrite !(bool_decide_eq_true_2 (_ = _) ) by done. cbn.
  by destruct Hd as [-> | ->].
Qed.

(** From the authentication data of an issued document the object that was
    signed is read. *)
Lemma issued_auth_object b signed signedMSO nss s key from until v cert trustDoc now :
  Build b signed = Ok (signedMSO, nss) →
  (b_signer b, b_deviceKey b, b_validFrom b, b_validUntil b) = (Some s, Some key, Some from, Some until) →
  accepting v s (b_certChain b) trustDoc cert → Forall writable [signed; from; until] →
  ∃ ws, sequence_results (wrap_items (b_digestAlgorithm b) <$> b_namespaces b) = Ok ws ∧ nss = fst <$> ws ∧
    let mso := issued_mso b key (snd <$> ws) signed from until in
    verify_auth v (norm (IssuerAuth (issuer_signed signedMSO nss))) (b_docType b) trustDoc now =
      (Some mso, Some cert, _ ← validateMSO mso (b_docType b) now; Ok mso).
Proof.
  intros Hb Hf (rest & Hparse & Hpub & Htrust) Hwr.
  destruct (Build_Ok _ _ _ _ Hb) as (s' & key' & from' & until' & ws & mb & payload & alg & Hf' & Hw & -> & Hm & Hp & Ha & Hs).
  rewrite Hf in Hf'. injection Hf' as <- <- <- <-. exists ws. split; [done|]. split; [done|]. intros mso.
  pose proof (Sign1_parts _ _ _ _ _ _ Hs) as (pb & tbs & sig & _ & _ & _ & Em).
  unfold verify_auth. subst signedMSO.
  cbn [issuer_signed IssuerAuth norm map parseIssuerAuth parseIssuerAuthArray cbytes Protected Payload Signature Unprotected as_bytes].
  rewrite chain_header_norm. set (m := mkSign1 _ _ _ _) in Hs.
  pose proof (chain_decoded (cryptoExt v) _ _ _ _ _ m
    (match b_certChain b with [] => [] | _ => [(CUint64 HeaderX5Chain, CArr (map CBytes (b_certChain b)))] end)
    (AlgorithmForKey_range _ _ Ha) Hs) as Hc.
  cbn [m Protected Payload Signature] in Hc. rewrite Hc; clear Hc.
  2: { by intros ->. }
  2: { intros Hne. exists (CUint64 HeaderX5Chain). split; [set_solver|]. left. by destruct (b_certChain b). }
  destruct (b_certChain b) as [|c chain] eqn:Ec; [done|]. rewrite Hparse, Htrust. unfold VerifyMSO.
  rewrite Hpub, (signed_verifies (Some payload) s alg _ (Some []) None m _ _ Ha eq_refl Hs) by done. cbn [map_err mbind result_bind].
  cbn [Payload raw from_option]. unfold id. rewrite (cbor_roundtrip _ _ Hp). cbn [norm].
  rewrite bool_decide_eq_true_2 by done. rewrite (mso_roundtrip _ _ Hm); [done|by apply validity_written].
Qed.

(** It passes when the digest algorithm is supported and the period includes
    the time. *)
Lemma issued_auth_verifies b signed signedMSO nss s key from until v cert trustDoc now :
  Build b signed = Ok (signedMSO, nss) →
  (b_signer b, b_deviceKey b, b_validFrom b, b_validUntil b) = (Some s, Some key, Some from, Some until) →
  accepting v s (b_certChain b) trustDoc cert → digest_supported (b_digestAlgorithm b) → in_force signed from until now →
  ∃ ws, sequence_results (wrap_items (b_digestAlgorithm b) <$> b_namespaces b) = Ok ws ∧ nss = fst <$> ws ∧
    let mso := issued_mso b key (snd <$> ws) signed from until in
    verify_auth v (norm (IssuerAuth (issuer_signed signedMSO nss))) (b_docType b) trustDoc now = (Some mso, Some cert, Ok mso).
Proof.
  intros Hb Hf Hacc Hd Hin. destruct (issued_auth_object _ _ _ _ _ _ _ _ _ _ _ now Hb Hf Hacc (proj1 Hin)) as (ws & Hw & Hn & Hv).
  exists ws. split; [done|]. split; [done|]. cbn zeta in *. rewrite Hv. by rewrite validateMSO_issued.
Qed.

(** A document issued with SHA-384 digests, which the issuer supports, is
    refused by the verifier whatever it discloses. *)
Theorem sha384_refused b signed signedMSO nss s key from until v cert now nss' dev errs :
  b_digestAlgorithm b = DigestAlgorithmSHA384 → Build b signed = Ok (signedMSO, nss) →
  (b_signer b, b_deviceKey b, b_validFrom b, b_validUntil b) = (Some s, Some key, Some from, Some until) →
  accepting v s (b_certChain b) (b_docType b) cert → Forall writable [signed; from; until] →
  let r := VerifyDocument v (mkDocument (b_docType b) (transmitted (mkIssuerSigned nss' (IssuerAuth (issuer_signed signedMSO nss)))) dev errs) now in
  Valid r = false ∧ Errors r = [MDigestAlg DigestAlgorithmSHA384].
Proof.
  intros Halg Hb Hf Hacc Hwr. destruct (issued_auth_object _ _ _ _ _ _ _ _ _ _ _ now Hb Hf Hacc Hwr) as (ws & _ & _ & Hv).
  unfold VerifyDocument. cbn zeta in Hv |- *. cbn [doc_DocType IssuerSigned transmitted IssuerAuth issuer_signed] in Hv |- *. rewrite Hv.
  unfold validateMSO, issued_mso. cbn [Version DocType mso_DigestAlgorithm]. rewrite Halg.
  rewrite !(bool_decide_eq_true_2 (_ = _)) by done. by cbn.
Qed.

(** What the request shows of the items in the builder *)
Definition requested_elements (b : MSOBuilder) (request : gmap string (list string)) : gmap string (gmap string dvalue) :=
  map_imap (fun ns requested =>
    items ← b_namespaces b !! ns;
    match shown requested items with [] => None | l => Some (elements_of l) end) request.

Lemma wrapped_vouched b ws ns items :
  counted b → sequence_results (wrap_items (b_digestAlgorithm b) <$> b_namespaces b) = Ok ws →
  b_namespaces b !! ns = Some items →
  ∃ cs digests, ws !! ns = Some (cs, digests) ∧ Forall2 (vouched (b_digestAlgorithm b) digests) items cs.
Proof.
  intros Hc Hw Hi. apply sequence_results_fmap with (k := ns) in Hw. rewrite Hi in Hw.
  destruct Hw as ([cs digests] & Hw & E). exists cs, digests. split; [done|].
  apply wrap_items_Ok; [done|]. by eapply counted_NoDup.
Qed.

Lemma wrapped_None b ws ns :
  sequence_results (wrap_items (b_digestAlgorithm b) <$> b_namespaces b) = Ok ws → b_namespaces b !! ns = None → ws !! ns = None.
Proof. intros Hw Hi. apply sequence_results_fmap with (k := ns) in Hw. by rewrite Hi in Hw. Qed.

(** A member of a namespace of an issued document wraps an item. *)
Lemma built_member b now m nss ns cs c :
  counted b → Build b now = Ok (m, nss) → nss !! ns = Some cs → c ∈ cs →
  ∃ items item inner, b_namespaces b !! ns = Some items ∧ item ∈ items ∧ marshal_item item = Some inner ∧
    c = CTag TagEncodedCBOR (CBytes inner).
Proof.
  intros Hc Hb Hns Hin. destruct (Build_Ok _ _ _ _ Hb) as (s & key & from & until & ws & mb & payload & alg & _ & Hw & -> & _).
  rewrite lookup_fmap in Hns. destruct (b_namespaces b !! ns) as [items|] eqn:Ei.
  - destruct (wrapped_vouched b ws ns items Hc Hw Ei) as (cs' & digests & Ews & Hv).
    rewrite Ews in Hns. injection Hns as <-. apply list_elem_of_lookup in Hin as [i Hi].
    destruct (Forall2_lookup_r _ _ _ _ _ Hv Hi) as (item & Hit & inner & ? & ? & Hm & -> & _).
    apply list_elem_of_lookup_2 in Hit. by exists items, item, inner.
  - by rewrite (wrapped_None b ws ns Hw Ei) in Hns.
Qed.

Lemma no_errors {A B} (m : gmap string A) :
  concat (map (fun ns => ns.2.2) (map_to_list ((fun x => (x, [] : list B)) <$> m))) = [].
Proof.
  apply concat_nil_Forall, Forall_forall. intros l ([k [x e]] & -> & Hin)%list_elem_of_fmap.
  apply elem_of_map_to_list in Hin. rewrite lookup_fmap in Hin. destruct (m !! k); naive_solver.
Qed.

(** What a holder discloses of an issued document verifies, and shows the
    requested elements. *)
Lemma disclosed_verifies b signed signedMSO nss s key from until v cert now request d dev errs :
  counted b → Build b signed = Ok (signedMSO, nss) →
  (b_signer b, b_deviceKey b, b_validFrom b, b_validUntil b) = (Some s, Some key, Some from, Some until) →
  accepting v s (b_certChain b) (b_docType b) cert → digest_supported (b_digestAlgorithm b) → in_force signed from until now →
  Disclose (issuer_signed signedMSO nss) (Some request) = Ok d →
  ∃ digests, VerifyDocument v (mkDocument (b_docType b) (transmitted d) dev errs) now =
    mkDocResult (b_docType b) true (Some (issued_mso b key digests signed from until)) (Some cert)
      (requested_elements b request) [].
Proof.
  intros Hc Hb Hf Hacc Hd Hin [= <-].
  destruct (issued_auth_verifies _ _ _ _ _ _ _ _ _ _ _ _ Hb Hf Hacc Hd Hin) as (ws & Hw & -> & Hv).
  exists (snd <$> ws). unfold VerifyDocument. cbn [doc_DocType IssuerSigned transmitted IssuerAuth NameSpaces]. cbn zeta in Hv.
  cbn [issuer_signed IssuerAuth] in Hv |- *. rewrite Hv. set (mso := issued_mso _ _ _ _ _ _). set (checked := map_imap _ _).
  assert (checked = (fun x => (x, [])) <$> requested_elements b request) as ->.
  { subst checked. unfold requested_elements. apply map_eq. intros ns.
    rewrite !map_lookup_imap, !lookup_fmap, !map_lookup_imap. destruct (request !! ns) as [requested|]; [|done]. cbn.
    rewrite lookup_fmap. destruct (b_namespaces b !! ns) as [items|] eqn:Ei; cbn.
    - destruct (wrapped_vouched b ws ns items Hc Hw Ei) as (cs & digests & Ews & Hvch). rewrite Ews. cbn.
      rewrite disclosed_items_filter. pose proof (kept_none requested _ _ _ _ Hvch) as Hnone.
      pose proof (kept_verify mso ns digests requested items cs) as Hk. cbn [mso issued_mso ValueDigests mso_DigestAlgorithm] in Hk.
      rewrite lookup_fmap, Ews in Hk. specialize (Hk eq_refl Hvch).
      destruct (List.filter (wanted requested) cs) as [|c l] eqn:Ef.
      + by rewrite (proj1 Hnone eq_refl).
      + destruct (shown requested items) as [|i l'] eqn:Es; [by destruct (proj2 Hnone eq_refl)|]. cbn [fmap option_fmap option_map mbind option_bind].
        rewrite <-Ef, (kept_norm requested _ _ _ _ Hvch), Ef. by rewrite Hk.
    - by rewrite (wrapped_None b ws ns Hw Ei). }
  rewrite no_errors, bool_decide_eq_true_2 by done. f_equal. by rewrite <-map_fmap_compose, map_fmap_id.
Qed.
End issued.

(** ** From the schema to the verifier *)

Section schema.
Context `{CBORLaws} `{CoseSignerLaws} `{MdocCBORLaws} `{Arch} `{ArchUint}.

(** The value a document gives to a claim *)
Definition issued_value (doc : gmap string element) (elementID : string) (meta : ClaimMetadata) : option element :=
  match doc !! elementID with
  | None | Some (ERaw JNull) => None
  | Some raw => match convertElementValue meta raw with Ok e => Some e | Err _ => None end
  end.

(** The builder holds an item for the element, with the value. *)
Definition holds (b : MSOBuilder) (ns elementID : string) (e : element) : Prop :=
  ∃ item, item ∈ default [] (b_namespaces b !! ns) ∧ ElementIdentifier item = elementID ∧ ElementValue item = e.

Lemma holds_add b namespace elementID value random ns el e :
  holds (AddDataElementWithRandom b namespace elementID value random) ns el e ↔
  holds b ns el e ∨ (ns = namespace ∧ el = elementID ∧ e = value).
Proof.
  unfold holds, AddDataElementWithRandom. cbn [b_namespaces].
  set (items := default [] (b_namespaces b !! namespace)). set (new := mkItem _ _ _ _).
  destruct (decide (ns = namespace)) as [->|Hne].
  - rewrite lookup_insert_eq. cbn [default from_option]. unfold id. fold items. setoid_rewrite elem_of_app. split.
    + intros (item & [Hin|Hin%list_elem_of_singleton] & ? & ?); [left; eauto|]. subst item. right. naive_solver.
    + intros [(item & ? & ? & ?)|(_ & -> & ->)]; [eauto|]. exists new. split; [right; by apply list_elem_of_singleton|done].
  - rewrite lookup_insert_ne by done. naive_solver.
Qed.

Definition same_setup (b b' : MSOBuilder) : Prop :=
  (b_docType b', b_digestAlgorithm b', b_validFrom b', b_validUntil b', b_deviceKey b', b_signer b', b_certChain b') =
  (b_docType b, b_digestAlgorithm b, b_validFrom b, b_validUntil b, b_deviceKey b, b_signer b, b_certChain b).

Lemma AddDataElement_Ok b namespace elementID value rand b' :
  AddDataElement b namespace elementID value rand = Ok b' →
  ∃ salt, rand (saltSize b elementID) = Some salt ∧ b' = AddDataElementWithRandom b namespace elementID value salt.
Proof. unfold AddDataElement. destruct (negb _); [done|]. destruct (rand _) as [salt|]; [|done]. intros [= <-]. eauto. Qed.

(** The elements that were added are those of the document that the schema
    declares. *)
Lemma addElements_Ok b claims doc rand b' :
  addElements b claims doc rand = Ok b' → counted b →
  counted b' ∧ same_setup b b' ∧
  ∀ ns id e, holds b' ns id e ↔ holds b ns id e ∨ ∃ meta, (ns, (id, meta)) ∈ claims ∧ issued_value doc id meta = Some e.
Proof.
  revert b. induction claims as [|[n [i meta]] claims IH]; intros b; cbn [addElements].
  - intros [= <-] Hc. split_and!; [done..|]. intros. split; [eauto|]. intros [?|(? & []%elem_of_nil & _)]. done.
  - assert (issued_value doc i meta = None → ∀ b1, addElements b1 claims doc rand = Ok b' → counted b1 → same_setup b b1 →
              (∀ ns id e, holds b1 ns id e ↔ holds b ns id e) →
              counted b' ∧ same_setup b b' ∧ ∀ ns id e, holds b' ns id e ↔ holds b ns id e ∨
                ∃ meta', (ns, (id, meta')) ∈ (n, (i, meta)) :: claims ∧ issued_value doc id meta' = Some e) as Hskip.
    { intros Hnone b1 Ha1 Hc1 Hs1 Hh1. destruct (IH _ Ha1 Hc1) as (Hc' & Hs' & Hh'). split_and!; [done|congruence|].
      intros ns id e. rewrite Hh', Hh1. setoid_rewrite elem_of_cons. naive_solver. }
    unfold issued_value at 1 in Hskip. destruct (doc !! i) as [raw|] eqn:Ed.
    + intros Hadd Hc. destruct (convertElementValue meta raw) as [value|err] eqn:Ev.
      * assert (raw = ERaw JNull ∧ (if Mandatory meta then Err (MSchema (SMissing i)) else addElements b claims doc rand) = Ok b' ∨
                raw ≠ ERaw JNull ∧ (b1 ← AddDataElement b n i value (rand n i); addElements b1 claims doc rand) = Ok b') as [[-> Hn]|[Hr Hn]].
        { destruct raw as [[]| | | | | | |]; cbn in Hadd; (left; by split) || (right; by split). }
        -- destruct (Mandatory meta); [done|]. by apply (Hskip eq_refl b).
        -- apply bind_Ok in Hn as (b1 & (salt & _ & ->)%AddDataElement_Ok & Hn).
           destruct (IH _ Hn (counted_add _ _ _ _ _ Hc)) as (Hc' & Hs' & Hh'). split_and!; [done|done|].
           intros ns id e. rewrite Hh', holds_add. setoid_rewrite elem_of_cons.
           assert (issued_value doc i meta = Some value) as Hval.
           { unfold issued_value. rewrite Ed, Ev. by destruct raw as [[]| | | | | | |]. }
           naive_solver.
      * destruct raw as [[]| | | | | | |]; try discriminate Hadd. destruct (Mandatory meta); [done|]. by apply (Hskip eq_refl b).
    + intros Hadd Hc. destruct (Mandatory meta); [done|]. by apply (Hskip eq_refl b).
Qed.

Lemma elements_of_lookup {V} (l : list (IssuerSignedItem V)) el v :
  (∀ i j, i ∈ l → j ∈ l → ElementIdentifier i = ElementIdentifier j → ElementValue i = ElementValue j) →
  elements_of l !! el = Some v ↔ ∃ i, i ∈ l ∧ ElementIdentifier i = el ∧ ElementValue i = v.
Proof.
  unfold elements_of. induction l as [|x l IH] using rev_ind; intros Hc.
  - cbn. rewrite lookup_empty. split; [done|]. intros (? & []%elem_of_nil & _).
  - rewrite foldl_snoc. setoid_rewrite elem_of_app. setoid_rewrite list_elem_of_singleton.
    destruct (decide (ElementIdentifier x = el)) as [<-|Hne].
    + rewrite lookup_insert_eq. split; [intros [= <-]; eauto|]. intros (i & Hi & E & <-). f_equal. apply Hc; set_solver.
    + rewrite lookup_insert_ne, IH by (done || (intros; apply Hc; set_solver)). naive_solver.
Qed.

(** The element [el] of the namespace, in what was verified *)
Definition element_at {V} (m : gmap string (gmap string V)) (ns el : string) : option V := m !! ns ≫= (.!! el).

Lemma elem_of_shown requested items i :
  i ∈ shown requested items ↔
  ∃ item v, item ∈ items ∧ ElementIdentifier item ∈ requested ∧ delivered (ElementValue item) = Some v ∧ i = item_with item v.
Proof.
  unfold shown. rewrite list_elem_of_omap. split.
  - intros (item & Hin & Hi). case_bool_decide; [|done]. destruct (delivered _) as [v|] eqn:Ev; [|done]. injection Hi as <-. eauto 6.
  - intros (item & v & Hin & Hr & Hv & ->). exists item. split; [done|]. rewrite bool_decide_eq_true_2 by done. by rewrite Hv.
Qed.

Lemma requested_lookup b request ns el v :
  (∀ el' e e', holds b ns el' e → holds b ns el' e' → e = e') →
  element_at (requested_elements b request) ns el = Some v ↔
  ∃ requested e, request !! ns = Some requested ∧ el ∈ requested ∧ holds b ns el e ∧ delivered e = Some v.
Proof.
  intros Hc. unfold element_at, requested_elements. rewrite map_lookup_imap.
  destruct (request !! ns) as [requested|]; cbn; [|naive_solver]. unfold holds in *.
  destruct (b_namespaces b !! ns) as [items|]; cbn in *; unfold id in *.
  - assert (elements_of (shown requested items) !! el = Some v ↔
            ∃ i, i ∈ shown requested items ∧ ElementIdentifier i = el ∧ ElementValue i = v) as Hl.
    { apply elements_of_lookup. intros i j (it & v1 & Hi & _ & Hv1 & ->)%elem_of_shown (jt & v2 & Hj & _ & Hv2 & ->)%elem_of_shown.
      cbn. intros E. enough (Some v1 = Some v2) by congruence. rewrite <-Hv1, <-Hv2. f_equal. apply (Hc (ElementIdentifier it)); eauto. }
    setoid_rewrite elem_of_shown in Hl.
    assert (elements_of (shown requested items) !! el = Some v ↔
            ((match shown requested items with [] => None | i :: l => Some (elements_of (i :: l)) end) ≫= (.!! el)) = Some v) as <-
      by (by destruct (shown requested items)).
    rewrite Hl. split.
    + intros (i & (item & v' & Hin & Hr & Hv & ->) & <- & <-). cbn in *. naive_solver.
    + intros (? & e & [= <-] & Hr & (item & Hin & <- & <-) & Hv). exists (item_with item v). naive_solver.
  - split; [done|]. intros (? & ? & _ & _ & (? & []%elem_of_nil & _) & _).
Qed.

(** The verified elements are the requested ones that the schema declares and
    the document gives. *)
Definition shows (elements : gmap string (gmap string dvalue)) (claims : gmap string (gmap string ClaimMetadata))
    (doc : gmap string element) (request : gmap string (list string)) : Prop :=
  ∀ ns el v, element_at elements ns el = Some v ↔
    ∃ requested c meta e, request !! ns = Some requested ∧ el ∈ requested ∧ claims !! ns = Some c ∧ c !! el = Some meta ∧
      issued_value doc el meta = Some e ∧ delivered e = Some v.

Lemma issued_document_verifies i req pub schema doc0 order seed rand signed document :
  issue_document i req pub schema doc0 order seed rand signed = Ok document → order ≡ₚ declared (s_Claims schema) →
  ∃ doc key, injectPseudonymSeed i (s_Claims schema) ((fun m : jobject => ERaw <$> m) <$> doc0) seed = Ok doc ∧
    publicKeyToCOSEKey pub = Ok key ∧ doc_DocType document = s_DocType schema ∧
    let from := default signed (req_ValidFrom req) in
    let until := default (from + defaultValidity i) (req_ValidUntil req) in
    ∀ v cert now request d dev errs,
      accepting v (signerKey i) (certChain i) (s_DocType schema) cert → digest_supported (digestAlgorithm i) →
      in_force signed from until now → Disclose (IssuerSigned document) (Some request) = Ok d →
      ∃ mso elements, VerifyDocument v (mkDocument (s_DocType schema) (transmitted d) dev errs) now =
          mkDocResult (s_DocType schema) true (Some mso) (Some cert) elements [] ∧
        DeviceKey mso = norm_key key ∧ shows elements (s_Claims schema) doc request.
Proof.
  unfold issue_document. intros (doc & Hdoc & (key & Hkey%map_err_Ok & Hrest)%bind_Ok)%bind_Ok Hord.
  apply bind_Ok in Hrest as (b & Hadd & ([signedMSO nss] & Hb & (dev & _ & [= <-])%bind_Ok)%bind_Ok).
  exists doc, key. do 3 (split; [done|]).
  set (from := default signed (req_ValidFrom req)) in *. set (until := default _ (req_ValidUntil req)) in *.
  intros v cert now request d dev' errs Hacc Hds Hin Hdis.
  destruct (addElements_Ok _ _ _ _ _ Hadd) as (Hc & Hs & Hh).
  { intros ns. cbn. by rewrite !lookup_empty. }
  injection Hs as Hdt Hda Hf Hu Hk Hsg Hch. cbn in *.
  destruct (disclosed_verifies b signed signedMSO nss (signerKey i) key from until v cert now request d dev' errs) as (digests & Hv);
    rewrite ?Hf, ?Hu, ?Hk, ?Hsg, ?Hch, ?Hdt, ?Hda; try done.
  rewrite Hdt in Hv. eexists _, _. split; [exact Hv|]. split; [done|].
  assert (∀ ns el e, holds b ns el e ↔ ∃ c meta, s_Claims schema !! ns = Some c ∧ c !! el = Some meta ∧ issued_value doc el meta = Some e) as Hh'.
  { intros ns el e. rewrite Hh. setoid_rewrite Hord. setoid_rewrite elem_of_declared. split; [|naive_solver].
    intros [(item & Hi & _)|]; [|naive_solver]. cbn in Hi. rewrite lookup_empty in Hi. by apply elem_of_nil in Hi. }
  intros ns el val. rewrite requested_lookup.
  - setoid_rewrite Hh'. naive_solver.
  - intros el' e e'. rewrite !Hh'. naive_solver.
Qed.
End schema.

(** ** What verified was vouched for *)

Section sound.
Context `{CBOR} `{CoseVerify} `{MdocCBOR}.

(** The member of the namespace holds the item, and the security object lists
    its digest. *)
Definition listed (mso : MobileSecurityObject) (ns : string) (c : cval) (item : IssuerSignedItem dvalue) : Prop :=
  ∃ content digests encoded d, c = CTag TagEncodedCBOR (CBytes content) ∧ unmarshal_item content = Some item ∧
    ValueDigests mso !! ns = Some digests ∧ digests !! DigestID item = Some d ∧
    cbor_marshal c = Some encoded ∧ computeDigest (mso_DigestAlgorithm mso) encoded = Ok d.

Lemma verify_item_Ok mso ns c item : verify_item mso ns c = Ok item ↔ listed mso ns c item.
Proof.
  unfold verify_item, VerifyDigest, listed. split.
  - intros ([] & Hd & Hi)%bind_Ok. destruct c as [| | | | | | | | |n content| |]; try done.
    destruct (bool_decide_reflect (n = TagEncodedCBOR)) as [->|]; [|done]. cbn [negb] in Hd.
    destruct content as [| | | |content| | | | | | |]; try done. destruct (unmarshal_item content) as [item'|] eqn:Eu; [|done].
    injection Hi as ->. destruct (ValueDigests mso !! ns) as [digests|]; [|done].
    destruct (digests !! DigestID item) as [d|] eqn:Ed; [|done].
    apply bind_Ok in Hd as (encoded & He%or_encode_Ok & (d' & Hc & Hd)%bind_Ok). case_bool_decide; [|done]. subst d'.
    by exists content, digests, encoded, d.
  - intros (content & digests & encoded & d & -> & Hi & Hns & Hd & He & Hc).
    rewrite bool_decide_eq_true_2 by done. cbn [negb]. rewrite Hi, Hns, Hd, He. cbn. rewrite Hc. cbn.
    by rewrite bool_decide_eq_true_2.
Qed.

(** Errors stay. *)
Lemma check_errors mso ns cs m0 errs : (foldl (check_member mso ns) (m0, errs) cs).2 = [] → errs = [].
Proof.
  revert m0 errs. induction cs as [|c cs IH]; intros m0 errs; [done|]. cbn [foldl]. unfold check_member at 2.
  destruct (verify_item mso ns c); intros Hf%IH; [done|]. by apply app_nil in Hf as [_ ?].
Qed.

(** The members of a namespace pass when all do. *)
Lemma verify_items_nil mso ns cs m :
  verify_items mso ns cs = (m, []) → ∃ l, Forall2 (listed mso ns) cs l ∧ m = elements_of l.
Proof.
  unfold verify_items, elements_of. generalize (∅ : gmap string dvalue) as m0.
  induction cs as [|c cs IH]; intros m0; cbn [foldl].
  - intros [= <-]. by exists [].
  - unfold check_member at 2. destruct (verify_item mso ns c) as [item|e] eqn:Ei; cbn [fst snd].
    + intros (l & Hl & ->)%IH. exists (item :: l). split; [|done]. constructor; [by apply verify_item_Ok|done].
    + intros Hf. assert ((foldl (check_member mso ns) (m0, ([] ++ [e])%list) cs).2 = []) as E by (by rewrite Hf). by apply check_errors in E.
Qed.

Lemma verify_auth_Ok v auth docType trustDoc now mso cert r :
  verify_auth v auth docType trustDoc now = (mso, cert, Ok r) →
  ∃ sign1 dsCert rest, parseIssuerAuth auth = Ok sign1 ∧
    GetCertificateChainFromSign1 (cryptoExt v) sign1 = Ok (dsCert :: rest) ∧
    verifyCertificateChain v (dsCert :: rest) trustDoc = Ok tt ∧ VerifyMSO sign1 dsCert = Ok r ∧
    validateMSO r docType now = Ok tt ∧ mso = Some r ∧ cert = Some dsCert.
Proof.
  unfold verify_auth. destruct (parseIssuerAuth auth) as [sign1|]; [|done].
  destruct (GetCertificateChainFromSign1 _ _) as [[|dsCert rest]|] eqn:Eg; [done| |done].
  destruct (verifyCertificateChain _ _ _) as [[]|] eqn:Et; [|done].
  destruct (VerifyMSO _ _) as [m|] eqn:Em; [|done].
  destruct (validateMSO _ _ _) as [[]|] eqn:Ev; [|done]. intros [= <- <- <-]. by exists sign1, dsCert, rest.
Qed.

(** The namespaces of a valid document *)
Lemma VerifyDocument_valid v doc now r :
  VerifyDocument v doc now = r → Valid r = true →
  ∃ mso cert, verify_auth v (IssuerAuth (IssuerSigned doc)) (doc_DocType doc) (doc_DocType doc) now = (Some mso, Some cert, Ok mso) ∧
    MSO r = Some mso ∧ IssuerCertificate r = Some cert ∧ Errors r = [] ∧
    ∀ ns, match NameSpaces (IssuerSigned doc) !! ns with
          | None => VerifiedElements r !! ns = None
          | Some cs => ∃ l, Forall2 (listed mso ns) cs l ∧ VerifiedElements r !! ns = Some (elements_of l)
          end.
Proof.
  unfold VerifyDocument. destruct (verify_auth _ _ _ _ _) as [[mso cert] [m|e]] eqn:Ea; intros <-; [|done]. cbn.
  set (checked := map_imap _ _). intros Hv%bool_decide_eq_true.
  destruct (verify_auth_Ok _ _ _ _ _ _ _ _ Ea) as (sign1 & dsCert & rest & _ & _ & _ & _ & _ & -> & ->).
  exists m, dsCert. do 4 (split; [done|]). intros ns. rewrite lookup_fmap.
  assert (checked !! ns = (fun items => verify_items m ns items) <$> NameSpaces (IssuerSigned doc) !! ns) as E.
  { subst checked. rewrite map_lookup_imap. by destruct (_ !! ns). }
  rewrite E. destruct (NameSpaces (IssuerSigned doc) !! ns) as [cs|]; [|done]. cbn in *.
  destruct (verify_items m ns cs) as [els errs] eqn:Ev. assert (errs = []) as ->.
  { apply elem_of_map_to_list in E. apply concat_nil_Forall in Hv. rewrite Forall_forall in Hv. apply Hv.
    apply list_elem_of_fmap. by exists (ns, (els, errs)). }
  destruct (verify_items_nil _ _ _ _ Ev) as (l & Hl & ->). by exists l.
Qed.

Lemma elements_of_Some {V} (l : list (IssuerSignedItem V)) el v :
  elements_of l !! el = Some v → ∃ i, i ∈ l ∧ ElementIdentifier i = el ∧ ElementValue i = v.
Proof.
  unfold elements_of. induction l as [|x l IH] using rev_ind; [done|]. rewrite foldl_snoc. setoid_rewrite elem_of_app.
  destruct (decide (ElementIdentifier x = el)) as [<-|Hne].
  - rewrite lookup_insert_eq. intros [= <-]. exists x. split; [right; by apply list_elem_of_singleton|done].
  - rewrite lookup_insert_ne by done. intros (i & ? & ? & ?)%IH. eauto.
Qed.

Lemma elements_of_is_Some {V} (l : list (IssuerSignedItem V)) i : i ∈ l → is_Some (elements_of l !! ElementIdentifier i).
Proof.
  unfold elements_of. induction l as [|x l IH] using rev_ind; [by intros ?%elem_of_nil|]. rewrite foldl_snoc.
  intros [Hi|Hi%list_elem_of_singleton]%elem_of_app; [|subst; rewrite lookup_insert_eq; eauto].
  destruct (decide (ElementIdentifier x = ElementIdentifier i)) as [->|?]; [rewrite lookup_insert_eq; eauto|].
  rewrite lookup_insert_ne by done. auto.
Qed.

(** C24: A document is valid only when its security object is signed by the key
    of a certificate that is in its period and that the trust evaluator takes
    for the document type, is of that type and in force; every member of every
    namespace is then an item whose digest the object lists, and the verified
    elements are those of the items. *)
Theorem valid_document_vouched v doc now :
  let r := VerifyDocument v doc now in
  Valid r = true →
  ∃ sign1 cert rest mso,
    parseIssuerAuth (IssuerAuth (IssuerSigned doc)) = Ok sign1 ∧
    GetCertificateChainFromSign1 (cryptoExt v) sign1 = Ok (cert :: rest) ∧
    verifyCertificateChain v (cert :: rest) (doc_DocType doc) = Ok tt ∧
    Verify1 sign1 (Payload sign1) (cert_PublicKey cert) None = Ok tt ∧
    VerifyMSO sign1 cert = Ok mso ∧ MSO r = Some mso ∧ DocType mso = doc_DocType doc ∧
    ValidFrom (mso_Validity mso) ≤ now ≤ ValidUntil (mso_Validity mso) ∧
    (∀ ns cs c, NameSpaces (IssuerSigned doc) !! ns = Some cs → c ∈ cs →
       ∃ item, listed mso ns c item ∧ is_Some (element_at (VerifiedElements r) ns (ElementIdentifier item))) ∧
    (∀ ns el value, element_at (VerifiedElements r) ns el = Some value →
       ∃ cs c item, NameSpaces (IssuerSigned doc) !! ns = Some cs ∧ c ∈ cs ∧ listed mso ns c item ∧
         ElementIdentifier item = el ∧ ElementValue item = value).
Proof.
  intros r Hv. destruct (VerifyDocument_valid v doc now r eq_refl Hv) as (mso & cert & Ha & Hm & _ & _ & Hns).
  destruct (verify_auth_Ok _ _ _ _ _ _ _ _ Ha) as (sign1 & cert' & rest & Hp & Hg & Ht & Hmso & Hval & _ & [= <-]).
  exists sign1, cert, rest, mso. pose proof Hmso as Hsig. unfold VerifyMSO in Hsig. apply bind_Ok in Hsig as ([] & Hsig%map_err_Ok & _).
  assert (DocType mso = doc_DocType doc ∧ ValidFrom (mso_Validity mso) ≤ now ≤ ValidUntil (mso_Validity mso)) as [? ?].
  { unfold validateMSO, ValidateMSOValidity in Hval. destruct (bool_decide (Version mso = _)); [|done].
    destruct (bool_decide_reflect (DocType mso = doc_DocType doc)); [|done].
    destruct (negb (bool_decide (mso_DigestAlgorithm mso = "SHA-256")) && _); [done|]. cbn [negb] in Hval.
    repeat case_bool_decide; try done. split; [done|lia]. }
  unfold element_at. split_and!; try done; try lia.
  - intros ns cs c Hcs Hc. specialize (Hns ns). rewrite Hcs in Hns. destruct Hns as (l & Hl & ->). cbn.
    apply list_elem_of_lookup in Hc as [i Hi]. destruct (Forall2_lookup_l _ _ _ _ _ Hl Hi) as (item & Hit & Hlst).
    exists item. split; [done|]. apply elements_of_is_Some. by eapply list_elem_of_lookup_2.
  - intros ns el value. specialize (Hns ns). destruct (NameSpaces _ !! ns) as [cs|]; [|by rewrite Hns].
    destruct Hns as (l & Hl & ->). cbn. intros (item & Hit & <- & <-)%elements_of_Some.
    apply list_elem_of_lookup in Hit as [i Hi]. destruct (Forall2_lookup_r _ _ _ _ _ Hl Hi) as (c & Hc & Hlst).
    exists cs, c, item. split_and!; try done. by eapply list_elem_of_lookup_2.
Qed.
End sound.

(** ** The two ways to verify *)

Section two_ways.
Context `{CBOR} `{CoseVerify} `{MdocCBOR}.

Lemma verify_fold_Ok mso ns cs m0 m :
  foldl (add_verified mso ns) (Ok m0) cs = Ok m ↔ foldl (check_member mso ns) (m0, []) cs = (m, []).
Proof.
  assert (∀ cs e, foldl (add_verified mso ns) (Err e) cs = Err e) as Herr by (intros l e; by induction l).
  revert m0. induction cs as [|c cs IH]; intros m0; cbn [foldl]; [naive_solver|].
  unfold check_member at 2. unfold add_verified at 2.
  destruct (verify_item mso ns c) as [item|e]; cbn [mbind result_bind fst snd]; [apply IH|]. rewrite Herr. split; [done|].
  intros E. assert ((foldl (check_member mso ns) (m0, ([] ++ [e])%list) cs).2 = []) as E2 by (by rewrite E). by apply check_errors in E2.
Qed.

Lemma verify_auth_trust v auth docType now dt dt' :
  (∀ subject key dt dt', Evaluate v (mkEvaluation subject "x5c" key "credential-issuer" dt) =
                         Evaluate v (mkEvaluation subject "x5c" key "credential-issuer" dt')) →
  verify_auth v auth docType dt now = verify_auth v auth docType dt' now.
Proof.
  intros He. unfold verify_auth, verifyCertificateChain. destruct (parseIssuerAuth auth); [|done].
  destruct (GetCertificateChainFromSign1 _ _) as [[|c rest]|]; try done. by rewrite (He _ _ dt dt').
Qed.

(** For a trust evaluator that answers alike for every document type, the
    verification of the issuer-signed half alone succeeds exactly when a
    document with it is valid, with the same object and the same elements. *)
Theorem issuer_signed_equivalent v issuerSigned docType now dev errs mso elements :
  (∀ subject key dt dt', Evaluate v (mkEvaluation subject "x5c" key "credential-issuer" dt) =
                         Evaluate v (mkEvaluation subject "x5c" key "credential-issuer" dt')) →
  let r := VerifyDocument v (mkDocument docType issuerSigned dev errs) now in
  VerifyIssuerSigned v issuerSigned docType now = Ok (mso, elements) ↔
  Valid r = true ∧ MSO r = Some mso ∧ VerifiedElements r = elements.
Proof.
  intros He. unfold VerifyIssuerSigned, VerifyDocument. cbn [doc_DocType IssuerSigned].
  rewrite (verify_auth_trust v _ _ _ "" docType He).
  destruct (verify_auth _ _ _ _ _) as [[m c] [mso'|e]] eqn:Ea; cbn; [|naive_solver].
  set (checked := map_imap (fun ns items => Some (verify_items mso' ns items)) _).
  assert (∀ els, sequence_results (map_imap (fun ns items => Some (foldl (add_verified mso' ns) (Ok ∅) items))
                   (NameSpaces issuerSigned)) = Ok els ↔ checked = (fun x => (x, [])) <$> els) as Hseq.
  { intros els. rewrite sequence_results_Ok. subst checked. unfold verify_items.
    split; intros E; apply map_eq; intros ns; pose proof (f_equal (.!! ns) E) as En; rewrite map_lookup_imap, lookup_fmap in En; rewrite map_lookup_imap, lookup_fmap;
      destruct (NameSpaces issuerSigned !! ns) as [cs|], (els !! ns) as [x|]; cbn in *; try done; injection En as En; f_equal;
      by apply verify_fold_Ok. }
  split.
  - intros (els & Hels & [= <- <-])%bind_Ok. apply Hseq in Hels. rewrite Hels, no_errors, bool_decide_eq_true_2 by done.
    split_and!; [done..|]. by rewrite <-map_fmap_compose, map_fmap_id.
  - intros (Hv%bool_decide_eq_true & [= ->] & <-). apply bind_Ok. exists (fst <$> checked). split; [|done]. apply Hseq.
    apply map_eq. intros ns. rewrite lookup_fmap, lookup_fmap. destruct (checked !! ns) as [[x errs']|] eqn:E; [|done]. cbn.
    enough (errs' = []) as -> by done. apply concat_nil_Forall in Hv. rewrite Forall_forall in Hv. apply Hv.
    apply list_elem_of_fmap. exists (ns, (x, errs')). split; [done|]. by apply elem_of_map_to_list.
Qed.
End two_ways.

(** ** Nothing but what was issued *)

Section unforged.
Context `{CBORLaws} `{CoseSigner} `{MdocCBORLaws}.

(** A builder that was signed at a time, with times that can be written *)
Definition signs (b : MSOBuilder) (signedMSO : COSESign1) : Prop :=
  counted b ∧ ∃ signed nss, Build b signed = Ok (signedMSO, nss) ∧
    ∀ from until, b_validFrom b = Some from → b_validUntil b = Some until → Forall writable [signed; from; until].

(** The wrapper of an item of the builder *)
Definition wrapper_of (b : MSOBuilder) (x : list Z) : Prop :=
  ∃ ns items item inner, b_namespaces b !! ns = Some items ∧ item ∈ items ∧ marshal_item item = Some inner ∧
    cbor_marshal (CTag TagEncodedCBOR (CBytes inner)) = Some x.

(** A member of the document *)
Definition member_of (doc : DocumentMdoc) (x : list Z) : Prop :=
  ∃ ns cs c, NameSpaces (IssuerSigned doc) !! ns = Some cs ∧ c ∈ cs ∧ cbor_marshal c = Some x.

Lemma cbytes_inj a b : norm (cbytes a) = norm (cbytes b) → a = b.
Proof. destruct a, b; cbn; congruence. Qed.

(** What is signed determines the payload. *)
Lemma to_be_signed_inj ctx p aad pl ctx' p' aad' pl' tbs :
  to_be_signed ctx p aad pl = Some tbs → to_be_signed ctx' p' aad' pl' = Some tbs →
  ctx = ctx' ∧ p = p' ∧ raw aad = raw aad' ∧ pl = pl'.
Proof.
  intros E1%cbor_roundtrip E2%cbor_roundtrip. rewrite E1 in E2. injection E2 as ? Hp ? Hpl.
  by apply cbytes_inj in Hp, Hpl.
Qed.

Lemma Verify1_tbs sign1 payload k aad :
  Verify1 sign1 payload k aad = Ok tt →
  ∃ alg tbs, to_be_signed "Signature1" (Protected sign1) aad (match payload with None => Payload sign1 | Some _ => payload end) = Some tbs ∧
    verifySignature tbs (raw (Signature sign1)) k alg = Ok tt.
Proof.
  unfold Verify1. destruct (decode_headers _) as [headers|]; [|done]. intros (alg & _ & Hv)%bind_Ok.
  destruct (to_be_signed _ _ _ _) as [tbs|]; [|done]. by exists alg, tbs.
Qed.

(** The object that is decoded from what was signed *)
Lemma signed_object b signedMSO sign1 cert mso :
  signs b signedMSO → Payload sign1 = Payload signedMSO → VerifyMSO sign1 cert = Ok mso →
  ∃ ws, sequence_results (wrap_items (b_digestAlgorithm b) <$> b_namespaces b) = Ok ws ∧
    ValueDigests mso = snd <$> ws ∧ mso_DigestAlgorithm mso = b_digestAlgorithm b ∧ DocType mso = b_docType b ∧
    ∃ key, b_deviceKey b = Some key ∧ DeviceKey mso = norm_key key.
Proof.
  intros (_ & signed & nss & Hb & Hwr) Hp Hv.
  destruct (Build_Ok _ _ _ _ Hb) as (s & key & from & until & ws & mb & payload & alg & Hf & Hw & _ & Hm & Hpl & _ & Hs).
  injection Hf as _ Hk Hfr Hun. specialize (Hwr _ _ Hfr Hun).
  pose proof (Sign1_parts _ _ _ _ _ _ Hs) as (pb & tbs & sig & _ & _ & _ & ->). cbn [Payload] in Hp.
  unfold VerifyMSO in Hv. apply bind_Ok in Hv as (_ & _ & Hv). rewrite Hp in Hv. cbn [raw from_option] in Hv. unfold id in Hv.
  rewrite (cbor_roundtrip _ _ Hpl) in Hv. cbn [norm] in Hv. rewrite bool_decide_eq_true_2 in Hv by done.
  rewrite (mso_roundtrip _ _ Hm) in Hv by (by apply validity_written).
  injection Hv as <-. exists ws. cbn. eauto 8.
Qed.

(** The digest of a wrapper belongs to an item. *)
Lemma listed_wrapper b ws ns digests k d :
  sequence_results (wrap_items (b_digestAlgorithm b) <$> b_namespaces b) = Ok ws → (snd <$> ws) !! ns = Some digests →
  digests !! k = Some d →
  ∃ items item inner encoded, b_namespaces b !! ns = Some items ∧ item ∈ items ∧ marshal_item item = Some inner ∧
    cbor_marshal (CTag TagEncodedCBOR (CBytes inner)) = Some encoded ∧ computeDigest (b_digestAlgorithm b) encoded = Ok d.
Proof.
  intros Hw Hns Hd. apply sequence_results_fmap with (k := ns) in Hw. rewrite lookup_fmap in Hns.
  destruct (b_namespaces b !! ns) as [items|]; [|by rewrite Hw in Hns]. destruct Hw as ([cs ds] & Hw & E).
  rewrite E in Hns. injection Hns as <-. unfold wrap_items in Hw. apply bind_Ok in Hw as (wis & Hwis & [= _ <-]).
  apply elem_of_list_to_map_2 in Hd. rewrite elem_of_reverse in Hd. apply list_elem_of_lookup in Hd as [i Hi].
  apply lookup_zip_Some in Hi as [_ Hi].
  rewrite list_lookup_fmap in Hi. destruct (wis !! i) as [w|] eqn:Ewi; [|done]. injection Hi as <-.
  apply map_results_Ok in Hwis. destruct (Forall2_lookup_r _ _ _ _ _ Hwis Ewi) as (item & Hit & Hwi).
  destruct (wrap_item_Ok _ _ _ Hwi) as (inner & encoded & Hm & E1 & E2 & E3). rewrite E1 in E2.
  exists items, item, inner, encoded. split_and!; try done. by eapply list_elem_of_lookup_2.
Qed.

Lemma computeDigest_hash alg x d : computeDigest alg x = Ok d → ∃ h, d = digest h x ∧ ∀ y, computeDigest alg y = Ok (digest h y).
Proof. unfold computeDigest. repeat case_bool_decide; intros [= <-]; eauto. Qed.

Lemma listed_issued b ws mso ns c item doc cs :
  sequence_results (wrap_items (b_digestAlgorithm b) <$> b_namespaces b) = Ok ws → ValueDigests mso = snd <$> ws →
  mso_DigestAlgorithm mso = b_digestAlgorithm b → NameSpaces (IssuerSigned doc) !! ns = Some cs → c ∈ cs →
  (∀ h x y, wrapper_of b x → member_of doc y → digest h x = digest h y → x = y) →
  listed mso ns c item →
  ∃ e, holds b ns (ElementIdentifier item) e ∧ delivered e = Some (ElementValue item).
Proof.
  intros Hw Hvd Halg Hcs Hc Hcoll (content & digests & encoded & d & -> & Hu & Hns & Hd & He & Hdig).
  rewrite Hvd in Hns. destruct (listed_wrapper b ws ns digests _ d Hw Hns Hd) as (items & it & inner & enc & Hi & Hin & Hm & Hen & Hdi).
  rewrite Halg in Hdig. destruct (computeDigest_hash _ _ _ Hdig) as (h & -> & Hh). rewrite Hh in Hdi. injection Hdi as Hdi.
  assert (enc = encoded) as ->.
  { apply (Hcoll h); [by exists ns, items, it, inner|by eexists ns, cs, _|done]. }
  apply cbor_roundtrip in Hen, He. rewrite Hen in He. injection He as ->.
  rewrite (item_roundtrip _ _ Hm) in Hu. destruct (delivered (ElementValue it)) as [v|] eqn:Ev; [|done]. injection Hu as <-.
  exists (ElementValue it). split; [|done]. exists it. by rewrite Hi.
Qed.

(** C23: When the only messages that verify under the key of the signing
    certificate are objects that were built and signed, and no member of the
    document collides with an item that was issued, a valid document shows
    nothing else: it is of the type of one object that was signed, every
    verified element is an item of that object with the value that was issued,
    and the device key is the one it was issued to. *)
Theorem valid_document_issued (Issued : MSOBuilder → COSESign1 → Prop) v doc now :
  let r := VerifyDocument v doc now in
  Valid r = true →
  (∀ cert tbs sig alg, IssuerCertificate r = Some cert → verifySignature tbs sig (cert_PublicKey cert) alg = Ok tt →
     ∃ b m, Issued b m ∧ to_be_signed "Signature1" (Protected m) (Some []) (Payload m) = Some tbs) →
  (∀ b m, Issued b m → signs b m) →
  (∀ b m h x y, Issued b m → wrapper_of b x → member_of doc y → digest h x = digest h y → x = y) →
  ∃ b m key mso, Issued b m ∧ b_docType b = doc_DocType doc ∧
    b_deviceKey b = Some key ∧ MSO r = Some mso ∧ DeviceKey mso = norm_key key ∧
    ∀ ns el value, element_at (VerifiedElements r) ns el = Some value → ∃ e, holds b ns el e ∧ delivered e = Some value.
Proof.
  intros r Hv Honly Hsigns Hcoll.
  destruct (VerifyDocument_valid v doc now r eq_refl Hv) as (mso & cert & Ha & Hm & Hcert & _ & Hns).
  destruct (verify_auth_Ok _ _ _ _ _ _ _ _ Ha) as (sign1 & cert' & rest & _ & _ & _ & Hmso & Hval & _ & [= <-]).
  assert (Verify1 sign1 (Payload sign1) (cert_PublicKey cert) None = Ok tt) as Hsig.
  { unfold VerifyMSO in Hmso. by apply bind_Ok in Hmso as ([] & Hsig%map_err_Ok & _). }
  destruct (Verify1_tbs _ _ _ _ Hsig) as (alg & tbs & Htbs & Hvs).
  destruct (Honly cert tbs _ alg Hcert Hvs) as (b & m & Hiss & Htbs').
  assert (Payload sign1 = Payload m) as Hp.
  { destruct (to_be_signed_inj _ _ _ _ _ _ _ _ _ Htbs Htbs') as (_ & _ & _ & Hpl). rewrite <-Hpl. by destruct (Payload sign1). }
  destruct (signed_object b m sign1 cert mso (Hsigns b m Hiss) Hp Hmso) as (ws & Hw & Hvd & Halg & Hdt & key & Hk & Hdk).
  exists b, m, key, mso. split_and!; try done.
  { unfold validateMSO in Hval. destruct (bool_decide (Version mso = _)); [|done].
    destruct (bool_decide_reflect (DocType mso = doc_DocType doc)); [congruence|done]. }
  intros ns el value. unfold element_at. specialize (Hns ns). destruct (NameSpaces _ !! ns) as [cs|] eqn:Ecs; [|by rewrite Hns].
  destruct Hns as (l & Hl & ->). cbn. intros (item & Hit & <- & <-)%elements_of_Some.
  apply list_elem_of_lookup in Hit as [i Hi]. destruct (Forall2_lookup_r _ _ _ _ _ Hl Hi) as (c & Hc & Hlst).
  eapply (listed_issued b ws mso ns c item doc cs); try done; [by eapply list_elem_of_lookup_2|].
  intros h x y. by apply Hcoll with (m := m).
Qed.
End unforged.
