(* ===== verification/MdocDevice.v ===== *)
(** * Device authentication of mobile documents

    [pkg/mdoc]: the bytes a device signs ([device_auth_bytes.go]), the building
    and the verification of a device's signature or MAC ([device_auth.go]), the
    holder's response ([selective_disclosure.go]), the session transcripts
    ([session_transcript.go]) and the handler of presented documents
    ([openid4vp_handler.go]).

    The CBOR library splices an item that is already encoded into an array
    ([cbor.RawMessage]); [CBORRaw] is that part of it.  The encoding of a whole
    response is an interface too. *)

From S2P Require Import Prelude Bytes GoStrings Base64 Json MdocSchema TokenStatusList TokenStatusListCWT Cose Mdoc.

(** ** Spliced items *)

(** An element of a [[]any]: a value, or an encoded item *)
Abbreviation spliced := (cval + list Z)%type.

Class CBORRaw `{CBOR} := {
  cbor_wellformed : list Z → bool;
  marshal_spliced : list spliced → option (list Z) }.

Definition item_bytes `{CBOR} (x : spliced) : option (list Z) :=
  match x with inl v => cbor_marshal v | inr b => Some b end.

Definition item_ok `{CBORRaw} (x : spliced) : Prop :=
  match x with inl _ => True | inr b => cbor_wellformed b = true end.

(** An array is encoded when its elements are; encoded items delimit
    themselves, so the array determines them. *)
Class CBORRawLaws `{CBORRaw} : Prop := {
  spliced_encoded : ∀ l b, marshal_spliced l = Some b → Forall (fun x => is_Some (item_bytes x)) l;
  spliced_inj : ∀ l l' b, Forall item_ok l → Forall item_ok l' → marshal_spliced l = Some b → marshal_spliced l' = Some b →
    map item_bytes l = map item_bytes l' }.

(** ** The bytes that are signed *)

Section bytes.
Context `{CBORRaw}.

(** [None] is an absent value, for which the empty map is encoded; a value that
    is present and empty is refused. *)
Definition normaliseDeviceNameSpaces (deviceNameSpaces : gobytes) : result mdoc_error (list Z) :=
  match deviceNameSpaces with
  | None => or_encode (cbor_marshal (CMapAny []))
  | Some [] => Err MNamespaces
  | Some ns => Ok ns
  end.

Definition buildDeviceAuthenticationBytes (sessionTranscript : gobytes) (docType : string) (deviceNameSpaces : gobytes) :
    result mdoc_error (list Z) :=
  ns ← normaliseDeviceNameSpaces deviceNameSpaces;
  match raw sessionTranscript with
  | [] => Err MTranscript
  | transcript =>
      if negb (cbor_wellformed transcript) then Err MTranscript else
      inner ← or_encode (marshal_spliced
                [inl (CText "DeviceAuthentication"); inr transcript; inl (CText docType);
                 inl (CTag TagEncodedCBOR (CBytes ns))]);
      or_encode (cbor_marshal (CTag TagEncodedCBOR (CBytes inner)))
  end.

(** What an older build signed: the transcript as a byte string, the namespaces
    untagged, and no tag around the array *)
Definition buildLegacyDeviceAuthenticationBytes (sessionTranscript : gobytes) (docType : string)
    (deviceNameSpaces : gobytes) : result mdoc_error (list Z) :=
  ns ← normaliseDeviceNameSpaces deviceNameSpaces;
  or_encode (cbor_marshal
    (CArr [CText "DeviceAuthentication"; cbytes sessionTranscript; CText docType; CBytes ns])).
End bytes.

(** ** The device *)

Section device.
Context `{CBORRaw} `{CoseSigner} `{MdocCBOR}.

Record DeviceAuthBuilder := mkAuthBuilder {
  a_docType : string;
  sessionTranscript : gobytes;
  deviceNameSpaces : list (cval * cval);
  deviceKey : option signer;
  sessionKey : list Z;
  useMAC : bool }.

Definition createDeviceSignature (key : signer) (payload : list Z) : result mdoc_error COSESign1 :=
  algorithm ← map_err MCose (AlgorithmForKey (inl key));
  map_err MCose (Sign1Detached (Some payload) key algorithm [] None).

Definition createDeviceMAC (key payload : list Z) : result mdoc_error COSEMac0 :=
  map_err MCose (Mac0 (Some payload) key AlgorithmHMAC256 None).

Definition build_device_signed (b : DeviceAuthBuilder) : result mdoc_error DeviceSignedMdoc :=
  nsBytes ← or_encode (cbor_marshal (CMapAny (deviceNameSpaces b)));
  deviceAuthBytes ← buildDeviceAuthenticationBytes (sessionTranscript b) (a_docType b) (Some nsBytes);
  let nameSpaces := CTag 24 (CBytes nsBytes) in
  if useMAC b then
    mac0 ← createDeviceMAC (sessionKey b) deviceAuthBytes;
    Ok (mkDeviceSigned nameSpaces CNull
          [cbytes (mac_Protected mac0); cmap (mac_Unprotected mac0); CNull; cbytes (mac_Tag mac0)])
  else match deviceKey b with
       | None => Err MNoDeviceKey
       | Some key =>
           sign1 ← createDeviceSignature key deviceAuthBytes;
           Ok (mkDeviceSigned nameSpaces
                 (CArr [cbytes (Protected sign1); cmap (Unprotected sign1); CNull; cbytes (Signature sign1)]) [])
       end.

(** [DeviceAuthBuilder.Build] *)
Definition BuildDeviceSigned (b : DeviceAuthBuilder) : result mdoc_error DeviceSignedMdoc :=
  match sessionTranscript b with
  | None => Err MTranscript
  | Some _ =>
      if negb (useMAC b) && bool_decide (deviceKey b = None) then Err MNoDeviceKey else
      if useMAC b && bool_decide (sessionKey b = []) then Err MNoDeviceKey else
      build_device_signed b
  end.

(** ** The verification of a device *)

(** [DeviceAuthVerifier]: the transcript and the document type *)
Record DeviceAuthVerifier := mkAuthVerifier { v_transcript : gobytes; v_docType : string }.

Definition extractDeviceNameSpacesBytes (ns : cval) : result mdoc_error gobytes :=
  match ns with
  | CTag n (CBytes b) => if bool_decide (n = 24) then Ok (Some b) else Err MNamespaces
  | _ => Err MNamespaces
  end.

Definition parse_device_signature (val : cval) : result mdoc_error COSESign1 :=
  match val with
  | CBytes [] => Err MDeviceSignature
  | CBytes b => map_err MCose (UnmarshalCBOR b)
  | CArr [p; u; payload; sig] => Ok (mkSign1 (as_bytes p) (as_map u) (as_bytes payload) (as_bytes sig))
  | CTag n v => sigBytes ← or_encode (cbor_marshal (CTag n v)); map_err MCose (UnmarshalCBOR sigBytes)
  | _ => Err MDeviceSignature
  end.

Definition VerifySignature (v : DeviceAuthVerifier) (deviceSigned : DeviceSignedMdoc) (key : cose_pub) : result mdoc_error unit :=
  match DeviceSignature deviceSigned with
  | CNull => Err MNoDeviceAuth
  | val =>
      sign1 ← parse_device_signature val;
      ns ← extractDeviceNameSpacesBytes (d_NameSpaces deviceSigned);
      deviceAuthBytes ← buildDeviceAuthenticationBytes (v_transcript v) (v_docType v) ns;
      match Verify1 sign1 (Some deviceAuthBytes) key None with
      | Ok _ => Ok tt
      | Err err =>
          match buildLegacyDeviceAuthenticationBytes (v_transcript v) (v_docType v) ns with
          | Ok legacy => if is_ok (Verify1 sign1 (Some legacy) key None) then Ok tt else Err (MCose err)
          | Err _ => Err (MCose err)
          end
      end
  end.

(** The last error, when no candidate verifies *)
Fixpoint try_candidates (mac0 : COSEMac0) (key : list Z) (candidates : list (list Z)) (macErr : mdoc_error) : result mdoc_error unit :=
  match candidates with
  | [] => Err macErr
  | candidate :: candidates =>
      match VerifyCOSEMac0 mac0 key (Some candidate) None with
      | Ok _ => Ok tt
      | Err e => try_candidates mac0 key candidates (MCose e)
      end
  end.

Definition VerifyMAC (v : DeviceAuthVerifier) (deviceSigned : DeviceSignedMdoc) (key : list Z) : result mdoc_error unit :=
  match DeviceMac deviceSigned with
  | [] => Err MNoDeviceAuth
  | [CBytes p; u; payload; CBytes tag] =>
      let mac0 := mkMac0 (Some p) (as_map u) (as_bytes payload) (Some tag) in
      ns ← extractDeviceNameSpacesBytes (d_NameSpaces deviceSigned);
      deviceAuthBytes ← buildDeviceAuthenticationBytes (v_transcript v) (v_docType v) ns;
      let accepted := deviceAuthBytes ::
        match buildLegacyDeviceAuthenticationBytes (v_transcript v) (v_docType v) ns with Ok legacy => [legacy] | Err _ => [] end in
      match mac_Payload mac0 with
      | Some attached =>
          if negb (bool_decide (attached ∈ accepted)) then Err MDeviceMac else
          map_err MCose (VerifyCOSEMac0 mac0 key None None)
      | None => try_candidates mac0 key accepted MDeviceMac
      end
  | _ => Err MDeviceMac
  end.

Definition ExtractDeviceKeyFromMSO (mso : option MobileSecurityObject) : result mdoc_error cose_pub :=
  match mso with
  | None => Err MNoDeviceKeyInMSO
  | Some mso =>
      let key := DeviceKey mso in
      if bool_decide (key_X key = []) then Err MNoDeviceKeyInMSO else
      if bool_decide (Kty key = KeyTypeEC2) && bool_decide (raw (key_Y key) = []) then Err MNoDeviceKeyInMSO else
      map_err MCose (ToPublicKey key)
  end.

Definition hasDeviceSignature (doc : DocumentMdoc) : bool :=
  match DeviceSignature (DeviceSigned doc) with
  | CArr l => negb (bool_decide (length l = 0%nat))
  | CBytes b => negb (bool_decide (b = []))
  | CTag _ _ => true
  | _ => false
  end.
Definition hasDeviceMac (doc : DocumentMdoc) : bool := negb (bool_decide (length (DeviceMac (DeviceSigned doc)) = 0%nat)).
Definition hasDeviceAuth (doc : DocumentMdoc) : bool := hasDeviceSignature doc || hasDeviceMac doc.

(** A document without device authentication passes. *)
Definition VerifyDeviceAuth (doc : DocumentMdoc) (mso : option MobileSecurityObject) (transcript : gobytes) : result mdoc_error unit :=
  if negb (hasDeviceSignature doc) && negb (hasDeviceMac doc) then Ok tt else
  key ← ExtractDeviceKeyFromMSO mso;
  if hasDeviceSignature doc then VerifySignature (mkAuthVerifier transcript (doc_DocType doc)) (DeviceSigned doc) key
  else Err MMacUnsupported.

Definition VerifyDeviceAuthWithSessionKey (doc : DocumentMdoc) (transcript : gobytes) (key : list Z) : result mdoc_error unit :=
  if negb (hasDeviceMac doc) then Err MNoDeviceAuth
  else VerifyMAC (mkAuthVerifier transcript (doc_DocType doc)) (DeviceSigned doc) key.

(** ** The holder's response *)

Record DeviceResponseBuilder := mkResponseBuilder {
  rb_docType : string;
  rb_issuerSigned : option IssuerSignedMdoc;
  rb_deviceKey : option signer;
  rb_transcript : gobytes;
  rb_request : option (gmap string (gmap string bool));
  rb_useMAC : bool;
  rb_macKey : gobytes;
  rb_errors : gmap string (gmap string Z) }.

Definition ErrorDataNotAvailable : Z := 10.

Definition AddError (errors : gmap string (gmap string Z)) (namespace element : string) (errorCode : Z) :
    gmap string (gmap string Z) :=
  <[namespace := <[element := errorCode]> (default ∅ (errors !! namespace))]> errors.

(** The requested elements the holder does not have *)
Definition missing (issuerSigned : IssuerSignedMdoc) (request : gmap string (gmap string bool)) : list (string * string) :=
  ns ← map_to_list request;
  (fun e => (ns.1, e.1)) <$> List.filter (fun e => negb (HasElement issuerSigned ns.1 e.1)) (map_to_list ns.2).

Definition disclose_response (b : DeviceResponseBuilder) (issuerSigned : IssuerSignedMdoc) :
    result mdoc_error (IssuerSignedMdoc * gmap string (gmap string Z)) :=
  match rb_request b with
  | Some request =>
      disclosed ← DiscloseFromItemsRequest issuerSigned (Some request);
      Ok (disclosed, foldl (fun errs m => AddError errs m.1 m.2 ErrorDataNotAvailable) (rb_errors b) (missing issuerSigned request))
  | None => Ok (issuerSigned, rb_errors b)
  end.

Definition device_part (b : DeviceResponseBuilder) : result mdoc_error DeviceSignedMdoc :=
  match (if rb_useMAC b then rb_macKey b else None), rb_deviceKey b with
  | Some macKey, _ =>
      BuildDeviceSigned (mkAuthBuilder (rb_docType b) (rb_transcript b) [] None macKey true)
  | None, Some key =>
      BuildDeviceSigned (mkAuthBuilder (rb_docType b) (rb_transcript b) [] (Some key) [] false)
  | None, None => Err MNoDeviceKey
  end.

(** [DeviceResponseBuilder.Build] *)
Definition BuildResponse (b : DeviceResponseBuilder) : result mdoc_error DeviceResponseMdoc :=
  match rb_issuerSigned b, rb_transcript b with
  | None, _ => Err MRequest
  | _, None => Err MTranscript
  | Some issuerSigned, Some _ =>
      disclosed ← disclose_response b issuerSigned;
      deviceSigned ← device_part b;
      Ok (mkResponse "1.0" [mkDocument (rb_docType b) disclosed.1 deviceSigned disclosed.2] [] 0)
  end.
End device.

(** ** Session transcripts *)

Section transcripts.
Context `{CBOR} `{CoseCrypto}.

(** [SessionTranscript = [null, null, [label, SHA-256(handoverInfo)]]] *)
Definition session_transcript (label : string) (handoverInfo : list cval) : result mdoc_error (list Z) :=
  info ← or_encode (cbor_marshal (CArr handoverInfo));
  or_encode (cbor_marshal (CArr [CNull; CNull; CArr [CText label; CBytes (digest SHA256 info)]])).

Definition BuildOID4VPSessionTranscript (clientID nonce responseURI : string) (thumbprint : gobytes) : result mdoc_error (list Z) :=
  session_transcript "OpenID4VPHandover" [CText clientID; CText nonce; cbytes thumbprint; CText responseURI].

Definition BuildOID4VPDCAPISessionTranscript (origin nonce : string) (thumbprint : gobytes) : result mdoc_error (list Z) :=
  if str_empty origin then Err MTranscript else
  session_transcript "OpenID4VPDCAPIHandover" [CText origin; CText nonce; cbytes thumbprint].

Definition BuildOID4VCIIAESessionTranscript (handoverLabel challengeEndpoint nonce : string) (thumbprint : gobytes) :
    result mdoc_error (list Z) :=
  if str_empty handoverLabel then Err MTranscript else
  if str_empty challengeEndpoint then Err MTranscript else
  if str_empty nonce then Err MTranscript else
  session_transcript handoverLabel [CText challengeEndpoint; CText nonce; cbytes thumbprint].
End transcripts.

(** ** The handler of presented documents *)

(** The encoding of a response by the CBOR library *)
Class ResponseCBOR := {
  marshal_response : DeviceResponseMdoc → option (list Z);
  unmarshal_response : list Z → option DeviceResponseMdoc }.

Definition transmitted_device (d : DeviceSignedMdoc) : DeviceSignedMdoc :=
  mkDeviceSigned (norm (d_NameSpaces d)) (norm (DeviceSignature d)) (map norm (DeviceMac d)).
Definition transmitted_document (d : DocumentMdoc) : DocumentMdoc :=
  mkDocument (doc_DocType d) (transmitted (IssuerSigned d)) (transmitted_device (DeviceSigned d)) (doc_Errors d).
Definition transmitted_response (r : DeviceResponseMdoc) : DeviceResponseMdoc :=
  mkResponse (r_Version r) (map transmitted_document (Documents r)) (DocumentErrors r) (Status r).

Class ResponseCBORLaws `{ResponseCBOR} : Prop := {
  response_roundtrip : ∀ r b, marshal_response r = Some b →
    Forall in_uint8 b ∧ unmarshal_response b = Some (transmitted_response r) }.

Section handler.
Context `{CBORRaw} `{CoseVerify} `{MdocCBOR} `{ResponseCBOR}.

Record MDocDocumentClaims := mkDocClaims { c_DocType : string; Namespaces : gmap string (gmap string dvalue) }.

Definition decode_token (vpToken : string) : result mdoc_error (list Z) :=
  match RawURLEncoding.DecodeString vpToken with
  | Some data => Ok data
  | None => match StdEncoding.DecodeString vpToken with Some data => Ok data | None => Err MToken end
  end.

(** A member of a namespace; a byte string is taken for an encoded item. *)
Definition extract_item (anyItem : cval) : option (IssuerSignedItem dvalue) :=
  match anyItem with
  | CTag _ (CBytes contentBytes) => unmarshal_item contentBytes
  | CBytes v => unmarshal_item v
  | _ => None
  end.

Definition add_claim (m : gmap string dvalue) (anyItem : cval) : gmap string dvalue :=
  match extract_item anyItem with
  | Some item => <[ElementIdentifier item := ElementValue item]> m
  | None => m
  end.

Definition extractDocumentClaims (doc : DocumentMdoc) : MDocDocumentClaims :=
  mkDocClaims (doc_DocType doc) (foldl add_claim ∅ <$> NameSpaces (IssuerSigned doc)).

(** The binding of one document to the session *)
Definition check_binding (transcript : list Z) (doc : DocumentMdoc) (mso : option MobileSecurityObject) : result mdoc_error unit :=
  if hasDeviceMac doc && negb (hasDeviceSignature doc) then Err MMacUnsupported else
  if negb (hasDeviceAuth doc) then Err MNoDeviceAuth else
  match mso with
  | None => Err MNoDeviceKeyInMSO
  | Some mso => VerifyDeviceAuth doc (Some mso) (Some transcript)
  end.

Fixpoint check_bindings (transcript : list Z) (docs : list DocumentMdoc) (results : list DocumentVerificationResult) :
    result mdoc_error unit :=
  match docs, results with
  | doc :: docs, r :: results => _ ← check_binding transcript doc (MSO r); check_bindings transcript docs results
  | [], [] => Ok tt
  | _, _ => Err MDecode
  end.

Fixpoint collect_claims (acc : gmap string MDocDocumentClaims) (docs : list DocumentMdoc) :
    result mdoc_error (gmap string MDocDocumentClaims) :=
  match docs with
  | [] => Ok acc
  | doc :: docs =>
      match acc !! doc_DocType doc with
      | Some _ => Err (MDuplicate (doc_DocType doc))
      | None => collect_claims (<[doc_DocType doc := extractDocumentClaims doc]> acc) docs
      end
  end.

(** [sessionTranscript] is empty for an unbound verification. *)
Definition verifyAndExtract (v : Verifier) (vpToken : string) (transcript : list Z) (now : Z) :
    result (list mdoc_error) (gmap string MDocDocumentClaims) :=
  data ← map_err (fun e => [e]) (decode_token vpToken);
  response ← match unmarshal_response data with Some r => Ok r | None => Err [MDecode] end;
  let verifyResult := VerifyDeviceResponse v response now in
  if negb (res_Valid verifyResult) then Err (res_Errors verifyResult) else
  _ ← match transcript with
      | [] => Ok tt
      | _ => map_err (fun e => [e]) (check_bindings transcript (Documents response) (res_Documents verifyResult))
      end;
  map_err (fun e => [e]) (collect_claims ∅ (Documents response)).

Definition VerifyAndExtract (v : Verifier) (vpToken : string) (now : Z) :
    result (list mdoc_error) (gmap string MDocDocumentClaims) :=
  verifyAndExtract v vpToken [] now.

Definition VerifyAndExtractBound (v : Verifier) (vpToken : string) (transcript : list Z) (now : Z) :
    result (list mdoc_error) (gmap string MDocDocumentClaims) :=
  if bool_decide (transcript = []) then Err [MTranscript] else verifyAndExtract v vpToken transcript now.

(** Whether a token looks like a document: no JWT, and an array or a map *)
Definition IsMDocFormat (vpToken : string) : bool :=
  if (2 <=? Count "."%char vpToken)%nat then false else
  match decode_token vpToken with
  | Ok (firstByte :: _) => (bool_decide (128 ≤ firstByte) && bool_decide (firstByte ≤ 159)) ||
                           (bool_decide (160 ≤ firstByte) && bool_decide (firstByte ≤ 191))
  | _ => false
  end.
End handler.
