(* ===== verification/MdocBinding.v ===== *)
(** * Presentations are bound to their session

    The bytes a device signs determine the transcript, the document type and the
    namespaces, and a transcript the session it was built for; so a presentation
    that verifies for one session does not verify for another.  Whatever the
    handler extracts was verified, and what a holder presents of an issued
    document is extracted. *)

From S2P Require Import Prelude Bytes GoStrings Base64 Json MdocSchema TokenStatusList TokenStatusListCWT Cose Mdoc MdocVerify MdocDevice.

(** ** The bytes determine what was signed *)

Section bytes.
Context `{CBORLaws} `{!CBORRaw} `{!CBORRawLaws}.

(** The namespaces that are signed *)
Lemma normalise_Ok ns b :
  normaliseDeviceNameSpaces ns = Ok b → ns = None ∧ cbor_marshal (CMapAny []) = Some b ∨ ns = Some b ∧ b ≠ [].
Proof. destruct ns as [[|z l]|]; cbn; [done|intros [= <-]; by right|intros E%or_encode_Ok; by left]. Qed.

Lemma device_bytes_Ok transcript docType ns b :
  buildDeviceAuthenticationBytes transcript docType ns = Ok b →
  ∃ t nsb inner, transcript = Some t ∧ t ≠ [] ∧ cbor_wellformed t = true ∧ normaliseDeviceNameSpaces ns = Ok nsb ∧
    marshal_spliced [inl (CText "DeviceAuthentication"); inr t; inl (CText docType); inl (CTag TagEncodedCBOR (CBytes nsb))] = Some inner ∧
    cbor_marshal (CTag TagEncodedCBOR (CBytes inner)) = Some b.
Proof.
  unfold buildDeviceAuthenticationBytes. intros (nsb & Hn & Hr)%bind_Ok.
  destruct transcript as [[|z t]|]; cbn [raw from_option] in Hr; unfold id in Hr; try done.
  destruct (cbor_wellformed (z :: t)) eqn:Ew; [|done]. cbn [negb] in Hr.
  apply bind_Ok in Hr as (inner & Hi%or_encode_Ok & Ho%or_encode_Ok). by exists (z :: t), nsb, inner.
Qed.

(** The same bytes: the same transcript, type and namespaces *)
Lemma device_bytes_inj t dt ns nsb t' dt' ns' nsb' b :
  buildDeviceAuthenticationBytes t dt ns = Ok b → buildDeviceAuthenticationBytes t' dt' ns' = Ok b →
  normaliseDeviceNameSpaces ns = Ok nsb → normaliseDeviceNameSpaces ns' = Ok nsb' →
  t = t' ∧ dt = dt' ∧ nsb = nsb'.
Proof.
  intros (x & n & inner & -> & _ & Hw & Hn & Hi & Ho)%device_bytes_Ok (x' & n' & inner' & -> & _ & Hw' & Hn' & Hi' & Ho')%device_bytes_Ok E E'.
  rewrite Hn in E. injection E as <-. rewrite Hn' in E'. injection E' as <-.
  apply cbor_roundtrip in Ho, Ho'. rewrite Ho in Ho'. injection Ho' as <-.
  assert (∀ t dt n, cbor_wellformed t = true → Forall item_ok
    [inl (CText "DeviceAuthentication"); inr t; inl (CText dt); inl (CTag TagEncodedCBOR (CBytes n))]) as Hok
    by (intros; repeat constructor; done).
  pose proof (spliced_inj _ _ _ (Hok _ _ _ Hw) (Hok _ _ _ Hw') Hi Hi') as Em.
  pose proof (spliced_encoded _ _ Hi) as Hs. apply Forall_cons in Hs as [_ Hs]. apply Forall_cons in Hs as [_ Hs].
  apply Forall_cons in Hs as [[d Hd] Hs]. apply Forall_cons in Hs as [[m Hm] _]. cbn [item_bytes map] in *.
  injection Em as Et Ed En. rewrite Hd in Ed. rewrite Hm in En. symmetry in Ed, En.
  apply cbor_roundtrip in Hd, Hm, Ed, En. rewrite Hd in Ed. rewrite Hm in En. cbn in Ed, En. naive_solver.
Qed.

(** The two shapes differ. *)
Lemma legacy_not_conformant t dt ns t' dt' ns' b :
  buildDeviceAuthenticationBytes t dt ns = Ok b → buildLegacyDeviceAuthenticationBytes t' dt' ns' ≠ Ok b.
Proof.
  intros (? & ? & ? & _ & _ & _ & _ & _ & Ho)%device_bytes_Ok Hl.
  unfold buildLegacyDeviceAuthenticationBytes in Hl. apply bind_Ok in Hl as (? & _ & Hl%or_encode_Ok).
  apply cbor_roundtrip in Ho, Hl. rewrite Ho in Hl. done.
Qed.

(** The bytes a device signs determine the session transcript, the document
    type and the namespaces, an absent value standing for the encoded empty map
    and a present but empty one being refused; and they are never the bytes an
    older build signed, whatever these were for. *)
Theorem device_bytes_determine t dt ns t' dt' ns' b b' :
  buildDeviceAuthenticationBytes t dt ns = Ok b →
  buildDeviceAuthenticationBytes t' dt' ns' = Ok b' →
  (b = b' ↔ t = t' ∧ dt = dt' ∧ normaliseDeviceNameSpaces ns = normaliseDeviceNameSpaces ns') ∧
  buildLegacyDeviceAuthenticationBytes t' dt' ns' ≠ Ok b ∧
  buildDeviceAuthenticationBytes t dt (Some []) = Err MNamespaces.
Proof.
  intros Hb Hb'. split_and!; [split|by eapply legacy_not_conformant|done].
  - intros <-. destruct (device_bytes_Ok _ _ _ _ Hb) as (? & n & ? & _ & _ & _ & Hn & _).
    destruct (device_bytes_Ok _ _ _ _ Hb') as (? & n' & ? & _ & _ & _ & Hn' & _).
    destruct (device_bytes_inj _ _ _ _ _ _ _ _ _ Hb Hb' Hn Hn') as (-> & -> & ->). by rewrite Hn, Hn'.
  - intros (-> & -> & E). unfold buildDeviceAuthenticationBytes in Hb, Hb'. rewrite E in Hb. congruence.
Qed.

(** What an older build signed determines it too. *)
Lemma legacy_bytes_inj t dt ns nsb t' dt' ns' nsb' b :
  buildLegacyDeviceAuthenticationBytes t dt ns = Ok b → buildLegacyDeviceAuthenticationBytes t' dt' ns' = Ok b →
  normaliseDeviceNameSpaces ns = Ok nsb → normaliseDeviceNameSpaces ns' = Ok nsb' →
  t = t' ∧ dt = dt' ∧ nsb = nsb'.
Proof.
  unfold buildLegacyDeviceAuthenticationBytes. intros (n & -> & E1%or_encode_Ok)%bind_Ok (n' & -> & E2%or_encode_Ok)%bind_Ok [= <-] [= <-].
  apply cbor_roundtrip in E1, E2. rewrite E1 in E2. injection E2 as Ht -> ->. by apply cbytes_inj in Ht.
Qed.
End bytes.

(** ** Transcripts determine the session *)

Section transcripts.
Context `{CBORLaws} `{CoseCrypto}.

Lemma session_transcript_Ok label info t :
  session_transcript label info = Ok t →
  ∃ x, cbor_marshal (CArr info) = Some x ∧
    cbor_marshal (CArr [CNull; CNull; CArr [CText label; CBytes (digest SHA256 x)]]) = Some t.
Proof. unfold session_transcript. intros (x & ?%or_encode_Ok & ?%or_encode_Ok)%bind_Ok. eauto. Qed.

(** The handover information that is hashed *)
Definition handover_info (info : list cval) (x : list Z) : Prop := cbor_marshal (CArr info) = Some x.

Lemma session_transcript_inj label info label' info' t :
  session_transcript label info = Ok t → session_transcript label' info' = Ok t →
  (∀ x y, handover_info info x → handover_info info' y → digest SHA256 x = digest SHA256 y → x = y) →
  label = label' ∧ map norm info = map norm info'.
Proof.
  intros (x & Hx & Ht)%session_transcript_Ok (y & Hy & Ht')%session_transcript_Ok Hcoll.
  apply cbor_roundtrip in Ht, Ht'. rewrite Ht in Ht'. injection Ht' as -> Hd. split; [done|].
  pose proof (Hcoll x y Hx Hy Hd) as ->. apply cbor_roundtrip in Hx, Hy. rewrite Hx in Hy. by injection Hy.
Qed.

Definition vp_info (clientID nonce responseURI : string) (thumbprint : gobytes) : list cval :=
  [CText clientID; CText nonce; cbytes thumbprint; CText responseURI].
Definition short_info (endpoint nonce : string) (thumbprint : gobytes) : list cval :=
  [CText endpoint; CText nonce; cbytes thumbprint].

(** Two redirect sessions have the same transcript only when client, nonce,
    response URI and encryption key are the same, provided SHA-256 does not
    collide on the two hashed values; and the transcript of a redirect session
    is never that of a browser API session. *)
Theorem transcripts_distinct client nonce uri thumb client' nonce' uri' thumb' origin dc_nonce dc_thumb t :
  BuildOID4VPSessionTranscript client nonce uri thumb = Ok t →
  ((∀ x y, handover_info (vp_info client nonce uri thumb) x → handover_info (vp_info client' nonce' uri' thumb') y →
      digest SHA256 x = digest SHA256 y → x = y) →
   BuildOID4VPSessionTranscript client' nonce' uri' thumb' = Ok t → (client, nonce, uri, thumb) = (client', nonce', uri', thumb')) ∧
  BuildOID4VPDCAPISessionTranscript origin dc_nonce dc_thumb ≠ Ok t.
Proof.
  intros Ht. split.
  - intros Hc Ht'. destruct (session_transcript_inj _ _ _ _ _ Ht Ht' Hc) as [_ E]. injection E as -> -> Hth ->.
    by apply cbytes_inj in Hth as ->.
  - unfold BuildOID4VPDCAPISessionTranscript. destruct (str_empty origin); [done|]. intros Ht'.
    apply session_transcript_Ok in Ht as (x & _ & Ht), Ht' as (y & _ & Ht'). apply cbor_roundtrip in Ht, Ht'. rewrite Ht in Ht'. done.
Qed.

Lemma dcapi_transcript_inj origin nonce thumb origin' nonce' thumb' t :
  BuildOID4VPDCAPISessionTranscript origin nonce thumb = Ok t → BuildOID4VPDCAPISessionTranscript origin' nonce' thumb' = Ok t →
  (∀ x y, handover_info (short_info origin nonce thumb) x → handover_info (short_info origin' nonce' thumb') y →
     digest SHA256 x = digest SHA256 y → x = y) →
  (origin, nonce, thumb) = (origin', nonce', thumb').
Proof.
  unfold BuildOID4VPDCAPISessionTranscript. destruct (str_empty origin), (str_empty origin'); try done. intros Ht Ht' Hc.
  destruct (session_transcript_inj _ _ _ _ _ Ht Ht' Hc) as [_ E]. injection E as -> -> Hth. by apply cbytes_inj in Hth as ->.
Qed.
End transcripts.

(** ** What the handler extracts *)

Section extract.
Context `{CBORRaw} `{CoseVerify} `{MdocCBOR} `{ResponseCBOR}.

Lemma verifyAndExtract_Ok v vpToken T now claims :
  verifyAndExtract v vpToken T now = Ok claims →
  ∃ data response, decode_token vpToken = Ok data ∧ unmarshal_response data = Some response ∧
    res_Valid (VerifyDeviceResponse v response now) = true ∧
    (T ≠ [] → check_bindings T (Documents response) (res_Documents (VerifyDeviceResponse v response now)) = Ok tt) ∧
    collect_claims ∅ (Documents response) = Ok claims.
Proof.
  unfold verifyAndExtract. intros (data & Hd%map_err_Ok & (response & Hr & Hv)%bind_Ok)%bind_Ok.
  destruct (unmarshal_response data) as [response'|] eqn:Eu; [|done]. injection Hr as ->.
  destruct (res_Valid _) eqn:Ev; [|done]. cbn [negb] in Hv. apply bind_Ok in Hv as ([] & Hb & Hc%map_err_Ok).
  exists data, response. split_and!; try done. intros HT. destruct T; [done|]. by apply map_err_Ok in Hb.
Qed.

Lemma response_valid v response now doc :
  res_Valid (VerifyDeviceResponse v response now) = true → doc ∈ Documents response → Valid (VerifyDocument v doc now) = true.
Proof.
  unfold VerifyDeviceResponse. cbn. intros Hv Hd. apply andb_prop in Hv as [_ Hv].
  rewrite forallb_forall in Hv. apply Hv, in_map_iff. exists doc. split; [done|]. by apply list_elem_of_In.
Qed.

Lemma listed_extract mso ns cs l : Forall2 (listed mso ns) cs l → foldl add_claim ∅ cs = elements_of l.
Proof.
  unfold elements_of. generalize (∅ : gmap string dvalue) as m. intros m Hl. revert m.
  induction Hl as [|c item cs l (content & ? & ? & ? & -> & Hu & _) _ IH]; intros m; [done|].
  cbn [foldl]. unfold add_claim at 2. cbn [extract_item]. rewrite Hu. apply IH.
Qed.

Lemma extract_valid v doc now :
  Valid (VerifyDocument v doc now) = true →
  extractDocumentClaims doc = mkDocClaims (doc_DocType doc) (VerifiedElements (VerifyDocument v doc now)).
Proof.
  intros Hv. destruct (VerifyDocument_valid v doc now _ eq_refl Hv) as (mso & cert & _ & _ & _ & _ & Hns).
  unfold extractDocumentClaims. f_equal. apply map_eq. intros ns. specialize (Hns ns). rewrite lookup_fmap.
  destruct (NameSpaces _ !! ns) as [cs|]; [|done]. destruct Hns as (l & Hl & ->). cbn. f_equal. by eapply listed_extract.
Qed.

Lemma collect_claims_Ok acc docs m :
  collect_claims acc docs = Ok m →
  ∀ dt c, m !! dt = Some c ↔ acc !! dt = Some c ∨ ∃ doc, doc ∈ docs ∧ doc_DocType doc = dt ∧ c = extractDocumentClaims doc.
Proof.
  revert acc. induction docs as [|doc docs IH]; intros acc; cbn.
  - intros [= <-] dt c. split; [eauto|]. intros [?|(? & []%elem_of_nil & _)]. done.
  - destruct (acc !! doc_DocType doc) eqn:Ea; [done|]. intros Hc dt c. rewrite (IH _ Hc). setoid_rewrite elem_of_cons.
    destruct (decide (doc_DocType doc = dt)) as [<-|Hne]; [rewrite lookup_insert_eq|rewrite lookup_insert_ne by done]; naive_solver.
Qed.

Lemma collect_claims_NoDup acc docs m : collect_claims acc docs = Ok m → NoDup (map doc_DocType docs) ∧
  Forall (fun doc => acc !! doc_DocType doc = None) docs.
Proof.
  revert acc. induction docs as [|doc docs IH]; intros acc; cbn; [repeat constructor|].
  destruct (acc !! doc_DocType doc) eqn:Ea; [done|]. intros [Hn Hf]%IH. split.
  - constructor; [|done]. intros (d & Hd & Hin)%list_elem_of_fmap. rewrite Forall_forall in Hf. apply Hf in Hin.
    by rewrite <-Hd, lookup_insert_eq in Hin.
  - constructor; [done|]. eapply Forall_impl; [exact Hf|]. intros d. cbn.
    destruct (decide (doc_DocType doc = doc_DocType d)) as [->|?]; [by rewrite lookup_insert_eq|by rewrite lookup_insert_ne].
Qed.

(** What the handler extracts, bound to a session or not, is what was
    verified: every document of the response is valid, no two have the same
    type, and the claims under a type are exactly the verified elements of its
    document. *)
Theorem extracted_is_verified v vpToken T now claims :
  verifyAndExtract v vpToken T now = Ok claims →
  ∃ data response, decode_token vpToken = Ok data ∧ unmarshal_response data = Some response ∧
    NoDup (map doc_DocType (Documents response)) ∧
    Forall (fun doc => Valid (VerifyDocument v doc now) = true) (Documents response) ∧
    ∀ dt c, claims !! dt = Some c ↔
      ∃ doc, doc ∈ Documents response ∧ doc_DocType doc = dt ∧ c = mkDocClaims dt (VerifiedElements (VerifyDocument v doc now)).
Proof.
  intros (data & response & Hd & Hr & Hv & _ & Hc)%verifyAndExtract_Ok. exists data, response.
  assert (∀ doc, doc ∈ Documents response → Valid (VerifyDocument v doc now) = true) as Hval by (intros; by eapply response_valid).
  split_and!; [done|done|by eapply collect_claims_NoDup|by apply Forall_forall|].
  intros dt c. rewrite (collect_claims_Ok _ _ _ Hc), lookup_empty. split.
  - intros [?|(doc & Hin & <- & ->)]; [done|]. exists doc. split_and!; try done. by apply extract_valid, Hval.
  - intros (doc & Hin & <- & ->). right. exists doc. split_and!; try done. symmetry. by apply extract_valid, Hval.
Qed.

(** Without a session the device plays no part: two tokens whose responses
    differ only in what the devices signed give the same result. *)
Theorem unbound_ignores_device v tok tok' data data' r r' now :
  decode_token tok = Ok data → unmarshal_response data = Some r →
  decode_token tok' = Ok data' → unmarshal_response data' = Some r' →
  (r_Version r, DocumentErrors r, Status r) = (r_Version r', DocumentErrors r', Status r') →
  Forall2 (fun d d' => (doc_DocType d, IssuerSigned d) = (doc_DocType d', IssuerSigned d')) (Documents r) (Documents r') →
  VerifyAndExtract v tok now = VerifyAndExtract v tok' now.
Proof.
  intros Hd Hr Hd' Hr' Hh Hdocs. injection Hh as Hver Herr Hst.
  unfold VerifyAndExtract, verifyAndExtract. rewrite Hd, Hd'. cbn [map_err mbind result_bind]. rewrite Hr, Hr'.
  cbn [mbind result_bind]. assert (VerifyDeviceResponse v r now = VerifyDeviceResponse v r' now) as ->.
  { unfold VerifyDeviceResponse. rewrite Hver, Herr, Hst.
    enough (map (fun doc => VerifyDocument v doc now) (Documents r) = map (fun doc => VerifyDocument v doc now) (Documents r')) as -> by done.
    clear -Hdocs. induction Hdocs as [|d d' l l' E _ IH]; [done|]. cbn. rewrite IH. f_equal.
    injection E as E1 E2. unfold VerifyDocument. by rewrite E1, E2. }
  destruct (negb _); [done|]. cbn [mbind result_bind]. f_equal.
  clear -Hdocs. generalize (∅ : gmap string MDocDocumentClaims) as acc.
  induction Hdocs as [|d d' l l' E _ IH]; intros acc; [done|]. cbn [collect_claims]. injection E as E1 E2. rewrite E1.
  destruct (acc !! _); [done|]. rewrite IH. do 2 f_equal. unfold extractDocumentClaims. by rewrite E1, E2.
Qed.
End extract.

(** ** Bound presentations *)

Section bound.
Context `{CBORLaws} `{!CBORRaw} `{!CBORRawLaws} `{CoseVerify} `{MdocCBOR} `{ResponseCBOR}.

(** A device signature that verifies is over the bytes of the session, in the
    shape of today or of the older build. *)
Lemma VerifySignature_Ok v ds key :
  VerifySignature v ds key = Ok tt →
  ∃ sign1 ns b, extractDeviceNameSpacesBytes (d_NameSpaces ds) = Ok ns ∧
    (buildDeviceAuthenticationBytes (v_transcript v) (v_docType v) ns = Ok b ∨
     buildLegacyDeviceAuthenticationBytes (v_transcript v) (v_docType v) ns = Ok b) ∧
    Verify1 sign1 (Some b) key None = Ok tt.
Proof.
  unfold VerifySignature. intros Hv.
  assert ((sign1 ← parse_device_signature (DeviceSignature ds);
           ns ← extractDeviceNameSpacesBytes (d_NameSpaces ds);
           b ← buildDeviceAuthenticationBytes (v_transcript v) (v_docType v) ns;
           match Verify1 sign1 (Some b) key None with
           | Ok _ => Ok tt
           | Err err =>
               match buildLegacyDeviceAuthenticationBytes (v_transcript v) (v_docType v) ns with
               | Ok legacy => if is_ok (Verify1 sign1 (Some legacy) key None) then Ok tt else Err (MCose err)
               | Err _ => Err (MCose err)
               end
           end) = Ok tt) as Hv' by (by destruct (DeviceSignature ds)). clear Hv.
  apply bind_Ok in Hv' as (sign1 & _ & (ns & Hns & (b & Hb & Hv)%bind_Ok)%bind_Ok).
  destruct (Verify1 sign1 (Some b) key None) as [[]|] eqn:Ev; [exists sign1, ns, b; eauto|].
  destruct (buildLegacyDeviceAuthenticationBytes _ _ _) as [legacy|] eqn:El; [|done].
  destruct (Verify1 sign1 (Some legacy) key None) as [[]|] eqn:Ev'; [|done]. exists sign1, ns, legacy. eauto.
Qed.

Lemma extract_namespaces_Ok c ns :
  extractDeviceNameSpacesBytes c = Ok ns → ∃ b, c = CTag 24 (CBytes b) ∧ ns = Some b.
Proof.
  destruct c as [| | | | | | | | |n c| |]; try done. destruct c; try done. cbn.
  case_bool_decide as Hn; [|done]. intros [= <-]. subst. eauto.
Qed.

Lemma check_binding_Ok T doc mso :
  check_binding T doc mso = Ok tt →
  ∃ m key, mso = Some m ∧ ExtractDeviceKeyFromMSO (Some m) = Ok key ∧
    VerifySignature (mkAuthVerifier (Some T) (doc_DocType doc)) (DeviceSigned doc) key = Ok tt.
Proof.
  unfold check_binding, hasDeviceAuth. destruct (hasDeviceSignature doc) eqn:Es, (hasDeviceMac doc) eqn:Em; cbn; try done;
    (destruct mso as [m|]; [|done]); unfold VerifyDeviceAuth; rewrite Es, Em; cbn [negb andb];
    intros (key & Hk & Hv)%bind_Ok; by exists m, key.
Qed.

Lemma check_bindings_Ok T docs v now doc :
  check_bindings T docs (map (fun doc => VerifyDocument v doc now) docs) = Ok tt → doc ∈ docs →
  check_binding T doc (MSO (VerifyDocument v doc now)) = Ok tt.
Proof.
  induction docs as [|d docs IH]; cbn; [by intros _ ?%elem_of_nil|].
  intros ([] & Hd & Hr)%bind_Ok [->|Hin]%elem_of_cons; auto.
Qed.

Lemma bound_Ok v vpToken T now claims :
  VerifyAndExtractBound v vpToken T now = Ok claims →
  ∃ data response, decode_token vpToken = Ok data ∧ unmarshal_response data = Some response ∧
    ∀ doc, doc ∈ Documents response →
      Valid (VerifyDocument v doc now) = true ∧
      ∃ mso key, MSO (VerifyDocument v doc now) = Some mso ∧ ExtractDeviceKeyFromMSO (Some mso) = Ok key ∧
        VerifySignature (mkAuthVerifier (Some T) (doc_DocType doc)) (DeviceSigned doc) key = Ok tt.
Proof.
  unfold VerifyAndExtractBound. case_bool_decide as HT; [done|].
  intros (data & response & Hd & Hr & Hv & Hb & _)%verifyAndExtract_Ok. exists data, response. split; [done|]. split; [done|].
  intros doc Hin. split; [by eapply response_valid|]. specialize (Hb HT).
  by apply check_binding_Ok, (check_bindings_Ok T (Documents response)).
Qed.

(** What a device signs for a session: the bytes of today, or those of the older
    build, of a transcript, a document type and the namespaces it adds. *)
Definition device_bytes (t : list Z) (docType : string) (ns b : list Z) : Prop :=
  buildDeviceAuthenticationBytes (Some t) docType (Some ns) = Ok b ∨
  buildLegacyDeviceAuthenticationBytes (Some t) docType (Some ns) = Ok b.

Lemma legacy_bytes_unique t dt ns t' dt' ns' b :
  buildLegacyDeviceAuthenticationBytes (Some t) dt (Some ns) = Ok b →
  buildLegacyDeviceAuthenticationBytes (Some t') dt' (Some ns') = Ok b → t = t' ∧ dt = dt' ∧ ns = ns'.
Proof.
  unfold buildLegacyDeviceAuthenticationBytes.
  intros (n & Hn & Hb%or_encode_Ok)%bind_Ok (n' & Hn' & Hb'%or_encode_Ok)%bind_Ok.
  apply normalise_Ok in Hn as [[[=] _]|[[= <-] _]]. apply normalise_Ok in Hn' as [[[=] _]|[[= <-] _]].
  apply cbor_roundtrip in Hb, Hb'. rewrite Hb in Hb'. cbn in Hb'. by injection Hb'.
Qed.

Lemma device_bytes_unique t dt ns t' dt' ns' b :
  device_bytes t dt ns b → device_bytes t' dt' ns' b → t = t' ∧ dt = dt' ∧ ns = ns'.
Proof.
  intros [Hb|Hb] [Hb'|Hb'].
  - destruct (device_bytes_Ok _ _ _ _ Hb) as (? & n & ? & _ & _ & _ & Hn & _).
    destruct (device_bytes_Ok _ _ _ _ Hb') as (? & n' & ? & _ & _ & _ & Hn' & _).
    destruct (device_bytes_inj _ _ _ _ _ _ _ _ _ Hb Hb' Hn Hn') as ([= ->] & -> & En).
    apply normalise_Ok in Hn as [[[=] _]|[[= <-] _]]. by apply normalise_Ok in Hn' as [[[=] _]|[[= <-] _]].
  - by destruct (legacy_not_conformant _ _ _ _ _ _ _ Hb Hb').
  - by destruct (legacy_not_conformant _ _ _ _ _ _ _ Hb' Hb).
  - by eapply legacy_bytes_unique.
Qed.

(** C22: A presentation that is accepted for a session was made for that
    session.  Suppose everything that verifies under the keys of certain devices
    was signed by them for some transcript, document type and namespaces
    ([signed]).  Then every document of the accepted presentation is valid and
    carries its device's namespaces, and when the device key of its verified
    security object is one of those keys, that device signed exactly the
    session's transcript, the document's type and those namespaces.  A
    presentation made for other sessions only, or whose namespaces were
    replaced, is refused. *)
Theorem presentation_bound v vpToken T now claims
    (device : cose_pub → Prop) (signed : cose_pub → list Z → string → list Z → Prop) :
  (∀ key tbs sig alg, device key → verifySignature tbs sig key alg = Ok tt →
     ∃ p t dt ns b, signed key t dt ns ∧ device_bytes t dt ns b ∧
       to_be_signed "Signature1" p None (Some b) = Some tbs) →
  VerifyAndExtractBound v vpToken T now = Ok claims →
  ∃ data response, decode_token vpToken = Ok data ∧ unmarshal_response data = Some response ∧
    ∀ doc, doc ∈ Documents response →
      ∃ mso key ns, Valid (VerifyDocument v doc now) = true ∧ MSO (VerifyDocument v doc now) = Some mso ∧
        ExtractDeviceKeyFromMSO (Some mso) = Ok key ∧ d_NameSpaces (DeviceSigned doc) = CTag 24 (CBytes ns) ∧
        (device key → signed key T (doc_DocType doc) ns).
Proof.
  intros Honly (data & response & Hd & Hr & Hdocs)%bound_Ok. exists data, response. split; [done|]. split; [done|].
  intros doc Hin. destruct (Hdocs doc Hin) as (Hval & mso & key & Hm & Hk & Hs).
  destruct (VerifySignature_Ok _ _ _ Hs) as (sign1 & ns & b & Hns & Hb & Hv).
  apply extract_namespaces_Ok in Hns as (nsb & Hns & ->). exists mso, key, nsb. do 4 (split; [done|]).
  intros Hdev. destruct (Verify1_tbs _ _ _ _ Hv) as (alg & tbs & Htbs & Hvs). cbn in Htbs, Hb.
  destruct (Honly key tbs _ alg Hdev Hvs) as (p & t & dt & ns' & b' & Hsf & Hb' & Htbs').
  destruct (to_be_signed_inj _ _ _ _ _ _ _ _ _ Htbs Htbs') as (_ & _ & _ & [= <-]).
  by destruct (device_bytes_unique _ _ _ _ _ _ _ Hb Hb') as (-> & -> & ->).
Qed.
End bound.

(** ** Over the wire twice *)

Lemma norm_int_idem z : norm (norm_int z) = norm_int z.
Proof. unfold norm_int. case_bool_decide; cbn; unfold norm_int; by case_bool_decide. Qed.

Lemma norm_idem v : norm (norm v) = norm v.
Proof.
  induction v as [z|z|z|s|b|l IH|m IH|m IH|[bits lst uri]|n v IH| |l] using cval_nested_ind; cbn; try done; try apply norm_int_idem.
  - f_equal. rewrite map_map. by apply map_ext_Forall.
  - f_equal. rewrite map_map. apply map_ext_Forall. eapply Forall_impl; [exact IH|]. intros [k v]. cbn. intros ->. by rewrite norm_int_idem.
  - f_equal. rewrite map_map. apply map_ext_Forall. eapply Forall_impl; [exact IH|]. intros [k v]. cbn. by intros [-> ->].
  - unfold norm_status_list. cbn. rewrite norm_int_idem. by destruct (str_empty uri).
  - by rewrite IH.
  - f_equal. rewrite map_map. by apply map_ext.
Qed.

Lemma transmitted_idem s : transmitted (transmitted s) = transmitted s.
Proof.
  unfold transmitted. cbn. rewrite norm_idem. f_equal. rewrite <-map_fmap_compose. apply map_fmap_ext.
  intros ns cs _. cbn. rewrite map_map. apply map_ext, norm_idem.
Qed.

Section wallet.
Context `{MdocCBOR}.

Lemma peek_item_norm c : peek_item (norm c) = peek_item c.
Proof. destruct c as [| | | | | | | |s|n v| |]; cbn; try (unfold norm_int; case_bool_decide); try done. by destruct v; cbn; try (unfold norm_int; case_bool_decide). Qed.

Lemma wanted_norm requested cs : List.filter (wanted requested) (map norm cs) = map norm (List.filter (wanted requested) cs).
Proof.
  induction cs as [|c cs IH]; [done|]. cbn [map List.filter].
  assert (wanted requested (norm c) = wanted requested c) as -> by (unfold wanted; by rewrite peek_item_norm).
  rewrite IH. by destruct (wanted requested c).
Qed.

(** A wallet discloses from the document it received. *)
Lemma disclose_transmitted s request d :
  Disclose s (Some request) = Ok d → Disclose (transmitted s) (Some request) = Ok (transmitted d).
Proof.
  intros [= <-]. unfold Disclose. f_equal. unfold transmitted. cbn. f_equal. apply map_eq. intros ns.
  rewrite lookup_fmap, !map_lookup_imap. destruct (request !! ns) as [req|]; [|done]. cbn. rewrite lookup_fmap.
  destruct (NameSpaces s !! ns) as [cs|]; [|done]. cbn. rewrite !disclosed_items_filter, wanted_norm.
  by destruct (List.filter _ cs).
Qed.
End wallet.

(** ** The device key in the security object *)

Definition key_in_range (pub : cose_pub) : Prop :=
  match pub with
  | PubEC k => 0 ≤ pub_X k ∧ 0 ≤ pub_Y k
  | PubEd25519 k => length k = ed25519_PublicKeySize
  | PubOther => False
  end.

Lemma padded_length n x : (length x ≤ n)%nat → length (pad_coordinate n x) = n.
Proof. intros. unfold pad_coordinate. case_bool_decide; [rewrite length_app, length_replicate|]; lia. Qed.

Lemma padded_value n z : 0 ≤ z → (length (big_bytes z) ≤ n)%nat → of_be (pad_coordinate n (big_bytes z)) = z.
Proof.
  intros. unfold pad_coordinate. case_bool_decide; [rewrite of_be_app, of_be_zeros|]; rewrite of_be_big_bytes; lia.
Qed.

(** The key of a holder comes back from the object it was issued in. *)
Lemma device_key_roundtrip pub key mso :
  publicKeyToCOSEKey pub = Ok key → key_in_range pub → DeviceKey mso = norm_key key →
  ExtractDeviceKeyFromMSO (Some mso) = Ok pub.
Proof.
  intros Hp Hr Hm. unfold ExtractDeviceKeyFromMSO. rewrite Hm. destruct pub as [k|k|]; [| |done]; cbn in Hp, Hr.
  - unfold NewCOSEKeyFromECDSAPublic in Hp. apply bind_Ok in Hp as (crv & Hcrv & Hp).
    destruct Hr as [Hx Hy]. rewrite !Z.abs_eq in Hp by done. set (n := Z.to_nat _) in Hp.
    destruct (bool_decide_reflect (n < length (big_bytes (pub_X k)))%nat); [done|].
    destruct (bool_decide_reflect (n < length (big_bytes (pub_Y k)))%nat); [done|]. injection Hp as <-.
    assert (n ≠ 0)%nat as Hn by (subst n; by destruct (pub_Curve k)).
    pose proof (padded_length n (big_bytes (pub_X k)) ltac:(lia)). pose proof (padded_length n (big_bytes (pub_Y k)) ltac:(lia)).
    unfold norm_key. cbn [key_X key_Y raw from_option Kty Alg Crv]. unfold id.
    destruct (pad_coordinate n (big_bytes (pub_X k))) as [|x xs] eqn:Ex; [done|].
    destruct (pad_coordinate n (big_bytes (pub_Y k))) as [|y ys] eqn:Ey; [done|].
    rewrite (bool_decide_eq_false_2 (x :: xs = [])) by done. rewrite (bool_decide_eq_false_2 (y :: ys = [])) by done.
    rewrite andb_false_r. unfold ToPublicKey, toECDSAPublicKey. cbn [Kty Crv key_X key_Y raw from_option]. unfold id.
    rewrite <-Ex, <-Ey, !padded_value by lia. destruct k as [c x' y']. cbn in *. destruct c; [by injection Hcrv as <-..|done].
  - injection Hp as <-. cbn. rewrite bool_decide_eq_false_2 by (intros ->; discriminate Hr). cbn.
    unfold ToPublicKey, toEd25519PublicKey. cbn. by rewrite (bool_decide_eq_true_2 (length k = _)).
Qed.

(** ** From the issuer to the relying party *)

Section end_to_end.
Context `{CBORLaws} `{!CBORRaw} `{CoseSignerLaws} `{MdocCBORLaws} `{ResponseCBORLaws} `{Arch} `{ArchUint}.

(** The device's signature, after the wire, verifies for its session. *)
Lemma device_signature_verifies b key T ds :
  BuildDeviceSigned b = Ok ds → deviceKey b = Some key → useMAC b = false → sessionTranscript b = Some T →
  VerifySignature (mkAuthVerifier (Some T) (a_docType b)) (transmitted_device ds) (signer_public key) = Ok tt ∧
  (∀ dt iss errs, hasDeviceSignature (mkDocument dt iss (transmitted_device ds) errs) = true ∧
                 hasDeviceMac (mkDocument dt iss (transmitted_device ds) errs) = false).
Proof.
  unfold BuildDeviceSigned. intros Hb Hk Hu Ht. rewrite Ht in Hb. rewrite Hu, Hk in Hb. cbn in Hb.
  unfold build_device_signed in Hb. apply bind_Ok in Hb as (nsBytes & _ & (dab & Hdab & Hb)%bind_Ok).
  rewrite Hu, Hk in Hb. apply bind_Ok in Hb as (sign1 & Hs & [= <-]).
  unfold createDeviceSignature in Hs. apply bind_Ok in Hs as (alg & Ha%map_err_Ok & Hs%map_err_Ok).
  unfold Sign1Detached in Hs. apply bind_Ok in Hs as (m & Hm & [= <-]). rewrite Ht in Hdab.
  pose proof (Sign1_parts _ _ _ _ _ _ Hm) as (pb & tbs & sig & _ & _ & _ & Em). split.
  - unfold VerifySignature, transmitted_device. cbn [DeviceSignature d_NameSpaces DeviceMac].
    rewrite Em. cbn -[buildDeviceAuthenticationBytes Verify1 buildLegacyDeviceAuthenticationBytes].
    rewrite bool_decide_eq_true_2 by done. cbn [mbind result_bind]. rewrite Hdab. cbn [mbind result_bind].
    by rewrite (signed_verifies (Some dab) key alg [] None None m _ (Some dab) Ha eq_refl Hm) by (by rewrite ?Em).
  - intros. by rewrite Em.
Qed.

(** The document of a response *)
Lemma BuildResponse_Ok b iss ks T request response :
  BuildResponse b = Ok response → rb_issuerSigned b = Some iss → rb_deviceKey b = Some ks → rb_useMAC b = false →
  rb_transcript b = Some T → rb_request b = Some request →
  ∃ d ds errs, DiscloseFromItemsRequest iss (Some request) = Ok d ∧
    BuildDeviceSigned (mkAuthBuilder (rb_docType b) (Some T) [] (Some ks) [] false) = Ok ds ∧
    response = mkResponse "1.0" [mkDocument (rb_docType b) d ds errs] [] 0.
Proof.
  unfold BuildResponse. intros Hb Hi Hk Hu Ht Hr. rewrite Hi, Ht in Hb.
  apply bind_Ok in Hb as ([d errs] & Hd & (ds & Hds & [= <-])%bind_Ok). unfold disclose_response in Hd. rewrite Hr in Hd.
  apply bind_Ok in Hd as (d' & Hd & [= <- <-]). unfold device_part in Hds. rewrite Hu, Hk, Ht in Hds. by eexists _, ds, _.
Qed.

Definition elements_request (request : gmap string (gmap string bool)) : gmap string (list string) :=
  (fun elems => (map_to_list elems).*1) <$> request.

(** C21: A document that was issued to a device and received by a wallet, which
    discloses the requested items and signs for a session with the device key,
    is accepted by the handler bound to that session: it yields one document of
    the issued type, and under it exactly the requested elements that the schema
    declares and the document data give, each with its converted value, in
    whatever order Go went through the schema. *)
Theorem issued_presented_extracted i req pub schema doc0 order seed rand signed document b ks T request response token v cert now :
  DevicePublicKey req = Some pub → Schema req = Some schema → DocumentData req = Some (Some doc0) →
  order ≡ₚ declared (s_Claims schema) →
  Issue i req order seed rand signed = Ok (mkResponse "1.0" [document] [] 0) →
  b = mkResponseBuilder (s_DocType schema) (Some (transmitted (IssuerSigned document))) (Some ks) (Some T) (Some request) false None ∅ →
  signer_public ks = pub → key_in_range pub → T ≠ [] →
  BuildResponse b = Ok response → marshal_response response = Some token →
  accepting v (signerKey i) (certChain i) (s_DocType schema) cert → digest_supported (digestAlgorithm i) →
  in_force signed (default signed (req_ValidFrom req))
    (default (default signed (req_ValidFrom req) + defaultValidity i) (req_ValidUntil req)) now →
  ∃ doc elements,
    injectPseudonymSeed i (s_Claims schema) ((fun m : jobject => ERaw <$> m) <$> doc0) seed = Ok doc ∧
    VerifyAndExtractBound v (RawURLEncoding.EncodeToString token) T now =
      Ok {[ s_DocType schema := mkDocClaims (s_DocType schema) elements ]} ∧
    shows elements (s_Claims schema) doc (elements_request request).
Proof.
  intros Hpub Hsch Hdata Hord Hiss -> Hks Hrange HT Hresp Htok Hacc Hdig Hin.
  unfold Issue in Hiss. rewrite Hpub, Hsch, Hdata in Hiss. apply fmap_Ok in Hiss as (document' & Hiss & [= ->]).
  destruct (issued_document_verifies _ _ _ _ _ _ _ _ _ _ Hiss Hord) as (doc & key & Hdoc & Hkey & Hdt & Hver).
  destruct (BuildResponse_Ok _ _ _ _ _ _ Hresp eq_refl eq_refl eq_refl eq_refl eq_refl) as (d & ds & errs & Hdis & Hds & ->).
  cbn [rb_docType] in *. destruct (Disclose (IssuerSigned document') (Some (elements_request request))) as [d0|] eqn:Ed0; [|done].
  unfold DiscloseFromItemsRequest in Hdis. fold (elements_request request) in Hdis.
  rewrite (disclose_transmitted _ _ _ Ed0) in Hdis. injection Hdis as <-.
  destruct (response_roundtrip _ _ Htok) as [Hbytes Hun].
  destruct (device_signature_verifies _ ks T ds Hds eq_refl eq_refl eq_refl) as [Hsig Hhas]. cbn [a_docType] in Hsig.
  destruct (Hver v cert now (elements_request request) d0 (transmitted_device ds) errs Hacc Hdig Hin Ed0)
    as (mso & elements & Hv & Hmk & Hshow).
  exists doc, elements. split; [done|]. split; [|done].
  unfold VerifyAndExtractBound. rewrite bool_decide_eq_false_2 by done. unfold verifyAndExtract, decode_token.
  rewrite (RawURLEncoding.DecodeString_EncodeToString token Hbytes). cbn [map_err mbind result_bind]. rewrite Hun. cbn [mbind result_bind].
  unfold transmitted_response, transmitted_document, VerifyDeviceResponse. cbn [Documents map r_Version Status DocumentErrors].
  cbn [doc_DocType IssuerSigned DeviceSigned doc_Errors]. rewrite transmitted_idem, Hv.
  cbn [forallb Valid res_Valid res_Documents]. rewrite !bool_decide_eq_true_2 by done. cbn [andb negb].
  destruct T as [|t0 T]; [done|]. cbn [check_bindings MSO]. unfold check_binding, hasDeviceAuth, VerifyDeviceAuth.
  destruct (Hhas (s_DocType schema) (transmitted d0) errs) as [Hhs Hhm]. rewrite Hhs, Hhm. cbn [andb orb negb].
  rewrite (device_key_roundtrip _ _ _ Hkey Hrange Hmk). cbn [mbind result_bind]. rewrite <-Hks. cbn [doc_DocType DeviceSigned].
  rewrite Hsig. cbn [mbind result_bind map_err collect_claims doc_DocType]. rewrite lookup_empty.
  rewrite (extract_valid v _ now) by (by rewrite Hv). cbn [doc_DocType]. by rewrite Hv.
Qed.
End end_to_end.
