(* ===== verification/MdocWitness.v ===== *)
(** * Mobile documents at concrete inputs *)

From Stdlib Require Import SpecFloat.
From stdpp Require Import countable.
From S2P Require Import Prelude Bytes GoStrings Base64 GoValue Json MdocSchema TokenStatusList TokenStatusListCWT Cose Mdoc MdocVerify MdocDevice MdocBinding.

#[local] Existing Instances toy_cbor toy_cbor_laws.

(** ** Keys *)

#[local] Instance toy_hash : CoseCrypto := {|
  ec_key := unit; rsa_key := unit; other_key := unit;
  ec_curve _ := P521; curve_bits _ := 521;
  digest _ d := [Z.of_nat (length d)];
  ecdsa_sign _ _ := None;
  rsa_sign_pss _ _ _ := None
|}.

(** An Ed25519 key of the issuer ([true]) and one of the device, for messages
    that are [ok] *)
Definition ed_verify (ok : list Z → bool) : CoseVerify := {|
  ec_public _ := mkECDSA P384 3 5;
  ecdsa_verify _ _ _ _ := false;
  ed25519_verify _ d s := ok d
|}.
Definition ed_key (b : bool) : list Z := replicate 32 (if b then 8 else 9).
Definition ed_signer (ok : list Z → bool) : @CoseSigner _ (ed_verify ok) := {|
  signer := bool;
  signer_public b := PubEd25519 (ed_key b);
  sign_digest _ d _ := if ok d then Some [1] else None;
  asn1_signature _ := None;
  hmac _ k d := (k ++ d)%list
|}.
Lemma ed_signer_laws ok : @CoseSignerLaws _ (ed_verify ok) (ed_signer ok).
Proof.
  split; [done|]. intros s k d b [= <-]. cbn. destruct (ok d) eqn:E; [|done]. by intros [= <-].
Qed.

#[local] Instance any_verify : CoseVerify := ed_verify (fun _ => true).
#[local] Instance any_signer : CoseSigner := ed_signer (fun _ => true).
#[local] Instance any_signer_laws : CoseSignerLaws := ed_signer_laws _.

(** ** An encoding of the structs *)

Definition toy_value_in (v : json) : option (string + bool) :=
  match v with JStr s => Some (inl s) | JBool b => Some (inr b) | _ => None end.
Definition toy_value_out (v : string + bool) : json := match v with inl s => JStr s | inr b => JBool b end.

Definition toy_key_in (k : COSEKey) : Z * Z * Z * list Z * list Z := (Kty k, Alg k, Crv k, key_X k, raw (key_Y k)).
Definition toy_key_out (t : Z * Z * Z * list Z * list Z) : COSEKey :=
  let '(kty, alg, crv, x, y) := t in mkCOSEKey kty alg crv x (match y with [] => None | _ => Some y end).

Definition toy_mso_in (m : MobileSecurityObject) :=
  (Version m, mso_DigestAlgorithm m, ValueDigests m, toy_key_in (DeviceKey m), DocType m,
   (Signed (mso_Validity m), ValidFrom (mso_Validity m), ValidUntil (mso_Validity m))).

Definition toy_bytes {A} `{Countable A} (a : A) : list Z := [Zpos (encode a)].
Definition toy_read A `{Countable A} (b : list Z) : option A := match b with [Zpos p] => decode p | _ => None end.

Lemma toy_read_bytes {A} `{Countable A} (a : A) : toy_read A (toy_bytes a) = Some a.
Proof. unfold toy_read, toy_bytes. apply decode_encode. Qed.

#[local] Instance toy_mdoc : MdocCBOR := {|
  dvalue := json;
  delivered e := match e with ERaw v => Some v | _ => None end;
  value_bool v := match v with JBool b => Some b | _ => None end;
  marshal_item i := match ElementValue i with
                    | ERaw v => (fun x => toy_bytes (DigestID i, Random i, ElementIdentifier i, x)) <$> toy_value_in v
                    | _ => None
                    end;
  unmarshal_item b := (fun t : Z * list Z * string * (string + bool) =>
                         let '(d, r, e, v) := t in mkItem d r e (toy_value_out v)) <$> toy_read _ b;
  marshal_mso m := Some (toy_bytes (toy_mso_in m));
  unmarshal_mso b := (fun t => let '(ver, alg, digests, key, dt, (s, f, u)) := t in
                        mkMSO ver alg digests (toy_key_out key) dt (mkValidity s f u)) <$>
                     toy_read (string * string * gmap string (gmap Z (list Z)) * (Z * Z * Z * list Z * list Z) * string * (Z * Z * Z)) b
|}.

#[local] Instance toy_mdoc_laws : MdocCBORLaws.
Proof.
  split.
  - intros [d r e el] bs. destruct el as [v| | | | | | |]; cbn; try done.
    destruct v; cbn; try done; intros [= <-]; by rewrite toy_read_bytes.
  - intros [ver alg digests [kty kalg crv x y] dt [s f u]] b [= <-] _. cbn [unmarshal_mso toy_mdoc]. rewrite toy_read_bytes. cbn.
    by destruct y as [[]|].
  - by intros [].
Qed.

#[local] Instance toy_raw : CBORRaw := {|
  cbor_wellformed _ := true;
  marshal_spliced l := toy_bytes <$> mapM item_bytes l
|}.

#[local] Instance toy_raw_laws : CBORRawLaws.
Proof.
  split.
  - intros l b. cbn. destruct (mapM item_bytes l) as [bs|] eqn:E; [|done]. intros _. apply mapM_Some in E.
    induction E; constructor; eauto.
  - intros l l' b _ _. cbn. destruct (mapM item_bytes l) as [bs|] eqn:E; [|done]. destruct (mapM item_bytes l') as [bs'|] eqn:E'; [|done].
    intros [= <-] [= Eb%(inj encode)]. subst. apply mapM_Some in E, E'. clear -E E'. revert l' E'.
    induction E as [|x y l bs Hx _ IH]; intros [|x' l'] E'; inversion E'; subst; [done|]. cbn. f_equal; [congruence|auto].
Qed.

(** A response, as one number in bytes *)
Abbreviation tree := (gen_tree (Z + string + list Z)).

Definition toy_document_in (d : DocumentMdoc) :
    string * gmap string (list tree) * tree * (tree * tree * list tree) * gmap string (gmap string Z) :=
  (doc_DocType d, map toy_tree <$> NameSpaces (IssuerSigned d), toy_tree (IssuerAuth (IssuerSigned d)),
   (toy_tree (d_NameSpaces (DeviceSigned d)), toy_tree (DeviceSignature (DeviceSigned d)), map toy_tree (DeviceMac (DeviceSigned d))),
   doc_Errors d).
Definition toy_document_out
    (t : string * gmap string (list tree) * tree * (tree * tree * list tree) * gmap string (gmap string Z)) : DocumentMdoc :=
  let '(dt, nss, auth, (dns, sig, mac), errs) := t in
  mkDocument dt (mkIssuerSigned (map toy_value <$> nss) (toy_value auth))
    (mkDeviceSigned (toy_value dns) (toy_value sig) (map toy_value mac)) errs.

Definition toy_response_in (r : DeviceResponseMdoc) :=
  (r_Version r, map toy_document_in (Documents r), DocumentErrors r, Status r).

#[local] Instance toy_response : ResponseCBOR := {|
  marshal_response r := Some (big_bytes (Zpos (encode (toy_response_in r))));
  unmarshal_response b :=
    match of_be b with
    | Zpos p => (fun t => let '(ver, docs, errs, st) := t in mkResponse ver (map toy_document_out docs) errs st) <$>
                (decode p : option (string * list (string * gmap string (list tree) * tree * (tree * tree * list tree) *
                                                   gmap string (gmap string Z)) * list (gmap string Z) * Z))
    | _ => None
    end
|}.

Lemma toy_document_roundtrip d : toy_document_out (toy_document_in d) = transmitted_document d.
Proof.
  destruct d as [dt [nss auth] [dns sig mac] errs]. unfold toy_document_out, toy_document_in, transmitted_document, transmitted, transmitted_device.
  cbn. rewrite !toy_value_tree. f_equal.
  - f_equal. rewrite <-map_fmap_compose. apply map_fmap_ext. intros ns cs _. cbn. rewrite map_map. apply map_ext, toy_value_tree.
  - f_equal. rewrite map_map. apply map_ext, toy_value_tree.
Qed.

#[local] Instance toy_response_laws : ResponseCBORLaws.
Proof.
  split. intros r b [= <-]. split; [apply be_fixed_uint8|].
  cbn [unmarshal_response toy_response]. rewrite of_be_big_bytes by lia. rewrite decode_encode. cbn.
  destruct r as [ver docs errs st]. unfold transmitted_response. cbn. do 2 f_equal. rewrite map_map. apply map_ext, toy_document_roundtrip.
Qed.

(** ** A document *)

#[local] Instance toy_arch : Arch := {| int64_overflow _ := 0 |}.
#[local] Instance toy_arch_uint : ArchUint := {| uint64_overflow _ := 0 |}.

Definition w_namespace : string := "org.iso.18013.5.1".
Definition w_claims : gmap string (gmap string ClaimMetadata) :=
  {[ w_namespace := {[ "family_name" := mkClaim true "tstr" ∅; "age_over_18" := mkClaim false "bool" ∅;
                       "birth_place" := mkClaim false "tstr" ∅ ]} ]}.
Definition w_schema : MDDLSchema := mkSchema "mso_mdoc" "org.iso.18013.5.1.mDL" w_claims [] 0.
Definition w_doc : jobject := {[ "family_name" := JStr "Ek"; "age_over_18" := JBool true ]}.
Definition w_cert : certificate :=
  mkCert (PubEd25519 (ed_key true)) 0 (10 * second) [mkURL "http" "//issuer.example"] [] [] [] "" "".
Definition w_signer : signer := true.
Definition w_device : signer := false.
Definition w_issuer : Issuer := mkIssuer w_signer [[7]] (100 * second) "SHA-256" false.
Definition w_request : IssuanceRequest :=
  mkIssuance (Some (PubEd25519 (ed_key false))) (Some (Some (Some w_doc))) (Some w_schema) None None.
Definition w_rand (ns el : string) (n : Z) : option (list Z) := Some [1; 2].
Definition w_signed : Z := 5 * second.
Definition w_now : Z := 6 * second.

(** The scheme of the certificate's URI is made https. *)
Definition w_verifier : Verifier :=
  mkVerifier (fun e => Some (bool_decide (SubjectID e = "https://issuer.example"))) "" true w_now (fun _ => Some w_cert).

Definition w_items : gmap string (gmap string bool) :=
  {[ w_namespace := {[ "family_name" := true; "birth_place" := false; "portrait" := false ]} ]}.

Definition the_document (r : result mdoc_error DeviceResponseMdoc) : DocumentMdoc :=
  match r with
  | Ok (mkResponse _ (d :: _) _ _) => d
  | _ => mkDocument "" (mkIssuerSigned ∅ CNull) (mkDeviceSigned CNull CNull []) ∅
  end.

Definition w_issue := Issue w_issuer w_request (declared w_claims) None w_rand w_signed.
Definition w_document : DocumentMdoc := the_document w_issue.
Lemma w_issue_ok : is_ok w_issue = true.
Proof. vm_compute. reflexivity. Qed.
Lemma w_issued : w_issue = Ok (mkResponse "1.0" [w_document] [] 0).
Proof.
  destruct (proj1 (is_ok_Ok _) w_issue_ok) as [r E]. unfold w_document. rewrite E.
  unfold w_issue, Issue in E. apply fmap_Ok in E as (d & _ & ->). reflexivity.
Qed.

Definition w_transcript : list Z := [131].
Definition w_wallet : DeviceResponseBuilder :=
  mkResponseBuilder "org.iso.18013.5.1.mDL" (Some (transmitted (IssuerSigned w_document))) (Some w_device)
    (Some w_transcript) (Some w_items) false None ∅.
Definition w_presented : DocumentMdoc := the_document (BuildResponse w_wallet).
Lemma w_wallet_ok : is_ok (BuildResponse w_wallet) = true.
Proof. vm_compute. reflexivity. Qed.
Lemma w_presented_built : BuildResponse w_wallet = Ok (mkResponse "1.0" [w_presented] [] 0).
Proof.
  destruct (proj1 (is_ok_Ok _) w_wallet_ok) as [r E]. unfold w_presented. rewrite E.
  destruct (BuildResponse_Ok _ _ _ _ _ _ E eq_refl eq_refl eq_refl eq_refl eq_refl) as (d & ds & errs & _ & _ & ->). reflexivity.
Qed.

Lemma w_accepting : accepting w_verifier w_signer [[7]] "org.iso.18013.5.1.mDL" w_cert.
Proof. exists []. split; [reflexivity|]. split; [reflexivity|]. vm_compute. reflexivity. Qed.

Lemma w_in_force : in_force w_signed w_signed (w_signed + 100 * second) w_now.
Proof. split; [repeat constructor; unfold writable; vm_compute; (discriminate || reflexivity)|vm_compute; split; discriminate]. Qed.

(** A requested element that was issued is extracted, one that was not is not. *)
Lemma issued_presented_extracted_witness :
  ∃ token elements,
    VerifyAndExtractBound w_verifier (RawURLEncoding.EncodeToString token) w_transcript w_now =
      Ok {[ "org.iso.18013.5.1.mDL" := mkDocClaims "org.iso.18013.5.1.mDL" elements ]} ∧
    element_at elements w_namespace "family_name" = Some (JStr "Ek") ∧
    element_at elements w_namespace "age_over_18" = None.
Proof.
  destruct (issued_presented_extracted w_issuer w_request (PubEd25519 (ed_key false)) w_schema (Some w_doc) (declared w_claims)
    None w_rand w_signed w_document w_wallet w_device w_transcript w_items _ _ w_verifier w_cert w_now
    eq_refl eq_refl eq_refl (reflexivity _) w_issued eq_refl eq_refl eq_refl ltac:(discriminate) w_presented_built eq_refl w_accepting
    (or_introl eq_refl) w_in_force) as (doc & elements & Hdoc & Hv & Hshows).
  eexists _, elements. split; [exact Hv|]. unfold injectPseudonymSeed in Hdoc. cbn [negb pseudonymSeed w_issuer] in Hdoc.
  injection Hdoc as <-. split.
  - apply Hshows.
    exists (default [] (elements_request w_items !! w_namespace)), (default ∅ (w_claims !! w_namespace)), (mkClaim true "tstr" ∅), (ERaw (JStr "Ek")).
    split; [vm_compute; reflexivity|]. split; [apply (bool_decide_unpack _); vm_compute; exact I|].
    split; [vm_compute; reflexivity|]. split; [vm_compute; reflexivity|]. split; [vm_compute; reflexivity|reflexivity].
  - destruct (element_at elements w_namespace "age_over_18") as [v|] eqn:E; [|reflexivity]. exfalso.
    apply Hshows in E as (requested & c & meta & e & Hr & Hin & _).
    assert (bool_decide ("age_over_18" ∈ default [] (elements_request w_items !! w_namespace)) = false) as Hb by (vm_compute; reflexivity).
    rewrite Hr in Hb. apply bool_decide_eq_false in Hb. exact (Hb Hin).
Defined.

(** ** Verification *)

Definition w_received : DocumentMdoc := transmitted_document w_presented.

Lemma w_received_valid : Valid (VerifyDocument w_verifier w_received w_now) = true.
Proof. vm_compute. reflexivity. Qed.

Lemma valid_document_vouched_witness :
  ∃ cert, cert_PublicKey cert = PubEd25519 (ed_key true) ∧
    ∃ item, ElementIdentifier item = "family_name" ∧
      ∃ mso c, MSO (VerifyDocument w_verifier w_received w_now) = Some mso ∧ listed mso w_namespace c item.
Proof.
  destruct (valid_document_vouched w_verifier w_received w_now w_received_valid)
    as (sign1 & cert & rest & mso & Hp & Hg & Ht & Hs & Hm & Hmso & Hdt & Hval & Hall & Hel).
  exists w_cert. split; [reflexivity|].
  destruct (element_at (VerifiedElements (VerifyDocument w_verifier w_received w_now)) w_namespace "family_name") as [value|] eqn:E.
  - destruct (Hel w_namespace "family_name" value E) as (cs & c & item & _ & _ & Hl & Hi & _).
    exists item. split; [exact Hi|]. exists mso, c. exact (conj Hmso Hl).
  - exfalso. assert (bool_decide (element_at (VerifiedElements (VerifyDocument w_verifier w_received w_now)) w_namespace "family_name" = None) = false) as Hb
      by (vm_compute; reflexivity). rewrite E in Hb. discriminate Hb.
Defined.

(** An evaluator that answers alike for every document type *)
Lemma issuer_signed_equivalent_witness :
  ∃ mso elements, VerifyIssuerSigned w_verifier (IssuerSigned w_received) "org.iso.18013.5.1.mDL" w_now = Ok (mso, elements) ∧
    element_at elements w_namespace "family_name" = Some (JStr "Ek").
Proof.
  destruct (MSO (VerifyDocument w_verifier w_received w_now)) as [mso|] eqn:E.
  - exists mso, (VerifiedElements (VerifyDocument w_verifier w_received w_now)). split; [|vm_compute; reflexivity].
    apply (issuer_signed_equivalent w_verifier (IssuerSigned w_received) "org.iso.18013.5.1.mDL" w_now (DeviceSigned w_received) (doc_Errors w_received));
      [reflexivity|]. exact (conj w_received_valid (conj E eq_refl)).
  - exfalso. assert (bool_decide (is_Some (MSO (VerifyDocument w_verifier w_received w_now))) = true) as Hb by (vm_compute; reflexivity).
    rewrite E in Hb. discriminate Hb.
Defined.

(** An issuer configured with SHA-384 *)
Definition w_builder384 : MSOBuilder :=
  AddDataElementWithRandom
    (mkBuilder "mDL" "SHA-384" (Some w_signed) (Some (w_signed + 100 * second)) (Some (NewCOSEKeyFromEd25519 (ed_key false)))
       (Some w_signer) [[7]] ∅ ∅ 0) w_namespace "family_name" (ERaw (JStr "Ek")) [1; 2].

Lemma sha384_refused_witness :
  ∃ signedMSO nss, Build w_builder384 w_signed = Ok (signedMSO, nss) ∧
    Valid (VerifyDocument w_verifier (mkDocument "mDL" (transmitted (issuer_signed signedMSO nss)) (mkDeviceSigned CNull CNull []) ∅) w_now) = false.
Proof.
  destruct (Build w_builder384 w_signed) as [[signedMSO nss]|] eqn:E.
  - exists signedMSO, nss. split; [reflexivity|].
    refine (proj1 (sha384_refused w_builder384 w_signed signedMSO nss w_signer _ _ _ w_verifier w_cert w_now nss _ _ eq_refl E eq_refl _ (proj1 w_in_force))).
    exists []. split; [reflexivity|]. split; [reflexivity|]. vm_compute. reflexivity.
  - exfalso. assert (is_ok (Build w_builder384 w_signed) = true) as Hb by (vm_compute; reflexivity). rewrite E in Hb. discriminate Hb.
Defined.

(** ** Device authentication *)

Lemma device_bytes_determine_witness :
  ∃ b b', buildDeviceAuthenticationBytes (Some [131]) "mDL" None = Ok b ∧
    buildDeviceAuthenticationBytes (Some [132]) "mDL" None = Ok b' ∧ b ≠ b'.
Proof.
  destruct (buildDeviceAuthenticationBytes (Some [131]) "mDL" None) as [b|] eqn:E; [|discriminate E].
  destruct (buildDeviceAuthenticationBytes (Some [132]) "mDL" None) as [b'|] eqn:E'; [|discriminate E'].
  exists b, b'. split; [reflexivity|]. split; [reflexivity|]. intros Hb.
  apply (proj1 (device_bytes_determine _ _ _ _ _ _ _ _ E E')) in Hb as [Ht _]. discriminate Ht.
Defined.

Section sessions.
#[local] Existing Instance toy_crypto.

(** Another nonce, another transcript *)
Lemma transcripts_distinct_witness :
  ∃ t, BuildOID4VPSessionTranscript "client" "n-1" "https://rp.example/cb" None = Ok t ∧
    BuildOID4VPDCAPISessionTranscript "https://rp.example" "n-1" None ≠ Ok t ∧
    BuildOID4VPSessionTranscript "client" "n-2" "https://rp.example/cb" None ≠ Ok t.
Proof.
  destruct (BuildOID4VPSessionTranscript "client" "n-1" "https://rp.example/cb" None) as [t|] eqn:E; [|discriminate E].
  exists t. split; [reflexivity|].
  destruct (transcripts_distinct "client" "n-1" "https://rp.example/cb" None "client" "n-2" "https://rp.example/cb" None
              "https://rp.example" "n-1" None t E) as [Hvp Hdc]. split; [exact Hdc|].
  intros E'. discriminate (Hvp (fun x y _ _ e => e) E').
Defined.
End sessions.

(** ** The handler *)

Section handler.
Definition w_response : DeviceResponseMdoc := mkResponse "1.0" [w_received] [] 0.
(** The same without device authentication *)
Definition w_stripped : DeviceResponseMdoc :=
  mkResponse "1.0" [mkDocument (doc_DocType w_received) (IssuerSigned w_received) (mkDeviceSigned CNull CNull []) ∅] [] 0.

#[local] Instance two_responses : ResponseCBOR := {|
  marshal_response _ := None;
  unmarshal_response b := match b with [0] => Some w_response | _ => Some w_stripped end
|}.

Lemma extracted_is_verified_witness :
  ∃ claims c, VerifyAndExtract w_verifier "AA" w_now = Ok claims ∧ claims !! "org.iso.18013.5.1.mDL" = Some c ∧
    element_at (Namespaces c) w_namespace "family_name" = Some (JStr "Ek").
Proof.
  destruct (VerifyAndExtract w_verifier "AA" w_now) as [claims|] eqn:E.
  - unfold VerifyAndExtract in E. destruct (extracted_is_verified w_verifier "AA" [] w_now claims E) as (data & response & Hd & Hr & _ & _ & Hc).
    vm_compute in Hd. injection Hd as <-. injection Hr as <-.
    exists claims, (mkDocClaims "org.iso.18013.5.1.mDL" (VerifiedElements (VerifyDocument w_verifier w_received w_now))).
    split; [reflexivity|]. split; [|vm_compute; reflexivity].
    apply Hc. exists w_received. split; [apply list_elem_of_here|]. split; reflexivity.
  - exfalso. assert (is_ok (VerifyAndExtract w_verifier "AA" w_now) = true) as Hb by (vm_compute; reflexivity).
    rewrite E in Hb. discriminate Hb.
Defined.

(** The stripped presentation passes too. *)
Lemma unbound_ignores_device_witness :
  VerifyAndExtract w_verifier "AA" w_now = VerifyAndExtract w_verifier "AQ" w_now ∧
  is_ok (VerifyAndExtract w_verifier "AQ" w_now) = true.
Proof.
  split; [|vm_compute; reflexivity].
  apply (unbound_ignores_device w_verifier "AA" "AQ" [0] [1] w_response w_stripped w_now);
    [vm_compute; reflexivity|reflexivity|vm_compute; reflexivity|reflexivity|reflexivity|].
  repeat constructor.
Defined.

End handler.

(** A device that signed once: its key verifies the message it signed for
    [w_transcript] and no other. *)
Section once.
Definition d_namespaces : list Z := default [] (cbor_marshal (CMapAny [])).
Definition d_bytes : list Z :=
  match buildDeviceAuthenticationBytes (Some w_transcript) "org.iso.18013.5.1.mDL" (Some d_namespaces) with
  | Ok b => b | Err _ => [] end.
Definition d_protected : gobytes := cbor_marshal (CMapInt [(HeaderAlgorithm, CInt64 AlgorithmEdDSA)]).
Definition d_tbs : list Z := default [] (to_be_signed "Signature1" d_protected None (Some d_bytes)).

#[local] Instance once_verify : CoseVerify := {|
  ec_public _ := mkECDSA P384 3 5;
  ecdsa_verify _ _ _ _ := false;
  ed25519_verify k d _ := bool_decide (k = ed_key true) || bool_decide (d = d_tbs)
|}.
#[local] Existing Instance two_responses.

Definition d_key (k : cose_pub) : Prop := k = PubEd25519 (ed_key false).
Definition d_signed (k : cose_pub) (t : list Z) (dt : string) (ns : list Z) : Prop :=
  t = w_transcript ∧ dt = "org.iso.18013.5.1.mDL" ∧ ns = d_namespaces.

Lemma d_bytes_built :
  buildDeviceAuthenticationBytes (Some w_transcript) "org.iso.18013.5.1.mDL" (Some d_namespaces) = Ok d_bytes.
Proof.
  assert (is_ok (buildDeviceAuthenticationBytes (Some w_transcript) "org.iso.18013.5.1.mDL" (Some d_namespaces)) = true)
    as Hb by (vm_compute; reflexivity).
  unfold d_bytes. by destruct (buildDeviceAuthenticationBytes _ _ _).
Qed.

Lemma d_tbs_built : to_be_signed "Signature1" d_protected None (Some d_bytes) = Some d_tbs.
Proof.
  assert (bool_decide (is_Some (to_be_signed "Signature1" d_protected None (Some d_bytes))) = true)
    as Hb by (vm_compute; reflexivity).
  apply bool_decide_eq_true in Hb as [tbs Hb]. unfold d_tbs. by rewrite Hb.
Qed.

Lemma d_only key tbs sig alg : d_key key → verifySignature tbs sig key alg = Ok tt → tbs = d_tbs.
Proof.
  intros ->. unfold verifySignature. destruct (is_ecdsa alg); [done|].
  destruct (bool_decide (alg = _)); [|done]. unfold verifyEdDSA. destruct (negb _); [done|].
  change (ed25519_verify (ed_key false) tbs sig) with (bool_decide (ed_key false = ed_key true) || bool_decide (tbs = d_tbs)).
  rewrite (bool_decide_eq_false_2 (ed_key false = _)) by done. by case_bool_decide.
Qed.

(** The presentation is accepted for the session it was made for; whatever
    transcript it is accepted for, the device signed it. *)
Lemma presentation_bound_witness :
  is_ok (VerifyAndExtractBound w_verifier "AA" w_transcript w_now) = true ∧
  ∀ T claims, VerifyAndExtractBound w_verifier "AA" T w_now = Ok claims → T = w_transcript.
Proof.
  split; [vm_compute; reflexivity|]. intros T claims E.
  destruct (presentation_bound w_verifier "AA" T w_now claims d_key d_signed) as (data & response & Hd & Hr & Hdocs);
    [|exact E|].
  - intros key tbs sig alg Hk Hv. rewrite (d_only _ _ _ _ Hk Hv).
    exists d_protected, w_transcript, "org.iso.18013.5.1.mDL", d_namespaces, d_bytes.
    split; [split_and!; reflexivity|]. split; [left; exact d_bytes_built|exact d_tbs_built].
  - vm_compute in Hd. injection Hd as <-. injection Hr as <-.
    destruct (Hdocs w_received (list_elem_of_here _ _)) as (mso & key & ns & _ & Hm & Hk & _ & Hs).
    refine (proj1 (Hs _)).
    assert (MSO (VerifyDocument w_verifier w_received w_now) ≫= (fun m =>
              match ExtractDeviceKeyFromMSO (Some m) with Ok k => Some k | Err _ => None end) =
            Some (PubEd25519 (ed_key false))) as Hkey by (vm_compute; reflexivity).
    rewrite Hm in Hkey. cbn [mbind option_bind] in Hkey. rewrite Hk in Hkey. injection Hkey as ->. reflexivity.
Defined.
End once.

(** ** One document was issued *)

Section only.
Definition o_item : IssuerSignedItem element := mkItem 0 [1; 2] "family_name" (ERaw (JStr "Ek")).
Definition o_inner : list Z := default [] (marshal_item o_item).
Definition o_wrapper : list Z := default [] (cbor_marshal (CTag TagEncodedCBOR (CBytes o_inner))).
Definition o_mso : MobileSecurityObject :=
  mkMSO "1.0" "SHA-256" {[ w_namespace := {[ 0 := [1] ]} ]} (NewCOSEKeyFromEd25519 (ed_key false)) "mDL"
    (mkValidity w_signed w_signed (w_signed + 100 * second)).
Definition o_tbs : list Z :=
  default [] (mb ← marshal_mso o_mso; payload ← cbor_marshal (CTag 24 (CBytes mb));
              to_be_signed "Signature1" (cbor_marshal (CMapInt [(HeaderAlgorithm, CInt64 AlgorithmEdDSA)])) (Some []) (Some payload)).

(** Keys that sign and verify this one message *)
Definition o_ok (d : list Z) : bool := bool_decide (d = o_tbs).
#[local] Instance only_verify : CoseVerify := ed_verify o_ok.
#[local] Instance only_signer : CoseSigner := ed_signer o_ok.

Definition o_signer : signer := true.
Definition o_builder : MSOBuilder :=
  AddDataElementWithRandom
    (mkBuilder "mDL" "SHA-256" (Some w_signed) (Some (w_signed + 100 * second)) (Some (NewCOSEKeyFromEd25519 (ed_key false)))
       (Some o_signer) [[7]] ∅ ∅ 0) w_namespace "family_name" (ERaw (JStr "Ek")) [1; 2].
Definition o_issued (b : MSOBuilder) (m : COSESign1) : Prop := b = o_builder ∧ ∃ nss, Build b w_signed = Ok (m, nss).

Definition o_document : DocumentMdoc :=
  match Build o_builder w_signed with
  | Ok (m, nss) => mkDocument "mDL" (issuer_signed m nss) (mkDeviceSigned CNull CNull []) ∅
  | Err _ => mkDocument "" (mkIssuerSigned ∅ CNull) (mkDeviceSigned CNull CNull []) ∅
  end.

Lemma o_valid : Valid (VerifyDocument w_verifier o_document w_now) = true.
Proof. vm_compute. reflexivity. Qed.

Lemma o_only tbs sig k alg : verifySignature tbs sig k alg = Ok tt → tbs = o_tbs.
Proof.
  unfold verifySignature. destruct (is_ecdsa alg).
  - destruct k as [k| |]; [|done..]. unfold verifyECDSA. destruct (ec_params alg) as [h n]. by destruct (negb _).
  - destruct (bool_decide (alg = _)); [|done]. destruct k as [|k|]; [done| |done]. unfold verifyEdDSA.
    destruct (negb _); [done|]. change (ed25519_verify k tbs sig) with (o_ok tbs).
    destruct (o_ok tbs) eqn:E; [|done]. by apply bool_decide_eq_true in E.
Qed.

Lemma o_counted : counted o_builder.
Proof. apply counted_add. intros ns. cbn [b_namespaces b_counter]. by rewrite !lookup_empty. Qed.

Lemma o_signs b m : o_issued b m → signs b m.
Proof.
  intros [-> [nss E]]. split; [exact o_counted|]. exists w_signed, nss. split; [exact E|].
  intros from until [= <-] [= <-]. exact (proj1 w_in_force).
Qed.

Lemma o_items ns items item : b_namespaces o_builder !! ns = Some items → item ∈ items → item = o_item.
Proof.
  unfold o_builder, AddDataElementWithRandom. cbn [b_namespaces b_counter]. rewrite lookup_empty.
  destruct (decide (ns = w_namespace)) as [->|Hne]; [|by rewrite lookup_insert_ne, lookup_empty by done].
  rewrite lookup_insert_eq, lookup_empty. intros [= <-]. cbn. by intros ->%list_elem_of_singleton.
Qed.

Lemma o_wrapper_of b m x : o_issued b m → wrapper_of b x → x = o_wrapper.
Proof.
  intros [-> _] (ns & items & item & inner & Hns & Hin & Hm & Hx).
  rewrite (o_items ns items item Hns Hin) in Hm. unfold o_wrapper, o_inner. rewrite Hm. cbn [default from_option]. unfold id. by rewrite Hx.
Qed.

Lemma o_member y : member_of o_document y → y = o_wrapper.
Proof.
  intros (ns & cs & c & Hns & Hin & Hy).
  destruct (Build o_builder w_signed) as [[m nss]|] eqn:E.
  2: { assert (is_ok (Build o_builder w_signed) = true) as Hb by (vm_compute; reflexivity). by rewrite E in Hb. }
  unfold o_document in Hns. rewrite E in Hns. cbn [IssuerSigned issuer_signed NameSpaces] in Hns.
  destruct (built_member _ _ _ _ _ _ _ o_counted E Hns Hin) as (items & item & inner & Hi & Hit & Hm & ->).
  rewrite (o_items ns items item Hi Hit) in Hm. unfold o_wrapper, o_inner. rewrite Hm. cbn [default from_option]. unfold id. by rewrite Hy.
Qed.

Lemma o_issued_tbs tbs : tbs = o_tbs →
  ∃ b m, o_issued b m ∧ to_be_signed "Signature1" (Protected m) (Some []) (Payload m) = Some tbs.
Proof.
  intros ->. destruct (Build o_builder w_signed) as [[m nss]|] eqn:E.
  2: { assert (is_ok (Build o_builder w_signed) = true) as Hb by (vm_compute; reflexivity). by rewrite E in Hb. }
  exists o_builder, m. split; [split; [done|by exists nss]|].
  destruct (Build_Ok _ _ _ _ E) as (s & key & from & until & ws & mb & payload & alg & _ & _ & _ & _ & _ & Ha & Hs).
  pose proof (Sign1_parts _ _ _ _ _ _ Hs) as (pb & tbs & sig & _ & Ht & Hsig & ->). cbn [Protected Payload]. rewrite Ht. f_equal.
  unfold AlgorithmForKey in Ha. cbn in Ha. injection Ha as <-. unfold signPayload in Hsig. cbn in Hsig.
  destruct (o_ok tbs) eqn:Eok; [|done]. by apply bool_decide_eq_true in Eok.
Qed.

(** The one element that is shown was issued. *)
Lemma valid_document_issued_witness :
  ∃ b, b_docType b = "mDL" ∧ ∃ e, holds b w_namespace "family_name" e ∧ delivered e = Some (JStr "Ek").
Proof.
  destruct (valid_document_issued o_issued w_verifier o_document w_now o_valid
    (fun cert tbs sig alg _ Hv => o_issued_tbs tbs (o_only tbs sig (cert_PublicKey cert) alg Hv)) o_signs
    (fun b m h x y Hi Hx Hy _ => eq_trans (o_wrapper_of b m x Hi Hx) (eq_sym (o_member y Hy))))
    as (b & m & key & mso & Hi & Hdt & _ & _ & _ & Hel).
  exists b. split; [rewrite (proj1 Hi); reflexivity|]. apply (Hel w_namespace "family_name").
  vm_compute. reflexivity.
Defined.
End only.

(** ** Schemas *)

(** A driving privilege, with a date inside *)
Definition w_privileges : ClaimMetadata :=
  mkClaim true "array" {[ "vehicle_category_code" := mkClaim true "tstr" ∅; "issue_date" := mkClaim false "full-date" ∅ ]}.

(** The date is tagged, the category stays text, a null optional field is left
    out and one the schema does not name is kept. *)
Example privileges_converted :
  convertElementValue w_privileges (ERaw (JArr [JObj {[
      "vehicle_category_code" := JStr "B"; "issue_date" := JStr "2020-01-02"; "note" := JBool true ]};
    JObj {[ "vehicle_category_code" := JStr "C"; "issue_date" := JNull ]}])) =
  Ok (EArr [EMap {[ "vehicle_category_code" := ERaw (JStr "B"); "issue_date" := EFullDate "2020-01-02";
                    "note" := ERaw (JBool true) ]};
            EMap {[ "vehicle_category_code" := ERaw (JStr "C") ]}]).
Proof. vm_compute. reflexivity. Qed.
