(* ===== verification/MdocEngagement.v ===== *)
(** * Device engagement

    [pkg/mdoc/engagement.go]: the engagement a device shows as a QR code, with
    the base64url codec the file writes by hand, and the ephemeral key in it.
    An index out of range is a panic, an error of its own.  The CBOR encoding of
    the engagement is an interface. *)

From S2P Require Import Prelude Bytes Base64 GoStrings TokenStatusList TokenStatusListCWT Cose MdocSchema Mdoc.

Inductive engagement_error :=
| QFormat | QChar | QPanic | QDecode | QEncode | QKey (e : cose_error) | QNotECDSA | QNoKey | QNoMethod.

(** ** base64url *)

Definition encodeURL : list ascii :=
  String.list_ascii_of_string "ABCDEFGHIJKLMNOPQRSTUVWXYZabcdefghijklmnopqrstuvwxyz0123456789-_".

Definition decodeURL : list Z :=
  [255; 255; 255; 255; 255; 255; 255; 255; 255; 255; 255; 255; 255; 255; 255; 255;
   255; 255; 255; 255; 255; 255; 255; 255; 255; 255; 255; 255; 255; 255; 255; 255;
   255; 255; 255; 255; 255; 255; 255; 255; 255; 255; 255; 255; 255; 62; 255; 255;
   52; 53; 54; 55; 56; 57; 58; 59; 60; 61; 255; 255; 255; 255; 255; 255;
   255; 0; 1; 2; 3; 4; 5; 6; 7; 8; 9; 10; 11; 12; 13; 14;
   15; 16; 17; 18; 19; 20; 21; 22; 23; 24; 25; 255; 255; 255; 255; 63;
   255; 26; 27; 28; 29; 30; 31; 32; 33; 34; 35; 36; 37; 38; 39; 40;
   41; 42; 43; 44; 45; 46; 47; 48; 49; 50; 51; 255; 255; 255; 255; 255].

(** [encodeURL[val>>n&0x3F]] *)
Definition sextet (val n : Z) : ascii := nth (Z.to_nat (Z.land (Z.shiftr val n) 63)) encodeURL "A"%char.

Fixpoint encode_groups (data : list Z) : list ascii :=
  match data with
  | a :: b :: c :: data =>
      let val := Z.lor (Z.lor (Z.shiftl a 16) (Z.shiftl b 8)) c in
      sextet val 18 :: sextet val 12 :: sextet val 6 :: sextet val 0 :: encode_groups data
  | [a; b] => let val := Z.lor (Z.shiftl a 16) (Z.shiftl b 8) in [sextet val 18; sextet val 12; sextet val 6]
  | [a] => let val := Z.shiftl a 16 in [sextet val 18; sextet val 12]
  | [] => []
  end.
Definition base64URLEncode (data : list Z) : string := String.string_of_list_ascii (encode_groups data).

(** The value of a character; [None] where the table has 0xff or ends *)
Definition char_value (c : ascii) : option Z :=
  match decodeURL !! nat_of_ascii c with
  | Some v => if bool_decide (v = 255) then None else Some v
  | None => None
  end.

Definition byte (z : Z) : Z := z mod 256.

(** A padding character in third or fourth place: the bytes before it.
    [left] counts the characters of the group that are to come. *)
Definition at_padding (left : nat) (val : Z) : option (list Z) :=
  match left with
  | 2%nat => let val := Z.shiftl val 12 in Some [byte (Z.shiftr val 16)]
  | 1%nat => let val := Z.shiftl val 6 in Some [byte (Z.shiftr val 16); byte (Z.shiftr val 8)]
  | _ => None
  end.

(** The inner loop: the value of four characters, or the last bytes *)
Fixpoint decode_group (left : nat) (s : list ascii) (val : Z) : result engagement_error (Z + list Z) :=
  match left with
  | O => Ok (inl val)
  | S left' =>
      match s with
      | [] => Err QPanic
      | c :: s =>
          match (if bool_decide (c = "="%char) then at_padding left val else None) with
          | Some last => Ok (inr last)
          | None => match char_value c with
                    | None => Err QChar
                    | Some v => decode_group left' s (Z.lor (Z.shiftl val 6) v)
                    end
          end
      end
  end.

(** A write into the result, whose size was computed beforehand *)
Definition put (size : nat) (acc bytes : list Z) : result engagement_error (list Z) :=
  if bool_decide (length acc + length bytes ≤ size)%nat then Ok (acc ++ bytes)%list else Err QPanic.

Definition val_bytes (val : Z) : list Z := [byte (Z.shiftr val 16); byte (Z.shiftr val 8); byte val].

(** The outer loop *)
Fixpoint decode_groups (size : nat) (s : list ascii) (acc : list Z) : result engagement_error (list Z) :=
  match s with
  | [] => Ok acc
  | c0 :: c1 :: c2 :: c3 :: rest =>
      g ← decode_group 4 [c0; c1; c2; c3] 0;
      match g with
      | inl val => acc ← put size acc (val_bytes val); decode_groups size rest acc
      | inr last => put size acc last
      end
  | _ =>
      g ← decode_group 4 s 0;
      match g with
      | inl val => put size acc (val_bytes val)
      | inr last => put size acc last
      end
  end.

Definition pad_group (s : list ascii) : list ascii :=
  match (length s mod 4)%nat with
  | 2%nat => s ++ ["="; "="]%char
  | 3%nat => s ++ ["="]%char
  | _ => s
  end%list.

Definition base64URLDecode (s : string) : result engagement_error (list Z) :=
  let s := pad_group (String.list_ascii_of_string s) in
  decode_groups (length s / 4 * 3) s [].

(** ** Engagements *)

Inductive retrieval_options :=
| BLEOptions (central peripheral : bool) (serverUUID clientUUID : option string) (address : option (list Z))
| NFCOptions (maxCommand maxResponse : Z)
| WiFiAwareOptions (passphrase : option string) (channel band : option Z)
| DecodedOptions (v : cval).

Definition RetrievalMethodNFC : Z := 1.
Definition RetrievalMethodBLE : Z := 2.
Definition RetrievalMethodWiFiAware : Z := 3.

Record Security := mkSecurity { CipherSuiteID : Z; EDeviceKeyBytes : gobytes }.
Record RetrievalMethod := mkMethod { m_Type : Z; m_Version : Z; m_Options : retrieval_options }.
Record OriginInfo := mkOrigin { Cat : Z; o_Type : Z; Details : string }.
(** [WebAPIRetrieval] and [OIDCRetrieval] have the same fields. *)
Record ServerEntry := mkServer { e_Version : Z; e_URL : string; e_Token : string }.

Record DeviceEngagement := mkEngagement {
  de_Version : string;
  de_Security : Security;
  DeviceRetrievalMethods : list RetrievalMethod;
  ServerRetrievalMethods : option (option ServerEntry * option ServerEntry);
  ProtocolInfo : cval;
  OriginInfos : list OriginInfo }.

(** The CBOR encoding of an engagement.  The options of a method are read into
    [any]: [options_read] is what a struct becomes. *)
Class EngagementCBOR := {
  options_read : retrieval_options → retrieval_options;
  marshal_engagement : DeviceEngagement → option (list Z);
  unmarshal_engagement : list Z → option DeviceEngagement }.

Definition received_method `{EngagementCBOR} (m : RetrievalMethod) : RetrievalMethod :=
  mkMethod (m_Type m) (m_Version m) (options_read (m_Options m)).
Definition received_engagement `{EngagementCBOR} (de : DeviceEngagement) : DeviceEngagement :=
  mkEngagement (de_Version de) (de_Security de) (map received_method (DeviceRetrievalMethods de))
    (ServerRetrievalMethods de) (norm (ProtocolInfo de)) (OriginInfos de).

Class EngagementCBORLaws `{EngagementCBOR} : Prop := {
  engagement_roundtrip : ∀ de b, marshal_engagement de = Some b →
    b ≠ [] ∧ Forall in_uint8 b ∧ unmarshal_engagement b = Some (received_engagement de) }.

Section engagement.
Context `{CBOR} `{EngagementCBOR}.

(** [ecdsa.PrivateKey] *)
Record private_key := mkPrivate { priv_Public : ecdsa_pub; priv_D : Z }.

Record EngagementBuilder := mkEngagementBuilder {
  engagement : DeviceEngagement; eDeviceKey : option private_key; eDeviceKeyPub : option COSEKey }.

Definition EngagementVersion : string := "1.0".

Definition NewEngagementBuilder : EngagementBuilder :=
  mkEngagementBuilder (mkEngagement EngagementVersion (mkSecurity 0 None) [] None CNull []) None None.

Definition WrapInEncodedCBOR (v : cval) : option (list Z) := cbor_marshal v.

Definition set_security (de : DeviceEngagement) (s : Security) : DeviceEngagement :=
  mkEngagement (de_Version de) s (DeviceRetrievalMethods de) (ServerRetrievalMethods de) (ProtocolInfo de) (OriginInfos de).

Definition WithEphemeralKey (b : EngagementBuilder) (key : private_key) : result engagement_error EngagementBuilder :=
  coseKey ← map_err QKey (NewCOSEKeyFromECDSAPublic (priv_Public key));
  keyBytes ← match COSEKey_Bytes coseKey with Some b => Ok b | None => Err QEncode end;
  taggedKeyBytes ← match WrapInEncodedCBOR (CBytes keyBytes) with Some b => Ok b | None => Err QEncode end;
  Ok (mkEngagementBuilder (set_security (engagement b) (mkSecurity 1 (Some taggedKeyBytes))) (Some key) (Some coseKey)).

Definition add_method (b : EngagementBuilder) (method : RetrievalMethod) : EngagementBuilder :=
  let de := engagement b in
  mkEngagementBuilder
    (mkEngagement (de_Version de) (de_Security de) (DeviceRetrievalMethods de ++ [method])%list
       (ServerRetrievalMethods de) (ProtocolInfo de) (OriginInfos de)) (eDeviceKey b) (eDeviceKeyPub b).

Definition WithBLE (b : EngagementBuilder) (opts : retrieval_options) : EngagementBuilder :=
  add_method b (mkMethod RetrievalMethodBLE 1 opts).
Definition WithNFC (b : EngagementBuilder) (maxCommand maxResponse : Z) : EngagementBuilder :=
  add_method b (mkMethod RetrievalMethodNFC 1 (NFCOptions maxCommand maxResponse)).
Definition WithWiFiAware (b : EngagementBuilder) (opts : retrieval_options) : EngagementBuilder :=
  add_method b (mkMethod RetrievalMethodWiFiAware 1 opts).

Definition WithOriginInfo (b : EngagementBuilder) (cat typ : Z) (details : string) : EngagementBuilder :=
  let de := engagement b in
  mkEngagementBuilder
    (mkEngagement (de_Version de) (de_Security de) (DeviceRetrievalMethods de) (ServerRetrievalMethods de)
       (ProtocolInfo de) (OriginInfos de ++ [mkOrigin cat typ details])%list) (eDeviceKey b) (eDeviceKeyPub b).

(** [EngagementBuilder.Build] *)
Definition BuildEngagement (b : EngagementBuilder) : result engagement_error (DeviceEngagement * private_key) :=
  match eDeviceKey b with
  | None => Err QNoKey
  | Some key =>
      if bool_decide (length (DeviceRetrievalMethods (engagement b)) = 0%nat) then Err QNoMethod else Ok (engagement b, key)
  end.

Definition DeviceEngagementToQRCode (de : DeviceEngagement) : result engagement_error string :=
  match marshal_engagement de with
  | None => Err QEncode
  | Some data => Ok ("mdoc:" +:+ base64URLEncode data)
  end.

Definition ParseQRCode (qrData : string) : result engagement_error DeviceEngagement :=
  if bool_decide (String.length qrData < 6)%nat || negb (bool_decide (String.substring 0 5 qrData = "mdoc:")) then Err QFormat else
  decoded ← base64URLDecode (String.substring 5 (String.length qrData - 5) qrData);
  match unmarshal_engagement decoded with Some de => Ok de | None => Err QDecode end.

(** [cbor.Unmarshal] into [map[int64]any]: a null leaves the map nil. *)
Definition unmarshal_int_map (data : list Z) : option (list (Z * cval)) :=
  match cbor_unmarshal data with
  | Some (CMapAny m) => int_keys m
  | Some CNull => Some []
  | _ => None
  end.

(** The fields are taken from values of the very types. *)
Definition FromMap (m : list (Z * cval)) : COSEKey :=
  mkCOSEKey
    (match zget m 1 with Some (CInt64 v) => v | _ => 0 end) 0
    (match zget m (-1) with Some (CInt64 v) => v | _ => 0 end)
    (match zget m (-2) with Some (CBytes v) => v | _ => [] end)
    (match zget m (-3) with Some (CBytes v) => Some v | _ => None end).

Definition ExtractEDeviceKey (de : DeviceEngagement) : result engagement_error ecdsa_pub :=
  match unmarshal_int_map (raw (EDeviceKeyBytes (de_Security de))) with
  | None => Err QDecode
  | Some keyMap =>
      pub ← map_err QKey (ToPublicKey (FromMap keyMap));
      match pub with PubEC key => Ok key | _ => Err QNotECDSA end
  end.
End engagement.

(** ** The codec is the standard one *)

(** Shifted bytes do not overlap. *)
Lemma lor_shiftl a b n : 0 ≤ n → 0 ≤ b < 2 ^ n → Z.lor (Z.shiftl a n) b = a * 2 ^ n + b.
Proof.
  intros Hn Hb. rewrite <- Z.shiftl_mul_pow2 by done. rewrite <- Z.add_lor_land.
  assert (Z.land (Z.shiftl a n) b = 0) as ->; [|lia].
  apply Z.bits_inj'. intros i Hi. rewrite Z.land_spec, Z.shiftl_spec, Z.bits_0 by done.
  destruct (Z.lt_ge_cases i n); [by rewrite Z.testbit_neg_r by lia|].
  destruct (decide (b = 0)) as [->|]; [by rewrite Z.bits_0, andb_false_r|].
  rewrite (Z.bits_above_log2 b i), andb_false_r; [done|lia|]. apply Z.log2_lt_pow2; [lia|].
  eapply Z.lt_le_trans; [apply Hb|]. apply Z.pow_le_mono_r; lia.
Qed.

Lemma group_value a b c :
  in_uint8 b → in_uint8 c → Z.lor (Z.lor (Z.shiftl a 16) (Z.shiftl b 8)) c = a * 65536 + b * 256 + c.
Proof.
  unfold in_uint8. intros Hb Hc. rewrite (Z.shiftl_mul_pow2 b) by lia. rewrite (lor_shiftl a (b * 2 ^ 8)) by lia.
  replace (a * 2 ^ 16 + b * 2 ^ 8) with (Z.shiftl (a * 256 + b) 8) by (rewrite Z.shiftl_mul_pow2; lia).
  rewrite lor_shiftl by lia. lia.
Qed.

Lemma sextet_enc6 v n : 0 ≤ n → sextet v n = RawURLEncoding.enc6 (v / 2 ^ n mod 64).
Proof. intros Hn. unfold sextet. rewrite Z.shiftr_div_pow2 by done. change 63 with (Z.ones 6). by rewrite Z.land_ones. Qed.

Lemma encode_groups_standard data : Forall in_uint8 data → encode_groups data = RawURLEncoding.encode data.
Proof.
  induction data as [|a|a b|a b c data IH] using RawURLEncoding.list_ind3; intros Hl; [done|..];
    repeat match goal with H : Forall _ (_ :: _) |- _ => apply Forall_cons in H as [? H] end;
    cbn [encode_groups RawURLEncoding.encode].
  all: rewrite ?(group_value a b c), ?IH by done.
  all: try replace (Z.lor (Z.shiftl a 16) (Z.shiftl b 8)) with (a * 65536 + b * 256)
    by (rewrite <- (Z.lor_0_r (Z.lor _ _)), group_value by (done || (unfold in_uint8; lia)); lia).
  all: rewrite ?(Z.shiftl_mul_pow2 a) by lia; rewrite !sextet_enc6 by lia.
  all: repeat f_equal; unfold in_uint8 in *; Z.div_mod_to_equations; lia.
Qed.

Lemma char_value_dec6 c : char_value c = RawURLEncoding.dec6 c.
Proof. destruct c as [[] [] [] [] [] [] [] []]; vm_compute; reflexivity. Qed.

Lemma char_value_range c v : char_value c = Some v → 0 ≤ v < 64.
Proof.
  unfold char_value. intros Hv.
  assert (forallb (fun v => bool_decide (v = 255) || (0 <=? v) && (v <? 64)) decodeURL = true) as Hall by (vm_compute; reflexivity).
  destruct (decodeURL !! nat_of_ascii c) as [w|] eqn:E; [|done].
  apply list_elem_of_lookup_2, list_elem_of_In in E. rewrite forallb_forall in Hall. apply Hall in E. clear Hall.
  destruct (bool_decide (w = 255)); [done|]. injection Hv as ->. cbn in E.
  apply andb_true_iff in E as [?%Z.leb_le ?%Z.ltb_lt]. lia.
Qed.

Definition plain (c : ascii) : Prop := c ≠ "="%char.
Definition readable (l : list ascii) : bool := forallb (fun c => bool_decide (is_Some (char_value c))) l.

Lemma list_ind4 {A} (P : list A → Prop) :
  P [] → (∀ a, P [a]) → (∀ a b, P [a; b]) → (∀ a b c, P [a; b; c]) →
  (∀ a b c d r, P r → P (a :: b :: c :: d :: r)) → ∀ l, P l.
Proof.
  intros H0 H1 H2 H3 H4 l.
  enough (P l ∧ (∀ a, P (a :: l)) ∧ (∀ a b, P (a :: b :: l)) ∧ (∀ a b c, P (a :: b :: c :: l))) by tauto.
  induction l as [|x l (I0 & I1 & I2 & I3)]; repeat split; auto.
Qed.

Lemma pad_group_cons a b c d r : pad_group (a :: b :: c :: d :: r) = a :: b :: c :: d :: pad_group r.
Proof.
  unfold pad_group. cbn [length]. replace (S (S (S (S (length r)))) mod 4)%nat with (length r mod 4)%nat
    by (rewrite <- (Nat.Div0.add_mod_idemp_l 4 (length r) 4) at 1; done).
  by destruct (length r mod 4)%nat as [|[|[|[]]]].
Qed.

(** One character of a group *)
Lemma decode_group_char left c s val :
  plain c → decode_group (S left) (c :: s) val =
    match RawURLEncoding.dec6 c with
    | None => Err QChar
    | Some v => decode_group left s (val * 64 + v)
    end.
Proof.
  intros Hc. cbn [decode_group]. rewrite bool_decide_eq_false_2 by done. rewrite <- char_value_dec6.
  destruct (char_value c) as [v|] eqn:Ev; [|done]. apply char_value_range in Ev. by rewrite lor_shiftl by lia.
Qed.

Lemma decode_group_pad left s val last :
  at_padding left val = Some last → decode_group left ("="%char :: s) val = Ok (inr last).
Proof. intros E. destruct left; [done|]. cbn [decode_group]. by rewrite bool_decide_eq_true_2, E. Qed.

Lemma readable_cons c l : readable (c :: l) = match RawURLEncoding.dec6 c with Some _ => readable l | None => false end.
Proof. unfold readable. cbn [forallb]. rewrite <- char_value_dec6. destruct (char_value c); reflexivity. Qed.

Lemma dec6_range c v : RawURLEncoding.dec6 c = Some v → 0 ≤ v < 64.
Proof. rewrite <- char_value_dec6. apply char_value_range. Qed.

Ltac group_cbn := cbn -[decode_group readable put byte Z.mul Z.add Z.shiftl Z.shiftr RawURLEncoding.dec6 RawURLEncoding.quad Nat.div].
Ltac read_char :=
  rewrite decode_group_char by done; rewrite readable_cons;
  lazymatch goal with |- context [RawURLEncoding.dec6 ?c] =>
    let v := fresh "v" in destruct (RawURLEncoding.dec6 c) as [v|] eqn:?; [group_cbn|group_cbn; done] end.
Ltac group_bytes :=
  repeat match goal with E : RawURLEncoding.dec6 _ = Some _ |- _ => apply dec6_range in E end;
  unfold byte, RawURLEncoding.quad; rewrite ?Z.shiftr_div_pow2, ?Z.shiftl_mul_pow2 by lia;
  repeat f_equal; Z.div_mod_to_equations; lia.

Lemma put_Ok size acc bytes : (length acc + length bytes ≤ size)%nat → put size acc bytes = Ok (acc ++ bytes)%list.
Proof. intros. unfold put. by rewrite bool_decide_eq_true_2. Qed.

(** The loops read what the standard decoding reads, every character first. *)
Lemma decode_groups_spec l : ∀ acc size, Forall plain l → (length acc + length (pad_group l) / 4 * 3 ≤ size)%nat →
  decode_groups size (pad_group l) acc =
    if readable l then match RawURLEncoding.decode l with Some b => Ok (acc ++ b)%list | None => Err QPanic end else Err QChar.
Proof.
  induction l as [|a|a b|a b c|a b c d r IH] using list_ind4; intros acc size Hl Hs;
    repeat match goal with H : Forall _ (_ :: _) |- _ => apply Forall_cons in H as [? H] end.
  - cbn. by rewrite app_nil_r.
  - group_cbn. by read_char.
  - group_cbn. do 2 read_char. erewrite decode_group_pad by reflexivity. cbn [mbind result_bind].
    rewrite put_Ok by (cbn in *; lia). do 2 f_equal. group_bytes.
  - group_cbn. do 3 read_char. erewrite decode_group_pad by reflexivity. cbn [mbind result_bind].
    rewrite put_Ok by (cbn in *; lia). do 2 f_equal. group_bytes.
  - rewrite pad_group_cons in Hs |- *. group_cbn. do 4 read_char.
    assert (length acc + 3 + length (pad_group r) / 4 * 3 ≤ size)%nat as Hs'.
    { cbn [length] in Hs. replace (S (S (S (S (length (pad_group r)))))) with (length (pad_group r) + 1 * 4)%nat in Hs by lia.
      rewrite Nat.div_add in Hs by done. lia. }
    cbn [decode_group mbind result_bind]. rewrite put_Ok by (unfold val_bytes; cbn [length]; lia). cbn [mbind result_bind].
    rewrite IH by (done || (rewrite length_app; unfold val_bytes; cbn [length]; lia)).
    destruct (readable r); [|done]. destruct (RawURLEncoding.decode r) as [t|]; [|done]. group_cbn.
    rewrite <- app_assoc. do 2 f_equal. unfold val_bytes. cbn [app].
    f_equal; group_bytes.
Qed.

Lemma base64URLDecode_unpadded s :
  Forall plain (String.list_ascii_of_string s) →
  base64URLDecode s =
    if readable (String.list_ascii_of_string s) then
      match RawURLEncoding.decode (String.list_ascii_of_string s) with Some b => Ok b | None => Err QPanic end
    else Err QChar.
Proof. intros Hs. unfold base64URLDecode. rewrite decode_groups_spec; [done|done|cbn [length]; lia]. Qed.

Lemma decode_None l : readable l = true → RawURLEncoding.decode l = None ↔ (length l mod 4 = 1)%nat.
Proof.
  induction l as [|a|a b|a b c|a b c d r IH] using list_ind4; [done| | | |];
    rewrite !readable_cons; cbn [RawURLEncoding.decode length];
    repeat (destruct (RawURLEncoding.dec6 _); [cbn [mbind option_bind]|done]); [done..|].
  intros Hr%IH. replace (S (S (S (S (length r)))) mod 4)%nat with (length r mod 4)%nat
    by (rewrite <- (Nat.Div0.add_mod_idemp_l 4 (length r) 4) at 1; done).
  rewrite <- Hr. by destruct (RawURLEncoding.decode r).
Qed.

(** The encoder by hand is the standard base64url encoder.  The decoder, on a
    text without padding characters, reads what the standard decoder reads; a
    character outside the alphabet is an error wherever it stands; and a text of
    valid characters that the standard decoder refuses, which is one whose
    length is one more than a multiple of four, makes it panic. *)
Theorem base64_by_hand :
  (∀ data, Forall in_uint8 data → base64URLEncode data = RawURLEncoding.EncodeToString data) ∧
  (∀ s, Forall plain (String.list_ascii_of_string s) →
     base64URLDecode s =
       if readable (String.list_ascii_of_string s) then
         match RawURLEncoding.decode (String.list_ascii_of_string s) with Some b => Ok b | None => Err QPanic end
       else Err QChar) ∧
  (∀ l, readable l = true → RawURLEncoding.decode l = None ↔ (length l mod 4 = 1)%nat).
Proof.
  split_and!; [|exact base64URLDecode_unpadded|exact decode_None].
  intros data Hd. unfold base64URLEncode. by rewrite encode_groups_standard.
Qed.

Lemma encode_groups_plain data : Forall in_uint8 data → Forall plain (encode_groups data).
Proof.
  intros Hd. rewrite encode_groups_standard by done.
  assert (∀ v, 0 ≤ v < 64 → plain (RawURLEncoding.enc6 v)) as Hp.
  { intros v Hv E. apply RawURLEncoding.dec6_enc6 in Hv. by rewrite E in Hv. }
  induction data as [|a|a b|a b c data IH] using RawURLEncoding.list_ind3;
    repeat match goal with H : Forall _ (_ :: _) |- _ => apply Forall_cons in H as [? H] end;
    RawURLEncoding.b64_cbn; repeat (apply Forall_cons; split); try (apply Hp; RawURLEncoding.bytes); auto.
Qed.

Lemma readable_encode data : Forall in_uint8 data → readable (encode_groups data) = true.
Proof.
  intros Hd. rewrite encode_groups_standard by done.
  induction data as [|a|a b|a b c data IH] using RawURLEncoding.list_ind3;
    repeat match goal with H : Forall _ (_ :: _) |- _ => apply Forall_cons in H as [? H] end;
    cbn [RawURLEncoding.encode]; cbv zeta; rewrite ?readable_cons, ?RawURLEncoding.dec6_enc6 by RawURLEncoding.bytes; auto.
Qed.

Lemma base64URL_roundtrip data : Forall in_uint8 data → base64URLDecode (base64URLEncode data) = Ok data.
Proof.
  intros Hd. unfold base64URLDecode, base64URLEncode. rewrite String.list_ascii_of_string_of_list_ascii.
  rewrite decode_groups_spec; [|by apply encode_groups_plain|cbn [length]; lia].
  by rewrite readable_encode, encode_groups_standard, RawURLEncoding.decode_encode.
Qed.

(** ** QR codes *)

Lemma substring_app s t : String.substring 0 (String.length s) (s +:+ t) = s.
Proof. induction s as [|c s IH]; [by destruct t|].
  simpl. f_equal. exact IH. Qed.

Lemma substring_drop s t : String.substring (String.length s) (String.length (s +:+ t) - String.length s) (s +:+ t) = t.
Proof.
  induction s as [|c s IH]; [|exact IH]. simpl. rewrite Nat.sub_0_r.
  induction t as [|c t IH]; [done|]. simpl. f_equal. exact IH.
Qed.

Lemma ParseQRCode_mdoc `{EngagementCBOR} s :
  s ≠ "" → ParseQRCode ("mdoc:" +:+ s) =
    (decoded ← base64URLDecode s; match unmarshal_engagement decoded with Some de => Ok de | None => Err QDecode end).
Proof.
  intros Hs. unfold ParseQRCode.
  rewrite (bool_decide_eq_false_2 (_ < 6)%nat) by (destruct s; [done|simpl; lia]).
  rewrite (bool_decide_eq_true_2 (_ = "mdoc:")) by exact (substring_app "mdoc:" s). cbn [orb negb].
  pose proof (substring_drop "mdoc:" s) as E. change (String.length "mdoc:") with 5%nat in E. by rewrite E.
Qed.

(** The engagement a device shows as a QR code is the one a reader scans, with
    the options of its retrieval methods as the library reads them. *)
Theorem qr_roundtrip `{EngagementCBORLaws} de qr :
  DeviceEngagementToQRCode de = Ok qr → ParseQRCode qr = Ok (received_engagement de).
Proof.
  unfold DeviceEngagementToQRCode. destruct (marshal_engagement de) as [data|] eqn:E; [|done]. intros [= <-].
  destruct (engagement_roundtrip _ _ E) as (Hne & Hb & Hu).
  rewrite ParseQRCode_mdoc by (destruct data as [|? [|? [|]]]; done). by rewrite base64URL_roundtrip; [cbn; rewrite Hu|].
Qed.

(** A scanned text whose length behind the prefix is one more than a multiple
    of four, of characters in the alphabet, makes the reader panic. *)
Theorem qr_panics `{EngagementCBOR} s :
  Forall plain (String.list_ascii_of_string s) → readable (String.list_ascii_of_string s) = true →
  (String.length s mod 4 = 1)%nat → ParseQRCode ("mdoc:" +:+ s) = Err QPanic.
Proof.
  intros Hp Hr Hl. rewrite ParseQRCode_mdoc by (by intros ->).
  rewrite base64URLDecode_unpadded, Hr by done.
  assert (∀ s, length (String.list_ascii_of_string s) = String.length s) as Hlen by (clear; induction s as [|c s IH]; simpl; [done|by rewrite IH]).
  apply decode_None in Hr as [_ Hr]. rewrite Hr by (by rewrite Hlen). done.
Qed.

(** ** The key in an engagement *)

Section keys.
Context `{CBORLaws}.

Lemma WithEphemeralKey_Ok b key b' :
  WithEphemeralKey b key = Ok b' →
  ∃ keyBytes tagged, EDeviceKeyBytes (de_Security (engagement b')) = Some tagged ∧ cbor_marshal (CBytes keyBytes) = Some tagged.
Proof.
  unfold WithEphemeralKey. intros (k & _ & (kb & _ & (t & Ht & [= <-])%bind_Ok)%bind_Ok)%bind_Ok. exists kb, t. cbn.
  by destruct (WrapInEncodedCBOR (CBytes kb)) eqn:E; [injection Ht as ->|].
Qed.

(** The key a device puts into its engagement is not one a reader can take
    out of it: the builder wraps the encoded key in a byte string, which is not
    the map the reader expects; and the map itself would not do either, because
    the key type in it is decoded as an unsigned integer, which [FromMap] skips. *)
Theorem engagement_key_unreadable b key b' k kb de :
  WithEphemeralKey b key = Ok b' →
  COSEKey_Bytes k = Some kb → 0 ≤ Kty k → EDeviceKeyBytes (de_Security de) = Some kb →
  ExtractEDeviceKey (engagement b') = Err QDecode ∧
  ExtractEDeviceKey de = Err (QKey EKeyType).
Proof.
  intros (keyBytes & tagged & Hs & Hm)%WithEphemeralKey_Ok Hk Hkty Hde. unfold ExtractEDeviceKey, unmarshal_int_map. split.
  - rewrite Hs. cbn [raw from_option]. unfold id. by rewrite (cbor_roundtrip _ _ Hm).
  - rewrite Hde. cbn [raw from_option]. unfold id. unfold COSEKey_Bytes in Hk.
    rewrite (cbor_roundtrip _ _ Hk). cbn [norm]. rewrite int_keys_norm. unfold ToPublicKey.
    match goal with |- context [FromMap ?m] => assert (Kty (FromMap m) = 0) as -> end; [|done].
    unfold FromMap. cbn [Kty app map fst snd zget norm]. rewrite (bool_decide_eq_true_2 (1 = 1)) by done.
    unfold norm_int. by rewrite bool_decide_eq_true_2.
Qed.
End keys.
