(* ===== verification/MdocSession.v ===== *)
(** * Session encryption between a device and a reader

    [pkg/mdoc/engagement.go]: the session keys both sides derive from an ECDH
    secret, the encryption of messages under counters, and the session
    transcript; [device_auth.go]: the key of a device's MAC.

    The curve operations and AES-GCM are interfaces; HMAC and HKDF are the
    file's own code over SHA-256.  [ScalarMult] panics on a point that is not on
    the curve.  A counter is a [uint32] and wraps around. *)

From stdpp Require Import functions.
From S2P Require Import Prelude Bytes Base64 GoStrings Utf8 TokenStatusList TokenStatusListCWT Cose MdocSchema Mdoc MdocEngagement.

Inductive session_error := SPanic | SKeyLength | SNonceLength | SDecrypt | SNoSession | SEncode.

(** ** Interfaces *)

(** [elliptic.Curve]: the points are given by their coordinates. *)
Class ECDH := {
  scalar_base_mult : curve → Z → Z * Z;
  scalar_mult : curve → Z * Z → Z → option (Z * Z) }.

(** Both sides come to the same point, whose coordinates have the size of the
    curve. *)
Class ECDHLaws `{ECDH} : Prop := {
  mult_agree : ∀ c d e, c ≠ OtherCurve →
    ∃ x y, scalar_mult c (scalar_base_mult c d) e = Some (x, y) ∧ scalar_mult c (scalar_base_mult c e) d = Some (x, y) ∧
      0 ≤ x < 2 ^ curve_size c }.

(** AES-256-GCM with a key of 32 bytes and a nonce of 12 *)
Class AESGCM := {
  gcm_seal : list Z → list Z → list Z → list Z → list Z;
  gcm_open : list Z → list Z → list Z → list Z → option (list Z) }.

(** What was sealed opens, and only a sealing opens. *)
Class AESGCMLaws `{AESGCM} : Prop := {
  open_seal : ∀ k n p a, gcm_open k n (gcm_seal k n p a) a = Some p;
  seal_open : ∀ k n c a p, gcm_open k n c a = Some p → gcm_seal k n p a = c }.

Class SHA256Laws `{CoseCrypto} : Prop := { sha256_size : ∀ b, length (digest SHA256 b) = 32%nat }.

(** ** Keys *)

Section keys.
Context `{CoseCrypto} `{ECDH}.

Definition blockSize : nat := 64.

Definition hmacSHA256 (key data : list Z) : list Z :=
  let key := if bool_decide (blockSize < length key)%nat then digest SHA256 key else key in
  let key := if bool_decide (length key < blockSize)%nat then (key ++ replicate (blockSize - length key) 0)%list else key in
  let ipad := map (fun b => Z.lxor b 0x36) (take blockSize key) in
  let opad := map (fun b => Z.lxor b 0x5c) (take blockSize key) in
  digest SHA256 (opad ++ digest SHA256 (ipad ++ data))%list.

(** The rounds [i], ..., [i + n - 1] of the expansion *)
Fixpoint hkdf_expand (prk info prev : list Z) (i : Z) (n : nat) : list Z :=
  match n with
  | O => []
  | S n => let prev := hmacSHA256 prk (prev ++ info ++ [byte i])%list in
           (prev ++ hkdf_expand prk info prev (i + 1) n)%list
  end.

Definition hkdfDerive (secret salt info : list Z) (len : nat) : list Z :=
  let prk := hmacSHA256 salt secret in
  let hashLen := 32%nat in
  let n := ((len + hashLen - 1) / hashLen)%nat in
  take len (hkdf_expand prk info [] 1 n).

(** [FillBytes] into the width of the curve: a panic when it does not fit *)
Definition ecdhSharedSecret (c : curve) (x : Z) : option (list Z) :=
  let width := Z.to_nat ((curve_size c + 7) / 8) in
  let b := big_bytes (Z.abs x) in
  if bool_decide (width < length b)%nat then None else Some (pad_coordinate width b).

Record SessionEncryption := mkSession {
  sharedSecret : list Z;
  skReader : list Z;
  skDevice : list Z;
  readerNonce : Z;
  deviceNonce : Z;
  isReader : bool }.

Definition text (s : string) : list Z := str_bytes s.

Definition newSessionEncryption (priv : private_key) (pub : ecdsa_pub) (sessionTranscript : list Z) (isReader : bool) :
    result session_error SessionEncryption :=
  let c := pub_Curve (priv_Public priv) in
  match scalar_mult c (pub_X pub, pub_Y pub) (priv_D priv) with
  | None => Err SPanic
  | Some (x, _) =>
      match ecdhSharedSecret c x with
      | None => Err SPanic
      | Some secret =>
          Ok (mkSession secret (hkdfDerive secret sessionTranscript (text "SKReader") 32)
                (hkdfDerive secret sessionTranscript (text "SKDevice") 32) 1 1 isReader)
      end
  end.

Definition NewSessionEncryptionDevice (eDevicePriv : private_key) (eReaderPub : ecdsa_pub) (sessionTranscript : list Z) :
    result session_error SessionEncryption := newSessionEncryption eDevicePriv eReaderPub sessionTranscript false.
Definition NewSessionEncryptionReader (eReaderPriv : private_key) (eDevicePub : ecdsa_pub) (sessionTranscript : list Z) :
    result session_error SessionEncryption := newSessionEncryption eReaderPriv eDevicePub sessionTranscript true.

Definition DeriveDeviceAuthenticationKey (s : option SessionEncryption) : result session_error (list Z) :=
  match s with
  | None => Err SNoSession
  | Some s => Ok (hkdfDerive (sharedSecret s) [] (text "EMacKey") 32)
  end.
End keys.

(** ** Messages *)

Section messages.
Context `{AESGCM}.

Definition aes256GCMEncrypt (key nonce plaintext additionalData : list Z) : result session_error (list Z) :=
  if negb (bool_decide (length key = 32%nat)) then Err SKeyLength else
  if negb (bool_decide (length nonce = 12%nat)) then Err SNonceLength else
  Ok (gcm_seal key nonce plaintext additionalData).

Definition aes256GCMDecrypt (key nonce ciphertext additionalData : list Z) : result session_error (list Z) :=
  if negb (bool_decide (length key = 32%nat)) then Err SKeyLength else
  if negb (bool_decide (length nonce = 12%nat)) then Err SNonceLength else
  match gcm_open key nonce ciphertext additionalData with Some plaintext => Ok plaintext | None => Err SDecrypt end.

Definition nonceBytes (n : Z) : list Z := (replicate 8 0 ++ be_fixed 4 n)%list.
Definition uint32_succ (n : Z) : Z := (n + 1) mod 2 ^ 32.

Definition set_readerNonce (s : SessionEncryption) (n : Z) : SessionEncryption :=
  mkSession (sharedSecret s) (skReader s) (skDevice s) n (deviceNonce s) (isReader s).
Definition set_deviceNonce (s : SessionEncryption) (n : Z) : SessionEncryption :=
  mkSession (sharedSecret s) (skReader s) (skDevice s) (readerNonce s) n (isReader s).

(** The counter advances before the cipher is called, also when it fails. *)
Definition Encrypt (s : SessionEncryption) (plaintext : list Z) : SessionEncryption * result session_error (list Z) :=
  if isReader s then
    (set_readerNonce s (uint32_succ (readerNonce s)), aes256GCMEncrypt (skReader s) (nonceBytes (readerNonce s)) plaintext [])
  else
    (set_deviceNonce s (uint32_succ (deviceNonce s)), aes256GCMEncrypt (skDevice s) (nonceBytes (deviceNonce s)) plaintext []).

Definition Decrypt (s : SessionEncryption) (ciphertext : list Z) : SessionEncryption * result session_error (list Z) :=
  if isReader s then
    (set_deviceNonce s (uint32_succ (deviceNonce s)), aes256GCMDecrypt (skDevice s) (nonceBytes (deviceNonce s)) ciphertext [])
  else
    (set_readerNonce s (uint32_succ (readerNonce s)), aes256GCMDecrypt (skReader s) (nonceBytes (readerNonce s)) ciphertext []).
End messages.

(** [BuildSessionTranscript]: a struct [TaggedCBOR] is written as an array of its
    one field. *)
Definition BuildSessionTranscript `{CBOR} (deviceEngagement eReaderKeyBytes handover : gobytes) : option (list Z) :=
  cbor_marshal (CArr [CArr [cbytes deviceEngagement]; CArr [cbytes eReaderKeyBytes]; cbytes handover]).

(** ** Both sides derive the same keys *)

Section agreement.
Context `{CoseCrypto} `{ECDH} `{!SHA256Laws} `{!ECDHLaws}.

Lemma hkdf_expand_length prk info prev i n : length (hkdf_expand prk info prev i n) = (n * 32)%nat.
Proof.
  revert prev i. induction n as [|n IH]; intros prev i; [done|]. cbn [hkdf_expand].
  rewrite length_app, IH. unfold hmacSHA256. rewrite sha256_size. lia.
Qed.

Lemma hkdfDerive_length secret salt info len : length (hkdfDerive secret salt info len) = len.
Proof.
  unfold hkdfDerive. rewrite length_take, hkdf_expand_length.
  pose proof (Nat.div_mod_eq (len + 32 - 1) 32). pose proof (Nat.mod_upper_bound (len + 32 - 1) 32). lia.
Qed.

(** A private key with its public half *)
Definition key_pair (c : curve) (priv : private_key) : Prop :=
  pub_Curve (priv_Public priv) = c ∧
  (pub_X (priv_Public priv), pub_Y (priv_Public priv)) = scalar_base_mult c (priv_D priv).

(** Two sessions that belong together *)
Record paired (device reader : SessionEncryption) : Prop := {
  paired_device : isReader device = false;
  paired_reader : isReader reader = true;
  paired_skReader : skReader device = skReader reader;
  paired_skDevice : skDevice device = skDevice reader;
  paired_lengths : length (skReader reader) = 32%nat ∧ length (skDevice reader) = 32%nat;
  paired_counters : readerNonce device = readerNonce reader ∧ deviceNonce device = deviceNonce reader }.

(** A device and a reader that exchange the public halves of their ephemeral
    keys on one curve, and take the same transcript, set up their sessions
    without failing, with the same secret of the width of the curve, the same
    two keys of 32 bytes and counters at one; and they derive the same key for
    the device's MAC, whatever the transcript. *)
Theorem session_agreed c device reader transcript transcript' :
  c ≠ OtherCurve → key_pair c device → key_pair c reader →
  ∃ d r r',
    NewSessionEncryptionDevice device (priv_Public reader) transcript = Ok d ∧
    NewSessionEncryptionReader reader (priv_Public device) transcript = Ok r ∧
    NewSessionEncryptionReader reader (priv_Public device) transcript' = Ok r' ∧
    paired d r ∧ sharedSecret d = sharedSecret r ∧ length (sharedSecret d) = coordinate_bytes c ∧
    readerNonce d = 1 ∧ deviceNonce d = 1 ∧
    DeriveDeviceAuthenticationKey (Some d) = DeriveDeviceAuthenticationKey (Some r').
Proof.
  intros Hc [Hd Hd'] [Hr Hr']. unfold NewSessionEncryptionDevice, NewSessionEncryptionReader, newSessionEncryption.
  rewrite Hd, Hr, Hd', Hr'. destruct (mult_agree c (priv_D device) (priv_D reader) Hc) as (x & y & -> & -> & Hx).
  unfold ecdhSharedSecret. rewrite Z.abs_eq by lia. fold (coordinate_bytes c).
  assert (2 ^ curve_size c ≤ 256 ^ Z.of_nat (coordinate_bytes c)) as Hle by (destruct c; done).
  pose proof (big_bytes_length x (coordinate_bytes c) ltac:(lia)).
  rewrite bool_decide_eq_false_2 by lia. eexists _, _, _. do 3 (split; [reflexivity|]).
  split; [split; cbn -[hkdfDerive]; rewrite ?hkdfDerive_length; auto|]. cbn -[hkdfDerive].
  split_and!; try done. by apply pad_coordinate_spec; lia.
Qed.
End agreement.

(** ** The channel *)

Inductive party := Reader | Device.
#[global] Instance party_eq : EqDecision party.
Proof. solve_decision. Defined.
Definition other (p : party) : party := match p with Reader => Device | Device => Reader end.

(** The two sessions, and the messages on their way to each party *)
Record channel := mkChannel { session : party → SessionEncryption; wire : party → list (list Z) }.

Inductive event := Sent (p : party) (m : list Z) | Received (p : party) (m : list Z) | Refused (p : party).

Inductive step `{AESGCM} : channel → event → channel → Prop :=
| step_send st p m s c :
    Encrypt (session st p) m = (s, Ok c) →
    step st (Sent p m) (mkChannel (<[p := s]> (session st)) (<[other p := (wire st (other p) ++ [c])%list]> (wire st)))
| step_receive st p c q s m :
    wire st p = c :: q → Decrypt (session st p) c = (s, Ok m) →
    step st (Received p m) (mkChannel (<[p := s]> (session st)) (<[p := q]> (wire st)))
| step_refuse st p c q s e :
    wire st p = c :: q → Decrypt (session st p) c = (s, Err e) →
    step st (Refused p) (mkChannel (<[p := s]> (session st)) (<[p := q]> (wire st))).

Inductive run `{AESGCM} (st : channel) : list event → channel → Prop :=
| run_nil : run st [] st
| run_snoc tr st' e st'' : run st tr st' → step st' e st'' → run st (tr ++ [e])%list st''.

(** What it promises: a queue of messages to each party *)
Inductive fifo_step : (party → list (list Z)) → event → (party → list (list Z)) → Prop :=
| fifo_send q p m : fifo_step q (Sent p m) (<[other p := (q (other p) ++ [m])%list]> q)
| fifo_receive q p m rest : q p = m :: rest → fifo_step q (Received p m) (<[p := rest]> q).

Inductive fifo_run : list event → (party → list (list Z)) → Prop :=
| fifo_nil : fifo_run [] (fun _ => [])
| fifo_snoc tr q e q' : fifo_run tr q → fifo_step q e q' → fifo_run (tr ++ [e])%list q'.

Definition established (device reader : SessionEncryption) : channel :=
  mkChannel (fun p => match p with Reader => reader | Device => device end) (fun _ => []).

(** The key for messages to a party, and the counters of the two sides *)
Definition key_to (p : party) (s : SessionEncryption) : list Z := match p with Device => skReader s | Reader => skDevice s end.
Definition counter_to (p : party) (s : SessionEncryption) : Z := match p with Device => readerNonce s | Reader => deviceNonce s end.
Definition set_counter (p : party) (s : SessionEncryption) (n : Z) : SessionEncryption :=
  match p with Device => set_readerNonce s n | Reader => set_deviceNonce s n end.

Definition role (p : party) (s : SessionEncryption) : Prop :=
  isReader s = match p with Reader => true | Device => false end.

Lemma set_counter_other p s n :
  (role p s → role p (set_counter p s n)) ∧ key_to p (set_counter p s n) = key_to p s ∧ counter_to p (set_counter p s n) = n.
Proof. by destruct p. Qed.

Section channel.
Context `{AESGCMLaws}.

Lemma Encrypt_to p s m :
  role p s → length (key_to (other p) s) = 32%nat →
  Encrypt s m = (set_counter (other p) s (uint32_succ (counter_to (other p) s)),
                 Ok (gcm_seal (key_to (other p) s) (nonceBytes (counter_to (other p) s)) m [])).
Proof. intros Hr Hk. unfold Encrypt, aes256GCMEncrypt. destruct p; cbn in *; rewrite Hr, bool_decide_eq_true_2 by done; done. Qed.

Lemma Decrypt_to p s c :
  role p s → length (key_to p s) = 32%nat →
  Decrypt s c = (set_counter p s (uint32_succ (counter_to p s)),
                 match gcm_open (key_to p s) (nonceBytes (counter_to p s)) c [] with Some m => Ok m | None => Err SDecrypt end).
Proof. intros Hr Hk. unfold Decrypt, aes256GCMDecrypt. destruct p; cbn in *; rewrite Hr, bool_decide_eq_true_2 by done; done. Qed.

(** The messages [ms], sealed under consecutive counters from [n] on *)
Fixpoint sealed (k : list Z) (n : Z) (ms : list (list Z)) : list (list Z) :=
  match ms with
  | [] => []
  | m :: ms => gcm_seal k (nonceBytes n) m [] :: sealed k (uint32_succ n) ms
  end.
Fixpoint after (n : Z) (k : nat) : Z := match k with O => n | S k => after (uint32_succ n) k end.

Lemma sealed_snoc k n ms m : sealed k n (ms ++ [m]) = (sealed k n ms ++ [gcm_seal k (nonceBytes (after n (length ms))) m []])%list.
Proof. revert n. induction ms as [|x ms IH]; intros n; cbn; [done|]. by rewrite IH. Qed.
Lemma after_snoc n k : after n (S k) = uint32_succ (after n k).
Proof. revert n. induction k as [|k IH]; intros n; [done|]. cbn [after] in *. by rewrite IH. Qed.

(** The invariant: for each party the receiver's counter and the queue determine
    the messages on their way, and the sender's counter is past them. *)
Record in_step (st : channel) (q : party → list (list Z)) : Prop := {
  ins_role : ∀ p, role p (session st p);
  ins_key : ∀ p, key_to p (session st p) = key_to p (session st (other p));
  ins_length : ∀ p, length (key_to p (session st p)) = 32%nat;
  ins_wire : ∀ p, wire st p = sealed (key_to p (session st p)) (counter_to p (session st p)) (q p);
  ins_counter : ∀ p, counter_to p (session st (other p)) = after (counter_to p (session st p)) (length (q p)) }.

Lemma in_step_established device reader : paired device reader → in_step (established device reader) (fun _ => []).
Proof. intros [? ? ? ? [? ?] [? ?]]. split; intros []; cbn; congruence. Qed.

(** What a step does not change *)
Ltac unchanged Hi :=
  first [ apply (ins_role _ _ Hi Reader) | apply (ins_role _ _ Hi Device) | apply (ins_key _ _ Hi Reader) | apply (ins_key _ _ Hi Device)
        | apply (ins_length _ _ Hi Reader) | apply (ins_length _ _ Hi Device) | apply (ins_wire _ _ Hi Reader) | apply (ins_wire _ _ Hi Device)
        | apply (ins_counter _ _ Hi Reader) | apply (ins_counter _ _ Hi Device) ].

Definition sends (st : channel) (p : party) (s : SessionEncryption) (c : list Z) : channel :=
  mkChannel (<[p := s]> (session st)) (<[other p := (wire st (other p) ++ [c])%list]> (wire st)).
Definition receives (st : channel) (p : party) (s : SessionEncryption) (w : list (list Z)) : channel :=
  mkChannel (<[p := s]> (session st)) (<[p := w]> (wire st)).

Lemma in_step_send st q p m :
  in_step st q →
  ∃ s c, Encrypt (session st p) m = (s, Ok c) ∧ in_step (sends st p s c) (<[other p := (q (other p) ++ [m])%list]> q).
Proof.
  intros Hi. pose proof (ins_length _ _ Hi (other p)) as Hl. rewrite (ins_key _ _ Hi (other p)) in Hl.
  assert (other (other p) = p) as Hoo by (by destruct p). rewrite Hoo in Hl.
  eexists _, _. split; [by apply Encrypt_to; [apply Hi|]|].
  pose proof (ins_counter _ _ Hi (other p)) as Hc. pose proof (ins_wire _ _ Hi (other p)) as Hw.
  pose proof (ins_key _ _ Hi (other p)) as Hk. rewrite Hoo in Hc, Hk.
  split; intros p'; destruct p, p'; cbn -[nonceBytes] in *; try unchanged Hi.
  all: rewrite ?fn_lookup_insert, ?fn_lookup_insert_ne by done; rewrite ?sealed_snoc, ?length_app, ?Nat.add_1_r, ?after_snoc; cbn -[nonceBytes]; congruence.
Qed.

Lemma in_step_receive st q p m rest :
  in_step st q → q p = m :: rest →
  ∃ c w s, wire st p = c :: w ∧ Decrypt (session st p) c = (s, Ok m) ∧ in_step (receives st p s w) (<[p := rest]> q).
Proof.
  intros Hi Hq. pose proof (ins_wire _ _ Hi p) as Hw. rewrite Hq in Hw. cbn [sealed] in Hw.
  eexists _, _, _. split; [exact Hw|]. split.
  { rewrite (Decrypt_to p); [by rewrite open_seal|apply Hi|apply Hi]. }
  pose proof (ins_counter _ _ Hi p) as Hc. rewrite Hq in Hc.
  split; intros p'; destruct p, p'; cbn -[nonceBytes] in *; try done; unchanged Hi.
Qed.

(** Every step is one of the queues. *)
Lemma in_step_step st q e st' :
  in_step st q → step st e st' → ∃ q', fifo_step q e q' ∧ in_step st' q'.
Proof.
  intros Hi Hs. destruct Hs as [st p m s c He|st p c w s m Hw Hd|st p c w s e Hw Hd].
  - destruct (in_step_send st q p m Hi) as (s' & c' & He' & Hi'). rewrite He in He'. injection He' as <- <-.
    eexists. split; [constructor|exact Hi'].
  - destruct (q p) as [|m' rest] eqn:Hq; [by rewrite (ins_wire _ _ Hi p), Hq in Hw|].
    destruct (in_step_receive st q p m' rest Hi Hq) as (c' & w' & s' & Hw' & Hd' & Hi').
    rewrite Hw in Hw'. injection Hw' as <- <-. rewrite Hd in Hd'. injection Hd' as <- <-.
    eexists. split; [by constructor|exact Hi'].
  - destruct (q p) as [|m' rest] eqn:Hq; [by rewrite (ins_wire _ _ Hi p), Hq in Hw|].
    destruct (in_step_receive st q p m' rest Hi Hq) as (c' & w' & s' & Hw' & Hd' & Hi').
    rewrite Hw in Hw'. injection Hw' as <- <-. by rewrite Hd in Hd'.
Qed.

Lemma run_in_step device reader tr st :
  paired device reader → run (established device reader) tr st → ∃ q, fifo_run tr q ∧ in_step st q.
Proof.
  intros Hp. induction 1 as [|tr st e st' _ (q & Hq & Hi) Hs].
  - eexists. split; [constructor|by apply in_step_established].
  - destruct (in_step_step _ _ _ _ Hi Hs) as (q' & Hf & Hi'). exists q'. split; [by econstructor|done].
Qed.

(** What was sent to a party, and what it received *)
Definition sent_to (p : party) (tr : list event) : list (list Z) :=
  omap (fun e => match e with Sent p' m => if bool_decide (other p' = p) then Some m else None | _ => None end) tr.
Definition received_by (p : party) (tr : list event) : list (list Z) :=
  omap (fun e => match e with Received p' m => if bool_decide (p' = p) then Some m else None | _ => None end) tr.

Lemma fifo_run_accounts tr q p : fifo_run tr q → sent_to p tr = (received_by p tr ++ q p)%list.
Proof.
  induction 1 as [|tr q e q' _ IH Hs]; [done|]. unfold sent_to, received_by in *. rewrite !omap_app, IH.
  destruct Hs as [q p' m|q p' m rest Hq]; cbn.
  - destruct (decide (other p' = p)) as [<-|Hne]; [rewrite bool_decide_eq_true_2, fn_lookup_insert by done|
      rewrite bool_decide_eq_false_2, fn_lookup_insert_ne by done]; cbn; by rewrite ?app_nil_r, ?app_assoc.
  - destruct (decide (p' = p)) as [<-|Hne]; [rewrite bool_decide_eq_true_2, fn_lookup_insert by done|
      rewrite bool_decide_eq_false_2, fn_lookup_insert_ne by done]; cbn; rewrite ?app_nil_r, ?Hq; [by rewrite <- app_assoc|done].
Qed.

(** C38: Between two sessions that belong together, every sequence of messages sent
    and received, in any interleaving of the two directions, is one of two
    queues of the plaintexts: what a party receives is what the other sent, in
    order, nothing is refused, and the pending messages are those not yet
    received. *)
Theorem session_refines_queues device reader tr st :
  paired device reader → run (established device reader) tr st →
  (∃ q, fifo_run tr q) ∧
  ∀ p, (Refused p ∉ tr) ∧ received_by p tr `prefix_of` sent_to p tr ∧
    length (wire st p) = (length (sent_to p tr) - length (received_by p tr))%nat.
Proof.
  intros Hp Hr. destruct (run_in_step _ _ _ _ Hp Hr) as (q & Hq & Hi). split; [by exists q|]. intros p.
  pose proof (fifo_run_accounts _ _ p Hq) as Ha. split_and!.
  - clear Ha Hi Hr. induction Hq as [|tr q e q' _ IH Hs]; [by intros ?%elem_of_nil|].
    rewrite elem_of_app. intros [?|Hl%list_elem_of_singleton]; [done|]. subst e. inversion Hs.
  - rewrite Ha. by exists (q p).
  - rewrite Ha, (ins_wire _ _ Hi p), length_app.
    enough (∀ k n ms, length (sealed k n ms) = length ms) as -> by lia. clear.
    intros k n ms. revert n. induction ms as [|m ms IH]; intros n; cbn; [done|]. by rewrite IH.
Qed.

(** A party takes the next message that is on its way to it. *)
Definition delivers (st : channel) (e : event) (st' : channel) : Prop :=
  step st e st' ∧ match e with Sent _ _ => False | _ => True end.

(** Whatever the order in which messages are delivered: in the end none is on its
    way and [P] holds. *)
Inductive settles (P : list event → Prop) (tr : list event) (st : channel) : Prop :=
| settled : (∀ p, wire st p = []) → P tr → settles P tr st
| settling : (∃ e st', delivers st e st') → (∀ e st', delivers st e st' → settles P (tr ++ [e])%list st') → settles P tr st.

Lemma in_step_settles n tr st q :
  in_step st q → fifo_run tr q → (length (q Reader) + length (q Device) = n)%nat →
  settles (fun tr => ∀ p, received_by p tr = sent_to p tr) tr st.
Proof.
  revert tr st q. induction n as [|n IH]; intros tr st q Hi Hq Hn.
  - assert (∀ p, q p = []) as He by (intros []; apply nil_length_inv; lia). apply settled.
    + intros p. by rewrite (ins_wire _ _ Hi p), He.
    + intros p. by rewrite (fifo_run_accounts _ _ p Hq), He, app_nil_r.
  - apply settling.
    + assert (∃ p m rest, q p = m :: rest) as (p & m & rest & Hp).
      { destruct (q Reader) as [|m rest] eqn:E; [|by eauto]. destruct (q Device) as [|m rest] eqn:E'; [done|by eauto]. }
      destruct (in_step_receive _ _ _ _ _ Hi Hp) as (c & w & s & Hw & Hd & _). eexists _, _. split; [by eapply step_receive|done].
    + intros e st' [Hs He]. destruct (in_step_step _ _ _ _ Hi Hs) as (q' & Hf & Hi').
      apply (IH _ _ q'); [done|by econstructor|]. destruct Hf as [|q p m rest Hp]; [done|].
      destruct p; rewrite fn_lookup_insert, fn_lookup_insert_ne by done; rewrite Hp in Hn; cbn in Hn; lia.
Qed.

(** C39: Every message is delivered: whatever was sent and received so far, and in
    whatever order the pending messages arrive at the two parties, no message
    gets stuck and in the end each party has received exactly what was sent to
    it. *)
Theorem session_delivers device reader tr st :
  paired device reader → run (established device reader) tr st →
  settles (fun tr => ∀ p, received_by p tr = sent_to p tr) tr st.
Proof. intros Hp Hr. destruct (run_in_step _ _ _ _ Hp Hr) as (q & Hq & Hi). by eapply in_step_settles. Qed.

(** After a message that a party refuses, say one forged or damaged on its way,
    its counter is ahead of the sender's: the next genuine message is opened
    under another nonce than it was sealed with, and is accepted only if some
    message sealed under that nonce has the very same ciphertext. *)
Theorem refusal_desynchronises device reader tr st p forged s e c w s' m :
  paired device reader → run (established device reader) tr st →
  wire st p = c :: w → Decrypt (session st p) forged = (s, Err e) → Decrypt s c = (s', Ok m) →
  ∃ k n m', c = gcm_seal k (nonceBytes n) m' [] ∧ c = gcm_seal k (nonceBytes (uint32_succ n)) m [].
Proof.
  intros Hp Hr Hw Hf Hd. destruct (run_in_step _ _ _ _ Hp Hr) as (q & Hq & Hi).
  rewrite (ins_wire _ _ Hi p) in Hw. destruct (q p) as [|m' rest]; [done|]. injection Hw as <- _.
  rewrite (Decrypt_to p) in Hf by apply Hi. injection Hf as <- _.
  destruct (set_counter_other p (session st p) (uint32_succ (counter_to p (session st p)))) as (Hro & Hk & Hc).
  rewrite (Decrypt_to p) in Hd; [|by apply Hro, Hi|by rewrite Hk; apply Hi]. rewrite Hk, Hc in Hd.
  destruct (gcm_open _ _ _ _) as [m''|] eqn:Eo; [|done]. injection Hd as _ <-. apply seal_open in Eo.
  eexists _, _, _. split; [reflexivity|]. done.
Qed.

(** ** Nonces *)

Fixpoint encrypt_all (s : SessionEncryption) (ms : list (list Z)) : list (result session_error (list Z)) :=
  match ms with
  | [] => []
  | m :: ms => let '(s, r) := Encrypt s m in r :: encrypt_all s ms
  end.

Lemma after_mod n k : 0 ≤ n < 2 ^ 32 → after n k = (n + Z.of_nat k) mod 2 ^ 32.
Proof.
  intros Hn. induction k as [|k IH]; [by rewrite Z.add_0_r, Z.mod_small|].
  rewrite after_snoc, IH. unfold uint32_succ. rewrite Zplus_mod_idemp_l. f_equal. lia.
Qed.

Lemma nonceBytes_inj n m : 0 ≤ n < 2 ^ 32 → 0 ≤ m < 2 ^ 32 → nonceBytes n = nonceBytes m → n = m.
Proof.
  unfold nonceBytes. intros Hn Hm E%app_inv_head. apply (f_equal of_be) in E. by rewrite !of_be_fixed in E.
Qed.

Lemma encrypt_all_nonces p s ms :
  role p s → length (key_to (other p) s) = 32%nat →
  encrypt_all s ms = imap (fun i m => Ok (gcm_seal (key_to (other p) s) (nonceBytes (after (counter_to (other p) s) i)) m [])) ms.
Proof.
  revert s. induction ms as [|m ms IH]; intros s Hr Hk; [done|]. cbn [encrypt_all].
  rewrite (Encrypt_to p) by done. rewrite IH by (destruct p; done). cbn [imap]. f_equal. apply imap_ext. intros i m' _.
  by destruct p.
Qed.

(** A party seals the messages it sends under its own key and nonces that
    repeat exactly every 2^32 messages: two of its messages share a nonce only
    when their distance is a multiple of that, which nothing prevents. *)
Theorem nonces_repeat p s ms :
  role p s → length (key_to (other p) s) = 32%nat → 0 ≤ counter_to (other p) s < 2 ^ 32 →
  ∃ nonce : nat → list Z,
    encrypt_all s ms = imap (fun i m => Ok (gcm_seal (key_to (other p) s) (nonce i) m [])) ms ∧
    ∀ i j, nonce i = nonce j ↔ (2 ^ 32 | Z.of_nat i - Z.of_nat j).
Proof.
  intros Hr Hk Hn. exists (fun i => nonceBytes (after (counter_to (other p) s) i)). split; [by apply encrypt_all_nonces|].
  intros i j. rewrite !after_mod by done. set (n := counter_to (other p) s) in *.
  replace (Z.of_nat i - Z.of_nat j) with ((n + Z.of_nat i) - (n + Z.of_nat j)) by lia. rewrite <- Z.mod_divide by lia. split.
  - intros E%nonceBytes_inj; [|apply Z.mod_pos_bound; lia..]. by rewrite Zminus_mod, E, Z.sub_diag.
  - intros E. f_equal. apply Z.mod_divide in E as [k E]; [|lia].
    replace (n + Z.of_nat i) with (n + Z.of_nat j + k * 2 ^ 32) by lia. by rewrite Z.mod_add.
Qed.
End channel.

(** * At concrete inputs

    Concrete curves, ciphers and encodings that satisfy the laws, and the theorems
    of this file and of [MdocEngagement] applied to a session. *)

#[local] Existing Instances toy_cbor toy_cbor_laws.

(** ** Interfaces *)

(** A digest of 32 bytes *)
#[local] Instance w_crypto : CoseCrypto :=
  { ec_key := unit; rsa_key := unit; other_key := unit; ec_curve := fun _ => P256; curve_bits := fun _ => 256;
    digest := fun _ b => (replicate 31 0 ++ [foldl Z.add 0 b mod 256])%list;
    ecdsa_sign := fun _ _ => None; rsa_sign_pss := fun _ _ _ => None }.
#[local] Instance w_sha : SHA256Laws.
Proof. constructor. intros b. done. Qed.

(** Multiplication modulo a power of two *)
#[local] Instance w_ecdh : ECDH :=
  { scalar_base_mult := fun c d => (d mod 2 ^ curve_size c, 0);
    scalar_mult := fun c xy e => Some (xy.1 * e mod 2 ^ curve_size c, 0) }.
#[local] Instance w_ecdh_laws : ECDHLaws.
Proof.
  constructor. intros c d e Hc. exists (d * e mod 2 ^ curve_size c), 0. cbn [scalar_mult scalar_base_mult w_ecdh fst].
  rewrite !Zmult_mod_idemp_l, (Z.mul_comm e d). split_and!; [done|done|..]; apply Z.mod_pos_bound; by destruct c.
Qed.

(** A cipher that writes key, nonce and data in front of the message *)
#[local] Instance w_gcm : AESGCM :=
  { gcm_seal := fun k n p a => (k ++ n ++ a ++ p)%list;
    gcm_open := fun k n c a =>
      let h := (k ++ n ++ a)%list in
      if bool_decide (take (length h) c = h) then Some (drop (length h) c) else None }.
#[local] Instance w_gcm_laws : AESGCMLaws.
Proof.
  constructor.
  - intros k n p a. cbn. replace (k ++ n ++ a ++ p)%list with ((k ++ n ++ a) ++ p)%list by (by rewrite !app_assoc).
    by rewrite take_app_length, drop_app_length, bool_decide_eq_true_2.
  - intros k n c a p. cbn. case_bool_decide as Ht; [|done]. intros [= <-].
    rewrite !app_assoc. rewrite <- (app_assoc k n a). rewrite <- Ht at 1. apply take_drop.
Qed.

(** ** A session *)

Definition w_device : private_key := mkPrivate (mkECDSA P256 7 0) 7.
Definition w_reader : private_key := mkPrivate (mkECDSA P256 5 0) 5.

Lemma session_agreed_witness :
  ∃ d r r', NewSessionEncryptionDevice w_device (priv_Public w_reader) [1; 2; 3] = Ok d ∧
    NewSessionEncryptionReader w_reader (priv_Public w_device) [1; 2; 3] = Ok r ∧
    NewSessionEncryptionReader w_reader (priv_Public w_device) [9] = Ok r' ∧
    paired d r ∧ sharedSecret d = sharedSecret r ∧ length (sharedSecret d) = coordinate_bytes P256 ∧
    readerNonce d = 1 ∧ deviceNonce d = 1 ∧ DeriveDeviceAuthenticationKey (Some d) = DeriveDeviceAuthenticationKey (Some r').
Proof. apply (session_agreed P256 w_device w_reader [1; 2; 3] [9]); [done|split; vm_compute; reflexivity|split; vm_compute; reflexivity]. Defined.

Definition w_session (r : result session_error SessionEncryption) : SessionEncryption :=
  match r with Ok s => s | Err _ => mkSession [] [] [] 0 0 false end.
Definition w_d : SessionEncryption := w_session (NewSessionEncryptionDevice w_device (priv_Public w_reader) [1; 2; 3]).
Definition w_r : SessionEncryption := w_session (NewSessionEncryptionReader w_reader (priv_Public w_device) [1; 2; 3]).

Lemma w_paired : paired w_d w_r.
Proof. split; vm_compute; auto. Qed.

(** Both send, and the device receives *)
Definition w_trace : list event := [Sent Reader [10]; Sent Device [20]; Received Device [10]].

Lemma w_run : ∃ st, run (established w_d w_r) w_trace st.
Proof.
  eexists. eapply (run_snoc _ [Sent Reader [10]; Sent Device [20]] _ (Received Device [10])).
  - eapply (run_snoc _ [Sent Reader [10]] _ (Sent Device [20])).
    + eapply (run_snoc _ [] _ (Sent Reader [10])); [constructor|]. eapply step_send. vm_compute. reflexivity.
    + eapply step_send. vm_compute. reflexivity.
  - eapply step_receive; [vm_compute; reflexivity|]. vm_compute. reflexivity.
Qed.

Lemma session_refines_queues_witness :
  ∃ st, run (established w_d w_r) w_trace st ∧ (∃ q, fifo_run w_trace q) ∧
    ∀ p, (Refused p ∉ w_trace) ∧ received_by p w_trace `prefix_of` sent_to p w_trace ∧
      length (wire st p) = (length (sent_to p w_trace) - length (received_by p w_trace))%nat.
Proof. destruct w_run as [st Hr]. exists st. split; [done|]. exact (session_refines_queues w_d w_r w_trace st w_paired Hr). Defined.

Lemma session_delivers_witness :
  ∃ st, run (established w_d w_r) w_trace st ∧ settles (fun tr => ∀ p, received_by p tr = sent_to p tr) w_trace st.
Proof. destruct w_run as [st Hr]. exists st. split; [done|]. exact (session_delivers w_d w_r w_trace st w_paired Hr). Defined.

Lemma nonces_repeat_witness :
  ∃ nonce : nat → list Z,
    encrypt_all w_r [[1]; [2]; [3]] = imap (fun i m => Ok (gcm_seal (skReader w_r) (nonce i) m [])) [[1]; [2]; [3]] ∧
    ∀ i j, nonce i = nonce j ↔ (2 ^ 32 | Z.of_nat i - Z.of_nat j).
Proof. apply (nonces_repeat Reader w_r); [reflexivity|reflexivity|vm_compute; split; [discriminate|reflexivity]]. Defined.

(** A cipher that ignores the nonce *)
Module Weak.
#[local] Instance weak_gcm : AESGCM :=
  { gcm_seal := fun k n p a => (k ++ a ++ p)%list;
    gcm_open := fun k n c a =>
      let h := (k ++ a)%list in
      if bool_decide (take (length h) c = h) then Some (drop (length h) c) else None }.
#[local] Instance weak_gcm_laws : AESGCMLaws.
Proof.
  constructor.
  - intros k n p a. cbn. rewrite app_assoc. by rewrite take_app_length, drop_app_length, bool_decide_eq_true_2.
  - intros k n c a p. cbn. case_bool_decide as Ht; [|done]. intros [= <-]. rewrite app_assoc. rewrite <- Ht at 1. apply take_drop.
Qed.

Lemma weak_run : ∃ st c, run (established w_d w_r) [Sent Reader [10]] st ∧ wire st Device = [c] ∧
  ∃ s e s', Decrypt (session st Device) [0] = (s, Err e) ∧ Decrypt s c = (s', Ok [10]).
Proof.
  eexists _, _. split; [|split].
  - eapply (run_snoc _ [] _ (Sent Reader [10])); [constructor|]. eapply step_send. vm_compute. reflexivity.
  - vm_compute. reflexivity.
  - eexists _, _, _. split; [vm_compute; reflexivity|]. vm_compute. reflexivity.
Qed.

Lemma refusal_desynchronises_witness :
  ∃ st c, run (established w_d w_r) [Sent Reader [10]] st ∧ wire st Device = [c] ∧
  ∃ k n m', c = gcm_seal k (nonceBytes n) m' [] ∧ c = gcm_seal k (nonceBytes (uint32_succ n)) [10] [].
Proof.
  destruct weak_run as (st & c & Hr & Hw & s & e & s' & Hf & Hd). exists st, c. split; [done|]. split; [done|].
  exact (refusal_desynchronises w_d w_r [Sent Reader [10]] st Device [0] s e c [] s' [10] w_paired Hr Hw Hf Hd).
Defined.
End Weak.

(** ** An engagement *)

Definition w_builder : result engagement_error EngagementBuilder := WithEphemeralKey NewEngagementBuilder w_device.
Definition w_key : COSEKey := mkCOSEKey KeyTypeEC2 0 CurveP256 [7] (Some [0]).

Lemma w_builder_ok : is_ok w_builder = true.
Proof. vm_compute. reflexivity. Qed.
Lemma w_key_ok : is_Some (COSEKey_Bytes w_key).
Proof. destruct (COSEKey_Bytes w_key) eqn:E; [by eexists|]. vm_compute in E. discriminate. Qed.

Lemma engagement_key_unreadable_witness :
  ∃ b kb, w_builder = Ok b ∧ COSEKey_Bytes w_key = Some kb ∧
    ExtractEDeviceKey (engagement b) = Err QDecode ∧
    ExtractEDeviceKey (set_security (engagement b) (mkSecurity 1 (Some kb))) = Err (QKey EKeyType).
Proof.
  destruct (proj1 (is_ok_Ok w_builder) w_builder_ok) as [b Hb]. destruct w_key_ok as [kb Hk]. exists b, kb. split; [done|]. split; [done|].
  exact (engagement_key_unreadable NewEngagementBuilder w_device b w_key kb (set_security (engagement b) (mkSecurity 1 (Some kb)))
           Hb Hk ltac:(done) eq_refl).
Defined.

(** An encoding of the engagements over NFC alone *)
Definition w_decoded (a b : Z) : retrieval_options := DecodedOptions (CMapAny [(CUint64 0, CUint64 a); (CUint64 1, CUint64 b)]).
Definition w_nfc (o : Z → Z → retrieval_options) (a b : Z) : DeviceEngagement :=
  mkEngagement EngagementVersion (mkSecurity 0 None) [mkMethod 1 1 (o a b)] None CNull [].
#[local] Instance w_engagement_cbor : EngagementCBOR :=
  { options_read := fun o => match o with NFCOptions a b => w_decoded a b | _ => o end;
    marshal_engagement := fun de =>
      match de with
      | mkEngagement v (mkSecurity 0 None) [mkMethod 1 1 (NFCOptions a b)] None CNull [] =>
          if bool_decide (v = EngagementVersion) && bool_decide (0 ≤ a < 256) && bool_decide (0 ≤ b < 256) then Some [160; a; b] else None
      | _ => None
      end;
    unmarshal_engagement := fun data => match data with [160; a; b] => Some (w_nfc w_decoded a b) | _ => None end }.
#[local] Instance w_engagement_laws : EngagementCBORLaws.
Proof.
  constructor. intros de b Hm. cbn in Hm. repeat case_match; simplify_eq.
  repeat match goal with H : _ && _ = true |- _ => apply andb_true_iff in H as [H ?] end.
  repeat match goal with H : bool_decide _ = true |- _ => apply bool_decide_eq_true in H end. subst.
  split_and!; [done| |reflexivity]. unfold in_uint8. repeat constructor; lia.
Qed.

Definition w_qr : result engagement_error string := DeviceEngagementToQRCode (engagement (WithNFC NewEngagementBuilder 255 200)).

Lemma qr_roundtrip_witness : ∃ qr, w_qr = Ok qr ∧ ParseQRCode qr = Ok (w_nfc w_decoded 255 200).
Proof.
  exists "mdoc:oP_I". split; [vm_compute; reflexivity|].
  change (w_nfc w_decoded 255 200) with (received_engagement (engagement (WithNFC NewEngagementBuilder 255 200))).
  apply (qr_roundtrip (engagement (WithNFC NewEngagementBuilder 255 200)) "mdoc:oP_I"). vm_compute. reflexivity.
Defined.

Lemma qr_panics_witness : ParseQRCode "mdoc:A" = Err QPanic.
Proof. apply (qr_panics "A"); [by repeat constructor|reflexivity|reflexivity]. Defined.
