(* ===== verification/GenericCache.v ===== *)
(** * Generic caches and locks

    [pkg/cache/generic_memory.go], [MemoryCache], over the same [ttlcache] as
    the authorization contexts but with a lifetime per entry, and
    [pkg/cache/lock.go], [MemoryLocker].  Each operation holds a mutex and is one
    step; the janitor ([expire]) may run between any two. *)

From S2P Require Import Prelude.

(** ** [ttlcache] *)

Record entry (V : Type) := mkEntry { e_value : V; e_ttl : Z; e_expires : Z }.
Arguments mkEntry {V} _ _ _.
Arguments e_value {V} _.
Arguments e_ttl {V} _.
Arguments e_expires {V} _.

(** An item without a positive lifetime does not expire. *)
Definition e_live {V} (now : Z) (e : entry V) : bool :=
  bool_decide (e_ttl e ≤ 0) || negb (bool_decide (e_expires e < now)).
Definition e_touch {V} (now : Z) (e : entry V) : entry V :=
  if bool_decide (0 < e_ttl e) then mkEntry (e_value e) (e_ttl e) (now + e_ttl e) else e.
Definition fresh_entry {V} (now : Z) (v : V) (ttl : Z) : entry V := mkEntry v ttl (now + ttl).

Module MemoryCache.
Section cache.
Context {V : Type}.
(** The default lifetime. *)
Variable ttl : Z.

Abbreviation cache := (gmap string (entry V)).
Implicit Types (m : cache) (k : string) (v : V).

Definition lookup_live (now : Z) k m : option (entry V) :=
  match m !! k with Some e => if e_live now e then Some e else None | None => None end.

(** A hit renews the entry. *)
Definition Get (now : Z) k m : cache * option V :=
  match lookup_live now k m with
  | Some e => (<[k := e_touch now e]> m, Some (e_value e))
  | None => (m, None)
  end.

(** The lifetimes 0 and -2 stand for the default and the previous one. *)
Definition set (now : Z) k v (t : Z) m : cache :=
  let fresh t := fresh_entry now v t in
  <[k := if bool_decide (t = -2) then
           match m !! k with Some e => mkEntry v (e_ttl e) (e_expires e) | None => fresh ttl end
         else fresh (if bool_decide (t = 0) then ttl else t)]> m.
Definition Set_ (now : Z) k v m : cache := set now k v 0 m.
Definition SetWithTTL (now : Z) k v (t : Z) m : cache := set now k v t m.

(** [GetOrSet]: whether the key was found. *)
Definition GetOrSet (now : Z) k v (t : Z) m : cache * bool :=
  match lookup_live now k m with
  | Some e => (<[k := e_touch now e]> m, true)
  | None => (set now k v t m, false)
  end.

Definition SetNX (now : Z) k v m : cache * bool :=
  let '(m, found) := GetOrSet now k v 0 m in (m, negb found).
Definition SetNXWithTTL (now : Z) k v (t : Z) m : cache * bool :=
  if bool_decide (t ≤ 0) then SetNX now k v m else
  let '(m, found) := GetOrSet now k v t m in (m, negb found).

Definition Delete k m : cache := delete k m.
Definition GetAndDelete (now : Z) k m : cache * option V :=
  match lookup_live now k m with
  | Some e => (delete k m, Some (e_value e))
  | None => (m, None)
  end.

(** The janitor. *)
Definition expire (now : Z) k m : cache :=
  match m !! k with Some e => if e_live now e then m else delete k m | None => m end.
Definition Len m : nat := size m.

(** ** Steps *)

Inductive action :=
| CGet k | CSet k v | CSetWithTTL k v (t : Z)
| CSetNX k v | CSetNXWithTTL k v (t : Z)
| CDelete k | CGetAndDelete k | CExpire k.

Definition exec (now : Z) (a : action) m : cache :=
  match a with
  | CGet k => fst (Get now k m)
  | CSet k v => Set_ now k v m
  | CSetWithTTL k v t => SetWithTTL now k v t m
  | CSetNX k v => fst (SetNX now k v m)
  | CSetNXWithTTL k v t => fst (SetNXWithTTL now k v t m)
  | CDelete k => Delete k m
  | CGetAndDelete k => fst (GetAndDelete now k m)
  | CExpire k => expire now k m
  end.

(** The action can neither remove the key nor give it another lifetime. *)
Definition spares (k : string) (a : action) : bool :=
  match a with
  | CSet k' _ | CSetWithTTL k' _ _ | CDelete k' | CGetAndDelete k' => negb (bool_decide (k' = k))
  | _ => true
  end.

(** A run in which time does not go back. *)
Inductive runs (P : action → bool) : Z → cache → Z → cache → Prop :=
| runs_refl now m : runs P now m now m
| runs_step now now' a m t' m' :
    now ≤ now' → P a = true → runs P now' (exec now' a m) t' m' → runs P now m t' m'.

(** At the time [now] the key is taken, and stays so until [until] at least. *)
Definition held (k : string) (now until : Z) m : Prop :=
  ∃ e, m !! k = Some e ∧ 0 < e_ttl e ∧ until ≤ e_expires e ≤ now + e_ttl e.

Lemma held_live k now until m : held k now until m → now ≤ until → ∃ e, lookup_live now k m = Some e ∧ m !! k = Some e.
Proof.
  intros (e & He & Ht & Hu & _) Hn. exists e. unfold lookup_live, e_live. rewrite He.
  rewrite (bool_decide_eq_false_2 (e_ttl e ≤ 0)) by lia. rewrite bool_decide_eq_false_2 by lia. done.
Qed.

Lemma held_later k now now' until m : held k now until m → now ≤ now' → held k now' until m.
Proof. intros (e & He & Ht & Hu & Hx) Hn. exists e. split_and!; [done..|lia]. Qed.

Lemma held_other k k' now until m m' : held k now until m → m' !! k = m !! k → held k now until m'.
Proof. intros (e & He & H) E. exists e. by rewrite E. Qed.

Lemma held_touch k k' now until m e :
  held k now until m → lookup_live now k' m = Some e → held k now until (<[k' := e_touch now e]> m).
Proof.
  intros Hh He. destruct (decide (k' = k)) as [->|Hne]; [|eapply held_other; [done..|by rewrite lookup_insert_ne]].
  destruct Hh as (e' & He' & Ht & Hu). unfold lookup_live in He. rewrite He' in He. case_match; [|done].
  injection He as <-. eexists. rewrite lookup_insert_eq. split; [done|]. unfold e_touch.
  rewrite bool_decide_eq_true_2 by done. cbn. lia.
Qed.

Lemma held_GetOrSet k now until m k' v t :
  held k now until m → now ≤ until → held k now until (fst (GetOrSet now k' v t m)).
Proof.
  intros Hh Hn. unfold GetOrSet. destruct (lookup_live now k' m) as [e|] eqn:El; [by apply held_touch|].
  eapply held_other; [done..|]. cbn. unfold set. rewrite lookup_insert_ne; [done|]. intros ->.
  destruct (held_live _ _ _ _ Hh Hn) as (e & E & _). congruence.
Qed.

Lemma exec_held k now until m a :
  held k now until m → now ≤ until → spares k a = true → held k now until (exec now a m).
Proof.
  intros Hh Hn Ha. destruct a as [k'|k' v|k' v t|k' v|k' v t|k'|k'|k']; cbn in *.
  - unfold Get. destruct (lookup_live now k' m) eqn:El; [by apply held_touch|done].
  - apply negb_true_iff, bool_decide_eq_false in Ha. eapply held_other; [done..|]. by apply lookup_insert_ne.
  - apply negb_true_iff, bool_decide_eq_false in Ha. eapply held_other; [done..|]. by apply lookup_insert_ne.
  - unfold SetNX. pose proof (held_GetOrSet k now until m k' v 0 Hh Hn). by destruct (GetOrSet _ _ _ _ _).
  - unfold SetNXWithTTL, SetNX. case_match.
    + pose proof (held_GetOrSet k now until m k' v 0 Hh Hn). by destruct (GetOrSet _ _ _ _ _).
    + pose proof (held_GetOrSet k now until m k' v t Hh Hn). by destruct (GetOrSet _ _ _ _ _).
  - apply negb_true_iff, bool_decide_eq_false in Ha. eapply held_other; [done..|]. by apply lookup_delete_ne.
  - apply negb_true_iff, bool_decide_eq_false in Ha. unfold GetAndDelete. case_match; [|done].
    eapply held_other; [done..|]. by apply lookup_delete_ne.
  - unfold expire. destruct (m !! k') as [e|] eqn:E; [|done]. destruct (e_live now e) eqn:El; [done|].
    eapply held_other; [done..|]. apply lookup_delete_ne. intros ->.
    destruct (held_live _ _ _ _ Hh Hn) as (e' & E' & E''). unfold lookup_live in E'. rewrite E, El in E'. done.
Qed.

Lemma runs_held k now until m t' m' :
  runs (spares k) now m t' m' → t' ≤ until → held k now until m → now ≤ t' ∧ held k t' until m'.
Proof.
  intros R. induction R as [now m|now now' a m t' m' Hn Ha R IH]; intros Ht Hh; [done|].
  enough (now' ≤ t') by (destruct IH; [done| |split; [lia|done]];
    apply exec_held; [by eapply held_later|lia|done]).
  clear -R. induction R; lia.
Qed.

(** A key that [SetNX] has just stored is refused to every other [SetNX] for the
    default lifetime. *)
Lemma SetNX_held now k v m m' : 0 < ttl → SetNX now k v m = (m', true) → held k now (now + ttl) m'.
Proof.
  intros Ht. unfold SetNX, GetOrSet. destruct (lookup_live now k m); intros [= <-].
  unfold set. rewrite bool_decide_eq_false_2, bool_decide_eq_true_2 by done. eexists. rewrite lookup_insert_eq. split; [done|]. cbn. lia.
Qed.

Lemma held_SetNX now k v until m : held k now until m → now ≤ until → snd (SetNX now k v m) = false.
Proof.
  intros Hh Hn. destruct (held_live _ _ _ _ Hh Hn) as (e & E & _). unfold SetNX, GetOrSet. by rewrite E.
Qed.

(** [SetNX] has one winner: after a call that stored the key, and whatever
    the other operations in between, every call within the lifetime is told
    that the key exists, as long as nobody overwrites or removes it. *)
Theorem SetNX_one_winner now t' k v v' m m1 m2 :
  0 < ttl → SetNX now k v m = (m1, true) → runs (spares k) now m1 t' m2 → t' ≤ now + ttl →
  snd (SetNX t' k v' m2) = false.
Proof.
  intros Ht Hs Hr Hu. apply (held_SetNX _ _ _ (now + ttl)); [|done].
  eapply runs_held; [done..|]. by eapply SetNX_held.
Qed.
End cache.
Arguments action V : clear implicits.
End MemoryCache.

(** ** [MemoryLocker] *)

Module MemoryLocker.
Record lock := mkLock { until : Z; lock_token : string }.
Abbreviation locks := (gmap string lock).

(** The random token, or the failure of the random source. *)
Definition TryLock (now : Z) (key : string) (ttl : Z) (random : option string) (m : locks) : locks * option string :=
  if match m !! key with Some l => bool_decide (now < until l) | None => false end then (m, Some "") else
  match random with
  | None => (m, None)
  | Some tok => (<[key := mkLock (now + ttl) tok]> m, Some tok)
  end.

Definition Unlock (key tok : string) (m : locks) : locks :=
  match m !! key with
  | Some l => if bool_decide (lock_token l = tok) then delete key m else m
  | None => m
  end.

(** What others do while a lock is held: they try at their times, and release
    with tokens of their own. *)
Inductive call := Try (now : Z) (key : string) (ttl : Z) (random : option string) | Release (key tok : string).
Definition step (c : call) (m : locks) : locks :=
  match c with
  | Try now key ttl random => fst (TryLock now key ttl random m)
  | Release key tok => Unlock key tok m
  end.
Definition before (deadline : Z) (mine : string) (c : call) : Prop :=
  match c with Try now _ _ _ => now < deadline | Release _ tok => tok ≠ mine end.

(** A late release frees no lock that somebody else took: releasing with the
    token of an earlier holder leaves every lock of another token in place. *)
Lemma Unlock_foreign key tok m k l : m !! k = Some l → lock_token l ≠ tok → Unlock key tok m !! k = Some l.
Proof.
  intros Hl Hne. unfold Unlock. destruct (m !! key) as [l'|] eqn:E; [|done].
  case_bool_decide; [|done]. rewrite lookup_delete_ne; [done|]. intros ->. congruence.
Qed.

Lemma TryLock_held now key ttl random m k l :
  m !! k = Some l → now < until l → fst (TryLock now key ttl random m) !! k = Some l.
Proof.
  intros Hl Hn. unfold TryLock. destruct (m !! key) as [l'|] eqn:E.
  - case_bool_decide; [done|]. destruct random; [|done]. cbn. rewrite lookup_insert_ne; [done|]. intros ->.
    assert (l' = l) as -> by congruence. lia.
  - destruct random; [|done]. cbn. rewrite lookup_insert_ne; [done|]. intros ->. congruence.
Qed.

(** A lock excludes: between a successful [TryLock] and its deadline, whatever
    others try or release with other tokens, the lock stays with its holder,
    every attempt is refused, and only the holder's own token frees it. *)
Theorem lock_excludes now key ttl tok m m1 calls now' ttl' random :
  TryLock now key ttl (Some tok) m = (m1, Some tok) → tok ≠ "" →
  Forall (before (now + ttl) tok) calls → now' < now + ttl →
  let m2 := foldl (fun m c => step c m) m1 calls in
  m2 !! key = Some (mkLock (now + ttl) tok) ∧
  TryLock now' key ttl' random m2 = (m2, Some "") ∧
  Unlock key tok m2 !! key = None.
Proof.
  intros Ht Htok Hc Hn. cbv zeta.
  assert (m1 !! key = Some (mkLock (now + ttl) tok)) as H1.
  { unfold TryLock in Ht. destruct (match m !! key with Some _ => _ | None => _ end); [by injection Ht as _ <-|].
    injection Ht as <-. apply lookup_insert_eq. }
  assert (foldl (fun m c => step c m) m1 calls !! key = Some (mkLock (now + ttl) tok)) as H2.
  { clear Ht. induction Hc as [|c calls Hb _ IH] in m1, H1 |- *; [done|]. cbn. apply IH.
    destruct c; cbn in *; [by apply TryLock_held|by apply Unlock_foreign]. }
  split; [done|]. unfold TryLock, Unlock. rewrite H2. cbn. rewrite !bool_decide_eq_true_2 by done. split; [done|].
  by apply lookup_delete_eq.
Qed.
End MemoryLocker.

(** The proofs of the token endpoint kept for five minutes. *)
Lemma SetNX_one_winner_witness :
  snd (MemoryCache.SetNX (5 * minute) (8 * minute) "jti-0123456789" true
         (fst (MemoryCache.SetNX (5 * minute) (6 * minute) "another-jti-00" true
            (fst (MemoryCache.SetNX (5 * minute) (4 * minute) "jti-0123456789" true ∅))))) = false.
Proof.
  apply (MemoryCache.SetNX_one_winner (5 * minute) (4 * minute) (8 * minute) "jti-0123456789" true true ∅
           (fst (MemoryCache.SetNX (5 * minute) (4 * minute) "jti-0123456789" true ∅))).
  - unfold minute, second. lia.
  - vm_compute. reflexivity.
  - eapply (MemoryCache.runs_step _ _ _ (6 * minute) (MemoryCache.CSetNX "another-jti-00" true)); [unfold minute, second; lia|done|].
    eapply (MemoryCache.runs_step _ _ _ (8 * minute) (MemoryCache.CExpire "gone")); [unfold minute, second; lia|done|].
    apply MemoryCache.runs_refl.
  - unfold minute, second. lia.
Defined.

Lemma lock_excludes_witness :
  let m1 := fst (MemoryLocker.TryLock 10 "renew" 50 (Some "t1") ∅) in
  snd (MemoryLocker.TryLock 40 "renew" 50 (Some "t2") (MemoryLocker.Unlock "renew" "t0" m1)) = Some "".
Proof.
  destruct (MemoryLocker.lock_excludes 10 "renew" 50 "t1" ∅ (fst (MemoryLocker.TryLock 10 "renew" 50 (Some "t1") ∅))
    [MemoryLocker.Release "renew" "t0"] 40 50 (Some "t2")) as (_ & E & _); [reflexivity|done| |lia|].
  - constructor; [done|constructor].
  - cbn [foldl MemoryLocker.step] in E. cbv zeta. by rewrite E.
Defined.
