(* ===== verification/StatusRegistry.v ===== *)
(** * The status list registry

    [internal/registry/db/methods_token_status_list.go] and
    [methods_token_status_list_metadata.go]: the collection of status
    entries, a slot per (section, index) that is a decoy until a credential
    is given it, and the metadata document naming the current section; and
    the allocation half of [internal/registry/tokenstatuslistissuer/methods.go]
    ([CreateNewSectionIfNeeded], [AddStatus], [UpdateStatus]).

    MongoDB is an interface.  [Collection] has one operation per driver call
    the code makes and states what the documentation promises of it: a write
    to one document is atomic (on an error it either happened or did not), an
    ordered [InsertMany] inserts a prefix of its documents and stops at the
    first duplicate key, a unique index holds on (section, index), [Find]
    with a sort returns the matching documents in order.  [Add], which makes
    many calls, is a program over those calls: [pool_step] interleaves any
    number of them call by call, [run] executes one by itself.  The operating
    system's random source is an oracle. *)

From Stdlib Require Import Sorted.
From stdpp Require Import sorting relations.
From S2P Require Import Prelude.

(** ** The collection *)

Record entry := mkEntry { Status : Z; Decoy : bool }.
#[global] Instance entry_eq_dec : EqDecision entry.
Proof. solve_decision. Defined.

Abbreviation slot := (Z * Z)%type.          (* section, index *)
Abbreviation slots := (gmap slot entry).

Inductive reg_error :=
| ErrDB
| ErrNoDecoys (section : Z)
| ErrAllocate (retries section : Z)
| ErrMeta
| ErrIndexOutOfRange.   (* the run-time panic of an index expression *)

(** Insert the documents [(index, status)] as decoys of a section. *)
Definition insert_decoys (section : Z) (docs : list (Z * Z)) (m : slots) : slots :=
  foldl (fun m d => <[(section, fst d) := mkEntry (snd d) true]> m) m docs.

(** A filter [bson.M{"index": i, "section": s}], with ["decoy": d] when there
    is one, and what a [$set] writes: a status, and the decoy flag when it is
    named. *)
Record selector := mkSelector { sel_slot : slot; sel_decoy : option bool }.
Record change := mkChange { new_status : Z; new_decoy : option bool }.

Definition selects (f : selector) (e : entry) : bool :=
  match sel_decoy f with Some d => bool_decide (Decoy e = d) | None => true end.

Definition changed (u : change) (e : entry) : entry :=
  mkEntry (new_status u) (default (Decoy e) (new_decoy u)).

(** [UpdateOne]: the collection afterwards and [MatchedCount]. *)
Definition updated (m : slots) (f : selector) (u : change) : slots * Z :=
  match m !! sel_slot f with
  | Some e => if selects f e then (<[sel_slot f := changed u e]> m, 1) else (m, 0)
  | None => (m, 0)
  end.

(** The update models of one [BulkWrite], in order. *)
Definition bulk_updated (m : slots) (ws : list (selector * change)) : slots :=
  foldl (fun m w => fst (updated m (fst w) (snd w))) m ws.

Definition decoys_in (section : Z) (m : slots) : Z :=
  Z.of_nat (length (List.filter (fun p => bool_decide (fst (fst p) = section) && Decoy (snd p))
                      (map_to_list m))).

Class Collection (C : Type) := {
  entries : C → slots;
  count_all : C → result reg_error Z;
  count_decoys : C → Z → Z → result reg_error Z;
  find_one : C → Z → Z → result reg_error (option entry);
  insert_many : C → Z → list (Z * Z) → C * result reg_error unit;
  update_one : C → selector → change → C * result reg_error Z;
  bulk_write : C → list (selector * change) → C * result reg_error unit;
  find_section : C → Z → result reg_error (list Z)
}.

(** The statuses of a section in increasing index order. *)
Definition section_statuses (m : slots) (section : Z) (l : list Z) : Prop :=
  ∃ idxs : list Z,
    StronglySorted Z.lt idxs ∧
    (∀ i, i ∈ idxs ↔ is_Some (m !! (section, i))) ∧
    Forall2 (fun i s => Status <$> m !! (section, i) = Some s) idxs l.

Class CollectionLaws (C : Type) `{Collection C} : Prop := {
  count_all_ok : ∀ c n, count_all c = Ok n → n = Z.of_nat (size (entries c));
  count_decoys_ok : ∀ c s lim n,
    count_decoys c s lim = Ok n → n = Z.min lim (decoys_in s (entries c));
  find_one_ok : ∀ c s i e, find_one c s i = Ok e → entries c !! (s, i) = e;
  insert_many_ok : ∀ c s docs c',
    insert_many c s docs = (c', Ok tt) →
    docs ≠ [] ∧ NoDup (map fst docs) ∧
    (∀ i, i ∈ map fst docs → entries c !! (s, i) = None) ∧
    entries c' = insert_decoys s docs (entries c);
  insert_many_err : ∀ c s docs c' e,
    insert_many c s docs = (c', Err e) →
    ∃ pre, pre `prefix_of` docs ∧
      (∀ i, i ∈ map fst pre → entries c !! (s, i) = None) ∧
      entries c' = insert_decoys s pre (entries c);
  update_one_ok : ∀ c f u c' n,
    update_one c f u = (c', Ok n) → updated (entries c) f u = (entries c', n);
  update_one_err : ∀ c f u c' x,
    update_one c f u = (c', Err x) →
    entries c' = entries c ∨ entries c' = fst (updated (entries c) f u);
  bulk_write_any : ∀ c ws c' r,
    bulk_write c ws = (c', r) →
    ∃ pre, pre `prefix_of` ws ∧ entries c' = bulk_updated (entries c) pre;
  find_section_ok : ∀ c s l, find_section c s = Ok l → section_statuses (entries c) s l
}.

(** ** Programs over the collection

    [Add] makes many calls, and those of other requests and other replicas
    come between them: it is a tree of calls, each continuing with its
    answer. *)

Inductive dbcall :=
| CRand (bound : Z)                            (* [rand.Int] *)
| CFind (k : slot)                             (* [FindOne] *)
| CUpdate (f : selector) (u : change)          (* [UpdateOne] *)
| CBulk (ws : list (selector * change)).       (* [BulkWrite] *)

Definition dbanswer (c : dbcall) : Type :=
  match c with
  | CRand _ => Z
  | CFind _ => result reg_error (option entry)
  | CUpdate _ _ => result reg_error Z
  | CBulk _ => result reg_error unit
  end.

Inductive dbprog (A : Type) : Type :=
| DRet (a : A)
| DCall (c : dbcall) (k : dbanswer c → dbprog A).
Arguments DRet {A} _.
Arguments DCall {A} _ _.

Fixpoint dbind {A B} (f : A → dbprog B) (p : dbprog A) : dbprog B :=
  match p with
  | DRet a => f a
  | DCall c k => DCall c (fun r => dbind f (k r))
  end.
#[global] Instance dbprog_ret : MRet dbprog := fun A a => DRet a.
#[global] Instance dbprog_bind : MBind dbprog := fun A B f p => dbind f p.

Definition call (c : dbcall) : dbprog (dbanswer c) := DCall c DRet.

(** ** The collection's operations *)

Definition maxRandomLimit : Z := 3.
Definition want : nat := 10.
Definition maxAttempts : nat := 50.
Definition maxRetries : nat := 3.

(** The lookup loop of [getRandomDecoys]; [n] attempts are left. *)
Fixpoint decoy_loop (section sectionSize : Z) (n : nat) (docs seen : list Z) :
    dbprog (result reg_error (list Z)) :=
  match n with
  | O => mret (Ok docs)
  | S n =>
      if bool_decide (want ≤ length docs)%nat then mret (Ok docs) else
      idx ← call (CRand sectionSize);
      if bool_decide (idx ∈ seen) then decoy_loop section sectionSize n docs seen else
      found ← call (CFind (section, idx));
      match found with
      | Err e => mret (Err e)
      | Ok None => decoy_loop section sectionSize n docs (idx :: seen)
      | Ok (Some e) =>
          if Decoy e
          then decoy_loop section sectionSize n (docs ++ [idx]) (idx :: seen)
          else decoy_loop section sectionSize n docs (idx :: seen)
      end
  end.

Definition getRandomDecoys (section sectionSize : Z) : dbprog (result reg_error (list Z)) :=
  r ← decoy_loop section sectionSize maxAttempts [] [];
  match r with
  | Err e => mret (Err e)
  | Ok [] => mret (Err (ErrNoDecoys section))
  | Ok docs => mret (Ok docs)
  end.

(** The noise updates of the decoys that were not taken. *)
Fixpoint noise_models (section index : Z) (docs : list Z) : dbprog (list (selector * change)) :=
  match docs with
  | [] => mret []
  | d :: docs =>
      if bool_decide (d = index) then noise_models section index docs else
      status ← call (CRand maxRandomLimit);
      ws ← noise_models section index docs;
      mret ((mkSelector (section, d) (Some true), mkChange status None) :: ws)
  end.

(** One iteration of the retry loop of [Add]: [None] to retry. *)
Definition add_once (section sectionSize status : Z) : dbprog (option (result reg_error Z)) :=
  decoys ← getRandomDecoys section sectionSize;
  match decoys with
  | Err e => mret (Some (Err e))
  | Ok docs =>
      i ← call (CRand (Z.of_nat (length docs)));
      match docs !! Z.to_nat i with
      | None => mret (Some (Err ErrIndexOutOfRange))
      | Some index =>
          matched ← call (CUpdate (mkSelector (section, index) (Some true))
                                  (mkChange status (Some false)));
          match matched with
          | Err e => mret (Some (Err e))
          | Ok matched =>
              if bool_decide (matched = 0) then mret None else
              if bool_decide (1 < length docs)%nat then
                ws ← noise_models section index docs;
                _ ← call (CBulk ws);
                mret (Some (Ok index))
              else mret (Some (Ok index))
          end
      end
  end.

Fixpoint add_loop (retries : nat) (section sectionSize status : Z) : dbprog (result reg_error Z) :=
  match retries with
  | O => mret (Err (ErrAllocate (Z.of_nat maxRetries) section))
  | S n =>
      r ← add_once section sectionSize status;
      match r with
      | Some r => mret r
      | None => add_loop n section sectionSize status
      end
  end.

Definition Add (section sectionSize status : Z) : dbprog (result reg_error Z) :=
  add_loop maxRetries section sectionSize status.

(** ** Running them *)

Section db.
Context {C : Type} `{Collection C}.
(** [crypto/rand]: the [n]-th draw below [b]. *)
Variable rnd : nat → Z → Z.
(** What other replicas do to the collection before our call made after
    [n] draws. *)
Variable interference : nat → C → C.

(** The collection and the number of draws made so far. *)
Record dbstate := mkDB { coll : C; draws : nat }.

Definition run_call (c : dbcall) (st : dbstate) : dbstate * dbanswer c :=
  let now := interference (draws st) (coll st) in
  match c return dbstate * dbanswer c with
  | CRand b => (mkDB (coll st) (S (draws st)), rnd (draws st) b)
  | CFind k => (mkDB now (draws st), find_one now (fst k) (snd k))
  | CUpdate f u => let '(c, r) := update_one now f u in (mkDB c (draws st), r)
  | CBulk ws => let '(c, r) := bulk_write now ws in (mkDB c (draws st), r)
  end.

Fixpoint run {A} (p : dbprog A) (st : dbstate) : dbstate * A :=
  match p with
  | DRet a => (st, a)
  | DCall c k => let '(st, r) := run_call c st in run (k r) st
  end.

(** [uint8(cryptoRandIntn(maxRandomLimit) & 0xFF)] *)
Definition decoy_status (n : nat) : Z := Z.land (rnd n maxRandomLimit) 255.

Definition section_docs (n : nat) (sectionSize : Z) : list (Z * Z) :=
  map (fun i => (i, decoy_status (n + Z.to_nat i)%nat)) (seqZ 0 sectionSize).

Definition CreateNewSection (st : dbstate) (section sectionSize : Z) :
    dbstate * result reg_error unit :=
  let docs := section_docs (draws st) sectionSize in
  let '(c, r) := insert_many (coll st) section docs in
  (mkDB c (draws st + length docs)%nat, r).

Definition InitializeIfEmpty (st : dbstate) (sectionSize : Z) : dbstate * result reg_error unit :=
  match count_all (coll st) with
  | Err e => (st, Err e)
  | Ok n => if bool_decide (0 < n) then (st, Ok tt) else CreateNewSection st 0 sectionSize
  end.

Definition UpdateStatus (st : dbstate) (section index status : Z) :
    dbstate * result reg_error unit :=
  let '(c, r) := update_one (interference (draws st) (coll st))
    (mkSelector (section, index) None) (mkChange status None) in
  (mkDB c (draws st), match r with Ok _ => Ok tt | Err e => Err e end).

Definition GetAllStatusesForSection (st : dbstate) (section : Z) : result reg_error (list Z) :=
  find_section (coll st) section.

Definition CountDecoysInSectionWithLimit (st : dbstate) (section limit : Z) :
    result reg_error Z :=
  count_decoys (coll st) section limit.

Definition FindOne (st : dbstate) (section index : Z) : result reg_error entry :=
  match find_one (coll st) section index with
  | Err e => Err e
  | Ok None => Err ErrDB
  | Ok (Some e) => Ok e
  end.
End db.
Arguments mkDB {C} _ _.
Arguments coll {C} _.
Arguments draws {C} _.

(** ** The metadata document *)

Record metadata := mkMeta { CurrentSection : Z; Sections : list Z }.

(** The single metadata document: [FindOne] and the [$set] of [UpdateOne]. *)
Class MetaStore (M : Type) := {
  meta_doc : M → metadata;
  meta_find : M → result reg_error metadata;
  meta_update : M → metadata → M * result reg_error unit
}.

Class MetaLaws (M : Type) `{MetaStore M} : Prop := {
  meta_find_ok : ∀ m d, meta_find m = Ok d → meta_doc m = d;
  meta_update_ok : ∀ m d m', meta_update m d = (m', Ok tt) → meta_doc m' = d;
  meta_update_err : ∀ m d m' e,
    meta_update m d = (m', Err e) → meta_doc m' = meta_doc m ∨ meta_doc m' = d
}.

Section meta.
Context {M : Type} `{MetaStore M}.

Definition GetCurrentSection (m : M) : result reg_error Z :=
  d ← meta_find m; Ok (CurrentSection d).

Definition UpdateCurrentSection (m : M) (newSection : Z) : M * result reg_error unit :=
  match meta_find m with
  | Err e => (m, Err e)
  | Ok d => meta_update m (mkMeta newSection (Sections d ++ [newSection]))
  end.

Definition GetAllSections (m : M) : result reg_error (list Z) :=
  d ← meta_find m; Ok (Sections d).
End meta.

(** ** The issuer service *)

Section issuer.
Context {C M : Type} `{Collection C} `{MetaStore M}.
Variable rnd : nat → Z → Z.
Variable interference : nat → C → C.
Variable sectionSize : Z.       (* cfg.Registry.TokenStatusLists.SectionSize *)

(** [scheduled] lists the sections handed to [refreshSectionAsync]. *)
Record service := mkService { db : dbstate (C := C); meta : M; scheduled : list Z }.

Definition decoyThreshold : Z := 1000.

Definition CreateNewSectionIfNeeded (s : service) : service * result reg_error Z :=
  match GetCurrentSection (meta s) with
  | Err e => (s, Err e)
  | Ok currentSection =>
      match CountDecoysInSectionWithLimit (db s) currentSection (decoyThreshold + 1) with
      | Err e => (s, Err e)
      | Ok n =>
          if bool_decide (n ≤ decoyThreshold) then
            let newSection := wrap64 (currentSection + 1) in
            let '(d, r) := CreateNewSection rnd (db s) newSection sectionSize in
            let s := mkService d (meta s) (scheduled s) in
            match r with
            | Err e => (s, Err e)
            | Ok _ =>
                let '(m, r) := UpdateCurrentSection (meta s) newSection in
                let s := mkService (db s) m (scheduled s) in
                match r with
                | Err e => (s, Err e)
                | Ok _ => (s, Ok newSection)
                end
            end
          else (s, Ok currentSection)
      end
  end.

Definition AddStatus (s : service) (status : Z) : service * result reg_error (Z * Z) :=
  let '(s, r) := CreateNewSectionIfNeeded s in
  match r with
  | Err e => (s, Err e)
  | Ok currentSection =>
      let '(d, r) := run rnd interference (Add currentSection sectionSize status) (db s) in
      match r with
      | Err e => (mkService d (meta s) (scheduled s), Err e)
      | Ok index =>
          (mkService d (meta s) (scheduled s ++ [currentSection]), Ok (currentSection, index))
      end
  end.

(** [Service.UpdateStatus] of the issuer. *)
Definition IssuerUpdateStatus (s : service) (section index status : Z) :
    service * result reg_error unit :=
  let '(d, r) := UpdateStatus interference (db s) section index status in
  match r with
  | Err e => (mkService d (meta s) (scheduled s), Err e)
  | Ok _ => (mkService d (meta s) (scheduled s ++ [section]), Ok tt)
  end.
End issuer.
Arguments mkService {C M} _ _ _.
Arguments db {C M} _.
Arguments meta {C M} _.
Arguments scheduled {C M} _.

(** ** What the database may only do to an allocated slot

    [keeps]: no allocated entry changes and no entry disappears.  [evolves]:
    an allocated slot stays allocated, though its status may be updated. *)

Definition allocated (m : slots) (k : slot) : Prop :=
  ∃ e, m !! k = Some e ∧ Decoy e = false.

Definition keeps (m m' : slots) : Prop :=
  (∀ k e, m !! k = Some e → Decoy e = false → m' !! k = Some e) ∧
  (∀ k, is_Some (m !! k) → is_Some (m' !! k)).

Definition evolves (m m' : slots) : Prop :=
  (∀ k, allocated m k → allocated m' k) ∧
  (∀ k, is_Some (m !! k) → is_Some (m' !! k)).

#[global] Instance keeps_preorder : PreOrder keeps.
Proof.
  split; [intros m; split; by eauto|]. intros m1 m2 m3 [] []. split; eauto.
Qed.
#[global] Instance evolves_preorder : PreOrder evolves.
Proof.
  split; [intros m; split; by eauto|]. intros m1 m2 m3 [] []. split; eauto.
Qed.

Lemma keeps_evolves m m' : keeps m m' → evolves m m'.
Proof. intros [H1 H2]. split; [|done]. intros k (e & ? & ?). exists e. eauto. Qed.
#[export] Hint Resolve keeps_evolves : vc.

(** An update whose filter asks for a decoy. *)
Definition guarded (w : selector * change) : Prop := sel_decoy (fst w) = Some true.

Lemma updated_keeps m f u : sel_decoy f = Some true → keeps m (fst (updated m f u)).
Proof.
  unfold updated, selects. intros ->. destruct (m !! sel_slot f) as [e|] eqn:E; [|done].
  case_bool_decide as D; [|done]. cbn. split.
  - intros k' e' Hk' He'. destruct (decide (sel_slot f = k')) as [<-|]; simplify_map_eq; congruence.
  - intros k' Hk'. rewrite lookup_insert_is_Some. destruct (decide (sel_slot f = k')); naive_solver.
Qed.

Lemma updated_other m f u k : sel_slot f ≠ k → fst (updated m f u) !! k = m !! k.
Proof. intros. unfold updated. repeat case_match; cbn; by simplify_map_eq. Qed.

Lemma bulk_keeps m ws : Forall guarded ws → keeps m (bulk_updated m ws).
Proof.
  intros Hw. revert m. induction Hw as [|w ws Hw _ IH]; intros m; [done|].
  etrans; [by apply updated_keeps|apply IH].
Qed.

Lemma bulk_other m ws k : Forall (fun w => sel_slot (fst w) ≠ k) ws → bulk_updated m ws !! k = m !! k.
Proof.
  intros Hw. revert m. induction Hw as [|w ws Hw _ IH]; intros m; [done|]. cbn.
  unfold bulk_updated in IH. rewrite IH. by apply updated_other.
Qed.

Lemma insert_decoys_keeps s docs m :
  (∀ i, i ∈ map fst docs → m !! (s, i) = None) → keeps m (insert_decoys s docs m).
Proof.
  intros Hf. enough (∀ m', keeps m m' → keeps m (insert_decoys s docs m')) as Hx
    by (by apply Hx).
  induction docs as [|d docs IH]; intros m' [K1 K2]; [done|].
  apply IH; [set_solver|]. split.
  - intros k e Hk He. rewrite lookup_insert_ne; [by apply K1|].
    intros <-. rewrite Hf in Hk; [done|set_solver].
  - intros k Hk. rewrite lookup_insert_is_Some.
    destruct (decide ((s, fst d) = k)); naive_solver.
Qed.

Lemma insert_decoys_lookup s docs m i :
  i ∈ map fst docs → is_Some (insert_decoys s docs m !! (s, i)).
Proof.
  enough (∀ m, i ∈ map fst docs ∨ is_Some (m !! (s, i)) →
            is_Some (insert_decoys s docs m !! (s, i))) by auto.
  induction docs as [|d docs IH]; intros m' Hi; cbn in *; [set_solver|].
  apply IH. rewrite lookup_insert_is_Some.
  destruct (decide ((s, fst d) = (s, i))); [by auto|].
  destruct Hi as [Hi|Hi]; [|auto]. left. set_solver.
Qed.

(** ** Requests that overlap

    Every replica serves many requests at once.  A thread is an [Add] that
    was called and has made some of its calls; the calls of all the threads
    are interleaved in any order, with draws in range and whatever the
    collection answers.  Between them statuses are updated and documents of
    new sections are inserted.  [InsertMany] and [BulkWrite] make one write
    after another, so one insertion may be several of these steps, and the
    last writes of a bulk may come later than its first ones.  [updates] lists
    the statuses that were asked for. *)

Section pool.
Context {C : Type} `{CollectionLaws C}.

Definition quiet : nat → C → C := fun _ c => c.

Record thread := mkThread {
  th_section : Z;
  th_status : Z;
  th_prog : dbprog (result reg_error Z)
}.

Record pool := mkPool { p_coll : C; threads : list thread; updates : list (slot * Z) }.

(** One call and an answer it may have. *)
Definition answers (c : C) (o : dbcall) : C → dbanswer o → Prop :=
  match o return C → dbanswer o → Prop with
  | CRand b => fun c' i => c' = c ∧ 0 ≤ i < b
  | CFind k => fun c' r => c' = c ∧ find_one c (fst k) (snd k) = r
  | CUpdate f u => fun c' r => update_one c f u = (c', r)
  | CBulk ws => fun c' r => ∃ rest, rest `suffix_of` ws ∧ bulk_write c rest = (c', r)
  end.

Inductive pool_step : pool → pool → Prop :=
| step_called c ts us section sectionSize status :
    pool_step (mkPool c ts us)
      (mkPool c (ts ++ [mkThread section status (Add section sectionSize status)]) us)
| step_answered c ts us i section status o k c' r :
    ts !! i = Some (mkThread section status (DCall o k)) →
    answers c o c' r →
    pool_step (mkPool c ts us) (mkPool c' (<[i := mkThread section status (k r)]> ts) us)
| step_written c ts us i section status ws k w :
    ts !! i = Some (mkThread section status (DCall (CBulk ws) k)) → w ∈ ws →
    pool_step (mkPool c ts us) (mkPool (fst (update_one c (fst w) (snd w))) ts us)
| step_updated c ts us n section index status :
    pool_step (mkPool c ts us)
      (mkPool (coll (fst (UpdateStatus quiet (mkDB c n) section index status))) ts
              (((section, index), status) :: us))
| step_inserted c ts us section docs :
    pool_step (mkPool c ts us) (mkPool (fst (insert_many c section docs)) ts us).

(** The slot a thread has claimed, after an answer. *)
Definition held (o : dbcall) : dbanswer o → option slot → option slot :=
  match o return dbanswer o → option slot → option slot with
  | CUpdate f _ => fun r h =>
      match r with Ok n => if bool_decide (n = 0) then h else Some (sel_slot f) | Err _ => h end
  | _ => fun _ h => h
  end.

(** What an [Add] of a status may call. *)
Definition claims_only (status : Z) (o : dbcall) : Prop :=
  match o with
  | CUpdate f u => sel_decoy f = Some true ∧ u = mkChange status (Some false)
  | CBulk ws => Forall guarded ws
  | _ => True
  end.

(** It returns the slot it has claimed. *)
Fixpoint returns_held {A} (status : Z) (Q : option slot → A → Prop) (h : option slot)
    (p : dbprog A) : Prop :=
  match p with
  | DRet a => Q h a
  | DCall o k => claims_only status o ∧ ∀ r, returns_held status Q (held o r h) (k r)
  end.

Lemma returns_held_bind {A B} v (p : dbprog A) (f : A → dbprog B) Q h :
  returns_held v (fun h a => returns_held v Q h (f a)) h p → returns_held v Q h (p ≫= f).
Proof. revert h. induction p as [a|o k IH]; intros h; cbn; [done|]. intros [Ho Hk]. eauto. Qed.

Lemma returns_held_mono {A} v (p : dbprog A) (Q Q' : option slot → A → Prop) h :
  returns_held v Q h p → (∀ h a, Q h a → Q' h a) → returns_held v Q' h p.
Proof. revert h. induction p as [a|o k IH]; intros h; cbn; [eauto|]. intros [Ho Hk]. eauto. Qed.

Lemma decoy_loop_held v section size n docs seen h :
  returns_held v (fun h' _ => h' = h) h (decoy_loop section size n docs seen).
Proof.
  revert docs seen. induction n as [|n IH]; intros docs seen; cbn; [done|].
  case_bool_decide; [done|]. split; [done|]. intros idx. case_bool_decide; [done|].
  split; [done|]. intros [[e|]|]; cbn; [destruct (Decoy e)| |]; done.
Qed.

Lemma noise_models_held v section index docs h :
  returns_held v (fun h' ws => h' = h ∧ Forall guarded ws) h (noise_models section index docs).
Proof.
  induction docs as [|d docs IH]; cbn; [done|]. case_bool_decide; [done|]. split; [done|]. intros status.
  apply returns_held_bind. eapply returns_held_mono; [exact IH|]. intros ? ws [-> Hw]. cbn. split; [done|].
  by constructor.
Qed.

Definition returned (section : Z) (h : option slot) (r : result reg_error Z) : Prop :=
  match r with Ok i => h = Some (section, i) | Err _ => True end.

Lemma add_once_held v section size :
  returns_held v (fun h r => match r with Some r => returned section h r | None => h = None end)
    None (add_once section size v).
Proof.
  apply returns_held_bind. unfold getRandomDecoys. apply returns_held_bind.
  eapply returns_held_mono; [apply decoy_loop_held|]. intros h [[|d docs]|e] ->; cbn -[lookup]; try done.
  split; [done|]. intros j. case_match eqn:Ej; [|done]. split; [done|].
  intros [m|e]; cbn; [|done]. case_bool_decide; cbn; [done|]. case_bool_decide; [|done].
  apply returns_held_bind. eapply returns_held_mono; [apply (noise_models_held v section _ (d :: docs))|].
  intros h ws [-> Hw]. by split.
Qed.

Lemma Add_held v section size : returns_held v (returned section) None (Add section size v).
Proof.
  unfold Add. generalize maxRetries. intros n. induction n as [|n IH]; [done|].
  cbn [add_loop]. apply returns_held_bind. eapply returns_held_mono; [apply add_once_held|].
  intros h [r|] Hr; cbn; [done|by subst].
Qed.

(** ** No slot is given out twice *)

(** A claimed slot holds the status it was claimed with, or one that was
    asked for since. *)
Definition slot_of (m : slots) (us : list (slot * Z)) (status : Z) (k : slot) : Prop :=
  ∃ w, m !! k = Some (mkEntry w false) ∧ (w = status ∨ (k, w) ∈ us).

Lemma slot_of_allocated m us v k : slot_of m us v k → allocated m k.
Proof. intros (w & Hw & _). by exists (mkEntry w false). Qed.

Lemma slot_of_keeps m m' us v k : keeps m m' → slot_of m us v k → slot_of m' us v k.
Proof. intros [K _] (w & Hw & Hv). exists w. split; [by apply (K k (mkEntry w false))|done]. Qed.

Lemma update_one_keeps c f u :
  sel_decoy f = Some true → keeps (entries c) (entries (fst (update_one c f u))).
Proof.
  intros Hf. pose proof (updated_keeps (entries c) f u Hf) as K.
  destruct (update_one c f u) as [c' [n|e]] eqn:Hu; cbn.
  - apply update_one_ok in Hu. by rewrite Hu in K.
  - by apply update_one_err in Hu as [-> | ->].
Qed.

Lemma answers_keeps c o c' r v : answers c o c' r → claims_only v o → keeps (entries c) (entries c').
Proof.
  destruct o as [b|k|f u|ws]; cbn; [by intros [-> _]|by intros [-> _]|..].
  - intros Hu [Hf _]. pose proof (update_one_keeps c f u Hf) as K. by rewrite Hu in K.
  - intros (rest & [done ->] & (pre & [post ->] & ->)%bulk_write_any) [_ [Hp _]%Forall_app]%Forall_app.
    by apply bulk_keeps.
Qed.

Lemma answers_held c o c' r v h k :
  answers c o c' r → claims_only v o → held o r h = Some k →
  h = Some k ∨ ¬ allocated (entries c) k ∧ entries c' !! k = Some (mkEntry v false).
Proof.
  destruct o as [b|k0|f u|ws]; cbn; auto. destruct r as [n|e]; [|auto].
  intros Hu%update_one_ok [Hf ->]. case_bool_decide as Hn; [by auto|]. intros [= <-]. right.
  unfold updated, selects in Hu. rewrite Hf in Hu.
  destruct (entries c !! sel_slot f) as [e|] eqn:E; [|congruence].
  case_bool_decide as D; [|congruence]. injection Hu as <- _. split; [|by simplify_map_eq].
  intros (e' & ? & ?). congruence.
Qed.

Lemma UpdateStatus_slot c n section index status us k v :
  slot_of (entries c) us v k →
  slot_of (entries (coll (fst (UpdateStatus quiet (mkDB c n) section index status))))
    (((section, index), status) :: us) v k.
Proof.
  unfold UpdateStatus, quiet. cbn. set (f := mkSelector _ _). set (u := mkChange _ _).
  intros (w & Hw & Hv).
  assert (slot_of (entries c) ((section, index, status) :: us) v k) as Same.
  { exists w. split; [done|]. destruct Hv; [by left|right; by constructor]. }
  assert (slot_of (fst (updated (entries c) f u)) ((section, index, status) :: us) v k) as Changed.
  { unfold updated, selects. cbn. case_match eqn:E; [|exact Same]. cbn.
    destruct (decide ((section, index) = k)) as [<-|Hne].
    - exists status. simplify_map_eq. split; [done|]. right. constructor.
    - unfold slot_of. rewrite lookup_insert_ne by done. exact Same. }
  destruct (update_one _ _ _) as [c' [m|e]] eqn:Eu; cbn.
  - apply update_one_ok in Eu. by rewrite Eu in Changed.
  - by apply update_one_err in Eu as [-> | ->].
Qed.

Lemma UpdateStatus_evolves c n section index status :
  evolves (entries c) (entries (coll (fst (UpdateStatus quiet (mkDB c n) section index status)))).
Proof.
  unfold UpdateStatus, quiet. cbn. set (f := mkSelector _ _). set (u := mkChange _ _).
  assert (evolves (entries c) (fst (updated (entries c) f u))) as E.
  { unfold updated. case_match eqn:El; [|done]. case_match; [|done]. cbn in El |- *. split.
    - intros k (e' & Hk & Hd). destruct (decide ((section, index) = k)) as [<-|].
      + eexists. simplify_map_eq. split; [done|]. exact Hd.
      + exists e'. by rewrite lookup_insert_ne.
    - intros k Hk. rewrite lookup_insert_is_Some. destruct (decide ((section, index) = k)); naive_solver. }
  destruct (update_one _ _ _) as [c' [m|e]] eqn:Eu; cbn.
  - apply update_one_ok in Eu. by rewrite Eu in E.
  - by apply update_one_err in Eu as [-> | ->].
Qed.

Lemma insert_many_keeps c section docs :
  keeps (entries c) (entries (fst (insert_many c section docs))).
Proof.
  destruct (insert_many _ _ _) as [c' [[]|e]] eqn:Ei; cbn.
  - apply insert_many_ok in Ei as (_ & _ & Hf & ->). by apply insert_decoys_keeps.
  - apply insert_many_err in Ei as (pre & _ & Hf & ->). by apply insert_decoys_keeps.
Qed.

Lemma CreateNewSection_keeps rnd st section size :
  keeps (entries (coll st)) (entries (coll (fst (CreateNewSection rnd st section size)))).
Proof.
  unfold CreateNewSection. pose proof (insert_many_keeps (coll st) section (section_docs rnd (draws st) size)) as K.
  by destruct (insert_many _ _ _).
Qed.

(** [hs] are the slots the threads have claimed. *)
Definition pool_inv (c0 : C) (p : pool) (hs : gmap nat slot) : Prop :=
  (∀ i t, threads p !! i = Some t →
     returns_held (th_status t) (returned (th_section t)) (hs !! i) (th_prog t)) ∧
  (∀ i k, hs !! i = Some k → ¬ allocated (entries c0) k ∧
     ∃ t, threads p !! i = Some t ∧ slot_of (entries (p_coll p)) (updates p) (th_status t) k) ∧
  (∀ i j k, hs !! i = Some k → hs !! j = Some k → i = j) ∧
  evolves (entries c0) (entries (p_coll p)).

Lemma pool_answered c0 c ts us hs i section v o k c' r :
  ts !! i = Some (mkThread section v (DCall o k)) → answers c o c' r →
  pool_inv c0 (mkPool c ts us) hs →
  ∃ hs', pool_inv c0 (mkPool c' (<[i := mkThread section v (k r)]> ts) us) hs'.
Proof.
  intros Hi Ha (Ht & Hh & Hd & He). cbn in *. destruct (Ht _ _ Hi) as [Ho Hk]. cbn in Ho, Hk.
  pose proof (answers_keeps _ _ _ _ _ Ha Ho) as K. pose proof (lookup_lt_Some _ _ _ Hi) as Hlt.
  assert (∀ j x, hs !! j = Some x → ∃ t, <[i := mkThread section v (k r)]> ts !! j = Some t ∧
            slot_of (entries c') us (th_status t) x) as Old.
  { intros j x Hj. destruct (Hh _ _ Hj) as (_ & t & Hjt & Hs). apply (slot_of_keeps _ _ _ _ _ K) in Hs.
    destruct (decide (i = j)) as [<-|Hne]; [|by exists t; rewrite list_lookup_insert_ne].
    eexists. rewrite list_lookup_insert_eq by done. split; [done|]. rewrite Hi in Hjt. by injection Hjt as <-. }
  set (h' := held o r (hs !! i)) in *. exists (partial_alter (fun _ => h') i hs).
  assert (∀ x, h' = Some x → hs !! i = Some x ∨
            ¬ allocated (entries c) x ∧ entries c' !! x = Some (mkEntry v false)) as New
    by (intros x Hx; by eapply answers_held).
  split_and!; cbn; [| | |by etrans; [exact He|apply keeps_evolves]].
  - intros j t Hj. destruct (decide (i = j)) as [<-|Hne].
    + rewrite lookup_partial_alter_eq. rewrite list_lookup_insert_eq in Hj by done. injection Hj as <-. apply Hk.
    + rewrite lookup_partial_alter_ne by done. rewrite list_lookup_insert_ne in Hj by done. by apply Ht.
  - intros j x. destruct (decide (i = j)) as [<-|Hne].
    + rewrite lookup_partial_alter_eq. intros [Hx|[Hn Hx]]%New; [split; [by eapply Hh|by apply Old]|].
      split; [intros Hal; by apply Hn, (proj1 He)|]. eexists. rewrite list_lookup_insert_eq by done.
      split; [done|]. exists v. by auto.
    + rewrite lookup_partial_alter_ne by done. intros Hx. split; [by eapply Hh|by apply Old].
  - assert (∀ j x, i ≠ j → h' = Some x → hs !! j = Some x → False) as Clash.
    { intros j x Hne [Hx|[Hn _]]%New Hj; [by apply Hne, (Hd i j x)|]. apply Hn.
      destruct (Hh _ _ Hj) as (_ & t & _ & Hs). by eapply slot_of_allocated. }
    intros j1 j2 x. destruct (decide (i = j1)) as [<-|H1], (decide (i = j2)) as [<-|H2];
      rewrite ?lookup_partial_alter_eq, ?lookup_partial_alter_ne by done; [done|..]; intros Hx Hy.
    + by destruct (Clash _ _ H2 Hx Hy).
    + by destruct (Clash _ _ H1 Hy Hx).
    + by eapply Hd.
Qed.

Lemma pool_kept c0 c c' ts us hs :
  keeps (entries c) (entries c') → pool_inv c0 (mkPool c ts us) hs → pool_inv c0 (mkPool c' ts us) hs.
Proof.
  intros K (Ht & Hh & Hd & He). split_and!; [done| |done|]; cbn in *.
  - intros j k Hk. destruct (Hh _ _ Hk) as (Hn & t & Hlt & Hs). split; [done|]. exists t. split; [done|].
    by eapply slot_of_keeps.
  - etrans; [exact He|]. by apply keeps_evolves.
Qed.

Lemma allocation_step_inv c0 p p' hs : pool_step p p' → pool_inv c0 p hs → ∃ hs', pool_inv c0 p' hs'.
Proof.
  intros Hp (Ht & Hh & Hd & He).
  destruct Hp as [c ts us s size v|c ts us i s v o k c' r Hi Ha|c ts us i s v ws k w Hi Hw
                  |c ts us n s i v|c ts us s docs];
    cbn [p_coll threads updates] in *.
  - exists hs. split_and!; [|intros i k Hk; split; [by eapply Hh|]|done..];
      cbn [p_coll threads updates].
    + intros i t [Hi|[Hl [_ <-]%list_lookup_singleton_Some]]%lookup_app_Some; [by apply Ht|].
      destruct (hs !! i) as [k|] eqn:Ek; [|apply Add_held].
      apply Hh in Ek as (_ & t & Hlt & _). apply lookup_lt_Some in Hlt. lia.
    + destruct (Hh _ _ Hk) as (_ & t & Hlt & Hs). exists t. split; [|done]. by apply lookup_app_l_Some.
  - eapply pool_answered; [exact Hi|exact Ha|by split_and!].
  - exists hs. eapply pool_kept; [|by split_and!]. apply update_one_keeps.
    destruct (Ht _ _ Hi) as [Hg _]. cbn in Hg. rewrite Forall_forall in Hg. by apply Hg.
  - exists hs. split_and!; [done| |done|]; cbn.
    + intros j k Hk. destruct (Hh _ _ Hk) as (Hn & t & Hlt & Hs). split; [done|]. exists t. split; [done|].
      by apply UpdateStatus_slot.
    + etrans; [exact He|]. apply UpdateStatus_evolves.
  - exists hs. eapply pool_kept; [|by split_and!]. apply insert_many_keeps.
Qed.

Lemma pool_reachable_inv c0 p : rtc pool_step (mkPool c0 [] []) p → ∃ hs, pool_inv c0 p hs.
Proof.
  intros Hr. enough (∃ hs, pool_inv c0 (mkPool c0 [] []) hs) as Hs.
  { revert Hs. induction Hr as [|p1 p2 p3 Hs _ IH]; [done|]. intros [hs Hp]. apply IH. by eapply allocation_step_inv. }
  exists ∅. split_and!; cbn; [set_solver|..|done]; intros *; by rewrite lookup_empty.
Qed.

(** C31: Any number of [Add] calls overlap in every way, call by call of the
    database, with any failures of it, with statuses being updated and
    sections being created: no two of them return the same slot.  A slot that
    was returned was not allocated at the start, is allocated, and holds the
    status given to [Add] unless an update asked for another. *)
Theorem no_slot_reused c0 p :
  rtc pool_step (mkPool c0 [] []) p →
  (∀ i section v index, threads p !! i = Some (mkThread section v (DRet (Ok index))) →
     ¬ allocated (entries c0) (section, index) ∧
     slot_of (entries (p_coll p)) (updates p) v (section, index)) ∧
  (∀ i j section v v' index,
     threads p !! i = Some (mkThread section v (DRet (Ok index))) →
     threads p !! j = Some (mkThread section v' (DRet (Ok index))) → i = j).
Proof.
  intros (hs & Ht & Hh & Hd & _)%pool_reachable_inv.
  assert (∀ i section v index, threads p !! i = Some (mkThread section v (DRet (Ok index))) →
            hs !! i = Some (section, index)) as Held by (intros * Hi; by apply Ht in Hi).
  split.
  - intros i section v index Hi. pose proof (Held _ _ _ _ Hi) as Hk.
    destruct (Hh _ _ Hk) as (Hn & t & Hlt & Hs). rewrite Hi in Hlt. by injection Hlt as <-.
  - intros i j section v v' index Hi Hj. eapply Hd; eauto.
Qed.
End pool.
Arguments quiet {C} _ _.

(** ** Allocation without interference *)

(** The driver answers. *)
Class Reliable (C : Type) `{Collection C} : Prop := {
  find_one_answers : ∀ c s i, ∃ e, find_one c s i = Ok e;
  update_one_answers : ∀ c f u, ∃ n, snd (update_one c f u) = Ok n
}.

Section quiet.
Context {C : Type} `{CollectionLaws C}.
Variable rnd : nat → Z → Z.

Abbreviation m_of st := (entries (coll st)).
Abbreviation runs p st := (run rnd quiet p st).

Lemma run_bind {A B} (p : dbprog A) (f : A → dbprog B) st :
  runs (p ≫= f) st = runs (f (snd (runs p st))) (fst (runs p st)).
Proof.
  revert st. induction p as [a|c k IH]; intros st; cbn [run]; [done|].
  change (runs (DCall c k ≫= f) st) with (let '(st, r) := run_call rnd quiet c st in runs (k r ≫= f) st).
  destruct (run_call _ _ _ _). apply IH.
Qed.

Definition is_decoy (m : slots) (section i : Z) : Prop :=
  ∃ e, m !! (section, i) = Some e ∧ Decoy e = true.

Lemma decoy_loop_quiet st section size n docs seen st' docs' :
  runs (decoy_loop section size n docs seen) st = (st', docs') →
  coll st' = coll st ∧
  ∀ l, docs' = Ok l → (∀ i, i ∈ docs → is_decoy (m_of st) section i) →
    ∀ i, i ∈ l → is_decoy (m_of st) section i.
Proof.
  revert st docs seen. induction n as [|n IH]; intros st docs seen; cbn.
  { intros [= <- <-]. naive_solver. }
  case_bool_decide; [intros [= <- <-]; naive_solver|]. cbn.
  case_bool_decide; [apply (IH (mkDB _ _))|]. cbn.
  destruct (find_one _ _ _) as [[e|]|] eqn:Ef; [|apply (IH (mkDB _ _))|intros [= <- <-]; done].
  destruct (Decoy e) eqn:Ed; [|apply (IH (mkDB _ _))].
  intros Hl. destruct (IH (mkDB _ _) _ _ Hl) as [E1 E2]. split; [done|].
  intros l -> Hd. apply E2; [done|].
  intros i [Hi| ->%list_elem_of_singleton]%elem_of_app; [by apply Hd|].
  exists e. split; [|done]. by apply (find_one_ok _ _ _ (Some e)) in Ef.
Qed.

Lemma draws_split (P : nat → Prop) d n :
  (∀ j, (j < S n)%nat → P (d + j)%nat) ↔ P d ∧ ∀ j, (j < n)%nat → P (S d + j)%nat.
Proof.
  split.
  - intros HP. split; [rewrite <- (Nat.add_0_r d); apply HP; lia|].
    intros j Hj. replace (S d + j)%nat with (d + S j)%nat by lia. apply HP. lia.
  - intros [H1' H2'] [|j] Hj; [by rewrite Nat.add_0_r|].
    replace (d + S j)%nat with (S d + j)%nat by lia. apply H2'. lia.
Qed.

(** Both directions of when the lookup comes back empty-handed. *)
Lemma decoy_loop_empty `{!Reliable C} st section size n docs seen :
  (∀ i, i ∈ seen → is_decoy (m_of st) section i → docs ≠ []) →
  ∃ st' docs', runs (decoy_loop section size n docs seen) st = (st', Ok docs') ∧
    (docs' = [] ↔ docs = [] ∧
      ∀ j, (j < n)%nat → ¬ is_decoy (m_of st) section (rnd (draws st + j) size)).
Proof.
  revert st docs seen. induction n as [|n IH]; intros st docs seen Hseen.
  { cbn. eexists _, _. split; [done|]. split; [split; [done|lia]|naive_solver]. }
  cbn. case_bool_decide as Hlen.
  { eexists _, _. split; [done|]. split; [|naive_solver].
    intros ->. unfold want in Hlen. cbn in Hlen. lia. }
  setoid_rewrite (draws_split (fun x => ¬ is_decoy (m_of st) section (rnd x size))).
  cbn. set (idx := rnd (draws st) size).
  case_bool_decide as Hs.
  { destruct (IH (mkDB (coll st) (S (draws st))) docs seen Hseen) as (st' & l & -> & Hl).
    eexists _, _. split; [done|]. rewrite Hl. cbn. naive_solver. }
  cbn. destruct (find_one_answers (coll st) section idx) as [r Hr]. unfold quiet at 1. cbn. rewrite Hr.
  pose proof (find_one_ok _ _ _ _ Hr) as Hf.
  destruct r as [e|]; [destruct (Decoy e) eqn:Ed|].
  { destruct (IH (mkDB (coll st) (S (draws st))) (docs ++ [idx])%list (idx :: seen)) as (st' & l & El & Hl).
    { intros _ _ _ []%app_eq_nil. done. }
    eexists _, _. split; [exact El|]. rewrite Hl. split.
    - intros [[]%app_eq_nil _]. done.
    - intros (-> & Hn & _). destruct Hn. exists e. done. }
  all: destruct (IH (mkDB (coll st) (S (draws st))) docs (idx :: seen)) as (st' & l & El & Hl).
  all: try (intros i [->|Hi]%elem_of_cons; [intros (e' & ? & ?); cbn in *; congruence|by apply Hseen]).
  all: eexists _, _; split; [exact El|]; rewrite Hl; cbn.
  all: split; [|naive_solver]; intros []; split_and!; try done; intros (e' & ? & ?); congruence.
Qed.

Lemma getRandomDecoys_quiet `{!Reliable C} st section size :
  ∃ st', coll st' = coll st ∧
    ((∃ docs, runs (getRandomDecoys section size) st = (st', Ok docs) ∧
        docs ≠ [] ∧ (∀ i, i ∈ docs → is_decoy (m_of st) section i) ∧
        ¬ ∀ j, (j < maxAttempts)%nat → ¬ is_decoy (m_of st) section (rnd (draws st + j) size)) ∨
     (runs (getRandomDecoys section size) st = (st', Err (ErrNoDecoys section)) ∧
        ∀ j, (j < maxAttempts)%nat → ¬ is_decoy (m_of st) section (rnd (draws st + j) size))).
Proof.
  unfold getRandomDecoys. generalize maxAttempts. intros n.
  destruct (decoy_loop_empty st section size n [] []) as (st' & l & El & Hl); [set_solver|].
  rewrite run_bind, El. cbn [fst snd]. apply decoy_loop_quiet in El as [Ec Ed]. exists st'. split; [done|].
  destruct l as [|i l].
  - right. split; [done|]. by apply Hl.
  - left. eexists. split_and!; [done..| |].
    + by apply Ed; [done|set_solver].
    + intros Hj. pose proof (proj2 Hl (conj eq_refl Hj)). done.
Qed.

(** The noise updates ask for decoys other than the slot that was taken. *)
Lemma noise_models_quiet section index docs st :
  coll (fst (runs (noise_models section index docs) st)) = coll st ∧
  Forall (fun w => guarded w ∧ ∃ d, sel_slot (fst w) = (section, d) ∧ d ≠ index)
    (snd (runs (noise_models section index docs) st)).
Proof.
  revert st. induction docs as [|d docs IH]; intros st; [done|]. cbn [noise_models].
  case_bool_decide; [apply IH|]. rewrite run_bind. cbn [call run run_call fst snd].
  rewrite run_bind. cbn [run fst snd]. destruct (IH (mkDB (coll st) (S (draws st)))) as [Ec Hw].
  split; [exact Ec|]. constructor; [|exact Hw]. split; [done|]. by exists d.
Qed.

(** The round after a decoy was claimed. *)
Lemma claimed_quiet section index docs st :
  let rest := (if bool_decide (1 < length docs)%nat then
                 ws ← noise_models section index docs; _ ← call (CBulk ws); mret (Some (Ok index))
               else mret (Some (Ok index))) : dbprog (option (result reg_error Z)) in
  snd (runs rest st) = Some (Ok index) ∧
  keeps (m_of st) (m_of (fst (runs rest st))) ∧
  ∀ k, fst k ≠ section ∨ k = (section, index) → m_of (fst (runs rest st)) !! k = m_of st !! k.
Proof.
  cbn zeta. case_bool_decide; [|done]. rewrite run_bind.
  destruct (noise_models_quiet section index docs st) as [Ec Hw].
  destruct (runs (noise_models section index docs) st) as [st1 ws]. cbn [fst snd] in *.
  cbn. unfold quiet. destruct (bulk_write _ _) as [c r] eqn:Eb. cbn.
  apply bulk_write_any in Eb as (pre & [post ->] & ->). apply Forall_app in Hw as [Hw _].
  rewrite Ec. split_and!; [done|apply bulk_keeps; eapply Forall_impl; [exact Hw|naive_solver]|].
  intros k Hk. apply bulk_other. eapply Forall_impl; [exact Hw|]. intros w (_ & d & -> & Hd) <-.
  destruct Hk as [Hk|Hk]; [done|]. by injection Hk.
Qed.

Lemma Add_quiet_lemma `{!Reliable C} st section size v :
  (∀ n b, 0 < b → 0 ≤ rnd n b < b) →
  match runs (Add section size v) st with
  | (st', Ok i) =>
      is_decoy (m_of st) section i ∧
      m_of st' !! (section, i) = Some (mkEntry v false) ∧
      keeps (m_of st) (m_of st') ∧
      ∀ k, fst k ≠ section → m_of st' !! k = m_of st !! k
  | (st', Err e) =>
      e = ErrNoDecoys section ∧ m_of st' = m_of st ∧
      ∀ j, (j < maxAttempts)%nat → ¬ is_decoy (m_of st) section (rnd (draws st + j) size)
  end.
Proof.
  intros Hrnd. unfold Add. change maxRetries with (S 2). generalize 2%nat. intros n. cbn [add_loop].
  rewrite run_bind. unfold add_once. rewrite run_bind.
  destruct (getRandomDecoys_quiet st section size) as (st1 & Ec & [(docs & -> & Hne & Hd & _) | [-> Hn]]);
    [|cbn; by rewrite Ec].
  cbn [fst snd]. rewrite run_bind. cbn [call run run_call fst snd].
  assert (0 < Z.of_nat (length docs)) as Hb by (destruct docs; [done|cbn; lia]).
  pose proof (Hrnd (draws st1) _ Hb) as Hr.
  destruct (lookup_lt_is_Some_2 docs (Z.to_nat (rnd (draws st1) (Z.of_nat (length docs))))) as [i Hi]; [lia|].
  rewrite Hi. apply list_elem_of_lookup_2 in Hi. destruct (Hd _ Hi) as (e & He & Hde).
  rewrite run_bind. cbn [call run run_call fst snd]. unfold quiet at 1.
  set (f := mkSelector (section, i) (Some true)). set (u := mkChange v (Some false)).
  destruct (update_one_answers (coll st1) f u) as [k Hk]. cbn [coll draws].
  destruct (update_one _ _ _) as [c r] eqn:Ecl. cbn [fst snd] in *. subst r.
  apply update_one_ok in Ecl. rewrite Ec in Ecl.
  pose proof (updated_keeps (m_of st) f u eq_refl) as K. rewrite Ecl in K. cbn [fst] in K.
  unfold updated in Ecl. cbn in Ecl. rewrite He in Ecl. unfold selects in Ecl. cbn in Ecl.
  rewrite Hde in Ecl. cbn in Ecl. injection Ecl as Em <-.
  rewrite (bool_decide_eq_false_2 (1 = 0)) by done.
  destruct (claimed_quiet section i docs (mkDB c (S (draws st1)))) as (E1 & K2 & O2).
  rewrite E1. cbn [run]. split_and!.
  - by exists e.
  - rewrite O2 by auto. cbn. rewrite <- Em. by simplify_map_eq.
  - etrans; [exact K|exact K2].
  - intros k Hk. rewrite O2 by auto. cbn. rewrite <- Em. apply lookup_insert_ne. intros <-. done.
Qed.

(** With a reliable database and no interference, [Add] either returns
    an index that was a decoy of the section and stores the given status
    there, leaving every allocated entry and every other section as they
    were, or it returns the no-decoys error, which happens exactly when
    none of the fifty random indices was a decoy, and changes nothing. *)
Theorem Add_quiet `{!Reliable C} st section size v :
  (∀ n b, 0 < b → 0 ≤ rnd n b < b) →
  match runs (Add section size v) st with
  | (st', Ok i) =>
      is_decoy (m_of st) section i ∧
      m_of st' !! (section, i) = Some (mkEntry v false) ∧
      keeps (m_of st) (m_of st') ∧
      ∀ k, fst k ≠ section → m_of st' !! k = m_of st !! k
  | (st', Err e) =>
      e = ErrNoDecoys section ∧ m_of st' = m_of st ∧
      ∀ j, (j < maxAttempts)%nat → ¬ is_decoy (m_of st) section (rnd (draws st + j) size)
  end.
Proof. apply Add_quiet_lemma. Qed.
End quiet.

(** ** The issuer service *)

Section issuer_theorems.
Context {C M : Type} `{CollectionLaws C} `{MetaLaws M}.
Variable rnd : nat → Z → Z.
Variable sectionSize : Z.

Abbreviation s_entries s := (entries (coll (db s))).

(** A section that is created is full of decoys and becomes current; when
    it is not needed nothing changes. *)
Lemma CreateNewSectionIfNeeded_spec (s s' : service (C := C) (M := M)) section :
  CreateNewSectionIfNeeded rnd sectionSize s = (s', Ok section) →
  keeps (s_entries s) (s_entries s') ∧ CurrentSection (meta_doc (meta s')) = section ∧
  scheduled s' = scheduled s.
Proof.
  unfold CreateNewSectionIfNeeded, GetCurrentSection, CountDecoysInSectionWithLimit.
  destruct (meta_find (meta s)) as [d|] eqn:Em; cbn; [|done].
  destruct (count_decoys _ _ _) as [n|]; [|done].
  case_bool_decide; [|by intros [= <- <-]; rewrite (meta_find_ok _ _ Em)].
  pose proof (CreateNewSection_keeps rnd (db s) (wrap64 (CurrentSection d + 1)) sectionSize) as K.
  destruct (CreateNewSection _ _ _ _) as [db' [[]|]]; [|done]. cbn in *.
  unfold UpdateCurrentSection. rewrite Em.
  destruct (meta_update _ _) as [m' [[]|]] eqn:Eu; [|done].
  intros [= <- <-]. cbn. by rewrite (meta_update_ok _ _ _ Eu).
Qed.

(** A successful [AddStatus] returns the current section and an index
    that was not allocated before, stores the status there, disturbs no
    allocated entry, and schedules a refresh of the section's token. *)
Theorem AddStatus_spec `{!Reliable C} (s s' : service (C := C) (M := M)) v section index :
  (∀ n b, 0 < b → 0 ≤ rnd n b < b) →
  AddStatus rnd quiet sectionSize s v = (s', Ok (section, index)) →
  ¬ allocated (s_entries s) (section, index) ∧
  s_entries s' !! (section, index) = Some (mkEntry v false) ∧
  keeps (s_entries s) (s_entries s') ∧
  CurrentSection (meta_doc (meta s')) = section ∧
  scheduled s' = (scheduled s ++ [section])%list.
Proof.
  intros Hrnd. unfold AddStatus.
  destruct (CreateNewSectionIfNeeded _ _ s) as [s1 [cur|]] eqn:E1; [|done].
  apply CreateNewSectionIfNeeded_spec in E1 as (K1 & Em & Es).
  pose proof (Add_quiet_lemma rnd (db s1) cur sectionSize v Hrnd) as A.
  destruct (run _ _ _ _) as [d [i|e]]; [|done]. intros [= <- <- <-]. cbn.
  destruct A as ((e & He & Hd) & Hl & K & _). rewrite Es. split_and!; try done; [|by etrans].
  intros (e' & He' & Hd'). apply K1 in He'; [|done]. congruence.
Qed.

(** An issuer whose current section still holds more than a thousand
    decoys, but none at the fifty indices drawn, refuses to allocate: the
    request fails, nothing is retried, and no new section is opened. *)
Theorem sparse_section_starves `{!Reliable C} (s : service (C := C) (M := M)) d v :
  (∀ n b, 0 < b → 0 ≤ rnd n b < b) →
  meta_find (meta s) = Ok d →
  is_ok (count_decoys (coll (db s)) (CurrentSection d) (decoyThreshold + 1)) = true →
  decoyThreshold < decoys_in (CurrentSection d) (s_entries s) →
  (∀ j, (j < maxAttempts)%nat →
     ¬ is_decoy (s_entries s) (CurrentSection d) (rnd (draws (db s) + j) sectionSize)) →
  ∃ s', AddStatus rnd quiet sectionSize s v = (s', Err (ErrNoDecoys (CurrentSection d))) ∧
    s_entries s' = s_entries s ∧ meta s' = meta s.
Proof.
  intros Hrnd Hm (n & Hc)%is_ok_Ok Hd Hmiss.
  unfold AddStatus, CreateNewSectionIfNeeded, GetCurrentSection, CountDecoysInSectionWithLimit.
  rewrite Hm. cbn -[Add]. rewrite Hc. apply count_decoys_ok in Hc. unfold decoyThreshold in *.
  rewrite bool_decide_eq_false_2 by lia.
  destruct (getRandomDecoys_quiet rnd (db s) (CurrentSection d) sectionSize)
    as (st1 & Ec & [(docs & _ & _ & _ & Hhit)|[Eg _]]); [by destruct Hhit|].
  unfold Add. change maxRetries with (S 2). cbn [add_loop]. unfold add_once. rewrite !run_bind, Eg. cbn [run fst snd mret dbprog_ret].
  eexists. split; [done|]. cbn. by rewrite Ec.
Qed.

(** The state left behind when a section was created but the metadata
    update that should have made it current failed. *)
Definition orphaned (s : service (C := C) (M := M)) : Prop :=
  let c := CurrentSection (meta_doc (meta s)) in
  decoys_in c (s_entries s) ≤ decoyThreshold ∧
  is_Some (s_entries s !! (wrap64 (c + 1), 0)).

(** From the state a failed metadata update leaves behind, every later
    attempt to open a section fails on the duplicate key and changes
    nothing, so the service stays in that state: no status can be added
    again. *)
Theorem orphaned_section_blocks (s : service (C := C) (M := M)) :
  0 < sectionSize → orphaned s →
  ∃ s' e, CreateNewSectionIfNeeded rnd sectionSize s = (s', Err e) ∧
    s_entries s' = s_entries s ∧ meta s' = meta s ∧ orphaned s'.
Proof.
  intros Hsz (Hd & Hs). unfold CreateNewSectionIfNeeded, GetCurrentSection, CountDecoysInSectionWithLimit.
  destruct (meta_find (meta s)) as [d|] eqn:Em; cbn; [|by eexists _, _].
  rewrite (meta_find_ok _ _ Em) in Hd, Hs.
  destruct (count_decoys _ _ _) as [n|] eqn:Hc; [|by eexists _, _; rewrite <- (meta_find_ok _ _ Em) in Hd, Hs].
  apply count_decoys_ok in Hc. rewrite bool_decide_eq_true_2 by lia.
  unfold CreateNewSection, section_docs.
  rewrite seqZ_cons by lia. cbn.
  destruct (insert_many _ _ _) as [c' [[]|e]] eqn:Ei.
  - apply insert_many_ok in Ei as (_ & _ & Hf & _).
    rewrite Hf in Hs by set_solver. by destruct Hs.
  - apply insert_many_err in Ei as ([|d0 pre] & Hpre & Hf & Hc').
    + eexists _, _. split; [done|]. cbn. split_and!; try done.
      unfold orphaned. cbn. by rewrite Hc', (meta_find_ok _ _ Em).
    + destruct Hpre as [rest [= <- _]]. rewrite Hf in Hs by set_solver. by destruct Hs.
Qed.
End issuer_theorems.

(** ** An in-memory collection

    The interface is inhabited: a finite map that never fails, and a
    metadata document whose next update can be made to fail. *)

Fixpoint mem_insert (m : slots) (section : Z) (docs : list (Z * Z)) : slots * result reg_error unit :=
  match docs with
  | [] => (m, Ok tt)
  | d :: docs =>
      match m !! (section, fst d) with
      | Some _ => (m, Err ErrDB)
      | None => mem_insert (<[(section, fst d) := mkEntry (snd d) true]> m) section docs
      end
  end.

Definition section_indexes (m : slots) (section : Z) : list Z :=
  merge_sort Z.le (map snd (List.filter (fun k => bool_decide (fst k = section)) (elements (dom m)))).

#[local] Instance mem_collection : Collection slots := {
  entries m := m;
  count_all m := Ok (Z.of_nat (size m));
  count_decoys m s lim := Ok (Z.min lim (decoys_in s m));
  find_one m s i := Ok (m !! (s, i));
  insert_many m s docs := match docs with [] => (m, Err ErrDB) | _ => mem_insert m s docs end;
  update_one m f u := (fst (updated m f u), Ok (snd (updated m f u)));
  bulk_write m ws := (bulk_updated m ws, Ok tt);
  find_section m s :=
    Ok (omap (fun i => Status <$> m !! (s, i)) (section_indexes m s))
}.

Lemma mem_insert_spec m s docs m' r :
  mem_insert m s docs = (m', r) →
  ∃ pre, pre `prefix_of` docs ∧ NoDup (map fst pre) ∧
    (∀ i, i ∈ map fst pre → m !! (s, i) = None) ∧
    m' = insert_decoys s pre m ∧ (r = Ok tt → pre = docs).
Proof.
  revert m. induction docs as [|d docs IH]; intros m; cbn.
  { intros [= <- <-]. exists []. split_and!; try done; [constructor|set_solver]. }
  destruct (m !! (s, fst d)) eqn:E.
  { intros [= <- <-]. exists []. split_and!; try done; [apply prefix_nil|constructor|set_solver]. }
  intros (pre & Hp & Hn & Hf & -> & Hr)%IH. exists (d :: pre). split_and!.
  - by apply prefix_cons.
  - cbn. constructor; [|done]. intros Hi%Hf. by simplify_map_eq.
  - intros i [->|Hi]%elem_of_cons; [done|]. apply Hf in Hi.
    by apply lookup_insert_None in Hi as [? _].
  - done.
  - intros. f_equal. auto.
Qed.

Lemma section_indexes_spec m s :
  StronglySorted Z.lt (section_indexes m s) ∧
  ∀ i, i ∈ section_indexes m s ↔ is_Some (m !! (s, i)).
Proof.
  set (ks := List.filter (fun k : slot => bool_decide (fst k = s)) (elements (dom m))).
  assert (Hin : ∀ k, k ∈ ks ↔ fst k = s ∧ is_Some (m !! k)).
  { intros k. unfold ks. rewrite list_elem_of_In, filter_In, <- list_elem_of_In, elem_of_elements,
      elem_of_dom, bool_decide_eq_true. tauto. }
  assert (Hnd : NoDup (map snd ks)).
  { apply NoDup_fmap_2_strong; [|apply NoDup_ListNoDup, List.NoDup_filter, NoDup_ListNoDup, NoDup_elements].
    intros [a1 b1] [a2 b2] [H1 _]%Hin [H2 _]%Hin. cbn in *. congruence. }
  assert (Hp : Permutation (section_indexes m s) (map snd ks)) by apply merge_sort_Permutation.
  split.
  - assert (StronglySorted Z.le (section_indexes m s)) as Hs by (apply StronglySorted_merge_sort; apply _).
    rewrite <- Hp in Hnd. clear Hp. revert Hnd Hs. generalize (section_indexes m s).
    intros l Hnd Hs. induction Hs as [|i l Hs IH Hi]; [constructor|].
    apply NoDup_cons in Hnd as [Hni Hnd]. constructor; [by apply IH|].
    rewrite Forall_forall in Hi |- *. intros j Hj. pose proof (Hi j Hj).
    assert (i ≠ j) by congruence. lia.
  - intros i. rewrite Hp, list_elem_of_fmap. split.
    + intros ([s' j] & -> & [Hs Hk]%Hin). cbn in *. by subst.
    + intros Hk. exists (s, i). split; [done|]. by apply Hin.
Qed.

#[local] Instance mem_laws : CollectionLaws slots.
Proof.
  split; cbn; try (intros; simplify_eq; done).
  - intros c s [|d docs] c'; [done|]. intros (pre & _ & Hn & Hf & -> & Hp)%mem_insert_spec.
    by rewrite (Hp eq_refl) in *.
  - intros c s [|d docs] c' e.
    + intros [= <- _]. exists []. split_and!; [done|set_solver|done].
    + intros (pre & Hp & Hn & Hf & -> & _)%mem_insert_spec. by exists pre.
  - intros c f u c' n [= <- <-]. by destruct (updated _ _ _).
  - intros c ws c' r [= <- _]. by exists ws.
  - intros c s l [= <-]. destruct (section_indexes_spec c s) as [Hs Hi].
    exists (section_indexes c s). split_and!; [done..|].
    assert (∀ i, i ∈ section_indexes c s → is_Some (c !! (s, i))) as Hk by (intros; by apply Hi).
    clear Hs Hi. induction (section_indexes c s) as [|i l IH]; cbn; [constructor|].
    destruct (Hk i) as [e He]; [set_solver|]. rewrite He. cbn. constructor; [by rewrite He|].
    apply IH. set_solver.
Qed.

#[local] Instance mem_reliable : Reliable slots.
Proof. split; cbn; eauto. Qed.

(** The metadata document; the flag makes the next update fail. *)
#[local] Instance mem_meta : MetaStore (metadata * bool) := {
  meta_doc m := fst m;
  meta_find m := Ok (fst m);
  meta_update m d := if snd m then ((fst m, false), Err ErrMeta) else ((d, false), Ok tt)
}.

#[local] Instance mem_meta_laws : MetaLaws (metadata * bool).
Proof.
  split; cbn; [intros; by simplify_eq| |]; intros [m []]; cbn; intros; simplify_eq; auto.
Qed.

(** Draw [n] is [n] modulo the bound. *)
Definition counting (n : nat) (b : Z) : Z := Z.of_nat n mod b.

Lemma counting_range n b : 0 < b → 0 ≤ counting n b < b.
Proof. intros. apply Z.mod_pos_bound. lia. Qed.

Definition small_section : dbstate (C := slots) :=
  fst (CreateNewSection counting (mkDB (∅ : slots) 0) 0 20).

(** A schedule: at each turn the thread named makes its next call, a draw
    being the number given modulo its bound. *)
Definition answered (c : slots) (o : dbcall) (z : Z) : slots * dbanswer o :=
  match o return slots * dbanswer o with
  | CRand b => (c, z mod b)
  | CFind k => (c, find_one c (fst k) (snd k))
  | CUpdate f u => update_one c f u
  | CBulk ws => bulk_write c ws
  end.

Definition turn (p : pool (C := slots)) (iz : nat * Z) : pool (C := slots) :=
  match threads p !! fst iz with
  | Some (mkThread section status (DCall o k)) =>
      if match o with CRand b => b <=? 0 | _ => false end then p else
      let '(c, r) := answered (p_coll p) o (snd iz) in
      mkPool c (<[fst iz := mkThread section status (k r)]> (threads p)) (updates p)
  | _ => p
  end.

Lemma turn_step p iz : rtc pool_step p (turn p iz).
Proof.
  destruct p as [c ts us]. unfold turn. cbn.
  destruct (ts !! fst iz) as [[s v [r|o k]]|] eqn:Ei; try done.
  case_match eqn:Eo; [done|]. destruct (answered c o (snd iz)) as [c' r] eqn:Ea. apply rtc_once.
  eapply step_answered; [exact Ei|]. destruct o; cbn in *; simplify_eq; try done.
  - split; [done|]. apply Z.mod_pos_bound. lia.
  - by exists ws.
Qed.

Lemma turns_steps l p : rtc pool_step p (foldl turn p l).
Proof. revert p. induction l as [|iz l IH]; intros p; [done|]. etrans; [apply turn_step|apply IH]. Qed.

(** Two calls take turns and draw the same numbers, so that they find the
    same decoys and reach for the same one. *)
Definition overlapping : list (nat * Z) :=
  map (fun n => (Z.to_nat (n mod 2), n / 4)) (seqZ 0 200).

Definition two_adds : pool (C := slots) :=
  mkPool (coll small_section) [mkThread 0 0 (Add 0 20 0); mkThread 0 2 (Add 0 20 2)] [].

(** Both calls look up ten decoys, the first one claims a slot, the second
    one finds that slot taken, looks again and returns another; the first
    slot is then given a new status. *)
Lemma no_slot_reused_witness :
  ∃ p i j, rtc pool_step (mkPool (coll small_section) [] []) p ∧
    threads p !! 0%nat = Some (mkThread 0 0 (DRet (Ok i))) ∧
    threads p !! 1%nat = Some (mkThread 0 2 (DRet (Ok j))) ∧
    i ≠ j ∧ slot_of (entries (p_coll p)) (updates p) 0 (0, i).
Proof.
  set (p := foldl turn two_adds overlapping).
  set (p' := mkPool (coll (fst (UpdateStatus quiet (mkDB (p_coll p) 0) 0 0 1))) (threads p) [((0, 0), 1)]).
  assert (rtc pool_step (mkPool (coll small_section) [] []) p') as Hp.
  { eapply rtc_l; [apply (step_called _ _ _ 0 20 0)|].
    eapply rtc_l; [apply (step_called _ _ _ 0 20 2)|].
    eapply rtc_r; [apply (turns_steps overlapping two_adds)|].
    assert (foldl turn two_adds overlapping = mkPool (p_coll p) (threads p) []) as ->
      by (vm_compute; reflexivity).
    apply step_updated. }
  assert (∃ i, threads p' !! 0%nat = Some (mkThread 0 0 (DRet (Ok i)))) as [i Hi]
    by (eexists; vm_compute; reflexivity).
  assert (∃ j, threads p' !! 1%nat = Some (mkThread 0 2 (DRet (Ok j)))) as [j Hj]
    by (eexists; vm_compute; reflexivity).
  destruct (no_slot_reused _ _ Hp) as [Ok_slot Once].
  exists p', i, j. split; [exact Hp|]. split; [exact Hi|]. split; [exact Hj|]. split.
  - intros <-. discriminate (Once _ _ _ _ _ _ Hi Hj).
  - exact (proj2 (Ok_slot _ _ _ _ Hi)).
Defined.

(** A section of twenty decoys. *)
Lemma Add_quiet_witness :
  ∃ st' i, run counting quiet (Add 0 20 2) small_section = (st', Ok i) ∧
    entries (coll st') !! (0, i) = Some (mkEntry 2 false).
Proof.
  pose proof (Add_quiet counting small_section 0 20 2 counting_range) as A.
  assert (is_ok (snd (run counting quiet (Add 0 20 2) small_section)) = true) as Hok
    by (vm_compute; reflexivity).
  destruct (run counting quiet (Add 0 20 2) small_section) as [st' [i|e]] eqn:E.
  - exists st', i. split; [done|]. exact (proj1 (proj2 A)).
  - discriminate Hok.
Defined.

Definition fresh_service : service (C := slots) (M := metadata * bool) :=
  mkService small_section (mkMeta 0 [0], false) [].

(** The first section is below the threshold, so a second one is
    opened and the status goes there. *)
Lemma AddStatus_spec_witness :
  ∃ s' i, AddStatus counting quiet 20 fresh_service 1 = (s', Ok (1, i)) ∧
    entries (coll (db s')) !! (1, i) = Some (mkEntry 1 false).
Proof.
  assert (fst <$> snd (AddStatus counting quiet 20 fresh_service 1) = Ok 1) as Hok
    by (vm_compute; reflexivity).
  destruct (AddStatus counting quiet 20 fresh_service 1) as [s' [[sec i]|e]] eqn:E;
    [|discriminate Hok].
  injection Hok as ->. exists s', i. split; [done|].
  exact (proj1 (proj2 (AddStatus_spec counting 20 fresh_service s' 1 1 i counting_range E))).
Defined.

(** A section of 1,200 slots, the first sixty of them allocated. *)
Definition sparse_section : slots :=
  foldl (fun m i => <[(0, i) := mkEntry 0 (bool_decide (60 ≤ i))]> m) ∅ (seqZ 0 1200).

(** Draws 0 to 49 all hit allocated slots. *)
Lemma sparse_section_starves_witness :
  let s : service (C := slots) (M := metadata * bool) :=
    mkService (mkDB sparse_section 0) (mkMeta 0 [0], false) [] in
  decoys_in 0 sparse_section = 1140 ∧
  ∃ s', AddStatus counting quiet 1200 s 0 = (s', Err (ErrNoDecoys 0)).
Proof.
  intros s. assert (decoys_in 0 sparse_section = 1140) as Hd by (vm_compute; reflexivity).
  split; [exact Hd|].
  destruct (sparse_section_starves counting 1200 s (mkMeta 0 [0]) 0 counting_range)
    as (s' & E & _); [reflexivity|reflexivity| | |by exists s'].
  { change (1000 < decoys_in 0 sparse_section). rewrite Hd. reflexivity. }
  assert (forallb (fun j => match sparse_section !! (0, counting j 1200) with
                            | Some e => negb (Decoy e) | None => true end) (seq 0 50) = true)
    as Hall by (vm_compute; reflexivity).
  intros j Hj (e & He & De). rewrite forallb_forall in Hall.
  specialize (Hall j). unfold s in He. cbn [db coll draws CurrentSection Nat.add] in He.
  change (sparse_section !! (0, counting j 1200) = Some e) in He.
  rewrite He, De in Hall. discriminate Hall. apply in_seq. unfold maxAttempts in Hj. lia.
Defined.

(** The section is created, the metadata update fails, and the next
    attempt fails as well although the metadata store works again. *)
Lemma orphaned_section_blocks_witness :
  let s0 : service (C := slots) (M := metadata * bool) :=
    mkService small_section (mkMeta 0 [0], true) [] in
  let s1 := fst (CreateNewSectionIfNeeded counting 20 s0) in
  snd (meta s1) = false ∧ ∃ s' e, CreateNewSectionIfNeeded counting 20 s1 = (s', Err e).
Proof.
  intros s0 s1. split; [vm_compute; reflexivity|].
  destruct (orphaned_section_blocks counting 20 s1) as (s' & e & E & _); [lia| |by exists s', e].
  split; [vm_compute; discriminate|vm_compute; eexists; reflexivity].
Defined.
