(* ===== verification/StatusCache.v ===== *)
(** * The cached status list tokens

    [internal/registry/tokenstatuslistissuer/service.go]: a section's tokens
    are rebuilt from the collection and put in a cache that the HTTP
    handlers serve.  The first part models the rebuild ([refreshSection],
    [refreshAllSections]) and shows that a status stored in the collection is
    what a verifier reads from the cached token.  The second part models the
    interleaving of writes with the background refreshes that [singleflight]
    coalesces. *)

From Stdlib Require Import Sorted.
From stdpp Require Import sorting pretty.
From S2P Require Import Prelude GoValue TokenStatusList TokenStatusListCWT StatusRegistry.

(** ** Rebuilding the tokens *)

(** [cacheService.JWT] and [cacheService.CWT], keyed by the decimal section. *)
Record token_cache := mkCache { JWT : gmap string string; CWT : gmap string (list Z) }.

Section refresh.
Context `{Zlib} `{JWTLib} `{CBOR} `{CoseCrypto} {C : Type} `{Collection C}.

(** The key material signer: one private key, in the two forms the two
    token libraries take it. *)
Record KeyMaterialSigner := mkSigner {
  Algorithm : option string;
  jwt_key : private_key;
  jwt_public : public_key;
  cose_key_of : cose_key ec_key rsa_key other_key
}.

Record issuer_cfg := mkIssuerCfg {
  PublicURL : string;
  (* url.JoinPath(PublicURL, "/statuslists", key) *)
  subject_url : string → option string;
  refreshInterval : Z;          (* nanoseconds *)
  cfg_ttl : Z;
  (* nil when the signer is not a *pki.KeyMaterialSigner *)
  signer : option KeyMaterialSigner
}.

Definition minute : Z := 60 * second.

Definition tokenValidity (cfg : issuer_cfg) : Z := refreshInterval cfg - 5 * minute.

Definition section_key (section : Z) : string := pretty section.

Record TokenConfig := mkTokenConfig {
  tc_Subject : string; tc_Issuer : string; tc_Statuses : list Z; tc_TTL : Z;
  tc_ExpiresIn : Z; tc_KeyID : string; tc_AggregationURI : string;
  tc_SigningMethod : option string
}.

Definition token_list (tc : TokenConfig) : StatusList :=
  let sl := NewWithConfig (tc_Statuses tc) (tc_Issuer tc) (tc_Subject tc) in
  mkStatusList (statuses sl) (Issuer sl) (Subject sl) (tc_TTL tc) (tc_ExpiresIn tc)
    (tc_KeyID tc) (tc_AggregationURI tc).

Definition GenerateStatusListTokenJWT (cfg : issuer_cfg) (tc : TokenConfig) (now : Z) : option string :=
  match signer cfg with
  | None => None
  | Some km =>
      match GenerateJWT (token_list tc)
              (mkJWTSigningConfig (Some (jwt_key km)) (tc_SigningMethod tc) (Some (jwt_public km))) now with
      | Ok tok => Some tok
      | Err _ => None
      end
  end.

Definition GenerateStatusListTokenCWT (cfg : issuer_cfg) (tc : TokenConfig) (now : Z) : option (list Z) :=
  match signer cfg with
  | None => None
  | Some km =>
      match GenerateCWT (token_list tc) (mkCWTSigningConfig (cose_key_of km) 0) now with
      | Ok tok => Some tok
      | Err _ => None
      end
  end.

Definition token_cfg (cfg : issuer_cfg) (subject : string) (l : list Z) : TokenConfig :=
  mkTokenConfig subject (PublicURL cfg) l (cfg_ttl cfg) (tokenValidity cfg) "" ""
    (km ← signer cfg; Algorithm km).

(** Every failure leaves the cached token in place; a failing JWT does not
    stop the CWT. *)
Definition refreshSection (cfg : issuer_cfg) (c : C) (section now : Z) (cache : token_cache) :
    token_cache :=
  match find_section c section with
  | Err _ => cache
  | Ok l =>
      match l with
      | [] => cache
      | _ =>
          let key := section_key section in
          match subject_url cfg key with
          | None => cache
          | Some subject =>
              let tc := token_cfg cfg subject l in
              let cache := match GenerateStatusListTokenJWT cfg tc now with
                           | None => cache
                           | Some tok => mkCache (<[key := tok]> (JWT cache)) (CWT cache)
                           end in
              match GenerateStatusListTokenCWT cfg tc now with
              | None => cache
              | Some tok => mkCache (JWT cache) (<[key := tok]> (CWT cache))
              end
          end
      end
  end.

Definition refreshAllSections {M : Type} `{MetaStore M} (cfg : issuer_cfg) (c : C) (m : M) (now : Z)
    (cache : token_cache) : token_cache :=
  match GetAllSections m with
  | Err _ => cache
  | Ok sections => foldl (fun cache s => refreshSection cfg c s now cache) cache sections
  end.

Definition GetCachedJWT (cache : token_cache) (section : Z) : string :=
  default "" (JWT cache !! section_key section).

Definition GetCachedCWT (cache : token_cache) (section : Z) : option (list Z) :=
  CWT cache !! section_key section.
End refresh.

(** ** A dense section *)

(** The section holds exactly the indices below its size. *)
Definition dense (m : slots) (section n : Z) : Prop :=
  ∀ i, is_Some (m !! (section, i)) ↔ 0 ≤ i < n.

Lemma StronglySorted_seqZ a n : StronglySorted Z.lt (seqZ a n).
Proof.
  destruct (Z.le_gt_cases n 0) as [Hn|Hn]; [rewrite seqZ_nil by lia; constructor|].
  replace n with (Z.of_nat (Z.to_nat n)) by lia. clear Hn. revert a.
  induction (Z.to_nat n) as [|k IH]; intros a; [constructor|].
  rewrite Nat2Z.inj_succ, seqZ_cons by lia. replace (Z.pred (Z.succ (Z.of_nat k))) with (Z.of_nat k) by lia.
  constructor; [apply IH|]. apply Forall_forall. intros j Hj. apply elem_of_seqZ in Hj. lia.
Qed.

Lemma StronglySorted_lt_NoDup l : StronglySorted Z.lt l → NoDup l.
Proof.
  induction 1 as [|x l _ IH Hx]; constructor; [|done].
  intros Hin. rewrite Forall_forall in Hx. specialize (Hx x Hin). lia.
Qed.

Lemma sorted_lt_unique l1 l2 :
  StronglySorted Z.lt l1 → StronglySorted Z.lt l2 → (∀ x, x ∈ l1 ↔ x ∈ l2) → l1 = l2.
Proof.
  intros H1 H2 Heq. apply (StronglySorted_unique_strong Z.lt); [|done..|].
  - intros x y _ _ ? ?. lia.
  - apply NoDup_Permutation; [by apply StronglySorted_lt_NoDup..|done].
Qed.

(** In a dense section position and index coincide. *)
Lemma dense_statuses m section n l :
  dense m section n → section_statuses m section l →
  Z.of_nat (length l) = Z.max 0 n ∧
  ∀ i e, m !! (section, i) = Some e → l !! Z.to_nat i = Some (Status e).
Proof.
  intros Hd (idxs & Hs & Hi & Hf).
  assert (idxs = seqZ 0 n) as ->.
  { apply sorted_lt_unique; [done|apply StronglySorted_seqZ|].
    intros x. specialize (Hd x). rewrite Hi, elem_of_seqZ, Hd. lia. }
  split.
  - apply Forall2_length in Hf. rewrite <- Hf, length_seqZ. lia.
  - intros i e He. assert (0 ≤ i < n) as Hin by (apply Hd; eauto).
    destruct (Forall2_lookup_l _ _ _ (Z.to_nat i) i Hf) as (s & Hl & Es).
    { apply lookup_seqZ. lia. }
    rewrite He in Es. cbn in Es. congruence.
Qed.

(** A section created where there was none is dense, and stays dense under
    every operation that neither adds nor removes slots. *)
Lemma insert_decoys_dom s docs m k :
  is_Some (insert_decoys s docs m !! k) ↔
  is_Some (m !! k) ∨ (fst k = s ∧ snd k ∈ map fst docs).
Proof.
  revert m. induction docs as [|d docs IH]; intros m; cbn; [set_solver|].
  unfold insert_decoys in IH. rewrite IH, lookup_insert_is_Some.
  destruct k as [s' i]. cbn. rewrite elem_of_cons.
  destruct (decide ((s, fst d) = (s', i))) as [E|E]; [|naive_solver].
  simplify_eq. naive_solver.
Qed.

Lemma CreateNewSection_dense {C} `{CollectionLaws C} rnd (st st' : dbstate (C := C)) section size :
  (∀ i, entries (coll st) !! (section, i) = None) →
  CreateNewSection rnd st section size = (st', Ok tt) →
  dense (entries (coll st')) section size.
Proof.
  intros Hno. unfold CreateNewSection. destruct (insert_many _ _ _) as [c r] eqn:Ei.
  intros [= <- ->]. cbn. apply insert_many_ok in Ei as (_ & _ & _ & ->). intros i.
  rewrite insert_decoys_dom, Hno. cbn. unfold section_docs. rewrite map_map. cbn.
  rewrite map_id, elem_of_seqZ. split.
  - intros [[? ?]|[_ ?]]; [done|lia].
  - intros. right. split; [done|lia].
Qed.

(** ** The status a verifier reads *)

Section published.
Context `{ZlibLaws} `{JWTLaws} `{CBORLaws} `{CoseCrypto} {C : Type} `{CollectionLaws C}.

(** A refresh that succeeds replaces the cached JWT of its section and of
    no other. *)
Lemma refreshSection_other cfg (c : C) section now cache section' :
  section' ≠ section →
  GetCachedJWT (refreshSection cfg c section now cache) section' = GetCachedJWT cache section'.
Proof.
  intros Hne. unfold refreshSection, GetCachedJWT.
  assert (section_key section ≠ section_key section') as Hk
    by (unfold section_key; intros E%(inj pretty); congruence).
  repeat (case_match; try done); subst; cbn; by rewrite ?lookup_insert_ne by done.
Qed.

Lemma refreshSection_token cfg (c : C) section l now cache subject tok :
  find_section c section = Ok l → l ≠ [] → subject_url cfg (section_key section) = Some subject →
  GenerateStatusListTokenJWT cfg (token_cfg cfg subject l) now = Some tok →
  GetCachedJWT (refreshSection cfg c section now cache) section = tok.
Proof.
  intros Hf Hl Hsub Hgen. unfold refreshSection, GetCachedJWT. rewrite Hf, Hsub, Hgen.
  destruct l as [|x l]; [done|]. case_match; cbn; by rewrite lookup_insert_eq.
Qed.

(** The statuses of a section fit in bytes when the entries' do. *)
Lemma section_bytes m section l :
  (∀ i e, m !! (section, i) = Some e → in_uint8 (Status e)) → section_statuses m section l →
  Forall in_uint8 l.
Proof.
  intros Hu (idxs & _ & _ & Hf2). induction Hf2 as [|j s idxs l Hj _ IH]; constructor; [|done].
  destruct (m !! (section, j)) as [e|] eqn:E; [|done]. injection Hj as <-. by eapply Hu.
Qed.

(** From a collection whose section is dense, a refresh at time [now]
    puts a token in the cache from which any verifier holding the issuer's
    key reads, until the token expires, exactly the status stored at every
    index of the section. *)
Theorem published_status cfg km (c : C) section n l now now' cache i e tok subject keyFunc :
  dense (entries c) section n → 0 < n ≤ maxDecompressedSize →
  (∀ i e, entries c !! (section, i) = Some e → in_uint8 (Status e)) →
  find_section c section = Ok l →
  signer cfg = Some km → subject_url cfg (section_key section) = Some subject →
  GenerateStatusListTokenJWT cfg (token_cfg cfg subject l) now = Some tok →
  0 < tokenValidity cfg → now' < unix (now + tokenValidity cfg) * second →
  (∀ h p, keyFunc h p = Some (public (jwt_key km))) →
  entries c !! (section, i) = Some e →
  (claims ← ParseJWT (GetCachedJWT (refreshSection cfg c section now cache) section) keyFunc now';
   GetStatusFromJWT claims i) = Ok (Status e).
Proof.
  intros Hd Hn Hu Hf Hkm Hsub Hgen Hval Hexp Hkey He.
  pose proof (find_section_ok _ _ _ Hf) as Hs.
  destruct (dense_statuses _ _ _ _ Hd Hs) as [Hlen Hl].
  pose proof (section_bytes _ _ _ Hu Hs) as Hb.
  rewrite (refreshSection_token cfg c section l now cache subject tok)
    by (try done; intros ->; cbn in Hlen; lia).
  unfold GenerateStatusListTokenJWT in Hgen. rewrite Hkm in Hgen.
  destruct (GenerateJWT _ _ _) as [t|] eqn:Eg; [|done]. injection Hgen as ->.
  erewrite (jwt_read (token_list (token_cfg cfg subject l)) _ (jwt_key km));
    [|exact Hb| | |exact Eg|done|intros _; exact Hexp]; [|unfold Len; cbn; lia|done].
  rewrite Get_GetStatus. apply GetStatus_lookup. assert (0 ≤ i < n) by (apply Hd; eauto).
  split; [lia|]. by apply Hl.
Qed.
End published.

#[local] Existing Instances stored_zlib stored_zlib_laws plain_jwt plain_jwt_laws.
#[local] Existing Instances toy_cbor toy_cbor_laws toy_crypto mem_collection mem_laws.

Definition witness_slots : slots := <[(0, 1) := mkEntry 2 false]> (<[(0, 0) := mkEntry 0 true]> ∅).

Definition witness_issuer : issuer_cfg :=
  mkIssuerCfg "https://registry.example"
    (fun k => Some ("https://registry.example/statuslists/" +:+ k)) (43200 * second) 43200
    (Some (mkSigner (Some "ES256") ("secret" : @private_key plain_jwt) ("secret" : @public_key plain_jwt) toy_key)).

(** A section of two slots, the second allocated and suspended. *)
Lemma published_status_witness :
  (claims ← ParseJWT (GetCachedJWT (refreshSection witness_issuer witness_slots 0 0 (mkCache ∅ ∅)) 0)
              (fun _ _ => Some "secret") (5 * second);
   GetStatusFromJWT claims 1) = Ok 2.
Proof.
  refine (published_status witness_issuer _ witness_slots 0 2 [0; 2] 0 (5 * second) (mkCache ∅ ∅) 1
            (mkEntry 2 false) _ _ _ _ _ _ eq_refl eq_refl eq_refl eq_refl eq_refl eq_refl
            (fun _ _ => eq_refl) eq_refl).
  - intros i. cbn [entries mem_collection]. unfold witness_slots. split.
    + intros [e [[[= <-] _] | [_ [[[= <-] _]|[_ ?]]%lookup_insert_Some]]%lookup_insert_Some];
        [lia|lia|by simplify_map_eq].
    + intros Hi. assert (i = 0 ∨ i = 1) as [-> | ->] by lia; by eexists.
  - vm_compute. split; [done|discriminate].
  - intros i e. cbn [entries mem_collection]. unfold witness_slots.
    intros [[_ <-] | [_ [[_ <-]|[_ ?]]%lookup_insert_Some]]%lookup_insert_Some;
      [by vm_compute..|by simplify_map_eq].
Defined.

(** ** Writes and background refreshes

    One section, as seen by one process: the list in the collection, the
    list in the cached token, the refresh in flight (not yet fetched, or
    fetched and still signing), and the refresh requests that callers of
    [AddStatus] and [UpdateStatus] have yet to make after their write.
    [singleflight.Group.DoChan] starts the function when no call for the key
    is in flight and otherwise attaches to the one that is. *)

Inductive refresh_phase := Fetching | Fetched (l : list Z).

Record refresh_state := mkRefresh {
  stored : list Z;
  token : option (list Z);
  flight : option refresh_phase;
  requests : nat
}.

Inductive refresh_action :=
| AWrite (l : list Z)     (* the collection's UpdateOne of a caller *)
| ARequest                (* that caller's refreshSectionAsync *)
| AFetch                  (* GetAllStatusesForSection of the refresh *)
| AStore                  (* cacheService.JWT.Set *)
| AFail.                  (* an error or the two minute timeout *)

Definition refreshSectionAsync (s : refresh_state) : refresh_state :=
  match flight s with
  | None => mkRefresh (stored s) (token s) (Some Fetching) (requests s)
  | Some _ => s
  end.

Definition refresh_step (s : refresh_state) (a : refresh_action) : option refresh_state :=
  match a with
  | AWrite l => Some (mkRefresh l (token s) (flight s) (S (requests s)))
  | ARequest =>
      match requests s with
      | O => None
      | S n => Some (refreshSectionAsync (mkRefresh (stored s) (token s) (flight s) n))
      end
  | AFetch =>
      match flight s with
      | Some Fetching => Some (mkRefresh (stored s) (token s) (Some (Fetched (stored s))) (requests s))
      | _ => None
      end
  | AStore =>
      match flight s with
      | Some (Fetched l) => Some (mkRefresh (stored s) (Some l) None (requests s))
      | _ => None
      end
  | AFail =>
      match flight s with
      | Some _ => Some (mkRefresh (stored s) (token s) None (requests s))
      | None => None
      end
  end.

Fixpoint refresh_run (s : refresh_state) (l : list refresh_action) : option refresh_state :=
  match l with
  | [] => Some s
  | a :: l => s' ← refresh_step s a; refresh_run s' l
  end.

Definition quiescent (s : refresh_state) : bool :=
  bool_decide (requests s = 0%nat) && match flight s with None => true | Some _ => false end.

(** A run in which no refresh fails and no request arrives while a refresh
    has already read the collection. *)
Fixpoint clean_run (s : refresh_state) (l : list refresh_action) : bool :=
  match l with
  | [] => true
  | a :: l =>
      match a, flight s with
      | AFail, _ => false
      | ARequest, Some (Fetched _) => false
      | _, _ => match refresh_step s a with Some s' => clean_run s' l | None => true end
      end
  end.

(** The token is current, or something will still make it so. *)
Definition refresh_inv (s : refresh_state) : Prop :=
  (requests s ≠ 0)%nat ∨
  match flight s with
  | None => token s = Some (stored s)
  | Some Fetching => True
  | Some (Fetched l) => l = stored s
  end.

Lemma refresh_inv_run s l s' :
  refresh_inv s → clean_run s l = true → refresh_run s l = Some s' → refresh_inv s'.
Proof.
  revert s. induction l as [|a l IH]; intros s Hi Hc Hr; [by injection Hr as <-|].
  cbn in Hc, Hr. destruct (refresh_step s a) as [s1|] eqn:E; [|done].
  apply (IH s1); [|by repeat case_match|done].
  unfold refresh_inv, refreshSectionAsync in *.
  destruct a, s as [st tk [[|fl]|] [|n]]; cbn in *; simplify_eq/=; auto; naive_solver.
Qed.

(** When no refresh fails and no request coalesces with a refresh that
    has already read the collection, the cached token holds the current
    statuses as soon as no refresh is pending. *)
Theorem refresh_converges s l s' :
  refresh_inv s → clean_run s l = true → refresh_run s l = Some s' → quiescent s' = true →
  token s' = Some (stored s').
Proof.
  intros Hi Hc Hr. pose proof (refresh_inv_run _ _ _ Hi Hc Hr) as Hi'.
  unfold quiescent, refresh_inv in *.
  destruct (flight s'); [by rewrite andb_false_r|].
  rewrite andb_true_r, bool_decide_eq_true. naive_solver.
Qed.

Lemma refresh_converges_witness :
  let run := [AWrite [1]; ARequest; AWrite [2]; ARequest; AFetch; AStore] in
  ∃ s', refresh_run (mkRefresh [0] (Some [0]) None 0) run = Some s' ∧ token s' = Some [2].
Proof.
  eexists. split; [reflexivity|].
  refine (refresh_converges (mkRefresh [0] (Some [0]) None 0)
            [AWrite [1]; ARequest; AWrite [2]; ARequest; AFetch; AStore] _ _ eq_refl eq_refl eq_refl).
  right. reflexivity.
Defined.

(** A revocation whose refresh request arrives while a refresh that has
    already read the section is still signing is absorbed by it: no refresh
    fails, nothing is pending any more, and the cached token still shows the
    old status. *)
Theorem coalesced_refresh_lost :
  ∃ run s', refresh_run (mkRefresh [0] (Some [0]) None 0) run = Some s' ∧
    AFail ∉ run ∧ quiescent s' = true ∧ stored s' = [1] ∧ token s' = Some [0].
Proof.
  exists [AWrite [0]; ARequest; AFetch; AWrite [1]; ARequest; AStore].
  eexists. split; [reflexivity|]. split; [set_solver|]. done.
Qed.
