(* ===== verification/Revocation.v ===== *)
(** * Revocation checking

    [pkg/revocation]: the status list checker of the verifier side
    ([status_list.go]), the extraction of a reference from credential claims
    ([extract.go]), the registry of checkers ([registry.go]) and the CRL
    checker ([crl.go]).  The network, the cache service, the key
    resolver and the X.509 library are parameters. *)

From S2P Require Import Prelude Bytes Base64 GoValue TokenStatusList TokenStatusListCWT Cose.

Inductive Scheme := SchemeStatusList | OtherScheme (s : string).
#[global] Instance Scheme_eq_dec : EqDecision Scheme.
Proof. solve_decision. Defined.

Inductive rev_status := RevValid | RevInvalid | RevSuspended | RevUnknown.
#[global] Instance rev_status_eq_dec : EqDecision rev_status.
Proof. solve_decision. Defined.

Record Reference := mkReference { ref_Scheme : Scheme; ref_URI : string; ref_Index : Z }.

Record CheckResult := mkCheckResult {
  cr_Status : rev_status; cr_StatusCode : Z; cr_CheckedAt : Z; cr_URI : string; cr_Index : Z
}.

Inductive rev_error :=
| RErrNoRef | RErrScheme | RErrURI | RErrIndex
| RErrRequest | RErrURLScheme | RErrFetch | RErrHTTPStatus (code : Z) | RErrBody | RErrTooLarge
| RErrCOSE | RErrHeaders | RErrClaims | RErrKey | RErrVerify (e : cose_error)
| RErrNoStatusList | RErrNoLst | RErrJWT | RErrList (e : tsl_error)
| RErrOutOfRange | RErrNoChecker
| RErrNoCert | RErrNoIssuer | RErrNoPoints | RErrCRL.

Definition mapStatusCode (code : Z) : rev_status :=
  if bool_decide (code = StatusValid) then RevValid else
  if bool_decide (code = StatusInvalid) then RevInvalid else
  if bool_decide (code = StatusSuspended) then RevSuspended else RevUnknown.

(** ** Extracting the reference *)

Definition digit_val (c : Ascii.ascii) : option Z :=
  let n := Z.of_N (Ascii.N_of_ascii c) in
  if bool_decide (48 ≤ n ≤ 57) then Some (n - 48) else None.

Fixpoint digits (acc : Z) (s : string) : option Z :=
  match s with
  | EmptyString => Some acc
  | String c s => match digit_val c with Some d => digits (acc * 10 + d) s | None => None end
  end.

(** [strconv.ParseInt(s, 10, 64)] *)
Definition parse_int64 (s : string) : option Z :=
  let '(neg, body) := match s with
                      | String "-"%char r => (true, r)
                      | String "+"%char r => (false, r)
                      | _ => (false, s)
                      end in
  if str_empty body then None else
  match digits 0 body with
  | None => None
  | Some n =>
      let z := if neg : bool then - n else n in
      if bool_decide (- 2 ^ 63 ≤ z < 2 ^ 63) then Some z else None
  end.

(** The index of a [status_list] claim.  A [float64] that is no integer, or
    outside [int64] (where the conversion to [int64] does not come back), is
    refused. *)
Definition claim_index (v : option goval) : option Z :=
  match v with
  | Some (GFloat64 f) =>
      match float_value f with
      | Some z => if bool_decide (- 2 ^ 63 ≤ z < 2 ^ 63) then Some z else None
      | None => None
      end
  | Some (GInt64 z) | Some (GInt z) => Some z
  | Some (GNumber lit) => parse_int64 lit
  | _ => None
  end.

Definition ExtractStatusListReference (claims : gomap) : option Reference :=
  match mget claims "status" with
  | Some (GMap status) =>
      match mget status "status_list" with
      | Some (GMap sl) =>
          let uri := string_or_empty (mget sl "uri") in
          if str_empty uri then None else
          index ← claim_index (mget sl "idx");
          Some (mkReference SchemeStatusList uri index)
      | _ => None
      end
  | _ => None
  end.

(** ** The status list checker *)

Record http_response := mkResponse { StatusCode : Z; ContentType : string; Body : option (list Z) }.

Definition as_text (v : option cval) : string := match v with Some (CText s) => s | _ => "" end.
Definition bytes_string (b : list Z) : string :=
  String.string_of_list_ascii (map (fun z => Ascii.ascii_of_N (Z.to_N z)) b).

Section checker.
Context `{Zlib} `{JWTLib} `{CBOR} `{CoseVerify}.

Record checker_env := mkEnv {
  (* http.NewRequest: the scheme of a URL that parses *)
  url_scheme : string → option string;
  (* httpClient.Do; a body that cannot be read is None *)
  http_do : string → option http_response;
  resolve_jwt_key : string → string → option public_key;
  (* None for an error; PubOther for a value that is no supported public key *)
  resolve_cose_key : string → string → option cose_pub
}.

Definition maxStatusListSize : Z := Z.shiftl 10 20.

Definition header_kid (headers : list (Z * cval)) : string :=
  match zget headers HeaderKeyID with
  | Some (CText s) => s
  | Some (CBytes b) => bytes_string b
  | _ => ""
  end.

Definition cwt_lst (raw : cval) : result rev_error (list Z) :=
  match raw with
  | CMapAny m => match find_lst m with Some b => Ok b | None => Err RErrNoLst end
  | CMapInt m => match zget m 2 with Some (CBytes b) => Ok b | _ => Err RErrNoLst end
  | _ => Err RErrNoStatusList
  end.

Definition parseCWTStatusList (env : checker_env) (data : list Z) : result rev_error (list Z) :=
  match cbor_unmarshal data with
  | Some (CTag n content) =>
      if negb (bool_decide (n = 18)) then Err RErrCOSE else
      match content with
      | CArr [c0; c1; c2; c3] =>
          let protectedBytes := as_bytes c0 in
          let payloadBytes := as_bytes c2 in
          let sign1 := mkSign1 protectedBytes (as_map c1) payloadBytes (as_bytes c3) in
          match decode_headers protectedBytes with
          | None => Err RErrHeaders
          | Some headers =>
              match decode_headers payloadBytes with
              | None => Err RErrClaims
              | Some claims =>
                  let issuer := as_text (zget claims 1) in
                  match resolve_cose_key env issuer (header_kid headers) with
                  | None => Err RErrKey
                  | Some k =>
                      _ ← map_err RErrVerify (Verify1 sign1 None k None);
                      match zget claims 65534 with
                      | None => Err RErrNoStatusList
                      | Some raw => lst ← cwt_lst raw; map_err RErrList (DecompressStatuses lst)
                      end
                  end
              end
          end
      | _ => Err RErrCOSE
      end
  | _ => Err RErrCOSE
  end.

Definition valid_methods : list string :=
  ["ES256"; "ES384"; "ES512"; "RS256"; "RS384"; "RS512"; "PS256"; "PS384"; "PS512"; "EdDSA"].

Definition status_keyfunc (env : checker_env) (header claims : gomap) : option public_key :=
  let issuer := string_or_empty (mget claims "iss") in
  let kid := string_or_empty (mget header "kid") in
  if str_empty issuer then None else resolve_jwt_key env issuer kid.

Definition parseJWTStatusList (env : checker_env) (now : Z) (data : list Z) : result rev_error (list Z) :=
  match jwt_parse (Some valid_methods) (status_keyfunc env) now (bytes_string data) with
  | None => Err RErrJWT
  | Some (_, claims) =>
      match mget claims "status_list" with
      | Some (GMap sl) =>
          match mget sl "lst" with
          | Some (GString lst) => map_err RErrList (DecodeAndDecompress lst)
          | _ => Err RErrNoLst
          end
      | _ => Err RErrNoStatusList
      end
  end.

Definition parseStatusListToken (env : checker_env) (now : Z) (data : list Z) (contentType : string) :
    result rev_error (list Z) :=
  if bool_decide (contentType = MediaTypeCWT) then parseCWTStatusList env data else
  if bool_decide (contentType = MediaTypeJWT) then parseJWTStatusList env now data else
  match data with
  | 210 :: _ => parseCWTStatusList env data         (* 0xD2 *)
  | _ => parseJWTStatusList env now data
  end.

Definition fetchStatusList (env : checker_env) (now : Z) (uri : string) : result rev_error (list Z) :=
  match url_scheme env uri with
  | None => Err RErrRequest
  | Some scheme =>
      if negb (bool_decide (scheme ∈ ["http"; "https"])) then Err RErrURLScheme else
      match http_do env uri with
      | None => Err RErrFetch
      | Some resp =>
          if negb (bool_decide (StatusCode resp = 200)) then Err (RErrHTTPStatus (StatusCode resp)) else
          match Body resp with
          | None => Err RErrBody
          | Some body =>
              if bool_decide (maxStatusListSize < Z.of_nat (length body)) then Err RErrTooLarge else
              parseStatusListToken env now body (ContentType resp)
          end
      end
  end.

(** The cache, keyed by URI. *)
Abbreviation list_cache := (gmap string (list Z)).

Definition getStatusList (env : checker_env) (now : Z) (cache : list_cache) (uri : string) :
    list_cache * result rev_error (list Z) :=
  match cache !! uri with
  | Some l => (cache, Ok l)
  | None =>
      match fetchStatusList env now uri with
      | Err e => (cache, Err e)
      | Ok l => (<[uri := l]> cache, Ok l)
      end
  end.

Definition CheckStatus (env : checker_env) (now : Z) (cache : list_cache) (ref : option Reference) :
    list_cache * result rev_error CheckResult :=
  match ref with
  | None => (cache, Err RErrNoRef)
  | Some ref =>
      if negb (bool_decide (ref_Scheme ref = SchemeStatusList)) then (cache, Err RErrScheme) else
      if str_empty (ref_URI ref) then (cache, Err RErrURI) else
      if bool_decide (ref_Index ref < 0) then (cache, Err RErrIndex) else
      let '(cache, r) := getStatusList env now cache (ref_URI ref) in
      match r with
      | Err e => (cache, Err e)
      | Ok l =>
          if bool_decide (Z.of_nat (length l) ≤ ref_Index ref) then (cache, Err RErrOutOfRange) else
          let code := nth (Z.to_nat (ref_Index ref)) l 0 in
          (cache, Ok (mkCheckResult (mapStatusCode code) code now (ref_URI ref) (ref_Index ref)))
      end
  end.

(** ** The registry of checkers *)

(** A checker: its three methods, over the list cache. *)
Record Checker := mkChecker {
  check : list_cache → Reference → list_cache * result rev_error CheckResult;
  supports : Scheme → bool;
  extract : gomap → option Reference
}.

Definition StatusListChecker (env : checker_env) (now : Z) : Checker :=
  mkChecker (fun c r => CheckStatus env now c (Some r))
    (fun s => bool_decide (s = SchemeStatusList)) ExtractStatusListReference.

Fixpoint RegistryValidate (checkers : list Checker) (cache : list_cache) (claims : gomap) :
    list_cache * result rev_error (option CheckResult) :=
  match checkers with
  | [] => (cache, Ok None)
  | c :: checkers =>
      match extract c claims with
      | Some ref => let '(cache, r) := check c cache ref in (cache, Some <$> r)
      | None => RegistryValidate checkers cache claims
      end
  end.

Definition RegistryCheckStatus (checkers : list Checker) (cache : list_cache) (ref : option Reference) :
    list_cache * result rev_error (option CheckResult) :=
  match ref with
  | None => (cache, Ok None)
  | Some ref =>
      match List.find (fun c => supports c (ref_Scheme ref)) checkers with
      | Some c => let '(cache, r) := check c cache ref in (cache, Some <$> r)
      | None => (cache, Err RErrNoChecker)
      end
  end.
End checker.

(** ** The CRL checker *)

Record certificate := mkCert { SerialNumber : Z; RawIssuer : list Z }.
Record revocation_list := mkCRL {
  crl_RawIssuer : list Z;
  RevokedEntries : list (option Z);      (* a nil serial is None *)
  ThisUpdate : Z; NextUpdate : Z         (* 0 is the zero time *)
}.

Record crl_env := mkCrlEnv {
  (* rpcert.CRLDistributionPoints *)
  distribution_points : certificate → list string;
  crl_url_scheme : string → option string;
  crl_http_do : string → option http_response;
  (* pem.Decode: the type and bytes of the first block *)
  pem_decode : list Z → option (string * list Z);
  (* x509.ParseRevocationList *)
  parse_crl : list Z → option revocation_list;
  (* RevocationList.CheckSignatureFrom *)
  signed_by : revocation_list → certificate → bool
}.

Definition maxCRLBytes : Z := Z.shiftl 16 20.

Definition crl_fetch (env : crl_env) (uri : string) : result rev_error revocation_list :=
  match crl_url_scheme env uri with
  | None => Err RErrRequest
  | Some scheme =>
      if negb (bool_decide (scheme ∈ ["http"; "https"])) then Err RErrURLScheme else
      match crl_http_do env uri with
      | None => Err RErrFetch
      | Some resp =>
          if negb (bool_decide (StatusCode resp = 200)) then Err (RErrHTTPStatus (StatusCode resp)) else
          match Body resp with
          | None => Err RErrBody
          | Some body =>
              if bool_decide (maxCRLBytes < Z.of_nat (length body)) then Err RErrTooLarge else
              body ← match pem_decode env body with
                     | Some (ty, bytes) =>
                         if bool_decide (ty ∈ ["X509 CRL"; "CRL"]) then Ok bytes else Err RErrCRL
                     | None => Ok body
                     end;
              match parse_crl env body with Some l => Ok l | None => Err RErrCRL end
          end
      end
  end.

Definition verifyList (env : crl_env) (l : revocation_list) (cert issuer : certificate) (now : Z) : bool :=
  bool_decide (crl_RawIssuer l = RawIssuer cert) && signed_by env l issuer &&
  negb (negb (bool_decide (NextUpdate l = 0)) && bool_decide (NextUpdate l < now)) &&
  negb (negb (bool_decide (ThisUpdate l = 0)) && bool_decide (now < ThisUpdate l)).

Definition lists_serial (l : revocation_list) (cert : certificate) : bool :=
  existsb (fun e => bool_decide (e = Some (SerialNumber cert))) (RevokedEntries l).

(** The loop over the distribution points: the status, the URI reached last. *)
Fixpoint crl_loop (env : crl_env) (cert issuer : certificate) (now : Z) (points : list string)
    (reached : bool) (uri : string) : rev_status * string * bool :=
  match points with
  | [] => (if reached then RevValid else RevUnknown, uri, reached)
  | u :: points =>
      match crl_fetch env u with
      | Err _ => crl_loop env cert issuer now points reached uri
      | Ok l =>
          if negb (verifyList env l cert issuer now) then crl_loop env cert issuer now points reached uri else
          if lists_serial l cert then (RevInvalid, u, true)
          else crl_loop env cert issuer now points true u
      end
  end.

(** The result is returned beside an error too. *)
Definition CheckCertificate (env : crl_env) (cert issuer : option certificate) (now : Z) :
    CheckResult * option rev_error :=
  let unknown := mkCheckResult RevUnknown 0 now "" 0 in
  match cert, issuer with
  | None, _ => (unknown, Some RErrNoCert)
  | _, None => (unknown, Some RErrNoIssuer)
  | Some cert, Some issuer =>
      match distribution_points env cert with
      | [] => (unknown, Some RErrNoPoints)
      | points =>
          let '(status, uri, reached) := crl_loop env cert issuer now points false "" in
          (mkCheckResult status 0 now uri 0, if reached then None else Some RErrCRL)
      end
  end.

(** ** What a CRL answer means *)

(** The distribution point yields an authenticated list. *)
Definition authenticated (env : crl_env) (cert issuer : certificate) (now : Z) (u : string)
    (l : revocation_list) : Prop :=
  crl_fetch env u = Ok l ∧ verifyList env l cert issuer now = true.

(** What the loop's answer means, for the points it has yet to visit. *)
Definition crl_answer (env : crl_env) (cert issuer : certificate) (now : Z) (points : list string)
    (reached : bool) (st : rev_status) (r : bool) : Prop :=
  match st with
  | RevInvalid =>
      r = true ∧ ∃ u l, u ∈ points ∧ authenticated env cert issuer now u l ∧ lists_serial l cert = true
  | RevValid =>
      r = true ∧ (reached = true ∨ ∃ u l, u ∈ points ∧ authenticated env cert issuer now u l) ∧
      ∀ u l, u ∈ points → authenticated env cert issuer now u l → lists_serial l cert = false
  | RevUnknown =>
      r = false ∧ reached = false ∧ ∀ u l, u ∈ points → ¬ authenticated env cert issuer now u l
  | RevSuspended => False
  end.

(** A point without an authenticated list changes nothing. *)
Lemma skip_point env cert issuer now p points reached st r :
  (∀ l, ¬ authenticated env cert issuer now p l) →
  crl_answer env cert issuer now points reached st r →
  crl_answer env cert issuer now (p :: points) reached st r.
Proof.
  intros Hp. unfold crl_answer. destruct st; [intros (-> & Hr & Hall)|intros (-> & u & l & Hu & Ha)|done|intros (-> & -> & Hall)].
  - split_and!; [done| |].
    + destruct Hr as [?|(u & l & ? & ?)]; [by left|]. right. exists u, l. set_solver.
    + intros u l [->|Hu]%elem_of_cons; [|by apply Hall]. intros Ha. by destruct (Hp l).
  - split; [done|]. exists u, l. set_solver.
  - split_and!; [done..|]. intros u l [->|Hu]%elem_of_cons; [apply Hp|by apply Hall].
Qed.

Lemma crl_loop_spec env cert issuer now points reached uri st u r :
  crl_loop env cert issuer now points reached uri = (st, u, r) →
  crl_answer env cert issuer now points reached st r.
Proof.
  revert reached uri. induction points as [|p points IH]; intros reached uri; cbn.
  { intros [= <- <- <-]. destruct reached; split_and!; try done; [by left|set_solver|set_solver]. }
  destruct (crl_fetch env p) as [l|e] eqn:Ef;
    [|intros H%IH; apply skip_point; [intros l [? _]; congruence|done]].
  destruct (verifyList env l cert issuer now) eqn:Ev; cbn;
    [|intros H%IH; apply skip_point; [intros l' [? ?]; congruence|done]].
  destruct (lists_serial l cert) eqn:El.
  - intros [= <- <- <-]. split; [done|]. exists p, l. split; [set_solver|done].
  - intros H%IH. destruct st; try done.
    + destruct H as (-> & _ & Hall). split_and!; [done| |].
      * right. exists p, l. split; [set_solver|done].
      * intros u' l' [->|Hu]%elem_of_cons; [|by apply Hall]. intros [E _]. congruence.
    + destruct H as (-> & (u' & l' & Hu & Ha)). split; [done|]. exists u', l'. set_solver.
    + by destruct H as (_ & ? & _).
Qed.

(** A CRL check answers valid only when an authenticated, current list of
    the certificate's own issuer was obtained and no authenticated list names
    the serial; it answers invalid exactly when one does; in every other case
    it is unknown with an error. *)
Theorem CheckCertificate_spec env cert issuer now :
  let '(res, err) := CheckCertificate env (Some cert) (Some issuer) now in
  let points := distribution_points env cert in
  match cr_Status res with
  | RevValid =>
      err = None ∧ (∃ u l, u ∈ points ∧ authenticated env cert issuer now u l) ∧
      ∀ u l, u ∈ points → authenticated env cert issuer now u l → lists_serial l cert = false
  | RevInvalid =>
      err = None ∧ ∃ u l, u ∈ points ∧ authenticated env cert issuer now u l ∧ lists_serial l cert = true
  | RevUnknown =>
      err ≠ None ∧ ∀ u l, u ∈ points → ¬ authenticated env cert issuer now u l
  | RevSuspended => False
  end.
Proof.
  unfold CheckCertificate. destruct (distribution_points env cert) as [|p points]; [cbn; set_solver|].
  destruct (crl_loop _ _ _ _ _ _ _) as [[st u] r] eqn:E. apply crl_loop_spec in E. cbn in *.
  destruct st; cbn in E; [|by destruct E as (-> & ?)|done|by destruct E as (-> & _ & ?)].
  destruct E as (-> & [?|?] & ?); done.
Qed.

(** ** What a status list answer means *)

Class CoseVerifyLaws `{CoseVerify} : Prop := {
  ecdsa_verify_sign : ∀ k d r s, ecdsa_sign k d = Some (r, s) → ecdsa_verify (ec_public k) d r s = true;
  (* r and s are below the order of the curve *)
  ecdsa_sign_range : ∀ k d r s,
    ecdsa_sign k d = Some (r, s) →
    0 ≤ r < 256 ^ ((curve_bits k + 7) / 8) ∧ 0 ≤ s < 256 ^ ((curve_bits k + 7) / 8);
  curve_bits_named : ∀ k,
    match ec_curve k with
    | P256 => curve_bits k = 256 | P384 => curve_bits k = 384 | P521 => curve_bits k = 521
    | OtherCurve => True
    end
}.

Section checker_laws.
Context `{ZlibLaws} `{JWTLaws} `{CBORLaws} `{CoseVerifyLaws}.

(** Every status the checker reports is the byte at the reference's index
    of a status list that was cached for the URI or has just been fetched from
    it over HTTP(S) and verified; any failure on the way is an error and never
    a status, and leaves in the cache at most the list just fetched. *)
Theorem CheckStatus_spec env now cache ref :
  match CheckStatus env now cache (Some ref) with
  | (cache', Ok res) =>
      ∃ l, (cache !! ref_URI ref = Some l ∨ fetchStatusList env now (ref_URI ref) = Ok l) ∧
        0 ≤ ref_Index ref ∧ l !! Z.to_nat (ref_Index ref) = Some (cr_StatusCode res) ∧
        cr_Status res = mapStatusCode (cr_StatusCode res) ∧
        cache' !! ref_URI ref = Some l ∧
        ∀ uri, uri ≠ ref_URI ref → cache' !! uri = cache !! uri
  | (cache', Err _) =>
      cache' = cache ∨ ∃ l, fetchStatusList env now (ref_URI ref) = Ok l ∧ cache' = <[ref_URI ref := l]> cache
  end.
Proof.
  unfold CheckStatus. destruct (negb _); [by left|]. destruct (str_empty _); [by left|].
  case_bool_decide as Hidx; [by left|].
  destruct (getStatusList env now cache (ref_URI ref)) as [cache' r] eqn:E.
  assert (match r with
          | Ok l => (cache !! ref_URI ref = Some l ∨ fetchStatusList env now (ref_URI ref) = Ok l) ∧
              cache' !! ref_URI ref = Some l ∧ (∀ uri, uri ≠ ref_URI ref → cache' !! uri = cache !! uri) ∧
              (cache' = cache ∨ fetchStatusList env now (ref_URI ref) = Ok l ∧ cache' = <[ref_URI ref := l]> cache)
          | Err _ => cache' = cache end) as Hr.
  { unfold getStatusList in E. destruct (cache !! ref_URI ref) eqn:Ec; [injection E as <- <-; auto|].
    destruct (fetchStatusList _ _ _) eqn:Ef; injection E as <- <-; [|done]. rewrite lookup_insert_eq.
    split_and!; auto. intros. by apply lookup_insert_ne. }
  destruct r as [l|e]; [|by left]. destruct Hr as (H1' & H2' & H3' & H4').
  case_bool_decide as Hlen; [destruct H4' as [?|[? ?]]; eauto|].
  exists l. cbn. split_and!; try done; [lia|].
  assert (Z.to_nat (ref_Index ref) < length l)%nat as Hlt by lia.
  apply lookup_lt_is_Some in Hlt as [c Hc]. rewrite Hc. symmetry. f_equal.
  by rewrite (nth_lookup_Some _ _ _ _ Hc).
Qed.

Lemma big_bytes_Some (k : ec_key) data h r s :
  ecdsa_sign k (digest h data) = Some (r, s) → 0 ≤ curve_bits k →
  ∃ signature, signECDSA data (ECKey k) h = Ok signature ∧
    length signature = (2 * Z.to_nat ((curve_bits k + 7) / 8))%nat ∧
    of_be (take (Z.to_nat ((curve_bits k + 7) / 8)) signature) = r ∧
    of_be (drop (Z.to_nat ((curve_bits k + 7) / 8)) signature) = s.
Proof.
  intros E Hb. destruct (ecdsa_sign_range _ _ _ _ E) as [Hr Hs].
  apply signECDSA_halves; [done|..]; rewrite Z2Nat.id; try done; apply Z.div_pos; lia.
Qed.

Lemma verifyECDSA_sign tbs k h alg sig :
  ec_params alg = (h, Z.to_nat ((curve_bits k + 7) / 8)) → 0 ≤ curve_bits k →
  signECDSA tbs (ECKey k) h = Ok sig → verifyECDSA tbs sig (ec_public k) alg = Ok tt.
Proof.
  intros Hp Hb Hs. destruct (ecdsa_sign k (digest h tbs)) as [[r s]|] eqn:Es;
    [|unfold signECDSA in Hs; by rewrite Es in Hs].
  destruct (big_bytes_Some k tbs h r s Es Hb) as (sig' & E' & L & R & S).
  rewrite E' in Hs. injection Hs as ->. unfold verifyECDSA. rewrite Hp, L, R, S.
  rewrite bool_decide_eq_true_2 by lia. cbn. by rewrite (ecdsa_verify_sign _ _ _ _ Es).
Qed.

(** A signature made by the issuer's code with a detected algorithm is one the
    verifier's code accepts. *)
Lemma verify_issuer_signature pb pl k alg sig tbs :
  detectCOSEAlgorithm (ECKey k) = Ok alg →
  cbor_marshal (CArr [CText "Signature1"; CBytes pb; CBytes []; CBytes pl]) = Some tbs →
  signCOSE pb pl (ECKey k) alg = Ok sig →
  verifySignature tbs sig (PubEC (ec_public k)) alg = Ok tt.
Proof.
  intros Hd Hm. unfold signCOSE. rewrite Hm. cbn in Hd.
  pose proof (curve_bits_named k) as Hc.
  destruct (ec_curve k); try discriminate Hd; injection Hd as <-; intros Hs;
    (eapply verifyECDSA_sign; [rewrite Hc; reflexivity|lia|exact Hs]).
Qed.

Lemma Verify1_issuer pb hdr pl k alg sig unprotected :
  detectCOSEAlgorithm (ECKey k) = Ok alg →
  cbor_marshal (CMapInt ((coseHeaderAlg, CInt alg) :: hdr)) = Some pb →
  signCOSE pb pl (ECKey k) alg = Ok sig →
  Verify1 (mkSign1 (Some pb) unprotected (Some pl) (Some sig)) None (PubEC (ec_public k)) None = Ok tt.
Proof.
  intros Hd Hm Hs. change coseHeaderAlg with HeaderAlgorithm in Hm. unfold Verify1. cbn [Protected Payload Signature].
  rewrite (headers_decoded _ _ Hm), (header_algorithm_decoded (CInt alg) hdr alg); [|by left|].
  2:{ cbn in Hd. by destruct (ec_curve k); simplify_eq. }
  cbn [mbind result_bind]. unfold to_be_signed. cbn [cbytes raw from_option]. unfold id.
  destruct (cbor_marshal (CArr _)) as [tbs|] eqn:Et.
  - by apply (verify_issuer_signature pb pl k alg sig tbs Hd Et Hs).
  - unfold signCOSE in Hs. by rewrite Et in Hs.
Qed.

(** The components of a generated CWT. *)
Lemma GenerateCWT_parts sl k now tok :
  GenerateCWT sl (mkCWTSigningConfig k 0) now = Ok tok →
  ∃ z alg hdr pb pl sig,
    CompressStatuses (statuses sl) = Ok z ∧ detectCOSEAlgorithm k = Ok alg ∧
    cbor_marshal (CMapInt ((coseHeaderAlg, CInt alg) :: hdr)) = Some pb ∧
    cbor_marshal (CMapInt (cwt_claims sl z now)) = Some pl ∧
    signCOSE pb pl k alg = Ok sig ∧
    cbor_unmarshal tok = Some (CTag 18 (CArr [CBytes pb; CMapAny []; CBytes pl; CBytes sig])).
Proof.
  unfold GenerateCWT, marshal. cbn [cwt_Algorithm cwt_SigningKey].
  intros (z & Hz%map_err_Ok & (alg & Ha & Hg)%bind_Ok)%bind_Ok.
  apply bind_Ok in Hg as (pb & Hpb & (pl & Hpl & (sig & Hs & Ht)%bind_Ok)%bind_Ok).
  destruct (cbor_marshal (CMapInt (_ ++ _)%list)) as [pb'|] eqn:Eb; [|done]. injection Hpb as ->.
  destruct (cbor_marshal (CMapInt (cwt_claims _ _ _))) as [pl'|] eqn:Ep; [|done]. injection Hpl as ->.
  destruct (cbor_marshal (CTag _ _)) as [t|] eqn:Et; [|done]. injection Ht as ->.
  eexists z, alg, _, pb, pl, sig. split_and!; [done|done|exact Eb|done|done|]. by rewrite (cbor_roundtrip _ _ Et).
Qed.

(** A verifier that resolves the issuer's key accepts the CWT token of the
    issuer's own code, for every curve it signs with, and reads exactly the
    list it was made from.  No time enters: a token is accepted however long
    ago it expired. *)
Theorem cwt_accepted_at_any_time env sl k now tok :
  Forall in_uint8 (statuses sl) → Len sl ≤ maxDecompressedSize →
  GenerateCWT sl (mkCWTSigningConfig (ECKey k) 0) now = Ok tok →
  (∀ iss kid, resolve_cose_key env iss kid = Some (PubEC (ec_public k))) →
  ∀ now', parseStatusListToken env now' tok MediaTypeCWT = Ok (statuses sl).
Proof.
  intros Hb Hlen (z & alg & hdr & pb & pl & sig & Hz & Ha & Epb & Epl & Hs & Et)%GenerateCWT_parts Hkey now'.
  unfold parseStatusListToken. rewrite bool_decide_eq_true_2 by done.
  unfold parseCWTStatusList. rewrite Et. rewrite bool_decide_eq_true_2 by done.
  cbn [negb as_bytes as_map]. rewrite (headers_decoded _ _ Epb), (headers_decoded _ _ Epl), Hkey.
  rewrite (Verify1_issuer pb hdr pl k alg sig _ Ha Epb Hs). cbn [map_err mbind result_bind].
  rewrite zget_map_norm. set (st := mkCWTStatusList Bits z (AggregationURI sl)).
  change (zget (cwt_claims sl z now) 65534) with (Some (CStruct st)).
  cbn [fmap option_fmap option_map norm]. destruct (norm_status_list_lst st) as (m & -> & Hm).
  cbn [cwt_lst]. rewrite Hm. cbn. unfold CompressStatuses in Hz.
  destruct (deflate (statuses sl)) as [z'|] eqn:Ez; [|done]. injection Hz as ->.
  unfold DecompressStatuses. rewrite (inflate_deflate _ _ Hb Ez).
  by rewrite bool_decide_false by (unfold Len in Hlen; lia).
Qed.

(** The CWT token the issuer makes with an RSA key is refused by the
    verifier whatever key it resolves: the issuer signs with PS256, which the
    verifier's COSE code does not know. *)
Theorem rsa_cwt_refused env sl k now tok :
  GenerateCWT sl (mkCWTSigningConfig (RSAKey k) 0) now = Ok tok →
  ∀ now', is_ok (parseStatusListToken env now' tok MediaTypeCWT) = false.
Proof.
  intros (z & alg & hdr & pb & pl & sig & Hz & Ha & Epb & Epl & Hs & Et)%GenerateCWT_parts now'.
  injection Ha as <-.
  unfold parseStatusListToken. rewrite bool_decide_eq_true_2 by done.
  unfold parseCWTStatusList. rewrite Et. rewrite bool_decide_eq_true_2 by done.
  cbn [negb as_bytes as_map]. rewrite (headers_decoded _ _ Epb), (headers_decoded _ _ Epl).
  destruct (resolve_cose_key _ _ _) as [key|]; [|done].
  unfold Verify1. cbn [Protected]. rewrite (headers_decoded _ _ Epb). change coseHeaderAlg with HeaderAlgorithm.
  rewrite (header_algorithm_decoded (CInt CoseAlgPS256) _ CoseAlgPS256) by (done || by left). cbn.
  by destruct (to_be_signed _ _ _ _).
Qed.

Lemma parseJWT_generated env sl cfg sk alg now tok data now' :
  Forall in_uint8 (statuses sl) → Len sl ≤ maxDecompressedSize → Issuer sl ≠ "" →
  SigningKey cfg = Some sk → SigningMethod cfg = Some alg → alg ∈ valid_methods →
  GenerateJWT sl cfg now = Ok tok → bytes_string data = tok →
  (∀ iss kid, resolve_jwt_key env iss kid = Some (public sk)) →
  0 < ExpiresIn sl →
  parseStatusListToken env now' data MediaTypeJWT =
    if bool_decide (unix (now + ExpiresIn sl) * second ≤ now') then Err RErrJWT else Ok (statuses sl).
Proof.
  intros Hb Hlen Hiss Hsk Halg Hin Hgen Hdata Hkey Hexp.
  destruct (GenerateJWT_signed sl cfg now tok Hgen)
    as (sk' & alg' & hdr & lst & Hsk' & Halg' & Hlst & Hsign & _). simplify_eq.
  unfold parseStatusListToken. rewrite bool_decide_eq_false_2, bool_decide_eq_true_2 by done.
  unfold parseJWTStatusList.
  assert (expired (claims_json (jwt_claims sl lst now)) now' =
          bool_decide (unix (now + ExpiresIn sl) * second ≤ now')) as He.
  { unfold expired. rewrite claims_json_exp. cbn. by rewrite bool_decide_eq_true_2 by done. }
  destruct (bool_decide (unix _ * second ≤ now')).
  - destruct (jwt_parse _ _ _ _) as [[h p]|] eqn:Ep; [|done]. exfalso.
    rewrite (parse_claims _ _ _ _ _ _ _ _ _ _ Hsign Ep) in Ep.
    apply parse_not_expired in Ep. congruence.
  - erewrite parse_signed; [|exact Hsign| | |apply claims_json_nbf|done].
    + rewrite claims_json_status_list, status_list_json_lst. cbn [map_err].
      cbn. by rewrite (decode_small (statuses sl) lst) by done.
    + cbn. by rewrite bool_decide_eq_true_2.
    + unfold status_keyfunc. rewrite claims_json_iss by done. cbn.
      by rewrite (proj2 (str_empty_false _) Hiss).
Qed.

(** A verifier that resolves the issuer's key reads from the JWT token of
    the issuer's own code exactly the list it was made from until the token's
    expiry, and refuses it from then on. *)
Theorem jwt_accepted_until_expiry env sl cfg sk alg now tok data now' :
  Forall in_uint8 (statuses sl) → Len sl ≤ maxDecompressedSize → Issuer sl ≠ "" →
  SigningKey cfg = Some sk → SigningMethod cfg = Some alg → alg ∈ valid_methods →
  GenerateJWT sl cfg now = Ok tok → bytes_string data = tok →
  (∀ iss kid, resolve_jwt_key env iss kid = Some (public sk)) →
  0 < ExpiresIn sl →
  parseStatusListToken env now' data MediaTypeJWT =
    if bool_decide (unix (now + ExpiresIn sl) * second ≤ now') then Err RErrJWT else Ok (statuses sl).
Proof. apply parseJWT_generated. Qed.
End checker_laws.
