(* ===== verification/StatusEndToEnd.v ===== *)
(** * From the registry to the verifier

    The registry's allocation and update, the token refresh and the verifier's
    checker composed: the status an operator sets is the status the verifier
    acts on. *)

From S2P Require Import Prelude Bytes Base64 GoValue TokenStatusList TokenStatusListCWT.
From S2P Require Import Cose StatusRegistry StatusCache Revocation.

Definition string_bytes (s : string) : list Z :=
  map (fun c => Z.of_N (Ascii.N_of_ascii c)) (String.list_ascii_of_string s).

Lemma bytes_string_bytes s : bytes_string (string_bytes s) = s.
Proof.
  unfold bytes_string, string_bytes. rewrite map_map.
  rewrite <- (String.string_of_list_ascii_of_string s) at 2. f_equal.
  rewrite <- map_id. apply map_ext. intros c. rewrite N2Z.id. apply Ascii.ascii_N_embedding.
Qed.

(** The status claim of a credential, as the issuer writes it. *)
Definition status_claim (uri : string) (i : Z) : gomap :=
  [("status", GMap [("status_list", GMap [("idx", json_num i); ("uri", GString uri)])])].

Lemma ExtractStatusListReference_claim uri i :
  uri ≠ "" → in_int64 i →
  ExtractStatusListReference (status_claim uri i) = Some (mkReference SchemeStatusList uri i).
Proof.
  intros Hu Hi.
  change (ExtractStatusListReference (status_claim uri i)) with
    (if str_empty uri then None
     else index ← claim_index (Some (json_num i)); Some (mkReference SchemeStatusList uri index)).
  rewrite (proj2 (str_empty_false uri) Hu). pose proof (float_value_json_num i) as F.
  unfold claim_index, json_num in *. rewrite F. rewrite bool_decide_eq_true_2 by exact Hi. done.
Qed.

Section end_to_end.
Context `{ZlibLaws} `{JWTLaws} `{CBORLaws} `{CoseVerifyLaws} {C : Type} `{CollectionLaws C}.

(** The verifier's environment serves the cached token of the section. *)
Definition serves (env : checker_env) (uri : string) (tok : string) : Prop :=
  (url_scheme env uri = Some "https" ∨ url_scheme env uri = Some "http") ∧
  http_do env uri = Some (mkResponse 200 MediaTypeJWT (Some (string_bytes tok))) ∧
  Z.of_nat (length (string_bytes tok)) ≤ maxStatusListSize.

(** C32: Once an allocated status has been updated in the registry and the
    section's token refreshed, a verifier without a cached list that checks a
    credential referring to the slot is told, until the token expires, exactly
    the new status. *)
Theorem updated_status_reaches_verifier cfg km alg (st st' : dbstate (C := C)) section n i v
    l subject tok uri env now now' tokens :
  dense (entries (coll st')) section n → 0 < n ≤ maxDecompressedSize →
  in_uint8 v →
  (∀ j e, entries (coll st') !! (section, j) = Some e → in_uint8 (Status e)) →
  UpdateStatus quiet st section i v = (st', Ok tt) → 0 ≤ i < n →
  (* the issuer's configuration, and a refresh that succeeds *)
  signer cfg = Some km → Algorithm km = Some alg → alg ∈ valid_methods → PublicURL cfg ≠ "" →
  subject_url cfg (section_key section) = Some subject →
  find_section (coll st') section = Ok l →
  GenerateStatusListTokenJWT cfg (token_cfg cfg subject l) now = Some tok →
  0 < tokenValidity cfg → now' < unix (now + tokenValidity cfg) * second →
  (* the verifier *)
  (∀ iss kid, resolve_jwt_key env iss kid = Some (public (jwt_key km))) →
  uri ≠ "" → in_int64 i →
  serves env uri (GetCachedJWT (refreshSection cfg (coll st') section now tokens) section) →
  ∃ cache' res,
    RegistryValidate [StatusListChecker env now'] ∅ (status_claim uri i) = (cache', Ok (Some res)) ∧
    cr_Status res = mapStatusCode v.
Proof.
  intros Hd Hn Hv Hu Hup Hi Hkm Halg Hin Hurl Hsub Hf Hgen Hval Hexp Hkey Huri H64 Hserve.
  pose proof (find_section_ok _ _ _ Hf) as Hs.
  destruct (dense_statuses _ _ _ _ Hd Hs) as [Hlen Hl]. pose proof (section_bytes _ _ _ Hu Hs) as Hb.
  rewrite (refreshSection_token cfg (coll st') section l now tokens subject tok) in Hserve
    by (try done; intros ->; cbn in Hlen; lia).
  destruct Hserve as (Hsch & Hdo & Hsize).
  (* the slot holds the new status *)
  assert (l !! Z.to_nat i = Some v) as Hliv.
  { destruct (proj2 (Hd i) Hi) as [e He]. pose proof (Hl i e He) as Hle.
    unfold UpdateStatus, quiet in Hup. destruct (update_one _ _ _) as [c r] eqn:Es.
    injection Hup as <- Hr. destruct r as [k|]; [|done]. apply update_one_ok in Es. unfold updated, selects in Es.
    cbn in He, Es. destruct (entries (coll st) !! (section, i)) as [e0|] eqn:E0.
    - injection Es as Es _. rewrite <- Es, lookup_insert_eq in He. by injection He as <-.
    - injection Es as Es _. congruence. }
  (* the token the verifier fetches is read as that list *)
  assert (fetchStatusList env now' uri = Ok l) as Hfetch.
  { unfold fetchStatusList. rewrite Hdo. cbn.
    unfold GenerateStatusListTokenJWT in Hgen. rewrite Hkm in Hgen.
    destruct (GenerateJWT _ _ _) as [t|] eqn:Eg; [|done]. injection Hgen as ->.
    assert (parseStatusListToken env now' (string_bytes tok) MediaTypeJWT = Ok l) as P.
    { erewrite (parseJWT_generated env (token_list (token_cfg cfg subject l)) _ (jwt_key km) alg);
        [..|exact Eg|apply bytes_string_bytes|done|done]; try done.
      - cbn. by rewrite bool_decide_eq_false_2 by lia.
      - unfold Len. cbn. lia.
      - cbn. rewrite Hkm. cbn. done. }
    rewrite P. rewrite (bool_decide_eq_false_2 (_ < _)) by lia.
    destruct Hsch as [-> | ->]; done. }
  cbn -[str_empty status_claim]. rewrite ExtractStatusListReference_claim by done.
  unfold CheckStatus. cbn [ref_URI ref_Index ref_Scheme]. rewrite (bool_decide_eq_true_2 (SchemeStatusList = _)) by done.
  cbn [negb].
  rewrite (proj2 (str_empty_false uri) Huri), (bool_decide_eq_false_2 (i < 0)) by lia.
  unfold getStatusList. rewrite lookup_empty, Hfetch. rewrite bool_decide_eq_false_2 by lia.
  eexists _, _. split; [done|]. cbn. by rewrite (nth_lookup_Some _ _ _ _ Hliv).
Qed.
End end_to_end.
