(* ===== verification/SExp.v ===== *)
(** * S-expressions of the policy rules

    [pkg/spocputil/parser.go]: the human-readable form of a SPOCP rule.  The
    elements are those of go-spocp ([sexp.Atom], [sexp.List] and the star
    forms of [starform]); the parser builds no range form, so there is none
    here.  The parser's position is the list of runes that are left; an error
    keeps its kind and not its position. *)

From S2P Require Import Prelude Utf8.

Inductive element :=
| Atom (Value : string)
| SList (Tag : string) (Elements : list element)
| Wildcard
| Prefix (Value : string)
| Suffix (Value : string)
| SSet (Elements : list element).

Inductive parse_error :=
| EmptySExp | TrailingInput | UnexpectedEnd | NoAtom | EmptyAtom
| UnclosedParen | UnclosedList (tag : string) | UnclosedStar | UnclosedSet | EmptySet
| StarType (ty : string) | NotClosed
| OutOfFuel.

Definition LParen : Z := 40.
Definition RParen : Z := 41.

Definition is_delim (r : Z) : bool := bool_decide (r = LParen) || bool_decide (r = RParen) || IsSpace r.

Fixpoint atom_runes (rs : list Z) : list Z * list Z :=
  match rs with
  | [] => ([], [])
  | r :: rs' => if is_delim r then ([], rs) else let '(a, rest) := atom_runes rs' in (r :: a, rest)
  end.

Definition parseAtom (rs : list Z) : result parse_error (string * list Z) :=
  match skip_spaces rs with
  | [] => Err NoAtom
  | rs =>
      match atom_runes rs with
      | ([], _) => Err EmptyAtom
      | (a, rest) => Ok (of_runes a, rest)
      end
  end.

(** [strings.CutSuffix(s, "*")] *)
Fixpoint cut_star (s : string) : option string :=
  match s with
  | EmptyString => None
  | String c EmptyString => if bool_decide (c = "*"%char) then Some "" else None
  | String c s => String c <$> cut_star s
  end.

(** A bare [*] in a list is a wildcard, a trailing one makes a prefix. *)
Definition star_atom (e : element) : element :=
  match e with
  | Atom v => if bool_decide (v = "*") then Wildcard
              else match cut_star v with Some before => Prefix before | None => e end
  | _ => e
  end.

Definition parsePrefixSuffix (isPrefix : bool) (rs : list Z) : result parse_error (element * list Z) :=
  '(value, rs) ← parseAtom (skip_spaces rs);
  match skip_spaces rs with
  | r :: rs =>
      if bool_decide (r = RParen) then Ok (if isPrefix then Prefix value else Suffix value, rs) else Err NotClosed
  | [] => Err NotClosed
  end.

(** The two recursive readers, of a list's elements and of a set's, are
    arguments here. *)
Definition parseStarForm (parseSet : list Z → result parse_error (element * list Z)) (rs : list Z) :
    result parse_error (element * list Z) :=
  match skip_spaces rs with
  | [] => Err UnclosedStar
  | r :: rs =>
      if bool_decide (r = RParen) then Ok (Wildcard, rs) else
      '(formType, rs) ← parseAtom (r :: rs);
      if bool_decide (formType = "prefix") then parsePrefixSuffix true rs else
      if bool_decide (formType = "suffix") then parsePrefixSuffix false rs else
      if bool_decide (formType = "set") then parseSet rs else Err (StarType formType)
  end.

Definition parseList (parseElements : string → list Z → result parse_error (element * list Z))
    (parseSet : list Z → result parse_error (element * list Z)) (rs : list Z) :
    result parse_error (element * list Z) :=
  match skip_spaces rs with
  | [] => Err UnclosedParen
  | rs =>
      '(tag, rs) ← parseAtom rs;
      if bool_decide (tag = "*") then parseStarForm parseSet rs else parseElements tag rs
  end.

Fixpoint parse (fuel : nat) (rs : list Z) {struct fuel} : result parse_error (element * list Z) :=
  match fuel with
  | O => Err OutOfFuel
  | S fuel =>
      match skip_spaces rs with
      | [] => Err UnexpectedEnd
      | r :: rs =>
          if bool_decide (r = LParen)
          then parseList (fun tag => parseElements fuel tag []) (parseSet fuel []) rs
          else '(a, rs) ← parseAtom (r :: rs); Ok (Atom a, rs)
      end
  end
with parseElements (fuel : nat) (tag : string) (elements : list element) (rs : list Z) {struct fuel} :
    result parse_error (element * list Z) :=
  match fuel with
  | O => Err OutOfFuel
  | S fuel =>
      match skip_spaces rs with
      | [] => Err (UnclosedList tag)
      | r :: rs =>
          if bool_decide (r = RParen) then Ok (SList tag elements, rs) else
          '(elem, rs) ← parse fuel (r :: rs);
          parseElements fuel tag (elements ++ [star_atom elem])%list rs
      end
  end
with parseSet (fuel : nat) (elements : list element) (rs : list Z) {struct fuel} :
    result parse_error (element * list Z) :=
  match fuel with
  | O => Err OutOfFuel
  | S fuel =>
      match skip_spaces rs with
      | [] => Err UnclosedSet
      | r :: rs =>
          if bool_decide (r = RParen) then
            match elements with [] => Err EmptySet | _ => Ok (SSet elements, rs) end
          else
          '(elem, rs) ← parse fuel (r :: rs);
          parseSet fuel (elements ++ [elem])%list rs
      end
  end.

(** Every call of [parse] consumes a rune, and so does every round of the two
    loops. *)
Definition parse_fuel (rs : list Z) : nat := 2 * length rs + 2.

Definition parse_runes (input : list Z) : result parse_error element :=
  match trim_space input with
  | [] => Err EmptySExp
  | rs =>
      '(elem, rest) ← parse (parse_fuel rs) rs;
      match skip_spaces rest with [] => Ok elem | _ => Err TrailingInput end
  end.

Definition ParseAdvancedSExp (input : string) : result parse_error element := parse_runes (to_runes input).

(** Rules as an operator writes them. *)
Example parse_rule :
  ParseAdvancedSExp "(vc (method *)(path /api/v1/*)(acr (* set loa3 loa4)) (src (* suffix .se)))" =
  Ok (SList "vc" [SList "method" [Wildcard]; SList "path" [Prefix "/api/v1/"];
                  SList "acr" [SSet [Atom "loa3"; Atom "loa4"]]; SList "src" [Suffix ".se"]]).
Proof. vm_compute. reflexivity. Qed.

(** ** The fuel is enough *)

Lemma skip_spaces_length rs : (length (skip_spaces rs) ≤ length rs)%nat.
Proof. induction rs as [|r rs IH]; cbn; [lia|]. destruct (IsSpace r); cbn; lia. Qed.

Lemma atom_runes_app rs a rest : atom_runes rs = (a, rest) → rs = (a ++ rest)%list.
Proof.
  revert a. induction rs as [|r rs IH]; cbn; intros a; [by intros [= <- <-]|].
  destruct (is_delim r); [by intros [= <- <-]|].
  destruct (atom_runes rs) as [a' rest']. intros [= <- <-]. cbn. by rewrite <- IH.
Qed.

Lemma parseAtom_shrinks rs a rest : parseAtom rs = Ok (a, rest) → (length rest < length rs)%nat.
Proof.
  unfold parseAtom. pose proof (skip_spaces_length rs) as Hs. destruct (skip_spaces rs) as [|r rs']; [done|].
  destruct (atom_runes (r :: rs')) as [[|c b] rest'] eqn:E; [done|]. intros [= _ <-].
  apply atom_runes_app in E. apply (f_equal length) in E. rewrite length_app in E. cbn in *. lia.
Qed.

Lemma parseAtom_no_fuel rs : parseAtom rs ≠ Err OutOfFuel.
Proof. unfold parseAtom. repeat case_match; done. Qed.

Abbreviation parser := (list Z → result parse_error (element * list Z)).
Definition shrinks (p : parser) : Prop := ∀ rs e rest, p rs = Ok (e, rest) → (length rest < length rs)%nat.

Lemma parsePrefixSuffix_shrinks b : shrinks (parsePrefixSuffix b).
Proof.
  intros rs e rest. unfold parsePrefixSuffix. intros ([v rs'] & Ha%parseAtom_shrinks & H)%bind_Ok.
  pose proof (skip_spaces_length rs). pose proof (skip_spaces_length rs').
  destruct (skip_spaces rs') as [|r rs'']; [done|]. case_bool_decide; [|done]. injection H as _ <-. cbn in *. lia.
Qed.

Lemma parsePrefixSuffix_no_fuel b rs : parsePrefixSuffix b rs ≠ Err OutOfFuel.
Proof.
  unfold parsePrefixSuffix. pose proof (parseAtom_no_fuel (skip_spaces rs)) as Ha.
  destruct (parseAtom _) as [[v rs']|e]; cbn; [repeat case_match; done|congruence].
Qed.

Lemma parseStarForm_shrinks set_ : shrinks set_ → shrinks (parseStarForm set_).
Proof.
  intros Hset rs e rest. unfold parseStarForm. pose proof (skip_spaces_length rs) as Hs.
  destruct (skip_spaces rs) as [|r rs']; [done|]. case_bool_decide; [intros [= _ <-]; cbn in *; lia|].
  intros ([ty rs''] & Ha%parseAtom_shrinks & H1)%bind_Ok.
  repeat case_bool_decide; try done; [apply parsePrefixSuffix_shrinks in H1..|apply Hset in H1]; lia.
Qed.

Lemma parseList_shrinks elems set_ : (∀ tag, shrinks (elems tag)) → shrinks set_ → shrinks (parseList elems set_).
Proof.
  intros He Hset rs e rest. unfold parseList. pose proof (skip_spaces_length rs) as Hs.
  destruct (skip_spaces rs) as [|r rs']; [done|].
  intros ([tag rs''] & Ha%parseAtom_shrinks & H)%bind_Ok.
  case_bool_decide; [apply (parseStarForm_shrinks _ Hset) in H|apply He in H]; lia.
Qed.

(** No call returns without consuming a rune. *)
Lemma parse_shrinks n :
  shrinks (parse n) ∧ (∀ tag es, shrinks (parseElements n tag es)) ∧ (∀ es, shrinks (parseSet n es)).
Proof.
  induction n as [|n (IHp & IHe & IHs)]; [done|]. split_and!; intros; intros rs e rest; cbn;
    pose proof (skip_spaces_length rs) as Hs; destruct (skip_spaces rs) as [|r rs'] eqn:E; try done; cbn in Hs.
  - case_bool_decide.
    + intros H1%(parseList_shrinks _ _ (fun tag => IHe tag []) (IHs [])). lia.
    + intros ([a rs''] & Ha%parseAtom_shrinks & [= _ <-])%bind_Ok. cbn in *. lia.
  - case_bool_decide; [intros [= _ <-]; lia|].
    intros ([el rs''] & Ha%IHp & H1%IHe)%bind_Ok. cbn in *. lia.
  - case_bool_decide; [destruct es; [done|intros [= _ <-]; lia]|].
    intros ([el rs''] & Ha%IHp & H1%IHs)%bind_Ok. cbn in *. lia.
Qed.

(** [p] does not run out of fuel on inputs shorter than [k]. *)
Definition fuelled (k : nat) (p : parser) : Prop := ∀ rs, (length rs < k)%nat → p rs ≠ Err OutOfFuel.

Lemma parseStarForm_fuelled set_ k : fuelled k set_ → fuelled (S k) (parseStarForm set_).
Proof.
  intros Hset rs Hk. unfold parseStarForm. pose proof (skip_spaces_length rs).
  destruct (skip_spaces rs) as [|r rs']; [done|]. case_bool_decide; [done|].
  pose proof (parseAtom_no_fuel (r :: rs')) as Hn. pose proof (parseAtom_shrinks (r :: rs')) as Ha.
  destruct (parseAtom (r :: rs')) as [[ty rs'']|e]; cbn [mbind result_bind]; [|congruence].
  specialize (Ha _ _ eq_refl). repeat case_bool_decide; try done; try apply parsePrefixSuffix_no_fuel.
  apply Hset. lia.
Qed.

Lemma parseList_fuelled elems set_ k :
  (∀ tag, fuelled k (elems tag)) → fuelled k set_ → fuelled (S k) (parseList elems set_).
Proof.
  intros He Hset rs Hk. unfold parseList. pose proof (skip_spaces_length rs).
  destruct (skip_spaces rs) as [|r rs']; [done|].
  pose proof (parseAtom_no_fuel (r :: rs')) as Hn. pose proof (parseAtom_shrinks (r :: rs')) as Ha.
  destruct (parseAtom (r :: rs')) as [[tag rs'']|e]; cbn [mbind result_bind]; [|congruence].
  specialize (Ha _ _ eq_refl).
  case_bool_decide; [|apply He; lia]. apply (parseStarForm_fuelled set_ k Hset). lia.
Qed.

Lemma parse_fuelled n :
  (∀ rs, (2 * length rs + 1 ≤ n)%nat → parse n rs ≠ Err OutOfFuel) ∧
  (∀ tag es rs, (2 * length rs + 2 ≤ n)%nat → parseElements n tag es rs ≠ Err OutOfFuel) ∧
  (∀ es rs, (2 * length rs + 2 ≤ n)%nat → parseSet n es rs ≠ Err OutOfFuel).
Proof.
  induction n as [|n (IHp & IHe & IHs)]; [split_and!; intros; lia|].
  pose proof (proj1 (parse_shrinks n)) as Sh.
  split_and!; intros; cbn; pose proof (skip_spaces_length rs) as Hs;
    destruct (skip_spaces rs) as [|r rs'] eqn:E; try done; cbn in Hs.
  - case_bool_decide.
    + apply (parseList_fuelled _ _ (length rs')); [intros tag rs'' Hk; apply IHe|intros rs'' Hk; apply IHs|]; lia.
    + pose proof (parseAtom_no_fuel (r :: rs')). destruct (parseAtom (r :: rs')) as [[a rs'']|e]; cbn; congruence.
  - case_bool_decide; [done|]. pose proof (IHp (r :: rs') ltac:(cbn; lia)) as Hp. pose proof (Sh (r :: rs')) as Hsh.
    destruct (parse n (r :: rs')) as [[el rs'']|e]; cbn [mbind result_bind]; [|congruence].
    apply IHe. specialize (Hsh _ _ eq_refl). cbn in Hsh. lia.
  - case_bool_decide; [by destruct es|].
    pose proof (IHp (r :: rs') ltac:(cbn; lia)) as Hp. pose proof (Sh (r :: rs')) as Hsh.
    destruct (parse n (r :: rs')) as [[el rs'']|e]; cbn [mbind result_bind]; [|congruence].
    apply IHs. specialize (Hsh _ _ eq_refl). cbn in Hsh. lia.
Qed.

(** [q] answers like [p] wherever [p] has fuel. *)
Definition extends (p q : parser) : Prop := ∀ rs, p rs ≠ Err OutOfFuel → q rs = p rs.

Lemma bind_extends {A} (m : result parse_error A) (f g : A → result parse_error (element * list Z)) :
  (m ≫= f) ≠ Err OutOfFuel → (∀ a, f a ≠ Err OutOfFuel → g a = f a) → (m ≫= g) = (m ≫= f).
Proof. destruct m; cbn; auto. Qed.

Lemma parseList_extends elems elems' set_ set_' :
  (∀ tag, extends (elems tag) (elems' tag)) → extends set_ set_' → extends (parseList elems set_) (parseList elems' set_').
Proof.
  intros He Hset rs. unfold parseList. destruct (skip_spaces rs) as [|r rs']; [done|].
  intros H. apply bind_extends; [done|]. intros [tag rs'']. case_bool_decide; [|apply He].
  unfold parseStarForm. destruct (skip_spaces rs'') as [|q qs]; [done|]. case_bool_decide; [done|].
  intros H'. apply bind_extends; [done|]. intros [ty us]. repeat case_bool_decide; try done. apply Hset.
Qed.

Lemma parse_extends_S n :
  extends (parse n) (parse (S n)) ∧
  (∀ tag es, extends (parseElements n tag es) (parseElements (S n) tag es)) ∧
  (∀ es, extends (parseSet n es) (parseSet (S n) es)).
Proof.
  induction n as [|n (IHp & IHe & IHs)]; [split_and!; intros; intros rs H; by destruct H|].
  split_and!; intros; intros rs.
  - change (parse (S (S n)) rs) with
      (match skip_spaces rs with
       | [] => Err UnexpectedEnd
       | r :: rs => if bool_decide (r = LParen)
           then parseList (fun tag => parseElements (S n) tag []) (parseSet (S n) []) rs
           else '(a, rs) ← parseAtom (r :: rs); Ok (Atom a, rs)
       end).
    cbn [parse]. destruct (skip_spaces rs) as [|r rs']; [done|]. case_bool_decide; [|done].
    apply parseList_extends; [intros tag; apply IHe|apply IHs].
  - change (parseElements (S (S n)) tag es rs) with
      (match skip_spaces rs with
       | [] => Err (UnclosedList tag)
       | r :: rs => if bool_decide (r = RParen) then Ok (SList tag es, rs) else
           '(elem, rs) ← parse (S n) (r :: rs); parseElements (S n) tag (es ++ [star_atom elem])%list rs
       end).
    cbn [parseElements]. destruct (skip_spaces rs) as [|r rs']; [done|]. case_bool_decide; [done|].
    intros Hf. rewrite (IHp (r :: rs')) by (intros E; rewrite E in Hf; by apply Hf).
    apply bind_extends; [done|]. intros [el us]. apply IHe.
  - change (parseSet (S (S n)) es rs) with
      (match skip_spaces rs with
       | [] => Err UnclosedSet
       | r :: rs => if bool_decide (r = RParen) then
           match es with [] => Err EmptySet | _ => Ok (SSet es, rs) end else
           '(elem, rs) ← parse (S n) (r :: rs); parseSet (S n) (es ++ [elem])%list rs
       end).
    cbn [parseSet]. destruct (skip_spaces rs) as [|r rs']; [done|]. case_bool_decide; [done|].
    intros Hf. rewrite (IHp (r :: rs')) by (intros E; rewrite E in Hf; by apply Hf).
    apply bind_extends; [done|]. intros [el us]. apply IHs.
Qed.

Lemma extends_trans p q r : extends p q → extends q r → extends p r.
Proof. intros H1 H2 rs Hp. rewrite H2; [by apply H1|]. by rewrite H1. Qed.

Lemma parse_extends m n : (m ≤ n)%nat →
  extends (parse m) (parse n) ∧ (∀ tag es, extends (parseElements m tag es) (parseElements n tag es)) ∧
  (∀ es, extends (parseSet m es) (parseSet n es)).
Proof.
  induction 1 as [|n _ (IHp & IHe & IHs)]; [done|]. destruct (parse_extends_S n) as (Hp & He & Hs).
  split_and!; intros; eapply extends_trans; eauto.
Qed.

(** More fuel than the default changes nothing: any answer [parse] can give
    is the one it gives. *)
Lemma parse_with_fuel n rs e rest : parse n rs = Ok (e, rest) → parse (parse_fuel rs) rs = Ok (e, rest).
Proof.
  intros H. pose proof (proj1 (parse_fuelled (parse_fuel rs)) rs ltac:(unfold parse_fuel; lia)) as Hf.
  destruct (decide (n ≤ parse_fuel rs)%nat) as [Hle|Hle].
  - rewrite (proj1 (parse_extends n _ Hle)); [done|]. by rewrite H.
  - rewrite <- H. symmetry. apply (proj1 (parse_extends (parse_fuel rs) n ltac:(lia))). done.
Qed.

(** C37: The parser is total: it answers every input, with an element or with
    an error that names what is wrong with it, and never stops for want of
    fuel. *)
Theorem parser_total input : ParseAdvancedSExp input ≠ Err OutOfFuel.
Proof.
  unfold ParseAdvancedSExp, parse_runes. destruct (trim_space (to_runes input)) as [|r rs]; [done|].
  pose proof (proj1 (parse_fuelled (parse_fuel (r :: rs))) (r :: rs) ltac:(unfold parse_fuel; lia)) as Hf.
  destruct (parse _ _) as [[e rest]|err]; cbn; [by destruct (skip_spaces rest)|congruence].
Qed.

(** ** Printing and reading back *)

Definition atom_ok (a : string) : bool :=
  bool_decide (of_runes (to_runes a) = a) && negb (str_empty a) &&
  forallb (fun r => negb (is_delim r)) (to_runes a).

(** The elements the parser can produce and the printer can write: an atom in
    a list does not end in a star, which would make it a wildcard or prefix. *)
Definition plain (e : element) : bool :=
  match e with Atom v => bool_decide (cut_star v = None) | _ => true end.

Fixpoint wf (e : element) : bool :=
  match e with
  | Atom a => atom_ok a
  | SList tag es => atom_ok tag && negb (bool_decide (tag = "*")) && forallb (fun e => wf e && plain e) es
  | Wildcard => true
  | Prefix v | Suffix v => atom_ok v
  | SSet es => negb (bool_decide (length es = 0)%nat) && forallb wf es
  end.

Fixpoint print_runes (e : element) : list Z :=
  match e with
  | Atom a => to_runes a
  | SList tag es => LParen :: to_runes tag ++ flat_map (fun e => 32 :: print_runes e) es ++ [RParen]
  | Wildcard => to_runes "(*)"
  | Prefix v => to_runes "(* prefix " ++ to_runes v ++ [RParen]
  | Suffix v => to_runes "(* suffix " ++ to_runes v ++ [RParen]
  | SSet es => to_runes "(* set" ++ flat_map (fun e => 32 :: print_runes e) es ++ [RParen]
  end%list.

Definition print (e : element) : string := of_runes (print_runes e).

Lemma element_nested_ind (P : element → Prop) :
  (∀ a, P (Atom a)) → (∀ tag es, Forall P es → P (SList tag es)) → P Wildcard →
  (∀ v, P (Prefix v)) → (∀ v, P (Suffix v)) → (∀ es, Forall P es → P (SSet es)) → ∀ e, P e.
Proof.
  intros HA HL HW HP HS HSet. fix IH 1. intros [a|tag es| |v|v|es]; [apply HA|apply HL|apply HW|apply HP|apply HS|apply HSet];
    (induction es as [|e es IHes]; constructor; [apply IH|exact IHes]).
Qed.

Definition delimited (rest : list Z) : bool := match rest with [] => true | r :: _ => is_delim r end.

Lemma atom_runes_delimited a rest :
  Forall (fun r => is_delim r = false) a → delimited rest = true → atom_runes (a ++ rest)%list = (a, rest).
Proof.
  intros Ha Hr. induction Ha as [|r a H _ IH]; cbn; [destruct rest as [|r rest]; [done|]; cbn in *; by rewrite Hr|].
  by rewrite H, IH.
Qed.

Lemma not_delim r : is_delim r = false → IsSpace r = false ∧ r ≠ LParen ∧ r ≠ RParen.
Proof. unfold is_delim. rewrite !orb_false_iff, !bool_decide_eq_false. tauto. Qed.

Lemma atom_ok_spec a : atom_ok a = true →
  of_runes (to_runes a) = a ∧ Forall (fun r => is_delim r = false) (to_runes a) ∧
  ∃ r rs, to_runes a = r :: rs ∧ is_delim r = false.
Proof.
  unfold atom_ok. rewrite !andb_true_iff, bool_decide_eq_true, negb_true_iff, str_empty_false.
  intros [[Ho Hne] Hf]. assert (Forall (fun r => is_delim r = false) (to_runes a)) as Hd.
  { rewrite forallb_forall in Hf. apply Forall_forall. intros r Hr%list_elem_of_In. apply Hf in Hr.
    by apply negb_true_iff. }
  split_and!; [done..|]. destruct (to_runes a) as [|r rs]; [by rewrite <- Ho in Hne|].
  exists r, rs. by apply Forall_cons in Hd as [? _].
Qed.

Lemma skip_spaces_head r rs : IsSpace r = false → skip_spaces (r :: rs) = r :: rs.
Proof. cbn. by intros ->. Qed.

Lemma parseAtom_print a rest :
  atom_ok a = true → delimited rest = true → parseAtom (to_runes a ++ rest)%list = Ok (a, rest).
Proof.
  intros Ha Hr. destruct (atom_ok_spec a Ha) as (Ho & Hd & r & rs & E & Hd0).
  unfold parseAtom. rewrite E. cbn [app]. rewrite skip_spaces_head by by apply not_delim in Hd0 as [? _].
  change (r :: (rs ++ rest)%list) with ((r :: rs) ++ rest)%list. rewrite <- E.
  rewrite (atom_runes_delimited _ _ Hd Hr), E, <- E, Ho. done.
Qed.

Lemma print_head e : wf e = true →
  ∃ r rs, print_runes e = r :: rs ∧ IsSpace r = false ∧ r ≠ RParen.
Proof.
  destruct e as [a|tag es| |v|v|es]; cbn; intros H; try (by eexists _, _; split; [reflexivity|]).
  destruct (atom_ok_spec a H) as (_ & _ & r & rs & E & Hd). exists r, rs. apply not_delim in Hd. tauto.
Qed.

Lemma delimited_flat es rest :
  delimited (flat_map (fun e => 32 :: print_runes e) es ++ RParen :: rest)%list = true.
Proof. by destruct es. Qed.

Definition reads (e : element) : Prop :=
  ∀ rest, delimited rest = true → ∃ n, parse n (print_runes e ++ rest)%list = Ok (e, rest).

Lemma plain_star_atom e : plain e = true → star_atom e = e.
Proof.
  destruct e as [v| | | | |]; try done. cbn. rewrite bool_decide_eq_true. intros E.
  case_bool_decide as Hv; [by rewrite Hv in E|]. by rewrite E.
Qed.

(** One more element read by a loop. *)
Lemma skip_to_element e rest : wf e = true →
  ∃ r rs, skip_spaces (32 :: print_runes e ++ rest)%list = r :: rs ∧ r :: rs = (print_runes e ++ rest)%list ∧ r ≠ RParen.
Proof.
  intros H. destruct (print_head e H) as (r & rs & E & Hs & Hr). exists r, (rs ++ rest)%list.
  rewrite E. cbn. by rewrite Hs.
Qed.

Lemma parseElements_print es tag acc rest :
  Forall (fun e => wf e = true ∧ plain e = true ∧ reads e) es →
  ∃ n, parseElements n tag acc (flat_map (fun e => 32 :: print_runes e) es ++ RParen :: rest)%list =
    Ok (SList tag (acc ++ es)%list, rest).
Proof.
  intros Hes. revert acc. induction Hes as [|e es (Hw & Hp & Hr) _ IH]; intros acc.
  { exists 1%nat. cbn. by rewrite app_nil_r. }
  set (tail := (flat_map (fun e => 32 :: print_runes e) es ++ RParen :: rest)%list).
  destruct (Hr tail (delimited_flat es rest)) as [n1 E1]. destruct (IH (acc ++ [e])%list) as [n2 E2].
  exists (S (n1 `max` n2)). cbn [flat_map app parseElements].
  rewrite <- app_assoc. fold tail. destruct (skip_to_element e tail Hw) as (r & rs & -> & Ers & Hrp).
  rewrite bool_decide_eq_false_2 by done. rewrite Ers.
  rewrite (proj1 (parse_extends n1 (n1 `max` n2) ltac:(lia))) by by rewrite E1. rewrite E1. cbn [mbind result_bind].
  rewrite (plain_star_atom e Hp). rewrite <- app_assoc in E2.
  rewrite (proj1 (proj2 (parse_extends n2 (n1 `max` n2) ltac:(lia)))); subst tail; by rewrite E2.
Qed.

Lemma parseSet_print es acc rest :
  Forall (fun e => wf e = true ∧ reads e) es → (acc ++ es)%list ≠ [] →
  ∃ n, parseSet n acc (flat_map (fun e => 32 :: print_runes e) es ++ RParen :: rest)%list =
    Ok (SSet (acc ++ es)%list, rest).
Proof.
  intros Hes. revert acc. induction Hes as [|e es (Hw & Hr) _ IH]; intros acc Hne.
  { exists 1%nat. cbn. rewrite app_nil_r in *. by destruct acc. }
  set (tail := (flat_map (fun e => 32 :: print_runes e) es ++ RParen :: rest)%list).
  destruct (Hr tail (delimited_flat es rest)) as [n1 E1].
  destruct (IH (acc ++ [e])%list) as [n2 E2]; [by rewrite <- app_assoc|].
  exists (S (n1 `max` n2)). cbn [flat_map app parseSet].
  rewrite <- app_assoc. fold tail. destruct (skip_to_element e tail Hw) as (r & rs & -> & Ers & Hrp).
  rewrite bool_decide_eq_false_2 by done. rewrite Ers.
  rewrite (proj1 (parse_extends n1 (n1 `max` n2) ltac:(lia))) by by rewrite E1. rewrite E1. cbn [mbind result_bind].
  rewrite <- app_assoc in E2.
  rewrite (proj2 (proj2 (parse_extends n2 (n1 `max` n2) ltac:(lia)))); subst tail; by rewrite E2.
Qed.

Lemma parsePrefixSuffix_print b v rest : atom_ok v = true →
  parsePrefixSuffix b (32 :: to_runes v ++ RParen :: rest)%list = Ok (if b then Prefix v else Suffix v, rest).
Proof.
  intros Hv. unfold parsePrefixSuffix. destruct (atom_ok_spec v Hv) as (_ & _ & r & rs & E & Hd).
  assert (skip_spaces (32 :: to_runes v ++ RParen :: rest)%list = (to_runes v ++ RParen :: rest)%list) as ->.
  { rewrite E. cbn. by rewrite (proj1 (not_delim r Hd)). }
  by rewrite parseAtom_print.
Qed.

(** The star forms, whose opening is a constant. *)
Lemma parse_prefix n rs : parse (S n) (to_runes "(* prefix " ++ rs)%list = parsePrefixSuffix true (32 :: rs).
Proof. reflexivity. Qed.
Lemma parse_suffix n rs : parse (S n) (to_runes "(* suffix " ++ rs)%list = parsePrefixSuffix false (32 :: rs).
Proof. reflexivity. Qed.
Lemma parse_set n rs : parse (S n) (to_runes "(* set" ++ 32 :: rs)%list = parseSet n [] (32 :: rs).
Proof. reflexivity. Qed.

(** Every well-formed element reads back from its text. *)
Lemma wf_reads e : wf e = true → reads e.
Proof.
  induction e as [a|tag es IH| |v|v|es IH] using element_nested_ind; cbn [wf]; intros Hw rest Hrest.
  - exists 1%nat. cbn [print_runes parse]. destruct (atom_ok_spec a Hw) as (_ & _ & r & rs & E & Hd).
    pose proof (parseAtom_print a rest Hw Hrest) as P. rewrite E in *. cbn [app] in *.
    apply not_delim in Hd as (Hs & Hl & _). rewrite skip_spaces_head, bool_decide_eq_false_2, P by done. done.
  - apply andb_true_iff in Hw as [[Ht Hstar]%andb_true_iff Hes]. rewrite forallb_forall in Hes.
    destruct (parseElements_print es tag [] rest) as [n En].
    { rewrite Forall_forall in *. intros e He. pose proof He as He'%list_elem_of_In.
      apply Hes, andb_true_iff in He' as [? ?]. split_and!; auto. }
    exists (S n). cbn [print_runes app parse]. rewrite skip_spaces_head, bool_decide_eq_true_2 by done.
    unfold parseList. rewrite <- !app_assoc. cbn [app].
    set (tail := (flat_map _ es ++ RParen :: rest)%list) in *.
    pose proof (parseAtom_print tag tail Ht (delimited_flat es rest)) as P.
    destruct (atom_ok_spec tag Ht) as (_ & _ & r & rs & E & Hd). rewrite E in *. cbn [app] in *.
    rewrite skip_spaces_head by by apply not_delim in Hd as [? _]. rewrite P. cbn [mbind result_bind].
    rewrite negb_true_iff, bool_decide_eq_false in Hstar. by rewrite bool_decide_eq_false_2.
  - by exists 1%nat.
  - exists 1%nat. cbn [print_runes]. rewrite <- !app_assoc. cbn [app]. rewrite parse_prefix.
    by apply (parsePrefixSuffix_print true).
  - exists 1%nat. cbn [print_runes]. rewrite <- !app_assoc. cbn [app]. rewrite parse_suffix.
    by apply (parsePrefixSuffix_print false).
  - apply andb_true_iff in Hw as [Hne Hes]. rewrite forallb_forall in Hes.
    destruct (parseSet_print es [] rest) as [n En].
    { rewrite Forall_forall in *. intros e He. pose proof He as He'%list_elem_of_In. split; auto. }
    { by destruct es. }
    exists (S n). cbn [print_runes]. rewrite <- !app_assoc. cbn [app].
    destruct es as [|e es]; [done|]. cbn [flat_map app] in *. by rewrite parse_set.
Qed.

Lemma skip_spaces_last rs r : IsSpace r = false → skip_spaces (rev (rs ++ [r])%list) = rev (rs ++ [r])%list.
Proof. intros H. rewrite rev_app_distr. by apply skip_spaces_head. Qed.

Lemma print_last e : wf e = true → ∃ rs r, print_runes e = (rs ++ [r])%list ∧ IsSpace r = false.
Proof.
  destruct e as [a|tag es| |v|v|es]; cbn [wf print_runes]; intros H.
  - destruct (atom_ok_spec a H) as (_ & Hd & r & rs & E & _). rewrite E in *.
    destruct (exists_last (l := r :: rs)) as (rs' & r' & E'); [done|]. exists rs', r'.
    rewrite E' in *. split; [done|]. apply Forall_app in Hd as [_ [Hd _]%Forall_cons]. by apply not_delim in Hd as [? _].
  - eexists (LParen :: to_runes tag ++ flat_map _ es)%list, RParen. cbn. by rewrite <- app_assoc.
  - by exists (to_runes "(*"), RParen.
  - exists (to_runes "(* prefix " ++ to_runes v)%list, RParen. by rewrite <- app_assoc.
  - exists (to_runes "(* suffix " ++ to_runes v)%list, RParen. by rewrite <- app_assoc.
  - eexists (to_runes "(* set" ++ flat_map _ es)%list, RParen. by rewrite <- app_assoc.
Qed.

Lemma print_valid e : Forall (fun r => valid_rune r = true) (print_runes e).
Proof.
  assert (∀ es, Forall (fun e => Forall (fun r => valid_rune r = true) (print_runes e)) es →
    Forall (fun r => valid_rune r = true) (flat_map (fun e => 32 :: print_runes e) es)) as Hf.
  { induction 1 as [|x xs Hx _ IH]; [constructor|]. cbn. constructor; [done|]. by apply Forall_app. }
  induction e as [a|tag es IH| |v|v|es IH] using element_nested_ind; cbn [print_runes];
    repeat first [apply Forall_app; split | apply to_runes_valid | apply Hf; assumption | constructor; [reflexivity|] | constructor].
Qed.

Lemma parse_print_wf e : wf e = true → ParseAdvancedSExp (print e) = Ok e.
Proof.
  intros Hw. unfold ParseAdvancedSExp, print. rewrite to_runes_of_runes by apply print_valid.
  assert (trim_space (print_runes e) = print_runes e) as Ht.
  { unfold trim_space. destruct (print_head e Hw) as (r & rs & E & Hs & _). rewrite E, skip_spaces_head by done.
    rewrite <- E. destruct (print_last e Hw) as (rs' & r' & -> & Hs'). rewrite skip_spaces_last by done.
    apply rev_involutive. }
  unfold parse_runes. rewrite Ht. destruct (print_head e Hw) as (r & rs & E & _ & _).
  destruct (wf_reads e Hw [] eq_refl) as [n Hn]. rewrite app_nil_r in Hn.
  apply parse_with_fuel in Hn. rewrite E in *. by rewrite Hn.
Qed.

(** ** What the parser produces is well formed *)

Lemma parseAtom_ok rs a rest :
  Forall (fun r => valid_rune r = true) rs → parseAtom rs = Ok (a, rest) →
  atom_ok a = true ∧ Forall (fun r => valid_rune r = true) rest ∧
  ∃ b, a = of_runes b ∧ Forall (fun r => valid_rune r = true ∧ is_delim r = false) b.
Proof.
  intros Hv. unfold parseAtom. assert (Forall (fun r => valid_rune r = true) (skip_spaces rs)) as Hv'.
  { induction Hv as [|r rs Hr Hv IH]; cbn; [constructor|]. destruct (IsSpace r); [done|by constructor]. }
  destruct (skip_spaces rs) as [|r rs']; [done|].
  assert (∀ l b t, atom_runes l = (b, t) → Forall (fun r => is_delim r = false) b) as Hd.
  { induction l as [|c l IH]; cbn; [by intros ? ? [= <- _]|]. intros b t. destruct (is_delim c) eqn:Ec; [by intros [= <- _]|].
    destruct (atom_runes l) as [b' t'] eqn:El. intros [= <- _]. constructor; [done|by eapply IH]. }
  destruct (atom_runes (r :: rs')) as [[|c b] t] eqn:E; [done|]. intros [= <- <-].
  pose proof (Hd _ _ _ E) as Hb. apply atom_runes_app in E. rewrite E in Hv'. apply Forall_app in Hv' as [Hvb Hvt].
  split_and!; [|done|].
  - unfold atom_ok. rewrite to_runes_of_runes, bool_decide_eq_true_2 by done. cbn [andb]. apply andb_true_iff. split.
    + apply negb_true_iff, str_empty_false. intros Heq. apply (f_equal to_runes) in Heq. by rewrite to_runes_of_runes in Heq.
    + apply forallb_forall. intros x Hx%list_elem_of_In. rewrite Forall_forall in Hb. by rewrite (Hb x Hx).
  - exists (c :: b). split; [done|]. by apply Forall_and.
Qed.

Lemma cut_star_spec s v : cut_star s = Some v → s = v +:+ "*".
Proof.
  revert v. induction s as [|c s IH]; [done|]. destruct s as [|d s].
  - cbn. intros v. case_bool_decide as Hc; [|done]. subst. by intros [= <-].
  - intros v E. change (cut_star (String c (String d s))) with (String c <$> cut_star (String d s)) in E.
    destruct (cut_star (String d s)) as [w|]; [|done]. injection E as <-. rewrite append_cons. f_equal. by apply IH.
Qed.

Lemma cut_star_ok a v : atom_ok a = true → cut_star a = Some v → a ≠ "*" → atom_ok v = true.
Proof.
  intros Ha E%cut_star_spec Hne. destruct (atom_ok_spec a Ha) as (Ho & Hd & _).
  pose proof (to_runes_valid a) as Hv. set (b := to_runes a) in *.
  assert (flat_map encode_rune b = (str_bytes v ++ [42])%list) as Eb.
  { rewrite <- Ho, of_runes_valid in E by done. apply (f_equal str_bytes) in E.
    rewrite str_bytes_str, str_bytes_app in E by by apply flat_map_bytes. done. }
  destruct b as [|r0 b0] eqn:Eb0; [cbn in Eb; by destruct (str_bytes v)|]. rewrite <- Eb0 in *.
  destruct (exists_last (l := b)) as (b' & r & Hb); [by rewrite Eb0|]. rewrite Hb in *.
  apply Forall_app in Hv as [Hv' [Hvr _]%Forall_cons]. apply Forall_app in Hd as [Hd' _].
  rewrite flat_map_app in Eb. cbn [flat_map] in Eb. rewrite app_nil_r in Eb.
  assert (∃ p c, encode_rune r = (p ++ [c])%list) as (p & c & Er).
  { destruct (decode_encode_rune r [] Hvr) as (x & xs & Ex & _). rewrite Ex.
    destruct (exists_last (l := x :: xs)) as (p & c & ->); [done|]. by exists p, c. }
  rewrite Er, app_assoc in Eb. apply app_inj_tail in Eb as [Eb ->].
  apply encode_rune_last in Er as [-> ->]; [|done..]. rewrite app_nil_r in Eb.
  assert (v = of_runes b') as Hvb by (rewrite of_runes_valid, Eb by done; by rewrite bytes_str_bytes).
  unfold atom_ok. rewrite Hvb, to_runes_of_runes, bool_decide_eq_true_2 by done. cbn [andb]. apply andb_true_iff. split.
  - apply negb_true_iff, str_empty_false. intros Heq. rewrite <- Hvb in Heq. rewrite Heq in E. by apply Hne.
  - apply forallb_forall. intros x Hx%list_elem_of_In. rewrite Forall_forall in Hd'. by rewrite (Hd' x Hx).
Qed.

Lemma star_atom_wf e : wf e = true → wf (star_atom e) && plain (star_atom e) = true.
Proof.
  destruct e as [a|tag es| |v|v|es]; intros Hw; apply andb_true_iff; try done.
  cbn in Hw |- *. case_bool_decide as Hs; [done|]. destruct (cut_star a) as [v|] eqn:E.
  - cbn. by rewrite (cut_star_ok a v Hw E Hs).
  - cbn. by rewrite Hw, E.
Qed.

(** A parser whose elements are well formed and whose rest is still valid. *)
Definition sound (p : parser) : Prop := ∀ rs e rest,
  Forall (fun r => valid_rune r = true) rs → p rs = Ok (e, rest) →
  wf e = true ∧ Forall (fun r => valid_rune r = true) rest.

Lemma skip_spaces_valid rs :
  Forall (fun r => valid_rune r = true) rs → Forall (fun r => valid_rune r = true) (skip_spaces rs).
Proof. induction 1 as [|r rs Hr Hv IH]; cbn; [constructor|]. destruct (IsSpace r); [done|by constructor]. Qed.

Lemma parsePrefixSuffix_sound b : sound (parsePrefixSuffix b).
Proof.
  intros rs e rest Hv. unfold parsePrefixSuffix.
  intros ([v rs'] & (Ha & Hr & _)%parseAtom_ok & H1)%bind_Ok; [|by apply skip_spaces_valid].
  pose proof (skip_spaces_valid rs' Hr) as Hr'. destruct (skip_spaces rs') as [|r rs'']; [done|].
  case_bool_decide; [|done]. injection H1 as <- <-. apply Forall_cons in Hr' as [_ ?]. by destruct b.
Qed.

Lemma parseList_sound elems set_ :
  (∀ tag, atom_ok tag = true → tag ≠ "*" → sound (elems tag)) → sound set_ → sound (parseList elems set_).
Proof.
  intros He Hset rs e rest Hv. unfold parseList. pose proof (skip_spaces_valid rs Hv) as Hs.
  destruct (skip_spaces rs) as [|r rs']; [done|].
  intros ([tag us] & (Ha & Hu & _)%parseAtom_ok & H1)%bind_Ok; [|done].
  case_bool_decide as Ht; [|by eapply He].
  unfold parseStarForm in H1. pose proof (skip_spaces_valid us Hu) as Hu'. destruct (skip_spaces us) as [|q qs]; [done|].
  case_bool_decide; [injection H1 as <- <-; by apply Forall_cons in Hu' as [_ ?]|].
  apply bind_Ok in H1 as ([ty vs] & (_ & Hvs & _)%parseAtom_ok & H2); [|done].
  repeat case_bool_decide; try done;
    [apply (parsePrefixSuffix_sound true vs)|apply (parsePrefixSuffix_sound false vs)|apply (Hset vs)]; done.
Qed.

Lemma parse_sound n :
  sound (parse n) ∧
  (∀ tag es, atom_ok tag = true → tag ≠ "*" → forallb (fun e => wf e && plain e) es = true → sound (parseElements n tag es)) ∧
  (∀ es, forallb wf es = true → sound (parseSet n es)).
Proof.
  induction n as [|n (IHp & IHe & IHs)]; [done|].
  split_and!; [|intros tag es Htag Hne Hes|intros es Hes]; intros rs e rest Hv; cbn; pose proof (skip_spaces_valid rs Hv) as Hs;
    destruct (skip_spaces rs) as [|r rs'] eqn:E; try done; pose proof Hs as [Hr Hs']%Forall_cons.
  - case_bool_decide.
    + apply parseList_sound; [|by apply IHs|done]. intros tag Ht Hne. by apply IHe.
    + intros ([a us] & (Ha & Hu & _)%parseAtom_ok & [= <- <-])%bind_Ok; done.
  - case_bool_decide.
    + intros [= <- <-]. split; [|done]. cbn. rewrite Htag, Hes. by rewrite bool_decide_eq_false_2.
    + intros ([el us] & [Hw Hu]%IHp & H2)%bind_Ok; [|done].
      eapply (IHe tag); [done|done| |exact Hu|exact H2].
      rewrite forallb_app, Hes. cbn. by rewrite star_atom_wf.
  - case_bool_decide.
    + destruct es as [|x xs]; [done|]. intros [= <- <-]. split; [|done]. cbn in Hes |- *. by rewrite Hes.
    + intros ([el us] & [Hw Hu]%IHp & H2)%bind_Ok; [|done].
      eapply IHs; [|exact Hu|exact H2]. rewrite forallb_app, Hes. cbn. by rewrite Hw.
Qed.

Lemma parsed_wf input e : ParseAdvancedSExp input = Ok e → wf e = true.
Proof.
  unfold ParseAdvancedSExp, parse_runes. assert (Forall (fun r => valid_rune r = true) (trim_space (to_runes input))) as Hv.
  { unfold trim_space. apply Forall_rev, skip_spaces_valid, Forall_rev, skip_spaces_valid, to_runes_valid. }
  destruct (trim_space (to_runes input)) as [|r rs]; [done|].
  intros ([el rest] & Hp & H)%bind_Ok. apply (proj1 (parse_sound _)) in Hp as [Hw _]; [|done].
  destruct (skip_spaces rest); [|done]. by injection H as <-.
Qed.

(** Exactly the well-formed elements read back from their text: every
    element the parser produces is one of them, and none is read as another. *)
Theorem print_reads_back e :
  wf e = true ↔ ParseAdvancedSExp (print e) = Ok e.
Proof. split; [apply parse_print_wf|apply parsed_wf]. Qed.
