(* ===== verification/Spocp.v ===== *)
(** * The policy engine

    [pkg/spocputil/engine.go] and the rule loading of [parser.go], over the
    engine of the vendored go-spocp ([adaptive_engine.go], [spocp.go],
    [pkg/compare/compare.go], [pkg/starform/starform.go]): a query is
    authorized when it is less permissive than some rule.  The file system is
    a parameter: a rules file is the lines its scanner yields and whether the
    scanner then fails. *)

From S2P Require Import Prelude Utf8 SExp.

(** ** The order *)

Definition has_prefix (s p : string) : bool := String.prefix p s.
Definition string_rev (s : string) : string := String.string_of_list_ascii (rev (String.list_ascii_of_string s)).
Definition has_suffix (s p : string) : bool := String.prefix (string_rev p) (string_rev s).

Fixpoint elementsEqual (a b : element) : bool :=
  match a, b with
  | Atom x, Atom y => bool_decide (x = y)
  | SList t es, SList t' es' =>
      bool_decide (t = t') &&
      (fix eq (l l' : list element) : bool :=
         match l, l' with
         | [], [] => true
         | x :: l, y :: l' => elementsEqual x y && eq l l'
         | _, _ => false
         end) es es'
  | _, _ => false
  end.

Definition Match (t value : element) : bool :=
  match t with
  | Wildcard => true
  | SSet es => existsb (elementsEqual value) es
  | Prefix p => match value with Atom v => has_prefix v p | _ => false end
  | Suffix p => match value with Atom v => has_suffix v p | _ => false end
  | _ => false
  end.

Definition is_atom (e : element) : bool := match e with Atom _ => true | _ => false end.
Definition is_list (e : element) : bool := match e with SList _ _ => true | _ => false end.
Definition is_star (e : element) : bool := negb (is_atom e) && negb (is_list e).

Definition compareStarForms (s t : element) : bool :=
  match s, t with
  | _, Wildcard => true
  | Prefix p, Prefix q => has_prefix p q
  | Suffix p, Suffix q => has_suffix p q
  | _, _ => false
  end.

(** [s <= t]. *)
Fixpoint LessPermissive (s : element) : element → bool :=
  fix below (t : element) : bool :=
    if match t with Wildcard => true | _ => false end then true else
    if is_atom s && is_atom t then
      match s, t with Atom a, Atom b => bool_decide (a = b) | _, _ => false end
    else if is_atom s && is_star t && Match t s then true
    else if is_star s && is_star t then compareStarForms s t
    else if is_list s && is_list t then
      match s, t with
      | SList tag es, SList tag' es' =>
          bool_decide (tag = tag') && negb (bool_decide (length es < length es')%nat) &&
          (fix all (ss ts : list element) : bool :=
             match ts, ss with
             | [], _ => true
             | t :: ts, s :: ss => LessPermissive s t && all ss ts
             | _ :: _, [] => false
             end) es es'
      | _, _ => false
      end
    else match s with
         | SSet es => forallb (fun e => LessPermissive e t) es
         | _ => match t with SSet es => existsb below es | _ => false end
         end.

(** ** The engine *)

Record Engine := mkEngine { rules : list element }.

Definition rule_tag (e : element) : option string := match e with SList t _ => Some t | _ => None end.

(** [updateIndexingStrategy], after the last rule. *)
Definition indexing (e : Engine) : bool :=
  let tagged := omap rule_tag (rules e) in
  let unique := length (remove_dups tagged) in
  bool_decide (50 ≤ length (rules e))%nat && bool_decide (5 ≤ unique)%nat &&
  bool_decide (length tagged ≤ 100 * unique)%nat.

Definition queryLinear (e : Engine) (q : element) : bool := existsb (LessPermissive q) (rules e).

Definition queryIndexed (e : Engine) (q : element) : bool :=
  match q with
  | SList tag _ => existsb (LessPermissive q) (List.filter (fun r => bool_decide (rule_tag r = Some tag)) (rules e))
  | _ => existsb (LessPermissive q) (List.filter (fun r => bool_decide (rule_tag r = None)) (rules e))
  end.

Definition QueryElement (e : Engine) (q : element) : bool :=
  if indexing e then queryIndexed e q else queryLinear e q.

Definition RuleCount (e : Engine) : Z := Z.of_nat (length (rules e)).
Definition AddRuleElement (e : Engine) (r : element) : Engine := mkEngine (rules e ++ [r]).

Fixpoint cloneElement (e : element) : element :=
  match e with
  | Atom v => Atom v
  | SList t es => SList t (map cloneElement es)
  | Wildcard => Wildcard
  | SSet es => SSet (map cloneElement es)
  | Prefix v => Prefix v
  | Suffix v => Suffix v
  end.

Definition ExportRules (e : Engine) : list element := map cloneElement (rules e).

(** ** Building an engine *)

Inductive rule_error :=
| RuleParse (e : parse_error)
| RuleNotList | RuleTag (got : string) | RuleParts (got : nat)
| PartNotList (i : nat) | PartTag (i : nat) (got : string) | PartValues (i : nat) (got : nat)
| FileOpen | FileScan.

(** The loop over the dimensions; [i] counts from zero. *)
Fixpoint validate_parts (i : nat) (dims : list string) (parts : list element) (requireValue : bool) :
    result rule_error unit :=
  match dims, parts with
  | [], _ => Ok tt
  | dim :: dims, child :: parts =>
      match child with
      | SList tag es =>
          if negb (bool_decide (tag = dim)) then Err (PartTag i tag) else
          match es with
          | [] => if requireValue : bool then Err (PartValues i 0) else validate_parts (S i) dims parts requireValue
          | [_] => validate_parts (S i) dims parts requireValue
          | _ => Err (PartValues i (length es))
          end
      | _ => Err (PartNotList i)
      end
  | _ :: _, [] => Err (PartNotList i)
  end.

Definition ValidateRuleElement (elem : element) (tag : string) (dims : list string) (requireValue : bool) :
    result rule_error unit :=
  match elem with
  | SList t parts =>
      if negb (bool_decide (t = tag)) then Err (RuleTag t) else
      if negb (bool_decide (length parts = length dims)) then Err (RuleParts (length parts)) else
      validate_parts 0 dims parts requireValue
  | _ => Err RuleNotList
  end.

Definition BuildTaggedQuery (tag : string) (dims : list string) (values : gmap string string) : element :=
  SList tag (map (fun d => match values !! d with Some v => SList d [Atom v] | None => SList d [] end) dims).

Record rule_file := mkFile { file_lines : list string; scan_fails : bool }.

Definition validator := element → result rule_error unit.

(** One rule, parsed, validated and added. *)
Definition add_rule (validate : validator) (e : Engine) (parsed : result parse_error element) :
    result rule_error Engine :=
  elem ← map_err RuleParse parsed;
  _ ← validate elem;
  Ok (AddRuleElement e elem).

Fixpoint load_lines (validate : validator) (e : Engine) (lines : list string) : result rule_error Engine :=
  match lines with
  | [] => Ok e
  | line :: lines =>
      match trim_space (to_runes line) with
      | [] => load_lines validate e lines
      | 35 :: _ => load_lines validate e lines          (* # *)
      | rs => e ← add_rule validate e (parse_runes rs); load_lines validate e lines
      end
  end.

Definition LoadRulesFromFile (open : string → option rule_file) (validate : validator) (e : Engine) (path : string) :
    result rule_error Engine :=
  match open path with
  | None => Err FileOpen
  | Some f =>
      e ← load_lines validate e (file_lines f);
      if scan_fails f then Err FileScan else Ok e
  end.

Fixpoint add_inline (validate : validator) (e : Engine) (inlineRules : list string) : result rule_error Engine :=
  match inlineRules with
  | [] => Ok e
  | r :: rs => e ← add_rule validate e (ParseAdvancedSExp r); add_inline validate e rs
  end.

(** [dims] is [None] for nil: no shape validation. *)
Definition shape_validator (tag : string) (dims : option (list string)) (requireValue : bool) : validator :=
  fun elem => match dims with None => Ok tt | Some dims => ValidateRuleElement elem tag dims requireValue end.

Definition BuildEngine (open : string → option rule_file) (tag : string) (dims : option (list string))
    (requireValue : bool) (inlineRules : list string) (rulesFile : string) : result rule_error (option Engine) :=
  match inlineRules, rulesFile with
  | [], EmptyString => Ok None
  | _, _ =>
      let validate := shape_validator tag dims requireValue in
      e ← add_inline validate (mkEngine []) inlineRules;
      e ← (if str_empty rulesFile then Ok e else LoadRulesFromFile open validate e rulesFile);
      Ok (Some e)
  end.

(** ** What a rule authorizes *)

(** The values a rule's pattern admits. *)
Fixpoint value_in (p : element) (v : string) : bool :=
  match p with
  | Atom a => bool_decide (v = a)
  | Wildcard => true
  | Prefix q => has_prefix v q
  | Suffix q => has_suffix v q
  | SSet es => existsb (fun e => value_in e v) es
  | SList _ _ => false
  end.

(** A dimension without a value in the rule admits anything; one with a value
    admits no query that leaves the dimension empty. *)
Definition part_admits (part : element) (v : option string) : bool :=
  match part with
  | SList _ [] => true
  | SList _ (p :: _) => match v with Some v => value_in p v | None => false end
  | _ => false
  end.

Fixpoint parts_admit (parts : list element) (vs : list (option string)) : bool :=
  match parts, vs with
  | [], _ => true
  | p :: parts, v :: vs => part_admits p v && parts_admit parts vs
  | _ :: _, [] => false
  end.

Definition rule_admits (rule : element) (vs : list (option string)) : bool :=
  match rule with SList _ parts => parts_admit parts vs | _ => false end.

Lemma LP_set (v : string) es :
  LessPermissive (Atom v) (SSet es) =
  if existsb (elementsEqual (Atom v)) es then true else existsb (LessPermissive (Atom v)) es.
Proof. reflexivity. Qed.

Lemma existsb_ext_Forall {A} (f g : A → bool) l : Forall (fun x => f x = g x) l → existsb f l = existsb g l.
Proof. induction 1 as [|x l Hx _ IH]; [done|]. cbn. by rewrite Hx, IH. Qed.

(** A value is below a pattern exactly when the pattern admits it. *)
Lemma LP_atom v p : LessPermissive (Atom v) p = value_in p v.
Proof.
  induction p as [a|t es _| |q|q|es IH] using element_nested_ind; try done; [cbn; by destruct (has_prefix v q)|cbn; by destruct (has_suffix v q)|].
  rewrite LP_set. cbn [value_in]. rewrite <- (existsb_ext_Forall (LessPermissive (Atom v)) _ es IH).
  destruct (existsb (elementsEqual (Atom v)) es) eqn:E; [|done].
  apply existsb_exists in E as (x & Hx & Ex). symmetry. apply existsb_exists. exists x. split; [done|].
  destruct x; try done.
Qed.

Fixpoint all_below (ss ts : list element) : bool :=
  match ts, ss with
  | [], _ => true
  | t :: ts, s :: ss => LessPermissive s t && all_below ss ts
  | _ :: _, [] => false
  end.

Lemma LP_lists tag es tag' es' :
  LessPermissive (SList tag es) (SList tag' es') =
  bool_decide (tag = tag') && negb (bool_decide (length es < length es')%nat) && all_below es es'.
Proof. reflexivity. Qed.

(** The shape that [ValidateRuleElement] accepts. *)
Inductive part_shaped (requireValue : bool) (dim : string) : element → Prop :=
| part_empty : requireValue = false → part_shaped requireValue dim (SList dim [])
| part_value p : part_shaped requireValue dim (SList dim [p]).

Definition shaped (tag : string) (dims : list string) (requireValue : bool) (e : element) : Prop :=
  ∃ parts, e = SList tag parts ∧ Forall2 (part_shaped requireValue) dims parts.

Lemma validate_parts_shaped i dims parts rv :
  length parts = length dims → validate_parts i dims parts rv = Ok tt ↔ Forall2 (part_shaped rv) dims parts.
Proof.
  revert i parts. induction dims as [|d dims IH]; intros i [|c parts] Hl; try done.
  cbn in Hl. cbn [validate_parts]. split.
  - destruct c as [a|t [|p [|q es]]| |q|q|es]; try done; case_bool_decide as Ht; try done; subst; cbn [negb].
    + destruct rv; [done|]. intros H%IH; [|lia]. constructor; [by constructor|done].
    + intros H%IH; [|lia]. constructor; [by constructor|done].
  - inversion 1 as [|? ? ? ? Hc Hr]; subst. inversion Hc as [Hrv|p]; subst; rewrite bool_decide_eq_true_2 by done; cbn [negb];
      apply IH; (done || lia).
Qed.

Lemma ValidateRuleElement_shaped e tag dims rv :
  ValidateRuleElement e tag dims rv = Ok tt ↔ shaped tag dims rv e.
Proof.
  unfold shaped. destruct e as [a|t parts| |q|q|es]; cbn;
    try (by split; [done|intros (? & ? & _)]). split.
  - case_bool_decide as Ht; [|done]. cbn. case_bool_decide as Hl; [|done]. cbn. subst.
    intros H%validate_parts_shaped; [|done]. by exists parts.
  - intros (parts' & [= -> ->] & H). rewrite bool_decide_eq_true_2 by done. cbn.
    pose proof (Forall2_length _ _ _ H) as Hl. rewrite bool_decide_eq_true_2 by done. cbn.
    by apply validate_parts_shaped.
Qed.

Lemma all_below_query dims values parts rv :
  Forall2 (part_shaped rv) dims parts →
  all_below (map (fun d => match values !! d with Some v => SList d [Atom v] | None => SList d [] end) dims) parts =
  parts_admit parts (map (fun d => (values : gmap string string) !! d) dims).
Proof.
  induction 1 as [|d c dims parts Hc _ IH]; [done|].
  cbn [map all_below parts_admit]. rewrite <- IH. f_equal. clear IH.
  destruct Hc as [_|p]; destruct (values !! d) as [v|]; rewrite LP_lists, (bool_decide_eq_true_2 (d = d)) by done.
  - done.
  - done.
  - cbn [part_admits all_below length]. rewrite LP_atom. cbn. by destruct (value_in p v).
  - done.
Qed.

Lemma LP_query tag dims values rv rule :
  shaped tag dims rv rule →
  LessPermissive (BuildTaggedQuery tag dims values) rule = rule_admits rule (map (fun d => values !! d) dims).
Proof.
  intros (parts & -> & Hp). unfold BuildTaggedQuery. rewrite LP_lists, bool_decide_eq_true_2 by done.
  rewrite length_map, (Forall2_length _ _ _ Hp), (bool_decide_eq_false_2 (_ < _)%nat) by lia. cbn [negb andb rule_admits].
  by apply (all_below_query dims values parts rv).
Qed.

(** Queries by tag find what the linear search finds, in a set of list rules. *)
Lemma queryIndexed_linear e tag es :
  Forall (fun r => is_list r = true) (rules e) → queryIndexed e (SList tag es) = queryLinear e (SList tag es).
Proof.
  unfold queryIndexed, queryLinear. induction 1 as [|r rs Hr _ IH]; [done|]. cbn [List.filter existsb].
  destruct r as [a|t es'| |q|q|es']; try done. cbn [rule_tag]. case_bool_decide as Ht; cbn [existsb]; rewrite IH; [done|].
  rewrite LP_lists, (bool_decide_eq_false_2 (tag = t)) by congruence. done.
Qed.

Lemma shaped_is_list tag dims rv e : shaped tag dims rv e → is_list e = true.
Proof. by intros (parts & -> & _). Qed.

(** Over rules of one shape the engine authorizes exactly the queries some
    rule admits, dimension by dimension, indexed or not. *)
Lemma QueryElement_admits e tag dims rv values :
  Forall (shaped tag dims rv) (rules e) →
  QueryElement e (BuildTaggedQuery tag dims values) =
  existsb (fun r => rule_admits r (map (fun d => values !! d) dims)) (rules e).
Proof.
  intros Hs. assert (QueryElement e (BuildTaggedQuery tag dims values) = queryLinear e (BuildTaggedQuery tag dims values)) as ->.
  { unfold QueryElement. destruct (indexing e); [|done]. apply queryIndexed_linear.
    eapply Forall_impl; [exact Hs|]. apply shaped_is_list. }
  unfold queryLinear. apply existsb_ext_Forall. eapply Forall_impl; [exact Hs|]. intros r. apply LP_query.
Qed.

(** ** What is loaded *)

(** The rules a file contributes, in order; comments and blanks aside. *)
Fixpoint line_rules (lines : list string) : list (result parse_error element) :=
  match lines with
  | [] => []
  | line :: lines =>
      match trim_space (to_runes line) with
      | [] => line_rules lines
      | 35 :: _ => line_rules lines
      | rs => parse_runes rs :: line_rules lines
      end
  end.

Definition accepted (validate : validator) (parsed : result parse_error element) (r : element) : Prop :=
  parsed = Ok r ∧ validate r = Ok tt.

Lemma add_rule_Ok validate e parsed e' :
  add_rule validate e parsed = Ok e' ↔ ∃ r, accepted validate parsed r ∧ e' = AddRuleElement e r.
Proof.
  unfold add_rule, accepted. split.
  - intros (r & Hr%map_err_Ok & ([] & Hv & [= <-])%bind_Ok)%bind_Ok. by exists r.
  - intros (r & [-> Hv] & ->). cbn. by rewrite Hv.
Qed.

Lemma load_lines_Ok validate lines e e' :
  load_lines validate e lines = Ok e' ↔
  ∃ rs, Forall2 (accepted validate) (line_rules lines) rs ∧ rules e' = (rules e ++ rs)%list.
Proof.
  revert e. induction lines as [|line lines IH]; intros e; cbn.
  { split; [intros [= <-]; exists []; by rewrite app_nil_r|].
    intros (rs & H & E). inversion H; subst. rewrite app_nil_r in E. destruct e, e'. cbn in E. by subst. }
  assert (∀ t, (e1 ← add_rule validate e t; load_lines validate e1 lines) = Ok e' ↔
    ∃ rs, Forall2 (accepted validate) (t :: line_rules lines) rs ∧ rules e' = (rules e ++ rs)%list) as Hadd.
  { intros t. rewrite bind_Ok. split.
    - intros (e1 & (r & Hr & ->)%add_rule_Ok & (rs & Hrs & E)%IH). exists (r :: rs). split; [by constructor|].
      cbn in E. by rewrite <- app_assoc in E.
    - intros (rs' & H & E). inversion H as [|? r ? rs Hr Hrs]; subst. exists (AddRuleElement e r).
      split; [apply add_rule_Ok; by exists r|]. apply IH. exists rs. split; [done|]. cbn. by rewrite <- app_assoc. }
  destruct (trim_space (to_runes line)) as [|c rs]; [apply IH|].
  destruct (decide (c = 35)) as [->|Hc]; [apply IH|].
  destruct c as [|c|c]; try apply Hadd.
  repeat (destruct c as [c|c|]; try apply Hadd; try done).
Qed.

Lemma add_inline_Ok validate inline e e' :
  add_inline validate e inline = Ok e' →
  ∃ rs, Forall2 (accepted validate) (map ParseAdvancedSExp inline) rs ∧ rules e' = (rules e ++ rs)%list.
Proof.
  revert e. induction inline as [|s inline IH]; intros e; cbn.
  { intros [= <-]. exists []. by rewrite app_nil_r. }
  intros (e1 & (r & Hr & ->)%add_rule_Ok & (rs & Hrs & E)%IH)%bind_Ok. exists (r :: rs).
  split; [by constructor|]. cbn in E. by rewrite <- app_assoc in E.
Qed.

(** The rules of a built engine: the inline ones, then those of the file. *)
Lemma BuildEngine_rules open tag dims rv inline file e :
  BuildEngine open tag dims rv inline file = Ok (Some e) →
  ∃ rs fs lines, Forall2 (accepted (shape_validator tag dims rv)) (map ParseAdvancedSExp inline) rs ∧
    Forall2 (accepted (shape_validator tag dims rv)) (line_rules lines) fs ∧
    (if str_empty file then lines = [] else ∃ b, open file = Some (mkFile lines b)) ∧
    rules e = (rs ++ fs)%list.
Proof.
  intros H. assert ((e1 ← add_inline (shape_validator tag dims rv) (mkEngine []) inline;
     e2 ← (if str_empty file then Ok e1 else LoadRulesFromFile open (shape_validator tag dims rv) e1 file);
     Ok (Some e2)) = Ok (Some e)) as Hb.
  { unfold BuildEngine in H. by destruct inline, file. }
  clear H. apply bind_Ok in Hb as (e1 & (rs & Hrs & E1)%add_inline_Ok & (e2 & H2 & [= <-])%bind_Ok).
  destruct (str_empty file) eqn:Ef.
  - injection H2 as <-. exists rs, [], []. split_and!; [done|constructor|done|]. cbn in E1. by rewrite app_nil_r.
  - unfold LoadRulesFromFile in H2. destruct (open file) as [[lines b]|]; [|done].
    apply bind_Ok in H2 as (e3 & (fs & Hfs & E3)%load_lines_Ok & H3). destruct b; [done|]. injection H3 as <-.
    exists rs, fs, lines. split_and!; eauto. rewrite E3, E1. done.
Qed.

Lemma BuildEngine_shaped open tag dims rv inline file e :
  BuildEngine open tag (Some dims) rv inline file = Ok (Some e) → Forall (shaped tag dims rv) (rules e).
Proof.
  intros (rs & fs & lines & Hrs & Hfs & _ & ->)%BuildEngine_rules.
  assert (∀ ps xs, Forall2 (accepted (shape_validator tag (Some dims) rv)) ps xs → Forall (shaped tag dims rv) xs) as Hx.
  { induction 1 as [|p x ps xs [_ Hv] _ IH]; constructor; [by apply ValidateRuleElement_shaped|done]. }
  apply Forall_app. split; by eapply Hx.
Qed.

Lemma cloneElement_id e : cloneElement e = e.
Proof.
  induction e as [a|t es IH| |v|v|es IH] using element_nested_ind; cbn; try done; f_equal;
    rewrite <- (map_id es) at 2; by apply map_ext_Forall.
Qed.

Lemma ExportRules_rules e : ExportRules e = rules e.
Proof. unfold ExportRules. rewrite <- (map_id (rules e)) at 2. apply map_ext. apply cloneElement_id. Qed.
