(* ===== verification/IssuancePolicy.v ===== *)
(** * The issuance policy

    [pkg/issuance/policy.go]: whether the claims an identity provider asserted
    allow a credential of a scope to be issued; [GetNestedValue] of
    [pkg/credential/attribute_mapping.go]; and the checks of
    [pkg/helpers/validate.go] on a configured policy.  The rendering of a
    number and of a composite claim ([fmt]'s %g, [json.Marshal]) is a
    parameter, as is the file system. *)

From Stdlib Require Import SpecFloat.
From stdpp Require Import pretty.
From S2P Require Import Prelude Utf8 GoValue SExp Spocp.

Record QueryDimension := mkDim { Dimension : string; Claim : string }.
Record IssuancePolicy := mkPolicy {
  Rules : list string; RulesFile : string; QueryTemplate : list QueryDimension
}.

Inductive policy_error :=
| NoRules | NoTemplate | NothingLoaded | PolicyRule (e : rule_error)
| EvalNoTemplate | ClaimsMissing (claims : list string) | Denied.

(** ** Claims by path *)

(** [strings.Split(s, ".")] *)
Fixpoint split_dots (s : string) : list string :=
  match s with
  | EmptyString => [""]
  | String c s =>
      if bool_decide (c = "."%char) then "" :: split_dots s else
      match split_dots s with
      | p :: ps => String c p :: ps
      | [] => [String c ""]
      end
  end.

(** The walk down to the last part, and its lookup there. *)
Fixpoint walk (current : gomap) (key : string) (parts : list string) : option goval :=
  match parts with
  | [] => mget current key
  | next :: parts =>
      match mget current key with
      | Some (GMap m) => walk m next parts
      | _ => None
      end
  end.

Definition GetNestedValue (doc : gomap) (path : string) : option goval :=
  if str_empty path then None else
  match split_dots path with
  | [_] => mget doc path
  | key :: parts => walk doc key parts
  | [] => None
  end.

Definition lookupClaim (claims : gomap) (path : string) : option goval :=
  match mget claims path with Some v => Some v | None => GetNestedValue claims path end.

(** ** Configured policies *)

Definition is_letter (r : Z) : bool := bool_decide (65 ≤ r ≤ 90) || bool_decide (97 ≤ r ≤ 122).
Definition is_dim_char (r : Z) : bool :=
  is_letter r || bool_decide (48 ≤ r ≤ 57) || bool_decide (r = 95) || bool_decide (r = 45).

(** The pattern of a dimension name. *)
Definition spocp_dimension (d : string) : bool :=
  match str_bytes d with c :: cs => is_letter c && forallb is_dim_char cs | [] => false end.

Inductive report := TemplateRequired | ScopeReserved | DuplicateDimension (d : string) | BadDimension (d : string) | NoClaim.

(** The loop over the template with the names seen. *)
Fixpoint template_reports (seen : list string) (template : list QueryDimension) : list report :=
  match template with
  | [] => []
  | d :: template =>
      match trim_space (to_runes (Dimension d)) with
      | [] => template_reports seen template
      | _ =>
          ((if bool_decide (Dimension d = "scope") then [ScopeReserved]
            else if bool_decide (Dimension d ∈ seen) then [DuplicateDimension (Dimension d)] else [])
           ++ template_reports (Dimension d :: seen) template)%list
      end
  end.

Definition policy_reports (p : IssuancePolicy) : list report :=
  ((if bool_decide (length (QueryTemplate p) = 0)%nat &&
       (negb (bool_decide (length (Rules p) = 0)%nat) ||
        match trim_space (to_runes (RulesFile p)) with [] => false | _ => true end)
    then [TemplateRequired] else [])
   ++ template_reports [] (QueryTemplate p)
   ++ flat_map (fun d => (if spocp_dimension (Dimension d) then [] else [BadDimension (Dimension d)])
                         ++ (if str_empty (Claim d) then [NoClaim] else [])) (QueryTemplate p))%list.

(** A dimension name is not blank. *)
Lemma dimension_not_blank d : spocp_dimension d = true → trim_space (to_runes d) ≠ [].
Proof.
  unfold spocp_dimension, to_runes. destruct (str_bytes d) as [|c cs]; [done|]. intros [Hc _]%andb_true_iff.
  assert (65 ≤ c ≤ 122) as Hr by (unfold is_letter in Hc; apply orb_true_iff in Hc as [Hc%bool_decide_eq_true|Hc%bool_decide_eq_true]; lia).
  cbn [length decode_runes]. assert (decode_rune c cs = (c, cs)) as -> by (unfold decode_rune; by rewrite bool_decide_eq_true_2 by lia).
  assert (IsSpace c = false) as Hs.
  { unfold IsSpace. apply orb_false_iff. split; apply bool_decide_eq_false_2; [|lia].
    intros H. repeat (apply elem_of_cons in H as [->|H]; [lia|]). by apply elem_of_nil in H. }
  unfold trim_space. rewrite skip_spaces_head by done. generalize (decode_runes (length cs) cs) as l. intros l E.
  assert (∀ l', c ∈ l' → skip_spaces l' ≠ []) as Hne.
  { induction l' as [|x l' IH]; [by intros ?%elem_of_nil|]. cbn. intros [->|Hx]%elem_of_cons; [by rewrite Hs|].
    destruct (IsSpace x); [by apply IH|done]. }
  apply (f_equal (@rev Z)) in E. rewrite rev_involutive in E. revert E. apply Hne.
  cbn. apply elem_of_app. right. set_solver.
Qed.

(** ** The engine *)

Section policy.
Variable open_file : string → option rule_file.
Variable render_float : spec_float → string.
Variable render_json : goval → string.

Definition scopeDimension : string := "scope".

Definition policyRuleDimensions (template : list QueryDimension) : option (list string) :=
  match template with [] => None | _ => Some (scopeDimension :: map Dimension template) end.

Definition NewPolicyEngine (policy : option IssuancePolicy) : result policy_error (option Engine) :=
  match policy with
  | None => Ok None
  | Some p =>
      if bool_decide (length (Rules p) = 0)%nat && str_empty (RulesFile p) then Err NoRules else
      if bool_decide (length (QueryTemplate p) = 0)%nat then Err NoTemplate else
      let dims := policyRuleDimensions (QueryTemplate p) in
      engine ← map_err PolicyRule (BuildEngine open_file "credential" dims false (Rules p) (RulesFile p));
      match engine with
      | None => Err NothingLoaded
      | Some e => if bool_decide (RuleCount e = 0) then Err NothingLoaded else Ok (Some e)
      end
  end.

(** The cache is keyed by the policy's pointer. *)
Definition GetPolicyEngine (cache : gmap nat Engine) (policy : option (nat * IssuancePolicy)) :
    gmap nat Engine * result policy_error (option Engine) :=
  match policy with
  | None => (cache, Ok None)
  | Some (ptr, p) =>
      match cache !! ptr with
      | Some e => (cache, Ok (Some e))
      | None =>
          match NewPolicyEngine (Some p) with
          | Err e => (cache, Err e)
          | Ok None => (cache, Ok None)
          | Ok (Some e) => (<[ptr := e]> cache, Ok (Some e))
          end
      end
  end.

Definition toStringValue (v : goval) : string :=
  match v with
  | GString s => s
  | GBool b => if b then "true" else "false"
  | GFloat64 f => render_float f
  | GInt z => pretty z
  | _ => render_json v
  end.

(** The loop over the template: the values and the claims not asserted. *)
Fixpoint query_values (claims : gomap) (template : list QueryDimension) (values : gmap string string)
    (missing : list string) : gmap string string * list string :=
  match template with
  | [] => (values, missing)
  | d :: template =>
      match lookupClaim claims (Claim d) with
      | None => query_values claims template values (missing ++ [Claim d])
      | Some v => query_values claims template (<[Dimension d := toStringValue v]> values) missing
      end
  end.

Definition buildQuery (scope : string) (claims : gomap) (template : list QueryDimension) : element * list string :=
  let '(values, missing) := query_values claims template {[ scopeDimension := scope ]} [] in
  (BuildTaggedQuery "credential" (scopeDimension :: map Dimension template) values, missing).

Definition Evaluate (pe : Engine) (scope : string) (claims : gomap) (template : list QueryDimension) :
    result policy_error unit :=
  if bool_decide (length template = 0)%nat then Err EvalNoTemplate else
  let '(query, missing) := buildQuery scope claims template in
  if negb (bool_decide (length missing = 0)%nat) then Err (ClaimsMissing missing) else
  if negb (QueryElement pe query) then Err Denied else Ok tt.

(** ** What a policy allows *)

(** The values of the template's claims, when all are asserted. *)
Definition claim_values (claims : gomap) (template : list QueryDimension) : option (list string) :=
  mapM (fun d => toStringValue <$> lookupClaim claims (Claim d)) template.

(** The rules of the configuration, inline and in the file. *)
Definition configured (p : IssuancePolicy) (rule : element) : Prop :=
  Ok rule ∈ map ParseAdvancedSExp (Rules p) ∨
  ∃ lines b, RulesFile p ≠ "" ∧ open_file (RulesFile p) = Some (mkFile lines b) ∧ Ok rule ∈ line_rules lines.

Lemma query_values_other claims template values missing k :
  k ∉ map Dimension template → fst (query_values claims template values missing) !! k = values !! k.
Proof.
  revert values missing. induction template as [|d template IH]; intros values missing; [done|].
  cbn. intros [Hk Hk']%not_elem_of_cons. destruct (lookupClaim claims (Claim d)); rewrite IH by done; [|done].
  by apply lookup_insert_ne.
Qed.

Lemma query_values_missing claims template values missing :
  (length missing ≤ length (snd (query_values claims template values missing)))%nat ∧
  (claim_values claims template = None →
   length missing < length (snd (query_values claims template values missing)))%nat.
Proof.
  revert values missing. induction template as [|d template IH]; intros values missing; [done|].
  cbn. destruct (lookupClaim claims (Claim d)) as [v|]; cbn.
  - destruct (IH (<[Dimension d := toStringValue v]> values) missing) as [H1 H2]. split; [done|].
    intros Hn. apply H2. unfold claim_values. by destruct (mapM _ template).
  - destruct (IH values (missing ++ [Claim d])%list) as [H1 _]. rewrite length_app in H1. cbn in H1. lia.
Qed.

Lemma query_values_found claims template values missing vs :
  NoDup (map Dimension template) → claim_values claims template = Some vs →
  snd (query_values claims template values missing) = missing ∧
  map (fun d => fst (query_values claims template values missing) !! d) (map Dimension template) = map Some vs.
Proof.
  revert values missing vs. induction template as [|d template IH]; intros values missing vs; cbn.
  { by intros _ [= <-]. }
  intros [Hd Hn]%NoDup_cons. unfold claim_values in *. cbn.
  destruct (lookupClaim claims (Claim d)) as [v|]; [|done]. cbn.
  destruct (mapM _ template) as [ws|] eqn:E; [|done]. intros [= <-]. cbn.
  destruct (IH (<[Dimension d := toStringValue v]> values) missing ws Hn eq_refl) as [H1 H2].
  split; [done|]. f_equal; [|done]. rewrite query_values_other by done. apply lookup_insert_eq.
Qed.

Lemma template_reports_nil seen template :
  template_reports seen template = [] → Forall (fun d => spocp_dimension (Dimension d) = true) template →
  NoDup (map Dimension template) ∧ "scope" ∉ map Dimension template ∧
  ∀ d, d ∈ seen → d ∉ map Dimension template.
Proof.
  revert seen. induction template as [|d template IH]; intros seen; cbn.
  { intros _ _. split_and!; [constructor|set_solver..]. }
  intros H [Hd Hf]%Forall_cons.
  assert (∃ r rs, trim_space (to_runes (Dimension d)) = r :: rs) as (r & rs & E).
  { destruct (trim_space (to_runes (Dimension d))) as [|r rs] eqn:E; [|by eauto]. exfalso.
    by apply (dimension_not_blank (Dimension d)). }
  rewrite E in H. apply app_eq_nil in H as [H0 H1]. destruct (IH _ H1 Hf) as (Hn & Hs & Hseen).
  case_bool_decide as Hsc; [done|]. case_bool_decide as Hin; [done|].
  split_and!.
  - constructor; [apply Hseen; set_solver|done].
  - set_solver.
  - intros x Hx. apply not_elem_of_cons. split; [congruence|]. apply Hseen. set_solver.
Qed.

Lemma accepted_elem validate ps xs x : Forall2 (accepted validate) ps xs → x ∈ xs ↔ Ok x ∈ ps.
Proof.
  induction 1 as [|p y ps xs [-> _] _ IH]; [split; by intros ?%elem_of_nil|].
  rewrite !elem_of_cons, IH. split; (intros [Hx|Hx]; [left; congruence|by right]).
Qed.

(** A policy's engine holds exactly the configured rules, and has some. *)
Lemma NewPolicyEngine_rules p pe :
  NewPolicyEngine (Some p) = Ok (Some pe) →
  (∀ rule, rule ∈ rules pe ↔ configured p rule) ∧
  Forall (shaped "credential" (scopeDimension :: map Dimension (QueryTemplate p)) false) (rules pe) ∧
  rules pe ≠ [].
Proof.
  unfold NewPolicyEngine. destruct (_ && _); [done|]. case_bool_decide as Ht; [done|].
  intros (e & He%map_err_Ok & H)%bind_Ok. destruct e as [e|]; [|done]. case_bool_decide as Hc; [done|]. injection H as <-.
  assert (policyRuleDimensions (QueryTemplate p) = Some (scopeDimension :: map Dimension (QueryTemplate p))) as Hd
    by (by destruct (QueryTemplate p)).
  rewrite Hd in He. split_and!.
  - intros rule. apply BuildEngine_rules in He as (rs & fs & lines & Hrs & Hfs & Hf & ->).
    rewrite elem_of_app, (accepted_elem _ _ _ _ Hrs), (accepted_elem _ _ _ _ Hfs). unfold configured.
    destruct (str_empty (RulesFile p)) eqn:Es.
    + subst. apply str_empty_true in Es. cbn. split; [intros [?|?%elem_of_nil]; [by left|done]|].
      intros [?|(l & b & ? & _)]; [by left|done].
    + apply str_empty_false in Es. destruct Hf as [b Hf]. split; (intros [?|H]; [by left|]).
      * right. eauto.
      * destruct H as (l & b' & _ & E & ?). rewrite Hf in E. injection E as <- <-. by right.
  - by eapply BuildEngine_shaped.
  - intros E. unfold RuleCount in Hc. by rewrite E in Hc.
Qed.

(** C33: A credential is authorized exactly when the provider asserted every
    claim of the template and some configured rule admits the scope and those
    values, dimension by dimension: an absent claim never counts as a
    wildcard, and no rule of another scope or shape applies. *)
Theorem Evaluate_spec p pe scope claims :
  policy_reports p = [] → NewPolicyEngine (Some p) = Ok (Some pe) →
  Evaluate pe scope claims (QueryTemplate p) = Ok tt ↔
  ∃ vs rule, claim_values claims (QueryTemplate p) = Some vs ∧ configured p rule ∧
    rule_admits rule (map Some (scope :: vs)) = true.
Proof.
  unfold policy_reports. intros [_ [Hr Hf]%app_eq_nil]%app_eq_nil Hn.
  assert (Forall (fun d => spocp_dimension (Dimension d) = true) (QueryTemplate p)) as Hdim.
  { clear -Hf. induction (QueryTemplate p) as [|d t IH]; [constructor|]. cbn in Hf.
    apply app_eq_nil in Hf as [[Hd _]%app_eq_nil Hf]. constructor; [by destruct (spocp_dimension (Dimension d))|by apply IH]. }
  destruct (template_reports_nil _ _ Hr Hdim) as (Hnd & Hsc & _).
  destruct (NewPolicyEngine_rules p pe Hn) as (Hrules & Hshape & _).
  assert (QueryTemplate p ≠ []) as Ht.
  { unfold NewPolicyEngine in Hn. destruct (_ && _); [done|]. by destruct (QueryTemplate p). }
  unfold Evaluate. rewrite bool_decide_eq_false_2 by by destruct (QueryTemplate p).
  unfold buildQuery. set (init := {[scopeDimension := scope]} : gmap string string).
  assert (init !! scopeDimension = Some scope) as Hinit by apply lookup_singleton_eq. clearbody init.
  pose proof (query_values_other claims (QueryTemplate p) init [] scopeDimension Hsc) as Hscope.
  pose proof (query_values_missing claims (QueryTemplate p) init []) as [_ Hmiss].
  destruct (claim_values claims (QueryTemplate p)) as [vs|] eqn:Ev.
  - destruct (query_values_found claims (QueryTemplate p) init [] vs Hnd Ev) as [Hm Hv].
    destruct (query_values _ _ _ _) as [values missing]. cbn in Hm, Hv, Hscope. subst missing. cbn [length].
    rewrite bool_decide_eq_true_2 by done. cbn [negb].
    rewrite (QueryElement_admits pe _ _ false values Hshape). cbn [map]. rewrite Hscope, Hv, Hinit.
    destruct (existsb _ (rules pe)) eqn:Ex; cbn [negb]; split; try done.
    + intros _. apply existsb_exists in Ex as (rule & Hin%list_elem_of_In & Ha). exists vs, rule.
      split_and!; [done|by apply Hrules|done].
    + intros (vs' & rule & [= <-] & Hc%Hrules & Ha). exfalso.
      assert (existsb (fun r => rule_admits r (Some scope :: map Some vs)) (rules pe) = true); [|congruence].
      apply existsb_exists. exists rule. split; [by apply list_elem_of_In|done].
  - destruct (query_values _ _ _ _) as [values missing]. cbn in Hmiss. specialize (Hmiss eq_refl).
    rewrite bool_decide_eq_false_2 by lia. cbn. split; [done|]. by intros (? & ? & ? & _).
Qed.

(** A configured policy is never silently inert: building it fails, or
    gives an engine with at least one rule, all of the one shape its queries
    have; only the absence of a policy gives no engine. *)
Theorem NewPolicyEngine_never_inert policy :
  match NewPolicyEngine policy with
  | Ok None => policy = None
  | Ok (Some pe) => ∃ p, policy = Some p ∧ 0 < RuleCount pe ∧
      Forall (shaped "credential" (scopeDimension :: map Dimension (QueryTemplate p)) false) (rules pe)
  | Err _ => policy ≠ None
  end.
Proof.
  destruct policy as [p|]; [|done]. destruct (NewPolicyEngine (Some p)) as [[pe|]|e] eqn:E; [| |done].
  - apply NewPolicyEngine_rules in E as (_ & Hs & Hne). exists p. split_and!; [done| |done].
    unfold RuleCount. destruct (rules pe); [done|]. cbn. lia.
  - unfold NewPolicyEngine in E. destruct (_ && _); [done|]. case_bool_decide; [done|].
    apply bind_Ok in E as (e & _ & E). destruct e as [e|]; [|done]. by case_bool_decide.
Qed.
End policy.

(** The worked example of the configuration: a rule on the assurance level and
    the organisation. *)
Definition w_policy : IssuancePolicy :=
  mkPolicy ["(credential (scope org_credential)(acr (* prefix urn:example:loa))(org_id))"] ""
    [mkDim "acr" "acr"; mkDim "org_id" "org.id"].

Definition w_claims : gomap :=
  [("acr", GString "urn:example:loa3"); ("org", GMap [("id", GString "42")])].

Lemma Evaluate_spec_witness :
  ∃ pe, NewPolicyEngine (fun _ => None) (Some w_policy) = Ok (Some pe) ∧
    Evaluate (fun _ => "") (fun _ => "") pe "org_credential" w_claims (QueryTemplate w_policy) = Ok tt.
Proof.
  destruct (NewPolicyEngine (fun _ => None) (Some w_policy)) as [[pe|]|] eqn:E;
    [|vm_compute in E; discriminate E|vm_compute in E; discriminate E].
  exists pe. split; [reflexivity|].
  apply (Evaluate_spec (fun _ => None) (fun _ => "") (fun _ => "") w_policy pe "org_credential" w_claims); [vm_compute; reflexivity|exact E|].
  exists ["urn:example:loa3"; "42"],
    (SList "credential" [SList "scope" [Atom "org_credential"]; SList "acr" [Prefix "urn:example:loa"]; SList "org_id" []]).
  split; [vm_compute; reflexivity|]. split; [left; cbn; left|vm_compute; reflexivity].
Defined.
