(* ===== verification/EndpointAuth.v ===== *)
(** * Endpoint authorization

    [pkg/httphelpers/middleware_jwt.go] and [middleware.go]: the rules that
    decide whether a caller may use an endpoint on a resource, the resource
    pairs read from a request, the lists that filter database queries, and
    the two middlewares that combine them; and [requireCanonicalJSONBody] of
    [internal/apigw/httpserver/endpoints_oauth.go].

    A JSON object is the list of its members in the order of the text, names
    possibly repeated.  Decoding it into a map keeps the last member of a name.
    Decoding it into a struct takes the members in turn, each to the field of
    exactly its name or else of its name up to [fold], the letter case folding
    of [encoding/json], which is a parameter. *)

From S2P Require Import Prelude Utf8 GoValue SExp Spocp.

Definition apiAuthRuleDimensions : list string :=
  ["service"; "method"; "path"; "subject"; "authentic_source"; "scope"].

Definition BuildSPOCPEngine (open : string → option rule_file) (inlineRules : list string) (rulesFile : string) :
    result rule_error (option Engine) :=
  BuildEngine open "vc" (Some apiAuthRuleDimensions) true inlineRules rulesFile.

Definition BuildSPOCPQuery (service method path subject authenticSource scope : string) : element :=
  BuildTaggedQuery "vc" apiAuthRuleDimensions
    (<["service" := service]> (<["method" := method]> (<["path" := path]> (<["subject" := subject]>
     (<["authentic_source" := authenticSource]> (<["scope" := scope]> ∅)))))).

(** ** The resources a subject may see *)

Definition extractListValues (elem : element) : list string :=
  match elem with
  | SList _ (v :: _) =>
      match v with
      | Atom a => [a]
      | Wildcard => ["*"]
      | SSet es =>
          match omap (fun e => match e with Atom a => Some a | _ => None end) es with
          | [] => ["*"]
          | values => values
          end
      | _ => ["*"]
      end
  | _ => ["*"]
  end.

Definition rule_pairs (subject : string) (rule : element) : list (string * string) :=
  match rule with
  | SList tag es =>
      if negb (bool_decide (tag = "vc")) || bool_decide (length es < 6)%nat then [] else
      if negb (LessPermissive (SList "subject" [Atom subject]) (nth 3 es Wildcard)) then [] else
      list_prod (extractListValues (nth 4 es Wildcard)) (extractListValues (nth 5 es Wildcard))
  | _ => []
  end.

Definition ResolveAllowedResources (engine : option Engine) (subject : string) : list (string * string) :=
  match engine with
  | None => []
  | Some e => flat_map (rule_pairs subject) (ExportRules e)
  end.

(** The distinct values in order; nil, here [None], for unrestricted. *)
Fixpoint distinct (seen : list string) (l : list string) : option (list string) :=
  match l with
  | [] => Some []
  | v :: l =>
      if bool_decide (v = "*") then None else
      if bool_decide (v ∈ seen) then distinct seen l else
      rest ← distinct (v :: seen) l; Some (v :: rest)
  end.

Definition allowed_values (values : list string) : option (list string) :=
  match values with [] => None | _ => distinct [] values end.

Definition AllowedAuthenticSources (engine : option Engine) (subject : string) : option (list string) :=
  allowed_values (map fst (ResolveAllowedResources engine subject)).
Definition AllowedScopes (engine : option Engine) (subject : string) : option (list string) :=
  allowed_values (map snd (ResolveAllowedResources engine subject)).

(** ** The resources a request names *)

Fixpoint last_get (m : gomap) (k : string) : option goval :=
  match m with
  | [] => None
  | (k', v) :: m => match last_get m k with
                    | Some w => Some w
                    | None => if bool_decide (k' = k) then Some v else None
                    end
  end.

(** Decoding into [map[string]json.RawMessage]; null is the empty map. *)
Definition as_raw (v : goval) : option gomap :=
  match v with GMap m => Some m | GNil => Some [] | _ => None end.

Definition jsonStringField (raw : gomap) (key : string) : string :=
  match last_get raw key with Some (GString s) => s | _ => "" end.

Record resourcePair := mkPair { authenticSource : string; scope : string }.
#[global] Instance resourcePair_eq_dec : EqDecision resourcePair.
Proof. solve_decision. Defined.

Definition pair_of (raw : gomap) : list resourcePair :=
  let src := jsonStringField raw "authentic_source" in
  let sc := jsonStringField raw "scope" in
  if negb (str_empty src) || negb (str_empty sc) then [mkPair src sc] else [].

Definition meta_pair (raw : gomap) : list resourcePair :=
  match last_get raw "meta" with
  | Some v => match as_raw v with Some meta => pair_of meta | None => [] end
  | None => []
  end.

(** The members of a decoded map, in the order of their last occurrence. *)
Fixpoint map_members (m : gomap) : list goval :=
  match m with
  | [] => []
  | (k, v) :: m => if bool_decide (k ∈ map fst m) then map_members m else v :: map_members m
  end.

Definition each_member (raw : gomap) (key : string) (f : gomap → list resourcePair) : list resourcePair :=
  match last_get raw key with
  | Some v =>
      match as_raw v with
      | Some items => flat_map (fun item => match as_raw item with Some i => f i | None => [] end) (map_members items)
      | None => []
      end
  | None => []
  end.

Definition extractBodyResourcePairs (body : option goval) : list resourcePair :=
  match body ≫= as_raw with
  | None => []
  | Some raw =>
      (pair_of raw ++ meta_pair raw ++ each_member raw "documents" meta_pair ++
       each_member raw "mappings" (fun item =>
         let src := jsonStringField item "authentic_source" in
         if str_empty src then [] else [mkPair src ""]))%list
  end.

Fixpoint contains (sub s : string) : bool :=
  String.prefix sub s || match s with EmptyString => false | String _ s => contains sub s end.

Fixpoint deduplicate (seen pairs : list resourcePair) : list resourcePair :=
  match pairs with
  | [] => []
  | p :: pairs => if bool_decide (p ∈ seen) then deduplicate seen pairs else p :: deduplicate (p :: seen) pairs
  end.

(** What the middleware reads of a request: the two query parameters, the
    route, and the body when one of positive length was declared and read.
    A body that is no JSON value is [None]. *)
Record request := mkRequest {
  Method : string; FullPath : string; Query_source : string; Query_scope : string;
  ContentType : string; ContentLength : Z; Body : option goval
}.

Definition inject_scope (path : string) (p : resourcePair) : resourcePair :=
  if contains "/identity/mapping" path && negb (str_empty (authenticSource p)) && str_empty (scope p)
  then mkPair (authenticSource p) "identity_mapping" else p.

Definition extractResourcePairs (c : request) : list resourcePair :=
  let query := if negb (str_empty (Query_source c)) || negb (str_empty (Query_scope c))
               then [mkPair (Query_source c) (Query_scope c)] else [] in
  let body := if bool_decide (0 < ContentLength c) then extractBodyResourcePairs (Body c) else [] in
  deduplicate [] (map (inject_scope (FullPath c)) (query ++ body)%list).

(** ** The middlewares *)

Inductive decision :=
| Unauthorized                                                   (* 401 *)
| Forbidden                                                      (* 403 *)
| Next (sources scopes : option (list string)).                  (* the lists that filter queries *)

Definition authorized (e : Engine) (service : string) (c : request) (subject : string) (p : resourcePair) : bool :=
  QueryElement e (BuildSPOCPQuery service (Method c) (FullPath c) subject (authenticSource p) (scope p)).

(** [JWKSAuth], for a token that was verified; [sub] is its subject. *)
Definition JWKSAuth (engine : option Engine) (service : string) (c : request) (sub : string) : decision :=
  match engine with
  | None => Next None None
  | Some e =>
      if str_empty sub then Unauthorized else
      let pairs := match extractResourcePairs c with [] => [mkPair "" ""] | ps => ps end in
      if forallb (authorized e service c sub) pairs
      then Next (AllowedAuthenticSources engine sub) (AllowedScopes engine sub) else Forbidden
  end.

(** [SessionOrAPIAuth], for a request with an admin session. *)
Definition SessionAuth (engine : option Engine) (service : string) (c : request) (subject : string) : decision :=
  match engine with
  | None => Next None None
  | Some e =>
      if str_empty subject then Forbidden else
      if forallb (authorized e service c subject) (extractResourcePairs c)
      then Next (AllowedAuthenticSources engine subject) (AllowedScopes engine subject) else Forbidden
  end.

(** ** The body as the handler binds it *)

Section binding.
Variable fold : string → string.

(** The member goes to this field of a struct with the given JSON names. *)
Definition binds_to (fields : list string) (name k : string) : bool :=
  bool_decide (k = name) || (negb (bool_decide (k ∈ fields)) && bool_decide (fold k = fold name)).

(** A string field after decoding; [None] when a member has another type.
    Null leaves the field as it is.  This is the JSON stage of [Binding.Request]; the
    URI and header stages do not reach the fields of the two guarded requests,
    whose tags keep them out of the headers. *)
Fixpoint bind_string (fields : list string) (name acc : string) (m : gomap) : option string :=
  match m with
  | [] => Some acc
  | (k, v) :: m =>
      if binds_to fields name k then
        match v with
        | GString s => bind_string fields name s m
        | GNil => bind_string fields name acc m
        | _ => None
        end
      else bind_string fields name acc m
  end.

(** [requireCanonicalJSONBody]; [None] also for a body with trailing data. *)
Definition requireCanonicalJSONBody (allowed : list string) (c : request) : bool :=
  bool_decide (ContentType c = "application/json") && bool_decide (0 < ContentLength c) &&
  match Body c with
  | Some (GMap m) => forallb (fun kv => bool_decide (fst kv ∈ allowed)) m && bool_decide (NoDup (map fst m))
  | _ => false
  end.
End binding.

(** ** What passes *)

Lemma spocp_values (a b c d e f : string) :
  map (fun k => (<["service" := a]> (<["method" := b]> (<["path" := c]> (<["subject" := d]>
     (<["authentic_source" := e]> (<["scope" := f]> ∅))))) : gmap string string) !! k) apiAuthRuleDimensions =
  map Some [a; b; c; d; e; f].
Proof. cbn. by simplify_map_eq. Qed.

(** The rules that allow a caller to use an endpoint on a resource. *)
Definition allows (e : Engine) (service : string) (c : request) (subject src sc : string) : Prop :=
  ∃ rule, rule ∈ rules e ∧ rule_admits rule (map Some [service; Method c; FullPath c; subject; src; sc]) = true.

Lemma authorized_allows e service c subject p :
  Forall (shaped "vc" apiAuthRuleDimensions true) (rules e) →
  authorized e service c subject p = true ↔ allows e service c subject (authenticSource p) (scope p).
Proof.
  intros Hs. unfold authorized, BuildSPOCPQuery, allows. rewrite (QueryElement_admits e _ _ true) by done.
  rewrite spocp_values, existsb_exists. by setoid_rewrite list_elem_of_In.
Qed.

Lemma last_get_None m k : k ∉ map fst m → last_get m k = None.
Proof.
  induction m as [|[k' v] m IH]; [done|]. cbn. intros [Hk Hm]%not_elem_of_cons. rewrite IH by done.
  by rewrite bool_decide_eq_false_2.
Qed.

(** In a canonical object a field gets the member of exactly its name. *)
Lemma bind_string_canonical fold allowed name m acc s :
  Forall (fun kv => fst kv ∈ allowed) m → NoDup (map fst m) →
  bind_string fold allowed name acc m = Some s →
  s = match last_get m name with Some (GString s') => s' | _ => acc end.
Proof.
  intros Ha. revert acc. induction Ha as [|[k v] m Hk Ha IH]; intros acc; cbn; [by intros _ [= <-]|].
  intros [Hnot Hn]%NoDup_cons. unfold binds_to. cbn in Hk.
  rewrite (bool_decide_eq_true_2 (k ∈ allowed)) by done. cbn [negb andb]. rewrite orb_false_r.
  case_bool_decide as Hkn.
  - subst k. rewrite (last_get_None m name Hnot). destruct v; try done;
      intros ->%IH; try done; by rewrite (last_get_None m name Hnot).
  - intros ->%IH; [|done]. by destruct (last_get m name).
Qed.

Lemma deduplicate_elem seen ps p : p ∈ ps → p ∉ seen → p ∈ deduplicate seen ps.
Proof.
  revert seen. induction ps as [|q ps IH]; intros seen; [by intros ?%elem_of_nil|]. cbn.
  intros [->|Hp]%elem_of_cons Hn.
  - rewrite bool_decide_eq_false_2 by done. set_solver.
  - case_bool_decide; [by apply IH|]. destruct (decide (p = q)) as [->|Hpq]; [set_solver|].
    apply elem_of_cons. right. apply IH; set_solver.
Qed.

(** Any pair the body names at its top level is among those checked. *)
Lemma body_pair_checked c m :
  Body c = Some (GMap m) → 0 < ContentLength c → contains "/identity/mapping" (FullPath c) = false →
  ∀ p, p ∈ pair_of m → p ∈ extractResourcePairs c.
Proof.
  intros Hb Hl Hp p Hin. unfold extractResourcePairs. apply deduplicate_elem; [|by apply not_elem_of_nil].
  apply list_elem_of_In, in_map_iff. exists p. unfold inject_scope. rewrite Hp. split; [done|].
  apply list_elem_of_In, elem_of_app. right. rewrite bool_decide_eq_true_2 by done.
  unfold extractBodyResourcePairs. rewrite Hb. cbn. apply elem_of_app. by left.
Qed.

(** C34: Where the body is required to be canonical, the source and scope the
    handler binds are those the middleware authorized: some rule admits the
    caller, the endpoint and exactly that resource, whichever way the caller
    authenticated. *)
Theorem bound_resource_authorized fold allowed e service c subject m src sc d :
  Forall (shaped "vc" apiAuthRuleDimensions true) (rules e) →
  requireCanonicalJSONBody allowed c = true → Body c = Some (GMap m) →
  bind_string fold allowed "authentic_source" "" m = Some src → bind_string fold allowed "scope" "" m = Some sc →
  src ≠ "" ∨ sc ≠ "" → contains "/identity/mapping" (FullPath c) = false →
  (∃ so sp, d = Next so sp) →
  d = JWKSAuth (Some e) service c subject ∨ d = SessionAuth (Some e) service c subject →
  allows e service c subject src sc.
Proof.
  intros Hs Hc Hb Hsrc Hsc Hne Hp (so & sp & ->) Hd.
  unfold requireCanonicalJSONBody in Hc. rewrite Hb in Hc.
  apply andb_true_iff in Hc as [[_ Hl%bool_decide_eq_true]%andb_true_iff [Ha Hn%bool_decide_eq_true]%andb_true_iff].
  assert (Forall (fun kv => fst kv ∈ allowed) m) as Ha'.
  { apply Forall_forall. intros kv Hkv%list_elem_of_In. rewrite forallb_forall in Ha. by eapply bool_decide_eq_true, Ha. }
  apply (bind_string_canonical _ _ _ _ _ _ Ha' Hn) in Hsrc, Hsc.
  fold (jsonStringField m "authentic_source") in Hsrc. fold (jsonStringField m "scope") in Hsc.
  assert (mkPair src sc ∈ extractResourcePairs c) as Hin.
  { apply (body_pair_checked c m Hb Hl Hp). unfold pair_of. rewrite <- Hsrc, <- Hsc.
    assert (negb (str_empty src) || negb (str_empty sc) = true) as ->
      by (rewrite orb_true_iff, !negb_true_iff, !str_empty_false; done).
    set_solver. }
  change src with (authenticSource (mkPair src sc)). change sc with (scope (mkPair src sc)) at 2.
  apply authorized_allows; [done|].
  assert (forallb (authorized e service c subject) (extractResourcePairs c) = true) as Hf.
  { destruct Hd as [Hd|Hd]; revert Hd.
    - unfold JWKSAuth. destruct (str_empty subject); [done|].
      destruct (extractResourcePairs c) as [|q qs]; [by apply elem_of_nil in Hin|]. by destruct (forallb _ (q :: qs)).
    - unfold SessionAuth. destruct (str_empty subject); [done|].
      by destruct (forallb (authorized e service c subject) (extractResourcePairs c)). }
  rewrite forallb_forall in Hf. apply Hf. by apply list_elem_of_In.
Qed.

(** ** What the filters say *)

(** The rule's subject dimension admits the subject. *)
Definition names_subject (subject : string) (rule : element) : bool :=
  match rule with SList _ es => part_admits (nth 3 es Wildcard) (Some subject) | _ => false end.

Lemma part_required d dims parts :
  Forall2 (part_shaped true) (d :: dims) parts →
  ∃ p parts', parts = SList d [p] :: parts' ∧ Forall2 (part_shaped true) dims parts'.
Proof. inversion 1 as [|? ? ? ? Hp Hr]; subst. inversion Hp; subst; [done|]. eauto. Qed.

Lemma shaped_parts rule :
  shaped "vc" apiAuthRuleDimensions true rule →
  ∃ p0 p1 p2 p3 p4 p5, rule = SList "vc"
    [SList "service" [p0]; SList "method" [p1]; SList "path" [p2]; SList "subject" [p3];
     SList "authentic_source" [p4]; SList "scope" [p5]].
Proof.
  intros (parts & -> & H). unfold apiAuthRuleDimensions in H.
  do 6 (apply part_required in H as (? & ? & -> & H)). inversion H; subst. by repeat eexists.
Qed.

(** The pairs a rule contributes: none unless it names the subject. *)
Lemma rule_pairs_shaped subject rule :
  shaped "vc" apiAuthRuleDimensions true rule →
  rule_pairs subject rule = if names_subject subject rule
    then match rule with
         | SList _ es => list_prod (extractListValues (nth 4 es Wildcard)) (extractListValues (nth 5 es Wildcard))
         | _ => []
         end
    else [].
Proof.
  intros (p0 & p1 & p2 & p3 & p4 & p5 & ->)%shaped_parts. unfold rule_pairs, names_subject.
  rewrite bool_decide_eq_true_2, bool_decide_eq_false_2 by (done || cbn; lia). cbn [negb orb nth].
  rewrite LP_lists, bool_decide_eq_true_2 by done. cbn [all_below]. rewrite LP_atom. cbn [part_admits length].
  rewrite bool_decide_eq_false_2 by lia. cbn. by destruct (value_in p3 subject).
Qed.

Lemma no_pairs e subject :
  Forall (shaped "vc" apiAuthRuleDimensions true) (rules e) →
  Forall (fun r => names_subject subject r = false) (rules e) → ResolveAllowedResources (Some e) subject = [].
Proof.
  cbn. rewrite ExportRules_rules. intros Hs Hn. induction Hs as [|r rs Hr Hs IH]; [done|].
  apply Forall_cons in Hn as [Hr' Hn]. cbn. rewrite (rule_pairs_shaped subject r Hr), Hr'. by apply IH.
Qed.

Lemma admits_names rule service method path subject src sc :
  rule_admits rule (map Some [service; method; path; subject; src; sc]) = true →
  shaped "vc" apiAuthRuleDimensions true rule → names_subject subject rule = true.
Proof.
  intros H (p0 & p1 & p2 & p3 & p4 & p5 & ->)%shaped_parts. cbn in *. by repeat (apply andb_true_iff in H as [? H]).
Qed.

(** A subject no rule names is refused with a token on every request, but
    with an admin session a request that names no resource goes through, and
    with unrestricted filters. *)
Theorem session_stranger_unrestricted e service c subject :
  Forall (shaped "vc" apiAuthRuleDimensions true) (rules e) →
  Forall (fun r => names_subject subject r = false) (rules e) → subject ≠ "" →
  JWKSAuth (Some e) service c subject = Forbidden ∧
  (extractResourcePairs c = [] → SessionAuth (Some e) service c subject = Next None None).
Proof.
  intros Hs Hn Hne%str_empty_false.
  assert (∀ p, authorized e service c subject p = false) as Hno.
  { intros p. destruct (authorized e service c subject p) eqn:E; [|done]. exfalso.
    apply authorized_allows in E as (rule & Hin & Ha); [|done].
    rewrite Forall_forall in Hs, Hn. pose proof (admits_names _ _ _ _ _ _ _ Ha (Hs _ Hin)) as Hy.
    by rewrite (Hn _ Hin) in Hy. }
  unfold JWKSAuth, SessionAuth, AllowedAuthenticSources, AllowedScopes. rewrite Hne, (no_pairs e subject Hs Hn). split.
  - by destruct (extractResourcePairs c) as [|q qs]; cbn; rewrite Hno.
  - by intros ->.
Qed.

Lemma distinct_star seen l : "*" ∈ l → distinct seen l = None.
Proof.
  revert seen. induction l as [|v l IH]; intros seen; [by intros ?%elem_of_nil|]. cbn.
  intros [<-|Hl]%elem_of_cons; [done|]. case_bool_decide; [done|]. case_bool_decide; [by apply IH|]. by rewrite IH.
Qed.

(** A rule that allows only the sources with a prefix makes the filter of
    its subject unrestricted: the list handed to the database queries is the
    one that means every source, although the rule refuses all others. *)
Theorem prefix_source_unrestricted e subject prefix s0 s1 s2 s3 s4 :
  let rule := SList "vc" [s0; s1; s2; SList "subject" [s3]; SList "authentic_source" [Prefix prefix]; s4] in
  Forall (shaped "vc" apiAuthRuleDimensions true) (rules e) → rule ∈ rules e → value_in s3 subject = true →
  AllowedAuthenticSources (Some e) subject = None ∧
  ∀ src service method path sc, has_prefix src prefix = false →
    rule_admits rule (map Some [service; method; path; subject; src; sc]) = false.
Proof.
  intros rule Hs Hin Hv. split.
  - unfold AllowedAuthenticSources, allowed_values.
    assert ("*" ∈ map fst (ResolveAllowedResources (Some e) subject)) as Hstar.
    { cbn. rewrite ExportRules_rules. rewrite Forall_forall in Hs.
      assert (extractListValues s4 ≠ []) as Hne.
      { unfold extractListValues. destruct s4 as [|t [|[| | | | |es] ?]| | | |]; try done. by destruct (omap _ es). }
      destruct (extractListValues s4) as [|x xs] eqn:Ex; [done|].
      apply list_elem_of_In, in_map_iff. exists ("*", x). split; [done|]. apply in_flat_map. exists rule.
      split; [by apply list_elem_of_In|]. rewrite (rule_pairs_shaped subject rule (Hs _ Hin)). unfold rule, names_subject.
      cbn [nth part_admits]. rewrite Hv, Ex. cbn. by left. }
    destruct (map fst _) eqn:E; [done|]. by apply distinct_star.
  - intros src service method path sc Hp. cbn. rewrite Hp. by rewrite !andb_false_r.
Qed.

(** ** A body read two ways *)

Definition w_part (d v : string) : element := SList d [Atom v].
Definition w_rule (source : element) : element :=
  SList "vc" [w_part "service" "apigw"; SList "method" [Wildcard]; SList "path" [Prefix "/api/v1/"];
              w_part "subject" "alice@sunet.se"; SList "authentic_source" [source]; w_part "scope" "eduid"].

(** ASCII letters folded to lower case, as [encoding/json] matches names. *)
Definition lower_char (c : Ascii.ascii) : Ascii.ascii :=
  let b := byte_of c in if bool_decide (65 ≤ b ≤ 90) then ascii_of (b + 32) else c.
Fixpoint lower (s : string) : string :=
  match s with EmptyString => EmptyString | String c s => String (lower_char c) (lower s) end.

Definition upload_rule : string :=
  "(vc (service apigw)(method *)(path /api/v1/*)(subject alice@sunet.se)(authentic_source SUNET)(scope eduid))".

(** The JSON names of the document metadata an upload binds. *)
Definition MetaData_fields : list string :=
  ["authentic_source"; "scope"; "document_id"; "document_data_validation"; "created_at"; "valid_not_after"].

Definition upload_meta : gomap :=
  [("authentic_source", GString "SUNET"); ("scope", GString "eduid"); ("Authentic_Source", GString "LADOK")].
Definition upload_request : request :=
  mkRequest "POST" "/api/v1/datastore" "" "" "application/json" 100 (Some (GMap [("meta", GMap upload_meta)])).

(** An upload can be authorized for one source and stored for another: the
    middleware reads the member of exactly the name, the handler the last one
    that matches it up to case.  The pair it acts on is one no rule admits. *)
Theorem upload_reads_differ :
  ∃ e so sp, BuildSPOCPEngine (fun _ => None) [upload_rule] "" = Ok (Some e) ∧
    JWKSAuth (Some e) "apigw" upload_request "alice@sunet.se" = Next so sp ∧
    bind_string lower MetaData_fields "authentic_source" "" upload_meta = Some "LADOK" ∧
    authorized e "apigw" upload_request "alice@sunet.se" (mkPair "LADOK" "eduid") = false.
Proof.
  exists (mkEngine [w_rule (Atom "SUNET")]), (Some ["SUNET"]), (Some ["eduid"]).
  split_and!; vm_compute; reflexivity.
Qed.

(** ** At concrete requests *)

Lemma w_rule_shaped source : Forall (shaped "vc" apiAuthRuleDimensions true) (rules (mkEngine [w_rule source])).
Proof. constructor; [|constructor]. eexists. split; [reflexivity|]. repeat constructor. Qed.

Definition w_offer : gomap := [("scope", GString "eduid"); ("authentic_source", GString "SUNET")].
Definition w_offer_request : request :=
  mkRequest "POST" "/api/v1/datastore/preauth_offer" "" "" "application/json" 50 (Some (GMap w_offer)).

Lemma bound_resource_authorized_witness :
  SessionAuth (Some (mkEngine [w_rule (Atom "SUNET")])) "apigw" w_offer_request "alice@sunet.se" =
    Next (Some ["SUNET"]) (Some ["eduid"]) ∧
  allows (mkEngine [w_rule (Atom "SUNET")]) "apigw" w_offer_request "alice@sunet.se" "SUNET" "eduid".
Proof.
  assert (SessionAuth (Some (mkEngine [w_rule (Atom "SUNET")])) "apigw" w_offer_request "alice@sunet.se" =
    Next (Some ["SUNET"]) (Some ["eduid"])) as E by (vm_compute; reflexivity).
  split; [exact E|].
  refine (bound_resource_authorized lower ["scope"; "authentic_source"; "document_id"] _ "apigw" w_offer_request
            "alice@sunet.se" w_offer "SUNET" "eduid" (Next (Some ["SUNET"]) (Some ["eduid"]))
            (w_rule_shaped _) _ _ _ _ _ _ _ (or_intror (eq_sym E))).
  - vm_compute. reflexivity.
  - reflexivity.
  - vm_compute. reflexivity.
  - vm_compute. reflexivity.
  - left. discriminate.
  - vm_compute. reflexivity.
  - by eexists _, _.
Defined.

Definition w_search : request := mkRequest "GET" "/api/v1/datastore/search" "" "" "" 0 None.

Lemma session_stranger_unrestricted_witness :
  JWKSAuth (Some (mkEngine [w_rule (Atom "SUNET")])) "apigw" w_search "stranger@sunet.se" = Forbidden ∧
  SessionAuth (Some (mkEngine [w_rule (Atom "SUNET")])) "apigw" w_search "stranger@sunet.se" = Next None None.
Proof.
  destruct (session_stranger_unrestricted (mkEngine [w_rule (Atom "SUNET")]) "apigw" w_search "stranger@sunet.se"
              (w_rule_shaped _)) as [H1 H2].
  - constructor; [vm_compute; reflexivity|constructor].
  - discriminate.
  - split; [exact H1|]. apply H2. vm_compute. reflexivity.
Defined.

Lemma prefix_source_unrestricted_witness :
  AllowedAuthenticSources (Some (mkEngine [w_rule (Prefix "SU")])) "alice@sunet.se" = None.
Proof.
  refine (proj1 (prefix_source_unrestricted (mkEngine [w_rule (Prefix "SU")]) "alice@sunet.se" "SU" _ _ _
                   (Atom "alice@sunet.se") _ (w_rule_shaped _) _ _)).
  - left.
  - vm_compute. reflexivity.
Defined.
