(* ===== verification/ClaimPaths.v ===== *)
(** * Claim documents: paths, merging, filtering

    [pkg/credential]: [attribute_mapping.go], [vctm_filter.go], and the part of
    [derivations.go] and [primitives/strings.go] that reads and writes claims at
    paths.  A document is a [map[string]any]; the functions that write into one
    return it rewritten.  The source shares nested maps between documents in one
    place only, the two maps that collect the output of derivations, and those
    receive the same writes. *)

From S2P Require Import Prelude GoStrings GoValue SdJwtIssue.

(** ** Paths *)

Fixpoint walkPath (cur : goval) (parts : list string) : option goval :=
  match parts with
  | [] => Some cur
  | part :: parts => match cur with GMap m => v ← mget m part; walkPath v parts | _ => None end
  end.

Definition GetNestedValue (doc : gomap) (path : string) : option goval :=
  if str_empty path then None else walkPath (GMap doc) (Split "." path).

(** The loop of [SetNestedValue]; [None] is the conflict with a value that is
    not a map. *)
Fixpoint set_parts (doc : gomap) (parts : list string) (value : goval) : option gomap :=
  match parts with
  | [] => None
  | [key] => Some (mset doc key value)
  | key :: parts =>
      match mget doc key with
      | None => m ← set_parts [] parts value; Some (mset doc key (GMap m))
      | Some (GMap next) => m ← set_parts next parts value; Some (mset doc key (GMap m))
      | Some _ => None
      end
  end.

Definition SetNestedValue (doc : gomap) (path : string) (value : goval) : option gomap :=
  if str_empty path then None else set_parts doc (Split "." path) value.

(** [primitives.lookupClaim]: a literal key wins over the path. *)
Definition lookupClaim (claims : gomap) (path : string) : option goval :=
  match mget claims path with
  | Some v => Some v
  | None => if has_byte "." path then walkPath (GMap claims) (Split "." path) else None
  end.

(** [primitives.setClaim] *)
Definition setClaim (dst : gomap) (path : string) (value : goval) : option gomap :=
  if str_empty path then None else
  if has_byte "." path then set_parts dst (Split "." path) value else Some (mset dst path value).

Fixpoint clearPath (dst : gomap) (parts : list string) : gomap :=
  match parts with
  | [] => dst
  | [key] => mdelete dst key
  | key :: parts =>
      match mget dst key with
      | Some (GMap m) => mset dst key (GMap (clearPath m parts))
      | _ => dst
      end
  end.

(** What [v] makes of the value that was there. *)
Fixpoint merge_value (old : option goval) (v : goval) : goval :=
  match v with
  | GMap sm =>
      match old with
      | Some (GMap dm) => GMap (foldl (fun dst e => mset dst (fst e) (merge_value (mget dst (fst e)) (snd e))) dm sm)
      | _ => v
      end
  | _ => v
  end.
Definition MergeNestedClaims (dst src : gomap) : gomap :=
  foldl (fun dst e => mset dst (fst e) (merge_value (mget dst (fst e)) (snd e))) dst src.

Definition MergeDerived (dst derived : gomap) (replaced : list string) : gomap :=
  MergeNestedClaims (foldl (fun dst path => clearPath dst (Split "." path)) dst replaced) derived.

(** *** Reading back what was written *)

Lemma walk_set_parts parts : ∀ doc v doc', set_parts doc parts v = Some doc' → walkPath (GMap doc') parts = Some v.
Proof.
  induction parts as [|key parts IH]; intros doc v doc'; [done|]. cbn [set_parts]. destruct parts as [|key2 parts].
  { intros [= <-]. cbn. by rewrite mget_mset_eq. }
  intros Hs. assert (∃ m m', set_parts m (key2 :: parts) v = Some m' ∧ doc' = mset doc key (GMap m')) as (m & m' & Hm & ->).
  { destruct (mget doc key) as [[]|]; try done; apply bind_Some in Hs as (m' & Hm & [= <-]); eauto. }
  cbn [walkPath]. rewrite mget_mset_eq. cbn [mbind option_bind]. by eapply IH.
Qed.

(** Two paths that part. *)
Fixpoint parted (p q : list string) : Prop :=
  match p, q with
  | a :: p, b :: q => a ≠ b ∨ parted p q
  | _, _ => False
  end.

Lemma walk_empty q : q ≠ [] → walkPath (GMap []) q = None.
Proof. by destruct q. Qed.

Lemma walk_set_other parts : ∀ doc v doc' q,
  set_parts doc parts v = Some doc' → parted parts q → walkPath (GMap doc') q = walkPath (GMap doc) q.
Proof.
  induction parts as [|key parts IH]; intros doc v doc' q; [done|]. destruct q as [|k q]; [done|]. cbn [set_parts parted].
  destruct parts as [|key2 parts].
  { intros [= <-] [Hne|[]]. cbn. by rewrite mget_mset_ne. }
  intros Hs Hp. destruct (decide (key = k)) as [->|Hne].
  - destruct Hp as [?|Hp]; [done|]. cbn [walkPath].
    destruct (mget doc k) as [[]|] eqn:E; try done; apply bind_Some in Hs as (m' & Hm & [= <-]);
      rewrite mget_mset_eq; cbn [mbind option_bind]; rewrite (IH _ _ _ _ Hm Hp); [done|].
    apply walk_empty. by destruct q.
  - cbn [walkPath].
    destruct (mget doc key) as [[]|]; try done; apply bind_Some in Hs as (m' & Hm & [= <-]); by rewrite mget_mset_ne.
Qed.

(** *** Merging *)

(** Documents have one entry per key, at every depth. *)
Fixpoint one_per_key (v : goval) : Prop :=
  match v with
  | GMap m => NoDup (mkeys m) ∧ (fix all m := match m with [] => True | (_, v) :: m => one_per_key v ∧ all m end) m
  | _ => True
  end.

Lemma one_per_key_get m k v : one_per_key (GMap m) → mget m k = Some v → one_per_key v.
Proof.
  intros [_ Hm]. induction m as [|[k' v'] m IH]; [done|]. cbn. destruct Hm as [Hv Hm].
  case_bool_decide; [by intros [= <-]|auto].
Qed.

Lemma mget_MergeNestedClaims src : ∀ dst k, NoDup (mkeys src) →
  mget (MergeNestedClaims dst src) k =
  match mget src k with Some v => Some (merge_value (mget dst k) v) | None => mget dst k end.
Proof.
  unfold MergeNestedClaims. induction src as [|[k' v'] src IH]; intros dst k HN; [done|]. cbn [foldl fst snd mget].
  apply NoDup_cons in HN as [Hk' HN]. rewrite (IH _ _ HN). case_bool_decide as Ek.
  - subst k'. assert (mget src k = None) as -> by by apply mget_None. by rewrite mget_mset_eq.
  - by rewrite mget_mset_ne by done.
Qed.

Lemma merge_value_maps dm sm : merge_value (Some (GMap dm)) (GMap sm) = GMap (MergeNestedClaims dm sm).
Proof. done. Qed.

(** A value [src] holds at a path that is not a map: it wins. *)
Lemma walk_merge_new p : ∀ dst src x, one_per_key (GMap src) →
  walkPath (GMap src) p = Some x → as_map x = None → walkPath (GMap (MergeNestedClaims dst src)) p = Some x.
Proof.
  induction p as [|k p IH]; intros dst src x Hw; [by intros [= <-]|]. cbn [walkPath]. rewrite mget_MergeNestedClaims by apply Hw.
  destruct (mget src k) as [v|] eqn:Ek; [|done]. cbn [mbind option_bind]. intros Hx Hm.
  pose proof (one_per_key_get _ _ _ Hw Ek) as Hv. destruct v as [| | | | | | | | |sm]; try by destruct p.
  destruct (mget dst k) as [[| | | | | | | | |dm]|]; try exact Hx. rewrite merge_value_maps. by apply IH.
Qed.

(** [src] says nothing at the path: the last map on the way lacks the key. *)
Fixpoint silent (src : gomap) (p : list string) : Prop :=
  match p with
  | [] => False
  | k :: p => match mget src k with None => True | Some (GMap m) => silent m p | Some _ => False end
  end.

Lemma silent_walk p : ∀ m, silent m p → walkPath (GMap m) p = None.
Proof.
  induction p as [|k p IH]; intros m; [done|]. cbn. destruct (mget m k) as [v|]; [|done]. destruct v; try done. apply IH.
Qed.

Lemma walk_merge_old p : ∀ dst src, one_per_key (GMap src) →
  silent src p → walkPath (GMap (MergeNestedClaims dst src)) p = walkPath (GMap dst) p.
Proof.
  induction p as [|k p IH]; intros dst src Hw; [done|]. cbn [silent walkPath]. rewrite mget_MergeNestedClaims by apply Hw.
  destruct (mget src k) as [v|] eqn:Ek; [|done]. pose proof (one_per_key_get _ _ _ Hw Ek) as Hv.
  destruct v as [| | | | | | | | |sm]; try done. intros Hs. cbn [mbind option_bind].
  destruct (mget dst k) as [dv|]; [|by apply silent_walk].
  destruct dv as [| | | | | | | | |dm];
    try (cbn [merge_value mbind option_bind]; rewrite silent_walk by done; by destruct p). rewrite merge_value_maps. by apply IH.
Qed.

(** ** Attribute mapping *)

Record AttributeConfig := mkAttributeConfig { ac_Claim : string; ac_Required : bool; ac_Default : string; ac_AsArray : bool }.

Definition wrapAsArray (value : goval) : goval := match value with GString s => GStrings [s] | v => v end.

Inductive mapping_error := MissingRequired (attrID : string) | CannotSet (claim : string).

(** The value a configured attribute gives its claim: [Ok None] when it is passed over. *)
Definition mapped_value (attributes : gomap) (attrID : string) (cfg : AttributeConfig) : result mapping_error (option goval) :=
  match mget attributes attrID with
  | None =>
      if ac_Required cfg then Err (MissingRequired attrID) else
      if str_empty (ac_Default cfg) then Ok None else
      Ok (Some (if ac_AsArray cfg then wrapAsArray (GString (ac_Default cfg)) else GString (ac_Default cfg)))
  | Some value =>
      if ac_AsArray cfg then Ok (Some (wrapAsArray value)) else
      match value with
      | GStrings [] => Ok None
      | GStrings (s :: _) => Ok (Some (GString s))
      | v => Ok (Some v)
      end
  end.

(** The loop over the mapping, in some order. *)
Fixpoint apply_mapping (attributes : gomap) (mapping : list (string * AttributeConfig)) (doc : gomap) : result mapping_error gomap :=
  match mapping with
  | [] => Ok doc
  | (attrID, cfg) :: mapping =>
      value ← mapped_value attributes attrID cfg;
      match value with
      | None => apply_mapping attributes mapping doc
      | Some v =>
          match SetNestedValue doc (ac_Claim cfg) v with
          | None => Err (CannotSet (ac_Claim cfg))
          | Some doc => apply_mapping attributes mapping doc
          end
      end
  end.
Definition AttributeMapper_Apply (mapping : list (string * AttributeConfig)) (attributes : gomap) : result mapping_error gomap :=
  apply_mapping attributes mapping [].

(** ** Defaults *)

(** Some path is a proper prefix of another.  The source compares each path to
    those after it in sorted order, where a path comes before its extensions. *)
Definition overlapping (paths : list string) : bool :=
  existsb (fun p => existsb (fun q => HasPrefix (p +:+ ".") q) paths) paths.

Fixpoint set_defaults (doc : gomap) (defaults : list (string * goval)) : option gomap :=
  match defaults with
  | [] => Some doc
  | (path, v) :: defaults =>
      match GetNestedValue doc path with
      | Some _ => set_defaults doc defaults
      | None => doc ← SetNestedValue doc path v; set_defaults doc defaults
      end
  end.

(** [defaults] in the order of its sorted paths. *)
Definition MergeDefaults (doc : gomap) (defaults : list (string * goval)) : option gomap :=
  if overlapping (mkeys defaults) then None else set_defaults doc defaults.

(** ** Filtering by the claims a credential type declares *)

Definition arrayWildcardKey := "*".

Inductive allowNode := mkNode (leaf : bool) (children : list (string * allowNode)).
Definition leaf (n : allowNode) : bool := let '(mkNode l _) := n in l.
Definition children (n : allowNode) : list (string * allowNode) := let '(mkNode _ c) := n in c.
Definition newNode : allowNode := mkNode false [].

Definition seg_key (seg : option string) : string := default arrayWildcardKey seg.

Fixpoint insertAllowPath (node : allowNode) (path : list string) : allowNode :=
  match path with
  | [] => mkNode true (children node)
  | key :: path =>
      mkNode (leaf node) (mset (children node) key (insertAllowPath (default newNode (mget (children node) key)) path))
  end.

(** The paths that count: not empty, and not beginning in an array. *)
Definition declared_path (c : VctmClaim) : option (list string) :=
  match Path c with
  | [] | None :: _ => None
  | p => Some (seg_key <$> p)
  end.

Definition buildAllowTree (vctm : VCTM) : allowNode :=
  foldl (fun root c => match declared_path c with Some p => insertAllowPath root p | None => root end)
    newNode (vctm_Claims vctm).

(** What survives of an object or an array; [rec] filters below. *)
Section filters.
Variable rec : allowNode → goval → option goval.

Definition filterMap (leaf : bool) (children : list (string * allowNode)) (m : gomap) : option gomap :=
  if leaf then match m with [] => None | _ => Some m end else
  match omap (fun e => if bool_decide (fst e = arrayWildcardKey) then None
                       else v ← mget m (fst e); f ← rec (snd e) v; Some (fst e, f)) children with
  | [] => None
  | out => Some out
  end.

Definition filterArray (leaf : bool) (children : list (string * allowNode)) (l : list goval) : option goval :=
  match omap (fun e => if bool_decide (fst e = arrayWildcardKey) then Some (omap (rec (snd e)) l) else None) children with
  | [] => if leaf then Some (GArr l) else None
  | [] :: _ => None
  | out :: _ => Some (GArr out)
  end.
End filters.

Fixpoint filterValue (node : allowNode) (v : goval) : option goval :=
  match node with
  | mkNode leaf children =>
      if leaf && match children with [] => true | _ => false end then Some v else
      match v with
      | GMap m => GMap <$> filterMap filterValue leaf children m
      | GArr l => filterArray filterValue leaf children l
      | GStrings l => filterArray filterValue leaf children (GString <$> l)
      | v => if leaf then Some v else None
      end
  end.

Definition FilterAgainstVCTM (doc : gomap) (vctm : option VCTM) : gomap :=
  match vctm with
  | None => []
  | Some vctm => let t := buildAllowTree vctm in default [] (filterMap filterValue (leaf t) (children t) doc)
  end.

(** *** What the filter lets through *)

Inductive pstep := Field (k : string) | Element.
Definition step_key (s : pstep) : string := match s with Field k => k | Element => arrayWildcardKey end.

Inductive inside : goval → list pstep → goval → Prop :=
| inside_here v : inside v [] v
| inside_field m k v p x : mget m k = Some v → inside v p x → inside (GMap m) (Field k :: p) x
| inside_element l v p x : v ∈ l → inside v p x → inside (GArr l) (Element :: p) x
| inside_string l s p x : s ∈ l → inside (GString s) p x → inside (GStrings l) (Element :: p) x.

Definition scalar (v : goval) : bool := match v with GMap _ | GArr _ | GStrings _ => false | _ => true end.

(** The node at a path of the tree ends a declared path. *)
Fixpoint leaf_at (node : allowNode) (p : list string) : bool :=
  match p with
  | [] => leaf node
  | k :: p => match mget (children node) k with Some c => leaf_at c p | None => false end
  end.

Fixpoint tree_ok (node : allowNode) : Prop :=
  match node with
  | mkNode _ cs => NoDup (mkeys cs) ∧ (fix all cs := match cs with [] => True | (_, c) :: cs => tree_ok c ∧ all cs end) cs
  end.

Lemma tree_ok_child n k c : tree_ok n → mget (children n) k = Some c → tree_ok c.
Proof.
  destruct n as [l cs]. intros [_ Hc]. cbn. induction cs as [|[k' c'] cs IH]; [done|]. cbn. destruct Hc as [Hh Hc].
  case_bool_decide; [by intros [= <-]|auto].
Qed.
Lemma tree_ok_NoDup n : tree_ok n → NoDup (mkeys (children n)).
Proof. destruct n. by intros []. Qed.
Lemma tree_ok_mset l cs k c : tree_ok (mkNode l cs) → tree_ok c → tree_ok (mkNode l (mset cs k c)).
Proof.
  intros [HN Hc] Hk. split; [by apply NoDup_mkeys_mset|]. clear HN. induction cs as [|[k' c'] cs IH]; cbn; [done|].
  destruct Hc as [Hh Hc]. case_bool_decide; (split; [done|]); [done|by apply IH].
Qed.

Lemma insert_ok p : ∀ n, tree_ok n → tree_ok (insertAllowPath n p).
Proof.
  induction p as [|k p IH]; intros [l cs] Hn; [done|]. cbn [insertAllowPath leaf children]. apply tree_ok_mset; [done|].
  apply IH. destruct (mget cs k) as [c|] eqn:E; [by apply (tree_ok_child _ _ _ Hn E)|]. by repeat constructor.
Qed.

Lemma leaf_at_insert p : ∀ n q, leaf_at (insertAllowPath n p) q = bool_decide (p = q) || leaf_at n q.
Proof.
  induction p as [|k p IH]; intros n q; cbn [insertAllowPath].
  { destruct q as [|k q]; [done|]. cbn. by rewrite bool_decide_eq_false_2. }
  destruct q as [|k' q]; [done|]. cbn [leaf_at children]. rewrite mget_mset. case_bool_decide as E.
  - subst k'. rewrite IH. f_equal; [apply bool_decide_ext; naive_solver|]. destruct (mget (children n) k); [done|].
    cbn. by destruct q.
  - rewrite (bool_decide_eq_false_2 (k :: p = k' :: q)) by congruence. done.
Qed.

Lemma leaf_at_build vctm q :
  leaf_at (buildAllowTree vctm) q = true ↔ ∃ c, c ∈ vctm_Claims vctm ∧ declared_path c = Some q.
Proof.
  unfold buildAllowTree.
  assert (∀ cs n, leaf_at (foldl (fun root c => match declared_path c with Some p => insertAllowPath root p | None => root end) n cs) q = true
          ↔ leaf_at n q = true ∨ ∃ c, c ∈ cs ∧ declared_path c = Some q) as Hb.
  { induction cs as [|c cs IH]; intros n; cbn [foldl]. { split; [by left|]. intros [?|(c & Hc & _)]; [done|]. by apply elem_of_nil in Hc. }
    rewrite IH. setoid_rewrite elem_of_cons. destruct (declared_path c) as [p|] eqn:Ep.
    - rewrite leaf_at_insert, orb_true_iff, bool_decide_eq_true. naive_solver.
    - naive_solver. }
  rewrite Hb. split; [|by right]. intros [Hn|?]; [|done]. by destruct q.
Qed.

Lemma build_ok vctm : tree_ok (buildAllowTree vctm).
Proof.
  unfold buildAllowTree. assert (tree_ok newNode) as Hn by by repeat constructor. revert Hn. generalize newNode.
  induction (vctm_Claims vctm) as [|c cs IH]; intros n Hn; [done|]. cbn. apply IH. destruct (declared_path c); [by apply insert_ok|done].
Qed.

(** An entry of an object that was filtered. *)
Lemma filterMap_entry lf cs m out k f :
  filterMap filterValue lf cs m = Some out → mget out k = Some f →
  (lf = true ∧ out = m) ∨
  ∃ child v, (k, child) ∈ cs ∧ mget m k = Some v ∧ filterValue child v = Some f.
Proof.
  unfold filterMap. destruct lf; [destruct m; intros [= <-]; by left|]. intros Ho Hk. right.
  match type of Ho with match ?l with _ => _ end = _ => assert ((k, f) ∈ l) as Hin end.
  { destruct (omap _ cs); [done|]. injection Ho as <-. by apply mget_Some_elem. }
  apply list_elem_of_omap in Hin as ([k' child] & Hin & E). cbn in E. case_bool_decide; [done|].
  apply bind_Some in E as (v & Ev & E). apply bind_Some in E as (f' & Ef & [= -> ->]). eauto.
Qed.

Lemma filterArray_element lf cs l out e :
  filterArray filterValue lf cs l = Some (GArr out) → e ∈ out →
  (lf = true ∧ out = l) ∨ ∃ child v, (arrayWildcardKey, child) ∈ cs ∧ v ∈ l ∧ filterValue child v = Some e.
Proof.
  unfold filterArray. destruct (omap _ cs) as [|out' outs] eqn:Eo. { destruct lf; [|done]. intros [= <-]. by left. }
  intros Ho Hin. right. destruct out' as [|x out']; [done|]. injection Ho as <-.
  assert ((x :: out') ∈ (x :: out') :: outs) as Hx by left. rewrite <- Eo in Hx.
  apply list_elem_of_omap in Hx as ([k child] & Hc & E). cbn in E. case_bool_decide as Ek; [|done]. cbn in Ek. subst k.
  injection E as E. rewrite <- E in Hin. apply list_elem_of_omap in Hin as (v & Hv & Ef). eauto.
Qed.

Lemma filterArray_GArr lf cs l f : filterArray filterValue lf cs l = Some f → ∃ out, f = GArr out.
Proof. unfold filterArray. repeat case_match; naive_solver. Qed.

(** Below a node, a value that survives was there, under a declared path. *)
Lemma filterValue_sound p : ∀ node v f x, tree_ok node →
  filterValue node v = Some f → inside f p x → scalar x = true →
  inside v p x ∧ ∃ q, q `prefix_of` (step_key <$> p) ∧ leaf_at node q = true.
Proof.
  induction p as [|st p IH]; intros [lf cs] v f x Hok Hf Hin Hx.
  { inversion Hin; subst. assert (v = x ∧ lf = true) as [-> ->].
    { cbn in Hf. destruct (lf && _) eqn:El; [apply andb_true_iff in El as [-> _]; by simplify_eq|].
      destruct v; destruct lf; simplify_eq; try done.
      all: first [apply fmap_Some in Hf as (? & _ & ->); done|apply filterArray_GArr in Hf as [? ->]; done]. }
    split; [constructor|]. exists []. by split; [apply prefix_nil|]. }
  cbn [filterValue] in Hf. destruct (lf && _) eqn:El.
  { apply andb_true_iff in El as [-> _]. simplify_eq. split; [done|]. exists []. by split; [apply prefix_nil|]. }
  assert (lf = true ∧ f = v → inside v (st :: p) x ∧ ∃ q, q `prefix_of` (step_key <$> st :: p) ∧ leaf_at (mkNode lf cs) q = true) as Hwhole.
  { intros [-> ->]. split; [done|]. exists []. by split; [apply prefix_nil|]. }
  assert (∀ child v' f', (step_key st, child) ∈ cs → filterValue child v' = Some f' → inside f' p x →
            inside v' p x ∧ ∃ q, q `prefix_of` (step_key <$> st :: p) ∧ leaf_at (mkNode lf cs) q = true) as Hbelow.
  { intros child v' f' Hc Hf' Hin'. pose proof (tree_ok_NoDup _ Hok) as HN.
    pose proof (mget_elem_NoDup _ _ _ HN Hc) as Hg.
    destruct (IH child v' f' x (tree_ok_child _ _ _ Hok Hg) Hf' Hin' Hx) as (Hv & q & Hq & Hl). split; [done|].
    exists (step_key st :: q). split; [by apply prefix_cons|]. cbn. cbn in Hg. by rewrite Hg. }
  assert (∀ l, (∀ w, w ∈ l → inside w p x → inside v (st :: p) x) → filterArray filterValue lf cs l = Some f →
             (lf = true → f = GArr l → inside v (st :: p) x) →
             inside v (st :: p) x ∧ ∃ q, q `prefix_of` (step_key <$> st :: p) ∧ leaf_at (mkNode lf cs) q = true) as Harr.
  { intros l Hup Hfa Hself. destruct (filterArray_GArr _ _ _ _ Hfa) as [out ->].
    inversion Hin as [|?|? e ? ? He Hin'|]; subst.
    destruct (filterArray_element _ _ _ _ _ Hfa He) as [[-> ->]|(child & w & Hc & Hw & Hfw)].
    - split; [by apply Hself|]. exists []. by split; [apply prefix_nil|].
    - destruct (Hbelow child w e Hc Hfw Hin') as [Hi Hq]. split; [|done]. by apply (Hup w). }
  destruct v as [| | | | | | |l|l|m]; try (destruct lf; simplify_eq; by apply Hwhole).
  - apply (Harr (GString <$> l)); [|done|].
    + intros w (s & -> & Hs)%list_elem_of_fmap Hw. inversion Hin; subst; try (by apply filterArray_GArr in Hf as [? [=]]).
      by apply inside_string with s.
    + intros -> ->. inversion Hin as [|?|? e ? ? He Hin'|]; subst. apply list_elem_of_fmap in He as (s & -> & Hs).
      by apply inside_string with s.
  - apply (Harr l); [|done|by intros _ ->]. intros w Hw Hin'. inversion Hin; subst;
      try (by apply filterArray_GArr in Hf as [? [=]]). by apply inside_element with w.
  - apply fmap_Some in Hf as (out & Ho & ->). inversion Hin as [|? k f' ? ? Hk Hin'| |]; subst.
    destruct (filterMap_entry _ _ _ _ _ _ Ho Hk) as [[-> ->]|(child & w & Hc & Hw & Hfw)]; [by apply Hwhole|].
    destruct (Hbelow child w f' Hc Hfw Hin') as [Hi Hq]. split; [|done]. by apply inside_field with w.
Qed.

Lemma omap_keys_NoDup (g : string → allowNode → option goval) cs :
  NoDup (mkeys cs) → NoDup (mkeys (omap (fun e => if bool_decide (fst e = arrayWildcardKey) then None else f ← g (fst e) (snd e); Some (fst e, f)) cs)).
Proof.
  induction cs as [|[k c] cs IH]; cbn; [constructor|]. intros [Hk HN]%NoDup_cons. specialize (IH HN).
  case_bool_decide; [done|]. destruct (g k c); cbn; [|done]. constructor; [|done].
  intros ([k' f] & -> & Hin)%list_elem_of_fmap. apply Hk. apply list_elem_of_omap in Hin as ([k2 c2] & Hin & E). cbn in E.
  case_bool_decide; [done|]. apply bind_Some in E as (? & _ & [= <- _]). apply list_elem_of_fmap. by exists (k2, c2).
Qed.

(** A scalar at a declared path survives. *)
Lemma filterMap_keeps lf cs m k c v f :
  NoDup (mkeys cs) → mget cs k = Some c → k ≠ arrayWildcardKey → mget m k = Some v → filterValue c v = Some f → lf = false →
  ∃ out, filterMap filterValue lf cs m = Some out ∧ mget out k = Some f.
Proof.
  intros HN Hc Hk Hv Hf ->. unfold filterMap.
  set (out := omap _ cs).
  assert ((k, f) ∈ out) as Hin.
  { apply list_elem_of_omap. exists (k, c). split; [by apply mget_Some_elem|]. cbn [fst snd]. rewrite bool_decide_eq_false_2 by done. rewrite Hv. cbn [mbind option_bind]. by rewrite Hf. }
  exists out. split; [by destruct out; [apply elem_of_nil in Hin|]|]. apply mget_elem_NoDup; [|done].
  pose proof (omap_keys_NoDup (fun k c => v ← mget m k; filterValue c v) cs HN) as HN'.
  erewrite (list_omap_ext _ _ _ cs) in HN'; [exact HN'|]. clear. induction cs as [|[k' c'] cs IH]; constructor; [|done].
  cbn. case_bool_decide; [done|]. by destruct (mget m k').
Qed.

Lemma filterArray_keeps lf cs l c v f :
  NoDup (mkeys cs) → mget cs arrayWildcardKey = Some c → v ∈ l → filterValue c v = Some f →
  ∃ out, filterArray filterValue lf cs l = Some (GArr out) ∧ f ∈ out.
Proof.
  intros HN Hc Hv Hf. unfold filterArray.
  assert (omap (fun e => if bool_decide (fst e = arrayWildcardKey) then Some (omap (filterValue (snd e)) l) else None) cs
          = [omap (filterValue c) l]) as ->.
  { clear Hv Hf. induction cs as [|[k' c'] cs IH]; [done|]. apply NoDup_cons in HN as [Hn HN]. cbn in *.
    case_bool_decide as Ek; [|by apply IH]. injection Hc as ->. f_equal. cbn in Ek. subst k'.
    clear IH. induction cs as [|[k2 c2] cs IH]; [done|]. cbn. rewrite bool_decide_eq_false_2; [apply IH|].
    - apply not_elem_of_cons in Hn. by destruct Hn.
    - by apply NoDup_cons in HN as [_ ?].
    - intros E. apply Hn. cbn in E. subst. by left. }
  assert (f ∈ omap (filterValue c) l) as Hin by (apply list_elem_of_omap; eauto).
  destruct (omap (filterValue c) l) as [|y out]; [by apply elem_of_nil in Hin|]. eauto.
Qed.

Lemma filterValue_complete p : ∀ node v x, tree_ok node →
  leaf_at node (step_key <$> p) = true → inside v p x → scalar x = true → Field arrayWildcardKey ∉ p →
  ∃ f, filterValue node v = Some f ∧ inside f p x.
Proof.
  induction p as [|st p IH]; intros [lf cs] v x Hok Hl Hin Hx Hp.
  { inversion Hin; subst. cbn in Hl. subst lf. exists x. split; [|constructor]. cbn. destruct cs; [done|]. by destruct x. }
  cbn in Hl. destruct (mget cs (step_key st)) as [c|] eqn:Ec; [|done]. apply not_elem_of_cons in Hp as [Hst Hp].
  assert (∀ v', inside v' p x → ∃ f, filterValue c v' = Some f ∧ inside f p x) as Hc.
  { intros v' Hi. apply IH; try done. exact (tree_ok_child _ _ _ Hok Ec). }
  cbn [filterValue]. assert (lf && match cs with [] => true | _ => false end = false) as -> by (destruct cs; [done|by rewrite andb_false_r]).
  pose proof (tree_ok_NoDup _ Hok) as HN. cbn in HN.
  inversion Hin as [|m k v' ? ? Hk Hi|l e ? ? He Hi|l s ? ? Hs Hi]; subst; cbn in Ec; destruct (Hc _ Hi) as (f & Hf & Hif).
  - destruct lf. { exists (GMap m). split; [|done]. cbn. by destruct m. }
    destruct (filterMap_keeps false cs m k c v' f) as (out & -> & Ho); try done; [congruence|].
    exists (GMap out). split; [done|]. by apply inside_field with f.
  - destruct (filterArray_keeps lf cs l c e f) as (out & -> & Ho); try done. exists (GArr out). split; [done|].
    by apply inside_element with f.
  - destruct (filterArray_keeps lf cs (GString <$> l) c (GString s) f) as (out & -> & Ho); try done.
    { apply list_elem_of_fmap. eauto. }
    exists (GArr out). split; [done|]. by apply inside_element with f.
Qed.

(** The root of a tree is not the end of a path. *)
Lemma build_root vctm : leaf (buildAllowTree vctm) = false.
Proof.
  destruct (leaf (buildAllowTree vctm)) eqn:E; [|done]. change (leaf_at (buildAllowTree vctm) [] = true) in E.
  apply leaf_at_build in E as (c & _ & Hc). unfold declared_path in Hc. by destruct (Path c) as [|[]].
Qed.

Lemma filter_root vctm doc :
  filterValue (buildAllowTree vctm) (GMap doc) =
  GMap <$> filterMap filterValue (leaf (buildAllowTree vctm)) (children (buildAllowTree vctm)) doc.
Proof. pose proof (build_root vctm) as Hr. destruct (buildAllowTree vctm) as [lf cs]. cbn [leaf] in Hr. by subst lf. Qed.

Lemma Filter_inside doc vctm p x : p ≠ [] →
  inside (GMap (FilterAgainstVCTM doc (Some vctm))) p x →
  ∃ f, filterValue (buildAllowTree vctm) (GMap doc) = Some f ∧ inside f p x.
Proof.
  unfold FilterAgainstVCTM. rewrite filter_root. intros Hp. destruct (filterMap _ _ _ doc) as [out|]; intros Hin; [cbn in *; eauto|].
  cbn in Hin. inversion Hin; subst; done.
Qed.

(** C25: nothing a credential type does not declare gets through the filter:
    every value that is not an object or a list, at whatever depth of the filtered
    document, was at the same place of the document, and that place is at or below
    a path the type declares. *)
Theorem filter_no_leak doc vctm p x :
  inside (GMap (FilterAgainstVCTM doc (Some vctm))) p x → scalar x = true →
  inside (GMap doc) p x ∧
  ∃ c q, c ∈ vctm_Claims vctm ∧ declared_path c = Some q ∧ q `prefix_of` (step_key <$> p).
Proof.
  intros Hin Hx. assert (p ≠ []) as Hp by (intros ->; inversion Hin; by subst).
  apply Filter_inside in Hin as (f & Hf & Hin); [|done].
  destruct (filterValue_sound _ _ _ _ _ (build_ok vctm) Hf Hin Hx) as (Hi & q & Hq & Hl). split; [done|].
  apply leaf_at_build in Hl as (c & Hc & Ec). eauto.
Qed.

(** C26: and what it declares is not lost: a value at a declared path, reached
    through fields and the elements of lists, is still there. *)
Theorem filter_keeps_declared doc vctm c p x :
  c ∈ vctm_Claims vctm → declared_path c = Some (step_key <$> p) → Field arrayWildcardKey ∉ p →
  inside (GMap doc) p x → scalar x = true →
  inside (GMap (FilterAgainstVCTM doc (Some vctm))) p x.
Proof.
  intros Hc Ep Hp Hin Hx. assert (p ≠ []) as Hne by (intros ->; inversion Hin; by subst).
  assert (leaf_at (buildAllowTree vctm) (step_key <$> p) = true) as Hl by (apply leaf_at_build; eauto).
  destruct (filterValue_complete _ _ _ _ (build_ok vctm) Hl Hin Hx Hp) as (f & Hf & Hif).
  rewrite filter_root in Hf. apply fmap_Some in Hf as (out & Eo & ->). unfold FilterAgainstVCTM. by rewrite Eo.
Qed.

(** A list whose whole value is declared, beside a path below its elements, is
    cut down to that path, where an object is kept whole. *)
Definition list_and_part : VCTM := mkVCTM "list"
  [mkVctmClaim [Some "addresses"] "" false; mkVctmClaim [Some "addresses"; None; Some "city"] "" false;
   mkVctmClaim [Some "home"] "" false; mkVctmClaim [Some "home"; Some "city"] "" false].
Definition one_address : goval := GMap [("city", GString "Uppsala"); ("street", GString "Main")].
Lemma filter_cuts_declared_list :
  FilterAgainstVCTM [("addresses", GArr [one_address]); ("home", one_address)] (Some list_and_part) =
  [("addresses", GArr [GMap [("city", GString "Uppsala")]]); ("home", one_address)].
Proof. reflexivity. Qed.
