(* ===== verification/Derivations.v ===== *)
(** * Derived claims

    [pkg/credential/primitives] and [pkg/credential/derivations.go]: the
    computations a scope may configure on its claims, and the loop that runs them;
    with the part of [internal/apigw/apiv1] that keeps what the holder presented
    ([provedClaims], [restoreProvedClaims]).  The case folding and trimming of
    Unicode text, the table of countries, the local calendar and the random
    source are interfaces.  Texts of errors are left out; what is kept is whether
    an error is marked as the fault of the holder's data. *)

From stdpp Require Import pretty.
From S2P Require Import Prelude GoStrings GoValue Base64 Json Jwt SdJwt ClaimPaths.

(** ** Dates *)

Record date := mkDate { Year : Z; Month : Z; Day : Z }.

Definition is_leap (y : Z) : bool :=
  bool_decide (y mod 4 = 0) && (negb (bool_decide (y mod 100 = 0)) || bool_decide (y mod 400 = 0)).
Definition daysIn (m y : Z) : Z :=
  if bool_decide (m = 2) then (if is_leap y then 29 else 28) else
  if bool_decide (m ∈ [4; 6; 9; 11]) then 30 else 31.

(** Days since 1970-01-01 of a date of the Gregorian calendar. *)
Definition days_from_civil (d : date) : Z :=
  let y := if bool_decide (Month d ≤ 2) then Year d - 1 else Year d in
  let era := y / 400 in
  let yoe := y - era * 400 in
  let doy := (153 * (if bool_decide (2 < Month d) then Month d - 3 else Month d + 9) + 2) / 5 + Day d - 1 in
  let doe := yoe * 365 + yoe / 4 - yoe / 100 + doy in
  era * 146097 + doe - 719468.
(** Midnight in UTC, in nanoseconds. *)
Definition midnight (d : date) : Z := days_from_civil d * (86400 * second).

Fixpoint digits (acc : Z) (s : string) : option Z :=
  match s with
  | EmptyString => Some acc
  | String c s =>
      let n := Z.of_N (Ascii.N_of_ascii c) - 48 in
      if bool_decide (0 ≤ n ≤ 9) then digits (acc * 10 + n) s else None
  end.

Definition valid_date (y m d : Z) : option date :=
  if bool_decide (1 ≤ m ≤ 12) && bool_decide (1 ≤ d ≤ daysIn m y) then Some (mkDate y m d) else None.

(** [time.Parse("2006-01-02", s)] and [time.Parse("20060102", s)] *)
Definition parse_fields (ys ms ds : string) : option date :=
  y ← digits 0 ys; m ← digits 0 ms; d ← digits 0 ds; valid_date y m d.
Definition parse_DateOnly (s : string) : option date :=
  if bool_decide (String.length s = 10%nat) && bool_decide (String.substring 4 1 s = "-") && bool_decide (String.substring 7 1 s = "-")
  then parse_fields (String.substring 0 4 s) (String.substring 5 2 s) (String.substring 8 2 s) else None.
Definition parse_compact (s : string) : option date :=
  if bool_decide (String.length s = 8%nat)
  then parse_fields (String.substring 0 4 s) (String.substring 4 2 s) (String.substring 6 2 s) else None.

(** ** What the primitives are given *)

Class Text := { ToLower : string → string; ToUpper : string → string; TrimSpace : string → string }.
(** The codes of a country by any of its names. *)
Class Countries := { ByName : string → option (string * string) }.
Class LocalTime := { local_date : Z → date }.
(** The draws of one run, by the position of the derivation. *)
Class Entropy := { random_uuid : nat → option string; random_bytes : nat → Z → option string }.

Inductive derivation_error :=
| InvalidClaimInput        (* [ErrInvalidClaimInput]: the holder's data *)
| Misconfigured.

(** ** The primitives *)

Record RandomArgs := mkRandom { ra_Output : string; ra_Format : string; ra_Bytes : Z; ra_Overwrite : bool }.

Inductive OpeningArgs :=
| HKDF (SecretPath : string) (Inputs : list string) (Bytes : Z)
| HMAC (SecretPath : string) (Inputs : list string) (Bytes : Z)
| RandomOpening (Bytes : Z)
| ClaimOpening (Input : string).

Inductive primitive :=
| AgeOverThresholds (Input : string) (Thresholds : list Z)
| Lowercase (Input Output : string)
| Uppercase (Input Output : string)
| Trim (Input Output : string)
| CountryAlpha2 (Input Output : string)
| CountryAlpha3 (Input Output : string)
| YYYYMMDDToISO (Input Output : string)
| SWAMIDHighestAssuranceLevel (Input Output : string)
| Random (args : RandomArgs)
| Copy (Input Output : string)
| HashCommitment (path : list string) (opening : list OpeningArgs).

(** An entry of the list: the fields that are set, in the order of the struct. *)
Abbreviation Derivation := (list primitive).

Definition selected (d : Derivation) : option primitive := match d with [p] => Some p | _ => None end.

Definition input_of (p : primitive) : string :=
  match p with
  | AgeOverThresholds i _ | Lowercase i _ | Uppercase i _ | Trim i _ | CountryAlpha2 i _ | CountryAlpha3 i _
  | YYYYMMDDToISO i _ | SWAMIDHighestAssuranceLevel i _ | Copy i _ => i
  | Random _ | HashCommitment _ _ => ""
  end.
Definition InputClaim (d : Derivation) : string := match selected d with Some p => input_of p | None => "" end.

Definition ReformatsInput (d : Derivation) : bool :=
  existsb (fun p => match p with
                    | Lowercase _ _ | Uppercase _ _ | Trim _ _ | CountryAlpha2 _ _ | CountryAlpha3 _ _
                    | YYYYMMDDToISO _ _ | SWAMIDHighestAssuranceLevel _ _ | Copy _ _ => true
                    | _ => false
                    end) d.

Definition hash_commitment_of (d : Derivation) : option (list string * list OpeningArgs) :=
  head (omap (fun p => match p with HashCommitment path o => Some (path, o) | _ => None end) d).
Definition copy_of (d : Derivation) : option (string * string) :=
  head (omap (fun p => match p with Copy i o => Some (i, o) | _ => None end) d).

Definition or_input (output input : string) : string := if str_empty output then input else output.

Section primitives.
Context `{Text} `{Countries} `{LocalTime} `{Entropy}.

Definition age_entries (age ageThisYear : Z) (thresholds : list Z) : gomap :=
  foldl (fun out t => mset (mset out ("age_over_" +:+ pretty t) (GBool (bool_decide (t ≤ age))))
                        ("over_" +:+ pretty t +:+ "_this_year") (GBool (bool_decide (t ≤ ageThisYear))))
    [] thresholds.

(** The completed years at the date [today]. *)
Definition completed_years (bd today : date) : Z :=
  let age := Year today - Year bd in
  if bool_decide (Month today < Month bd) || (bool_decide (Month today = Month bd) && bool_decide (Day today < Day bd))
  then age - 1 else age.

(** The fallback of [AgeOverThresholds] to the current time for a zero [now] is
    not modelled: the one caller passes [time.Now()]. *)
Definition age_over_thresholds (birthdate : string) (now : Z) (thresholds : list Z) : result derivation_error gomap :=
  if str_empty birthdate then Err InvalidClaimInput else
  match parse_DateOnly birthdate with
  | None => Err InvalidClaimInput
  | Some bd =>
      if bool_decide (now < midnight bd) then Err InvalidClaimInput else
      let today := local_date now in
      Ok (age_entries (completed_years bd today) (Year today - Year bd) thresholds)
  end.

Definition written (o : option gomap) : result derivation_error gomap :=
  match o with Some m => Ok m | None => Err Misconfigured end.

Definition applyStringElementwise (input output : string) (claims : gomap) (fn : string → string) : result derivation_error gomap :=
  let output := or_input output input in
  match lookupClaim claims input with
  | None => Ok []
  | Some (GString s) => written (setClaim [] output (GString (fn s)))
  | Some (GStrings l) => written (setClaim [] output (GStrings (map fn l)))
  | Some (GArr l) => written (setClaim [] output (GArr (map (fun e => match e with GString s => GString (fn s) | e => e end) l)))
  | Some _ => Err Misconfigured
  end.

Definition country_alpha2 (s : string) : string := match ByName s with None => s | Some (a2, _) => a2 end.
Definition country_alpha3 (s : string) : string := match ByName s with None => s | Some (_, a3) => a3 end.

Definition yyyymmdd_to_iso (s : string) : option string :=
  _ ← parse_compact s;
  Some (String.substring 0 4 s +:+ "-" +:+ String.substring 4 2 s +:+ "-" +:+ String.substring 6 2 s).

Definition al (n : string) : string := "http://www.swamid.se/policy/assurance/al" +:+ n.
Definition swamidAssuranceRank (uri : string) : option Z :=
  if bool_decide (uri = al "1") then Some 1 else
  if bool_decide (uri = al "2") then Some 2 else
  if bool_decide (uri = al "3") then Some 3 else None.
Definition swamid_highest (value : goval) : string :=
  let uris := match value with
              | GString s => [s]
              | GStrings l => l
              | GArr l => omap as_string l
              | _ => []
              end in
  fst (foldl (fun best u => let u := TrimSpace u in
                match swamidAssuranceRank u with
                | Some r => if bool_decide (snd best < r) then (u, r) else best
                | None => best
                end) ("", 0) uris).

(** [checkOutputParent]: the parents of a dotted path that exist are maps. *)
Fixpoint parents_are_maps (cur : goval) (parts : list string) : bool :=
  match cur with
  | GMap m =>
      match parts with
      | [] | [_] => true
      | p :: parts => match mget m p with None => true | Some v => parents_are_maps v parts end
      end
  | _ => false
  end.

Definition isBlankClaim (v : goval) : bool :=
  match v with
  | GNil => true
  | GString s => str_empty s
  | GStrings l => match l with [] => true | _ => false end
  | GArr l => match l with [] => true | _ => false end
  | _ => false
  end.

Definition hex_digit (n : Z) : Ascii.ascii := Ascii.ascii_of_N (Z.to_N (if bool_decide (n < 10) then n + 48 else n + 87)).
Fixpoint hex (s : string) : string :=
  match s with
  | EmptyString => EmptyString
  | String c s => let n := Z.of_N (Ascii.N_of_ascii c) in String (hex_digit (n / 16)) (String (hex_digit (n mod 16)) (hex s))
  end.

Definition generate (i : nat) (a : RandomArgs) : option string :=
  if str_empty (ra_Format a) || bool_decide (ra_Format a = "uuid") then random_uuid i else
  let n := if bool_decide (ra_Bytes a = 0) then 16 else ra_Bytes a in
  if bool_decide (n < 8) || bool_decide (64 < n) then None else
  buf ← random_bytes i n;
  if bool_decide (ra_Format a = "hex") then Some (hex buf) else
  if bool_decide (ra_Format a = "base64url") then Some (b64 buf) else None.

Definition apply_random (i : nat) (a : RandomArgs) (claims : gomap) : result derivation_error gomap :=
  if str_empty (ra_Output a) then Err Misconfigured else
  if negb (parents_are_maps (GMap claims) (Split "." (ra_Output a))) then Err Misconfigured else
  if negb (ra_Overwrite a) && match lookupClaim claims (ra_Output a) with Some v => negb (isBlankClaim v) | None => false end
  then Ok [] else
  match generate i a with
  | None => Err Misconfigured
  | Some v => written (setClaim [] (ra_Output a) (GString v))
  end.

(** The [Apply] methods; [i] is the position of the derivation. *)
Definition apply_primitive (i : nat) (p : primitive) (claims : gomap) (now : Z) : result derivation_error gomap :=
  match p with
  | AgeOverThresholds input thresholds =>
      match mget claims input with
      | None => Err Misconfigured
      | Some (GString bd) => age_over_thresholds bd now thresholds
      | Some _ => Err InvalidClaimInput
      end
  | Lowercase input output => applyStringElementwise input output claims ToLower
  | Uppercase input output => applyStringElementwise input output claims ToUpper
  | Trim input output => applyStringElementwise input output claims TrimSpace
  | CountryAlpha2 input output => applyStringElementwise input output claims country_alpha2
  | CountryAlpha3 input output => applyStringElementwise input output claims country_alpha3
  | YYYYMMDDToISO input output =>
      match mget claims input with
      | None => Ok []
      | Some (GString s) =>
          if str_empty s then Err Misconfigured else
          match yyyymmdd_to_iso s with None => Err Misconfigured | Some iso => Ok [(or_input output input, GString iso)] end
      | Some _ => Err Misconfigured
      end
  | SWAMIDHighestAssuranceLevel input output =>
      match mget claims input with
      | None => Ok []
      | Some v => let uri := swamid_highest v in
                  if str_empty uri then Err Misconfigured else Ok [(or_input output input, GString uri)]
      end
  | Random a => apply_random i a claims
  | Copy input output =>
      match lookupClaim claims input with None => Ok [] | Some v => written (setClaim [] output v) end
  | HashCommitment _ _ => Err Misconfigured
  end.

Definition Derivation_Apply (i : nat) (d : Derivation) (claims : gomap) (now : Z) : result derivation_error gomap :=
  match selected d with Some p => apply_primitive i p claims now | None => Err Misconfigured end.

(** ** The loop *)

(** Which claim paths hold generated values. *)
Abbreviation provenance := (gmap string bool).

Fixpoint record_value (existing : option goval) (path : string) (isGenerated : bool) (v : goval) (generated : provenance) : provenance :=
  match v with
  | GMap sub =>
      let prior := match existing with Some (GMap m) => Some m | _ => None end in
      let generated := match prior with Some _ => generated | None => <[path := true]> generated end in
      foldl (fun g e => record_value (mget (default [] prior) (fst e)) (path +:+ "." +:+ fst e) isGenerated (snd e) g) generated sub
  | _ => <[path := isGenerated]> generated
  end.
Definition recordProvenance (generated : provenance) (existing derived : gomap) (isGenerated : bool) : provenance :=
  foldl (fun g e => record_value (mget existing (fst e)) (fst e) isGenerated (snd e) g) generated derived.

Definition is_generated (generated : provenance) (path : string) : bool := default false (generated !! path).

(** [strings.CutPrefix] *)
Fixpoint CutPrefix (p s : string) : option string :=
  match p, s with
  | EmptyString, s => Some s
  | String a p, String b s => if bool_decide (a = b) then CutPrefix p s else None
  | String _ _, EmptyString => None
  end.

Definition copyProvenance (generated : provenance) (input output : string) : provenance :=
  let carried := omap (fun e => rest ← CutPrefix (input +:+ ".") (fst e); Some (output +:+ "." +:+ rest, snd e)) (map_to_list generated) in
  let kept := filter (fun e => HasPrefix (output +:+ ".") (fst e) = false) generated in
  let with_copied := foldl (fun g e => <[fst e := snd e]> g) kept carried in
  <[output := is_generated with_copied input]> with_copied.

Definition copyOutput (derived : gomap) (d : Derivation) : option (list string) :=
  '(_, output) ← copy_of d;
  _ ← walkPath (GMap derived) (Split "." output);
  Some (Split "." output).

Definition mergeReplacing (dst derived : gomap) (copied : option (list string)) : gomap :=
  MergeNestedClaims (match copied with Some parts => clearPath dst parts | None => dst end) derived.

(** The pinned claims put back. *)
Definition restore (pinned working : gomap) : gomap := foldl (fun w e => mset w (fst e) (snd e)) working pinned.

Record loop_state := mkLoop { l_out : gomap; l_replaced : list string; l_working : gomap; l_generated : provenance }.

Definition derivation_step (now : Z) (pinned : gomap) (i : nat) (d : Derivation) (st : loop_state) : result derivation_error loop_state :=
  match hash_commitment_of d with
  | Some _ => Ok st
  | None =>
      match Derivation_Apply i d (l_working st) now with
      | Err InvalidClaimInput => Err (if is_generated (l_generated st) (InputClaim d) then Misconfigured else InvalidClaimInput)
      | Err e => Err e
      | Ok derived =>
          let generated := recordProvenance (l_generated st) (l_working st) derived
                             (negb (ReformatsInput d) || is_generated (l_generated st) (InputClaim d)) in
          let copied := copyOutput derived d in
          let out := mergeReplacing (l_out st) derived copied in
          let working := restore pinned (mergeReplacing (l_working st) derived copied) in
          match copied, copy_of d with
          | Some _, Some (input, output) =>
              Ok (mkLoop out (l_replaced st ++ [output])%list working (copyProvenance generated input output))
          | _, _ => Ok (mkLoop out (l_replaced st) working generated)
          end
      end
  end.

Fixpoint derivation_loop (now : Z) (pinned : gomap) (i : nat) (l : list Derivation) (st : loop_state) : result derivation_error loop_state :=
  match l with
  | [] => Ok st
  | d :: l => st ← derivation_step now pinned i d st; derivation_loop now pinned (S i) l st
  end.

Definition ApplyDerivationsReplacing (l : list Derivation) (claims : gomap) (now : Z) (pinned : gomap) :
    result derivation_error (gomap * list string) :=
  st ← derivation_loop now pinned 0 l (mkLoop [] [] (restore pinned claims) ∅);
  Ok (l_out st, l_replaced st).

Definition ApplyDerivations (l : list Derivation) (claims : gomap) (now : Z) : result derivation_error gomap :=
  '(out, _) ← ApplyDerivationsReplacing l claims now []; Ok out.

(** ** What the holder presented *)

Definition provedClaims (docData : gomap) (presented : list string) : gomap :=
  foldl (fun out claim => match mget docData claim with Some v => mset out claim v | None => out end) [] presented.

Definition restoreProvedClaims (docData proved : gomap) : gomap := restore proved docData.

(** The document a credential request issues from, where it is not an assertion. *)
Definition derive_document (derivs : list Derivation) (now : Z) (docData : gomap) (presented : list string) : result derivation_error gomap :=
  match derivs with
  | [] => Ok docData
  | _ =>
      let proved := provedClaims docData presented in
      '(derived, replaced) ← ApplyDerivationsReplacing derivs docData now proved;
      Ok (restoreProvedClaims (MergeDerived docData derived replaced) proved)
  end.
End primitives.

(** ** What the holder presented is what is issued *)

Lemma mget_restore pinned : ∀ w k, NoDup (mkeys pinned) →
  mget (restore pinned w) k = match mget pinned k with Some v => Some v | None => mget w k end.
Proof.
  unfold restore. induction pinned as [|[k' v'] pinned IH]; intros w k HN; [done|]. cbn [foldl mget fst snd].
  apply NoDup_cons in HN as [Hk' HN]. rewrite (IH _ _ HN). case_bool_decide as Ek.
  - subst k'. assert (mget pinned k = None) as -> by by apply mget_None. by rewrite mget_mset_eq.
  - by rewrite mget_mset_ne by done.
Qed.

Lemma provedClaims_spec doc presented :
  NoDup (mkeys (provedClaims doc presented)) ∧
  ∀ k, mget (provedClaims doc presented) k = if bool_decide (k ∈ presented) then mget doc k else None.
Proof.
  unfold provedClaims.
  assert (∀ out, NoDup (mkeys out) →
    let out' := foldl (fun out claim => match mget doc claim with Some v => mset out claim v | None => out end) out presented in
    NoDup (mkeys out') ∧ ∀ k, mget out' k = if bool_decide (k ∈ presented) then (match mget doc k with Some v => Some v | None => mget out k end) else mget out k) as Hg.
  { induction presented as [|c l IH]; intros out HN; cbn; [done|].
    destruct (IH (match mget doc c with Some v => mset out c v | None => out end)) as [HN' Hl].
    { destruct (mget doc c); [by apply NoDup_mkeys_mset|done]. }
    split; [done|]. intros k. rewrite Hl.
    destruct (decide (k = c)) as [->|Hne].
    - rewrite (bool_decide_eq_true_2 (c ∈ c :: l)) by left. destruct (mget doc c) as [v|] eqn:Ec.
      + rewrite mget_mset_eq. by case_bool_decide.
      + by case_bool_decide.
    - rewrite (bool_decide_ext (k ∈ c :: l) (k ∈ l)) by set_solver.
      destruct (mget doc c); [|done]. rewrite mget_mset_ne by done. done. }
  destruct (Hg []) as [HN Hk]; [constructor|]. split; [exact HN|]. intros k. rewrite Hk.
  case_bool_decide; [by destruct (mget doc k)|done].
Qed.

Section proved.
Context `{Text} `{Countries} `{LocalTime} `{Entropy}.

(** Whatever the configured derivations compute, a claim the holder presented
    is in the issued document with the value that was presented. *)
Theorem presented_claims_win derivs now docData presented doc claim v :
  derive_document derivs now docData presented = Ok doc → claim ∈ presented → mget docData claim = Some v →
  mget doc claim = Some v.
Proof.
  unfold derive_document. intros Hd Hc Hv. destruct derivs as [|d derivs]; [by simplify_eq|].
  apply bind_Ok in Hd as ([derived replaced] & _ & [= <-]). unfold restoreProvedClaims.
  destruct (provedClaims_spec docData presented) as [HN Hk]. rewrite mget_restore by done.
  by rewrite Hk, bool_decide_eq_true_2, Hv.
Qed.

(** *** What a derivation may write *)

Definition first_part (path : string) : string := default "" (head (Split "." path)).

Definition top_keys (p : primitive) : list string :=
  match p with
  | AgeOverThresholds _ ths => flat_map (fun t => ["age_over_" +:+ pretty t; "over_" +:+ pretty t +:+ "_this_year"]) ths
  | Lowercase i o | Uppercase i o | Trim i o | CountryAlpha2 i o | CountryAlpha3 i o => [first_part (or_input o i)]
  | YYYYMMDDToISO i o | SWAMIDHighestAssuranceLevel i o => [or_input o i]
  | Random a => [first_part (ra_Output a)]
  | Copy _ o => [first_part o]
  | HashCommitment _ _ => []
  end.
Definition writes (d : Derivation) (k : string) : Prop := ∃ p, selected d = Some p ∧ k ∈ top_keys p.

(** The output of a primitive is a map with one entry per key, of keys it may write. *)
Definition within (m : gomap) (keys : list string) : Prop := NoDup (mkeys m) ∧ ∀ k, k ∈ mkeys m → k ∈ keys.

Lemma within_nil keys : within [] keys.
Proof. split; [constructor|]. intros k Hk. by apply elem_of_nil in Hk. Qed.
Lemma within_one k v : within [(k, v)] [k].
Proof. split; [apply NoDup_singleton|done]. Qed.

Lemma set_parts_within parts v m : set_parts [] parts v = Some m → within m [default "" (head parts)].
Proof.
  destruct parts as [|k [|k2 parts]]; cbn; [done|intros [= <-]; apply within_one|].
  intros Hs. apply bind_Some in Hs as (m' & _ & [= <-]). apply within_one.
Qed.
Lemma setClaim_within path v m : setClaim [] path v = Some m → within m [first_part path].
Proof.
  unfold setClaim, first_part. destruct (str_empty path); [done|]. destruct (has_byte "." path) eqn:Eb.
  - apply set_parts_within.
  - intros [= <-]. rewrite Split_no_sep by done. apply within_one.
Qed.
Lemma written_Ok o m : written o = Ok m → o = Some m.
Proof. destruct o; [by intros [= ->]|done]. Qed.

Lemma elementwise_within i o claims fn m : applyStringElementwise i o claims fn = Ok m → within m [first_part (or_input o i)].
Proof.
  unfold applyStringElementwise. destruct (lookupClaim claims i) as [[]|]; try done;
    try (intros Hw%written_Ok; by apply setClaim_within in Hw). intros [= <-]. apply within_nil.
Qed.

Lemma age_entries_within a y ths :
  within (age_entries a y ths) (flat_map (fun t => ["age_over_" +:+ pretty t; "over_" +:+ pretty t +:+ "_this_year"]) ths).
Proof.
  unfold age_entries. set (all := flat_map _ ths).
  assert (∀ t, t ∈ ths → "age_over_" +:+ pretty t ∈ all ∧ "over_" +:+ pretty t +:+ "_this_year" ∈ all) as Ha.
  { intros t Ht. unfold all. rewrite !list_elem_of_In, !in_flat_map. apply list_elem_of_In in Ht.
    split; exists t; split; cbn; auto. }
  clearbody all. assert (within [] all) as Hw by apply within_nil. revert Hw. generalize (@nil (string * goval)).
  induction ths as [|t ths IH]; intros acc Hw; [done|]. cbn [foldl]. apply IH; [intros; apply Ha; by right|].
  destruct (Ha t ltac:(left)) as [H1' H2']. destruct Hw as [HN Hk]. split; [by do 2 apply NoDup_mkeys_mset|].
  intros k Hin. apply dec_stable. intros Hnot.
  assert (mget (mset (mset acc ("age_over_" +:+ pretty t) (GBool (bool_decide (t ≤ a)))) ("over_" +:+ pretty t +:+ "_this_year")
            (GBool (bool_decide (t ≤ y)))) k = None) as Hn.
  { rewrite mget_mset_ne by (intros <-; by apply Hnot). rewrite mget_mset_ne by (intros <-; by apply Hnot).
    apply mget_None. auto. }
  by apply mget_None in Hn.
Qed.

Lemma apply_within i p claims now m : apply_primitive i p claims now = Ok m → within m (top_keys p).
Proof.
  destruct p; cbn [apply_primitive top_keys].
  - destruct (mget claims Input) as [[]|]; try done. unfold age_over_thresholds. destruct (str_empty s); [done|].
    destruct (parse_DateOnly s); [|done]. case_bool_decide; [done|]. intros [= <-]. apply age_entries_within.
  - apply elementwise_within.
  - apply elementwise_within.
  - apply elementwise_within.
  - apply elementwise_within.
  - apply elementwise_within.
  - destruct (mget claims Input) as [[]|]; try done; [|intros [= <-]; apply within_nil]. destruct (str_empty s); [done|].
    destruct (yyyymmdd_to_iso s); [|done]. intros [= <-]. apply within_one.
  - destruct (mget claims Input); [|intros [= <-]; apply within_nil]. destruct (str_empty _); [done|]. intros [= <-]. apply within_one.
  - unfold apply_random. destruct (str_empty _); [done|]. destruct (negb _); [done|]. destruct (_ && _); [intros [= <-]; apply within_nil|].
    destruct (generate i args); [|done]. intros Hw%written_Ok. by apply setClaim_within in Hw.
  - destruct (lookupClaim claims Input); [|intros [= <-]; apply within_nil]. intros Hw%written_Ok. by apply setClaim_within in Hw.
  - done.
Qed.

Lemma clearPath_top dst parts k : k ≠ default "" (head parts) → mget (clearPath dst parts) k = mget dst k.
Proof.
  destruct parts as [|k0 [|k1 parts]]; cbn; intros Hne; [done|by rewrite mget_mdelete_ne|].
  destruct (mget dst k0) as [[]|]; try done. by rewrite mget_mset_ne.
Qed.

(** One step leaves what it does not write. *)
Lemma mergeReplacing_other dst derived copied k :
  NoDup (mkeys derived) → k ∉ mkeys derived → (∀ parts, copied = Some parts → k ≠ default "" (head parts)) →
  mget (mergeReplacing dst derived copied) k = mget dst k.
Proof.
  intros HN Hk Hc. unfold mergeReplacing. rewrite mget_MergeNestedClaims by done.
  apply mget_None in Hk. rewrite Hk. destruct copied as [parts|]; [|done]. apply clearPath_top. by apply Hc.
Qed.

Lemma copyOutput_Some derived d parts :
  copyOutput derived d = Some parts → ∃ i o, copy_of d = Some (i, o) ∧ parts = Split "." o.
Proof.
  unfold copyOutput. intros ([i o] & Ec & E)%bind_Some. apply bind_Some in E as (? & _ & [= <-]). eauto.
Qed.

Lemma copy_of_selected d p i o : selected d = Some p → copy_of d = Some (i, o) → p = Copy i o.
Proof. destruct d as [|q [|]]; try done. intros [= ->]. destruct p; try done. by intros [= -> ->]. Qed.

Section loop.
Variable now : Z.
Variable pinned : gomap.
Hypothesis pinned_ok : NoDup (mkeys pinned).

(** What the derivation produced, and what became of the output. *)
Lemma step_Ok i d st st' :
  derivation_step now pinned i d st = Ok st' →
  (st' = st ∧ is_Some (hash_commitment_of d)) ∨
  ∃ derived, Derivation_Apply i d (l_working st) now = Ok derived ∧
    l_out st' = mergeReplacing (l_out st) derived (copyOutput derived d) ∧
    l_working st' = restore pinned (mergeReplacing (l_working st) derived (copyOutput derived d)).
Proof.
  unfold derivation_step. destruct (hash_commitment_of d) eqn:Eh; [intros [= <-]; left; eauto|].
  destruct (Derivation_Apply i d (l_working st) now) as [derived|[]]; [|done|done]. intros Hs. right. exists derived. split; [done|].
  destruct (copyOutput derived d) as [parts|] eqn:Ec; [|injection Hs as <-; split_and!; auto].
  destruct (copy_of d) as [[inp o]|] eqn:Ed; injection Hs as <-; cbn; split_and!; eauto.
Qed.

(** Every step works on the pinned values. *)
Definition pinned_in (w : gomap) : Prop := ∀ k v, mget pinned k = Some v → mget w k = Some v.

Lemma restore_pinned w : pinned_in (restore pinned w).
Proof using pinned_ok. intros k v Hk. rewrite mget_restore by done. by rewrite Hk. Qed.

Lemma loop_pinned l : ∀ i st st',
  derivation_loop now pinned i l st = Ok st' → pinned_in (l_working st) → pinned_in (l_working st').
Proof using pinned_ok.
  induction l as [|d l IH]; intros i st st' Hl Hp; cbn in Hl; [by simplify_eq|].
  apply bind_Ok in Hl as (st1 & Hs & Hl). apply (IH _ _ _ Hl).
  destruct (step_Ok _ _ _ _ Hs) as [[-> _]|(derived & _ & _ & ->)]; [done|apply restore_pinned].
Qed.

(** A claim nobody writes stays in the output. *)
Lemma step_other i d st st' k :
  derivation_step now pinned i d st = Ok st' → ¬ writes d k → mget (l_out st') k = mget (l_out st) k.
Proof.
  intros Hs Hw. destruct (step_Ok _ _ _ _ Hs) as [[-> _]|(derived & Ha & -> & _)]; [done|].
  unfold Derivation_Apply in Ha. destruct (selected d) as [p|] eqn:Ep; [|done]. apply apply_within in Ha as [HN Hk].
  apply mergeReplacing_other; [done| |].
  - intros Hin. apply Hw. exists p. auto.
  - intros parts (inp & o & Hc & ->)%copyOutput_Some. intros ->. apply Hw. exists p. split; [done|].
    rewrite (copy_of_selected _ _ _ _ Ep Hc). by left.
Qed.

Lemma loop_other l k : ∀ i st st',
  derivation_loop now pinned i l st = Ok st' → Forall (fun d => ¬ writes d k) l →
  mget (l_out st') k = mget (l_out st) k.
Proof.
  induction l as [|d l IH]; intros i st st' Hl Hw; cbn in Hl; [by simplify_eq|].
  apply bind_Ok in Hl as (st1 & Hs & Hl). apply Forall_cons in Hw as [Hd Hw]. rewrite (IH _ _ _ Hl Hw).
  by apply (step_other _ _ _ _ k Hs).
Qed.

Lemma loop_app l1 l2 : ∀ i st st',
  derivation_loop now pinned i (l1 ++ l2) st = Ok st' →
  ∃ st1, derivation_loop now pinned i l1 st = Ok st1 ∧ derivation_loop now pinned (i + length l1) l2 st1 = Ok st'.
Proof.
  induction l1 as [|d l1 IH]; intros i st st' Hl; [rewrite Nat.add_0_r; eauto|]. cbn in Hl.
  apply bind_Ok in Hl as (sd & Hs & Hl). destruct (IH _ _ _ Hl) as (st1 & H1' & H2'). exists st1. cbn. rewrite Hs. cbn.
  split; [done|]. by rewrite Nat.add_succ_r.
Qed.

(** The output has one entry per key. *)
Lemma NoDup_mdelete (m : gomap) k : NoDup (mkeys m) → NoDup (mkeys (mdelete m k)).
Proof.
  unfold mdelete. induction m as [|[k' v] m IH]; [done|]. intros [Hn HN]%NoDup_cons. cbn. case_bool_decide; cbn; [auto|].
  constructor; [|auto]. intros Hin. apply Hn. apply list_elem_of_fmap in Hin as ([k2 v2] & -> & Hin).
  apply list_elem_of_In, filter_In in Hin as [Hin _]. apply list_elem_of_fmap. exists (k2, v2). by rewrite list_elem_of_In.
Qed.
Lemma NoDup_clearPath parts (m : gomap) : NoDup (mkeys m) → NoDup (mkeys (clearPath m parts)).
Proof.
  destruct parts as [|k [|k2 parts]]; cbn; [done|apply NoDup_mdelete|]. intros HN.
  destruct (mget m k) as [[]|]; try done. by apply NoDup_mkeys_mset.
Qed.
Lemma NoDup_merge src : ∀ dst, NoDup (mkeys dst) → NoDup (mkeys (MergeNestedClaims dst src)).
Proof.
  unfold MergeNestedClaims. induction src as [|e src IH]; intros dst HN; [done|]. cbn. apply IH. by apply NoDup_mkeys_mset.
Qed.
Lemma NoDup_mergeReplacing dst derived copied : NoDup (mkeys dst) → NoDup (mkeys (mergeReplacing dst derived copied)).
Proof. intros HN. apply NoDup_merge. destruct copied; [by apply NoDup_clearPath|done]. Qed.

Lemma loop_NoDup l : ∀ i st st',
  derivation_loop now pinned i l st = Ok st' → NoDup (mkeys (l_out st)) → NoDup (mkeys (l_out st')).
Proof.
  induction l as [|d l IH]; intros i st st' Hl HN; cbn in Hl; [by simplify_eq|].
  apply bind_Ok in Hl as (st1 & Hs & Hl). apply (IH _ _ _ Hl).
  destruct (step_Ok _ _ _ _ Hs) as [[-> _]|(derived & _ & -> & _)]; [done|by apply NoDup_mergeReplacing].
Qed.
End loop.

(** *** Ages *)

Lemma over_not_age (t t' : Z) : "over_" +:+ pretty t +:+ "_this_year" ≠ "age_over_" +:+ pretty t'.
Proof. done. Qed.

Lemma age_entries_get a y ths t : t ∈ ths → mget (age_entries a y ths) ("age_over_" +:+ pretty t) = Some (GBool (bool_decide (t ≤ a))).
Proof.
  intros Ht. unfold age_entries.
  assert (∀ acc, t ∈ ths ∨ mget acc ("age_over_" +:+ pretty t) = Some (GBool (bool_decide (t ≤ a))) →
    mget (foldl (fun out t => mset (mset out ("age_over_" +:+ pretty t) (GBool (bool_decide (t ≤ a))))
                        ("over_" +:+ pretty t +:+ "_this_year") (GBool (bool_decide (t ≤ y)))) acc ths)
      ("age_over_" +:+ pretty t) = Some (GBool (bool_decide (t ≤ a)))) as Hg; [|by apply Hg; left].
  clear Ht. induction ths as [|t' ths IH]; intros acc Hacc; cbn [foldl].
  { destruct Hacc as [Hin|?]; [by apply elem_of_nil in Hin|done]. }
  apply IH. rewrite mget_mset_ne by apply over_not_age. rewrite mget_mset.
  destruct (bool_decide_reflect ("age_over_" +:+ pretty t' = "age_over_" +:+ pretty t)) as [Ek|Ek].
  - right. apply append_inj_l, (inj pretty) in Ek. by subst.
  - destruct Hacc as [[->|]%elem_of_cons|]; [done|by left|by right].
Qed.

(** C27: an age the issued document asserts is the age of the person whose date of
    birth was presented: where the date is among the presented claims, the claims
    of an age derivation that reads it are computed from the presented date, though
    other derivations may write to the same claim before. *)
Theorem derived_age_of_presented l1 l2 now docData presented doc input ths bd t :
  derive_document (l1 ++ [AgeOverThresholds input ths] :: l2)%list now docData presented = Ok doc →
  input ∈ presented → mget docData input = Some (GString bd) →
  t ∈ ths → ("age_over_" +:+ pretty t) ∉ presented → Forall (fun d => ¬ writes d ("age_over_" +:+ pretty t)) l2 →
  ∃ born, parse_DateOnly bd = Some born ∧
    mget doc ("age_over_" +:+ pretty t) = Some (GBool (bool_decide (t ≤ completed_years born (local_date now)))).
Proof.
  intros Hd Hin Hbd Ht Hnp Hl2. set (k := "age_over_" +:+ pretty t) in *.
  destruct (provedClaims_spec docData presented) as [HN Hk]. unfold derive_document in Hd.
  destruct (l1 ++ _)%list as [|d0 l0] eqn:El; [by destruct l1|]. rewrite <- El in Hd. clear El d0 l0.
  apply bind_Ok in Hd as ([derived replaced] & Ha & [= <-]). unfold ApplyDerivationsReplacing in Ha.
  apply bind_Ok in Ha as (st & Hloop & [= <- <-]). pose proof Hloop as Hall.
  apply loop_app in Hloop as (st1 & Hl1 & Hrest). cbn [derivation_loop] in Hrest. apply bind_Ok in Hrest as (st2 & Hs & Hl2').
  assert (mget (l_working st1) input = Some (GString bd)) as Hw.
  { apply (loop_pinned now _ HN _ _ _ _ Hl1); [by apply restore_pinned|]. by rewrite Hk, bool_decide_eq_true_2. }
  destruct (step_Ok _ _ _ _ _ _ Hs) as [[_ [? [=]]]|(dv & Hap & Hout & _)].
  cbn in Hap. rewrite Hw in Hap. unfold age_over_thresholds in Hap. destruct (str_empty bd); [done|].
  destruct (parse_DateOnly bd) as [born|]; [|done]. case_bool_decide; [done|]. injection Hap as <-. exists born. split; [done|].
  assert (mget (l_out st) k = Some (GBool (bool_decide (t ≤ completed_years born (local_date now))))) as Hk'.
  { rewrite (loop_other now _ _ k _ _ _ Hl2' Hl2), Hout. unfold mergeReplacing. cbn [copyOutput copy_of omap list_omap head mbind option_bind].
    rewrite mget_MergeNestedClaims by apply age_entries_within. subst k. by rewrite age_entries_get. }
  unfold restoreProvedClaims. rewrite mget_restore by done. rewrite Hk, bool_decide_eq_false_2 by done.
  unfold MergeDerived. rewrite mget_MergeNestedClaims; [by rewrite Hk'|].
  apply (loop_NoDup now _ _ _ _ _ Hall). constructor.
Qed.
End proved.
