(* ===== verification/AuxiliaryData.v ===== *)
(** * Hash commitments that go with a credential

    [pkg/credential/primitives/hash_commitment.go] and [keyed_opening.go],
    [pkg/openid4vci/auxiliary_data.go] and [internal/apigw/apiv1/auxiliary_data.go]:
    the opening of a commitment is drawn or derived, its hash is written into the
    document of the credential, and the opening goes to the wallet; a commitment
    of the wallet is written likewise.  HKDF, HMAC, the file of the secret and the
    JSON text of a document are interfaces. *)

From stdpp Require Import pretty.
From S2P Require Import Prelude GoStrings GoValue Base64 Json Jwt SdJwt ClaimPaths Derivations.

(** ** Encodings *)

(** [strings.TrimRight(s, "=")] *)
Fixpoint trim_padding (s : string) : string :=
  match s with
  | EmptyString => EmptyString
  | String c s => match trim_padding s with
                  | EmptyString => if bool_decide (c = "="%char) then EmptyString else chr c
                  | t => String c t
                  end
  end.

(** [base64.StdEncoding.EncodeToString] *)
Definition url_to_std (c : Ascii.ascii) : Ascii.ascii :=
  if bool_decide (c = "-"%char) then "+"%char else if bool_decide (c = "_"%char) then "/"%char else c.
Fixpoint map_string (f : Ascii.ascii → Ascii.ascii) (s : string) : string :=
  match s with EmptyString => EmptyString | String c s => String (f c) (map_string f s) end.
Definition std64 (s : string) : string :=
  let t := map_string url_to_std (b64 s) in
  t +:+ match (String.length t mod 4)%nat with 2%nat => "==" | 3%nat => "=" | _ => "" end.

(** ** Openings *)

Class Keyed := {
  read_file : string → option string;
  hkdf_key : string → string → Z → option string;   (* secret, info, length *)
  hmac_sum : string → string → string               (* secret, message *)
}.

Definition check_length (lo hi n : Z) : bool := bool_decide (lo ≤ n) && bool_decide (n ≤ hi).
Definition maxField : N := 65535.
Definition slen (s : string) : N := N.of_nat (String.length s).

(** [uint16(len(field))] in two bytes, and the field. *)
Definition appendField (message field : string) : string :=
  let n := (slen field mod 65536)%N in
  message +:+ String (Ascii.ascii_of_N (n / 256)) (String (Ascii.ascii_of_N (n mod 256)) field).

Inductive keyed_function := hkdfSHA256 | hmacSHA256.
#[global] Instance keyed_function_eq_dec : EqDecision keyed_function.
Proof. solve_decision. Defined.
Definition label (f : keyed_function) : string :=
  match f with hkdfSHA256 => "vc/hash_commitment/hkdf/v1" | hmacSHA256 => "vc/hash_commitment/hmac/v1" end.
Definition max_length (f : keyed_function) : Z := match f with hkdfSHA256 => 64 | hmacSHA256 => 32 end.

Section openings.
Context `{Text} `{Keyed} `{Entropy}.

Definition base64url_Decode (value : string) : option string :=
  d ← unb64 (trim_padding (TrimSpace value)); if str_empty d then None else Some d.

Definition checkFieldValue (value : string) : bool :=
  negb (str_empty (TrimSpace value)) && bool_decide (slen value ≤ maxField)%N.

Definition message (f : keyed_function) (inputs : nat) (bytes : Z) (values : list string) : result derivation_error string :=
  if negb (bool_decide (length values = inputs)) then Err InvalidClaimInput else
  if negb (forallb checkFieldValue values) then Err InvalidClaimInput else
  Ok (foldl appendField (appendField (appendField "" (label f)) (pretty bytes)) values).

(** The secret, where the length is one the function produces. *)
Definition opening_key (f : keyed_function) (secretPath : string) (bytes : Z) : result derivation_error string :=
  if negb (check_length 16 (max_length f) bytes) then Err Misconfigured else
  match read_file secretPath ≫= base64url_Decode with
  | None => Err Misconfigured
  | Some secret => if bool_decide (String.length secret < 32)%nat then Err Misconfigured else Ok secret
  end.

Definition derive (f : keyed_function) (secret msg : string) (n : Z) : result derivation_error string :=
  match f with
  | hkdfSHA256 => match hkdf_key secret msg n with Some o => Ok o | None => Err Misconfigured end
  | hmacSHA256 => Ok (String.substring 0 (Z.to_nat n) (hmac_sum secret msg))
  end.

Definition OpenValues (f : keyed_function) (secretPath : string) (inputs : list string) (bytes : Z) (values : list string) :
    result derivation_error string :=
  msg ← message f (length inputs) bytes values;
  secret ← opening_key f secretPath bytes;
  derive f secret msg bytes.

Definition inputClaim (claims : gomap) (path : string) : result derivation_error string :=
  match lookupClaim claims path with Some (GString s) => Ok s | _ => Err InvalidClaimInput end.

Fixpoint input_claims (claims : gomap) (paths : list string) : result derivation_error (list string) :=
  match paths with
  | [] => Ok []
  | p :: paths => v ← inputClaim claims p; vs ← input_claims claims paths; Ok (v :: vs)
  end.

(** [open] of the generators; [i] counts the draws. *)
Definition open_generator (i : nat) (o : OpeningArgs) (claims : gomap) : result derivation_error string :=
  match o with
  | HKDF path inputs bytes => vs ← input_claims claims inputs; OpenValues hkdfSHA256 path inputs bytes vs
  | HMAC path inputs bytes => vs ← input_claims claims inputs; OpenValues hmacSHA256 path inputs bytes vs
  | RandomOpening bytes => match random_bytes i bytes with Some b => Ok b | None => Err Misconfigured end
  | ClaimOpening input =>
      v ← inputClaim claims input;
      match base64url_Decode v with
      | None => Err InvalidClaimInput
      | Some b => if check_length 16 64 (Z.of_nat (String.length b)) then Ok b else Err InvalidClaimInput
      end
  end.

Definition NewOpening (i : nat) (opening : list OpeningArgs) (claims : gomap) : result derivation_error string :=
  match opening with [o] => open_generator i o claims | _ => Err Misconfigured end.

Definition HashCommitmentFor (l : list Derivation) (path : list string) : option (list OpeningArgs) :=
  head (omap (fun d => '(p, o) ← hash_commitment_of d; if bool_decide (p = path) then Some o else None) l).

(** *** Two openings of one message are one *)

Fixpoint fields (l : list string) : string := match l with [] => "" | f :: l => appendField "" f +:+ fields l end.

Lemma appendField_app m f : appendField m f = m +:+ appendField "" f.
Proof. done. Qed.
Lemma foldl_fields l : ∀ m, foldl appendField m l = m +:+ fields l.
Proof.
  induction l as [|f l IH]; intros m; cbn [foldl fields]; [by rewrite append_empty_r|].
  by rewrite IH, appendField_app, append_assoc_str.
Qed.

Lemma append_inj_length (a b s t : string) : String.length a = String.length b → a +:+ s = b +:+ t → a = b ∧ s = t.
Proof.
  revert b. induction a as [|c a IH]; intros [|d b]; cbn; try done. intros [= El] E. rewrite !append_cons in E. injection E as <- E.
  destruct (IH b El E) as [-> ->]. done.
Qed.

Definition short (f : string) : Prop := (slen f ≤ maxField)%N.

Lemma field_cons f g r r' : short f → short g →
  appendField "" f +:+ r = appendField "" g +:+ r' → f = g ∧ r = r'.
Proof.
  unfold short, maxField. intros Hf Hg E. unfold appendField in E.
  rewrite (N.mod_small (slen f) 65536), (N.mod_small (slen g) 65536) in E by lia.
  cbn in E. injection E as E1 E2 E3.
  assert (slen f = slen g) as El.
  { apply (f_equal Ascii.N_of_ascii) in E1, E2.
    rewrite !Ascii.N_ascii_embedding in E1 by (apply N.Div0.div_lt_upper_bound; lia).
    rewrite !Ascii.N_ascii_embedding in E2 by (apply N.mod_lt; lia).
    rewrite (N.div_mod (slen f) 256), (N.div_mod (slen g) 256) by lia. lia. }
  apply append_inj_length; [unfold slen in El; lia|done].
Qed.

Lemma fields_inj l : ∀ l', Forall short l → Forall short l' → fields l = fields l' → l = l'.
Proof.
  induction l as [|f l IH]; intros [|g l'] Hl Hl' E; try done.
  inversion Hl; inversion Hl'; subst. cbn [fields] in E. apply field_cons in E as [-> E]; [|done..]. f_equal. by apply IH.
Qed.

Lemma message_fields f n b vs m : message f n b vs = Ok m →
  m = fields (label f :: pretty b :: vs) ∧ Forall short vs.
Proof.
  unfold message. destruct (negb _); [done|]. destruct (forallb checkFieldValue vs) eqn:Ev; [|done]. intros [= <-].
  split.
  - rewrite foldl_fields, (appendField_app (appendField "" _)), append_assoc_str. reflexivity.
  - apply Forall_forall. intros v Hv. rewrite forallb_forall in Ev.
    apply list_elem_of_In in Hv. apply Ev, andb_true_iff in Hv as [_ Hv]. by apply bool_decide_eq_true in Hv.
Qed.

(** Openings of different purposes, lengths or input values are derived from
    different messages: the text a keyed opening hashes determines the function,
    the length, how many values there are and each of them.  [checkFieldValue]
    keeps a value from wrapping the two bytes of its length. *)
Theorem opening_message_injective f f' n n' b b' vs vs' m :
  check_length 16 (max_length f) b = true → check_length 16 (max_length f') b' = true →
  message f n b vs = Ok m → message f' n' b' vs' = Ok m →
  f = f' ∧ b = b' ∧ vs = vs'.
Proof.
  intros Hb Hb' [E Hv]%message_fields [E' Hv']%message_fields. rewrite E in E'.
  assert (∀ f b, check_length 16 (max_length f) b = true → Forall short [label f; pretty b]) as Hs.
  { intros g z [Hlo Hhi]%andb_true_iff. apply bool_decide_eq_true in Hlo, Hhi. repeat constructor.
    - by destruct g; vm_compute.
    - assert (z ≤ 64) as Hz by (destruct g; cbn in Hhi; lia). clear Hhi.
      assert (∃ k : nat, z = Z.of_nat k ∧ (16 ≤ k ≤ 64)%nat) as (k & -> & Hk) by (exists (Z.to_nat z); lia).
      clear -Hk. do 65 (destruct k as [|k]; [first [lia|by vm_compute]|]). lia. }
  apply fields_inj in E'; [|by apply (Forall_app_2 short [label f; pretty b]); auto|by apply (Forall_app_2 short [label f'; pretty b']); auto].
  injection E' as E1 E2%(inj pretty) ->. split_and!; [|done|done]. by destruct f, f'.
Qed.
End openings.

(** ** Entries *)

Record AuxiliaryDataEntry := mkAuxEntry {
  ae_Type : string; ae_Alg : string; ae_Path : list string; ae_Opening : string; ae_Commitment : string;
  ae_Required : bool; ae_Encoding : string
}.
#[global] Instance AuxiliaryDataEntry_eq_dec : EqDecision AuxiliaryDataEntry.
Proof. solve_decision. Defined.

Record AuxiliaryDataSupported := mkAuxSupported { ToWallet : list AuxiliaryDataEntry; ToIssuer : list AuxiliaryDataEntry }.

(** The JSON text of a document's claims, and its decoding, where [null] is an
    empty document. *)
Class DocJSON := { marshal_doc : gomap → option string; decodeDocumentData : string → option gomap }.

Inductive aux_error :=
| AuxInvalidProof           (* the wallet's entries are refused *)
| AuxConflict               (* [ErrAuxiliaryDataConflict] *)
| AuxInput                  (* [ErrInvalidClaimInput] from an opening *)
| AuxServer.                (* any other error *)

Definition HashCommitmentAlgSHA256 := "sha-256".

(** How a format carries a commitment: as an element of an mdoc, or not. *)
Definition commitmentCarrierOf (format : string) : option bool :=
  if bool_decide (format = "mso_mdoc") then Some true else
  if bool_decide (format = "dc+sd-jwt") || bool_decide (format = "vc+sd-jwt") then Some false else None.

Definition EncodeCommitment (encoding commitment : string) : option string :=
  if bool_decide (encoding = "base64url") then Some (b64 commitment) else
  if bool_decide (encoding = "base64") then Some (std64 commitment) else
  if bool_decide (encoding = "hex") then Some (hex commitment) else None.

Definition claimText (mdoc : bool) (encoding commitment : string) : option string :=
  if negb (str_empty encoding) then EncodeCommitment encoding commitment else
  if mdoc then Some (std64 commitment) else None.

(** The walk of [parent] and the write of [setCommitment]. *)
Fixpoint put_commitment (fromWallet : bool) (text : string) (path : list string) (node : gomap) : result aux_error gomap :=
  match path with
  | [] => Err AuxServer
  | [key] =>
      match mget node key with
      | None | Some GNil => Ok (mset node key (GString text))
      | Some existing =>
          if negb fromWallet then Err AuxServer else
          match existing with
          | GString s => if bool_decide (s = text) then Ok node else Err AuxConflict
          | _ => Err AuxConflict
          end
      end
  | segment :: path =>
      match mget node segment with
      | Some (GMap child) => m ← put_commitment fromWallet text path child; Ok (mset node segment (GMap m))
      | None | Some GNil => m ← put_commitment fromWallet text path []; Ok (mset node segment (GMap m))
      | Some _ => Err AuxServer
      end
  end.

(** An mdoc keys a claim by its element identifier. *)
Definition claim_place (mdoc : bool) (path : list string) : list string :=
  if mdoc then match last path with Some key => [key] | None => [] end else path.

Definition setCommitment (mdoc : bool) (claims : gomap) (path : list string) (encoding commitment : string) (fromWallet : bool) :
    result aux_error gomap :=
  match claimText mdoc encoding commitment with
  | None => Err AuxServer
  | Some text => put_commitment fromWallet text (claim_place mdoc path) claims
  end.

Section deliver.
Context `{Text} `{Keyed} `{Entropy} `{Hashes}.

Definition hash_commitment (alg opening : string) : option string :=
  if str_empty opening then None else
  if bool_decide (alg = HashCommitmentAlgSHA256) then Some (hash_sum "sha-256" opening) else None.

Definition opening_error (e : derivation_error) : aux_error :=
  match e with InvalidClaimInput => AuxInput | Misconfigured => AuxServer end.

Fixpoint deliverOpenings (mdoc : bool) (i : nat) (entries : list AuxiliaryDataEntry) (derivations : list Derivation)
    (sourceClaims claims : gomap) : result aux_error (gomap * list AuxiliaryDataEntry) :=
  match entries with
  | [] => Ok (claims, [])
  | entry :: entries =>
      match HashCommitmentFor derivations (ae_Path entry) with
      | None => Err AuxServer
      | Some hc =>
          opening ← map_err opening_error (NewOpening i hc sourceClaims);
          match hash_commitment (ae_Alg entry) opening with
          | None => Err AuxServer
          | Some commitment =>
              claims ← setCommitment mdoc claims (ae_Path entry) (ae_Encoding entry) commitment false;
              '(claims, delivered) ← deliverOpenings mdoc (S i) entries derivations sourceClaims claims;
              Ok (claims, mkAuxEntry (ae_Type entry) (ae_Alg entry) (ae_Path entry) (b64 opening) "" false "" :: delivered)
          end
      end
  end.

(** *** Commitments of the wallet *)

Record walletCommitment := mkWalletCommitment { wc_path : list string; wc_encoding : string; wc_value : string }.

Definition entryLike (entries : list AuxiliaryDataEntry) (like : AuxiliaryDataEntry) : option AuxiliaryDataEntry :=
  List.find (fun e => bool_decide (ae_Type e = ae_Type like) && bool_decide (ae_Path e = ae_Path like)) entries.

Definition acceptedCommitment (toIssuer : list AuxiliaryDataEntry) (entry : AuxiliaryDataEntry) : result aux_error walletCommitment :=
  match entryLike toIssuer entry with
  | None => Err AuxInvalidProof
  | Some want =>
      if negb (bool_decide (ae_Alg entry = ae_Alg want)) then Err AuxInvalidProof else
      match unb64 (ae_Commitment entry) with
      | Some value =>
          if bool_decide (String.length value = 32%nat) then Ok (mkWalletCommitment (ae_Path entry) (ae_Encoding want) value)
          else Err AuxInvalidProof
      | None => Err AuxInvalidProof
      end
  end.

Fixpoint accepted_all (toIssuer fromWallet : list AuxiliaryDataEntry) : result aux_error (list walletCommitment) :=
  match fromWallet with
  | [] => Ok []
  | e :: fromWallet => c ← acceptedCommitment toIssuer e; cs ← accepted_all toIssuer fromWallet; Ok (c :: cs)
  end.

Definition walletCommitments (toIssuer fromWallet : list AuxiliaryDataEntry) : result aux_error (list walletCommitment) :=
  cs ← accepted_all toIssuer fromWallet;
  if forallb (fun want => negb (ae_Required want) || match entryLike fromWallet want with Some _ => true | None => false end) toIssuer
  then Ok cs else Err AuxInvalidProof.

Fixpoint writeCommitments (mdoc : bool) (claims : gomap) (cs : list walletCommitment) : result aux_error gomap :=
  match cs with
  | [] => Ok claims
  | c :: cs => claims ← setCommitment mdoc claims (wc_path c) (wc_encoding c) (wc_value c) true; writeCommitments mdoc claims cs
  end.

Context `{DocJSON}.

Definition or_server {A} (o : option A) : result aux_error A := match o with Some a => Ok a | None => Err AuxServer end.

Definition applyAuxiliaryData (supported : AuxiliaryDataSupported) (format : string) (derivations : list Derivation)
    (sourceClaims : gomap) (documentData : string) (fromWallet : list AuxiliaryDataEntry) :
    result aux_error (string * list AuxiliaryDataEntry) :=
  commitments ← walletCommitments (ToIssuer supported) fromWallet;
  match ToWallet supported, commitments with
  | [], [] => Ok (documentData, [])
  | _, _ =>
      mdoc ← or_server (commitmentCarrierOf format);
      claims ← or_server (decodeDocumentData documentData);
      '(claims, toWallet) ← deliverOpenings mdoc 0 (ToWallet supported) derivations sourceClaims claims;
      claims ← writeCommitments mdoc claims commitments;
      out ← or_server (marshal_doc claims);
      Ok (out, toWallet)
  end.

(** ** The openings open the commitments *)

(** A text at a place is never taken away by another commitment. *)
Lemma put_same fw text p : ∀ node node', put_commitment fw text p node = Ok node' → walkPath (GMap node') p = Some (GString text).
Proof.
  induction p as [|k p IH]; intros node node'; [done|]. destruct p as [|k2 p].
  { cbn. destruct (mget node k) as [v|] eqn:Ek; [destruct v; try (destruct fw; done)|];
      try (intros [= <-]; by rewrite mget_mset_eq).
    destruct fw; [|done]. cbn. case_bool_decide; [|done]. intros [= <-]. rewrite Ek. by subst. }
  change (put_commitment fw text (k :: k2 :: p) node) with
    (match mget node k with
     | Some (GMap child) => m ← put_commitment fw text (k2 :: p) child; Ok (mset node k (GMap m))
     | None | Some GNil => m ← put_commitment fw text (k2 :: p) []; Ok (mset node k (GMap m))
     | Some _ => Err AuxServer
     end).
  intros Hp. assert (∃ c m, put_commitment fw text (k2 :: p) c = Ok m ∧ node' = mset node k (GMap m)) as (c & m & Hm & ->).
  { destruct (mget node k) as [[]|]; try done; apply bind_Ok in Hp as (m' & Hm & [= <-]); eauto. }
  cbn [walkPath]. rewrite mget_mset_eq. cbn [mbind option_bind]. by eapply IH.
Qed.

Lemma put_keeps fw text p : ∀ node node' q s,
  put_commitment fw text p node = Ok node' → walkPath (GMap node) q = Some (GString s) → walkPath (GMap node') q = Some (GString s).
Proof.
  induction p as [|k p IH]; intros node node' q s; [done|]. destruct q as [|k' q]; [done|]. cbn [walkPath].
  destruct p as [|k2 p].
  { cbn. destruct (mget node k) as [v|] eqn:Ek.
    - destruct v; try (destruct fw; done).
      + intros [= <-]. rewrite mget_mset. case_bool_decide; [|done]. subst k'. rewrite Ek. cbn. by destruct q.
      + destruct fw; [|done]. cbn. case_bool_decide; [|done]. by intros [= <-].
    - intros [= <-]. rewrite mget_mset. case_bool_decide; [|done]. subst k'. by rewrite Ek. }
  change (put_commitment fw text (k :: k2 :: p) node) with
    (match mget node k with
     | Some (GMap child) => m ← put_commitment fw text (k2 :: p) child; Ok (mset node k (GMap m))
     | None | Some GNil => m ← put_commitment fw text (k2 :: p) []; Ok (mset node k (GMap m))
     | Some _ => Err AuxServer
     end).
  intros Hp. destruct (decide (k = k')) as [<-|Hne].
  - destruct (mget node k) as [[]|] eqn:Ek; try done; apply bind_Ok in Hp as (m' & Hm & [= <-]);
      rewrite mget_mset_eq; cbn [mbind option_bind]; [by destruct q|by apply (IH _ _ _ _ Hm)].
  - intros Hq. assert (∃ m, node' = mset node k (GMap m)) as [m ->].
    { destruct (mget node k) as [[]|]; try done; apply bind_Ok in Hp as (m' & Hm & [= <-]); eauto. }
    by rewrite mget_mset_ne.
Qed.

(** The document carries the commitment to [opening] that the entry asks for. *)
Definition carries (mdoc : bool) (claims : gomap) (want : AuxiliaryDataEntry) (opening : string) : Prop :=
  ∃ text, claimText mdoc (ae_Encoding want) (hash_sum "sha-256" opening) = Some text ∧
    walkPath (GMap claims) (claim_place mdoc (ae_Path want)) = Some (GString text).

Lemma set_keeps mdoc claims path enc c fw claims' want o :
  setCommitment mdoc claims path enc c fw = Ok claims' → carries mdoc claims want o → carries mdoc claims' want o.
Proof.
  unfold setCommitment. destruct (claimText mdoc enc c); [|done]. intros Hp (text & Ht & Hw). exists text. split; [done|].
  by eapply put_keeps.
Qed.

Lemma write_keeps mdoc cs : ∀ claims claims' want o,
  writeCommitments mdoc claims cs = Ok claims' → carries mdoc claims want o → carries mdoc claims' want o.
Proof.
  induction cs as [|c cs IH]; intros claims claims' want o; cbn; [by intros [= <-]|].
  intros (m & Hm & Hw)%bind_Ok Hc. apply (IH _ _ _ _ Hw). by eapply set_keeps.
Qed.

Lemma deliver_keeps mdoc entries derivs src : ∀ i claims claims' out want o,
  deliverOpenings mdoc i entries derivs src claims = Ok (claims', out) → carries mdoc claims want o → carries mdoc claims' want o.
Proof.
  induction entries as [|e entries IH]; intros i claims claims' out want o; cbn; [by intros [= <- <-]|].
  destruct (HashCommitmentFor derivs _) as [hc|]; [|done]. intros (op & _ & Hd)%bind_Ok.
  destruct (hash_commitment _ op) as [c|]; [|done]. apply bind_Ok in Hd as (m & Hm & Hd).
  apply bind_Ok in Hd as ([m' out'] & Hd & [= <- <-]). intros Hc. apply (IH _ _ _ _ _ _ Hd). by eapply set_keeps.
Qed.

(** Each entry sent to the wallet beside the one it answers, with its opening. *)
Definition answers (mdoc : bool) (claims : gomap) (want sent : AuxiliaryDataEntry) : Prop :=
  ae_Path sent = ae_Path want ∧ ae_Alg sent = HashCommitmentAlgSHA256 ∧
  ∃ opening, opening ≠ "" ∧ unb64 (ae_Opening sent) = Some opening ∧ carries mdoc claims want opening.

Lemma deliver_answers mdoc entries derivs src : ∀ i claims claims' out,
  deliverOpenings mdoc i entries derivs src claims = Ok (claims', out) → Forall2 (answers mdoc claims') entries out.
Proof.
  induction entries as [|e entries IH]; intros i claims claims' out; cbn; [by intros [= <- <-]|].
  destruct (HashCommitmentFor derivs _) as [hc|]; [|done]. intros (op & _ & Hd)%bind_Ok.
  destruct (hash_commitment _ op) as [c|] eqn:Ehc; [|done]. apply bind_Ok in Hd as (m & Hm & Hd).
  apply bind_Ok in Hd as ([m' out'] & Hd & [= <- <-]). constructor; [|by eapply IH].
  unfold hash_commitment in Ehc. destruct (str_empty op) eqn:Eo; [done|]. case_bool_decide as Ea; [|done]. injection Ehc as <-.
  split; [done|]. split; [done|]. exists op. split; [by apply str_empty_false|]. split; [apply unb64_b64|].
  apply (deliver_keeps _ _ _ _ _ _ _ _ _ _ Hd). unfold setCommitment in Hm.
  destruct (claimText mdoc (ae_Encoding e) _) as [text|] eqn:Et; [|done]. exists text. split; [done|]. by eapply put_same.
Qed.

(** C28: the openings the wallet gets with a credential open the commitments in it:
    for every entry the configuration announces one entry is sent, for the same
    claim, and the document to be signed holds at that claim the hash of the
    opening, in the encoding the configuration names. *)
Theorem openings_open_commitments supported format derivs src documentData fromWallet out toWallet :
  applyAuxiliaryData supported format derivs src documentData fromWallet = Ok (out, toWallet) →
  ToWallet supported ≠ [] →
  ∃ mdoc claims, commitmentCarrierOf format = Some mdoc ∧ marshal_doc claims = Some out ∧
    Forall2 (answers mdoc claims) (ToWallet supported) toWallet.
Proof.
  unfold applyAuxiliaryData. intros (cs & _ & Ha)%bind_Ok Hne.
  destruct (ToWallet supported) as [|e es] eqn:Et; [done|]. rewrite <- Et in *.
  apply bind_Ok in Ha as (mdoc & Hm & Ha). apply bind_Ok in Ha as (claims0 & _ & Ha).
  apply bind_Ok in Ha as ([claims1 tw] & Hd & Ha). apply bind_Ok in Ha as (claims2 & Hw & Ha).
  apply bind_Ok in Ha as (out' & Ho & [= <- <-]). exists mdoc, claims2.
  destruct (commitmentCarrierOf format); [|done]. destruct (marshal_doc claims2) eqn:Em; [|done]. injection Hm as ->. injection Ho as ->.
  split_and!; [done|done|]. eapply Forall2_impl; [by eapply deliver_answers|]. intros want sent (Hp & Hal & o & Ho & Hu & Hc).
  split; [done|]. split; [done|]. exists o. split; [done|]. split; [done|]. by eapply write_keeps.
Qed.
End deliver.
