(* ===== verification/ClaimsWitness.v ===== *)
(** * Witnesses for claim documents

    The theorems on filtering, derived claims and commitments applied to one
    document of a person, with text, calendar, random source and keyed functions
    that are simple enough to evaluate. *)

From stdpp Require Import pretty.
From S2P Require Import Prelude GoStrings GoValue Base64 Json Jwt SdJwt SdJwtIssue SdJwtWitness ClaimPaths Derivations AuxiliaryData.

(** ** Instances *)

#[export] Instance plain_text : Text := {| ToLower s := s; ToUpper s := s; TrimSpace s := s |}.
#[export] Instance two_countries : Countries := {| ByName s := if bool_decide (s = "Sweden") then Some ("SE", "SWE") else None |}.
#[export] Instance june_first : LocalTime := {| local_date _ := mkDate 2024 6 1 |}.
#[export] Instance fixed_draws : Entropy := {|
  random_uuid _ := Some "00000000-0000-4000-8000-000000000000";
  random_bytes _ n := Some "0123456789abcdef"
|}.
#[export] Instance toy_keyed : Keyed := {|
  read_file _ := Some "MDEyMzQ1Njc4OWFiY2RlZjAxMjM0NTY3ODlhYmNkZWY";
  hkdf_key secret info n := Some (secret +:+ info);
  hmac_sum secret msg := secret +:+ msg
|}.
(** The document that was written, whatever the text. *)
Definition person_doc : gomap := [("given_name", GString "Ada"); ("birth_date", GString "2010-05-01"); ("raw", GString "19700101")].
#[export] Instance one_doc : DocJSON := {| marshal_doc _ := Some "{}"; decodeDocumentData _ := Some person_doc |}.

Definition now_2024 : Z := midnight (mkDate 2024 6 1).

(** ** Filtering *)

Definition address_doc : gomap :=
  [("address", GMap [("city", GString "Uppsala"); ("street", GString "Main")]);
   ("nationalities", GStrings ["SE"; "DK"]); ("secret", GString "x")].
Definition address_vctm : VCTM := mkVCTM "address"
  [mkVctmClaim [Some "address"; Some "city"] "" false; mkVctmClaim [Some "nationalities"; None] "" false].

Example filter_evaluates :
  FilterAgainstVCTM address_doc (Some address_vctm) =
  [("address", GMap [("city", GString "Uppsala")]); ("nationalities", GArr [GString "SE"; GString "DK"])].
Proof. reflexivity. Qed.

Definition city_path : list pstep := [Field "address"; Field "city"].

Lemma city_inside doc m :
  mget doc "address" = Some (GMap m) → mget m "city" = Some (GString "Uppsala") → inside (GMap doc) city_path (GString "Uppsala").
Proof. intros H1 H2. eapply inside_field; [exact H1|]. eapply inside_field; [exact H2|]. constructor. Qed.

Lemma filter_no_leak_witness :
  inside (GMap address_doc) city_path (GString "Uppsala") ∧
  ∃ c q, c ∈ vctm_Claims address_vctm ∧ declared_path c = Some q ∧ q `prefix_of` (step_key <$> city_path).
Proof.
  apply (filter_no_leak address_doc address_vctm city_path (GString "Uppsala")); [|reflexivity].
  eapply city_inside; reflexivity.
Defined.

Lemma filter_keeps_declared_witness :
  inside (GMap (FilterAgainstVCTM address_doc (Some address_vctm))) [Field "nationalities"; Element] (GString "DK").
Proof.
  apply (filter_keeps_declared address_doc address_vctm (mkVctmClaim [Some "nationalities"; None] "" false)).
  - right. left.
  - reflexivity.
  - intros Hin. apply list_elem_of_In in Hin. cbn in Hin. destruct Hin as [[=]|[[=]|[]]].
  - eapply inside_field; [reflexivity|]. eapply inside_string; [right; left|]. constructor.
  - reflexivity.
Defined.

(** ** Derived claims *)

(** One derivation computes a date of birth from another field, the next reads it. *)
Definition dates : list Derivation := [[YYYYMMDDToISO "raw" "birth_date"]; [AgeOverThresholds "birth_date" [18]]].

Example dates_unpinned :
  derive_document dates now_2024 person_doc [] =
  Ok [("given_name", GString "Ada"); ("birth_date", GString "1970-01-01"); ("raw", GString "19700101");
      ("age_over_18", GBool true); ("over_18_this_year", GBool true)].
Proof. vm_compute. reflexivity. Qed.

Definition pinned_doc : gomap :=
  [("given_name", GString "Ada"); ("birth_date", GString "2010-05-01"); ("raw", GString "19700101");
   ("age_over_18", GBool false); ("over_18_this_year", GBool false)].

Lemma presented_claims_win_witness : mget pinned_doc "birth_date" = Some (GString "2010-05-01").
Proof.
  apply (presented_claims_win dates now_2024 person_doc ["birth_date"] pinned_doc "birth_date" (GString "2010-05-01")).
  - vm_compute. reflexivity.
  - left.
  - reflexivity.
Defined.

Lemma derived_age_witness :
  ∃ born, parse_DateOnly "2010-05-01" = Some born ∧
    mget pinned_doc ("age_over_" +:+ pretty 18) = Some (GBool (bool_decide (18 ≤ completed_years born (local_date now_2024)))).
Proof.
  apply (derived_age_of_presented [[YYYYMMDDToISO "raw" "birth_date"]] [] now_2024 person_doc ["birth_date"] pinned_doc
           "birth_date" [18] "2010-05-01" 18).
  - vm_compute. reflexivity.
  - left.
  - reflexivity.
  - left.
  - intros Hin. apply list_elem_of_In in Hin. destruct Hin as [E|[]]. revert E. vm_compute. discriminate.
  - constructor.
Defined.

(** ** Commitments *)

Definition hkdf_message : string :=
  fields [label hkdfSHA256; "16"; "SE"; "19900101"].

Lemma opening_message_injective_witness :
  hkdfSHA256 = hkdfSHA256 ∧ (16 = 16)%Z ∧ ["SE"; "19900101"] = ["SE"; "19900101"].
Proof.
  apply (opening_message_injective hkdfSHA256 hkdfSHA256 2 2 16 16 ["SE"; "19900101"] ["SE"; "19900101"] hkdf_message);
    vm_compute; reflexivity.
Defined.

Definition ssc_entry : AuxiliaryDataEntry :=
  mkAuxEntry "hash_commitment" HashCommitmentAlgSHA256 ["nym"; "ssc"] "" "" false "base64url".
Definition ssc_supported : AuxiliaryDataSupported := mkAuxSupported [ssc_entry] [].
Definition ssc_derivations : list Derivation := [[HashCommitment ["nym"; "ssc"] [RandomOpening 16]]].
Definition ssc_sent : AuxiliaryDataEntry :=
  mkAuxEntry "hash_commitment" HashCommitmentAlgSHA256 ["nym"; "ssc"] (b64 "0123456789abcdef") "" false "".

Lemma openings_open_commitments_witness :
  ∃ mdoc claims, commitmentCarrierOf "dc+sd-jwt" = Some mdoc ∧ marshal_doc claims = Some "{}" ∧
    Forall2 (answers mdoc claims) (ToWallet ssc_supported) [ssc_sent].
Proof.
  apply (openings_open_commitments ssc_supported "dc+sd-jwt" ssc_derivations person_doc "{}" [] "{}" [ssc_sent]).
  - vm_compute. reflexivity.
  - discriminate.
Defined.

(** The commitment is where the entry says, and is not where a value stands already. *)
Example ssc_written :
  setCommitment false person_doc ["nym"; "ssc"] "hex" "ab" false =
  Ok (person_doc ++ [("nym", GMap [("ssc", GString "6162")])])%list.
Proof. reflexivity. Qed.
Example ssc_refused : setCommitment false person_doc ["given_name"] "hex" "ab" false = Err AuxServer.
Proof. reflexivity. Qed.
