(* ===== verification/VpToken.v ===== *)
(** * Presentation tokens

    What a verifier makes of the [vp_token] of an OpenID4VP response:
    [pkg/openid4vp] ([response_parameters.go], [validator.go],
    [ts12_response.go] and the hashes of [request_object.go]) checks that the
    holder presents it, here and now, for this request and for the transactions
    of the request; [pkg/trust/jwt_verifier.go] checks that a trusted issuer
    signed it.  Log lines and the texts of errors are left out.

    The decoding of JSON text into structs, the certificates and keys of a
    header, the resolution of keys and the trust decision are interfaces. *)

From Stdlib Require Import SpecFloat.
From S2P Require Import Prelude Bytes GoStrings Base64 GoValue Utf8 Json Jwt SdJwt SdJwtVerify Derivations.

(** ** Responses *)

Record VPResponse := mkVPResponse { vp_Tokens : gmap string (list string); vp_State : string }.

Inductive response_error := NoState | NoVPToken | BadTokens | BadVPToken.

(** [json.Unmarshal] into a [string]: null leaves it empty. *)
Definition json_string (v : json) : option string :=
  match v with JStr s => Some s | JNull => Some "" | _ => None end.
(** and into a [[]string]. *)
Definition json_strings (v : json) : option (list string) :=
  match v with JArr l => mapM json_string l | JNull => Some [] | _ => None end.

(** The tokens under one key. *)
Definition tokens_of (v : json) : option (list string) :=
  match json_string v with
  | Some s => if str_empty s then None else Some [s]
  | None =>
      match json_strings v with
      | Some ((_ :: _) as arr) => if existsb str_empty arr then None else Some arr
      | _ => None
      end
  end.

(** [UnmarshalJSON], from the two members of the response. *)
Definition UnmarshalVPResponse (raw_token : option json) (state : string) : result response_error VPResponse :=
  if str_empty state then Err NoState else
  match raw_token with
  | None => Err NoVPToken
  | Some JNull => Err NoVPToken
  | Some (JObj obj) =>
      match sequence_map (tokens_of <$> obj) with
      | None => Err BadTokens
      | Some m => if bool_decide (m = ∅) then Err NoVPToken else Ok (mkVPResponse m state)
      end
  | Some (JStr s) => if str_empty s then Err NoVPToken else Ok (mkVPResponse {[ "_default" := [s] ]} state)
  | Some _ => Err BadVPToken
  end.

(** ** Transaction data *)

(** A [transaction_data] entry as the struct of the decoder reads it: its type,
    its credential ids and the raw list of algorithms. *)
Class TxJSON := { unmarshal_tx : string → option (string * list string * option json) }.

Record decodedTransactionData := mkTx {
  tx_Raw : string; tx_Type : string; tx_CredentialIDs : list string; tx_HashAlgs : list string; tx_HasAlgList : bool
}.

Definition TransactionDataHashAlgDefault := "sha-256".
Definition TS12TypePrefix := "urn:eudi:sca:".

Definition ts12AMRVocabulary (category : string) : option (list string) :=
  if bool_decide (category = "knowledge") then
    Some ["pin_less_than_6_digits"; "pin_6_or_more_digits"; "passphrase_less_than_8_chars"; "passphrase_8_to_11_chars";
          "passphrase_12_or_more_chars"; "pattern"; "other"]
  else if bool_decide (category = "possession") then
    Some ["key_in_remote_wscd"; "key_in_local_external_wscd"; "key_in_local_internal_wscd"; "key_in_local_native_wscd"; "other"]
  else if bool_decide (category = "inherence") then
    Some ["fingerprint_device"; "fingerprint_external"; "face_device"; "face_external"; "other"]
  else None.

Section transactions.
Context `{Hashes} `{TxJSON} `{Text}.

Definition decodeTransactionDataEntry (raw : string) : option decodedTransactionData :=
  b ← unb64 raw;
  '(typ, ids, algs) ← unmarshal_tx b;
  if str_empty typ then None else
  match algs with
  | None | Some JNull => Some (mkTx raw typ ids [] false)
  | Some v => l ← json_strings v;
              if bool_decide (l = []) then None else Some (mkTx raw typ ids l true)
  end.

Definition decodeTransactionData (raw : list string) : option (list decodedTransactionData) := mapM decodeTransactionDataEntry raw.

Definition refers (queryID : string) (d : decodedTransactionData) : bool := bool_decide (queryID ∈ tx_CredentialIDs d).

Definition TransactionDataForCredential (raw : list string) (queryID : string) : option (list string) :=
  dec ← decodeTransactionData raw; Some (map tx_Raw (List.filter (refers queryID) dec)).

Definition UncoveredTransactionData (raw answeredQueryIDs : list string) : option (list string) :=
  dec ← decodeTransactionData raw;
  Some (map tx_Raw (List.filter (fun d => negb (existsb (fun id => bool_decide (id ∈ answeredQueryIDs)) (tx_CredentialIDs d))) dec)).

Definition entry_algs (e : decodedTransactionData) : list string :=
  if tx_HasAlgList e then tx_HashAlgs e else [TransactionDataHashAlgDefault].
Definition allowedHashAlgs (entries : list decodedTransactionData) : list string :=
  match entries with
  | [] => []
  | e :: entries => foldl (fun allowed e => List.filter (fun a => bool_decide (a ∈ entry_algs e)) allowed) (entry_algs e) entries
  end.

Definition newHash (alg : string) : option (string → string) :=
  if bool_decide (alg ∈ ["sha-256"; "sha-384"; "sha-512"]) then Some (hash_sum alg) else None.
Definition HashTransactionData (txData : list string) (hashAlg : string) : option (list string) :=
  h ← newHash hashAlg; Some (map (digest h) txData).

(** The categories the members of [amr] name; [None] when one is refused. *)
Definition amr_category (item : json) : option string :=
  match item with
  | JObj obj =>
      match map_to_list obj with
      | [(category, JStr s)] =>
          vocab ← ts12AMRVocabulary category; if bool_decide (s ∈ vocab) then Some category else None
      | _ => None
      end
  | _ => None
  end.

(** [validateTS12Claims]: the [jti] to record. *)
Definition validateTS12Claims (responseModes : list string) (kb : jobject) : option string :=
  match kb !! "amr" with
  | Some (JArr ((_ :: _) as amr)) =>
      categories ← mapM amr_category amr;
      if bool_decide (size (list_to_set (C := gset string) categories) < 2)%nat then None else
      match kb !! "response_mode" with
      | Some (JStr rm) =>
          if str_empty rm then None else
          if negb (bool_decide (rm ∈ responseModes)) then None else
          match kb !! "jti" with
          | Some (JStr jti) => if str_empty (TrimSpace jti) then None else Some jti
          | _ => None
          end
      | _ => None
      end
  | _ => None
  end.
End transactions.

(** ** The holder *)

Record VPTokenValidator := mkValidator {
  v_Nonce : string;
  v_ClientID : string;
  v_ValidateFormat : bool;
  v_TransactionData : list string;
  v_CredentialQueryID : string;
  v_ResponseModes : list string;
  v_MaxKeyBindingAge : Z
}.

Definition keyBindingClockSkew : Z := 30 * second.
Definition defaultMaxKeyBindingAge : Z := 10 * minute.

(** [a.Sub(b)]: the nearest duration. *)
Definition time_Sub (a b : Z) : Z := Z.max (- 2 ^ 63) (Z.min (2 ^ 63 - 1) (a - b)).

Inductive vp_error :=
| VPFormat (e : parse_failure)
| VPNoBinding | VPNoCnf | VPNoJWK | VPHolderKey | VPNotSigned (e : jwt_error) | VPTyp (typ : string)
| VPIat | VPNoIat | VPFuture | VPStale | VPSdAlg | VPSdHash
| VPBindingText | VPNoNonce | VPNonce | VPNoAudience | VPAudience
| VPTransaction.

(** [s[:strings.LastIndex(s, c)+1]] *)
Fixpoint through_last (c : Ascii.ascii) (s : string) : option string :=
  match s with
  | EmptyString => None
  | String d s =>
      match through_last c s with
      | Some t => Some (String d t)
      | None => if bool_decide (d = c) then Some (chr d) else None
      end
  end.

Section validate.
Context `{JSON} `{Arch} `{Hashes} `{Sig : Signatures} `{!SdEnv} `{TxJSON} `{Text}.

Definition validateKeyBindingAge (v : VPTokenValidator) (claims : jobject) (now : Z) : result vp_error unit :=
  match parseNumericDate claims "iat" with
  | Err _ => Err VPIat
  | Ok None => Err VPNoIat
  | Ok (Some iat) =>
      let maxAge := if bool_decide (v_MaxKeyBindingAge v ≤ 0) then defaultMaxKeyBindingAge else v_MaxKeyBindingAge v in
      if bool_decide (now + keyBindingClockSkew < iat) then Err VPFuture else
      if bool_decide (wrap64 (maxAge + keyBindingClockSkew) < time_Sub now iat) then Err VPStale else Ok tt
  end.

(** Read from the payload again: the parsed claims no longer have it. *)
Definition issuerSDAlg (vpToken : string) : option string :=
  match Token_Split vpToken with
  | Err _ => None
  | Ok (_, body, _, _, _) =>
      claims ← unb64 body ≫= UnmarshalMap;
      match claims !! "_sd_alg" with
      | None => Some "sha-256"
      | Some (JStr sdAlg) => if str_empty sdAlg then None else Some sdAlg
      | Some _ => None
      end
  end.

Definition kb_text (kb : list string) : string := Join "." kb.

(** The key in [cnf] of the claims. *)
Definition holder_key (claims : jobject) : result vp_error sig_key :=
  match claims !! "cnf" with
  | Some (JObj cnf) =>
      match cnf !! "jwk" with
      | Some (JObj jwk) =>
          match ParseJWKToPublicKey jwk with
          | Some key => if bool_decide (key_type_of key = KOther) then Err VPHolderKey else Ok key
          | None => Err VPHolderKey
          end
      | _ => Err VPNoJWK
      end
  | _ => Err VPNoCnf
  end.

Definition validateHolderBinding (v : VPTokenValidator) (vpToken : string) (parsed : ParsedCredential) (now : Z) : result vp_error unit :=
  match KeyBinding parsed with
  | None | Some [] => Err VPNoBinding
  | Some kb =>
      holderKey ← holder_key (ParsedClaims parsed);
      token ← map_err VPNotSigned (Parse None (fun _ => Some holderKey) None (kb_text kb));
      let typ := str_field (Header token) "typ" in
      if negb (bool_decide (typ = "kb+jwt")) then Err (VPTyp typ) else
      _ ← validateKeyBindingAge v (Claims token) now;
      match issuerSDAlg vpToken ≫= getHashFromAlgorithm with
      | None => Err VPSdAlg
      | Some h =>
          if bool_decide (str_field (Claims token) "sd_hash" = digest h (default vpToken (through_last "~" vpToken)))
          then Ok tt else Err VPSdHash
      end
  end.

Definition parseKeyBindingJWT (kbJWT : string) : result vp_error jobject :=
  match Split "." kbJWT with
  | [_; payload; _] => match unb64 payload ≫= UnmarshalMap with Some claims => Ok claims | None => Err VPBindingText end
  | _ => Err VPBindingText
  end.

Definition validateNonce (v : VPTokenValidator) (parsed : ParsedCredential) : result vp_error unit :=
  match KeyBinding parsed with
  | None | Some [] => Err VPNoBinding
  | Some kb =>
      claims ← parseKeyBindingJWT (kb_text kb);
      match claims !! "nonce" with
      | Some (JStr nonce) => if bool_decide (nonce = v_Nonce v) then Ok tt else Err VPNonce
      | _ => Err VPNoNonce
      end
  end.

Definition validateAudience (v : VPTokenValidator) (parsed : ParsedCredential) : result vp_error unit :=
  match KeyBinding parsed with
  | None | Some [] => Err VPNoBinding
  | Some kb =>
      claims ← parseKeyBindingJWT (kb_text kb);
      match claims !! "aud" with
      | Some (JStr aud) => if bool_decide (aud = v_ClientID v) then Ok tt else Err VPAudience
      | _ => Err VPNoAudience
      end
  end.

(** The entries this presentation has to commit to. *)
Definition scoped_entries (v : VPTokenValidator) : option (list decodedTransactionData) :=
  entries ← decodeTransactionData (v_TransactionData v);
  Some (if str_empty (v_CredentialQueryID v) then entries else List.filter (refers (v_CredentialQueryID v)) entries).

Definition hash_alg (kbClaims : jobject) (entries : list decodedTransactionData) : option string :=
  match kbClaims !! "transaction_data_hashes_alg" with
  | Some (JStr s) => if str_empty s then None else Some s
  | Some _ => None
  | None => if existsb tx_HasAlgList entries then None else Some TransactionDataHashAlgDefault
  end.

(** [validateTransactionData]: the [jti] of a payment, if it is one. *)
Definition validateTransactionData (v : VPTokenValidator) (parsed : ParsedCredential) : result vp_error (option string) :=
  match KeyBinding parsed with
  | None | Some [] => Err VPNoBinding
  | Some kb =>
      match scoped_entries v with
      | None => Err VPTransaction
      | Some [] => Ok None
      | Some entries =>
          kbClaims ← parseKeyBindingJWT (kb_text kb);
          match hash_alg kbClaims entries with
          | None => Err VPTransaction
          | Some hashAlg =>
              if negb (bool_decide (hashAlg ∈ allowedHashAlgs entries)) then Err VPTransaction else
              match kbClaims !! "transaction_data_hashes", HashTransactionData (map tx_Raw entries) hashAlg with
              | Some (JArr hashesRaw), Some expected =>
                  if negb (bool_decide (mapM as_str hashesRaw = Some expected)) then Err VPTransaction else
                  if existsb (fun e => HasPrefix TS12TypePrefix (tx_Type e)) entries
                  then match validateTS12Claims (v_ResponseModes v) kbClaims with Some jti => Ok (Some jti) | None => Err VPTransaction end
                  else Ok None
              | _, _ => Err VPTransaction
              end
          end
      end
  end.

(** [Validate]: the [PresentedJTI], empty as [None].  The checks of revocation and
    of the query accept everything, as does that of a presentation without
    claims, which the missing [cnf] refuses. *)
Definition Validate (fuel : nat) (v : VPTokenValidator) (vpToken : string) (now : Z) : result vp_error (option string) :=
  parsed ← map_err VPFormat (Token_Parse fuel vpToken);
  _ ← validateHolderBinding v vpToken parsed now;
  _ ← (if str_empty (v_Nonce v) then Ok tt else validateNonce v parsed);
  _ ← (if str_empty (v_ClientID v) then Ok tt else validateAudience v parsed);
  jti ← (if bool_decide (v_TransactionData v = []) then Ok None else validateTransactionData v parsed);
  _ ← (if v_ValidateFormat v then map_err VPFormat (Token_Parse fuel vpToken) ≫= (fun _ => Ok tt) else Ok tt);
  Ok jti.

Definition ValidateVPToken (fuel : nat) (vpToken nonce clientID : string) (now : Z) : result vp_error (option string) :=
  Validate fuel (mkValidator nonce clientID true [] "" [] 0) vpToken now.
End validate.

(** ** The issuer *)

(** What a key was taken from. *)
Section trust.
Context `{JSON} `{Arch} `{Sig : Signatures} `{!SdEnv}.

Inductive key_material := MChain (chain : list cert) | MJwk (jwk : jobject) | MResolved (key : sig_key).

Record JWTKeyMaterial := mkKeyMaterial { km_Material : key_material; km_PublicKey : sig_key; km_IssuerID : string }.

(** What a decision is asked for: the subject, the key and the type. *)
Record EvaluationRequest := mkEvaluation { ev_SubjectID : string; ev_Key : key_material; ev_CredentialType : string }.

(** The functions are [None] where they are not configured; [ResolveKey] is when
    the evaluator resolves no keys. *)
Record JWTTrustVerifier := mkTrustVerifier {
  tv_Evaluate : option (EvaluationRequest → option bool);
  tv_ResolveKey : option (string → option sig_key);
  tv_ResolveKeyByKID : option (string → string → option (sig_key * jobject));
  tv_allowedAlgs : list string;
  tv_parseX5C : option (json → option (list cert));
  tv_parseJWK : option (jobject → option sig_key)
}.

Inductive trust_error := TNoEvaluator | TEmpty | TSignature (e : jwt_error) | TEvaluation | TNotTrusted.

Definition DefaultAllowedAlgorithms : list string :=
  ["ES256"; "ES384"; "ES512"; "RS256"; "RS384"; "RS512"; "PS256"; "PS384"; "PS512"; "EdDSA"].

Definition BuildAllowedAlgorithmSet (allowedAlgorithms : list string) : gset string :=
  list_to_set (if bool_decide (allowedAlgorithms = []) then DefaultAllowedAlgorithms else allowedAlgorithms)
    ∖ list_to_set ["none"; "None"; "NONE"].

Definition ValidateSigningMethodForKey (t : Token) (publicKey : sig_key) : bool :=
  match key_type_of publicKey, Method t with
  | KEcdsa, MEcdsa | KRsa, MRsa | KRsa, MRsaPss | KEd25519, MEd25519 => true
  | _, _ => false
  end.

Definition ExtractJWTClaimsInfo (t : Token) : string * string := (str_field (Claims t) "iss", str_field (Claims t) "vct").

(** The key the header or the issuer names; the first way that applies is the
    only one tried. *)
Definition extractJWTKeyMaterial (v : JWTTrustVerifier) (t : Token) (issuerID : string) : option JWTKeyMaterial :=
  match Header t !! "x5c", Header t !! "jwk" with
  | Some x5cRaw, _ =>
      parse ← tv_parseX5C v;
      chain ← parse x5cRaw;
      match chain with
      | [] => None
      | leaf :: _ => Some (mkKeyMaterial (MChain chain) (cert_key leaf) (if str_empty issuerID then CommonName leaf else issuerID))
      end
  | None, Some (JObj jwkMap) =>
      parse ← tv_parseJWK v;
      publicKey ← parse jwkMap;
      Some (mkKeyMaterial (MJwk jwkMap) publicKey issuerID)
  | None, Some _ => None
  | None, None =>
      if HasPrefix "did:" issuerID then
        resolve ← tv_ResolveKey v;
        key ← resolve issuerID;
        Some (mkKeyMaterial (MResolved key) key issuerID)
      else
      match Header t !! "kid" with
      | Some (JStr kid) =>
          if str_empty issuerID then None else
          resolve ← tv_ResolveKeyByKID v;
          '(publicKey, jwkMap) ← resolve issuerID kid;
          Some (mkKeyMaterial (MJwk jwkMap) publicKey issuerID)
      | _ => None
      end
  end.

(** The function that finds the key of a token. *)
Definition trust_keyfunc (v : JWTTrustVerifier) (t : Token) : option JWTKeyMaterial :=
  if negb (bool_decide (Alg t ∈ BuildAllowedAlgorithmSet (tv_allowedAlgs v))) then None else
  ki ← extractJWTKeyMaterial v t (fst (ExtractJWTClaimsInfo t));
  if ValidateSigningMethodForKey t (km_PublicKey ki) then Some ki else None.

Definition VerifyJWTSignature (v : JWTTrustVerifier) (tokenString : string) : result jwt_error (Token * JWTKeyMaterial) :=
  t ← Parse None (fun t => km_PublicKey <$> trust_keyfunc v t) None tokenString;
  match trust_keyfunc v t with Some ki => Ok (t, ki) | None => Err KeyfuncFailed end.

Definition EvaluateIssuerTrust (v : JWTTrustVerifier) (vpToken : string) : result trust_error unit :=
  match tv_Evaluate v with
  | None => Err TNoEvaluator
  | Some evaluate =>
      let issuerJWT := default "" (head (Split "~" vpToken)) in
      if str_empty issuerJWT then Err TEmpty else
      '(t, ki) ← map_err TSignature (VerifyJWTSignature v issuerJWT);
      match evaluate (mkEvaluation (km_IssuerID ki) (km_Material ki) (snd (ExtractJWTClaimsInfo t))) with
      | None => Err TEvaluation
      | Some false => Err TNotTrusted
      | Some true => Ok tt
      end
  end.
End trust.

(** ** What an accepted token shows *)

Section accepted.
Context `{JSON} `{Arch} `{Hashes} `{Sig : Signatures} `{!SdEnv} `{TxJSON} `{Text}.

(** The payload a token is read with is the payload of the token. *)
Lemma ParseUnverified_payload tok t : ParseUnverified tok = Ok t → parseKeyBindingJWT tok = Ok (Claims t).
Proof.
  intros (h & c & s & Hs & _ & Hc)%ParseUnverified_parts. unfold parseKeyBindingJWT. by rewrite Hs, Hc.
Qed.

(** The proof in a presentation, checked: it is signed with the key the claims
    name, was made lately, and covers this presentation. *)
Record bound_to (v : VPTokenValidator) (vpToken : string) (claims : jobject) (now : Z) (proof : Token) : Prop := {
  bd_key : ∃ key, holder_key claims = Ok key ∧ key_type_of key ≠ KOther ∧
    sig_verify (Alg proof) key (signed_text proof) (Signature proof) = true;
  bd_typ : str_field (Header proof) "typ" = "kb+jwt";
  bd_fresh : ∃ iat, parseNumericDate (Claims proof) "iat" = Ok (Some iat) ∧ iat ≤ now + keyBindingClockSkew ∧
    time_Sub now iat ≤ wrap64 ((if bool_decide (v_MaxKeyBindingAge v ≤ 0) then defaultMaxKeyBindingAge else v_MaxKeyBindingAge v) + keyBindingClockSkew);
  bd_presentation : ∃ h, (issuerSDAlg vpToken ≫= getHashFromAlgorithm) = Some h ∧
    str_field (Claims proof) "sd_hash" = digest h (default vpToken (through_last "~" vpToken))
}.

Lemma holder_key_kind claims key : holder_key claims = Ok key → key_type_of key ≠ KOther.
Proof.
  unfold holder_key. destruct (claims !! "cnf") as [[]|]; try done. destruct (m !! "jwk") as [[]|]; try done.
  destruct (ParseJWKToPublicKey _); [|done]. case_bool_decide; [done|]. by intros [= <-].
Qed.

Lemma validateHolderBinding_Ok v vpToken parsed now :
  validateHolderBinding v vpToken parsed now = Ok tt →
  ∃ kb proof, KeyBinding parsed = Some kb ∧ kb ≠ [] ∧ ParseUnverified (kb_text kb) = Ok proof ∧
    bound_to v vpToken (ParsedClaims parsed) now proof.
Proof.
  unfold validateHolderBinding. destruct (KeyBinding parsed) as [[|k kb]|]; [done| |done].
  intros (key & Hk & (proof & Hp & Hr)%bind_Ok)%bind_Ok. apply map_err_Ok in Hp.
  destruct (Parse_Ok _ _ _ _ _ Hp) as (Hu & (key' & [= <-] & Hsig) & _).
  destruct (bool_decide_reflect (str_field (Header proof) "typ" = "kb+jwt")) as [Htyp|]; [|done]. cbn in Hr.
  apply bind_Ok in Hr as ([] & Hage & Hr). exists (k :: kb), proof. split_and!; [done..|].
  destruct (issuerSDAlg vpToken ≫= getHashFromAlgorithm) as [h|] eqn:Eh; [|done].
  case_bool_decide as Hh; [|done]. split; [| done | | by exists h].
  - exists key. split_and!; [done|by eapply holder_key_kind|done].
  - unfold validateKeyBindingAge in Hage. destruct (parseNumericDate _ _) as [[iat|]|]; try done.
    do 2 (case_bool_decide; [done|]). exists iat. split_and!; [done|lia..].
Qed.

(** What [Validate] checks, in one place. *)
Lemma Validate_Ok fuel v vpToken now jti :
  Validate fuel v vpToken now = Ok jti →
  ∃ parsed kb proof, Token_Parse fuel vpToken = Ok parsed ∧ KeyBinding parsed = Some kb ∧ ParseUnverified (kb_text kb) = Ok proof ∧
    bound_to v vpToken (ParsedClaims parsed) now proof ∧
    (v_Nonce v ≠ "" → Claims proof !! "nonce" = Some (JStr (v_Nonce v))) ∧
    (v_ClientID v ≠ "" → Claims proof !! "aud" = Some (JStr (v_ClientID v))) ∧
    (v_TransactionData v ≠ [] → validateTransactionData v parsed = Ok jti).
Proof.
  unfold Validate. intros (parsed & Hp%map_err_Ok & ([] & Hb & ([] & Hn & ([] & Ha & (jti' & Ht & Hr)%bind_Ok)%bind_Ok)%bind_Ok)%bind_Ok)%bind_Ok.
  destruct (validateHolderBinding_Ok _ _ _ _ Hb) as (kb & proof & Hkb & Hne & Hproof & Hbd).
  pose proof (ParseUnverified_payload _ _ Hproof) as Hpay. exists parsed, kb, proof. split_and!; try done.
  - intros Hnn. rewrite (proj2 (str_empty_false _) Hnn) in Hn. unfold validateNonce in Hn. rewrite Hkb in Hn.
    destruct kb as [|k kb]; [done|]. rewrite Hpay in Hn. cbn [mbind result_bind] in Hn. destruct (_ !! "nonce") as [[]|]; try done.
    destruct (bool_decide_reflect (s = v_Nonce v)); by subst.
  - intros Hnn. rewrite (proj2 (str_empty_false _) Hnn) in Ha. unfold validateAudience in Ha. rewrite Hkb in Ha.
    destruct kb as [|k kb]; [done|]. rewrite Hpay in Ha. cbn [mbind result_bind] in Ha. destruct (_ !! "aud") as [[]|]; try done.
    destruct (bool_decide_reflect (s = v_ClientID v)); by subst.
  - intros Htx. rewrite bool_decide_eq_false_2 in Ht by done. destruct (v_ValidateFormat v).
    + apply bind_Ok in Hr as ([] & _ & [= <-]). done.
    + by injection Hr as <-.
Qed.

(** *** Transactions *)

Lemma allowedHashAlgs_spec entries a : entries ≠ [] → a ∈ allowedHashAlgs entries ↔ Forall (fun e => a ∈ entry_algs e) entries.
Proof.
  destruct entries as [|e entries]; [done|]. intros _. cbn [allowedHashAlgs]. rewrite Forall_cons.
  generalize (entry_algs e). induction entries as [|e' entries IH]; intros algs; cbn [foldl].
  - by rewrite Forall_nil; naive_solver.
  - rewrite IH, Forall_cons, list_elem_of_In, filter_In, <- list_elem_of_In, bool_decide_eq_true. tauto.
Qed.

Lemma mapM_as_str l ss : mapM as_str l = Some ss → l = map JStr ss.
Proof.
  revert ss. induction l as [|v l IH]; intros ss; cbn; [by intros [= <-]|].
  destruct v; try done. cbn. destruct (mapM as_str l) as [ss'|]; [|done]. cbn. intros [= <-]. cbn. by rewrite <- (IH ss').
Qed.

(** Two means of authentication of different categories, each of the vocabulary. *)
Definition strong (kb : jobject) : Prop :=
  ∃ amr categories, kb !! "amr" = Some (JArr amr) ∧ mapM amr_category amr = Some categories ∧
    ∃ a b, a ∈ categories ∧ b ∈ categories ∧ a ≠ b.

Lemma two_members (l : list string) : (2 ≤ size (list_to_set (C := gset string) l))%nat → ∃ a b, a ∈ l ∧ b ∈ l ∧ a ≠ b.
Proof.
  intros Hs. set (X := list_to_set (C := gset string) l) in *.
  destruct (set_choose_L X) as [a Ha]; [intros E; rewrite E, size_empty in Hs; lia|].
  destruct (set_choose_L (X ∖ {[a]})) as [b Hb].
  { intros E. apply empty_difference_subseteq_L in E. apply subseteq_size in E. rewrite size_singleton in E. lia. }
  apply elem_of_difference in Hb as [Hb Hba%not_elem_of_singleton]. apply elem_of_list_to_set in Ha, Hb. by exists a, b.
Qed.

Lemma validateTS12Claims_Some modes kb jti :
  validateTS12Claims modes kb = Some jti →
  strong kb ∧ kb !! "jti" = Some (JStr jti) ∧ ∃ mode, kb !! "response_mode" = Some (JStr mode) ∧ mode ∈ modes.
Proof.
  unfold validateTS12Claims. destruct (kb !! "amr") as [[| | | | |[|x amr]|]|] eqn:Ea; try done.
  destruct (mapM amr_category (x :: amr)) as [categories|] eqn:Ec; [|done]. cbn [mbind option_bind].
  case_bool_decide as Hs; [done|]. destruct (kb !! "response_mode") as [[]|] eqn:Er; try done.
  destruct (str_empty s); [done|]. destruct (bool_decide_reflect (s ∈ modes)); [|done]. cbn [negb].
  destruct (kb !! "jti") as [[]|]; try done. destruct (str_empty (TrimSpace s0)); [done|]. intros [= <-].
  split_and!; [|done|by exists s]. exists (x :: amr), categories. split_and!; [done..|]. apply two_members. lia.
Qed.

(** C13: An accepted presentation commits to its transactions: for every entry of
    the request that concerns it, in their order, the holder signed the hash of
    the entry as it was sent, under an algorithm every entry allows; if one is a
    payment, the holder also signed for two different means of authentication,
    for a response mode of the request, and for the identifier that is returned. *)
Theorem transactions_committed fuel v vpToken now jti entries :
  Validate fuel v vpToken now = Ok jti → scoped_entries v = Some entries → entries ≠ [] →
  ∃ parsed kb proof hashAlg h,
    Token_Parse fuel vpToken = Ok parsed ∧ KeyBinding parsed = Some kb ∧ ParseUnverified (kb_text kb) = Ok proof ∧
    bound_to v vpToken (ParsedClaims parsed) now proof ∧
    newHash hashAlg = Some h ∧ Forall (fun e => hashAlg ∈ entry_algs e) entries ∧
    Claims proof !! "transaction_data_hashes" = Some (JArr (map (fun e => JStr (digest h (tx_Raw e))) entries)) ∧
    (Exists (fun e => HasPrefix TS12TypePrefix (tx_Type e) = true) entries →
       ∃ id mode, jti = Some id ∧ strong (Claims proof) ∧ Claims proof !! "jti" = Some (JStr id) ∧
         Claims proof !! "response_mode" = Some (JStr mode) ∧ mode ∈ v_ResponseModes v).
Proof.
  intros Hv Hs Hne. destruct (Validate_Ok _ _ _ _ _ Hv) as (parsed & kb & proof & Hp & Hkb & Hproof & Hbd & _ & _ & Ht).
  assert (v_TransactionData v ≠ []) as Htx.
  { intros E. unfold scoped_entries in Hs. rewrite E in Hs. cbn in Hs. destruct (str_empty _); by injection Hs as <-. }
  specialize (Ht Htx). unfold validateTransactionData in Ht. rewrite Hkb, Hs in Ht. destruct kb as [|k kb]; [done|].
  rewrite (ParseUnverified_payload _ _ Hproof) in Ht. destruct entries as [|e0 es]; [done|]. cbn [mbind result_bind] in Ht.
  set (entries := e0 :: es) in *. destruct (hash_alg _ _) as [hashAlg|]; [|done].
  destruct (bool_decide_reflect (hashAlg ∈ allowedHashAlgs entries)) as [Ha|]; [|done]. cbn [negb] in Ht.
  destruct (_ !! "transaction_data_hashes") as [[| | | | |hashes|]|] eqn:Eh; try done.
  unfold HashTransactionData in Ht. destruct (newHash hashAlg) as [h|] eqn:En; [|done]. cbn [mbind option_bind] in Ht.
  destruct (bool_decide_reflect (mapM as_str hashes = Some (map (digest h) (map tx_Raw entries)))) as [Em|]; [|done]. cbn [negb] in Ht.
  apply mapM_as_str in Em. rewrite !map_map in Em. exists parsed, (k :: kb), proof, hashAlg, h. split_and!; try done.
  - by apply allowedHashAlgs_spec.
  - by rewrite Eh, Em.
  - intros Hex. replace (existsb _ entries) with true in Ht.
    2:{ symmetry. apply existsb_exists. apply Exists_exists in Hex as (e & He%list_elem_of_In & Hpre). by exists e. }
    destruct (validateTS12Claims _ _) as [id|] eqn:Ev; [|done]. injection Ht as <-.
    destruct (validateTS12Claims_Some _ _ _ Ev) as (? & ? & mode & ? & ?). by exists id, mode.
Qed.

(** *** The issuer *)

(** An issuer signed the token and is trusted for its type, under a key and a
    method that fit and are allowed. *)
Record vouched (tv : JWTTrustVerifier) (vpToken : string) (t : Token) : Prop := {
  vo_token : ParseUnverified (default "" (head (Split "~" vpToken))) = Ok t;
  vo_alg : Alg t ∈ BuildAllowedAlgorithmSet (tv_allowedAlgs tv);
  vo_key : ∃ evaluate ki, tv_Evaluate tv = Some evaluate ∧ extractJWTKeyMaterial tv t (str_field (Claims t) "iss") = Some ki ∧
    ValidateSigningMethodForKey t (km_PublicKey ki) = true ∧
    sig_verify (Alg t) (km_PublicKey ki) (signed_text t) (Signature t) = true ∧
    evaluate (mkEvaluation (km_IssuerID ki) (km_Material ki) (str_field (Claims t) "vct")) = Some true
}.

Lemma trust_keyfunc_Some tv t ki :
  trust_keyfunc tv t = Some ki →
  Alg t ∈ BuildAllowedAlgorithmSet (tv_allowedAlgs tv) ∧ extractJWTKeyMaterial tv t (str_field (Claims t) "iss") = Some ki ∧
  ValidateSigningMethodForKey t (km_PublicKey ki) = true.
Proof.
  unfold trust_keyfunc. case_bool_decide; [|done]. cbn. destruct (extractJWTKeyMaterial _ _ _) as [ki'|]; [|done]. cbn.
  destruct (ValidateSigningMethodForKey _ _) eqn:Ev; [|done]. intros [= ->]. by rewrite Ev.
Qed.

Lemma EvaluateIssuerTrust_Ok tv vpToken : EvaluateIssuerTrust tv vpToken = Ok tt → ∃ t, vouched tv vpToken t.
Proof.
  unfold EvaluateIssuerTrust. destruct (tv_Evaluate tv) as [evaluate|] eqn:Ee; [|done]. destruct (str_empty _); [done|].
  intros ([t ki] & Hs%map_err_Ok & He)%bind_Ok. unfold VerifyJWTSignature in Hs. apply bind_Ok in Hs as (t' & Hp & Hk).
  destruct (trust_keyfunc tv t') as [ki'|] eqn:Ek; [|done]. injection Hk as -> ->.
  destruct (Parse_Ok _ _ _ _ _ Hp) as (Hu & (key & Hkey & Hsig) & _). rewrite Ek in Hkey. injection Hkey as <-.
  destruct (trust_keyfunc_Some _ _ _ Ek) as (? & ? & ?). exists t. split; [done..|]. exists evaluate, ki. split_and!; try done.
  cbn in He. by destruct (evaluate _) as [[]|].
Qed.

(** The claims of a parsed presentation are those of the token its issuer
    signed, with the digests the disclosures answer resolved. *)
Definition resolved_from (fuel : nat) (signed : jobject) (parsed : ParsedCredential) : Prop :=
  ∃ h dm full, getHashFromAlgorithm (sd_alg signed) = Some h ∧ entry_map h (ParsedDisclosures parsed) ∅ = Ok dm ∧
    resolveNode dm fuel (JObj signed) = Some (JObj full) ∧ ParsedClaims parsed = cleanMarkers <$> full.

Lemma or_fail_Ok {A} e (o : option A) a : or_fail e o = Ok a → o = Some a.
Proof. destruct o; cbn; congruence. Qed.

Lemma Token_Parse_signed fuel vpToken parsed t :
  Token_Parse fuel vpToken = Ok parsed → ParseUnverified (default "" (head (Split "~" vpToken))) = Ok t →
  resolved_from fuel (Claims t) parsed.
Proof.
  unfold Token_Parse, Token_Split. intros Hp Hu. destruct (str_empty vpToken); [done|].
  destruct (Split "~" vpToken) as [|sd rest]; [done|]. change (ParseUnverified sd = Ok t) in Hu.
  apply ParseUnverified_payload in Hu. unfold parseKeyBindingJWT in Hu.
  destruct (Split "." sd) as [|header [|body [|signature [|]]]]; try done.
  destruct (unb64 body ≫= UnmarshalMap) as [claims|] eqn:Eb; [|done]. injection Hu as <-.
  assert (∃ ds kb, (headerBytes ← or_fail HeaderNotBase64 (unb64 header);
    headerMap ← or_fail HeaderNotJSON (UnmarshalMap headerBytes);
    bodyBytes ← or_fail BodyNotBase64 (unb64 body);
    claims ← or_fail BodyNotJSON (UnmarshalMap bodyBytes);
    h ← or_fail (UnknownSdAlg (sd_alg claims)) (getHashFromAlgorithm (sd_alg claims));
    dm ← map_err EntryRefused (entry_map h ds ∅);
    match resolveNode dm fuel (JObj claims) with
    | Some (JObj full) => Ok (mkParsedCredential (cleanMarkers <$> full) ds headerMap signature kb)
    | _ => Err ParseDiverges
    end) = Ok parsed) as (ds & kb & Hr) by (destruct (reverse rest); eauto). clear Hp.
  apply bind_Ok in Hr as (hb & _ & (hm & _ & (bb & Hbb%or_fail_Ok & (cl & Hcl%or_fail_Ok & Hr)%bind_Ok)%bind_Ok)%bind_Ok).
  rewrite Hbb in Eb. cbn in Eb. rewrite Hcl in Eb. injection Eb as ->.
  apply bind_Ok in Hr as (h & Hh%or_fail_Ok & (dm & Hdm%map_err_Ok & Hr)%bind_Ok).
  destruct (resolveNode dm fuel (JObj claims)) as [[| | | | | |full]|] eqn:Er; try done. injection Hr as <-. by exists h, dm, full.
Qed.

(** C12: What the gateway and the verifier ask of a presented SD-JWT credential: when both checks accept the token, a
    trusted issuer signed a token whose claims, with the disclosed digests resolved, are the claims of the credential;
    those claims name the holder's key; and the holder signed with it, lately, for this verifier, this request and
    exactly this presentation.  (A comment at the caller, [handlers_verifier.go], says that the validator reads the proof
    without verifying its signature; [validateHolderBinding] verifies it.) *)
Theorem accepted_presentation fuel v tv vpToken now jti :
  Validate fuel v vpToken now = Ok jti → EvaluateIssuerTrust tv vpToken = Ok tt → v_Nonce v ≠ "" → v_ClientID v ≠ "" →
  ∃ t parsed kb proof,
    vouched tv vpToken t ∧ Token_Parse fuel vpToken = Ok parsed ∧ resolved_from fuel (Claims t) parsed ∧
    KeyBinding parsed = Some kb ∧ ParseUnverified (kb_text kb) = Ok proof ∧
    bound_to v vpToken (ParsedClaims parsed) now proof ∧
    Claims proof !! "nonce" = Some (JStr (v_Nonce v)) ∧ Claims proof !! "aud" = Some (JStr (v_ClientID v)).
Proof.
  intros Hv Ht Hn Hc. destruct (Validate_Ok _ _ _ _ _ Hv) as (parsed & kb & proof & Hp & Hkb & Hproof & Hbd & Hnonce & Haud & _).
  destruct (EvaluateIssuerTrust_Ok _ _ Ht) as (t & Hvo). exists t, parsed, kb, proof. split_and!; auto.
  eapply Token_Parse_signed; [done|apply Hvo].
Qed.
End accepted.
