(* ===== verification/RevocationWitness.v ===== *)
(** * Revocation at concrete inputs

    The interfaces of the status list components instantiated by the store-only
    codec, the printed JWT and the tree CBOR, and the theorems applied. *)

From S2P Require Import Prelude Bytes Base64 GoValue TokenStatusList TokenStatusListCWT.
From S2P Require Import Cose StatusRegistry StatusCache Revocation StatusEndToEnd.

#[local] Existing Instances stored_zlib stored_zlib_laws plain_jwt plain_jwt_laws.
#[local] Existing Instances toy_cbor toy_cbor_laws toy_crypto mem_collection mem_laws.

#[local] Instance toy_verify : CoseVerify := {|
  ec_public _ := mkECDSA P521 3 5;
  ecdsa_verify _ _ r s := bool_decide (r = 258) && bool_decide (s = 7);
  ed25519_verify _ _ _ := false
|}.
#[local] Instance toy_verify_laws : CoseVerifyLaws.
Proof. split; cbn; [intros k d r s [= <- <-]; done|intros k d r s [= <- <-]; done|done]. Qed.

Definition w_uri : string := "https://registry.example/statuslists/0".

(** A network that answers [w_uri] with the given body. *)
Definition w_env (contentType : string) (body : list Z) : checker_env :=
  mkEnv (fun _ => Some "https")
    (fun u => if bool_decide (u = w_uri) then Some (mkResponse 200 contentType (Some body)) else None)
    (fun _ _ => Some ("secret" : @public_key plain_jwt))
    (fun _ _ => Some (PubEC (mkECDSA P521 3 5))).

(** Issued at time 0 for ten seconds, read a year later. *)
Lemma cwt_accepted_at_any_time_witness :
  ∃ tok, GenerateCWT witness_list (mkCWTSigningConfig toy_key 0) 0 = Ok tok ∧
    parseStatusListToken (w_env MediaTypeCWT tok) (31536000 * second) tok MediaTypeCWT = Ok [0; 1; 2; 0].
Proof.
  destruct (GenerateCWT witness_list (mkCWTSigningConfig toy_key 0) 0) as [tok|] eqn:E; [|discriminate E].
  exists tok. split; [reflexivity|].
  refine (cwt_accepted_at_any_time (w_env MediaTypeCWT tok) witness_list (tt : @ec_key toy_crypto) 0 tok _ _ E
            (fun _ _ => eq_refl) (31536000 * second)).
  - repeat constructor; unfold in_uint8; lia.
  - vm_compute. discriminate.
Defined.

Definition toy_rsa_key : cose_key (@ec_key toy_crypto) (@rsa_key toy_crypto) (@other_key toy_crypto) :=
  RSAKey (tt : @rsa_key toy_crypto).

Lemma rsa_cwt_refused_witness :
  ∃ tok, GenerateCWT witness_list (mkCWTSigningConfig toy_rsa_key 0) 0 = Ok tok ∧
    is_ok (parseStatusListToken (w_env MediaTypeCWT tok) (5 * second) tok MediaTypeCWT) = false.
Proof.
  destruct (GenerateCWT witness_list (mkCWTSigningConfig toy_rsa_key 0) 0) as [tok|] eqn:E; [|discriminate E].
  exists tok. split; [reflexivity|].
  exact (rsa_cwt_refused (w_env MediaTypeCWT tok) witness_list (tt : @rsa_key toy_crypto) 0 tok E (5 * second)).
Defined.

Lemma jwt_accepted_until_expiry_witness :
  ∃ tok, GenerateJWT witness_list witness_cfg 0 = Ok tok ∧
    parseStatusListToken (w_env MediaTypeJWT []) (5 * second) (string_bytes tok) MediaTypeJWT = Ok [0; 1; 2; 0] ∧
    parseStatusListToken (w_env MediaTypeJWT []) (10 * second) (string_bytes tok) MediaTypeJWT = Err RErrJWT.
Proof.
  destruct (GenerateJWT witness_list witness_cfg 0) as [tok|] eqn:E; [|discriminate E].
  exists tok. split; [reflexivity|].
  assert (∀ t, parseStatusListToken (w_env MediaTypeJWT []) t (string_bytes tok) MediaTypeJWT =
            if bool_decide (unix (0 + ExpiresIn witness_list) * second ≤ t) then Err RErrJWT
            else Ok (statuses witness_list)) as A.
  { intros t.
    refine (jwt_accepted_until_expiry (w_env MediaTypeJWT []) witness_list witness_cfg
              ("secret" : @private_key plain_jwt) "ES256" 0 tok (string_bytes tok) t
              _ _ _ eq_refl eq_refl _ E (bytes_string_bytes tok) (fun _ _ => eq_refl) eq_refl).
    - repeat constructor; unfold in_uint8; lia.
    - vm_compute. discriminate.
    - discriminate.
    - set_solver. }
  split; rewrite A; reflexivity.
Defined.

Definition w_slots' : slots := <[(0, 1) := mkEntry 1 false]> witness_slots.

Lemma w_slots'_lookup i e : w_slots' !! (0, i) = Some e → (i = 0 ∧ Status e = 0) ∨ (i = 1 ∧ Status e = 1).
Proof.
  unfold w_slots', witness_slots.
  intros [[[= <-] <-] | [Hne [[[= <-] <-]|[_ [[[= <-] <-]|[_ ?]]%lookup_insert_Some]]%lookup_insert_Some]]%lookup_insert_Some;
    [by right|done|by left|by simplify_map_eq].
Qed.

Lemma w_dense : dense w_slots' 0 2.
Proof.
  intros i. split.
  - intros [e [[-> _]|[-> _]]%w_slots'_lookup]; lia.
  - intros Hi. assert (i = 0 ∨ i = 1) as [-> | ->] by lia; by eexists.
Qed.

Definition w_tok : string :=
  Eval vm_compute in GetCachedJWT (refreshSection witness_issuer w_slots' 0 0 (mkCache ∅ ∅)) 0.

(** The slot at index 1 is revoked, and the verifier sees it. *)
Lemma updated_status_reaches_verifier_witness :
  UpdateStatus quiet (mkDB witness_slots 0) 0 1 1 = (mkDB w_slots' 0, Ok tt) ∧
  ∃ cache' res,
    RegistryValidate [StatusListChecker (w_env MediaTypeJWT (string_bytes w_tok)) (5 * second)] ∅
      (status_claim w_uri 1) = (cache', Ok (Some res)) ∧
    cr_Status res = RevInvalid.
Proof.
  split; [vm_compute; reflexivity|].
  refine (updated_status_reaches_verifier witness_issuer
            (mkSigner (Some "ES256") ("secret" : @private_key plain_jwt) ("secret" : @public_key plain_jwt) toy_key)
            "ES256" (mkDB witness_slots 0) (mkDB w_slots' 0) 0 2 1 1
            [0; 1] "https://registry.example/statuslists/0" w_tok w_uri
            (w_env MediaTypeJWT (string_bytes w_tok)) 0 (5 * second)
            (mkCache ∅ ∅) w_dense _ _ _ _ _ _ _ _ _ _ _ _ _ _ _ _ _ _).
  - vm_compute. split; [done|discriminate].
  - unfold in_uint8. lia.
  - intros j e [[_ ->]|[_ ->]]%w_slots'_lookup; unfold in_uint8; lia.
  - vm_compute. reflexivity.
  - lia.
  - reflexivity.
  - reflexivity.
  - set_solver.
  - discriminate.
  - vm_compute. reflexivity.
  - vm_compute. reflexivity.
  - vm_compute. reflexivity.
  - vm_compute. reflexivity.
  - vm_compute. reflexivity.
  - intros iss kid. reflexivity.
  - discriminate.
  - unfold in_int64. lia.
  - split; [by left|]. split; [vm_compute; reflexivity|]. apply Z.leb_le. vm_compute. reflexivity.
Defined.
