(* ===== verification/AuthContext.v ===== *)
(** * Authorization contexts

    [pkg/cache/authcontext_types.go] and [issuer_state_resume.go]: the session
    document of the issuer and verifier flows, its struct-tag validation, and
    the resumed exchange of an issuer-initiated offer.  [CreatedAt] is a time
    in nanoseconds with 0 for Go's zero time.  Values of types whose own
    validation tags live elsewhere (the DCQL query, the identity match, the
    claim validations) are JSON values and their validation a parameter. *)

From S2P Require Import Prelude GoValue.

Definition MaxPreAuthRedeemers : Z := 10.
Definition MaxTXCodeAttempts : Z := 5.

Record token := mkToken { tok_AccessToken : string; tok_ExpiresAt : Z; tok_DPoPThumbprint : string }.

Record context_rest := mkRest {
  Status : string;
  SourceSessionID : string;
  ClientID : string;
  Scopes : list string;
  Nonce : string;
  IdentityMatch : option goval;
  InteractiveAuthorization : bool;
  PreAuthorized : bool;
  TXCode : string;
  IDToken : string;
  AuthorizationDetails : list goval;
  RequestURIExpiresAt : Z;
  Scope : string;
  DynamicParams : list (string * string);
  RedirectURI : string;
  ResponseType : string;
  ResponseMode : string;
  ShowCredentialDetails : bool;
  WalletFollowsRedirect : bool;
  CodeExpiresAt : Z;
  AccessTokenExpiresAt : Z;
  RefreshTokenExpiresAt : Z;
  VerifiedClaims : option gomap;   (* [nil] or a map *)
  PresentedScope : string;
  VPToken : string;
  PresentationSubmission : goval;
  RequestObjectNonce : string;
  TransactionData : list string;
  TransactionDataResponseModes : list string;
  DCQLQueryExact : string;
  ScopeQueryIDs : list (string * string);
  Validations : list (string * goval);
  WalletID : string
}.

Definition zero_rest : context_rest :=
  mkRest "" "" "" [] "" None false false "" "" [] 0 "" [] "" "" "" false false 0 0 0 None "" "" GNil "" [] [] "" [] [] "".

(** The fields the store reads, writes or indexes, and the others. *)
Record AuthorizationContext := mkContext {
  SessionID : string;
  CreatedAt : Z;
  ExpiresAt : Z;
  WalletClientID : string;
  State : string;
  CodeChallenge : string;
  CodeChallengeMethod : string;
  AuthSession : string;
  IssuerState : string;
  AuthSessionDPoPThumbprint : string;
  Code : string;
  Forfeited : bool;
  RedeemedBy : list string;
  TXCodeAttempts : Z;
  Token : option token;
  AccessToken : string;
  RequestURI : string;
  WalletURI : string;
  Consent : bool;
  AuthenticSource : string;
  Identifier : string;
  AuthProvider : string;
  DataSource : string;
  RemoteName : string;
  RefreshToken : string;
  EphemeralEncryptionKeyID : string;
  VerifierResponseCode : string;
  RequestObjectID : string;
  DCQLQuery : option goval;
  other : context_rest
}.

Definition zero_context : AuthorizationContext :=
  mkContext "" 0 0 "" "" "" "" "" "" "" "" false [] 0 None "" "" "" false "" "" "" "" "" "" "" "" "" None zero_rest.

(** [doc.Field = v]. *)
Definition set_CreatedAt (v : Z) (d : AuthorizationContext) : AuthorizationContext :=
  mkContext (SessionID d) v (ExpiresAt d) (WalletClientID d) (State d) (CodeChallenge d)
    (CodeChallengeMethod d) (AuthSession d) (IssuerState d) (AuthSessionDPoPThumbprint d) (Code
    d) (Forfeited d) (RedeemedBy d) (TXCodeAttempts d) (Token d) (AccessToken d) (RequestURI d)
    (WalletURI d) (Consent d) (AuthenticSource d) (Identifier d) (AuthProvider d) (DataSource d)
    (RemoteName d) (RefreshToken d) (EphemeralEncryptionKeyID d) (VerifierResponseCode d)
    (RequestObjectID d) (DCQLQuery d) (other d).
Definition set_ExpiresAt (v : Z) (d : AuthorizationContext) : AuthorizationContext :=
  mkContext (SessionID d) (CreatedAt d) v (WalletClientID d) (State d) (CodeChallenge d)
    (CodeChallengeMethod d) (AuthSession d) (IssuerState d) (AuthSessionDPoPThumbprint d) (Code
    d) (Forfeited d) (RedeemedBy d) (TXCodeAttempts d) (Token d) (AccessToken d) (RequestURI d)
    (WalletURI d) (Consent d) (AuthenticSource d) (Identifier d) (AuthProvider d) (DataSource d)
    (RemoteName d) (RefreshToken d) (EphemeralEncryptionKeyID d) (VerifierResponseCode d)
    (RequestObjectID d) (DCQLQuery d) (other d).
Definition set_AuthSession (v : string) (d : AuthorizationContext) : AuthorizationContext :=
  mkContext (SessionID d) (CreatedAt d) (ExpiresAt d) (WalletClientID d) (State d)
    (CodeChallenge d) (CodeChallengeMethod d) v (IssuerState d) (AuthSessionDPoPThumbprint d)
    (Code d) (Forfeited d) (RedeemedBy d) (TXCodeAttempts d) (Token d) (AccessToken d)
    (RequestURI d) (WalletURI d) (Consent d) (AuthenticSource d) (Identifier d) (AuthProvider d)
    (DataSource d) (RemoteName d) (RefreshToken d) (EphemeralEncryptionKeyID d)
    (VerifierResponseCode d) (RequestObjectID d) (DCQLQuery d) (other d).
Definition set_IssuerState (v : string) (d : AuthorizationContext) : AuthorizationContext :=
  mkContext (SessionID d) (CreatedAt d) (ExpiresAt d) (WalletClientID d) (State d)
    (CodeChallenge d) (CodeChallengeMethod d) (AuthSession d) v (AuthSessionDPoPThumbprint d)
    (Code d) (Forfeited d) (RedeemedBy d) (TXCodeAttempts d) (Token d) (AccessToken d)
    (RequestURI d) (WalletURI d) (Consent d) (AuthenticSource d) (Identifier d) (AuthProvider d)
    (DataSource d) (RemoteName d) (RefreshToken d) (EphemeralEncryptionKeyID d)
    (VerifierResponseCode d) (RequestObjectID d) (DCQLQuery d) (other d).
Definition set_Code (v : string) (d : AuthorizationContext) : AuthorizationContext :=
  mkContext (SessionID d) (CreatedAt d) (ExpiresAt d) (WalletClientID d) (State d)
    (CodeChallenge d) (CodeChallengeMethod d) (AuthSession d) (IssuerState d)
    (AuthSessionDPoPThumbprint d) v (Forfeited d) (RedeemedBy d) (TXCodeAttempts d) (Token d)
    (AccessToken d) (RequestURI d) (WalletURI d) (Consent d) (AuthenticSource d) (Identifier d)
    (AuthProvider d) (DataSource d) (RemoteName d) (RefreshToken d) (EphemeralEncryptionKeyID d)
    (VerifierResponseCode d) (RequestObjectID d) (DCQLQuery d) (other d).
Definition set_Forfeited (v : bool) (d : AuthorizationContext) : AuthorizationContext :=
  mkContext (SessionID d) (CreatedAt d) (ExpiresAt d) (WalletClientID d) (State d)
    (CodeChallenge d) (CodeChallengeMethod d) (AuthSession d) (IssuerState d)
    (AuthSessionDPoPThumbprint d) (Code d) v (RedeemedBy d) (TXCodeAttempts d) (Token d)
    (AccessToken d) (RequestURI d) (WalletURI d) (Consent d) (AuthenticSource d) (Identifier d)
    (AuthProvider d) (DataSource d) (RemoteName d) (RefreshToken d) (EphemeralEncryptionKeyID d)
    (VerifierResponseCode d) (RequestObjectID d) (DCQLQuery d) (other d).
Definition set_RedeemedBy (v : list string) (d : AuthorizationContext) : AuthorizationContext :=
  mkContext (SessionID d) (CreatedAt d) (ExpiresAt d) (WalletClientID d) (State d)
    (CodeChallenge d) (CodeChallengeMethod d) (AuthSession d) (IssuerState d)
    (AuthSessionDPoPThumbprint d) (Code d) (Forfeited d) v (TXCodeAttempts d) (Token d)
    (AccessToken d) (RequestURI d) (WalletURI d) (Consent d) (AuthenticSource d) (Identifier d)
    (AuthProvider d) (DataSource d) (RemoteName d) (RefreshToken d) (EphemeralEncryptionKeyID d)
    (VerifierResponseCode d) (RequestObjectID d) (DCQLQuery d) (other d).
Definition set_TXCodeAttempts (v : Z) (d : AuthorizationContext) : AuthorizationContext :=
  mkContext (SessionID d) (CreatedAt d) (ExpiresAt d) (WalletClientID d) (State d)
    (CodeChallenge d) (CodeChallengeMethod d) (AuthSession d) (IssuerState d)
    (AuthSessionDPoPThumbprint d) (Code d) (Forfeited d) (RedeemedBy d) v (Token d) (AccessToken
    d) (RequestURI d) (WalletURI d) (Consent d) (AuthenticSource d) (Identifier d) (AuthProvider
    d) (DataSource d) (RemoteName d) (RefreshToken d) (EphemeralEncryptionKeyID d)
    (VerifierResponseCode d) (RequestObjectID d) (DCQLQuery d) (other d).
Definition set_Token (v : option token) (d : AuthorizationContext) : AuthorizationContext :=
  mkContext (SessionID d) (CreatedAt d) (ExpiresAt d) (WalletClientID d) (State d)
    (CodeChallenge d) (CodeChallengeMethod d) (AuthSession d) (IssuerState d)
    (AuthSessionDPoPThumbprint d) (Code d) (Forfeited d) (RedeemedBy d) (TXCodeAttempts d) v
    (AccessToken d) (RequestURI d) (WalletURI d) (Consent d) (AuthenticSource d) (Identifier d)
    (AuthProvider d) (DataSource d) (RemoteName d) (RefreshToken d) (EphemeralEncryptionKeyID d)
    (VerifierResponseCode d) (RequestObjectID d) (DCQLQuery d) (other d).
Definition set_Consent (v : bool) (d : AuthorizationContext) : AuthorizationContext :=
  mkContext (SessionID d) (CreatedAt d) (ExpiresAt d) (WalletClientID d) (State d)
    (CodeChallenge d) (CodeChallengeMethod d) (AuthSession d) (IssuerState d)
    (AuthSessionDPoPThumbprint d) (Code d) (Forfeited d) (RedeemedBy d) (TXCodeAttempts d)
    (Token d) (AccessToken d) (RequestURI d) (WalletURI d) v (AuthenticSource d) (Identifier d)
    (AuthProvider d) (DataSource d) (RemoteName d) (RefreshToken d) (EphemeralEncryptionKeyID d)
    (VerifierResponseCode d) (RequestObjectID d) (DCQLQuery d) (other d).
Definition set_AuthenticSource (v : string) (d : AuthorizationContext) : AuthorizationContext :=
  mkContext (SessionID d) (CreatedAt d) (ExpiresAt d) (WalletClientID d) (State d)
    (CodeChallenge d) (CodeChallengeMethod d) (AuthSession d) (IssuerState d)
    (AuthSessionDPoPThumbprint d) (Code d) (Forfeited d) (RedeemedBy d) (TXCodeAttempts d)
    (Token d) (AccessToken d) (RequestURI d) (WalletURI d) (Consent d) v (Identifier d)
    (AuthProvider d) (DataSource d) (RemoteName d) (RefreshToken d) (EphemeralEncryptionKeyID d)
    (VerifierResponseCode d) (RequestObjectID d) (DCQLQuery d) (other d).
Definition set_Identifier (v : string) (d : AuthorizationContext) : AuthorizationContext :=
  mkContext (SessionID d) (CreatedAt d) (ExpiresAt d) (WalletClientID d) (State d)
    (CodeChallenge d) (CodeChallengeMethod d) (AuthSession d) (IssuerState d)
    (AuthSessionDPoPThumbprint d) (Code d) (Forfeited d) (RedeemedBy d) (TXCodeAttempts d)
    (Token d) (AccessToken d) (RequestURI d) (WalletURI d) (Consent d) (AuthenticSource d) v
    (AuthProvider d) (DataSource d) (RemoteName d) (RefreshToken d) (EphemeralEncryptionKeyID d)
    (VerifierResponseCode d) (RequestObjectID d) (DCQLQuery d) (other d).
Definition set_RefreshToken (v : string) (d : AuthorizationContext) : AuthorizationContext :=
  mkContext (SessionID d) (CreatedAt d) (ExpiresAt d) (WalletClientID d) (State d)
    (CodeChallenge d) (CodeChallengeMethod d) (AuthSession d) (IssuerState d)
    (AuthSessionDPoPThumbprint d) (Code d) (Forfeited d) (RedeemedBy d) (TXCodeAttempts d)
    (Token d) (AccessToken d) (RequestURI d) (WalletURI d) (Consent d) (AuthenticSource d)
    (Identifier d) (AuthProvider d) (DataSource d) (RemoteName d) v (EphemeralEncryptionKeyID d)
    (VerifierResponseCode d) (RequestObjectID d) (DCQLQuery d) (other d).

Record AuthProviderFields := mkProviderFields {
  f_AuthProvider : string; f_DataSource : string; f_RemoteName : string; f_AuthenticSource : string
}.
Definition with_provider (fields : AuthProviderFields) (d : AuthorizationContext) : AuthorizationContext :=
  mkContext (SessionID d) (CreatedAt d) (ExpiresAt d) (WalletClientID d) (State d)
    (CodeChallenge d) (CodeChallengeMethod d) (AuthSession d) (IssuerState d)
    (AuthSessionDPoPThumbprint d) (Code d) (Forfeited d) (RedeemedBy d) (TXCodeAttempts d)
    (Token d) (AccessToken d) (RequestURI d) (WalletURI d) (Consent d) (f_AuthenticSource
    fields) (Identifier d) (f_AuthProvider fields) (f_DataSource fields) (f_RemoteName fields)
    (RefreshToken d) (EphemeralEncryptionKeyID d) (VerifierResponseCode d) (RequestObjectID d)
    (DCQLQuery d) (other d).

Record IssuerStateResume := mkResume {
  r_AuthSession : string;
  r_AuthSessionDPoPThumbprint : string;
  r_WalletClientID : string;
  r_WalletURI : string;
  r_CodeChallenge : string;
  r_CodeChallengeMethod : string;
  r_DCQLQuery : option goval;
  r_EphemeralEncryptionKeyID : string;
  r_ExpiresAt : Z;
  r_CreatedAt : Z
}.
Definition applyTo (r : IssuerStateResume) (d : AuthorizationContext) : AuthorizationContext :=
  mkContext (SessionID d) (r_CreatedAt r) (r_ExpiresAt r) (r_WalletClientID r) (State d)
    (r_CodeChallenge r) (r_CodeChallengeMethod r) (r_AuthSession r) (IssuerState d)
    (r_AuthSessionDPoPThumbprint r) (Code d) (Forfeited d) (RedeemedBy d) (TXCodeAttempts d)
    (Token d) (AccessToken d) (RequestURI d) (r_WalletURI r) (Consent d) (AuthenticSource d)
    (Identifier d) (AuthProvider d) (DataSource d) (RemoteName d) (RefreshToken d)
    (r_EphemeralEncryptionKeyID r) (VerifierResponseCode d) (RequestObjectID d) (r_DCQLQuery r)
    (other d).

(** ** Validation *)

Fixpoint all_bytes (p : Ascii.ascii → bool) (s : string) : bool :=
  match s with
  | EmptyString => true
  | String c s => p c && all_bytes p s
  end.

Definition byte_val (c : Ascii.ascii) : Z := Z.of_N (Ascii.N_of_ascii c).

(** [printascii]: every character is between space and tilde. *)
Definition printascii (s : string) : bool :=
  all_bytes (fun c => bool_decide (32 ≤ byte_val c) && bool_decide (byte_val c ≤ 126)) s.

(** [omitempty,max=n,printascii]; a printable string has as many runes as
    bytes, so the order of the two checks does not matter. *)
Definition field_ok (n : Z) (s : string) : bool :=
  str_empty s || (bool_decide (Z.of_nat (String.length s) ≤ n) && printascii s).

Definition in_range_byte (lo hi : Ascii.ascii) (c : Ascii.ascii) : bool :=
  bool_decide (byte_val lo ≤ byte_val c) && bool_decide (byte_val c ≤ byte_val hi).
Definition is_letter (c : Ascii.ascii) : bool :=
  in_range_byte "a" "z" c || in_range_byte "A" "Z" c.
Definition is_word (c : Ascii.ascii) : bool :=
  is_letter c || in_range_byte "0" "9" c || bool_decide (c = "_"%char).

(** [^[a-zA-Z][a-zA-Z0-9_]{0,63}$] *)
Definition safe_key (s : string) : bool :=
  match s with
  | EmptyString => false
  | String c s => is_letter c && all_bytes is_word s && bool_decide (String.length s ≤ 63)%nat
  end.

Definition token_valid (t : token) : bool :=
  negb (str_empty (tok_AccessToken t)) && field_ok 4096 (tok_AccessToken t) &&
  negb (bool_decide (tok_ExpiresAt t = 0)) && field_ok 128 (tok_DPoPThumbprint t).

Definition opt_valid {A} (p : A → bool) (o : option A) : bool :=
  match o with None => true | Some a => p a end.

Section validate.
(** The validator on the nested struct types. *)
Variable nested_valid : goval → bool.

Definition rest_valid (d : context_rest) : bool :=
  field_ok 32 (Status d) && field_ok 128 (SourceSessionID d) && field_ok 512 (ClientID d) &&
  field_ok 128 (Nonce d) && opt_valid nested_valid (IdentityMatch d) && field_ok 64 (TXCode d) &&
  field_ok 32768 (IDToken d) && field_ok 128 (Scope d) &&
  forallb (fun kv => safe_key (fst kv) &&
                     (bool_decide (Z.of_nat (String.length (snd kv)) ≤ 1024) && printascii (snd kv)))
    (DynamicParams d) &&
  field_ok 2048 (RedirectURI d) && field_ok 32 (ResponseType d) && field_ok 32 (ResponseMode d) &&
  field_ok 128 (PresentedScope d) && field_ok 65536 (VPToken d) && field_ok 128 (RequestObjectNonce d) &&
  forallb (fun kv => nested_valid (snd kv)) (Validations d) && field_ok 128 (WalletID d).

Definition Validate (d : AuthorizationContext) : bool :=
  negb (str_empty (SessionID d)) && field_ok 128 (SessionID d) && field_ok 512 (WalletClientID d) &&
  field_ok 500 (State d) && field_ok 128 (CodeChallenge d) && field_ok 16 (CodeChallengeMethod d) &&
  field_ok 128 (AuthSession d) && field_ok 128 (IssuerState d) &&
  field_ok 128 (AuthSessionDPoPThumbprint d) && field_ok 128 (Code d) &&
  opt_valid token_valid (Token d) && field_ok 16384 (AccessToken d) && field_ok 2048 (RequestURI d) &&
  field_ok 2048 (WalletURI d) && field_ok 128 (AuthenticSource d) && field_ok 256 (Identifier d) &&
  field_ok 32 (AuthProvider d) && field_ok 32 (DataSource d) && field_ok 128 (RemoteName d) &&
  field_ok 4096 (RefreshToken d) && field_ok 128 (EphemeralEncryptionKeyID d) &&
  field_ok 128 (VerifierResponseCode d) && field_ok 128 (RequestObjectID d) &&
  opt_valid nested_valid (DCQLQuery d) && rest_valid (other d).
End validate.
