(* ===== verification/AuthStore.v ===== *)
(** * The in-memory authorization context store

    [pkg/cache/authcontext.go], [MemoryStore].  The cache maps a session id to
    a pointer; a document lives in the heap and [Get] hands out the stored
    pointer, so a caller can change a stored document without calling the
    store ([Poke] below) and an operation that replaces the pointer leaves
    the old document to those who hold it.  Every operation runs under the
    store's mutex and is one atomic step.

    [ttlcache] is modelled as its documentation describes it: an entry is
    found until its expiry; [Get] touches the entry it finds, moving its
    expiry to a full TTL from now, since the store does not disable that;
    [Set] with [DefaultTTL] restarts the TTL and with
    [PreviousOrDefaultTTL] keeps the expiry of an existing entry; the
    eviction callback runs later, on its own goroutine. *)

From S2P Require Import Prelude GoValue AuthContext.

Abbreviation loc := nat.

Inductive cache_error :=
| ErrNil | ErrEmpty | ErrValidation
| ErrNoDocuments
| ErrQuery                       (* no searchable field *)
| ErrForfeited
| ErrAlreadyRedeemed | ErrMaxRedemptions | ErrThumbprintLength
| ErrTXCodeAttemptsExceeded
| ErrSessionMismatch.
#[global] Instance cache_error_eq_dec : EqDecision cache_error.
Proof. solve_decision. Defined.

Record item := mkItem { item_doc : loc; item_expires : Z }.

Record store := mkStore {
  heap : gmap loc AuthorizationContext;
  next : loc;                          (* the allocator *)
  cache : gmap string item;
  indices : gmap string string;
  evicted : list loc                   (* callbacks that have not run yet *)
}.

Definition NewMemoryStore : store := mkStore ∅ 0 ∅ ∅ [].

Definition deref (s : store) (l : loc) : AuthorizationContext := default zero_context (heap s !! l).

(** The document a session id names, expired or not. *)
Definition doc_at (s : store) (sid : string) : option AuthorizationContext :=
  (fun it => deref s (item_doc it)) <$> cache s !! sid.

(** ** The monad of store operations: state, and an error that keeps it *)

Definition M (A : Type) : Type := store → store * result cache_error A.
#[global] Instance M_ret : MRet M := fun A a s => (s, Ok a).
#[global] Instance M_bind : MBind M :=
  fun A B f m s => match m s with (s', Ok a) => f a s' | (s', Err e) => (s', Err e) end.

Definition throw {A} (e : cache_error) : M A := fun s => (s, Err e).
Definition gets {A} (f : store → A) : M A := fun s => (s, Ok (f s)).
Definition modify (f : store → store) : M unit := fun s => (f s, Ok tt).

Definition with_indices (f : gmap string string → gmap string string) (s : store) : store :=
  mkStore (heap s) (next s) (cache s) (f (indices s)) (evicted s).
Definition with_cache (f : gmap string item → gmap string item) (s : store) : store :=
  mkStore (heap s) (next s) (f (cache s)) (indices s) (evicted s).
Definition write_doc (l : loc) (d : AuthorizationContext) (s : store) : store :=
  mkStore (<[l := d]> (heap s)) (next s) (cache s) (indices s) (evicted s).

(** [&copy]: a fresh document. *)
Definition alloc (d : AuthorizationContext) : M loc :=
  fun s => (mkStore (<[next s := d]> (heap s)) (S (next s)) (cache s) (indices s) (evicted s), Ok (next s)).

(** ** Index keys *)

Definition index_key (name value : string) : string := name +:+ ":" +:+ value.

Definition token_access (d : AuthorizationContext) : string :=
  match Token d with Some t => tok_AccessToken t | None => "" end.

Definition index_fields (d : AuthorizationContext) : list (string * string) :=
  [("request_uri", RequestURI d); ("code", Code d); ("state", State d);
   ("verifier_response_code", VerifierResponseCode d);
   ("ephemeral_key_id", EphemeralEncryptionKeyID d); ("request_object_id", RequestObjectID d);
   ("auth_session", AuthSession d); ("issuer_state", IssuerState d);
   ("access_token", token_access d); ("access_token", AccessToken d);
   ("refresh_token", RefreshToken d)].

Definition index_keys (d : AuthorizationContext) : list string :=
  map (fun nv => index_key (fst nv) (snd nv))
    (List.filter (fun nv => negb (str_empty (snd nv))) (index_fields d)).

Definition put_indices (d : AuthorizationContext) (m : gmap string string) : gmap string string :=
  foldl (fun m k => <[k := SessionID d]> m) m (index_keys d).
Definition drop_indices (d : AuthorizationContext) (m : gmap string string) : gmap string string :=
  foldl (fun m k => delete k m) m (index_keys d).

#[global] Arguments index_keys : simpl never.
#[global] Arguments put_indices : simpl never.
#[global] Arguments drop_indices : simpl never.

Definition updateIndices (d : AuthorizationContext) : M unit := modify (with_indices (put_indices d)).
Definition deleteIndices (d : AuthorizationContext) : M unit := modify (with_indices (drop_indices d)).

Section store.
Variable ttl : Z.
Variable nested_valid : goval → bool.
Abbreviation Validate := (Validate nested_valid).

(** ** ttlcache *)

Definition live (now : Z) (it : item) : bool :=
  bool_decide (ttl ≤ 0) || negb (bool_decide (item_expires it < now)).

Definition touch (now : Z) (it : item) : item :=
  if bool_decide (0 < ttl) then mkItem (item_doc it) (now + ttl) else it.

(** [c.cache.Get(id)] *)
Definition cache_get (now : Z) (sid : string) : M (option loc) := fun s =>
  match cache s !! sid with
  | Some it =>
      if live now it
      then (with_cache (insert sid (touch now it)) s, Ok (Some (item_doc it)))
      else (s, Ok None)
  | None => (s, Ok None)
  end.

(** [c.cache.Set(id, doc, ttlcache.DefaultTTL)] *)
Definition cache_set (now : Z) (sid : string) (l : loc) : M unit :=
  modify (with_cache (insert sid (mkItem l (now + ttl)))).

(** [c.cache.Set(id, doc, ttlcache.PreviousOrDefaultTTL)] *)
Definition cache_set_previous (now : Z) (sid : string) (l : loc) : M unit := fun s =>
  let e := match cache s !! sid with Some it => item_expires it | None => now + ttl end in
  (with_cache (insert sid (mkItem l e)) s, Ok tt).

(** The item a session id names, or [ErrNoDocuments]. *)
Definition get_item (now : Z) (sid : string) : M loc :=
  r ← cache_get now sid; match r with Some l => mret l | None => throw ErrNoDocuments end.

Definition resolve_index (name value : string) : M string :=
  r ← gets (fun s => indices s !! index_key name value);
  match r with Some sid => mret sid | None => throw ErrNoDocuments end.

Definition update_doc (l : loc) (f : AuthorizationContext → AuthorizationContext) : M unit :=
  modify (fun s => write_doc l (f (deref s l)) s).

(** ** Save, Update, Delete *)

Definition Save (now : Z) (doc : option loc) : M unit :=
  match doc with
  | None => throw ErrNil
  | Some l =>
      d ← gets (fun s => deref s l);
      if str_empty (SessionID d) then throw ErrEmpty else
      if negb (Validate d) then throw ErrValidation else
      _ ← (if bool_decide (CreatedAt d = 0) then
             r ← cache_get now (SessionID d);
             match r with
             | Some l' =>
                 c ← gets (fun s => CreatedAt (deref s l'));
                 update_doc l (set_CreatedAt (if bool_decide (c = 0) then now else c))
             | None => update_doc l (set_CreatedAt now)
             end
           else mret tt);
      _ ← cache_set now (SessionID d) l;
      updateIndices d
  end.

Definition Create := Save.

Definition Update (now : Z) (doc : option loc) : M unit :=
  match doc with
  | None => throw ErrNil
  | Some l =>
      d ← gets (fun s => deref s l);
      if str_empty (SessionID d) then throw ErrEmpty else
      if negb (Validate d) then throw ErrValidation else
      old ← get_item now (SessionID d);
      old_doc ← gets (fun s => deref s old);
      _ ← deleteIndices old_doc;
      _ ← cache_set now (SessionID d) l;
      updateIndices d
  end.

(** [c.cache.Delete] evicts, and the callback is queued. *)
Definition cache_delete (sid : string) : M unit := modify (fun s =>
  match cache s !! sid with
  | Some it => mkStore (heap s) (next s) (delete sid (cache s)) (indices s) (evicted s ++ [item_doc it])
  | None => s
  end).

Definition Delete (now : Z) (id : string) : M unit :=
  if str_empty id then throw ErrEmpty else
  r ← cache_get now id;
  _ ← match r with
      | Some l => d ← gets (fun s => deref s l); deleteIndices d
      | None => mret tt
      end;
  cache_delete id.

(** The janitor removes an expired entry; the callback runs on its own. *)
Definition expire (now : Z) (sid : string) : M unit := fun s =>
  match cache s !! sid with
  | Some it => if live now it then (s, Ok tt) else cache_delete sid s
  | None => (s, Ok tt)
  end.
Definition eviction_callback : M unit := fun s =>
  match evicted s with
  | l :: rest =>
      (mkStore (heap s) (next s) (cache s) (drop_indices (deref s l) (indices s)) rest, Ok tt)
  | [] => (s, Ok tt)
  end.

(** ** Lookups *)

Definition resolve_fields (query : AuthorizationContext) : list (string * string) :=
  [("request_uri", RequestURI query); ("code", Code query); ("state", State query);
   ("verifier_response_code", VerifierResponseCode query);
   ("ephemeral_key_id", EphemeralEncryptionKeyID query);
   ("request_object_id", RequestObjectID query);
   ("auth_session", AuthSession query); ("issuer_state", IssuerState query)].

Fixpoint resolve_loop (fields : list (string * string)) : M string :=
  match fields with
  | [] => throw ErrQuery
  | (name, value) :: rest =>
      if str_empty value then resolve_loop rest else resolve_index name value
  end.

Definition resolveSessionIDLocked (query : AuthorizationContext) : M string :=
  if str_empty (SessionID query) then resolve_loop (resolve_fields query)
  else mret (SessionID query).

Definition getLocked (now : Z) (query : option AuthorizationContext) : M loc :=
  match query with
  | None => throw ErrNil
  | Some q => sid ← resolveSessionIDLocked q; get_item now sid
  end.

Definition Get := getLocked.

Definition GetSnapshot (now : Z) (query : option AuthorizationContext) : M loc :=
  l ← getLocked now query; d ← gets (fun s => deref s l); alloc d.

Definition get_by (now : Z) (name value : string) : M loc :=
  if str_empty value then throw ErrEmpty else
  sid ← resolve_index name value; get_item now sid.

Definition GetWithAccessToken (now : Z) (token : string) : M loc := get_by now "access_token" token.
Definition GetByAccessToken (now : Z) (token : string) : M loc := get_by now "access_token" token.
Definition GetByRefreshToken (now : Z) (token : string) : M loc := get_by now "refresh_token" token.
Definition GetByAuthorizationCode (now : Z) (code : string) : M loc := get_by now "code" code.
Definition GetByID (now : Z) (id : string) : M loc :=
  if str_empty id then throw ErrEmpty else get_item now id.

(** ** One-shot codes *)

Definition ForfeitAuthorizationCode (now : Z) (query : option AuthorizationContext) : M loc :=
  match query with
  | None => throw ErrNil
  | Some q =>
      sid ← (if negb (str_empty (Code q)) then resolve_index "code" (Code q)
             else if negb (str_empty (RequestURI q)) then resolve_index "request_uri" (RequestURI q)
             else throw ErrQuery);
      l ← get_item now sid;
      d ← gets (fun s => deref s l);
      if Forfeited d then throw ErrForfeited else
      _ ← update_doc l (set_Forfeited true);
      _ ← cache_set now sid l;
      d ← gets (fun s => deref s l);
      _ ← updateIndices d;
      mret l
  end.

Definition MarkCodeAsForfeited (now : Z) (id : string) : M unit :=
  if str_empty id then throw ErrEmpty else
  l ← get_item now id;
  d ← gets (fun s => deref s l);
  if Forfeited d then throw ErrForfeited else
  _ ← update_doc l (set_Forfeited true);
  cache_set now id l.

Definition RedeemPreAuthorizedCode (now : Z) (code dpopThumbprint : string) : M loc :=
  if str_empty code then throw ErrEmpty else
  if str_empty dpopThumbprint then throw ErrEmpty else
  if bool_decide (128 < Z.of_nat (String.length dpopThumbprint)) then throw ErrThumbprintLength else
  sid ← resolve_index "code" code;
  l ← get_item now sid;
  d ← gets (fun s => deref s l);
  if Forfeited d then throw ErrForfeited else
  if bool_decide (dpopThumbprint ∈ RedeemedBy d) then throw ErrAlreadyRedeemed else
  if bool_decide (MaxPreAuthRedeemers ≤ Z.of_nat (length (RedeemedBy d))) then throw ErrMaxRedemptions else
  _ ← update_doc l (set_RedeemedBy (RedeemedBy d ++ [dpopThumbprint])%list);
  _ ← cache_set_previous now sid l;
  mret l.

Definition ConsumeTXCodeAttempt (now : Z) (code : string) : M loc :=
  if str_empty code then throw ErrEmpty else
  sid ← resolve_index "code" code;
  l ← get_item now sid;
  d ← gets (fun s => deref s l);
  if Forfeited d then throw ErrForfeited else
  if bool_decide (MaxTXCodeAttempts ≤ TXCodeAttempts d) then
    _ ← update_doc l (set_Forfeited true);
    _ ← cache_set_previous now sid l;
    throw ErrTXCodeAttemptsExceeded
  else
    _ ← update_doc l (set_TXCodeAttempts (TXCodeAttempts d + 1));
    _ ← cache_set_previous now sid l;
    mret l.

(** ** Field updates *)

Definition Consent_ (now : Z) (query : option AuthorizationContext) : M unit :=
  match query with
  | None => throw ErrEmpty
  | Some q =>
      if str_empty (RequestURI q) then throw ErrEmpty else
      sid ← resolve_index "request_uri" (RequestURI q);
      l ← get_item now sid;
      _ ← update_doc l (set_Consent true);
      _ ← cache_set now sid l;
      d ← gets (fun s => deref s l);
      updateIndices d
  end.

Definition ExtendExpiry (now : Z) (query : option AuthorizationContext) (expiresAt : Z) : M unit :=
  match query with
  | None => throw ErrNil
  | Some q =>
      sid ← resolveSessionIDLocked q;
      l ← get_item now sid;
      stored ← gets (fun s => deref s l);
      if bool_decide (expiresAt ≤ ExpiresAt stored) then mret tt else
      let updated := set_ExpiresAt expiresAt stored in
      l' ← alloc updated;
      _ ← cache_set now sid l';
      updateIndices updated
  end.

Definition AddToken (now : Z) (code : string) (token : option token) : M unit :=
  if str_empty code then throw ErrEmpty else
  sid ← resolve_index "code" code;
  l ← get_item now sid;
  _ ← update_doc l (set_Token token);
  _ ← cache_set now sid l;
  d ← gets (fun s => deref s l);
  updateIndices d.

Definition SetAuthenticSource (now : Z) (query : option AuthorizationContext) (v : string) : M unit :=
  if str_empty v then throw ErrEmpty else
  match query with
  | None => throw ErrEmpty
  | Some q =>
      if str_empty (SessionID q) then throw ErrEmpty else
      l ← get_item now (SessionID q);
      _ ← update_doc l (set_AuthenticSource v);
      cache_set now (SessionID q) l
  end.

Definition SetIdentifier (now : Z) (query : option AuthorizationContext) (v : string) : M unit :=
  match query with
  | None => throw ErrNil
  | Some q =>
      if str_empty v then throw ErrEmpty else
      if str_empty (SessionID q) then throw ErrEmpty else
      l ← get_item now (SessionID q);
      _ ← update_doc l (set_Identifier v);
      cache_set now (SessionID q) l
  end.

Definition SetAuthProvider (now : Z) (sid : string) (fields : AuthProviderFields) : M unit :=
  if str_empty sid then throw ErrEmpty else
  l ← get_item now sid;
  d ← gets (fun s => deref s l);
  let updated := with_provider fields d in
  l' ← alloc updated;
  _ ← cache_set now sid l';
  updateIndices updated.

(** ** Refresh tokens *)

Definition RotateRefreshToken (now : Z) (oldToken : string) (updated : option loc) : M unit :=
  if str_empty oldToken then throw ErrEmpty else
  match updated with
  | None => throw ErrEmpty
  | Some l =>
      u ← gets (fun s => deref s l);
      if str_empty (SessionID u) then throw ErrEmpty else
      sid ← resolve_index "refresh_token" oldToken;
      if negb (bool_decide (SessionID u = sid)) then throw ErrSessionMismatch else
      old ← get_item now sid;
      d ← gets (fun s => deref s old);
      if negb (bool_decide (RefreshToken d = oldToken)) then throw ErrNoDocuments else
      _ ← deleteIndices d;
      _ ← cache_set now sid l;
      updateIndices u
  end.

(** ** One-shot handles *)

(** The item behind a handle; a dangling index is removed. *)
Definition claim_item (now : Z) (key sid : string) : M loc :=
  r ← cache_get now sid;
  match r with
  | Some l => mret l
  | None => _ ← modify (with_indices (delete key)); throw ErrNoDocuments
  end.

Definition claimIndexedHandle (now : Z) (indexPrefix handle : string)
    (read : AuthorizationContext → string) (clear : AuthorizationContext → AuthorizationContext) : M loc :=
  let key := index_key indexPrefix handle in
  sid ← resolve_index indexPrefix handle;
  l ← claim_item now key sid;
  stored ← gets (fun s => deref s l);
  if negb (bool_decide (read stored = handle)) then throw ErrNoDocuments else
  claimed ← alloc (clear stored);
  replacement ← alloc (clear stored);
  _ ← modify (with_indices (delete key));
  _ ← cache_set_previous now sid replacement;
  mret claimed.

Definition ClaimAuthSession (now : Z) (authSession : string) : M loc :=
  if str_empty authSession then throw ErrEmpty else
  claimIndexedHandle now "auth_session" authSession AuthSession (set_AuthSession "").

Definition ClaimIssuerState (now : Z) (issuerState : string) (opened : option loc) : M loc :=
  if str_empty issuerState then throw ErrEmpty else
  match opened with
  | None => throw ErrEmpty
  | Some lo =>
      o ← gets (fun s => deref s lo);
      if str_empty (SessionID o) then throw ErrEmpty else
      let stored := set_IssuerState "" o in
      if negb (Validate stored) then throw ErrValidation else
      let key := index_key "issuer_state" issuerState in
      sid ← resolve_index "issuer_state" issuerState;
      if negb (bool_decide (sid = SessionID o)) then throw ErrNoDocuments else
      l ← claim_item now key sid;
      d ← gets (fun s => deref s l);
      if negb (bool_decide (IssuerState d = issuerState)) then throw ErrNoDocuments else
      _ ← deleteIndices d;
      _ ← modify (with_indices (delete key));
      ls ← alloc stored;
      _ ← cache_set now sid ls;
      _ ← updateIndices stored;
      alloc stored
  end.

Definition ResumeIssuerState (now : Z) (issuerState : string) (resume : option IssuerStateResume) : M loc :=
  if str_empty issuerState then throw ErrEmpty else
  match resume with
  | None => throw ErrNil
  | Some r =>
      sid ← resolve_index "issuer_state" issuerState;
      l ← claim_item now (index_key "issuer_state" issuerState) sid;
      d ← gets (fun s => deref s l);
      if negb (bool_decide (IssuerState d = issuerState)) then throw ErrNoDocuments else
      _ ← deleteIndices d;
      let d' := applyTo r (set_IssuerState "" d) in
      _ ← update_doc l (fun _ => d');
      _ ← cache_set now sid l;
      _ ← updateIndices d';
      alloc d'
  end.

(** A caller changes a document through a pointer it was given. *)
Definition Poke (l : loc) (d : AuthorizationContext) : M unit := modify (write_doc l d).
End store.
