(* ===== verification/AuthStoreSteps.v ===== *)
(** * The authorization context store as a state machine

    Every operation of the store, the janitor, the eviction callback and the
    callers' writes through the pointers they hold, as steps of one machine;
    and the one-shot guarantees that hold along every run of it. *)

From S2P Require Import Prelude GoValue AuthContext AuthStore.

(** ** Steps *)

Inductive action :=
| ASave (l : loc) | AUpdate (l : loc) | ADelete (id : string)
| AExpire (sid : string) | ACallback
| AGet (q : AuthorizationContext) | ASnapshot (q : AuthorizationContext)
| AGetBy (name value : string) | AGetByID (id : string)
| AForfeit (q : AuthorizationContext) | AMark (id : string)
| ARedeem (code thumbprint : string) | AConsume (code : string)
| AConsent (q : AuthorizationContext) | AExtend (q : AuthorizationContext) (e : Z)
| AAddToken (code : string) (t : option token)
| ASetSource (q : AuthorizationContext) (v : string)
| ASetIdentifier (q : AuthorizationContext) (v : string)
| ASetProvider (sid : string) (f : AuthProviderFields)
| ARotate (old : string) (l : loc)
| AClaimAuth (h : string) | AClaimIssuer (h : string) (l : loc)
| AResume (h : string) (r : IssuerStateResume)
| APoke (l : loc) (d : AuthorizationContext).

Section steps.
Variable ttl : Z.
Variable nested_valid : goval → bool.

Definition ignore {A} (m : M A) : M unit := _ ← m; mret tt.

Definition exec (now : Z) (a : action) : M unit :=
  match a with
  | ASave l => Save ttl nested_valid now (Some l)
  | AUpdate l => Update ttl nested_valid now (Some l)
  | ADelete id => Delete ttl now id
  | AExpire sid => expire ttl now sid
  | ACallback => eviction_callback
  | AGet q => ignore (Get ttl now (Some q))
  | ASnapshot q => ignore (GetSnapshot ttl now (Some q))
  | AGetBy name v => ignore (get_by ttl now name v)
  | AGetByID id => ignore (GetByID ttl now id)
  | AForfeit q => ignore (ForfeitAuthorizationCode ttl now (Some q))
  | AMark id => MarkCodeAsForfeited ttl now id
  | ARedeem c t => ignore (RedeemPreAuthorizedCode ttl now c t)
  | AConsume c => ignore (ConsumeTXCodeAttempt ttl now c)
  | AConsent q => Consent_ ttl now (Some q)
  | AExtend q e => ExtendExpiry ttl now (Some q) e
  | AAddToken c t => AddToken ttl now c t
  | ASetSource q v => SetAuthenticSource ttl now (Some q) v
  | ASetIdentifier q v => SetIdentifier ttl now (Some q) v
  | ASetProvider sid f => SetAuthProvider ttl now sid f
  | ARotate old l => RotateRefreshToken ttl now old (Some l)
  | AClaimAuth h => ignore (ClaimAuthSession ttl now h)
  | AClaimIssuer h l => ignore (ClaimIssuerState ttl nested_valid now h (Some l))
  | AResume h r => ignore (ResumeIssuerState ttl now h (Some r))
  | APoke l d => Poke l d
  end.

(** The pointers a caller passes in; it can only hold allocated ones. *)
Definition pointer (a : action) : option loc :=
  match a with
  | ASave l | AUpdate l | ARotate _ l | AClaimIssuer _ l | APoke l _ => Some l
  | _ => None
  end.
Definition valid_pointers (s : store) (a : action) : Prop :=
  match pointer a with Some l => (l < next s)%nat | None => True end.

(** A run: at each step some time and some action, with valid pointers;
    [P] restricts what the actions may bring in. *)
Inductive steps (P : store → action → Prop) : store → store → Prop :=
| steps_refl s : steps P s s
| steps_step s now a s' :
    valid_pointers s a → P s a → steps P (fst (exec now a s)) s' → steps P s s'.
End steps.

(** The one-shot handles. *)
Inductive handle := HAuthSession | HIssuerState | HRefreshToken.
Definition read_handle (f : handle) (d : AuthorizationContext) : string :=
  match f with
  | HAuthSession => AuthSession d
  | HIssuerState => IssuerState d
  | HRefreshToken => RefreshToken d
  end.

Definition handle_name (f : handle) : string :=
  match f with
  | HAuthSession => "auth_session"
  | HIssuerState => "issuer_state"
  | HRefreshToken => "refresh_token"
  end.

(** The action persists no document that carries the handle [h]. *)
Definition brings_no (f : handle) (h : string) (s : store) (a : action) : Prop :=
  match a with
  | ASave l | AUpdate l | ARotate _ l => read_handle f (deref s l) ≠ h
  | AClaimIssuer _ l => read_handle f (set_IssuerState "" (deref s l)) ≠ h
  | APoke _ d => read_handle f d ≠ h
  | AResume _ r => match f with HAuthSession => r_AuthSession r ≠ h | _ => True end
  | _ => True
  end.

(** ** Indices *)

Lemma put_indices_other d k m : k ∉ index_keys d → put_indices d m !! k = m !! k.
Proof.
  unfold put_indices. revert m. induction (index_keys d) as [|k' l IH]; intros m Hk; [done|].
  apply not_elem_of_cons in Hk as [Hne Hk]. cbn. rewrite IH by done. by apply lookup_insert_ne.
Qed.

Lemma put_indices_in d k m : k ∈ index_keys d → put_indices d m !! k = Some (SessionID d).
Proof.
  unfold put_indices. revert m. induction (index_keys d) as [|k' l IH]; intros m Hk; [set_solver|].
  cbn. destruct (decide (k ∈ l)) as [Hl|Hl]; [by apply IH|].
  assert (k' = k) as -> by set_solver.
  assert (∀ m, foldl (fun m k => <[k := SessionID d]> m) m l !! k = m !! k) as ->.
  { clear - Hl. induction l as [|k' l IH]; intros m; [done|]. cbn. rewrite IH by set_solver.
    apply lookup_insert_ne. set_solver. }
  by apply lookup_insert_eq.
Qed.

Lemma drop_indices_None d k m :
  m !! k = None ∨ k ∈ index_keys d → drop_indices d m !! k = None.
Proof.
  unfold drop_indices. revert m. induction (index_keys d) as [|k' l IH]; intros m Hk; [set_solver|].
  cbn. apply IH. destruct (decide (k' = k)) as [->|Hne]; [left; by apply lookup_delete_eq|].
  rewrite lookup_delete_ne by done. set_solver.
Qed.

(** A document's key of a handle is the one its field gives. *)
Lemma index_key_handle f h d :
  h ≠ "" → index_key (handle_name f) h ∈ index_keys d ↔ read_handle f d = h.
Proof.
  intros Hh. unfold index_keys.
  rewrite list_elem_of_fmap. split.
  - intros ([n v] & E & Hin). apply list_elem_of_In, filter_In in Hin as [Hin _].
    unfold index_key in E. apply colon_key_inj in E as [En Ev]; [|by destruct f|].
    + cbn in En, Ev. subst. destruct f; cbn in Hin;
        repeat destruct Hin as [Hin|Hin]; simplify_eq/=; done.
    + cbn in Hin. repeat destruct Hin as [Hin|Hin]; simplify_eq/=; done.
  - intros E. exists (handle_name f, h). split; [done|].
    apply list_elem_of_In, filter_In. split; [|cbn; by rewrite (proj2 (str_empty_false h))].
    destruct f; cbn in E |- *; rewrite E; tauto.
Qed.

(** ** Invariants of the cached documents

    [D sid d] is what a document cached under [sid] satisfies, [S] what the index
    entry of the key points to, and [K] what is known of a document behind a
    pointer somebody holds.  All that the store's operations do to a document is
    an [edit]; whatever is closed under them, and holds of the documents that
    callers persist, holds in every state. *)

Inductive edit : AuthorizationContext → AuthorizationContext → Prop :=
| edit_CreatedAt v d : edit d (set_CreatedAt v d)
| edit_ExpiresAt v d : edit d (set_ExpiresAt v d)
| edit_AuthSession d : edit d (set_AuthSession "" d)
| edit_IssuerState d : edit d (set_IssuerState "" d)
| edit_Forfeited d : edit d (set_Forfeited true d)
| edit_RedeemedBy v d : edit d (set_RedeemedBy v d)
| edit_TXCodeAttempts v d : edit d (set_TXCodeAttempts v d)
| edit_Consent d : edit d (set_Consent true d)
| edit_AuthenticSource v d : edit d (set_AuthenticSource v d)
| edit_Identifier v d : edit d (set_Identifier v d)
| edit_provider f d : edit d (with_provider f d).
#[export] Hint Constructors edit : vc.

Definition wp {A} (m : M A) (Q : store → result cache_error A → Prop) (s : store) : Prop :=
  Q (fst (m s)) (snd (m s)).

Lemma wp_bind {A B} (m : M A) (k : A → M B) Q s :
  wp m (fun s' r => match r with Ok a => wp (k a) Q s' | Err e => Q s' (Err e) end) s →
  wp (m ≫= k) Q s.
Proof. unfold wp, mbind, M_bind. by destruct (m s) as [s' [a|e]]. Qed.

Lemma wp_mret {A} (a : A) (Q : store → result cache_error A → Prop) s : Q s (Ok a) → wp (mret a) Q s.
Proof. done. Qed.
Lemma wp_throw {A} e (Q : store → result cache_error A → Prop) s : Q s (Err e) → wp (throw e) Q s.
Proof. done. Qed.

Lemma wp_mono {A} (m : M A) (Q Q' : store → result cache_error A → Prop) s :
  wp m Q s → (∀ s' r, Q s' r → Q' s' r) → wp m Q' s.
Proof. unfold wp. auto. Qed.

Lemma wp_pure {A} (m : M A) (g : store → A) (Q : store → result cache_error A → Prop) s :
  m = gets g → Q s (Ok (g s)) → wp m Q s.
Proof. by intros ->. Qed.

Lemma wp_resolve_index name v s (Q : store → result cache_error string → Prop) :
  (∀ r, Q s r) → wp (resolve_index name v) Q s.
Proof. intros HQ. unfold wp, resolve_index, mbind, M_bind, gets. by case_match. Qed.

Lemma wp_resolve_loop l s (Q : store → result cache_error string → Prop) :
  (∀ r, Q s r) → wp (resolve_loop l) Q s.
Proof.
  intros HQ. induction l as [|[n v] l IH]; cbn; [by apply HQ|].
  case_match; [done|]. by apply wp_resolve_index.
Qed.

Lemma wp_resolve q s (Q : store → result cache_error string → Prop) :
  (∀ r, Q s r) → wp (resolveSessionIDLocked q) Q s.
Proof.
  intros HQ. unfold resolveSessionIDLocked. case_match; [by apply wp_resolve_loop|by apply HQ].
Qed.

Section invariant.
Variable D : string → AuthorizationContext → Prop.
Variable K : AuthorizationContext → Prop.
Variable key : string.
Variable S : string → Prop.
Hypothesis D_edit : ∀ sid d d', edit d d' → D sid d → D sid d'.
Hypothesis K_edit : ∀ d d', edit d d' → K d → K d'.
Hypothesis D_index : ∀ sid d, D sid d → key ∈ index_keys d → S (SessionID d).

Definition good (s : store) (sid : string) (l : loc) : Prop := (l < next s)%nat ∧ D sid (deref s l).
Definition known (s : store) (l : loc) : Prop := (l < next s)%nat ∧ K (deref s l).
Definition holds (s : store) : Prop :=
  (∀ sid it, cache s !! sid = Some it → good s sid (item_doc it)) ∧
  (∀ sid, indices s !! key = Some sid → S sid).

(** What every operation keeps. *)
Definition keeps (s s' : store) : Prop :=
  holds s' ∧ (∀ sid l, good s sid l → good s' sid l) ∧ (∀ l, known s l → known s' l) ∧ (next s ≤ next s')%nat.

Lemma keeps_refl s : holds s → keeps s s.
Proof. by split. Qed.
Lemma keeps_trans s1 s2 s3 : keeps s1 s2 → keeps s2 s3 → keeps s1 s3.
Proof. intros (_ & A2 & A3 & A4) (B1 & B2 & B3 & B4). split_and!; [done|auto..|lia]. Qed.

Lemma wp_cache_get ttl now sid s :
  holds s →
  wp (cache_get ttl now sid) (fun s' r => keeps s s' ∧ ∃ o, r = Ok o ∧ ∀ l, o = Some l → good s' sid l) s.
Proof.
  intros Hc. unfold wp, cache_get. destruct (cache s !! sid) as [it|] eqn:E; cbn.
  2:{ split; [by apply keeps_refl|]. by exists None. }
  case_match; cbn; [|split; [by apply keeps_refl|]; by exists None].
  destruct Hc as [Hc Hi]. split.
  - split; [|done]. split; [|done]. intros sid' it'. cbn. rewrite lookup_insert_Some. intros [[<- <-]|[_ H']].
    + unfold touch. case_match; cbn; by apply (Hc sid it).
    + by apply (Hc sid' it').
  - eexists. split; [done|]. intros l [= <-]. by apply (Hc sid it).
Qed.

Lemma wp_get_item ttl now sid s :
  holds s →
  wp (get_item ttl now sid) (fun s' r => keeps s s' ∧ match r with Ok l => good s' sid l | Err _ => True end) s.
Proof.
  intros Hc. apply wp_bind. eapply wp_mono; [by apply wp_cache_get|].
  intros s' r [Hk (o & -> & Ho)]. destruct o as [l|]; split; try done. by apply Ho.
Qed.

Lemma holds_with_indices g s :
  holds s → (∀ m, (∀ sid, m !! key = Some sid → S sid) → ∀ sid, g m !! key = Some sid → S sid) →
  keeps s (with_indices g s).
Proof. intros [Hc Hi] Hg. split; [|done]. split; [done|]. by apply Hg. Qed.

Lemma put_sound d sid m :
  D sid d → (∀ sid, m !! key = Some sid → S sid) → ∀ sid, put_indices d m !! key = Some sid → S sid.
Proof using D_index.
  intros Hd Hm sid'. destruct (decide (key ∈ index_keys d)) as [Hk|Hk].
  - rewrite put_indices_in by done. intros [= <-]. by eapply D_index.
  - rewrite put_indices_other by done. apply Hm.
Qed.

Lemma holds_cache_insert sid l e s : holds s → good s sid l → keeps s (with_cache (insert sid (mkItem l e)) s).
Proof.
  intros [Hc Hi] Hl. split; [|done]. split; [|done]. intros sid' it'. cbn. rewrite lookup_insert_Some.
  intros [[<- <-]|[_ H']]; [exact Hl|by apply (Hc sid' it')].
Qed.

Lemma holds_write l d s :
  holds s → (∀ sid, D sid (deref s l) → D sid d) → (K (deref s l) → K d) → keeps s (write_doc l d s).
Proof.
  intros [Hc Hi] Hd Hkd.
  assert (∀ l', deref (write_doc l d s) l' = if decide (l = l') then d else deref s l') as Hr.
  { intros l'. unfold deref. cbn. case_decide as E; [subst; by rewrite lookup_insert_eq|by rewrite lookup_insert_ne]. }
  assert (∀ sid l', good s sid l' → good (write_doc l d s) sid l') as Hg.
  { intros sid l' [Hb Hl']. split; [done|]. rewrite Hr. case_decide; [subst; auto|done]. }
  split_and!; [|done| |done].
  - split; [|done]. intros sid it Hi'. by apply Hg, Hc.
  - intros l' [Hb Hl']. split; [done|]. rewrite Hr. case_decide; [subst; auto|done].
Qed.

Lemma holds_alloc d s : holds s → keeps s (fst (alloc d s)).
Proof.
  intros [Hc Hi].
  assert (∀ l, (l < next s)%nat → deref (fst (alloc d s)) l = deref s l) as Hr.
  { intros l Hl. unfold deref. cbn. by rewrite lookup_insert_ne by lia. }
  assert (∀ sid l, good s sid l → good (fst (alloc d s)) sid l) as Hg.
  { intros sid' l [Hb Hl]. split; cbn; [lia|]. by rewrite Hr. }
  split_and!; [|done| |cbn; lia].
  - split; [|done]. intros sid' it Hi'. by apply Hg, Hc.
  - intros l [Hb Hl]. split; cbn; [lia|]. by rewrite Hr.
Qed.

Lemma wp_alloc sid d (Q : store → result cache_error loc → Prop) s :
  holds s → D sid d → (∀ s' l, keeps s s' → good s' sid l → Q s' (Ok l)) → wp (alloc d) Q s.
Proof.
  intros Hs Hd HQ. apply HQ; [by apply holds_alloc|]. split; cbn; [lia|]. unfold deref. cbn. by rewrite lookup_insert_eq.
Qed.

Lemma wp_cache_set_previous ttl now sid l (Q : store → result cache_error unit → Prop) s :
  holds s → good s sid l → (∀ s', keeps s s' → Q s' (Ok tt)) → wp (cache_set_previous ttl now sid l) Q s.
Proof. intros Hc Hl HQ. apply HQ. by apply holds_cache_insert. Qed.

Lemma wp_cache_set ttl now sid l (Q : store → result cache_error unit → Prop) s :
  holds s → good s sid l → (∀ s', keeps s s' → Q s' (Ok tt)) → wp (cache_set ttl now sid l) Q s.
Proof. intros Hc Hl HQ. apply HQ. by apply holds_cache_insert. Qed.

Lemma delete_sound (k : string) (m : gmap string string) :
  (∀ sid, m !! key = Some sid → S sid) → ∀ sid, delete k m !! key = Some sid → S sid.
Proof. intros Hm sid [_ H]%lookup_delete_Some. auto. Qed.

Lemma drop_sound d (m : gmap string string) :
  (∀ sid, m !! key = Some sid → S sid) → ∀ sid, drop_indices d m !! key = Some sid → S sid.
Proof.
  unfold drop_indices. revert m. induction (index_keys d) as [|k ks IH]; intros m Hm; [done|]. cbn.
  apply IH, delete_sound, Hm.
Qed.

Lemma wp_claim_item ttl now k sid s :
  holds s →
  wp (claim_item ttl now k sid) (fun s' r => keeps s s' ∧ match r with Ok l => good s' sid l | Err _ => True end) s.
Proof.
  intros Hc. apply wp_bind. eapply wp_mono; [by apply wp_cache_get|].
  intros s' r [Hk (o & -> & Ho)]. destruct o as [l|]; cbn; split; try done; [by apply Ho|].
  eapply keeps_trans; [done|]. apply holds_with_indices; [apply Hk|]. intros m Hm. by apply delete_sound.
Qed.

Lemma holds_delete sid s : holds s → keeps s (fst (cache_delete sid s)).
Proof.
  intros [Hc Hi]. unfold cache_delete. cbn. case_match; [|by apply keeps_refl]. split; [|done].
  split; [|done]. intros sid' it'. cbn. rewrite lookup_delete_Some. intros [_ Hi']. by apply (Hc sid' it').
Qed.

Lemma wp_deref sid l (Q : store → result cache_error AuthorizationContext → Prop) s :
  good s sid l → (∀ d, D sid d → Q s (Ok d)) → wp (gets (fun s => deref s l)) Q s.
Proof. intros [_ Hd] HQ. by apply HQ. Qed.

Lemma wp_update_doc l g (Q : store → result cache_error unit → Prop) s :
  holds s → (∀ sid d, D sid d → D sid (g d)) → (∀ d, K d → K (g d)) →
  (∀ s', keeps s s' → Q s' (Ok tt)) → wp (update_doc l g) Q s.
Proof. intros Hc Hg Hk HQ. apply HQ, holds_write; auto. Qed.

Lemma wp_overwrite sid l d (Q : store → result cache_error unit → Prop) s :
  holds s → good s sid l → (∀ sid, D sid (deref s l) → D sid d) → (K (deref s l) → K d) →
  (∀ s', keeps s s' → D sid d → Q s' (Ok tt)) → wp (update_doc l (fun _ => d)) Q s.
Proof. intros Hc [_ Hl] Hd Hk HQ. apply HQ; [by apply holds_write|auto]. Qed.

Lemma wp_updateIndices sid d (Q : store → result cache_error unit → Prop) s :
  holds s → D sid d → (∀ s', keeps s s' → Q s' (Ok tt)) → wp (updateIndices d) Q s.
Proof using D_index. intros Hc Hd HQ. apply HQ, holds_with_indices; [done|]. intros. by eapply put_sound. Qed.

Lemma wp_deleteIndices d (Q : store → result cache_error unit → Prop) s :
  holds s → (∀ s', keeps s s' → Q s' (Ok tt)) → wp (deleteIndices d) Q s.
Proof. intros Hc HQ. apply HQ, holds_with_indices; [done|]. intros. by eapply drop_sound. Qed.

Lemma wp_delete_index k (Q : store → result cache_error unit → Prop) s :
  holds s → (∀ s', keeps s s' → Q s' (Ok tt)) → wp (modify (with_indices (delete k))) Q s.
Proof. intros Hc HQ. apply HQ, holds_with_indices; [done|]. intros. by eapply delete_sound. Qed.
End invariant.

(** Move the facts about pointers to the new state, and the account of what was
    kept so far. *)
Ltac carry H :=
  lazymatch type of H with
  | keeps ?D ?K ?key ?S ?s ?s' =>
      let K1 := fresh "Hc" in let K2 := fresh "Kg" in
      assert (K1 : holds D key S s') by exact (proj1 H);
      assert (K2 : ∀ sid l, good D s sid l → good D s' sid l) by exact (proj1 (proj2 H));
      repeat match goal with Hg : good _ s _ _ |- _ => apply K2 in Hg end;
      clear K2;
      match goal with T : keeps D K key S ?s0 s |- _ => apply (keeps_trans D K key S s0 s s' T) in H; clear T end
  end.

Section own.
Variable D : string → AuthorizationContext → Prop.

(** The document a caller passes in is read under its own session id. *)
Lemma wp_deref_own l (Q : store → result cache_error AuthorizationContext → Prop) s :
  good D s (SessionID (deref s l)) l →
  (∀ d, good D s (SessionID d) l → D (SessionID d) d → Q s (Ok d)) → wp (gets (fun s => deref s l)) Q s.
Proof. intros Hg HQ. by apply HQ; [|apply Hg]. Qed.
End own.

(** A document changed by the store. *)
Ltac edited :=
  first [ eassumption
        | auto; fail
        | intros; match goal with
          | E : ∀ sid d d', edit d d' → _ |- _ => eapply E; [constructor|eassumption]
          | E : ∀ d d', edit d d' → _ |- _ => eapply E; [constructor|eassumption]
          end ].

(** One primitive of an operation. *)
Ltac wp_prim :=
  lazymatch goal with
  | T : keeps ?D ?K ?key ?S _ _ |- _ =>
  lazymatch goal with
  | |- wp (mbind _ _) _ _ => apply wp_bind
  | |- wp (if ?b then _ else _) _ _ => destruct b eqn:?
  | |- wp (match ?x with _ => _ end) _ _ => destruct x eqn:?
  | |- wp (get_item _ _ _) _ _ =>
      eapply wp_mono; [apply (wp_get_item D K key S); assumption|];
      let K := fresh "T" in intros ? [?|?] [K ?]; carry K
  | |- wp (claim_item _ _ _ _) _ _ =>
      eapply wp_mono; [apply (wp_claim_item D K key S); assumption|];
      let K := fresh "T" in intros ? [?|?] [K ?]; carry K
  | |- wp (cache_get _ _ _) _ _ =>
      eapply wp_mono; [apply (wp_cache_get D K key S); assumption|];
      let K := fresh "T" in let Ho := fresh "Ho" in
      intros ? ? [K ([?|] & -> & Ho)]; [specialize (Ho _ eq_refl)|clear Ho]; carry K
  | |- wp (resolve_index _ _) _ _ => apply wp_resolve_index; intros [?|?]
  | |- wp (resolveSessionIDLocked _) _ _ => apply wp_resolve; intros [?|?]
  | |- wp (updateIndices _) _ _ =>
      eapply (wp_updateIndices D K key S); [assumption|assumption|edited|]; let K := fresh "T" in intros ? K; carry K
  | |- wp (deleteIndices _) _ _ =>
      eapply (wp_deleteIndices D K key S); [assumption|]; let K := fresh "T" in intros ? K; carry K
  | |- wp (modify (with_indices (delete _))) _ _ =>
      eapply (wp_delete_index D K key S); [assumption|]; let K := fresh "T" in intros ? K; carry K
  | |- wp (cache_set _ _ _ _) _ _ =>
      eapply (wp_cache_set D K key S); [assumption..|]; let K := fresh "T" in intros ? K; carry K
  | |- wp (cache_set_previous _ _ _ _) _ _ =>
      eapply (wp_cache_set_previous D K key S); [assumption..|]; let K := fresh "T" in intros ? K; carry K
  | |- wp (update_doc _ _) _ _ =>
      eapply (wp_update_doc D K key S); [assumption|edited|edited|]; let K := fresh "T" in intros ? K; carry K
  | |- wp (alloc _) _ _ =>
      eapply (wp_alloc D K key S); [assumption|edited|]; let K := fresh "T" in intros ? ? K ?; carry K
  | |- wp (gets (fun s => deref s _)) _ _ =>
      first [ apply (wp_deref_own D); [assumption|]; intros ? ? ? | eapply (wp_deref D); [eassumption|]; intros ? ? ]
  | |- wp (gets _) _ _ => apply wp_pure with (1 := eq_refl)
  | |- wp (mret _) _ _ => apply wp_mret
  | |- wp (throw _) _ _ => apply wp_throw
  end end; cbv beta iota.
Ltac same_session :=
  match goal with
  | H : negb (bool_decide (SessionID _ = _)) = false |- _ => apply negb_false_iff, bool_decide_eq_true in H; subst
  | H : negb (bool_decide (_ = SessionID _)) = false |- _ => apply negb_false_iff, bool_decide_eq_true in H; subst
  end.
Ltac wp_walk := repeat (wp_prim; try same_session); try assumption.

Section operations.
Variable D : string → AuthorizationContext → Prop.
Variable K : AuthorizationContext → Prop.
Variable key : string.
Variable S : string → Prop.
Hypothesis D_edit : ∀ sid d d', edit d d' → D sid d → D sid d'.
Hypothesis K_edit : ∀ d d', edit d d' → K d → K d'.
Hypothesis D_index : ∀ sid d, D sid d → key ∈ index_keys d → S (SessionID d).
Variable ttl : Z.
Variable nested_valid : goval → bool.

(** What a caller brings in respects the invariant. *)
Definition allowed (s : store) (a : action) : Prop :=
  match a with
  | ASave l | AUpdate l | ARotate _ l => D (SessionID (deref s l)) (deref s l)
  | AClaimIssuer _ l => D (SessionID (deref s l)) (set_IssuerState "" (deref s l))
  | APoke l d => (∀ sid, D sid (deref s l) → D sid d) ∧ (K (deref s l) → K d)
  | AAddToken _ t => (∀ sid d, D sid d → D sid (set_Token t d)) ∧ (∀ d, K d → K (set_Token t d))
  | AResume _ r => (∀ sid d, D sid d → D sid (applyTo r d)) ∧ (∀ d, K d → K (applyTo r d))
  | _ => True
  end.

Ltac start :=
  match goal with H : holds _ _ _ ?s |- wp ?m _ ?s =>
    let T := fresh "T" in pose proof (keeps_refl D K key S s H) as T end;
  try match goal with
  | Hv : (?l < next ?s)%nat, Hb : D _ (deref ?s ?l) |- _ => assert (good D s (SessionID (deref s l)) l) by (by split)
  end; unfold ignore.

Lemma exec_keeps now a s :
  valid_pointers s a → allowed s a → holds D key S s →
  wp (exec ttl nested_valid now a) (fun s' _ => keeps D K key S s s') s.
Proof using D_edit K_edit D_index.
  destruct a; intros Hv Ha Hs; cbn [valid_pointers pointer allowed exec] in *; start.
  - unfold Save. wp_walk.
  - unfold Update. wp_walk.
  - unfold Delete. wp_walk. all: unfold wp; eapply keeps_trans; [eassumption|]; by apply holds_delete.
  - unfold expire, wp. repeat case_match; cbn [fst]; try done. by apply holds_delete.
  - unfold eviction_callback, wp. case_match; cbn; [done|].
    destruct Hs as [Hc Hi]. split; [|done]. split; [done|]. by eapply drop_sound.
  - unfold Get, getLocked. wp_walk.
  - unfold GetSnapshot, getLocked. wp_walk.
  - unfold get_by. wp_walk.
  - unfold GetByID. wp_walk.
  - unfold ForfeitAuthorizationCode. wp_walk.
  - unfold MarkCodeAsForfeited. wp_walk.
  - unfold RedeemPreAuthorizedCode. wp_walk.
  - unfold ConsumeTXCodeAttempt. wp_walk.
  - unfold Consent_. wp_walk.
  - unfold ExtendExpiry. wp_walk.
  - unfold AddToken. destruct Ha. wp_walk.
  - unfold SetAuthenticSource. wp_walk.
  - unfold SetIdentifier. wp_walk.
  - unfold SetAuthProvider. wp_walk.
  - unfold RotateRefreshToken. wp_walk.
  - unfold ClaimAuthSession, claimIndexedHandle. wp_walk.
  - unfold ClaimIssuerState. wp_prim. wp_prim; [by wp_walk|].
    apply wp_bind. eapply wp_pure; [done|]. cbv beta iota. wp_walk.
  - unfold ResumeIssuerState. destruct Ha as [HaD HaK]. apply wp_bind. destruct (str_empty h); [done|].
    apply wp_bind, wp_resolve_index. intros [sid|e]; [|done]. cbv beta iota.
    apply wp_bind. eapply wp_mono; [apply (wp_claim_item D K key S); assumption|]. intros s1 [l|e] [T1 Hl]; [|done].
    apply wp_bind. eapply wp_pure; [done|]. cbv beta iota. destruct (negb _); [done|].
    set (d' := applyTo r (set_IssuerState "" (deref s1 l))). apply wp_bind.
    set (s2 := with_indices (drop_indices (deref s1 l)) s1). change (wp (deleteIndices (deref s1 l)) ?Q s1) with (Q s2 (Ok tt)). cbv beta iota.
    assert (keeps D K key S s1 s2) as T2 by (apply holds_with_indices; [apply T1|]; intros; by eapply drop_sound).
    pose proof (keeps_trans _ _ _ _ _ _ _ T1 T2) as T3. apply wp_bind.
    apply (wp_overwrite D K key S sid); [apply T3|by apply T2| | |].
    + intros sid' Hd. apply HaD. by apply (D_edit sid' (deref s1 l)), Hd; constructor.
    + intros Hd. apply HaK. by apply (K_edit (deref s1 l)), Hd; constructor.
    + intros s3 T4 Hd. assert (good D s3 sid l) as Hl3 by (by apply T4, T2).
      assert (holds D key S s3) by apply T4. apply (keeps_trans _ _ _ _ _ _ _ T3) in T4. clear T T1 T2 T3. cbv beta iota. wp_walk.
  - destruct Ha. by apply holds_write.
Qed.

Lemma steps_keep s s' :
  steps ttl nested_valid allowed s s' → holds D key S s → keeps D K key S s s'.
Proof using D_edit K_edit D_index.
  induction 1 as [s|s now a s' Hv Ha _ IH]; intros Hs; [by apply keeps_refl|].
  pose proof (exec_keeps now a s Hv Ha Hs) as Hk. eapply keeps_trans; [exact Hk|]. apply IH, Hk.
Qed.
End operations.

(** ** Stores clear of a handle *)

Definition lacks (f : handle) (h : string) (_ : string) (d : AuthorizationContext) : Prop := read_handle f d ≠ h.
Definition no_session (_ : string) : Prop := False.
Definition clear_of (f : handle) (h : string) (s : store) : Prop :=
  holds (lacks f h) (index_key (handle_name f) h) no_session s.

Lemma lacks_edit f h : h ≠ "" → ∀ sid d d', edit d d' → lacks f h sid d → lacks f h sid d'.
Proof. unfold lacks. intros Hh sid d d' []; destruct f; cbn; congruence. Qed.

Lemma lacks_index f h : h ≠ "" → ∀ sid d,
  lacks f h sid d → index_key (handle_name f) h ∈ index_keys d → no_session (SessionID d).
Proof. intros Hh sid d Hd Hk. by apply Hd, index_key_handle. Qed.

Lemma clear_put f h d m :
  h ≠ "" → read_handle f d ≠ h → m !! index_key (handle_name f) h = None →
  put_indices d m !! index_key (handle_name f) h = None.
Proof. intros Hh Hd Hm. rewrite put_indices_other; [done|]. by rewrite index_key_handle. Qed.

Lemma brings_no_allowed f h s a :
  h ≠ "" → brings_no f h s a → allowed (lacks f h) (fun _ => True) s a.
Proof.
  intros Hh. destruct a; cbn; unfold lacks; intros Hb; try done.
  split; [|done]. intros sid d. by destruct f.
Qed.


(** ** Inverting a successful operation *)

Lemma M_bind_inv {A B} (m : M A) (k : A → M B) s s' r :
  (m ≫= k) s = (s', r) →
  (∃ s1 a, m s = (s1, Ok a) ∧ k a s1 = (s', r)) ∨ (∃ e, m s = (s', Err e) ∧ r = Err e).
Proof. unfold mbind, M_bind. destruct (m s) as [s1 [a|e]]; [|intros [= <- <-]]; eauto 6. Qed.

Lemma M_bind_Ok {A B} (m : M A) (k : A → M B) s s' b :
  (m ≫= k) s = (s', Ok b) → ∃ s1 a, m s = (s1, Ok a) ∧ k a s1 = (s', Ok b).
Proof. intros [?|(e & _ & [=])]%M_bind_inv. done. Qed.

Lemma cache_get_inv ttl now sid s s1 o :
  cache_get ttl now sid s = (s1, Ok o) →
  (o = None ∧ s1 = s) ∨
  (∃ it, cache s !! sid = Some it ∧ live ttl now it = true ∧ o = Some (item_doc it) ∧
     s1 = with_cache (insert sid (touch ttl now it)) s).
Proof.
  unfold cache_get. destruct (cache s !! sid) as [it|] eqn:E; [|intros [= <- <-]; by left].
  destruct (live ttl now it) eqn:El; intros [= <- <-]; [right; eauto|by left].
Qed.

Lemma get_item_inv ttl now sid s s1 l :
  get_item ttl now sid s = (s1, Ok l) →
  ∃ it, cache s !! sid = Some it ∧ l = item_doc it ∧ s1 = with_cache (insert sid (touch ttl now it)) s.
Proof.
  intros (s2 & o & H1 & H2)%M_bind_Ok. apply cache_get_inv in H1 as [[-> ->]|(it & Hi & Hl & -> & ->)]; [done|].
  injection H2 as <- <-. eauto.
Qed.

Lemma claim_item_inv ttl now k sid s s1 l :
  claim_item ttl now k sid s = (s1, Ok l) →
  ∃ it, cache s !! sid = Some it ∧ l = item_doc it ∧ s1 = with_cache (insert sid (touch ttl now it)) s.
Proof.
  intros (s2 & o & H1 & H2)%M_bind_Ok. apply cache_get_inv in H1 as [[-> ->]|(it & Hi & Hl & -> & ->)]; [done|].
  injection H2 as <- <-. eauto.
Qed.

Lemma resolve_index_inv n v s s1 sid :
  resolve_index n v s = (s1, Ok sid) → s1 = s ∧ indices s !! index_key n v = Some sid.
Proof.
  unfold resolve_index, mbind, M_bind, gets. destruct (indices s !! _) eqn:E; intros [=]. by subst.
Qed.

Lemma touch_doc ttl now it : item_doc (touch ttl now it) = item_doc it.
Proof. unfold touch. by case_match. Qed.

(** Run the primitives that cannot fail. *)
Ltac run H :=
  unfold mbind, M_bind, gets, modify, alloc, throw, mret, M_ret, update_doc, updateIndices, deleteIndices,
    cache_set, cache_set_previous in H;
  cbn [fst snd] in H.

(** ** Well-formed stores *)

Definition wf (s : store) : Prop := ∀ sid it, cache s !! sid = Some it → (item_doc it < next s)%nat.

(** At most one session holds the handle: handles are drawn at random. *)
Definition unique_holder (f : handle) (h : string) (s : store) : Prop :=
  ∀ sid sid' it it', cache s !! sid = Some it → cache s !! sid' = Some it' →
    read_handle f (deref s (item_doc it)) = h → read_handle f (deref s (item_doc it')) = h → sid = sid'.

(** Replacing the holder's document by one without the handle, and its
    index, clears the store of the handle. *)
Lemma replaced_clear f h s sid it s' l e :
  wf s → unique_holder f h s → cache s !! sid = Some it → read_handle f (deref s (item_doc it)) = h →
  cache s' = <[sid := mkItem l e]> (cache s) → (next s ≤ next s')%nat →
  (∀ sid' it', sid' ≠ sid → cache s !! sid' = Some it' →
     deref s' (item_doc it') = deref s (item_doc it')) →
  (l < next s')%nat → read_handle f (deref s' l) ≠ h →
  indices s' !! index_key (handle_name f) h = None → clear_of f h s'.
Proof.
  intros Hwf Hu Hit Hh Hc Hn Hd Hl Hr Hi. split; [|intros ? E; congruence].
  intros sid' it'. rewrite Hc, lookup_insert_Some. intros [[<- <-]|[Hne Hs]]; [done|].
  split; [pose proof (Hwf _ _ Hs); lia|]. unfold lacks. rewrite (Hd sid' it') by done.
  intros E. apply Hne. by apply (Hu sid sid' it it').
Qed.

Section one_shot.
Variable ttl : Z.
Variable nested_valid : goval → bool.

Lemma steps_clear f h s s' :
  h ≠ "" → steps ttl nested_valid (brings_no f h) s s' → clear_of f h s → clear_of f h s'.
Proof.
  intros Hh. induction 1 as [|s now a s' Hv Hb _ IH]; [done|]. intros Hc. apply IH.
  apply (brings_no_allowed f h s a Hh) in Hb.
  apply (exec_keeps _ (fun _ => True) _ _ (lacks_edit f h Hh) (fun _ _ _ H => H) (lacks_index f h Hh) ttl nested_valid now a s Hv Hb Hc).
Qed.

(** A claim on a store clear of the handle finds nothing. *)
Lemma resolve_clear f h s :
  clear_of f h s → resolve_index (handle_name f) h s = (s, Err ErrNoDocuments).
Proof.
  intros [_ Hi]. unfold resolve_index, mbind, M_bind, gets.
  destruct (indices s !! _) as [sid|]; [by destruct (Hi sid)|done].
Qed.

Lemma ClaimAuthSession_clears now h s s1 l :
  wf s → unique_holder HAuthSession h s →
  ClaimAuthSession ttl now h s = (s1, Ok l) →
  h ≠ "" ∧ clear_of HAuthSession h s1 ∧ AuthSession (deref s1 l) = "".
Proof.
  intros Hwf Hu. unfold ClaimAuthSession. destruct (str_empty h) eqn:Eh; [done|].
  apply str_empty_false in Eh. unfold claimIndexedHandle.
  intros (s2 & sid & [-> Hi]%resolve_index_inv & H2)%M_bind_Ok.
  apply M_bind_Ok in H2 as (s3 & l0 & (it & Hit & -> & ->)%claim_item_inv & H3).
  run H3. destruct (bool_decide _) eqn:Er; [|done]. apply bool_decide_eq_true in Er. cbn in H3.
  injection H3 as <- <-. set (d := deref _ (item_doc it)) in *.
  split; [done|]. split.
  - eapply (replaced_clear HAuthSession h s sid it); try done.
    + cbn. rewrite lookup_insert_eq. cbn. by rewrite insert_insert_eq.
    + cbn. lia.
    + intros sid' it' _ Hs. unfold deref. cbn.
      rewrite !lookup_insert_ne by (pose proof (Hwf _ _ Hs); lia). done.
    + cbn. lia.
    + unfold deref. cbn. rewrite lookup_insert_eq. cbn. done.
    + cbn. by apply lookup_delete_eq.
  - unfold deref. cbn. rewrite lookup_insert_ne by lia. by rewrite lookup_insert_eq.
Qed.

Lemma ResumeIssuerState_clears now h r s s1 l :
  wf s → unique_holder HIssuerState h s →
  ResumeIssuerState ttl now h (Some r) s = (s1, Ok l) →
  h ≠ "" ∧ clear_of HIssuerState h s1 ∧
  AuthSession (deref s1 l) = r_AuthSession r ∧ IssuerState (deref s1 l) = "".
Proof.
  intros Hwf Hu. unfold ResumeIssuerState. destruct (str_empty h) eqn:Eh; [done|].
  apply str_empty_false in Eh.
  intros (s2 & sid & [-> Hi]%resolve_index_inv & H2)%M_bind_Ok.
  apply M_bind_Ok in H2 as (s3 & l0 & (it & Hit & -> & ->)%claim_item_inv & H3).
  apply M_bind_Ok in H3 as (s4 & d & [= <- Ed] & H3).
  change (deref s (item_doc it) = d) in Ed.
  destruct (bool_decide (IssuerState d = h)) eqn:Er; [|done]. apply bool_decide_eq_true in Er. cbn [negb] in H3.
  remember (applyTo r (set_IssuerState "" d)) as d' eqn:Ed'.
  assert (IssuerState d' = "" ∧ AuthSession d' = r_AuthSession r) as [Hd1 Hd2] by (by subst d').
  clear Ed'. run H3. injection H3 as <- <-. split; [done|]. split.
  - eapply (replaced_clear HIssuerState h s sid it); try done.
    + cbn. congruence.
    + cbn. by rewrite insert_insert_eq.
    + cbn. lia.
    + intros sid' it' Hne Hs. unfold deref. cbn. rewrite lookup_insert_ne by (pose proof (Hwf _ _ Hs); lia).
      rewrite lookup_insert_ne; [done|]. intros E. apply Hne. apply (Hu sid' sid it' it); [done..| |].
      all: cbn; congruence.
    + cbn. pose proof (Hwf _ _ Hit). lia.
    + unfold deref. cbn. rewrite lookup_insert_ne by (pose proof (Hwf _ _ Hit); lia).
      rewrite lookup_insert_eq. cbn. congruence.
    + cbn. apply (clear_put HIssuerState h); [done|cbn; congruence|]. apply drop_indices_None. right.
      by apply (index_key_handle HIssuerState).
  - unfold deref. cbn. by rewrite lookup_insert_eq.
Qed.

Lemma ClaimIssuerState_clears now h lo s s1 l :
  wf s → unique_holder HIssuerState h s →
  ClaimIssuerState ttl nested_valid now h (Some lo) s = (s1, Ok l) →
  h ≠ "" ∧ clear_of HIssuerState h s1 ∧ deref s1 l = set_IssuerState "" (deref s lo).
Proof.
  intros Hwf Hu. unfold ClaimIssuerState. destruct (str_empty h) eqn:Eh; [done|].
  apply str_empty_false in Eh.
  intros (s2 & o & [= <- <-] & H2)%M_bind_Ok. set (o := deref s lo) in *.
  destruct (str_empty (SessionID o)); [done|]. destruct (negb (Validate _ _)); [done|].
  apply M_bind_Ok in H2 as (s2 & sid & [-> Hi]%resolve_index_inv & H2).
  destruct (negb _); [done|].
  apply M_bind_Ok in H2 as (s3 & l0 & (it & Hit & -> & ->)%claim_item_inv & H3).
  run H3. destruct (bool_decide _) eqn:Er; [|done]. apply bool_decide_eq_true in Er. cbn in H3.
  injection H3 as <- <-. split; [done|]. split.
  - eapply (replaced_clear HIssuerState h s sid it); try done.
    + cbn. by rewrite insert_insert_eq.
    + cbn. lia.
    + intros sid' it' Hne Hs. unfold deref. cbn. by rewrite !lookup_insert_ne by (pose proof (Hwf _ _ Hs); lia).
    + cbn. lia.
    + unfold deref. cbn. rewrite lookup_insert_ne by lia. rewrite lookup_insert_eq. by apply not_eq_sym.
    + cbn. apply (clear_put HIssuerState h); [done|by apply not_eq_sym|]. apply lookup_delete_eq.
  - unfold deref. cbn. by rewrite lookup_insert_eq.
Qed.

Lemma RotateRefreshToken_clears now old l s s1 :
  wf s → unique_holder HRefreshToken old s → (l < next s)%nat →
  RefreshToken (deref s l) ≠ old →
  RotateRefreshToken ttl now old (Some l) s = (s1, Ok tt) →
  old ≠ "" ∧ clear_of HRefreshToken old s1.
Proof.
  intros Hwf Hu Hl Hne. unfold RotateRefreshToken. destruct (str_empty old) eqn:Eo; [done|].
  apply str_empty_false in Eo.
  intros (s2 & u & [= <- <-] & H2)%M_bind_Ok. destruct (str_empty _); [done|].
  apply M_bind_Ok in H2 as (s2 & sid & [-> Hi]%resolve_index_inv & H2).
  destruct (negb _); [done|].
  apply M_bind_Ok in H2 as (s3 & l0 & (it & Hit & -> & ->)%get_item_inv & H3).
  run H3. destruct (bool_decide _) eqn:Er; [|done]. apply bool_decide_eq_true in Er. cbn in H3.
  injection H3 as <-. split; [done|].
  eapply (replaced_clear HRefreshToken old s sid it); try done.
  - cbn. by rewrite insert_insert_eq.
  - cbn. apply (clear_put HRefreshToken old); [done|done|]. apply drop_indices_None. right.
    by apply (index_key_handle HRefreshToken).
Qed.

(** A claimed [auth_session] cannot be claimed again: after a successful
    claim, and any run of the store's operations, evictions and caller
    writes in which nobody persists a document carrying that handle, a
    second claim finds no document. The claimed copy carries no handle. *)
Theorem auth_session_claimed_once now now' h s s1 s2 l :
  wf s → unique_holder HAuthSession h s →
  ClaimAuthSession ttl now h s = (s1, Ok l) →
  steps ttl nested_valid (brings_no HAuthSession h) s1 s2 →
  AuthSession (deref s1 l) = "" ∧
  ClaimAuthSession ttl now' h s2 = (s2, Err ErrNoDocuments).
Proof.
  intros Hwf Hu (Hh & Hc & Hl)%ClaimAuthSession_clears Hs; [|done..]. split; [done|].
  apply (steps_clear _ _ _ _ Hh Hs) in Hc. unfold ClaimAuthSession, claimIndexedHandle.
  rewrite (proj2 (str_empty_false h) Hh). pose proof (resolve_clear _ _ _ Hc) as E. cbn in E.
  unfold mbind, M_bind. by rewrite E.
Qed.

(** A resumed [issuer_state] is spent: the returned document carries the
    new [auth_session] and no issuer state, and after any run that does not
    persist the old handle neither of the two claims accepts it again. *)
Theorem issuer_state_resumed_once now now' h r s s1 s2 l :
  wf s → unique_holder HIssuerState h s →
  ResumeIssuerState ttl now h (Some r) s = (s1, Ok l) →
  steps ttl nested_valid (brings_no HIssuerState h) s1 s2 →
  AuthSession (deref s1 l) = r_AuthSession r ∧ IssuerState (deref s1 l) = "" ∧
  (∀ r', ResumeIssuerState ttl now' h (Some r') s2 = (s2, Err ErrNoDocuments)) ∧
  (∀ lo s3 l', ClaimIssuerState ttl nested_valid now' h lo s2 ≠ (s3, Ok l')).
Proof.
  intros Hwf Hu (Hh & Hc & Hl & Hl')%ResumeIssuerState_clears Hs; [|done..]. split; [done|]. split; [done|].
  apply (steps_clear _ _ _ _ Hh Hs) in Hc. pose proof (resolve_clear _ _ _ Hc) as E. cbn in E. split.
  - intros r'. unfold ResumeIssuerState. rewrite (proj2 (str_empty_false h) Hh).
    unfold mbind, M_bind. by rewrite E.
  - intros lo s3 l'. unfold ClaimIssuerState. destruct (str_empty h), lo as [lo|]; try done.
    unfold mbind, M_bind, gets. destruct (str_empty _); [done|]. destruct (negb _); [done|]. by rewrite E.
Qed.

(** Refresh tokens are single-use: once rotated to a document with a
    different token, the old token resolves to no document and a second
    rotation with it fails, after any run that does not persist it again. *)
Theorem refresh_token_rotated_once now now' old l s s1 s2 :
  wf s → unique_holder HRefreshToken old s → (l < next s)%nat →
  RefreshToken (deref s l) ≠ old →
  RotateRefreshToken ttl now old (Some l) s = (s1, Ok tt) →
  steps ttl nested_valid (brings_no HRefreshToken old) s1 s2 →
  GetByRefreshToken ttl now' old s2 = (s2, Err ErrNoDocuments) ∧
  ∀ l' s3, RotateRefreshToken ttl now' old l' s2 ≠ (s3, Ok tt).
Proof.
  intros Hwf Hu Hl Hne (Hh & Hc)%RotateRefreshToken_clears Hs; [|done..].
  apply (steps_clear _ _ _ _ Hh Hs) in Hc. pose proof (resolve_clear _ _ _ Hc) as E. cbn in E. split.
  - unfold GetByRefreshToken, get_by. rewrite (proj2 (str_empty_false old) Hh).
    unfold mbind, M_bind. by rewrite E.
  - intros l' s3. unfold RotateRefreshToken. destruct (str_empty old), l' as [l'|]; try done.
    unfold mbind, M_bind, gets. destruct (str_empty _); try done. by rewrite E.
Qed.
End one_shot.
