(* ===== verification/AuthStoreGrants.v ===== *)
(** * Codes: redemption, PIN attempts and forfeiture

    What the store promises of one authorization or pre-authorized code,
    stated as a small abstract machine ([grant]); the refinement theorem that
    any sequence of the store's operations on the code behaves like it; and
    the bounds the machine gives.  Then the lifetime of an entry, the round
    trips of [Save] with the lookups, and [ExtendExpiry]. *)

From S2P Require Import Prelude GoValue AuthContext AuthStore AuthStoreSteps.

(** ** The abstract machine *)

Record grant := mkGrant { g_forfeited : bool; g_attempts : Z; g_redeemers : list string }.

Inductive grant_op := GForfeit | GConsume | GRedeem (thumbprint : string).

Definition thumbprint_ok (t : string) : bool :=
  negb (str_empty t) && negb (bool_decide (128 < Z.of_nat (String.length t))).

Definition grant_step (g : grant) (op : grant_op) : grant * result cache_error unit :=
  if g_forfeited g then (g, Err ErrForfeited) else
  match op with
  | GForfeit => (mkGrant true (g_attempts g) (g_redeemers g), Ok tt)
  | GConsume =>
      if bool_decide (MaxTXCodeAttempts ≤ g_attempts g)
      then (mkGrant true (g_attempts g) (g_redeemers g), Err ErrTXCodeAttemptsExceeded)
      else (mkGrant false (g_attempts g + 1) (g_redeemers g), Ok tt)
  | GRedeem t =>
      if bool_decide (t ∈ g_redeemers g) then (g, Err ErrAlreadyRedeemed) else
      if bool_decide (MaxPreAuthRedeemers ≤ Z.of_nat (length (g_redeemers g))) then (g, Err ErrMaxRedemptions)
      else (mkGrant false (g_attempts g) (g_redeemers g ++ [t]), Ok tt)
  end.

Fixpoint grant_run (g : grant) (ops : list grant_op) : grant * list (result cache_error unit) :=
  match ops with
  | [] => (g, [])
  | op :: ops =>
      let '(g, r) := grant_step g op in
      let '(g, rs) := grant_run g ops in (g, r :: rs)
  end.

(** ** The store's operations on a code *)

Section grants.
Variable ttl : Z.

Definition grant_op_store (now : Z) (code : string) (op : grant_op) : M unit :=
  match op with
  | GForfeit => ignore (ForfeitAuthorizationCode ttl now (Some (set_Code code zero_context)))
  | GConsume => ignore (ConsumeTXCodeAttempt ttl now code)
  | GRedeem t => ignore (RedeemPreAuthorizedCode ttl now code t)
  end.

Definition grant_of (d : AuthorizationContext) : grant :=
  mkGrant (Forfeited d) (TXCodeAttempts d) (RedeemedBy d).

(** At time [now] the code names the document [l], stored under its own
    session id. *)
Definition names (now : Z) (code : string) (s : store) (l : loc) : Prop :=
  code ≠ "" ∧ Code (deref s l) = code ∧ ∃ it,
    indices s !! index_key "code" code = Some (SessionID (deref s l)) ∧
    cache s !! SessionID (deref s l) = Some it ∧ item_doc it = l ∧ live ttl now it = true.

(** A later time at which the entry, untouched since [now], is still there. *)
Definition within (now now' : Z) : Prop := ttl ≤ 0 ∨ now' ≤ now + ttl.

Definition op_valid (op : grant_op) : bool :=
  match op with GRedeem t => thumbprint_ok t | _ => true end.

Lemma resolve_index_hit n v s sid :
  indices s !! index_key n v = Some sid → resolve_index n v s = (s, Ok sid).
Proof. intros E. unfold resolve_index, mbind, M_bind, gets. by rewrite E. Qed.

Lemma get_item_hit now sid s it :
  cache s !! sid = Some it → live ttl now it = true →
  get_item ttl now sid s = (with_cache (insert sid (touch ttl now it)) s, Ok (item_doc it)).
Proof. intros E1 E2. unfold get_item, mbind, M_bind, cache_get. by rewrite E1, E2. Qed.

Lemma touch_live now now' it :
  within now now' → live ttl now' (touch ttl now it) = true.
Proof.
  intros W. unfold live, touch. destruct (bool_decide_reflect (0 < ttl)); cbn.
  - rewrite (bool_decide_eq_false_2 (ttl ≤ 0)) by lia. cbn.
    rewrite bool_decide_eq_false_2; [done|]. destruct W; lia.
  - by rewrite bool_decide_eq_true_2 by lia.
Qed.

Lemma deref_write l d s : deref (write_doc l d s) l = d.
Proof. unfold deref. cbn. by rewrite lookup_insert_eq. Qed.

(** A document rewritten in fields other than its code and session id is
    still named, with the lifetime the touch gave it. *)
Lemma names_after now now' code s l d' sid it s' :
  names now code s l → within now now' →
  sid = SessionID (deref s l) → Code d' = code → SessionID d' = sid →
  deref s' l = d' → cache s' !! sid = Some it → item_doc it = l →
  (item_expires it = now + ttl ∨ ttl ≤ 0) →
  indices s' !! index_key "code" code = Some sid → names now' code s' l.
Proof.
  intros (Hne & _ & _) W -> Hc Hs Hd Hi Hl He Hx. split; [done|]. rewrite Hd. split; [done|].
  exists it. rewrite Hs. split_and!; try done. unfold live.
  destruct (bool_decide_reflect (ttl ≤ 0)); [done|]. cbn.
  rewrite bool_decide_eq_false_2; [done|]. destruct W, He; lia.
Qed.

(** The lookup the three operations begin with. *)
Lemma names_lookup now code s l :
  names now code s l →
  ∃ it, let sid := SessionID (deref s l) in
    let s1 := with_cache (insert sid (touch ttl now it)) s in
    item_doc it = l ∧ resolve_index "code" code s = (s, Ok sid) ∧
    get_item ttl now sid s = (s1, Ok l) ∧ deref s1 l = deref s l.
Proof.
  intros (Hne & Hc & it & Hx & Hi & Hl & Hlive). exists it.
  split_and!; [done|by apply resolve_index_hit| |done].
  rewrite (get_item_hit now _ s it) by done. by rewrite Hl.
Qed.

(** The state the operations that touch and rewrite the document end in. *)
Definition rewritten (now : Z) (s : store) (l : loc) (d' : AuthorizationContext) (s' : store) : Prop :=
  deref s' l = d' ∧
  (∃ it, cache s' !! SessionID (deref s l) = Some it ∧ item_doc it = l ∧
         (item_expires it = now + ttl ∨ ttl ≤ 0)) ∧
  (indices s' = indices s ∨ indices s' = put_indices d' (indices s)).

Lemma rewritten_names now now' code s l d' s' :
  names now code s l → within now now' → rewritten now s l d' s' →
  Code d' = code → SessionID d' = SessionID (deref s l) → names now' code s' l.
Proof.
  intros Hn W (Hd & (it & Hi & Hl & He) & Hx) Hc Hs.
  apply (names_after now now' code s l d' (SessionID (deref s l)) it s'); try done.
  destruct Hn as (Hne & _ & it0 & Hx0 & _). destruct Hx as [-> | ->]; [done|].
  rewrite <- Hs. apply put_indices_in. unfold index_keys.
  apply list_elem_of_fmap. exists ("code", code). split; [done|].
  apply list_elem_of_In, filter_In. split; [cbn; rewrite Hc; tauto|].
  cbn. by rewrite (proj2 (str_empty_false code)).
Qed.

Lemma touch_expires now it : item_expires (touch ttl now it) = now + ttl ∨ ttl ≤ 0.
Proof. unfold touch. destruct (bool_decide_reflect (0 < ttl)); [by left|right; lia]. Qed.

(** Reading the document through [Get] leaves it as it is and renews its time. *)
Lemma rewritten_touched now s l it :
  item_doc it = l →
  rewritten now s l (deref s l) (with_cache (insert (SessionID (deref s l)) (touch ttl now it)) s).
Proof.
  intros Hl. split; [done|]. split; [|by left]. exists (touch ttl now it). cbn.
  rewrite lookup_insert_eq, touch_doc. split_and!; [done..|apply touch_expires].
Qed.

(** Writing it back under the time it has keeps the renewed time. *)
Lemma rewritten_replaced now s l it d' :
  rewritten now s l d'
    (with_cache (insert (SessionID (deref s l)) (mkItem l (item_expires (touch ttl now it))))
       (write_doc l d' (with_cache (insert (SessionID (deref s l)) (touch ttl now it)) s))).
Proof.
  split; [apply deref_write|]. split; [|by left]. eexists. cbn.
  rewrite lookup_insert_eq. split_and!; [done..|apply touch_expires].
Qed.

Ltac same_doc := eexists _, _; split; [done|]; split; [eassumption|]; split_and!; cbn; congruence.

Lemma grant_op_rewritten now code op s l :
  names now code s l → op_valid op = true →
  ∃ d' s' r, grant_op_store now code op s = (s', r) ∧
    rewritten now s l d' s' ∧ Code d' = code ∧ SessionID d' = SessionID (deref s l) ∧
    grant_step (grant_of (deref s l)) op = (grant_of d', r).
Proof.
  intros Hn Hop. destruct (names_lookup _ _ _ _ Hn) as (it & Hl & Er & Eg & Ed).
  destruct Hn as (Hne & Hc & _). apply str_empty_false in Hne.
  remember (deref s l) as d eqn:Hd. remember (SessionID d) as sid eqn:Hsid.
  set (s1 := with_cache (insert sid (touch ttl now it)) s) in *.
  assert (Hsame : rewritten now s l d s1) by (unfold s1; subst sid d; by apply rewritten_touched).
  assert (Hrw := fun d' => rewritten_replaced now s l it d'). rewrite <- Hd, <- Hsid in Hrw. fold s1 in Hrw.
  destruct op as [| |t]; cbn [grant_op_store].
  - exists (if Forfeited d then d else set_Forfeited true d).
    unfold ignore, ForfeitAuthorizationCode, grant_step, grant_of. cbn [g_forfeited].
    change (Code (set_Code code zero_context)) with code. rewrite Hne. cbn [negb].
    unfold mbind, M_bind. rewrite Er, Eg. unfold gets, throw. rewrite Ed.
    destruct (Forfeited d) eqn:Ef; [same_doc|].
    unfold update_doc, modify, cache_set, updateIndices, mret, M_ret. rewrite Ed.
    eexists _, _. split; [done|]. split; [|cbn; split_and!; congruence]. split; [apply deref_write|].
    rewrite <- Hd, <- Hsid. split.
    + eexists. cbn. rewrite lookup_insert_eq. by split_and!; [..|left].
    + right. cbn. unfold deref. cbn. by rewrite lookup_insert_eq.
  - exists (if Forfeited d then d else if bool_decide (MaxTXCodeAttempts ≤ TXCodeAttempts d)
            then set_Forfeited true d else set_TXCodeAttempts (TXCodeAttempts d + 1) d).
    unfold ignore, ConsumeTXCodeAttempt, grant_step, grant_of. rewrite Hne. cbn [g_forfeited g_attempts].
    unfold mbind, M_bind. rewrite Er, Eg. unfold gets, throw. rewrite Ed.
    destruct (Forfeited d) eqn:Ef; [same_doc|].
    unfold update_doc, modify, cache_set_previous, mret, M_ret.
    destruct (bool_decide _); rewrite Ed; cbn [cache write_doc];
      (eexists _, _; split; [done|]; split; [|cbn; split_and!; congruence]);
      unfold s1; cbn [cache with_cache write_doc]; rewrite lookup_insert_eq; apply Hrw.
  - cbn in Hop. unfold thumbprint_ok in Hop. apply andb_true_iff in Hop as [Ht1 Ht2].
    apply negb_true_iff in Ht1, Ht2.
    exists (if Forfeited d then d else if bool_decide (t ∈ RedeemedBy d) then d else
            if bool_decide (MaxPreAuthRedeemers ≤ Z.of_nat (length (RedeemedBy d))) then d
            else set_RedeemedBy (RedeemedBy d ++ [t]) d).
    unfold ignore, RedeemPreAuthorizedCode, grant_step, grant_of. rewrite Hne, Ht1, Ht2.
    cbn [g_forfeited g_redeemers].
    unfold mbind, M_bind. rewrite Er, Eg. unfold gets, throw. rewrite Ed.
    destruct (Forfeited d) eqn:Ef; [same_doc|].
    destruct (bool_decide (t ∈ _)); [same_doc|].
    destruct (bool_decide (MaxPreAuthRedeemers ≤ _)); [same_doc|].
    unfold update_doc, modify, cache_set_previous, mret, M_ret. rewrite Ed.
    eexists _, _. split; [done|]. split; [|cbn; split_and!; congruence].
    unfold s1; cbn [cache with_cache write_doc]; rewrite lookup_insert_eq; apply Hrw.
Qed.

Fixpoint grant_run_store (code : string) (ops : list (Z * grant_op)) (s : store) :
    store * list (result cache_error unit) :=
  match ops with
  | [] => (s, [])
  | (now, op) :: ops =>
      let '(s, r) := grant_op_store now code op s in
      let '(s, rs) := grant_run_store code ops s in (s, r :: rs)
  end.

(** Each operation comes before the entry expires. *)
Fixpoint timely (now : Z) (ops : list (Z * grant_op)) : Prop :=
  match ops with
  | [] => True
  | (now', _) :: ops => within now now' ∧ timely now' ops
  end.

Lemma grant_run_refines now code ops s l :
  match ops with [] => True | (now1, _) :: _ => now = now1 end →
  names now code s l → forallb (fun o => op_valid (snd o)) ops = true →
  timely now ops →
  grant_run (grant_of (deref s l)) (map snd ops) =
    (grant_of (deref (fst (grant_run_store code ops s)) l), snd (grant_run_store code ops s)).
Proof.
  revert now s. induction ops as [|[now1 op] ops IH]; intros now s Hnow Hn Hv Ht; [done|].
  subst now1. cbn in Hv. apply andb_true_iff in Hv as [Hop Hv].
  destruct (grant_op_rewritten now code op s l Hn Hop) as (d' & s' & r & E & Hrw & Hc & Hs & Eg).
  cbn. rewrite E, Eg. destruct Ht as [_ Ht].
  pose proof (proj1 Hrw) as Hd. rewrite <- Hd.
  destruct ops as [|[now2 op2] ops]; [done|].
  assert (names now2 code s' l) as Hn' by (eapply rewritten_names; [done|apply Ht|done..]).
  rewrite (IH now2 s' eq_refl Hn' Hv); [|cbn; split; [|apply Ht]].
  - by destruct (grant_run_store code _ s').
  - unfold within. lia.
Qed.
End grants.

(** ** Bounds of the abstract machine *)

Definition ok_ops (p : grant_op → bool) (ops : list grant_op) (rs : list (result cache_error unit)) : list grant_op :=
  map fst (List.filter (fun x => p (fst x) && is_ok (snd x)) (zip ops rs)).

Definition is_consume (op : grant_op) : bool := match op with GConsume => true | _ => false end.
Definition is_redeem (op : grant_op) : bool := match op with GRedeem _ => true | _ => false end.

Lemma grant_run_consumes g ops :
  g_attempts g ≤ MaxTXCodeAttempts →
  Z.of_nat (length (ok_ops is_consume ops (snd (grant_run g ops)))) + g_attempts g
    ≤ MaxTXCodeAttempts.
Proof.
  revert g. induction ops as [|op ops IH]; intros g Hg; [cbn; lia|].
  cbn. destruct (grant_step g op) as [g' r] eqn:E.
  assert (g_attempts g' ≤ MaxTXCodeAttempts ∧
          g_attempts g' = g_attempts g + (if is_consume op && is_ok r then 1 else 0)) as [H1 H2].
  { unfold grant_step in E. destruct op; repeat case_bool_decide; destruct (g_forfeited g);
      simplify_eq/=; lia. }
  specialize (IH g' H1). destruct (grant_run g' ops) as [g'' rs]. cbn in *.
  unfold ok_ops in *. cbn. destruct (is_consume op && is_ok r); cbn; lia.
Qed.

Lemma grant_run_redeems g ops :
  NoDup (g_redeemers g) → Z.of_nat (length (g_redeemers g)) ≤ MaxPreAuthRedeemers →
  let done := ok_ops is_redeem ops (snd (grant_run g ops)) in
  NoDup (map GRedeem (g_redeemers g) ++ done)%list ∧
  Z.of_nat (length done) + Z.of_nat (length (g_redeemers g)) ≤ MaxPreAuthRedeemers.
Proof.
  revert g. induction ops as [|op ops IH]; intros g Hg Hl.
  { cbn. rewrite app_nil_r. split; [|lia]. by apply (NoDup_fmap_2_strong GRedeem); [intros; congruence|]. }
  cbn. destruct (grant_step g op) as [g' r] eqn:E.
  assert (NoDup (g_redeemers g') ∧ Z.of_nat (length (g_redeemers g')) ≤ MaxPreAuthRedeemers ∧
          map GRedeem (g_redeemers g') =
            (map GRedeem (g_redeemers g) ++ (if is_redeem op && is_ok r then [op] else []))%list) as (H1 & H2 & H3).
  { unfold grant_step in E. destruct op as [| |t]; repeat case_bool_decide; destruct (g_forfeited g);
      simplify_eq/=; rewrite ?app_nil_r; try done.
    rewrite map_app, length_app. cbn. split_and!; [|lia|done].
    apply NoDup_app. split_and!; [done|set_solver|apply NoDup_singleton]. }
  specialize (IH g' H1 H2). destruct (grant_run g' ops) as [g'' rs]. cbn in *.
  rewrite H3, <- app_assoc in IH. apply (f_equal length) in H3. rewrite length_app, !length_map in H3.
  unfold ok_ops in *. cbn. destruct (is_redeem op && is_ok r); cbn in *; split; try apply IH; lia.
Qed.

(** Nothing succeeds once the code is forfeited. *)
Lemma grant_run_forfeited g ops :
  g_forfeited g = true → grant_run g ops = (g, replicate (length ops) (Err ErrForfeited)).
Proof.
  intros Hg. induction ops as [|op ops IH]; [done|]. cbn. unfold grant_step. by rewrite Hg, IH.
Qed.

(** ** The guarantees of a code *)

Section guarantees.
Variable ttl : Z.

(** C16: Any sequence of forfeitures, PIN attempts and redemptions of a code
    the store holds gives exactly the results, and leaves the document in
    exactly the state, of the abstract code machine. *)
Theorem code_operations_refine now code op ops s l :
  names ttl now code s l → forallb (fun o => op_valid (snd o)) ((now, op) :: ops) = true →
  timely ttl now ops →
  let '(s', rs) := grant_run_store ttl code ((now, op) :: ops) s in
  grant_run (grant_of (deref s l)) (op :: map snd ops) = (grant_of (deref s' l), rs).
Proof.
  intros Hn Hv Ht.
  pose proof (grant_run_refines ttl now code ((now, op) :: ops) s l eq_refl Hn Hv) as R.
  destruct (grant_run_store _ _ _ _) as [s' rs]. apply R. split; [unfold within; lia|done].
Qed.

(** However the operations on a fresh pre-authorized code interleave, at
    most five PIN attempts are let through, at most ten redemptions succeed,
    and no client redeems the code twice. *)
Theorem code_bounds now code op ops s l :
  names ttl now code s l → forallb (fun o => op_valid (snd o)) ((now, op) :: ops) = true →
  timely ttl now ops → TXCodeAttempts (deref s l) = 0 → RedeemedBy (deref s l) = [] →
  let rs := snd (grant_run_store ttl code ((now, op) :: ops) s) in
  let ops := op :: map snd ops in
  Z.of_nat (length (ok_ops is_consume ops rs)) ≤ 5 ∧
  Z.of_nat (length (ok_ops is_redeem ops rs)) ≤ 10 ∧
  NoDup (ok_ops is_redeem ops rs).
Proof.
  intros Hn Hv Ht Ha Hr.
  pose proof (grant_run_refines ttl now code ((now, op) :: ops) s l eq_refl Hn Hv) as R.
  apply (f_equal snd) in R; [|split; [unfold within; lia|done]]. cbn [snd] in R.
  change (map snd ((now, op) :: ops)) with (op :: map snd ops) in R.
  intros rs ops'. subst rs. rewrite <- R. fold ops'. clear R. clearbody ops'.
  pose proof (grant_run_consumes (grant_of (deref s l)) ops') as C.
  pose proof (grant_run_redeems (grant_of (deref s l)) ops') as D.
  unfold grant_of, MaxTXCodeAttempts, MaxPreAuthRedeemers in *. cbn [g_attempts g_redeemers] in *.
  rewrite Ha, Hr in *. cbv zeta in D. cbn [map app length] in D.
  destruct D as [D1 D2]; [constructor|lia|]. specialize (C ltac:(lia)).
  split_and!; [lia|lia|exact D1].
Qed.

(** C17: A PIN attempt beyond the budget is refused and forfeits the code,
    and from then on every PIN attempt, redemption and forfeiture of the
    code is refused. *)
Theorem exhausted_code_is_dead now code ops s l :
  names ttl now code s l → forallb (fun o => op_valid (snd o)) ops = true → timely ttl now ops →
  Forfeited (deref s l) = false → MaxTXCodeAttempts ≤ TXCodeAttempts (deref s l) →
  let '(s', rs) := grant_run_store ttl code ((now, GConsume) :: ops) s in
  rs = Err ErrTXCodeAttemptsExceeded :: replicate (length ops) (Err ErrForfeited) ∧
  Forfeited (deref s' l) = true.
Proof.
  intros Hn Hv Ht Hf Ha.
  pose proof (grant_run_refines ttl now code ((now, GConsume) :: ops) s l eq_refl Hn) as R.
  destruct (grant_run_store _ _ _ _) as [s' rs]. cbn in R.
  unfold grant_step in R. cbn in R. rewrite Hf, bool_decide_eq_true_2 in R by done.
  rewrite grant_run_forfeited, length_map in R by done.
  assert (timely ttl now ((now, GConsume) :: ops)) as Ht' by (split; [unfold within; lia|done]).
  specialize (R Hv Ht'). by injection R as R1 _ _ R4.
Qed.

(** Redeeming a pre-authorized code moves the expiry of its entry to a
    full lifetime from now, because the lookup that precedes the write
    touches the entry. *)
Theorem redemption_extends_lifetime now code t s s' l :
  0 < ttl → names ttl now code s l →
  RedeemPreAuthorizedCode ttl now code t s = (s', Ok l) →
  item_expires <$> cache s' !! SessionID (deref s l) = Some (now + ttl).
Proof.
  intros Httl Hn E. destruct (names_lookup _ _ _ _ _ Hn) as (it & Hl & Er & Eg & Ed).
  unfold RedeemPreAuthorizedCode in E. repeat (case_match; [done|]).
  unfold mbind, M_bind in E. rewrite Er, Eg in E. unfold gets, throw in E.
  repeat (case_match; [done|]). injection E as <-. cbn. rewrite !lookup_insert_eq. cbn.
  unfold touch. by rewrite bool_decide_eq_true_2 by done.
Qed.
End guarantees.

(** ** Saving, finding, deleting *)

Section lookups.
Variable ttl : Z.
Variable nested_valid : goval → bool.

Fixpoint first_field (l : list (string * string)) : option (string * string) :=
  match l with
  | [] => None
  | (n, v) :: l => if str_empty v then first_field l else Some (n, v)
  end.

Lemma resolve_loop_first l s :
  resolve_loop l s =
    match first_field l with
    | Some (n, v) => resolve_index n v s
    | None => (s, Err ErrQuery)
    end.
Proof. induction l as [|[n v] l IH]; [done|]. cbn. by destruct (str_empty v). Qed.

Lemma first_field_nonempty l n v : first_field l = Some (n, v) → v ≠ "".
Proof.
  induction l as [|[n' v'] l IH]; cbn; [done|].
  destruct (str_empty v') eqn:E; [done|]. intros [= <- <-]. by apply str_empty_false.
Qed.

Lemma index_keys_in n v d :
  v ≠ "" → (n, v) ∈ index_fields d → index_key n v ∈ index_keys d.
Proof.
  intros Hv Hin. apply list_elem_of_fmap. exists (n, v). split; [done|].
  apply list_elem_of_In, filter_In. split; [by apply list_elem_of_In|].
  cbn. by rewrite (proj2 (str_empty_false v)).
Qed.

(** The state a successful [Save] leaves. *)
Lemma Save_spec now l s s' :
  Save ttl nested_valid now (Some l) s = (s', Ok tt) →
  let d := deref s l in
  SessionID d ≠ "" ∧ Validate nested_valid d = true ∧
  cache s' !! SessionID d = Some (mkItem l (now + ttl)) ∧
  indices s' = put_indices d (indices s).
Proof.
  unfold Save. intros (s1 & d & [= <- <-] & H)%M_bind_Ok. cbv zeta. set (d := deref s l) in *.
  destruct (str_empty (SessionID d)) eqn:Es; [done|]. apply str_empty_false in Es.
  destruct (Validate nested_valid d) eqn:Ev; [|done]. cbn [negb] in H.
  apply M_bind_Ok in H as (s2 & u & H1 & H2). unfold mbind, M_bind, cache_set, modify, updateIndices in H2.
  injection H2 as <-. cbn. rewrite lookup_insert_eq. split_and!; try done. f_equal.
  destruct (bool_decide (CreatedAt d = 0)); [|by injection H1 as <-].
  apply M_bind_Ok in H1 as (s3 & o & Hg & H1).
  apply cache_get_inv in Hg as [[-> ->]|(it & _ & _ & -> & ->)]; by injection H1 as <-.
Qed.

(** A document that [Save] accepted is found, until its entry expires,
    by its session id and by a query on any field it was indexed under, and
    what comes back is the saved document itself. *)
Theorem Save_then_Get now now' l s s' q :
  Save ttl nested_valid now (Some l) s = (s', Ok tt) →
  within ttl now now' →
  (SessionID q = SessionID (deref s l) ∨
   SessionID q = "" ∧ ∃ n v, first_field (resolve_fields q) = Some (n, v) ∧
                             (n, v) ∈ index_fields (deref s l)) →
  snd (Get ttl now' (Some q) s') = Ok l.
Proof.
  intros (Hs & _ & Hc & Hi)%Save_spec W Hq. set (d := deref s l) in *.
  assert (live ttl now' (mkItem l (now + ttl)) = true) as Hlive.
  { unfold live. destruct (bool_decide_reflect (ttl ≤ 0)); [done|]. cbn.
    rewrite bool_decide_eq_false_2; [done|]. destruct W; lia. }
  assert (resolveSessionIDLocked q s' = (s', Ok (SessionID d))) as E.
  { unfold resolveSessionIDLocked. destruct Hq as [Hq|(Hq & n & v & Hf & Hin)].
    - rewrite Hq, (proj2 (str_empty_false _) Hs). done.
    - rewrite Hq. change (str_empty "") with true. cbv iota. rewrite resolve_loop_first, Hf. apply resolve_index_hit.
      rewrite Hi. apply put_indices_in, index_keys_in; [by eapply first_field_nonempty|done]. }
  unfold Get, getLocked, mbind, M_bind. rewrite E.
  by rewrite (get_item_hit ttl now' (SessionID d) s' (mkItem l (now + ttl))).
Qed.

(** After [Delete] the session id finds nothing, and if the entry was
    still alive nothing it was indexed under resolves any more. *)
Theorem Delete_unresolvable now now' id s s' :
  Delete ttl now id s = (s', Ok tt) →
  snd (GetByID ttl now' id s') = Err ErrNoDocuments ∧
  ∀ it n v, cache s !! id = Some it → live ttl now it = true → v ≠ "" →
    (n, v) ∈ index_fields (deref s (item_doc it)) →
    snd (get_by ttl now' n v s') = Err ErrNoDocuments.
Proof.
  unfold Delete. destruct (str_empty id) eqn:Eid; [done|].
  intros (s1 & o & Hg & H)%M_bind_Ok. apply M_bind_Ok in H as (s2 & u & H1 & H2).
  assert (cache s' !! id = None ∧ indices s' = indices s2) as [Hc Hi].
  { unfold cache_delete, modify in H2. injection H2 as <-.
    destruct (cache s2 !! id) eqn:E; cbn; [|done]. by rewrite lookup_delete_eq. }
  split.
  - unfold GetByID. rewrite Eid. unfold get_item, mbind, M_bind, cache_get. by rewrite Hc.
  - intros it n v Hit Hlive Hv Hin.
    unfold get_by. rewrite (proj2 (str_empty_false v) Hv). unfold resolve_index, mbind, M_bind, gets.
    enough (indices s' !! index_key n v = None) as -> by done. rewrite Hi.
    unfold cache_get in Hg. rewrite Hit, Hlive in Hg. injection Hg as <- <-.
    unfold mbind, M_bind, gets, deleteIndices, modify in H1. injection H1 as <-. cbn.
    apply drop_indices_None. right. by apply index_keys_in.
Qed.

(** [ExtendExpiry] never shortens: the stored deadline becomes the later
    of the two, every other field is kept, and the document a reader
    obtained before the call is not written to. *)
Theorem ExtendExpiry_spec now q e s s' :
  wf s → ExtendExpiry ttl now (Some q) e s = (s', Ok tt) →
  ∃ sid d, doc_at s sid = Some d ∧
    doc_at s' sid = Some (set_ExpiresAt (Z.max (ExpiresAt d) e) d) ∧
    ∀ l, (l < next s)%nat → deref s' l = deref s l.
Proof.
  intros Hwf. unfold ExtendExpiry. intros (s1 & sid & Hr & H)%M_bind_Ok.
  assert (s1 = s) as ->.
  { unfold resolveSessionIDLocked in Hr. case_match; [|by injection Hr as <- _].
    rewrite resolve_loop_first in Hr. destruct (first_field _) as [[n v]|]; [|done].
    by apply resolve_index_inv in Hr as [-> _]. }
  apply M_bind_Ok in H as (s2 & l & (it & Hit & -> & ->)%get_item_inv & H).
  apply M_bind_Ok in H as (s3 & d & [= <- Ed] & H). change (deref s (item_doc it) = d) in Ed.
  exists sid, d. unfold doc_at. rewrite Hit. cbn. rewrite Ed. split; [done|].
  destruct (bool_decide_reflect (e ≤ ExpiresAt d)) as [He|He].
  - injection H as <-. cbn. rewrite lookup_insert_eq. cbn. rewrite touch_doc.
    change (deref _ (item_doc it)) with (deref s (item_doc it)). rewrite Ed, Z.max_l by lia.
    split; [by destruct d|done].
  - unfold alloc, cache_set, updateIndices, modify, mbind, M_bind in H. injection H as <-. cbn.
    rewrite lookup_insert_eq. cbn. unfold deref. cbn. rewrite lookup_insert_eq, Z.max_r by lia. cbn.
    split; [done|]. intros l Hl. by rewrite lookup_insert_ne by lia.
Qed.

(** A document changed through the pointer [Get] handed out and then
    persisted with [Update] leaves its previous refresh token resolvable:
    the store deletes the indices of the document as it is now, which no
    longer names the old token. *)
Theorem in_place_update_keeps_old_token now l s s' old new :
  let d := deref s l in
  let d' := set_RefreshToken new d in
  old ≠ "" → RefreshToken d = old → new ≠ old →
  cache s !! SessionID d = Some (mkItem l now) →
  indices s !! index_key "refresh_token" old = Some (SessionID d) →
  Update ttl nested_valid now (Some l) (write_doc l d' s) = (s', Ok tt) →
  snd (GetByRefreshToken ttl now old s') = Ok l.
Proof.
  intros d d' Hold Hr Hne Hc Hi. unfold Update. intros (s1 & x & [= <- <-] & H)%M_bind_Ok.
  rewrite deref_write in H. change (SessionID d') with (SessionID d) in H.
  destruct (str_empty _); [done|]. destruct (negb _); [done|].
  apply M_bind_Ok in H as (s2 & l' & (it & Hit & -> & ->)%get_item_inv & H).
  cbn in Hit. rewrite Hc in Hit. injection Hit as <-.
  unfold gets, deleteIndices, modify, cache_set, updateIndices, mbind, M_bind in H. injection H as <-.
  match goal with |- context [drop_indices ?x] => replace x with d' by (symmetry; apply deref_write) end.
  assert (index_key "refresh_token" old ∉ index_keys d') as Hk.
  { change "refresh_token" with (handle_name HRefreshToken). rewrite index_key_handle by done. done. }
  unfold GetByRefreshToken, get_by. rewrite (proj2 (str_empty_false old) Hold).
  unfold mbind, M_bind, resolve_index, gets, mbind, M_bind. cbn.
  rewrite put_indices_other by done.
  assert (drop_indices d' (indices s) !! index_key "refresh_token" old = Some (SessionID d)) as ->.
  { rewrite <- Hi. unfold drop_indices. clear Hi. induction (index_keys d') as [|k ks IH] in Hk |- * using rev_ind; [done|].
    rewrite foldl_app. cbn. rewrite lookup_delete_ne by set_solver. apply IH. set_solver. }
  unfold mret, M_ret. rewrite (get_item_hit ttl now (SessionID d) _ (mkItem l (now + ttl))); [done| |].
  - cbn. by rewrite lookup_insert_eq.
  - unfold live. cbn. destruct (bool_decide_reflect (ttl ≤ 0)); [done|]. cbn.
    rewrite bool_decide_eq_false_2 by lia. done.
Qed.
End lookups.
