(* ===== verification/AuthStoreWitness.v ===== *)
(** * The store's theorems at a concrete store

    One context with every handle the theorems speak of, saved at time 0 in a
    store with a ten minute lifetime. *)

From S2P Require Import Prelude GoValue AuthContext AuthStore AuthStoreSteps AuthStoreGrants.

Definition w_ttl : Z := 600.
Definition w_valid (_ : goval) : bool := true.

Definition w_doc : AuthorizationContext :=
  mkContext "s1" 0 1000 "" "" "" "" "h1" "i1" "" "c1" false [] 0 None "" "" "" false "" "" "" "" ""
    "r1" "" "" "" None zero_rest.

Definition w_store : store :=
  fst (Save w_ttl w_valid 0 (Some 0%nat) (mkStore {[ 0%nat := w_doc ]} 1 ∅ ∅ [])).

(** A second document, as a caller of [RotateRefreshToken] prepares it. *)
Definition w_store2 : store := fst (alloc (set_RefreshToken "r2" w_doc) w_store).

Lemma w_cache sid it : cache w_store !! sid = Some it → sid = "s1" ∧ item_doc it = 0%nat.
Proof.
  change (cache w_store) with (<["s1" := mkItem 0 600]> (∅ : gmap string item)).
  rewrite lookup_insert_Some. intros [[<- <-]|[_ H]]; [done|by rewrite lookup_empty in H].
Qed.

Lemma w_wf : wf w_store.
Proof. intros sid it [-> E]%w_cache. rewrite E. vm_compute. lia. Qed.
Lemma w_unique f h : unique_holder f h w_store.
Proof. intros sid sid' it it' [-> _]%w_cache [-> _]%w_cache. done. Qed.
Lemma w_wf2 : wf w_store2.
Proof. intros sid it [-> E]%(w_cache sid it). rewrite E. vm_compute. lia. Qed.
Lemma w_unique2 f h : unique_holder f h w_store2.
Proof. intros sid sid' it it' [-> _]%(w_cache sid it) [-> _]%(w_cache sid' it'). done. Qed.

Lemma w_names now : 0 ≤ now ≤ 600 → names w_ttl now "c1" w_store 0.
Proof.
  intros Hn. split; [done|]. split; [vm_compute; reflexivity|].
  exists (mkItem 0 600). split_and!; [vm_compute; reflexivity..|].
  unfold live. cbn [item_expires]. rewrite (bool_decide_eq_false_2 (600 < now)) by lia. by rewrite orb_true_r.
Qed.

(** A claim, an expiry extension, a lookup, and the handle is gone. *)
Lemma auth_session_claimed_once_witness :
  ∃ s1 s2 l, ClaimAuthSession w_ttl 10 "h1" w_store = (s1, Ok l) ∧
    s2 = fst (exec w_ttl w_valid 20 (AExtend (set_Code "c1" zero_context) 5000) s1) ∧
    ClaimAuthSession w_ttl 30 "h1" s2 = (s2, Err ErrNoDocuments).
Proof.
  destruct (ClaimAuthSession w_ttl 10 "h1" w_store) as [s1 [l|e]] eqn:E; [|vm_compute in E; discriminate E].
  eexists s1, _, l. split; [reflexivity|]. split; [reflexivity|].
  refine (proj2 (auth_session_claimed_once w_ttl w_valid 10 30 "h1" w_store s1 _ l w_wf (w_unique _ _) E _)).
  exact (steps_step _ _ _ s1 20 (AExtend (set_Code "c1" zero_context) 5000) _ I I (steps_refl _ _ _ _)).
Defined.

Definition w_resume : IssuerStateResume := mkResume "h2" "" "" "" "" "" None "" 2000 0.

Lemma issuer_state_resumed_once_witness :
  ∃ s1 l, ResumeIssuerState w_ttl 10 "i1" (Some w_resume) w_store = (s1, Ok l) ∧
    AuthSession (deref s1 l) = "h2" ∧
    ResumeIssuerState w_ttl 30 "i1" (Some w_resume) s1 = (s1, Err ErrNoDocuments).
Proof.
  destruct (ResumeIssuerState w_ttl 10 "i1" (Some w_resume) w_store) as [s1 [l|e]] eqn:E;
    [|vm_compute in E; discriminate E].
  exists s1, l. split; [reflexivity|].
  destruct (issuer_state_resumed_once w_ttl w_valid 10 30 "i1" w_resume w_store s1 s1 l w_wf (w_unique _ _) E)
    as (H1 & _ & H2 & _); [apply steps_refl|]. split; [exact H1|]. apply H2.
Defined.

Lemma refresh_token_rotated_once_witness :
  ∃ s1, RotateRefreshToken w_ttl 10 "r1" (Some 1%nat) w_store2 = (s1, Ok tt) ∧
    GetByRefreshToken w_ttl 30 "r1" s1 = (s1, Err ErrNoDocuments).
Proof.
  destruct (RotateRefreshToken w_ttl 10 "r1" (Some 1%nat) w_store2) as [s1 [[]|e]] eqn:E;
    [|vm_compute in E; discriminate E].
  exists s1. split; [reflexivity|].
  refine (proj1 (refresh_token_rotated_once w_ttl w_valid 10 30 "r1" 1 w_store2 s1 s1 w_wf2 (w_unique2 _ _) _ _ E
                   (steps_refl _ _ _ _))).
  - vm_compute. lia.
  - vm_compute. discriminate.
Defined.

Definition w_ops : list (Z * grant_op) :=
  [(20, GConsume); (30, GConsume); (40, GRedeem "kA"); (50, GConsume); (60, GConsume);
   (70, GRedeem "kA"); (80, GConsume); (90, GRedeem "kB")].

Lemma w_timely : timely w_ttl 10 w_ops.
Proof. cbn. unfold within, w_ttl. lia. Qed.

(** Five PIN attempts pass; the first client's second redemption and the
    sixth attempt do not, and the latter ends the code. *)
Lemma code_operations_refine_witness :
  snd (grant_run_store w_ttl "c1" ((10, GConsume) :: w_ops) w_store) =
    [Ok tt; Ok tt; Ok tt; Ok tt; Ok tt; Ok tt; Err ErrAlreadyRedeemed;
     Err ErrTXCodeAttemptsExceeded; Err ErrForfeited].
Proof.
  pose proof (code_operations_refine w_ttl 10 "c1" GConsume w_ops w_store 0 (w_names 10 ltac:(lia)) eq_refl w_timely) as R.
  destruct (grant_run_store _ _ _ _) as [s' rs]. apply (f_equal snd) in R. cbn [snd] in *. rewrite <- R.
  vm_compute. reflexivity.
Defined.

Lemma code_bounds_witness :
  Z.of_nat (length (ok_ops is_consume (GConsume :: map snd w_ops)
              (snd (grant_run_store w_ttl "c1" ((10, GConsume) :: w_ops) w_store)))) ≤ 5.
Proof.
  exact (proj1 (code_bounds w_ttl 10 "c1" GConsume w_ops w_store 0 (w_names 10 ltac:(lia)) eq_refl w_timely
                  eq_refl eq_refl)).
Defined.

Definition w_store5 : store :=
  fst (grant_run_store w_ttl "c1" (repeat (0, GConsume) 5) w_store).

Lemma exhausted_code_is_dead_witness :
  snd (grant_run_store w_ttl "c1" ((10, GConsume) :: [(20, GRedeem "kA"); (30, GForfeit)]) w_store5) =
    [Err ErrTXCodeAttemptsExceeded; Err ErrForfeited; Err ErrForfeited].
Proof.
  assert (names w_ttl 10 "c1" w_store5 0) as Hn.
  { split; [done|]. split; [vm_compute; reflexivity|].
    exists (mkItem 0 600). split_and!; vm_compute; reflexivity. }
  pose proof (exhausted_code_is_dead w_ttl 10 "c1" [(20, GRedeem "kA"); (30, GForfeit)] w_store5 0 Hn eq_refl) as R.
  destruct (grant_run_store _ _ _ _) as [s' rs]. cbn [snd]. apply R.
  - cbn. unfold within, w_ttl. lia.
  - vm_compute. reflexivity.
  - vm_compute. discriminate.
Defined.

(** Saved at 0 for 600 seconds, redeemed at 599: the entry now lives to 1199. *)
Lemma redemption_extends_lifetime_witness :
  ∃ s', RedeemPreAuthorizedCode w_ttl 599 "c1" "kA" w_store = (s', Ok 0%nat) ∧
    item_expires <$> cache w_store !! "s1" = Some 600 ∧
    item_expires <$> cache s' !! "s1" = Some 1199.
Proof.
  destruct (RedeemPreAuthorizedCode w_ttl 599 "c1" "kA" w_store) as [s' r] eqn:E.
  assert (r = Ok 0%nat) as -> by (apply (f_equal snd) in E; cbn [snd] in E; rewrite <- E; vm_compute; reflexivity).
  exists s'. split; [reflexivity|]. split; [vm_compute; reflexivity|].
  exact (redemption_extends_lifetime w_ttl 599 "c1" "kA" w_store s' 0 ltac:(vm_compute; reflexivity)
           (w_names 599 ltac:(lia)) E).
Defined.

Lemma Save_then_Get_witness :
  snd (Get w_ttl 300 (Some (set_IssuerState "i1" zero_context)) w_store) = Ok 0%nat.
Proof.
  refine (Save_then_Get w_ttl w_valid 0 300 0 (mkStore {[ 0%nat := w_doc ]} 1 ∅ ∅ []) w_store _ _ _ _).
  - vm_compute. reflexivity.
  - right. vm_compute. discriminate.
  - right. split; [reflexivity|]. exists "issuer_state", "i1". split; [reflexivity|]. vm_compute. set_solver.
Defined.

Lemma Delete_unresolvable_witness :
  snd (get_by w_ttl 20 "code" "c1" (fst (Delete w_ttl 10 "s1" w_store))) = Err ErrNoDocuments.
Proof.
  refine (proj2 (Delete_unresolvable w_ttl 10 20 "s1" w_store _ _) (mkItem 0 600) "code" "c1" _ _ _ _).
  - vm_compute. reflexivity.
  - vm_compute. reflexivity.
  - vm_compute. reflexivity.
  - discriminate.
  - vm_compute. set_solver.
Defined.

Lemma ExtendExpiry_spec_witness :
  ∃ sid d, doc_at w_store sid = Some d ∧
    doc_at (fst (ExtendExpiry w_ttl 10 (Some (set_Code "c1" zero_context)) 5000 w_store)) sid =
      Some (set_ExpiresAt (Z.max (ExpiresAt d) 5000) d).
Proof.
  destruct (ExtendExpiry_spec w_ttl 10 (set_Code "c1" zero_context) 5000 w_store
              (fst (ExtendExpiry w_ttl 10 (Some (set_Code "c1" zero_context)) 5000 w_store)) w_wf)
    as (sid & d & H1 & H2 & _); [vm_compute; reflexivity|]. exists sid, d. split; [exact H1|exact H2].
Defined.

Lemma in_place_update_keeps_old_token_witness :
  ∃ s', Update w_ttl w_valid 600 (Some 0%nat) (write_doc 0 (set_RefreshToken "r2" (deref w_store 0)) w_store)
          = (s', Ok tt) ∧
    snd (GetByRefreshToken w_ttl 600 "r1" s') = Ok 0%nat.
Proof.
  destruct (Update w_ttl w_valid 600 (Some 0%nat) (write_doc 0 (set_RefreshToken "r2" (deref w_store 0)) w_store))
    as [s' [[]|e]] eqn:E; [|vm_compute in E; discriminate E].
  exists s'. split; [reflexivity|].
  refine (in_place_update_keeps_old_token w_ttl w_valid 600 0 w_store s' "r1" "r2" _ _ _ _ _ E);
    [discriminate|vm_compute; reflexivity|discriminate|vm_compute; reflexivity|vm_compute; reflexivity].
Defined.
