(* ===== verification/OAuth2.v ===== *)
(** * OAuth 2.0: clients, PKCE, DPoP proofs, client assertions

    [pkg/oauth2]: [errors.go], [pkce.go], [clients.go], [dpop.go],
    [client_assertion.go] and [client_assertion_verifier.go].  The parsing of a
    URL, of an address and of a host name, and the parsing of a signed token up
    to its claims, are interfaces; what the code decides from their results is
    written out.  The texts of error descriptions are left out: an error is its
    code and status. *)

From Stdlib Require Import SpecFloat.
From S2P Require Import Prelude GoStrings GoValue Utf8 Json Jwt SdJwt.

(** ** Errors *)

Record OAuthError := mkOAuthError { ErrorCode : string; HTTPStatus : Z }.

Definition ErrCodeInvalidRequest := "invalid_request".
Definition ErrCodeInvalidClient := "invalid_client".
Definition ErrCodeInvalidGrant := "invalid_grant".
Definition ErrCodeUnsupportedGrantType := "unsupported_grant_type".
Definition ErrCodeInvalidScope := "invalid_scope".
Definition ErrCodeServerError := "server_error".
Definition ErrCodeInvalidDPoPProof := "invalid_dpop_proof".
Definition ErrCodeInvalidTXCode := "invalid_tx_code".

Definition OAuthErrDPoPRequired := mkOAuthError ErrCodeInvalidDPoPProof 400.
Definition OAuthErrPKCERequired := mkOAuthError ErrCodeInvalidRequest 400.
Definition OAuthErrExpiredRequest := mkOAuthError ErrCodeInvalidGrant 400.
Definition OAuthErrJTIReplay := mkOAuthError ErrCodeInvalidDPoPProof 400.

(** ** PKCE *)

Definition CodeChallengeMethodS256 := "S256".

Section pkce.
Context `{Hashes}.

Definition CreateCodeChallenge (codeChallengeMethod codeVerifier : string) : string :=
  if bool_decide (codeChallengeMethod = CodeChallengeMethodS256) then b64 (hash_sum "sha-256" codeVerifier)
  else codeVerifier.

Inductive pkce_error := PInvalidRequest | PInvalidGrant.

Definition ValidatePKCE (codeVerifier codeChallenge codeChallengeMethod : string) : result pkce_error unit :=
  if str_empty codeChallenge then Ok tt else
  if str_empty codeVerifier then Err PInvalidRequest else
  if negb (bool_decide (CreateCodeChallenge codeChallengeMethod codeVerifier = codeChallenge)) then Err PInvalidGrant
  else Ok tt.

Lemma ValidatePKCE_Ok v ch m :
  ValidatePKCE v ch m = Ok tt ↔ ch = "" ∨ (v ≠ "" ∧ CreateCodeChallenge m v = ch).
Proof.
  unfold ValidatePKCE. destruct (str_empty ch) eqn:E1.
  { apply str_empty_true in E1. naive_solver. }
  apply str_empty_false in E1. destruct (str_empty v) eqn:E2.
  { apply str_empty_true in E2. naive_solver. }
  apply str_empty_false in E2. destruct (bool_decide_reflect (CreateCodeChallenge m v = ch)); cbn; naive_solver.
Qed.
End pkce.

(** ** URLs

    [url.Parse] and the accessors the sources use. *)

Record URL := mkURL {
  u_Scheme : string; u_Opaque : string; u_User : option (string * option string); u_Host : string;
  u_Path : string; u_RawPath : string; u_OmitHost : bool; u_ForceQuery : bool;
  u_RawQuery : string; u_Fragment : string; u_RawFragment : string
}.
#[global] Instance URL_eq_dec : EqDecision URL.
Proof. solve_decision. Defined.

Class NetURL := {
  url_Parse : string → option URL;
  Hostname : URL → string;
  Port : URL → string;
  EscapedPath : URL → string;
  (* [netip.ParseAddr], as the canonical text of the address *)
  ParseAddr : string → option string;
  (* the host name in ASCII, by the mapping a browser uses *)
  ToASCII : string → option string
}.

Definition lower_char (c : Ascii.ascii) : Ascii.ascii :=
  let n := Ascii.nat_of_ascii c in if (65 <=? n)%nat && (n <=? 90)%nat then Ascii.ascii_of_nat (n + 32) else c.
Fixpoint ToLower (s : string) : string :=
  match s with EmptyString => EmptyString | String c s => String (lower_char c) (ToLower s) end.

(** [path.Clean]: empty and [.] elements go, [..] removes the element before it
    and is dropped at the root. *)
Fixpoint clean_segments (rooted : bool) (segs stack : list string) : list string :=
  match segs with
  | [] => rev stack
  | s :: segs =>
      clean_segments rooted segs
        (if bool_decide (s = "") || bool_decide (s = ".") then stack else
         if bool_decide (s = "..") then
           match stack with
           | top :: rest => if bool_decide (top = "..") then s :: stack else rest
           | [] => if rooted then [] else [s]
           end
         else s :: stack)
  end.

Definition path_Clean (path : string) : string :=
  if str_empty path then "." else
  let rooted := HasPrefix "/" path in
  let out := (if rooted then "/" else "") +:+ Join "/" (clean_segments rooted (Split "/" path) []) in
  if str_empty out then "." else out.

(** [strings.HasSuffix(s, "/*")] and [strings.TrimSuffix(s, "*")]. *)
Fixpoint wildcard (s : string) : option string :=
  match s with
  | EmptyString => None
  | String c s' =>
      if bool_decide (s = "/*") then Some "/" else
      match wildcard s' with Some p => Some (String c p) | None => None end
  end.

(** ** Clients *)

Definition ClientTypePublic := "public".

Record Client := mkClient { c_Type : string; c_RedirectURIs : list string; c_Scopes : list string; c_JWKSURI : string }.

(** A nil pointer in the map counts as absent. *)
Abbreviation Clients := (gmap string (option Client)).

Inductive client_error := ErrClientNotFound | ErrRedirect | ErrScope.

Definition dangerousRedirectURISchemes : list string := ["javascript"; "data"; "vbscript"; "file"; "about"].

Section clients.
Context `{NetURL}.

Definition matches_redirect (parsed : URL) (allowed : string) : bool :=
  match wildcard allowed with
  | Some prefix =>
      match url_Parse prefix with
      | None => false
      | Some prefixParsed =>
          let cleanedPath := path_Clean (u_Path parsed) in
          let cleanedPrefix := path_Clean (u_Path prefixParsed) in
          bool_decide (u_Scheme parsed = u_Scheme prefixParsed) && bool_decide (u_Host parsed = u_Host prefixParsed) &&
          (bool_decide (cleanedPath = cleanedPrefix) || HasPrefix (cleanedPrefix +:+ "/") cleanedPath ||
           bool_decide (cleanedPrefix = "/"))
      end
  | None =>
      match url_Parse allowed with
      | None => false
      | Some allowedParsed => bool_decide (parsed = allowedParsed)
      end
  end.

Definition Contains (r : list string) (uri : string) : bool :=
  match url_Parse uri with
  | None => false
  | Some parsed => if negb (str_empty (u_Fragment parsed)) then false else existsb (matches_redirect parsed) r
  end.

Definition FirstConcreteURI (r : list string) : string :=
  match find (fun uri => match wildcard uri with None => true | Some _ => false end) r with
  | Some uri => uri
  | None => match r with u :: _ => default "" (wildcard u) | [] => "" end
  end.

Definition Get (c : Clients) (clientID : string) : result client_error Client :=
  match c !! clientID with Some (Some client) => Ok client | _ => Err ErrClientNotFound end.

Definition allow (c : Clients) (clientID redirectURI scope : string) (requireRedirect : bool) : result client_error Client :=
  client ← Get c clientID;
  if requireRedirect && (bool_decide (c_RedirectURIs client = []) || negb (Contains (c_RedirectURIs client) redirectURI))
  then Err ErrRedirect else
  if bool_decide (scope ∈ c_Scopes client) then Ok client else Err ErrScope.

Definition Allow (c : Clients) (clientID redirectURI scope : string) := allow c clientID redirectURI scope true.
Definition AllowWithoutRedirect (c : Clients) (clientID redirectURI scope : string) :=
  allow c clientID redirectURI scope (negb (str_empty redirectURI)).

Definition ValidateRedirectURIScheme (redirectURI : string) : bool :=
  match url_Parse redirectURI with
  | None => false
  | Some parsed =>
      negb (str_empty (u_Scheme parsed)) && negb (bool_decide (ToLower (u_Scheme parsed) ∈ dangerousRedirectURISchemes))
  end.
End clients.

(** ** DPoP proofs *)

Record DPoP := mkDPoP { JTI : string; HTM : string; HTU : string; IAT : Z; ATH : string; Thumbprint : string }.

Inductive dpop_error :=
| ErrMissingJTI | ErrInvalidJTI | ErrMissingHTM | ErrInvalidHTM | ErrMissingHTU | ErrInvalidHTU
| ErrMissingIAT | ErrInvalidIAT | ErrTokenFromFuture | ErrTokenTooOld
| ErrInvalidTokenType | ErrMalformedProof.

Definition DefaultMaxAge : Z := 60 * second.
Definition DefaultClockSkew : Z := 5 * second.

Definition ValidateJTI (d : DPoP) : result dpop_error unit :=
  if str_empty (JTI d) then Err ErrMissingJTI else
  if bool_decide (String.length (JTI d) < 12)%nat then Err ErrInvalidJTI else Ok tt.

Definition validMethods : list string := ["GET"; "POST"; "PUT"; "DELETE"; "PATCH"; "HEAD"; "OPTIONS"].
Definition ValidateHTM (d : DPoP) : result dpop_error unit :=
  if str_empty (HTM d) then Err ErrMissingHTM else
  if bool_decide (HTM d ∈ validMethods) then Ok tt else Err ErrInvalidHTM.

Definition ValidateIATWithWindow (now : Z) (d : DPoP) (maxAge clockSkew : Z) : result dpop_error unit :=
  if bool_decide (IAT d = 0) then Err ErrMissingIAT else
  if bool_decide (IAT d < 0) then Err ErrInvalidIAT else
  let iat := time_Unix (IAT d) in
  if bool_decide (now + clockSkew < iat) then Err ErrTokenFromFuture else
  if bool_decide (maxAge < now - iat) then Err ErrTokenTooOld else Ok tt.

(** A signed proof as [jose.ParseJWTWithJWKHeader] reads it: the type in the
    header, and the claims decoded into the struct with the thumbprint of the
    key in the header, under which the signature was verified.  [None] where the
    token, its signature, its key or its claims are refused. *)
Class ProofParser := { parse_proof : Z → string → option (string * DPoP) }.

Section dpop.
Context `{NetURL}.

Definition ValidateHTU (d : DPoP) : result dpop_error unit :=
  if str_empty (HTU d) then Err ErrMissingHTU else
  match url_Parse (HTU d) with
  | None => Err ErrInvalidHTU
  | Some u => if negb (str_empty (u_RawQuery u)) || negb (str_empty (u_Fragment u)) then Err ErrInvalidHTU else Ok tt
  end.

Definition ValidateWithWindow (now : Z) (d : DPoP) (maxAge clockSkew : Z) : result dpop_error unit :=
  _ ← ValidateJTI d; _ ← ValidateHTM d; _ ← ValidateHTU d; ValidateIATWithWindow now d maxAge clockSkew.
Definition Validate (now : Z) (d : DPoP) : result dpop_error unit :=
  ValidateWithWindow now d DefaultMaxAge DefaultClockSkew.

Definition ValidateAndParseDPoPJWT `{ProofParser} (now : Z) (dPopJWT : string) : result dpop_error DPoP :=
  if str_empty dPopJWT then Err ErrMalformedProof else
  match parse_proof now dPopJWT with
  | None => Err ErrMalformedProof
  | Some (typ, d) =>
      if negb (bool_decide (typ = "dpop+jwt")) then Err ErrInvalidTokenType else
      _ ← Validate now d; Ok d
  end.

Definition IsAccessTokenDPoP `{Hashes} (d : DPoP) (token : string) : bool :=
  if str_empty (ATH d) then false else bool_decide (ATH d = b64 (hash_sum "sha-256" token)).
End dpop.

(** *** The target of a proof *)

Definition unhexDigit (c : Ascii.ascii) : option Z :=
  let n := byte_of c in
  if bool_decide (48 ≤ n ≤ 57) then Some (n - 48) else
  if bool_decide (97 ≤ n ≤ 102) then Some (n - 97 + 10) else
  if bool_decide (65 ≤ n ≤ 70) then Some (n - 65 + 10) else None.

Definition isUnreservedByte (n : Z) : bool :=
  bool_decide (97 ≤ n ≤ 122) || bool_decide (65 ≤ n ≤ 90) || bool_decide (48 ≤ n ≤ 57) ||
  bool_decide (n = 45) || bool_decide (n = 46) || bool_decide (n = 95) || bool_decide (n = 126).

Definition upper_char (c : Ascii.ascii) : Ascii.ascii :=
  let n := byte_of c in if bool_decide (97 ≤ n ≤ 122) then ascii_of (n - 32) else c.

(** The loop of [normalizePercentEncoding]. *)
Fixpoint normalize_escapes (l : list Ascii.ascii) : list Ascii.ascii :=
  match l with
  | [] => []
  | c :: rest =>
      if negb (bool_decide (c = "%"%char)) then c :: normalize_escapes rest else
      match rest with
      | a :: b :: rest' =>
          match unhexDigit a, unhexDigit b with
          | Some high, Some low =>
              let octet := Z.lor (Z.shiftl high 4) low in
              if isUnreservedByte octet then ascii_of octet :: normalize_escapes rest'
              else "%"%char :: upper_char a :: upper_char b :: normalize_escapes rest'
          | _, _ => c :: normalize_escapes rest
          end
      | _ => c :: normalize_escapes rest
      end
  end.

Definition normalizePercentEncoding (path : string) : string :=
  if negb (has_byte "%"%char path) then path
  else String.string_of_list_ascii (normalize_escapes (String.list_ascii_of_string path)).

Definition defaultPortFor (scheme : string) : string :=
  if bool_decide (scheme = "https") then "443" else if bool_decide (scheme = "http") then "80" else "".

Fixpoint trim_zeros (s : string) : string :=
  match s with
  | String c s' => if bool_decide (c = "0"%char) then trim_zeros s' else s
  | EmptyString => EmptyString
  end.

Section htu.
Context `{NetURL}.

Definition normalizeURIForComparison (raw : string) : option string :=
  match url_Parse raw with
  | None => None
  | Some u =>
      if str_empty (u_Scheme u) || str_empty (u_Host u) then None else
      let scheme := ToLower (u_Scheme u) in
      match (match ParseAddr (Hostname u) with Some addr => Some addr | None => ToASCII (Hostname u) end) with
      | None => None
      | Some host =>
          let host := if has_byte ":"%char host then "[" +:+ host +:+ "]" else host in
          let port := trim_zeros (Port u) in
          let port := if negb (str_empty (Port u)) && str_empty port then "0" else port in
          let host := if negb (str_empty port) && negb (bool_decide (port = defaultPortFor scheme))
                      then host +:+ ":" +:+ port else host in
          let path := normalizePercentEncoding (EscapedPath u) in
          let path := if str_empty path then "/" else path in
          Some (scheme +:+ "://" +:+ host +:+ path)
      end
  end.

Definition SameHTU (htu endpoint : string) : bool :=
  match normalizeURIForComparison htu, normalizeURIForComparison endpoint with
  | Some a, Some b => bool_decide (a = b)
  | _, _ => bool_decide (htu = endpoint)
  end.
End htu.

(** ** Client assertions *)

Definition MaxClientIDLength : Z := 512.

(** What the libraries make of an assertion: the member [sub] of a JSON text
    decoded into a struct, and the claims of a token that [jwt.Parse] accepts
    under a key of the client's key set, with the options [Verify] passes
    (algorithms, audience, required expiry, leeway), at a time. *)
Class AssertionParser := {
  json_sub : string → option string;
  parse_assertion : Z → string → string → string → option jobject
}.

(** The ASCII white space [strings.TrimSpace] removes; the request validation
    admits printable ASCII only. *)
Definition space_char (c : Ascii.ascii) : bool := let n := byte_of c in bool_decide (9 ≤ n ≤ 13) || bool_decide (n = 32).
Fixpoint drop_spaces (l : list Ascii.ascii) : list Ascii.ascii :=
  match l with c :: l' => if space_char c then drop_spaces l' else l | [] => [] end.
Definition TrimSpace (s : string) : string :=
  String.string_of_list_ascii (rev (drop_spaces (rev (drop_spaces (String.list_ascii_of_string s))))).

Definition printable (s : string) : bool :=
  forallb (fun c => bool_decide (32 ≤ byte_of c ≤ 126)) (String.list_ascii_of_string s).

Definition ExtractClientIDFromAssertion `{AssertionParser} (assertion : string) : option string :=
  match Split "." (TrimSpace assertion) with
  | [_; part; _] =>
      payload ← unb64 part;
      sub ← json_sub payload;
      if str_empty sub then None else
      if bool_decide (MaxClientIDLength < Z.of_nat (String.length sub)) then None else
      if printable sub then Some sub else None
  | _ => None
  end.

Definition maxLifetime : Z := 5 * minute.
Definition clockSkew : Z := 30 * second.

Definition float_field (m : jobject) (k : string) : option spec_float :=
  match m !! k with Some (JFloat f) => Some f | _ => None end.

(** [ClientAssertionVerifier.Verify] up to the check of the [jti], which the
    caller supplies: the [jti] and the expiry. *)
Definition Verify `{Arch} `{AssertionParser} (now : Z) (tokenEndpoint assertion : string) (client : Client) : option (string * Z) :=
  if str_empty (c_JWKSURI client) then None else
  if str_empty tokenEndpoint then None else
  claims ← parse_assertion now assertion (c_JWKSURI client) tokenEndpoint;
  let iss := str_field claims "iss" in
  let sub := str_field claims "sub" in
  if str_empty iss || str_empty sub then None else
  if negb (bool_decide (iss = sub)) then None else
  let jti := str_field claims "jti" in
  if str_empty jti then None else
  let expFloat := default (S754_zero false) (float_field claims "exp") in
  iatFloat ← float_field claims "iat";
  if match iatFloat with S754_zero _ => true | _ => false end then None else
  let expTime := time_Unix (float_int64 expFloat) in
  let iatTime := time_Unix (float_int64 iatFloat) in
  if bool_decide (expTime < iatTime) then None else
  if bool_decide (now + clockSkew < iatTime) then None else
  if bool_decide (now + (maxLifetime + clockSkew) < expTime) then None else
  if bool_decide (maxLifetime < expTime - iatTime) then None else
  Some (jti, expTime).

(** ** Redirect URIs *)

Lemma wildcard_Some s p : wildcard s = Some p → ∃ q, s = q +:+ "/*" ∧ p = q +:+ "/".
Proof.
  revert p. induction s as [|c s IH]; intros p; cbn; [done|]. case_bool_decide as E.
  - intros [= <-]. exists "". by rewrite E.
  - destruct (wildcard s) as [p'|]; [|done]. intros [= <-]. destruct (IH p' eq_refl) as (q & -> & ->).
    by exists (String c q).
Qed.

(** A cleaned path has no empty and no [.] element, and [..] only where nothing
    comes before it, which under a root is nowhere. *)
Definition climbing (rooted : bool) (l : list string) : Prop :=
  ∃ n rest, l = (replicate n ".." ++ rest)%list ∧ (rooted = true → n = 0%nat) ∧
    Forall (fun s => s ≠ "" ∧ s ≠ "." ∧ s ≠ "..") rest.

Lemma clean_segments_climbing rooted segs stack :
  climbing rooted (rev stack) → climbing rooted (clean_segments rooted segs stack).
Proof.
  revert stack. induction segs as [|s segs IH]; intros stack Hs; [done|]. cbn. apply IH.
  case_bool_decide as H1; [done|]. case_bool_decide as H2; [done|]. cbn [orb].
  destruct Hs as (n & rest & E & Hn & Hr). case_bool_decide as H3.
  - subst s. destruct stack as [|top stack].
    + destruct rooted; [by exists 0%nat, []|]. by exists 1%nat, [].
    + cbn in E. destruct rest as [|r rest _] using rev_ind.
      * rewrite app_nil_r in E. destruct n as [|n]; [by destruct (rev stack)|].
        rewrite replicate_S_end in E. apply app_inj_tail in E as [E ->]. rewrite bool_decide_eq_true_2 by done.
        cbn. rewrite E. exists (S (S n)), []. rewrite app_nil_r, (replicate_S_end (S n)), (replicate_S_end n). split_and!; [done| |done].
        intros Hr'. specialize (Hn Hr'). done.
      * rewrite app_assoc in E. apply app_inj_tail in E as [E ->].
        apply Forall_app in Hr as [Hr Hl]. apply Forall_singleton in Hl as (_ & _ & Hl). rewrite bool_decide_eq_false_2 by done.
        by exists n, rest.
  - exists n, (rest ++ [s])%list. cbn. rewrite E, <- app_assoc. split_and!; [done..|].
    apply Forall_app. split; [done|]. by apply Forall_singleton.
Qed.

(** The elements of a rooted path, once cleaned. *)
Definition path_elements (path : string) : list string := clean_segments true (Split "/" path) [].

Definition element (s : string) : Prop := s ≠ "" ∧ s ≠ "." ∧ s ≠ ".." ∧ has_byte "/"%char s = false.

Lemma Split_words c s : Forall (fun w => has_byte c w = false) (Split c s).
Proof.
  induction s as [|d s IH]; cbn; [by repeat constructor|]. case_bool_decide as E; [by constructor|].
  destruct (Split c s) as [|w ws]; inversion_clear IH; repeat constructor; cbn; rewrite ?bool_decide_eq_false_2 by done; done.
Qed.

Lemma clean_segments_from rooted segs stack P :
  Forall P segs → Forall P stack → Forall P (clean_segments rooted segs stack).
Proof.
  intros Hs. revert stack. induction Hs as [|s segs Hs _ IH]; intros stack Ht; cbn; [by apply Forall_rev|].
  apply IH. case_match; [done|]. case_match; [|by constructor].
  destruct stack as [|top stack]; [destruct rooted; by repeat constructor|].
  inversion_clear Ht. case_match; by repeat constructor.
Qed.

Lemma path_elements_ok path : Forall element (path_elements path).
Proof.
  destruct (clean_segments_climbing true (Split "/" path) []) as (n & rest & E & Hn & Hr); [by exists 0%nat, []|].
  rewrite (Hn eq_refl) in E. cbn in E. unfold path_elements. rewrite E.
  pose proof (clean_segments_from true (Split "/" path) [] _ (Split_words "/" path) ltac:(constructor)) as Hb.
  rewrite E in Hb. rewrite Forall_forall in Hr, Hb |- *. intros s Hs. split_and!; [apply Hr, Hs..|]. by apply Hb.
Qed.

Lemma path_Clean_rooted path : HasPrefix "/" path = true → path_Clean path = "/" +:+ Join "/" (path_elements path).
Proof. intros Hp. unfold path_Clean. destruct path as [|c path]; [done|]. cbn [str_empty]. rewrite Hp. done. Qed.

Lemma Join_cons_cons c w ws : ws ≠ [] → Join c (w :: ws) = w +:+ String c (Join c ws).
Proof. by destruct ws. Qed.

Lemma append_nil_l s : "" +:+ s = s.
Proof. reflexivity. Qed.

Lemma no_sep_prefix c w s v : has_byte c w = false → has_byte c v = false →
  String.prefix (w +:+ String c s) v = false.
Proof.
  revert v. induction w as [|d w IH]; intros [|e v]; rewrite ?append_nil_l, ?append_cons; cbn; try done.
  - intros _ [He _]%orb_false_iff. apply bool_decide_eq_false in He. destruct (Ascii.ascii_dec c e); [congruence|done].
  - intros [_ Hw]%orb_false_iff [_ Hv]%orb_false_iff. destruct (Ascii.ascii_dec d e); [by apply IH|done].
Qed.

Lemma cut_prefix c w v s t : has_byte c w = false → has_byte c v = false →
  String.prefix (w +:+ String c s) (v +:+ String c t) = true → w = v ∧ String.prefix s t = true.
Proof.
  revert v. induction w as [|d w IH]; intros [|e v]; rewrite ?append_nil_l, ?append_cons; cbn.
  - intros _ _. by destruct (Ascii.ascii_dec c c).
  - intros _ [He _]%orb_false_iff. apply bool_decide_eq_false in He. destruct (Ascii.ascii_dec c e); [by subst|done].
  - intros [Hd _]%orb_false_iff _. apply bool_decide_eq_false in Hd. destruct (Ascii.ascii_dec d c); [by subst|done].
  - intros [_ Hw]%orb_false_iff [_ Hv]%orb_false_iff. destruct (Ascii.ascii_dec d e) as [->|]; [|done].
    intros Hp. by destruct (IH v Hw Hv Hp) as [-> ?].
Qed.

(** A path below another one has its elements, and more. *)
Lemma Join_prefix l l' : Forall element l → Forall element l' →
  String.prefix (Join "/" l +:+ "/") (Join "/" l') = true → l ≠ [] → l `prefix_of` l'.
Proof.
  intros Hl. revert l'. induction Hl as [|w l (Hw1 & _ & _ & Hw) Hl IH]; intros l' Hl' Hp Hne; [done|].
  destruct Hl' as [|v l' (Hv1 & _ & _ & Hv) Hl']; [by destruct (Join "/" (w :: l))|].
  destruct (decide (l = [])) as [->|Hn].
  - change (Join "/" [w]) with w in Hp. destruct (decide (l' = [])) as [->|Hn'].
    + change (Join "/" [v]) with v in Hp. by rewrite (no_sep_prefix "/" w "" v Hw Hv) in Hp.
    + rewrite (Join_cons_cons "/" v l' Hn') in Hp. apply cut_prefix in Hp as [-> _]; [|done..]. by apply prefix_cons, prefix_nil.
  - rewrite (Join_cons_cons "/" w l Hn), append_assoc_str, append_cons in Hp.
    destruct (decide (l' = [])) as [->|Hn'].
    + cbn [Join] in Hp. by rewrite no_sep_prefix in Hp.
    + rewrite (Join_cons_cons "/" v l' Hn') in Hp. apply cut_prefix in Hp as [-> Hp]; [|done..].
      apply prefix_cons. by apply IH.
Qed.

Lemma append_inj_sep c w v s t : has_byte c w = false → has_byte c v = false →
  w +:+ String c s = v +:+ String c t → w = v ∧ s = t.
Proof.
  revert v. induction w as [|d w IH]; intros [|e v]; rewrite ?append_nil_l, ?append_cons; cbn.
  - intros _ _ [= ->]. done.
  - intros _ [He _]%orb_false_iff [= <- _]. by rewrite bool_decide_eq_true_2 in He.
  - intros [Hd _]%orb_false_iff _ [= -> _]. by rewrite bool_decide_eq_true_2 in Hd.
  - intros [_ Hw]%orb_false_iff [_ Hv]%orb_false_iff [= -> E]. by destruct (IH v Hw Hv E) as [-> ->].
Qed.

Lemma no_sep_append c w s v : has_byte c v = false → v ≠ w +:+ String c s.
Proof.
  intros Hv ->. revert Hv. induction w as [|d w IH]; rewrite ?append_nil_l, ?append_cons; cbn; [by rewrite bool_decide_eq_true_2|].
  intros [_ ?]%orb_false_iff. auto.
Qed.

Lemma Join_inj l l' : Forall element l → Forall element l' → Join "/" l = Join "/" l' → l = l'.
Proof.
  intros Hl. revert l'. induction Hl as [|w l (Hw1 & _ & _ & Hw) Hl IH]; intros l' Hl' E.
  - destruct Hl' as [|v l' (Hv1 & _) _]; [done|]. exfalso. destruct l'; cbn in E; destruct v; done.
  - destruct Hl' as [|v l' (Hv1 & _ & _ & Hv) Hl']; [exfalso; destruct l; cbn in E; by destruct w|].
    destruct (decide (l = [])) as [->|Hn], (decide (l' = [])) as [->|Hn'].
    + cbn in E. by subst.
    + rewrite (Join_cons_cons "/" v l' Hn') in E. cbn [Join] in E. by apply no_sep_append in E.
    + rewrite (Join_cons_cons "/" w l Hn) in E. cbn [Join] in E. symmetry in E. by apply no_sep_append in E.
    + rewrite (Join_cons_cons "/" v l' Hn'), (Join_cons_cons "/" w l Hn) in E.
      apply append_inj_sep in E as [-> E]; [|done..]. f_equal. by apply IH.
Qed.

(** A redirect URI that passes the allowlist is one of its entries, or shares
    scheme and host with an entry that ends in a wildcard and lies below its
    path: once both paths are cleaned, the elements of the entry are a prefix
    of its own, so that no dot segments lead out of the allowed part. *)
Theorem redirect_contained `{NetURL} r uri :
  Contains r uri = true →
  ∃ parsed allowed, url_Parse uri = Some parsed ∧ u_Fragment parsed = "" ∧ allowed ∈ r ∧
    ((wildcard allowed = None ∧ url_Parse allowed = Some parsed) ∨
     ∃ prefix base, wildcard allowed = Some prefix ∧ url_Parse prefix = Some base ∧
       u_Scheme parsed = u_Scheme base ∧ u_Host parsed = u_Host base ∧
       (HasPrefix "/" (u_Path parsed) = true → HasPrefix "/" (u_Path base) = true →
        path_elements (u_Path base) `prefix_of` path_elements (u_Path parsed))).
Proof.
  unfold Contains. destruct (url_Parse uri) as [parsed|]; [|done].
  destruct (str_empty (u_Fragment parsed)) eqn:Ef; [|done]. apply str_empty_true in Ef. cbn [negb].
  intros (allowed & Hin & Hm)%existsb_exists. exists parsed, allowed. split; [done|]. split; [done|]. split; [by apply list_elem_of_In|].
  unfold matches_redirect in Hm. destruct (wildcard allowed) as [prefix|].
  - right. destruct (url_Parse prefix) as [base|] eqn:Eb; [|done]. exists prefix, base. split; [done|]. split; [done|].
    apply andb_true_iff in Hm as [[Hs Hh]%andb_true_iff Hm]. apply bool_decide_eq_true in Hs, Hh.
    split; [done|]. split; [done|]. intros Hp Hb. rewrite !path_Clean_rooted in Hm by done.
    pose proof (path_elements_ok (u_Path base)) as Ob. pose proof (path_elements_ok (u_Path parsed)) as Op.
    destruct (path_elements (u_Path base)) as [|w l]; [apply prefix_nil|].
    apply orb_true_iff in Hm as [[Hm|Hm]%orb_true_iff|Hm].
    + apply bool_decide_eq_true, append_inj_l, Join_inj in Hm; [by rewrite Hm|done..].
    + apply Join_prefix; [done..| |done]. rewrite append_assoc_str in Hm. exact Hm.
    + apply bool_decide_eq_true in Hm. injection Hm as Hm. exfalso. apply Forall_cons in Ob as [(Hw & _) _].
      destruct w; [done|]. by destruct l.
  - left. split; [done|]. destruct (url_Parse allowed); [|done]. by apply bool_decide_eq_true in Hm as ->.
Qed.

(** ** The escapes of a path

    RFC 3986 section 6.2.2: a path is a sequence of octets, some of them escaped;
    two spellings are equivalent when they differ in the case of hexadecimal
    digits and in escapes of unreserved octets only. *)

Fixpoint octets (l : list Ascii.ascii) : option (list (Z * bool)) :=
  match l with
  | [] => Some []
  | c :: rest =>
      if negb (bool_decide (c = "%"%char)) then ((byte_of c, false) ::.) <$> octets rest else
      match rest with
      | a :: b :: rest' =>
          match unhexDigit a, unhexDigit b with
          | Some high, Some low => ((16 * high + low, true) ::.) <$> octets rest'
          | _, _ => None
          end
      | _ => None
      end
  end.

Definition canonical (t : Z * bool) : Z * bool := (fst t, snd t && negb (isUnreservedByte (fst t))).

Definition hexDigit (n : Z) : Ascii.ascii := ascii_of (if bool_decide (n < 10) then 48 + n else 55 + n).
Definition spell (t : Z * bool) : list Ascii.ascii :=
  if snd t then ["%"%char; hexDigit (fst t / 16); hexDigit (fst t mod 16)] else [ascii_of (fst t)].

Lemma ascii_of_byte_of c : ascii_of (byte_of c) = c.
Proof. unfold ascii_of, byte_of. rewrite N2Z.id. apply ascii_N_embedding. Qed.

Lemma byte_of_range c : in_uint8 (byte_of c).
Proof. unfold in_uint8, byte_of. pose proof (N_ascii_bounded c). lia. Qed.

Lemma unhexDigit_spec a h : unhexDigit a = Some h → upper_char a = hexDigit h ∧ 0 ≤ h < 16.
Proof.
  unfold unhexDigit, upper_char, hexDigit. pose proof (ascii_of_byte_of a) as Ha.
  repeat case_bool_decide; intros [= <-]; (split; [|lia]); repeat case_bool_decide; try lia;
    first [f_equal; lia | rewrite <- Ha at 1; f_equal; lia].
Qed.

Lemma nibbles h lo : 0 ≤ h < 16 → 0 ≤ lo < 16 → Z.lor (Z.shiftl h 4) lo = 16 * h + lo.
Proof.
  intros Hh Hl.
  assert (forallb (fun h => forallb (fun lo => bool_decide (Z.lor (Z.shiftl h 4) lo = 16 * h + lo)) (seqZ 0 16)) (seqZ 0 16) = true)
    as E by (vm_compute; reflexivity).
  rewrite forallb_forall in E. specialize (E h). rewrite <- list_elem_of_In, elem_of_seqZ in E. specialize (E ltac:(lia)).
  rewrite forallb_forall in E. specialize (E lo). rewrite <- list_elem_of_In, elem_of_seqZ in E.
  specialize (E ltac:(lia)). by apply bool_decide_eq_true in E.
Qed.

Definition plausible (t : Z * bool) : Prop := in_uint8 (fst t) ∧ (snd t = false → fst t ≠ 37).

Lemma normalize_escapes_spec l ts :
  octets l = Some ts → normalize_escapes l = (canonical <$> ts) ≫= spell ∧ Forall plausible ts.
Proof.
  remember (length l) as n eqn:Hn. revert l ts Hn. induction n as [n IH] using lt_wf_ind. intros l ts ->.
  destruct l as [|c rest]; [intros [= <-]; by split|]. cbn [octets normalize_escapes].
  destruct (bool_decide_reflect (c = "%"%char)) as [->|Hc]; cbn [negb].
  - destruct rest as [|a [|b rest]]; [done..|].
    destruct (unhexDigit a) as [h|] eqn:Ea; [|done]. destruct (unhexDigit b) as [lo|] eqn:Eb; [|done].
    destruct (octets rest) as [ts'|] eqn:Er; [|done]. intros [= <-].
    destruct (unhexDigit_spec _ _ Ea) as [Ua Ha]. destruct (unhexDigit_spec _ _ Eb) as [Ub Hb].
    destruct (IH (length rest) ltac:(cbn; lia) rest ts' eq_refl Er) as [-> Ht]. split.
    + rewrite nibbles by done. rewrite fmap_cons, bind_cons.
      change (canonical (16 * h + lo, true)) with (16 * h + lo, negb (isUnreservedByte (16 * h + lo))).
      unfold spell at 3. cbn [fst snd]. destruct (isUnreservedByte (16 * h + lo)); cbn [negb app]; [done|]. rewrite Ua, Ub.
      replace ((16 * h + lo) / 16) with h by (apply Z.div_unique with lo; lia).
      replace ((16 * h + lo) mod 16) with lo by (apply Z.mod_unique with h; lia). done.
    + constructor; [|done]. split; cbn; [unfold in_uint8; lia|done].
  - destruct (octets rest) as [ts'|] eqn:Er; [|done]. intros [= <-].
    destruct (IH (length rest) ltac:(cbn; lia) rest ts' eq_refl Er) as [-> Ht]. split.
    + cbn. by rewrite ascii_of_byte_of.
    + constructor; [|done]. split; [apply byte_of_range|]. cbn. intros _ E. apply Hc.
      rewrite <- (ascii_of_byte_of c), E. done.
Qed.

Lemma ascii_of_inj x y : in_uint8 x → in_uint8 y → ascii_of x = ascii_of y → x = y.
Proof. intros Hx Hy E. apply (f_equal byte_of) in E. rewrite !byte_of_ascii_of in E by done. done. Qed.

Lemma hexDigit_inj x y : 0 ≤ x < 16 → 0 ≤ y < 16 → hexDigit x = hexDigit y → x = y.
Proof.
  unfold hexDigit. intros Hx Hy E. apply ascii_of_inj in E; unfold in_uint8; repeat case_bool_decide; lia.
Qed.

Lemma spell_percent t : plausible t → head (spell t) = Some "%"%char → snd t = true.
Proof.
  intros [Hr Hp]. destruct t as [o []]; [done|]. cbn in *. intros [= E]. exfalso. apply Hp; [done|].
  by apply (ascii_of_inj o 37).
Qed.

Lemma spell_inj ts ts' : Forall plausible ts → Forall plausible ts' → ts ≫= spell = ts' ≫= spell → ts = ts'.
Proof.
  intros Ht. revert ts'. induction Ht as [|t ts Hp Ht IH]; intros ts' Ht' E.
  - destruct Ht' as [|[o []] ts' _ _]; done.
  - destruct Ht' as [|t' ts' Hp' Ht']; [by destruct t as [o []]|].
    destruct t as [o b], t' as [o' b']. pose proof (spell_percent _ Hp) as S. pose proof (spell_percent _ Hp') as S'.
    destruct Hp as [Hr _], Hp' as [Hr' _]. cbn [fst snd] in *.
    destruct b, b'; cbn in E, S, S'.
    + injection E as E1 E2 E. apply hexDigit_inj in E1; [|split; [apply Z.div_pos|apply Z.div_lt_upper_bound]; unfold in_uint8 in *; lia..].
      apply hexDigit_inj in E2; [|apply Z.mod_pos_bound; lia..]. apply IH in E as ->; [|done]. f_equal. f_equal.
      rewrite (Z.div_mod o 16), (Z.div_mod o' 16), E1, E2 by lia. done.
    + injection E as E _. symmetry in E. by rewrite E in S'; specialize (S' eq_refl).
    + injection E as E _. by rewrite E in S; specialize (S eq_refl).
    + injection E as E1 E. apply ascii_of_inj in E1 as ->; [|done..]. by apply IH in E as ->.
Qed.

Lemma canonical_plausible ts : Forall plausible ts → Forall plausible (canonical <$> ts).
Proof.
  intros Ht. apply Forall_fmap. eapply Forall_impl; [done|]. intros [o b] [Hr Hp]. split; [done|]. cbn in *.
  destruct b; [|auto]. intros Hu ->. done.
Qed.

Lemma normalizePercentEncoding_spec p : normalizePercentEncoding p = String.string_of_list_ascii (normalize_escapes (String.list_ascii_of_string p)).
Proof.
  unfold normalizePercentEncoding. destruct (has_byte "%"%char p) eqn:E; [done|]. cbn [negb].
  induction p as [|c p IH]; [done|]. cbn in E |- *. apply orb_false_iff in E as [Hc E].
  rewrite Hc. cbn. f_equal. by apply IH.
Qed.

(** Two well-formed paths normalize to the same text exactly when they are the
    same octets with the same escapes of reserved octets: the case of
    hexadecimal digits and escapes of unreserved octets are all the
    comparison of a proof's target ignores. *)
Theorem normalized_path_spec p q ps qs :
  octets (String.list_ascii_of_string p) = Some ps → octets (String.list_ascii_of_string q) = Some qs →
  normalizePercentEncoding p = normalizePercentEncoding q ↔ canonical <$> ps = canonical <$> qs.
Proof.
  intros [Ep Hp]%normalize_escapes_spec [Eq Hq]%normalize_escapes_spec.
  rewrite !normalizePercentEncoding_spec, Ep, Eq. split; [|by intros ->]. intros E.
  apply (f_equal String.list_ascii_of_string) in E. rewrite !String.list_ascii_of_string_of_list_ascii in E.
  apply spell_inj; [by apply canonical_plausible..|done].
Qed.
