(* ===== verification/IssuerClient.v ===== *)
(** * The services behind the API gateway

    The calls [internal/apigw] makes to the issuer and the registry over gRPC
    ([issuerClient], [registryClient]), as the messages the source builds, to its
    databases of documents and identities, and the documents its session cache
    holds ([model.CompleteDocument]). *)

From S2P Require Import Prelude GoValue.

(** The key of a holder ([apiv1_issuer.Jwk]). *)
Record Jwk := mkJwk { jk_Kid : string; jk_Crv : string; jk_Kty : string; jk_X : string; jk_Y : string; jk_N : string; jk_E : string }.
#[global] Instance Jwk_eq_dec : EqDecision Jwk.
Proof. solve_decision. Defined.

Inductive issuer_call :=
| MakeSDJWT (Scope DocumentData : string) (jwk : Jwk) (Integrity Vctm : string)
| MakeMDoc (Scope DocumentData DevicePublicKey Mddl : string)
| MakeVC20 (Scope DocumentData : string) (CredentialTypes : list string) (SubjectDid Cryptosuite : string) (AdditionalContexts : list string)
| MakeJWP (Scope DocumentData Commitment : string) (HolderPointers : list string) (Vct : string) (KeyBinding : bool) (Suite : Z).

(** The replies: a list of credentials, or the bytes of one. *)
Record issuer_reply := mkReply { ir_Credentials : list string; ir_Credential : string; ir_Section : Z; ir_Index : Z }.

Record CompleteDocument := mkDocument {
  DocumentData : option gomap;
  PresentedClaims : list string;
  OpeningClaims : gomap
}.
(** By their identifiers, in the order an iteration meets them. *)
Abbreviation documents := (list (string * option CompleteDocument)).

(** Nobody has these attributes, or the database failed. *)
Inductive identity_error := NoIdentityFound | IdentityFault.

(** What the services answer at a moment: an error, or a reply that may be nil. *)
Record peers := mkPeers {
  issuer_answers : Z → issuer_call → option (option issuer_reply);
  registry_saves : Z → string → Z → Z → bool;      (* [SaveCredentialSubject] *)
  identity_of : Z → string → gmap string string → result identity_error string;   (* [ResolveMapping] *)
  documents_of : Z → string → string → option documents  (* [GetByIdentity] *)
}.
