(* ===== verification/Handlers.v ===== *)
(** * Request handlers as programs

    A handler of the API gateway runs concurrently with every other request: its
    calls to the stores are atomic, what happens between two of them is not.  A
    handler is therefore a tree: each node is one call ([op]), each branch one
    answer.  [run_op] gives the calls their meaning in the in-memory stores,
    [exec] runs one handler alone, [pool_step] any number of them interleaved
    with each other and with everything else that touches the stores. *)

From stdpp Require Import relations.
From S2P Require Import Prelude GoValue AuthContext AuthStore AuthStoreSteps GenericCache IssuerClient.

(** ** Calls *)

Inductive op :=
| ONow                                            (* [time.Now()] *)
| OGet (query : AuthorizationContext)             (* [AuthContext.Get] *)
| OLoad (l : loc)                                 (* a document read through its pointer *)
| OAssign (l : loc) (f : AuthorizationContext → AuthorizationContext)  (* [p.Field = v] *)
| OForfeit (query : AuthorizationContext)
| ORedeem (code thumbprint : string)
| OConsume (code : string)
| OSave (d : AuthorizationContext)                (* a new document; the pointer the caller keeps is the one stored *)
| OUpdate (l : loc)
| OExtend (query : AuthorizationContext) (expiresAt : Z)
| OGetByRefreshToken (token : string)
| OGetWithAccessToken (token : string)
| ORotate (oldToken : string) (updated : AuthorizationContext)
| OClaimSession (authSession : string)            (* [ClaimAuthSession] *)
| OClaimState (issuerState : string) (opened : AuthorizationContext)  (* [ClaimIssuerState] *)
| OJTI (key : string) (ttl : Z)                   (* [DPopJTI.SetNXWithTTL], with 0 for [SetNX] *)
| ONonceSet (nonce : string)                      (* [VCINonce.Set] *)
| ONonceGet (nonce : string)
| ONonceTake (nonce : string)                     (* [VCINonce.GetAndDelete] *)
| ODocument (sessionID : string)                  (* [Document.Get] *)
| OIssue (call : issuer_call)                     (* a call of the issuer *)
| OSaveSubject (identifier : string) (section index : Z)  (* a call of the registry *)
| ODocumentSet (sessionID : string) (docs : documents)   (* [Document.Set] *)
| OSetIdentifier (query : AuthorizationContext) (v : string)
| OKey (kid : string)                             (* [EphemeralEncryptionKey.Get] *)
| OKeyNX (kid key : string)                       (* [EphemeralEncryptionKey.SetNX] *)
| OResolve (authenticSource : string) (attrs : gmap string string)
| ODatastore (scope identityMappingID : string).

Definition answer (o : op) : Type :=
  match o with
  | ONow => Z
  | OLoad _ => AuthorizationContext
  | OAssign _ _ | ONonceSet _ | ODocumentSet _ _ => unit
  | OGet _ | OForfeit _ | ORedeem _ _ | OConsume _ | OGetByRefreshToken _ | OGetWithAccessToken _
  | OClaimSession _ | OClaimState _ _ | OSave _ => result cache_error loc
  | OUpdate _ | OExtend _ _ | ORotate _ _ | OSetIdentifier _ _ => result cache_error unit
  | OJTI _ _ | ONonceGet _ | ONonceTake _ | OSaveSubject _ _ _ | OKeyNX _ _ => bool
  | ODocument _ | ODatastore _ _ => option documents
  | OKey _ => option string
  | OResolve _ _ => result identity_error string
  | OIssue _ => option (option issuer_reply)
  end.

Inductive prog (A : Type) : Type :=
| Ret (a : A)
| Do (o : op) (k : answer o → prog A).
Arguments Ret {A} a.
Arguments Do {A} o k.

Fixpoint pbind {A B} (f : A → prog B) (p : prog A) : prog B :=
  match p with
  | Ret a => f a
  | Do o k => Do o (fun r => pbind f (k r))
  end.

(** ** Handlers: programs that may fail *)

Section handler.
Context {E : Type}.

Definition handler (A : Type) : Type := prog (result E A).
#[global] Instance handler_ret : MRet handler := fun A a => Ret (Ok a).
#[global] Instance handler_bind : MBind handler :=
  fun A B f m => pbind (fun r => match r with Ok a => f a | Err e => Ret (Err e) end) m.
Definition fail {A} (e : E) : handler A := Ret (Err e).
Definition perform (o : op) : handler (answer o) := Do o (fun r => Ret (Ok r)).
Definition lift {A} (r : result E A) : handler A := Ret r.
End handler.
Arguments handler E A : clear implicits.

(** ** The stores *)

(** The lifetimes [New] of [internal/apigw/cache/service.go] gives the stores. *)
Definition AuthContextTTL : Z := 15 * minute.
Definition DPopJTI_TTL : Z := 5 * minute.
Definition VCINonce_TTL : Z := 60 * minute.
Definition Document_TTL : Z := 5 * minute.

Record world := mkWorld {
  w_auth : store;
  w_jti : gmap string (entry bool);
  w_nonce : gmap string (entry bool);
  w_docs : gmap string (entry documents);
  w_keys : gmap string (entry string);   (* the private keys, as text *)
  w_peers : peers      (* the other services, never changed from here *)
}.

Definition with_auth (s : store) (w : world) : world := mkWorld s (w_jti w) (w_nonce w) (w_docs w) (w_keys w) (w_peers w).
Definition with_jti (m : gmap string (entry bool)) (w : world) : world := mkWorld (w_auth w) m (w_nonce w) (w_docs w) (w_keys w) (w_peers w).
Definition with_nonce (m : gmap string (entry bool)) (w : world) : world := mkWorld (w_auth w) (w_jti w) m (w_docs w) (w_keys w) (w_peers w).
Definition with_docs (m : gmap string (entry documents)) (w : world) : world := mkWorld (w_auth w) (w_jti w) (w_nonce w) m (w_keys w) (w_peers w).
Definition with_keys (m : gmap string (entry string)) (w : world) : world := mkWorld (w_auth w) (w_jti w) (w_nonce w) (w_docs w) m (w_peers w).

Section semantics.
(** The validation of nested values. *)
Variable nested_valid : goval → bool.

Definition on_auth {A} (m : M A) (w : world) : world * result cache_error A :=
  let '(s, r) := m (w_auth w) in (with_auth s w, r).

Definition run_op (now : Z) (o : op) (w : world) : world * answer o :=
  match o return world * answer o with
  | ONow => (w, now)
  | OGet q => on_auth (Get AuthContextTTL now (Some q)) w
  | OLoad l => (w, deref (w_auth w) l)
  | OAssign l f => (with_auth (write_doc l (f (deref (w_auth w) l)) (w_auth w)) w, tt)
  | OForfeit q => on_auth (ForfeitAuthorizationCode AuthContextTTL now (Some q)) w
  | ORedeem code t => on_auth (RedeemPreAuthorizedCode AuthContextTTL now code t) w
  | OConsume code => on_auth (ConsumeTXCodeAttempt AuthContextTTL now code) w
  | OSave d => on_auth (l ← alloc d; _ ← Save AuthContextTTL nested_valid now (Some l); mret l) w
  | OUpdate l => on_auth (Update AuthContextTTL nested_valid now (Some l)) w
  | OExtend q e => on_auth (ExtendExpiry AuthContextTTL now (Some q) e) w
  | OGetByRefreshToken t => on_auth (GetByRefreshToken AuthContextTTL now t) w
  | OGetWithAccessToken t => on_auth (GetWithAccessToken AuthContextTTL now t) w
  | ORotate old d => on_auth (l ← alloc d; RotateRefreshToken AuthContextTTL now old (Some l)) w
  | OClaimSession h => on_auth (ClaimAuthSession AuthContextTTL now h) w
  | OClaimState h d => on_auth (l ← alloc d; ClaimIssuerState AuthContextTTL nested_valid now h (Some l)) w
  | OJTI key ttl =>
      let '(m, unique) := MemoryCache.SetNXWithTTL DPopJTI_TTL now key true ttl (w_jti w) in
      (with_jti m w, unique)
  | ONonceSet n => (with_nonce (MemoryCache.Set_ VCINonce_TTL now n true (w_nonce w)) w, tt)
  | ONonceGet n =>
      let '(m, r) := MemoryCache.Get now n (w_nonce w) in
      (with_nonce m w, match r with Some _ => true | None => false end)
  | ONonceTake n =>
      let '(m, r) := MemoryCache.GetAndDelete now n (w_nonce w) in
      (with_nonce m w, match r with Some _ => true | None => false end)
  | ODocument sid => let '(m, r) := MemoryCache.Get now sid (w_docs w) in (with_docs m w, r)
  | OIssue c => (w, issuer_answers (w_peers w) now c)
  | OSaveSubject id section index => (w, registry_saves (w_peers w) now id section index)
  | ODocumentSet sid docs => (with_docs (MemoryCache.Set_ Document_TTL now sid docs (w_docs w)) w, tt)
  | OSetIdentifier q v => on_auth (SetIdentifier AuthContextTTL now (Some q) v) w
  | OKey kid => let '(m, r) := MemoryCache.Get now kid (w_keys w) in (with_keys m w, r)
  | OKeyNX kid key =>
      let '(m, stored) := MemoryCache.SetNX AuthContextTTL now kid key (w_keys w) in (with_keys m w, stored)
  | OResolve source attrs => (w, identity_of (w_peers w) now source attrs)
  | ODatastore scope id => (w, documents_of (w_peers w) now scope id)
  end.

(** One handler alone; call number [n] happens at [clock n]. *)
Fixpoint exec {A} (clock : nat → Z) (n : nat) (p : prog A) (w : world) : world * A :=
  match p with
  | Ret a => (w, a)
  | Do o k => let '(w, r) := run_op (clock n) o w in exec clock (S n) (k r) w
  end.

(** ** Interleavings *)

Definition event : Type := { o : op & answer o }.
Definition call (o : op) (r : answer o) : event := existT o r.

(** A request: what it has still to do, and the calls it has made. *)
Record thread (A : Type) := mkThread { t_prog : prog A; t_log : list event }.
Arguments mkThread {A} _ _.
Arguments t_prog {A} _.
Arguments t_log {A} _.

(** What the rest of the system may do in between. *)
Inductive env_action :=
| EStore (a : action)
| EAlloc (d : AuthorizationContext)
| EJTI (a : MemoryCache.action bool)
| ENonce (a : MemoryCache.action bool)
| EDocs (a : MemoryCache.action documents)
| EKeys (a : MemoryCache.action string).

Definition exec_env (now : Z) (a : env_action) (w : world) : world :=
  match a with
  | EStore a => with_auth (fst (AuthStoreSteps.exec AuthContextTTL nested_valid now a (w_auth w))) w
  | EAlloc d => with_auth (fst (alloc d (w_auth w))) w
  | EJTI a => with_jti (MemoryCache.exec DPopJTI_TTL now a (w_jti w)) w
  | ENonce a => with_nonce (MemoryCache.exec VCINonce_TTL now a (w_nonce w)) w
  | EDocs a => with_docs (MemoryCache.exec Document_TTL now a (w_docs w)) w
  | EKeys a => with_keys (MemoryCache.exec AuthContextTTL now a (w_keys w)) w
  end.

Definition env_valid (w : world) (a : env_action) : Prop :=
  match a with EStore a => valid_pointers (w_auth w) a | _ => True end.

Section pool.
Context {A : Type}.
(** What the rest of the system is known to respect. *)
Variable P : world → env_action → Prop.

Inductive pool_step : world * list (thread A) → world * list (thread A) → Prop :=
| pool_thread now i w ts o k log w' r :
    ts !! i = Some (mkThread (Do o k) log) → run_op now o w = (w', r) →
    pool_step (w, ts) (w', <[i := mkThread (k r) (log ++ [call o r])%list]> ts)
| pool_env now a w ts : env_valid w a → P w a → pool_step (w, ts) (exec_env now a w, ts).

Definition pool_run := rtc pool_step.
End pool.

(** The same as a function of a schedule, for concrete runs. *)
Definition pool_do {A} (i : nat) (now : Z) (wt : world * list (thread A)) : world * list (thread A) :=
  let '(w, ts) := wt in
  match ts !! i with
  | Some (mkThread (Do o k) log) =>
      let '(w', r) := run_op now o w in (w', <[i := mkThread (k r) (log ++ [call o r])%list]> ts)
  | _ => (w, ts)
  end.

Lemma pool_do_step {A} P i now (wt : world * list (thread A)) : pool_run P wt (pool_do i now wt).
Proof.
  destruct wt as [w ts]. unfold pool_do. destruct (ts !! i) as [[[a|o k] log]|] eqn:E; [apply rtc_refl| |apply rtc_refl].
  destruct (run_op now o w) as [w' r] eqn:Er. apply rtc_once. by eapply pool_thread.
Qed.

Fixpoint pool_schedule {A} (sched : list (nat * Z)) (wt : world * list (thread A)) : world * list (thread A) :=
  match sched with
  | [] => wt
  | (i, now) :: sched => pool_schedule sched (pool_do i now wt)
  end.

Lemma pool_schedule_run {A} P sched (wt : world * list (thread A)) : pool_run P wt (pool_schedule sched wt).
Proof.
  revert wt. induction sched as [|[i now] sched IH]; intros wt; cbn; [apply rtc_refl|].
  etrans; [apply pool_do_step|apply IH].
Qed.
End semantics.

Arguments mkThread {A} _ _.
Arguments t_prog {A} _.
Arguments t_log {A} _.
