(* ===== verification/HandlersSafety.v ===== *)
(** * What interleaved handlers keep

    The steps of a handler are steps of the store, so an invariant of the store
    survives any interleaving of handlers that bring in nothing against it.
    [tame] checks that of one handler, call by call: it follows which pointers
    are known to carry a document with a property [K] that the store never
    takes away, and which were found in the store.  [must_call] says that a handler
    cannot succeed without a certain call having succeeded; [watch] what it has done
    before a call. *)

From stdpp Require Import relations.
From S2P Require Import Prelude GoValue AuthContext AuthStore AuthStoreSteps GenericCache Handlers.

(** [if s != "" && !ok { return err }] *)
Lemma checked_unless_empty s (P : Prop) `{Decision P} : negb (str_empty s) && negb (bool_decide P) = false → s ≠ "" → P.
Proof. rewrite andb_false_iff, !negb_false_iff, str_empty_true, bool_decide_eq_true. tauto. Qed.

(** ** One call *)

Section calls.
Variable D : string → AuthorizationContext → Prop.
Variable K : AuthorizationContext → Prop.
Variable key : string.
Variable S : string → Prop.
Hypothesis D_edit : ∀ sid d d', edit d d' → D sid d → D sid d'.
Hypothesis K_edit : ∀ d d', edit d d' → K d → K d'.
Hypothesis D_index : ∀ sid d, D sid d → key ∈ index_keys d → S (SessionID d).
Variable nested_valid : goval → bool.

Definition op_allowed (s : store) (o : op) : Prop :=
  match o with
  | OAssign l f => (∀ sid, D sid (deref s l) → D sid (f (deref s l))) ∧ (K (deref s l) → K (f (deref s l)))
  | OUpdate l => (l < next s)%nat ∧ D (SessionID (deref s l)) (deref s l)
  | OSave d | ORotate _ d => D (SessionID d) d
  | OClaimState _ d => D (SessionID d) (set_IssuerState "" d)
  | _ => True
  end.

Lemma on_auth_fst {A} (m : M A) w : w_auth (fst (on_auth m w)) = fst (m (w_auth w)).
Proof. unfold on_auth. by destruct (m (w_auth w)). Qed.

Lemma then_fst {A B} (m : M A) (b : B) s : fst ((_ ← m; mret b) s) = fst (m s).
Proof. unfold mbind, M_bind. by destruct (m s) as [? []]. Qed.
Lemma ignore_fst {A} (m : M A) s : fst (ignore m s) = fst (m s).
Proof. apply then_fst. Qed.

Abbreviation step_keeps now a s := (keeps D K key S s (fst (AuthStoreSteps.exec AuthContextTTL nested_valid now a s))).

Lemma exec_keeps' now a s : valid_pointers s a → allowed D K s a → holds D key S s → step_keeps now a s.
Proof using D_edit K_edit D_index. apply (exec_keeps D K key S D_edit K_edit D_index AuthContextTTL nested_valid now a s). Qed.

Lemma alloc_then {A} now (m : loc → M A) a d s :
  holds D key S s →
  (∀ l s', fst (AuthStoreSteps.exec AuthContextTTL nested_valid now (a l) s') = fst (m l s')) →
  (∀ l s', valid_pointers s' (a l) ↔ (l < next s')%nat) →
  (∀ l s', deref s' l = d → allowed D K s' (a l)) →
  keeps D K key S s (fst ((alloc d ≫= m) s)).
Proof using D_edit K_edit D_index.
  intros Hs Hm Hv Ha. set (s1 := fst (alloc d s)).
  assert (keeps D K key S s s1) as K1 by (by apply holds_alloc).
  change (fst ((alloc d ≫= m) s)) with (fst (m (next s) s1)). rewrite <- Hm.
  eapply keeps_trans; [exact K1|]. apply exec_keeps'; [|apply Ha|apply K1].
  - apply Hv. cbn. lia.
  - unfold deref. cbn. by rewrite lookup_insert_eq.
Qed.

(** The step of the store a call is. *)
Definition store_after (now : Z) (o : op) (s : store) : store :=
  match o with
  | OGet q => fst (Get AuthContextTTL now (Some q) s)
  | OAssign l f => write_doc l (f (deref s l)) s
  | OForfeit q => fst (ForfeitAuthorizationCode AuthContextTTL now (Some q) s)
  | ORedeem code t => fst (RedeemPreAuthorizedCode AuthContextTTL now code t s)
  | OConsume code => fst (ConsumeTXCodeAttempt AuthContextTTL now code s)
  | OSave d => fst ((l ← alloc d; _ ← Save AuthContextTTL nested_valid now (Some l); mret l) s)
  | OUpdate l => fst (Update AuthContextTTL nested_valid now (Some l) s)
  | OExtend q e => fst (ExtendExpiry AuthContextTTL now (Some q) e s)
  | OGetByRefreshToken t => fst (GetByRefreshToken AuthContextTTL now t s)
  | OGetWithAccessToken t => fst (GetWithAccessToken AuthContextTTL now t s)
  | ORotate old d => fst ((l ← alloc d; RotateRefreshToken AuthContextTTL now old (Some l)) s)
  | OClaimSession h => fst (ClaimAuthSession AuthContextTTL now h s)
  | OClaimState h d => fst ((l ← alloc d; ClaimIssuerState AuthContextTTL nested_valid now h (Some l)) s)
  | OSetIdentifier q v => fst (SetIdentifier AuthContextTTL now (Some q) v s)
  | _ => s
  end.

Lemma run_op_store now o w : w_auth (fst (run_op nested_valid now o w)) = store_after now o (w_auth w).
Proof.
  destruct o; cbn [run_op store_after]; try done; try apply on_auth_fst.
  all: by repeat case_match.
Qed.

Lemma run_op_keeps now o w :
  holds D key S (w_auth w) → op_allowed (w_auth w) o →
  keeps D K key S (w_auth w) (w_auth (fst (run_op nested_valid now o w))).
Proof using D_edit K_edit D_index.
  rewrite run_op_store. generalize (w_auth w). clear w. intros s Hs Ho.
  pose proof (keeps_refl D K key S _ Hs) as Hr.
  destruct o; cbn [store_after op_allowed] in *; try exact Hr.
  - rewrite <- ignore_fst. by apply (exec_keeps' now (AGet query)).
  - destruct Ho. by apply holds_write.
  - rewrite <- ignore_fst. by apply (exec_keeps' now (AForfeit query)).
  - rewrite <- ignore_fst. by apply (exec_keeps' now (ARedeem code thumbprint)).
  - rewrite <- ignore_fst. by apply (exec_keeps' now (AConsume code)).
  - apply (alloc_then now _ ASave); [done|intros l s'; symmetry; apply (then_fst (Save _ _ _ _))|done|]. by intros l s' <-.
  - destruct Ho. by apply (exec_keeps' now (AUpdate l)).
  - by apply (exec_keeps' now (AExtend query expiresAt)).
  - rewrite <- ignore_fst. by apply (exec_keeps' now (AGetBy "refresh_token" token)).
  - rewrite <- ignore_fst. by apply (exec_keeps' now (AGetBy "access_token" token)).
  - apply (alloc_then now _ (ARotate oldToken)); [done..|]. by intros l s' <-.
  - rewrite <- ignore_fst. by apply (exec_keeps' now (AClaimAuth authSession)).
  - apply (alloc_then now _ (AClaimIssuer issuerState)); [done|intros l s'; apply ignore_fst|done|]. by intros l s' <-.
  - by apply (exec_keeps' now (ASetIdentifier query v)).
Qed.
End calls.

(** ** Following one handler *)

(** What is known of the documents behind pointers: there may be several kinds
    of knowledge, none is ever lost. *)
Abbreviation knowledge kind := (list (loc * kind)).

Section tame.
Context {kind : Type}.
Abbreviation knowledge := (list (loc * kind)).
Variable Kf : kind → AuthorizationContext → Prop.
(** The pointers a call makes known, and what may be called knowing what. *)
Variable learn : knowledge → ∀ o, answer o → knowledge.
Variable safe_op : knowledge → op → Prop.

Definition truth (s : store) (lb : loc * kind) : Prop := known (Kf (snd lb)) s (fst lb).
Definition truths (Γ : knowledge) (s : store) : Prop := Forall (truth s) Γ.

Lemma truth_in Γ s l b : truths Γ s → (l, b) ∈ Γ → known (Kf b) s l.
Proof. unfold truths. rewrite Forall_forall. intros Ht Hl. exact (Ht _ Hl). Qed.

(** A document read through a known pointer has the property. *)
Definition fact (Γ : knowledge) (o : op) : answer o → Prop :=
  match o return answer o → Prop with
  | OLoad l => fun d => ∀ b, (l, b) ∈ Γ → Kf b d
  | _ => fun _ => True
  end.

Fixpoint tame {A} (Γ : knowledge) (p : prog A) (Q : knowledge → A → Prop) : Prop :=
  match p with
  | Ret a => Q Γ a
  | Do o k => safe_op Γ o ∧ ∀ r, fact Γ o r → tame (learn Γ o r ++ Γ)%list (k r) Q
  end.

Lemma truths_keep D key S s s' :
  (∀ b, keeps D (Kf b) key S s s') → ∀ Γ, truths Γ s → truths Γ s'.
Proof.
  intros Hk Γ HΓ. eapply Forall_impl; [exact HΓ|]. intros [l b] Hl. destruct (Hk b) as (_ & _ & Hkk & _). by apply Hkk.
Qed.

Lemma tame_mono {A} Γ (p : prog A) (Q Q' : knowledge → A → Prop) :
  tame Γ p Q → (∀ Γ' a, Q Γ' a → Q' Γ' a) → tame Γ p Q'.
Proof. revert Γ. induction p as [a|o k IH]; intros Γ; cbn; [auto|]. intros [Ho Hk] HQ. eauto. Qed.

Lemma tame_pbind {A B} Γ (p : prog A) (f : A → prog B) Q :
  tame Γ p (fun Γ' a => tame Γ' (f a) Q) → tame Γ (pbind f p) Q.
Proof. revert Γ. induction p as [a|o k IH]; intros Γ; cbn; [done|]. intros [Ho Hk]. eauto. Qed.

(** Failing is always fine. *)
Definition on_ok {E A} (Q : knowledge → A → Prop) (Γ : knowledge) (r : result E A) : Prop :=
  match r with Ok a => Q Γ a | Err _ => True end.

Lemma tame_bind {E A B} Γ (m : handler E A) (f : A → handler E B) Q :
  tame Γ m (on_ok (fun Γ' a => tame Γ' (f a) (on_ok Q))) → tame Γ (m ≫= f) (on_ok Q).
Proof. intros Hm. apply tame_pbind. eapply tame_mono; [exact Hm|]. by intros Γ' [a|e]. Qed.

Lemma tame_fact now nested_valid o w Γ :
  truths Γ (w_auth w) → fact Γ o (snd (run_op nested_valid now o w)).
Proof.
  intros Ht. destruct o; cbn; try done. intros b Hb. unfold truths in Ht. rewrite Forall_forall in Ht.
  by destruct (Ht _ Hb).
Qed.
End tame.

(** ** Handlers that bring no document into the store *)

Definition brings (o : op) : bool :=
  match o with OAssign _ _ | OUpdate _ | OSave _ | ORotate _ _ | OClaimState _ _ => true | _ => false end.

Fixpoint quiet {A} (p : prog A) : Prop :=
  match p with
  | Ret _ => True
  | Do o k => brings o = false ∧ ∀ r, quiet (k r)
  end.

Lemma quiet_bind {E A B} (m : handler E A) (f : A → handler E B) : quiet m → (∀ a, quiet (f a)) → quiet (m ≫= f).
Proof.
  unfold mbind, handler_bind. intros Hm Hf. induction m as [[a|e]|o k IH]; cbn in *; [done..|].
  destruct Hm as [Ho Hk]. split; [done|]. auto.
Qed.

Lemma quiet_perform {E} o : brings o = false → quiet (perform (E := E) o).
Proof. by split. Qed.

Section quiet_tame.
Context {kind : Type}.
Abbreviation knowledge := (list (loc * kind)).
Variable Kf : kind → AuthorizationContext → Prop.
Variable learn : knowledge → ∀ o, answer o → knowledge.
Variable safe_op : knowledge → op → Prop.
Hypothesis quiet_safe : ∀ Γ o, brings o = false → safe_op Γ o.

Abbreviation tamed := (tame Kf learn safe_op).

Lemma quiet_tame {A} (p : prog A) (Q : knowledge → A → Prop) Γ :
  quiet p → (∀ Γ' a, Γ ⊆ Γ' → Q Γ' a) → tamed Γ p Q.
Proof using quiet_safe.
  revert Γ. induction p as [a|o k IH]; intros Γ; cbn; [intros _ HQ; by apply HQ|].
  intros [Ho Hk] HQ. split; [by apply quiet_safe|]. intros r _. apply IH; [apply Hk|].
  intros Γ' a Hsub. apply HQ. set_solver.
Qed.

Lemma tame_quiet_bind {E A B} (m : handler E A) (f : A → handler E B) Q Γ :
  quiet m → (∀ Γ' a, Γ ⊆ Γ' → tamed Γ' (f a) (on_ok Q)) → tamed Γ (m ≫= f) (on_ok Q).
Proof using quiet_safe. intros Hm Hf. apply tame_bind. apply quiet_tame; [done|]. intros Γ' [a|e] Hs; [by apply Hf|done]. Qed.

Lemma tame_perform_bind {E B} o (f : answer o → handler E B) Q Γ :
  safe_op Γ o → (∀ r, fact Kf Γ o r → tamed (learn Γ o r ++ Γ)%list (f r) (on_ok Q)) →
  tamed Γ (perform o ≫= f) (on_ok Q).
Proof using. intros Ho Hf. split; [done|]. exact Hf. Qed.
End quiet_tame.

(** What was known is known. *)
Ltac recall :=
  repeat first
    [ assumption
    | solve [repeat constructor]
    | match goal with Hs : _ ⊆ ?G |- _ ∈ ?G => apply Hs end
    | apply elem_of_app; right ].

(** ** A call that must have succeeded *)

Section must.
Context {kind : Type}.
Abbreviation knowledge := (list (loc * kind)).
Variable Kf : kind → AuthorizationContext → Prop.
Variable learn : knowledge → ∀ o, answer o → knowledge.
Variable spends : ∀ o, answer o → bool.

Fixpoint must_call {E A} (Γ : knowledge) (p : handler E A) : Prop :=
  match p with
  | Ret (Ok _) => False
  | Ret (Err _) => True
  | Do o k => ∀ r, fact Kf Γ o r → spends o r = true ∨ must_call (learn Γ o r ++ Γ)%list (k r)
  end.

Lemma must_bind_l {E A B} Γ (m : handler E A) (f : A → handler E B) : must_call Γ m → must_call Γ (m ≫= f).
Proof.
  unfold mbind, handler_bind. revert Γ. induction m as [[a|e]|o k IH]; intros Γ; cbn; [done..|].
  intros Hm r Hr. destruct (Hm r Hr); auto.
Qed.

Lemma must_bind_r {E A B} Γ (m : handler E A) (f : A → handler E B) :
  (∀ Γ' a, Γ ⊆ Γ' → must_call Γ' (f a)) → must_call Γ (m ≫= f).
Proof.
  unfold mbind, handler_bind. revert Γ. induction m as [[a|e]|o k IH]; intros Γ Hf; cbn; [by apply Hf|done|].
  intros r _. right. apply IH. intros Γ' a Hs. apply Hf. set_solver.
Qed.

Lemma must_perform {E B} Γ o (f : answer o → handler E B) :
  (∀ r, fact Kf Γ o r → must_call (learn Γ o r ++ Γ)%list (f r)) → must_call Γ (perform o ≫= f).
Proof. intros Hf r Hr. right. by apply Hf. Qed.
End must.

(** ** Once in every interleaving *)

Section once.
Context {E A kind : Type}.
Abbreviation knowledge := (list (loc * kind)).
Variable nested_valid : goval → bool.
Variable Kf : kind → AuthorizationContext → Prop.
Variable learn : knowledge → ∀ o, answer o → knowledge.
Variable safe_op : knowledge → op → Prop.
Variable spends : ∀ o, answer o → bool.
(** The invariant of the stores, before and after the call has succeeded. *)
Variable Inv : bool → world → Prop.
Variable P : world → env_action → Prop.

Hypothesis op_step : ∀ b now o w Γ w' r,
  Inv b w → truths Kf Γ (w_auth w) → safe_op Γ o → run_op nested_valid now o w = (w', r) →
  Inv (b || spends o r) w' ∧ (spends o r = true → b = false) ∧
  (∀ Γ', truths Kf Γ' (w_auth w) → truths Kf Γ' (w_auth w')) ∧ truths Kf (learn Γ o r) (w_auth w').
Hypothesis env_step : ∀ b now e w,
  Inv b w → env_valid w e → P w e →
  Inv b (exec_env nested_valid now e w) ∧
  ∀ Γ, truths Kf Γ (w_auth w) → truths Kf Γ (w_auth (exec_env nested_valid now e w)).

Abbreviation request := (handler E A).
Definition anything (_ : knowledge) (_ : A) : Prop := True.

Section pool.
(** The handlers that must make the call. *)
Variable must : nat → Prop.

(** The state of a pool: who has made the call, if anybody. *)
Definition pool_inv (who : option nat) (wt : world * list (thread (result E A))) : Prop :=
  Inv (bool_decide (is_Some who)) (fst wt) ∧
  ∀ i th, snd wt !! i = Some th →
    ∃ Γ, truths Kf Γ (w_auth (fst wt)) ∧ tame Kf learn safe_op Γ (t_prog th) (on_ok anything) ∧
      (must i → who = Some i ∨ must_call Kf learn spends Γ (t_prog th)).

Lemma pool_step_inv who wt wt' :
  pool_inv who wt → pool_step nested_valid P wt wt' → ∃ who', pool_inv who' wt'.
Proof using op_step env_step.
  intros [Hi Ht] Hs. destruct Hs as [now i w ts o k log w' r Hth Hr|now e w ts Hv Hp]; cbn [fst snd] in *.
  - destruct (Ht _ _ Hth) as (Γ & HΓ & [Hsafe Hk] & Hm). cbn [t_prog] in *.
    pose proof (tame_fact Kf now nested_valid o w Γ HΓ) as Hf. rewrite Hr in Hf. cbn in Hf.
    destruct (op_step _ _ _ _ _ _ _ Hi HΓ Hsafe Hr) as (Hi' & Hb & Hkeep & Hlearn).
    exists (if spends o r then Some i else who). split.
    { cbn. replace (bool_decide (is_Some (if spends o r then Some i else who)))
        with (bool_decide (is_Some who) || spends o r); [done|].
      destruct (spends o r); [rewrite orb_true_r; symmetry; by apply bool_decide_eq_true_2|by rewrite orb_false_r]. }
    intros j th. cbn [fst snd]. rewrite list_lookup_insert_Some. intros [(<- & <- & _)|[Hne Hj]]; cbn [t_prog].
    + exists (learn Γ o r ++ Γ)%list. split_and!; [apply Forall_app; split; [done|by apply Hkeep]|by apply Hk|].
      intros Hi0. destruct (Hm Hi0) as [->|Hmc].
      * left. destruct (spends o r); done.
      * destruct (Hmc r Hf) as [->|?]; [by left|by right].
    + destruct (Ht _ _ Hj) as (Γ' & HΓ' & Htame & Hm'). exists Γ'. split_and!; [auto|done|].
      intros Hj0. destruct (Hm' Hj0) as [->|?]; [|by right]. left. destruct (spends o r) eqn:Es; [|done].
      specialize (Hb eq_refl). by apply bool_decide_eq_false in Hb as [].
  - destruct (env_step _ now _ _ Hi Hv Hp) as [Hi' Hkeep]. exists who. split; [done|].
    intros j th Hj. destruct (Ht _ _ Hj) as (Γ' & HΓ' & Htame & Hm). exists Γ'. auto.
Qed.

Lemma pool_run_inv who wt wt' :
  pool_inv who wt → pool_run nested_valid P wt wt' → ∃ who', pool_inv who' wt'.
Proof using op_step env_step.
  intros Hi Hr. revert who Hi. induction Hr as [wt|wt1 wt2 wt3 Hs _ IH]; intros who Hi; [eauto|].
  destruct (pool_step_inv _ _ _ Hi Hs) as (who' & Hi'). eauto.
Qed.
End pool.

(** Of any number of handlers that cannot succeed without the call, one does. *)
Lemma once w (ps : list request) w' ts i j pi pj a b li lj :
  Inv false w → Forall (fun p => tame Kf learn safe_op [] p (on_ok anything)) ps →
  pool_run nested_valid P (w, (fun p => mkThread p []) <$> ps) (w', ts) →
  ps !! i = Some pi → ps !! j = Some pj →
  must_call Kf learn spends [] pi → must_call Kf learn spends [] pj →
  ts !! i = Some (mkThread (Ret (Ok a)) li) → ts !! j = Some (mkThread (Ret (Ok b)) lj) → i = j.
Proof using op_step env_step.
  intros Hi Ht Hr Hpi Hpj Hmi Hmj Hti Htj.
  assert (pool_inv (fun n => n = i ∨ n = j) None (w, (fun p => mkThread p []) <$> ps)) as Hp.
  { split; [done|]. intros n th. cbn [snd]. rewrite list_lookup_fmap. intros (p & En & ->)%fmap_Some. cbn [t_prog].
    exists []. split_and!; [constructor| |].
    - rewrite Forall_forall in Ht. apply Ht. by eapply list_elem_of_lookup_2.
    - intros Hn. right.
      destruct Hn as [-> | ->]; [pose proof (eq_trans (eq_sym En) Hpi) as [= ->]|pose proof (eq_trans (eq_sym En) Hpj) as [= ->]]; done. }
  destruct (pool_run_inv _ _ _ _ Hp Hr) as (who & _ & Hw). cbn [snd] in Hw.
  destruct (Hw _ _ Hti) as (? & _ & _ & H1). destruct (Hw _ _ Htj) as (? & _ & _ & H2). cbn [t_prog] in *.
  destruct H1 as [H1|H1]; [by left| |done]. destruct H2 as [H2|H2]; [by right| |done]. congruence.
Qed.
End once.

(** A handler that cannot succeed by what it knows is never answered. *)
Section never.
Context {E A kind : Type}.
Abbreviation knowledge := (list (loc * kind)).
Variable nested_valid : goval → bool.
Variable Kf : kind → AuthorizationContext → Prop.
Variable learn : knowledge → ∀ o, answer o → knowledge.
Variable safe_op : knowledge → op → Prop.
Variable Inv : world → Prop.
Variable P : world → env_action → Prop.

Hypothesis op_step : ∀ now o w Γ w' r,
  Inv w → truths Kf Γ (w_auth w) → safe_op Γ o → run_op nested_valid now o w = (w', r) →
  Inv w' ∧ (∀ Γ', truths Kf Γ' (w_auth w) → truths Kf Γ' (w_auth w')) ∧ truths Kf (learn Γ o r) (w_auth w').
Hypothesis env_step : ∀ now e w,
  Inv w → env_valid w e → P w e →
  Inv (exec_env nested_valid now e w) ∧
  ∀ Γ, truths Kf Γ (w_auth w) → truths Kf Γ (w_auth (exec_env nested_valid now e w)).

Definition refused (Γ : knowledge) (p : handler E A) : Prop := must_call Kf learn (fun _ _ => false) Γ p.

Lemma refused_must spends Γ (p : handler E A) : refused Γ p → must_call Kf learn spends Γ p.
Proof.
  unfold refused. revert Γ. induction p as [[a|e]|o k IH]; intros Γ; cbn; [done..|].
  intros Hp r Hr. right. destruct (Hp r Hr) as [|Hk]; [done|]. by apply IH.
Qed.

Lemma never w (ps : list (handler E A)) w' ts i p a li :
  Inv w → Forall (fun p => tame Kf learn safe_op [] p (on_ok anything)) ps →
  pool_run nested_valid P (w, (fun p => mkThread p []) <$> ps) (w', ts) →
  ps !! i = Some p → refused [] p → ts !! i = Some (mkThread (Ret (Ok a)) li) → False.
Proof using op_step env_step.
  intros Hi Ht Hr Hp Hm Hti.
  set (I := fun (b : bool) (w : world) => b = false ∧ Inv w).
  assert (pool_inv Kf learn safe_op (fun _ _ => false) I (fun n => n = i) None (w, (fun p => mkThread p []) <$> ps)) as H0.
  { split; [done|]. intros n th. cbn [snd]. rewrite list_lookup_fmap. intros (q & En & ->)%fmap_Some. cbn [t_prog].
    exists []. split_and!; [constructor| |].
    - rewrite Forall_forall in Ht. apply Ht. by eapply list_elem_of_lookup_2.
    - intros ->. right. by pose proof (eq_trans (eq_sym En) Hp) as [= ->]. }
  edestruct (pool_run_inv (E := E) (A := A) nested_valid Kf learn safe_op (fun _ _ => false) I P) as (who & [Hw _] & Hth);
    [| |exact H0|exact Hr|].
  - intros b now o w1 Γ w2 r [-> H1] H2 H3 H4. destruct (op_step now o w1 Γ w2 r H1 H2 H3 H4) as (? & ? & ?). done.
  - intros b now e w1 [-> H1] H2 H3. destruct (env_step now e w1 H1 H2 H3) as [? ?]. done.
  - destruct (Hth _ _ Hti) as (? & _ & _ & H1). destruct H1 as [->|[]]; [done|]. by apply bool_decide_eq_false in Hw as [].
Qed.
End never.

(** * What a handler has done before a call

    [watch Φ log p Q] follows one handler whose calls so far are [log]: every
    call it makes satisfies [Φ] of the calls before it, and what it returns
    satisfies [Q].  Nothing is assumed of the answers, so the rules hold of the
    log of every request in every interleaving ([watched_run]). *)

Section watch.
Variable Φ : list event → op → Prop.

Fixpoint watch {A} (log : list event) (p : prog A) (Q : list event → A → Prop) : Prop :=
  match p with
  | Ret a => Q log a
  | Do o k => Φ log o ∧ ∀ r, watch (log ++ [call o r])%list (k r) Q
  end.

Definition ok_then {E A} (Q : list event → A → Prop) (log : list event) (r : result E A) : Prop :=
  match r with Ok a => Q log a | Err _ => True end.

Lemma watch_mono {A} (p : prog A) (Q Q' : list event → A → Prop) : ∀ log,
  watch log p Q → (∀ log' a, log ⊆ log' → Q log' a → Q' log' a) → watch log p Q'.
Proof.
  induction p as [a|o k IH]; intros log; cbn; [intros HQ Hm; by apply Hm|]. intros [Ho Hk] Hm. split; [done|].
  intros r. apply (IH r _ (Hk r)). intros log' a Hs. apply Hm. set_solver.
Qed.

Lemma watch_bind {E A B} (m : handler E A) (f : A → handler E B) Q (R : list event → A → Prop) log :
  watch log m (ok_then R) → (∀ log' a, log ⊆ log' → R log' a → watch log' (f a) (ok_then Q)) →
  watch log (m ≫= f) (ok_then Q).
Proof.
  unfold mbind, handler_bind. revert log. induction m as [[a|e]|o k IH]; intros log; cbn; [intros HR Hf; by apply Hf|done|].
  intros [Ho Hk] Hf. split; [done|]. intros r. apply (IH r _ (Hk r)). intros log' a Hs. apply Hf. set_solver.
Qed.

Lemma watch_perform {E B} o (f : answer o → handler E B) Q log :
  Φ log o → (∀ r, watch (log ++ [call o r])%list (f r) (ok_then Q)) → watch log (perform o ≫= f) (ok_then Q).
Proof. by split. Qed.

Lemma watch_lift {E A B} (r : result E A) (f : A → handler E B) Q log :
  (∀ a, r = Ok a → watch log (f a) (ok_then Q)) → watch log (lift r ≫= f) (ok_then Q).
Proof. destruct r as [a|e]; [|done]. intros Hf. by apply Hf. Qed.

(** ** In an interleaving *)

Definition log_ok (log : list event) : Prop := ∀ n o r, log !! n = Some (call o r) → Φ (take n log) o.

Lemma log_ok_snoc log o r : log_ok log → Φ log o → log_ok (log ++ [call o r])%list.
Proof.
  intros Hl Ho n o' r' Hn. apply lookup_app_Some in Hn as [Hn|[Hlen Hn]].
  - rewrite take_app_le by (apply lookup_lt_Some in Hn; lia). by eapply Hl.
  - destruct (n - length log)%nat as [|m] eqn:En; [|done]. cbn in Hn. injection Hn as Eo _. subst o'.
    rewrite take_app_ge by lia. rewrite En. cbn. by rewrite app_nil_r.
Qed.

Section run.
Context {A : Type}.
Variable nested_valid : goval → bool.
Variable P : world → env_action → Prop.
Variable Q : list event → A → Prop.

Definition thread_ok (th : thread A) : Prop := watch (t_log th) (t_prog th) Q ∧ log_ok (t_log th).

Lemma watched_run i wt wt' :
  pool_run nested_valid P wt wt' → (∀ th, snd wt !! i = Some th → thread_ok th) →
  ∀ th, snd wt' !! i = Some th → thread_ok th.
Proof.
  induction 1 as [wt|wt1 wt2 wt3 Hs _ IH]; [done|]. intros Hi. apply IH. clear IH.
  destruct Hs as [now j w ts o k log w' r Hth Hr|]; cbn [snd] in *; [|done].
  intros th. rewrite list_lookup_insert_Some. intros [(-> & <- & _)|[_ Hj]]; [|by apply Hi].
  destruct (Hi _ Hth) as [[Ho Hk] Hl]. cbn [t_log t_prog] in *. split; [apply Hk|by apply log_ok_snoc].
Qed.
End run.
End watch.

(** ** The calls a handler is limited to *)

Section only.
Fixpoint only {A} (ok : op → bool) (p : prog A) : Prop :=
  match p with
  | Ret _ => True
  | Do o k => ok o = true ∧ ∀ r, only ok (k r)
  end.

Lemma only_bind {E A B} ok (m : handler E A) (f : A → handler E B) : only ok m → (∀ a, only ok (f a)) → only ok (m ≫= f).
Proof.
  unfold mbind, handler_bind. intros Hm Hf. induction m as [[a|e]|o k IH]; cbn in *; [done..|].
  destruct Hm as [Ho Hk]. split; [done|]. auto.
Qed.

Lemma only_mono {A} (ok ok' : op → bool) (p : prog A) : (∀ o, ok o = true → ok' o = true) → only ok p → only ok' p.
Proof. intros Hm. induction p as [a|o k IH]; cbn; [done|]. intros [Ho Hk]. auto. Qed.
End only.

(** ** What a handler can return *)

Section returns.
Fixpoint returns {E A} (p : handler E A) (Q : A → Prop) : Prop :=
  match p with
  | Ret (Ok a) => Q a
  | Ret (Err _) => True
  | Do o k => ∀ r, returns (k r) Q
  end.

Lemma returns_bind {E A B} (m : handler E A) (f : A → handler E B) (R : A → Prop) Q :
  returns m R → (∀ a, R a → returns (f a) Q) → returns (m ≫= f) Q.
Proof. unfold mbind, handler_bind. intros Hm Hf. induction m as [[a|e]|o k IH]; cbn in *; auto. Qed.

Lemma returns_mono {E A} (m : handler E A) (Q Q' : A → Prop) : returns m Q → (∀ a, Q a → Q' a) → returns m Q'.
Proof. intros Hm HQ. induction m as [[a|e]|o k IH]; cbn in *; auto. Qed.

Lemma returns_perform {E B} o (f : answer o → handler E B) Q : (∀ r, returns (f r) Q) → returns (perform o ≫= f) Q.
Proof. done. Qed.

Lemma returns_lift {E A} (r : result E A) (Q : A → Prop) : (∀ a, r = Ok a → Q a) → returns (lift r) Q.
Proof. destruct r; cbn; auto. Qed.

Lemma returns_any {E A} (m : handler E A) : returns m (fun _ => True).
Proof. induction m as [[a|e]|o k IH]; cbn; auto. Qed.
End returns.
