(* ===== verification/TokenEndpoint.v ===== *)
(** * The OAuth endpoints of the issuer

    [internal/apigw/apiv1/handlers_oauth.go]: the pushed authorization request,
    the authorization endpoint and the token endpoint with its three grants.  The
    configuration, the evaluator of wallet attestations with its policy, and the
    random source are parameters; [random n] and [uuid n] are the values of the
    calls of one request, in their order.  Every read through a pointer that the
    store handed out is a step of its own, because another request may change
    the document in between.  Descriptions of errors and log lines are left
    out. *)

From S2P Require Import Prelude GoStrings GoValue Json SdJwt OAuth2 AuthContext AuthStore GenericCache Handlers.

Inductive herror :=
| HOAuth (code : string) (status : Z)
| HStore (e : cache_error)            (* the error of the store, passed on *)
| HInternal                           (* an error without a code *)
| HExpired                            (* [oauth2.ErrExpiredRequest] *)
| HNotAllowed
| HPanic.                             (* an index out of range *)

Abbreviation H := (handler herror).

Definition refuse {A} (code : string) (status : Z) : H A := fail (HOAuth code status).
Definition refuse_with {A} (e : OAuthError) : H A := refuse (ErrorCode e) (HTTPStatus e).
(** [if b { return err }] *)
Definition unless (b : bool) (m : H unit) : H unit := if b then m else mret tt.

(** ** Data *)

Record attestation := mkAttestation { at_Subject : string; at_Source : string; at_Issuer : string }.

Record config := mkConfig {
  TokenEndpoint : string;
  PublicURL : string;
  ConfiguredClients : Clients;
  GrantTypes : list string;
  RefreshTokenDuration : Z;
  AllowUnverifiedClientAssertion : bool;
  EmitInvalidTXCodeError : bool;
  InteractiveRequired : bool;
  (* [LookupCredentialSources]: the auth providers of a scope's sources *)
  CredentialSources : string → option (list string)
}.

Record PARRequest := mkPAR {
  par_ClientID : string; par_RedirectURI : string; par_Scope : string; par_State : string;
  par_AuthorizationDetails : list goval; par_CodeChallenge : string; par_CodeChallengeMethod : string;
  par_DynamicParams : list (string * string);
  par_ClientAttestation : string; par_ClientAttestationPoP : string; par_ClientAssertion : string
}.

Record TokenRequest := mkTokenRequest {
  DPOP : string; GrantType : string; tr_Code : string; tr_RedirectURI : string; tr_ClientID : string;
  CodeVerifier : string; ClientAssertionType : string; tr_ClientAssertion : string;
  tr_ClientAttestation : string; tr_ClientAttestationPoP : string;
  PreAuthorizedCode : string; tr_TXCode : string; tr_RefreshToken : string
}.

Record TokenResponse := mkTokenResponse {
  rs_AccessToken : string; rs_ExpiresIn : Z; rs_Scope : string; rs_State : string;
  rs_CNonce : string; rs_CNonceExpiresIn : Z;
  rs_AuthorizationDetails : list goval; rs_RefreshToken : string; rs_RefreshTokenExpiresIn : Z
}.

Record AuthorizationResponse := mkAuthorizationResponse {
  ar_RedirectURL : string; ar_Scope : string; ar_SessionID : string; ar_ClientID : string; ar_WalletClientID : string
}.

Record walletClientAuth := mkWalletAuth {
  wa_ClientID : string; wa_RedirectURI : string; wa_Scope : string; wa_RedirectOptional : bool;
  wa_ClientAttestation : string; wa_ClientAttestationPoP : string; wa_ClientAssertion : string
}.

(** Fields of the rest of a document. *)
Definition set_other (f : context_rest → context_rest) (d : AuthorizationContext) : AuthorizationContext :=
  mkContext (SessionID d) (CreatedAt d) (ExpiresAt d) (WalletClientID d) (State d) (CodeChallenge d)
    (CodeChallengeMethod d) (AuthSession d) (IssuerState d) (AuthSessionDPoPThumbprint d) (Code d) (Forfeited d)
    (RedeemedBy d) (TXCodeAttempts d) (Token d) (AccessToken d) (RequestURI d) (WalletURI d) (Consent d)
    (AuthenticSource d) (Identifier d) (AuthProvider d) (DataSource d) (RemoteName d) (RefreshToken d)
    (EphemeralEncryptionKeyID d) (VerifierResponseCode d) (RequestObjectID d) (DCQLQuery d) (f (other d)).

Definition rest_with (r : context_rest) (nonce : string) (details : list goval) (refreshExpires : Z) : context_rest :=
  mkRest (Status r) (SourceSessionID r) (ClientID r) (Scopes r) nonce (IdentityMatch r) (InteractiveAuthorization r)
    (PreAuthorized r) (TXCode r) (IDToken r) details (RequestURIExpiresAt r) (Scope r) (DynamicParams r)
    (RedirectURI r) (ResponseType r) (ResponseMode r) (ShowCredentialDetails r) (WalletFollowsRedirect r)
    (CodeExpiresAt r) (AccessTokenExpiresAt r) refreshExpires (VerifiedClaims r) (PresentedScope r) (VPToken r)
    (PresentationSubmission r) (RequestObjectNonce r) (TransactionData r) (TransactionDataResponseModes r)
    (DCQLQueryExact r) (ScopeQueryIDs r) (Validations r) (WalletID r).

Definition set_Nonce (v : string) (d : AuthorizationContext) : AuthorizationContext :=
  set_other (fun r => rest_with r v (AuthorizationDetails r) (RefreshTokenExpiresAt r)) d.
Definition set_AuthorizationDetails (v : list goval) (d : AuthorizationContext) : AuthorizationContext :=
  set_other (fun r => rest_with r (Nonce r) v (RefreshTokenExpiresAt r)) d.
Definition set_RefreshTokenExpiresAt (v : Z) (d : AuthorizationContext) : AuthorizationContext :=
  set_other (fun r => rest_with r (Nonce r) (AuthorizationDetails r) v) d.

(** A query by one field. *)
Definition by_code (code : string) : AuthorizationContext := set_Code code zero_context.
Definition by_request_uri (uri clientID : string) : AuthorizationContext :=
  mkContext "" 0 0 "" "" "" "" "" "" "" "" false [] 0 None "" uri "" false "" "" "" "" "" "" "" "" "" None
    (mkRest "" "" clientID [] "" None false false "" "" [] 0 "" [] "" "" "" false false 0 0 0 None "" "" GNil "" [] [] "" [] [] "").

Definition unix (t : Z) : Z := t / second.
(** [x > 0 && time.Now().Unix() > x] *)
Definition expired (deadline now : Z) : bool := bool_decide (0 < deadline) && bool_decide (deadline < unix now).

Definition with_identifier (ad : goval) (id : string) : goval :=
  match ad with
  | GMap m => GMap (mset m "credential_identifiers" (GStrings [id]))
  | v => v
  end.

Definition requestURITTL : Z := 60 * second.
Definition authorizationCodeTTL : Z := 5 * minute.
Definition tokenTTL : Z := 3600.

Definition authorization_code := "authorization_code".
Definition pre_authorized_code := "urn:ietf:params:oauth:grant-type:pre-authorized_code".
Definition refresh_token := "refresh_token".
Definition jwt_bearer := "urn:ietf:params:oauth:client-assertion-type:jwt-bearer".
Definition AuthProviderPreAuth := "preauth".
Definition SessionStatusTokenIssued := "token_issued".

(** [SetNX] and [SetNXWithTTL] of the in-memory cache do not fail. *)
Definition burn_jti (key : string) (ttl : Z) : H bool := perform (OJTI key ttl).

Section endpoints.
Context `{Hashes} `{NetURL} `{ProofParser} `{Arch} `{AssertionParser}.
Variable cfg : config.
(** The evaluator of wallet attestations, if one is configured, and the policy. *)
Variable evaluator : option (string → string → string → option attestation).
Variable policy : string → string → string → bool.

(** ** Proofs and clients *)

Definition dpopProofThumbprint (proof htu : string) : H string :=
  now ← perform ONow;
  match ValidateAndParseDPoPJWT now proof with
  | Err _ => refuse ErrCodeInvalidDPoPProof 400
  | Ok dpop =>
      unique ← burn_jti (JTI dpop) 0;
      if negb unique then refuse_with OAuthErrJTIReplay else
      if negb (SameHTU (HTU dpop) htu) then refuse ErrCodeInvalidDPoPProof 400 else
      if negb (bool_decide (HTM dpop = "POST")) then refuse ErrCodeInvalidDPoPProof 400 else
      mret (Thumbprint dpop)
  end.

(** The attestation and proof of a request: the headers, or the legacy
    assertion, which comes without a proof. *)
Definition carried_attestation (att pop assertion : string) : H (string * string) :=
  if str_empty att then mret (assertion, "") else
  if str_empty pop then refuse ErrCodeInvalidClient 401 else mret (att, pop).

Definition evaluate (att pop clientID : string) : H attestation :=
  match evaluator with
  | None => refuse ErrCodeInvalidClient 401
  | Some ev =>
      if str_empty att then refuse ErrCodeInvalidClient 401 else
      match ev att pop (PublicURL cfg) with
      | None => refuse ErrCodeInvalidClient 401
      | Some result =>
          if negb (str_empty (at_Subject result)) && negb (bool_decide (at_Subject result = clientID))
          then refuse ErrCodeInvalidClient 401 else mret result
      end
  end.

Definition attested_client (redirectURI : string) : Client := mkClient ClientTypePublic [redirectURI] ["*"] "".

Definition authenticateOAuthClient (req : walletClientAuth) : H Client :=
  let allow := if wa_RedirectOptional req then AllowWithoutRedirect else Allow in
  match allow (ConfiguredClients cfg) (wa_ClientID req) (wa_RedirectURI req) (wa_Scope req) with
  | Ok client => mret client
  | Err _ =>
      '(att, pop) ← carried_attestation (wa_ClientAttestation req) (wa_ClientAttestationPoP req) (wa_ClientAssertion req);
      result ← evaluate att pop (wa_ClientID req);
      if negb (policy (at_Source result) (wa_Scope req) (at_Issuer result)) then refuse ErrCodeInvalidScope 403 else
      mret (attested_client (wa_RedirectURI req))
  end.

(** ** Pushed authorization requests and the authorization endpoint *)

Variable random : nat → option string.
Variable uuid : nat → string.

Definition GenerateSecureToken (n : nat) : H string :=
  match random n with Some s => mret s | None => fail HInternal end.

Definition HostFromURL (rawURL : string) : H string :=
  match url_Parse rawURL with
  | None => fail HInternal
  | Some u => if str_empty (u_Host u) then fail HInternal else mret (u_Host u)
  end.

Definition preauth_only (scope : string) : bool :=
  match CredentialSources cfg scope with
  | Some providers => bool_decide (AuthProviderPreAuth ∈ providers)
  | None => false
  end.

Definition par_document (req : PARRequest) (clientID requestURI nonce keyID responseCode : string) (deadline : Z) :
    AuthorizationContext :=
  mkContext (uuid 1) 0 deadline (par_ClientID req) (par_State req) (par_CodeChallenge req) (par_CodeChallengeMethod req)
    "" "" "" (uuid 2) false [] 0 None "" requestURI (par_RedirectURI req) false "" "" "" "" "" ""
    keyID responseCode "" None
    (mkRest "" "" clientID [par_Scope req] nonce None false false "" "" (par_AuthorizationDetails req) deadline
       "" (par_DynamicParams req) "" "" "" false false 0 0 0 None "" "" GNil "" [] [] "" [] [] "").

(** The response is the [request_uri] and its lifetime in seconds. *)
Definition OAuthPar (req : PARRequest) : H (string * Z) :=
  if negb (ValidateRedirectURIScheme (par_RedirectURI req)) then refuse ErrCodeInvalidRequest 400 else
  oauthClient ← authenticateOAuthClient
    (mkWalletAuth (par_ClientID req) (par_RedirectURI req) (par_Scope req) false
       (par_ClientAttestation req) (par_ClientAttestationPoP req) (par_ClientAssertion req));
  if bool_decide (c_Type oauthClient = ClientTypePublic) && str_empty (par_CodeChallenge req)
  then refuse ErrCodeInvalidRequest 400 else
  if InteractiveRequired cfg then refuse ErrCodeInvalidRequest 400 else
  if preauth_only (par_Scope req) then refuse ErrCodeInvalidScope 400 else
  let requestURI := "urn:ietf:params:oauth:request_uri:" +:+ uuid 0 in
  host ← HostFromURL (PublicURL cfg);
  now ← perform ONow;
  let requestURIExpiresAt := unix (now + requestURITTL) in
  nonce ← GenerateSecureToken 0;
  keyID ← GenerateSecureToken 1;
  responseCode ← GenerateSecureToken 2;
  saved ← perform (OSave (par_document req ("x509_san_dns:" +:+ host) requestURI nonce keyID responseCode requestURIExpiresAt));
  match saved with
  | Err e => fail (HStore e)
  | Ok _ => mret (requestURI, requestURITTL / second)
  end.

Definition codeDeadlineWithin (now createdAt : Z) : Z :=
  let deadline := now + authorizationCodeTTL in
  let retention := createdAt + AuthContextTTL in
  unix (if negb (bool_decide (createdAt = 0)) && bool_decide (retention < deadline) then retention else deadline).

(** [scopes[0]] *)
Definition first_scope (scopes : list string) : H string :=
  match scopes with s :: _ => mret s | [] => fail HPanic end.

Definition OAuthAuthorize (requestURI : string) : H AuthorizationResponse :=
  host ← HostFromURL (PublicURL cfg);
  found ← perform (OGet (by_request_uri requestURI ("x509_san_dns:" +:+ host)));
  match found with
  | Err e => fail (HStore e)
  | Ok l =>
      d ← perform (OLoad l);
      now ← perform ONow;
      if expired (ExpiresAt d) now then fail HExpired else
      d ← perform (OLoad l);
      now ← perform ONow;
      if expired (RequestURIExpiresAt (other d)) now then fail HExpired else
      d ← perform (OLoad l);
      if Forfeited d then fail HNotAllowed else
      d ← perform (OLoad l);
      now ← perform ONow;
      extended ← perform (OExtend (by_request_uri requestURI "") (codeDeadlineWithin now (CreatedAt d)));
      match extended with
      | Err e => fail (HStore e)
      | Ok _ =>
          d ← perform (OLoad l);
          scope ← first_scope (Scopes (other d));
          mret (mkAuthorizationResponse (if Consent d then "" else "/authorization/consent") scope
                  (SessionID d) (ClientID (other d)) (WalletClientID d))
      end
  end.

(** ** The token endpoint *)

Definition lookupCodeBeforeConsuming (code : string) : H (option loc) :=
  found ← perform (OGet (by_code code));
  match found with
  | Ok l => mret (Some l)
  | Err e => if bool_decide (e = ErrNoDocuments) then mret None else refuse ErrCodeServerError 500
  end.

(** A field of the document behind the pointer, or of the empty document. *)
Definition load (l : option loc) : H AuthorizationContext :=
  match l with Some l => perform (OLoad l) | None => mret zero_context end.

Definition checkInteractiveAuthorizationBinding (l : option loc) (dpopThumbprint : string) : H unit :=
  d ← load l;
  if str_empty (AuthSessionDPoPThumbprint d) then mret tt else
  if bool_decide (AuthSessionDPoPThumbprint d = dpopThumbprint) then mret tt else refuse ErrCodeInvalidGrant 400.

(** The client a token request is from, by its assertion or its parameter. *)
Definition token_client_id (req : TokenRequest) : H string :=
  let clientID := tr_ClientID req in
  let assertion := tr_ClientAssertion req in
  if str_empty assertion then
    if str_empty (ClientAssertionType req) then mret clientID else refuse ErrCodeInvalidRequest 400
  else
  if str_empty (ClientAssertionType req) then refuse ErrCodeInvalidRequest 400 else
  if negb (bool_decide (ClientAssertionType req = jwt_bearer)) then refuse ErrCodeInvalidRequest 400 else
  match ExtractClientIDFromAssertion assertion with
  | None => refuse ErrCodeInvalidClient 401
  | Some sub =>
      if negb (str_empty clientID) && negb (bool_decide (clientID = sub)) then refuse ErrCodeInvalidClient 401 else
      if AllowUnverifiedClientAssertion cfg then mret sub else
      match OAuth2.Get (ConfiguredClients cfg) sub with
      | Err _ => match evaluator with Some _ => mret sub | None => refuse ErrCodeInvalidClient 401 end
      | Ok client =>
          now ← perform ONow;
          match Verify now (TokenEndpoint cfg) assertion client with
          | None => refuse ErrCodeInvalidClient 401
          | Some (jti, exp) =>
              now ← perform ONow;
              let ttl := exp + 30 * second - now in
              if bool_decide (ttl ≤ 0) then refuse ErrCodeInvalidClient 401 else
              unique ← burn_jti ("client_assertion:" +:+ sub +:+ ":" +:+ jti) ttl;
              if negb unique then refuse ErrCodeInvalidClient 401 else mret sub
          end
      end
  end.

(** The client's registration, or the one its attestation stands for. *)
Definition token_client (req : TokenRequest) (code clientID : string) : H (option Client) :=
  if str_empty clientID then mret None else
  match OAuth2.Get (ConfiguredClients cfg) clientID with
  | Ok client => mret (Some client)
  | Err _ =>
      '(att, pop) ← carried_attestation (tr_ClientAttestation req) (tr_ClientAttestationPoP req) (tr_ClientAssertion req);
      result ← evaluate att pop clientID;
      found ← perform (OGet (by_code code));
      match found with
      | Err _ => refuse ErrCodeInvalidGrant 400
      | Ok l =>
          codeCtx ← perform (OLoad l);
          if negb (policy (at_Source result) (Join " " (Scopes (other codeCtx))) (at_Issuer result))
          then refuse ErrCodeInvalidScope 403 else
          mret (Some (attested_client (tr_RedirectURI req)))
      end
  end.

(** What is checked before an authorization code is consumed. *)
Definition check_authorization_code (req : TokenRequest) (code clientID dpopThumbprint : string) : H unit :=
  preCheck ← lookupCodeBeforeConsuming code;
  d ← load preCheck;
  if PreAuthorized (other d) then refuse ErrCodeInvalidGrant 400 else
  d ← load preCheck;
  if negb (str_empty (WalletClientID d)) && negb (bool_decide (clientID = WalletClientID d))
  then refuse ErrCodeInvalidGrant 400 else
  d ← load preCheck;
  if negb (str_empty (WalletURI d)) && negb (bool_decide (tr_RedirectURI req = WalletURI d))
  then refuse ErrCodeInvalidGrant 400 else
  checkInteractiveAuthorizationBinding preCheck dpopThumbprint.

(** What is checked before a pre-authorized code is consumed. *)
Definition check_pre_authorized_code (req : TokenRequest) (code : string) : H unit :=
  preCheck ← lookupCodeBeforeConsuming code;
  match preCheck with
  | None => refuse ErrCodeInvalidGrant 400
  | Some l =>
      d ← perform (OLoad l);
      if negb (PreAuthorized (other d)) then refuse ErrCodeInvalidGrant 400 else
      d ← perform (OLoad l);
      if Forfeited d then refuse ErrCodeInvalidGrant 400 else
      d ← perform (OLoad l);
      if bool_decide (MaxTXCodeAttempts ≤ TXCodeAttempts d) then
        _ ← perform (OConsume code); refuse ErrCodeInvalidGrant 400
      else
      d ← perform (OLoad l);
      let txCode := TXCode (other d) in
      if str_empty txCode && negb (str_empty (tr_TXCode req)) then refuse ErrCodeInvalidRequest 400 else
      if negb (str_empty txCode) && str_empty (tr_TXCode req) then refuse ErrCodeInvalidRequest 400 else
      if negb (str_empty txCode) && negb (bool_decide (txCode = tr_TXCode req)) then
        attempt ← perform (OConsume code);
        if is_ok attempt && EmitInvalidTXCodeError cfg then refuse ErrCodeInvalidTXCode 400
        else refuse ErrCodeInvalidGrant 400
      else mret tt
  end.

(** Consuming the code: with a key, a pre-authorized code serves several clients. *)
Definition consume_code (isPreAuthFlow : bool) (code dpopThumbprint : string) : H loc :=
  consumed ← (if isPreAuthFlow && negb (str_empty dpopThumbprint) then perform (ORedeem code dpopThumbprint)
              else perform (OForfeit (by_code code)) : H (result cache_error loc));
  match consumed with Ok l => mret l | Err _ => refuse ErrCodeInvalidGrant 400 end.

(** The session of one client of a pre-authorized code. *)
Definition child_session (d : AuthorizationContext) (childSessionID childNonce refreshToken : string)
    (createdAt : Z) (tok : token) (details : list goval) (refreshExpires : Z) : AuthorizationContext :=
  mkContext childSessionID createdAt (tok_ExpiresAt tok) "" "" "" "" "" "" "" "" false [] 0 (Some tok) "" "" "" false
    "" (Identifier d) (AuthProvider d) (DataSource d) "" refreshToken "" "" "" None
    (mkRest SessionStatusTokenIssued (SessionID d) "" (Scopes (other d)) childNonce None false false "" "" details 0
       "" [] "" "" "" false false 0 0 refreshExpires None "" "" GNil "" [] [] "" [] [] "").

Definition identified (details : list goval) : list goval := imap (fun i ad => with_identifier ad (uuid i)) details.

(** Issuing the token on the consumed document. *)
Definition issue_token (isPreAuthFlow : bool) (dpopThumbprint : string) (l : loc) : H TokenResponse :=
  accessToken ← GenerateSecureToken 0;
  d ← perform (OLoad l);
  scope ← first_scope (Scopes (other d));
  let state := State d in
  let cnonce := Nonce (other d) in
  let refreshing := bool_decide (refresh_token ∈ GrantTypes cfg) && negb (str_empty dpopThumbprint) in
  refreshToken ← (if refreshing then GenerateSecureToken 1 else mret "");
  let refreshExpiresIn := if refreshing then RefreshTokenDuration cfg else 0 in
  _ ← (if isPreAuthFlow then mret tt else d ← perform (OLoad l); perform (ONonceSet (Nonce (other d))));
  d ← perform (OLoad l);
  let responseDetails := identified (AuthorizationDetails (other d)) in
  now ← perform ONow;
  let tokenDoc := mkToken accessToken (unix (now + tokenTTL * second)) dpopThumbprint in
  let reply nonce := mkTokenResponse accessToken tokenTTL scope state nonce 3600 responseDetails refreshToken refreshExpiresIn in
  if isPreAuthFlow then
    childSessionID ← GenerateSecureToken 2;
    childNonce ← GenerateSecureToken 3;
    _ ← perform (ONonceSet childNonce);
    d ← perform (OLoad l);
    createdAt ← perform ONow;
    expires ← (if str_empty refreshToken then mret 0
               else now ← perform ONow; mret (unix (now + RefreshTokenDuration cfg * second)));
    saved ← perform (OSave (child_session d childSessionID childNonce refreshToken createdAt tokenDoc responseDetails expires));
    match saved with Err e => fail (HStore e) | Ok _ => mret (reply childNonce) end
  else
    _ ← perform (OAssign l (set_Token (Some tokenDoc)));
    _ ← perform (OAssign l (set_RefreshToken refreshToken));
    _ ← (if str_empty refreshToken then mret tt
         else now ← perform ONow;
              perform (OAssign l (set_RefreshTokenExpiresAt (unix (now + RefreshTokenDuration cfg * second)))));
    _ ← (match responseDetails with [] => mret tt | _ => perform (OAssign l (set_AuthorizationDetails responseDetails)) end);
    updated ← perform (OUpdate l);
    match updated with Err e => fail (HStore e) | Ok _ => mret (reply cnonce) end.

Definition handleRefreshTokenGrant (req : TokenRequest) : H TokenResponse :=
  if str_empty (tr_RefreshToken req) then refuse ErrCodeInvalidRequest 400 else
  if negb (bool_decide (refresh_token ∈ GrantTypes cfg)) then refuse ErrCodeUnsupportedGrantType 400 else
  now ← perform ONow;
  match ValidateAndParseDPoPJWT now (DPOP req) with
  | Err _ => refuse ErrCodeInvalidDPoPProof 400
  | Ok dpop =>
      if negb (bool_decide (HTU dpop = TokenEndpoint cfg)) then refuse ErrCodeInvalidDPoPProof 400 else
      if negb (bool_decide (HTM dpop = "POST")) then refuse ErrCodeInvalidDPoPProof 400 else
      unique ← burn_jti (JTI dpop) 0;
      if negb unique then refuse_with OAuthErrJTIReplay else
      found ← perform (OGetByRefreshToken (tr_RefreshToken req));
      match found with
      | Err _ => refuse ErrCodeInvalidGrant 400
      | Ok l =>
          d ← perform (OLoad l);
          now ← perform ONow;
          if expired (RefreshTokenExpiresAt (other d)) now then refuse ErrCodeInvalidGrant 400 else
          d ← perform (OLoad l);
          match Token d with
          | None => refuse ErrCodeInvalidGrant 400
          | Some tok =>
              if str_empty (tok_DPoPThumbprint tok) then refuse ErrCodeInvalidGrant 400 else
              if negb (bool_decide (Thumbprint dpop = tok_DPoPThumbprint tok)) then refuse ErrCodeInvalidGrant 400 else
              newAccessToken ← GenerateSecureToken 0;
              newRefreshToken ← GenerateSecureToken 1;
              newNonce ← GenerateSecureToken 2;
              _ ← perform (ONonceSet newNonce);
              old ← perform (OLoad l);
              d ← perform (OLoad l);
              now ← perform ONow;
              let tokenDoc := mkToken newAccessToken (unix (now + 3600 * second)) (Thumbprint dpop) in
              now ← perform ONow;
              let rotated := set_Nonce newNonce
                (set_RefreshTokenExpiresAt (unix (now + RefreshTokenDuration cfg * second))
                   (set_RefreshToken newRefreshToken (set_Token (Some tokenDoc) d))) in
              swapped ← perform (ORotate (RefreshToken old) rotated);
              match swapped with
              | Err e => if bool_decide (e = ErrNoDocuments) then refuse ErrCodeInvalidGrant 400 else refuse ErrCodeServerError 500
              | Ok _ =>
                  d ← perform (OLoad l);
                  scope ← first_scope (Scopes (other d));
                  mret (mkTokenResponse newAccessToken 3600 scope "" newNonce 3600 (AuthorizationDetails (other d))
                          newRefreshToken (RefreshTokenDuration cfg))
              end
          end
      end
  end.

Definition OAuthToken (req : TokenRequest) : H TokenResponse :=
  if bool_decide (GrantType req = refresh_token) then handleRefreshTokenGrant req else
  let isPreAuthFlow := bool_decide (GrantType req = pre_authorized_code) in
  let code := if isPreAuthFlow then PreAuthorizedCode req else tr_Code req in
  clientID ← token_client_id req;
  if negb isPreAuthFlow && str_empty clientID then refuse ErrCodeInvalidRequest 400 else
  oauthClient ← token_client req code clientID;
  if negb isPreAuthFlow &&
     match oauthClient with Some c => bool_decide (c_Type c = ClientTypePublic) | None => false end &&
     str_empty (CodeVerifier req)
  then refuse_with OAuthErrPKCERequired else
  dpopThumbprint ←
    (if negb (str_empty (DPOP req)) then dpopProofThumbprint (DPOP req) (TokenEndpoint cfg)
     else if isPreAuthFlow then mret "" else refuse_with OAuthErrDPoPRequired);
  _ ← (if isPreAuthFlow then check_pre_authorized_code req code
       else check_authorization_code req code clientID dpopThumbprint);
  l ← consume_code isPreAuthFlow code dpopThumbprint;
  _ ← checkInteractiveAuthorizationBinding (Some l) dpopThumbprint;
  d ← perform (OLoad l);
  now ← perform ONow;
  if expired (ExpiresAt d) now then refuse_with OAuthErrExpiredRequest else
  d ← perform (OLoad l);
  if negb isPreAuthFlow && negb (is_ok (ValidatePKCE (CodeVerifier req) (CodeChallenge d) (CodeChallengeMethod d)))
  then refuse ErrCodeInvalidGrant 400 else
  issue_token isPreAuthFlow dpopThumbprint l.
End endpoints.
