(* ===== verification/TokenSafety.v ===== *)
(** * Codes and refresh tokens are exchanged once

    However token requests, other requests, evictions and the expiry of entries
    interleave: a code is answered with a token at most once, whichever grant it
    is presented under. *)

From stdpp Require Import relations.
From S2P Require Import Prelude GoStrings GoValue Json SdJwt OAuth2 AuthContext AuthStore AuthStoreSteps AuthStoreGrants GenericCache Handlers HandlersSafety TokenEndpoint.

(** ** What the calls that find a document say of the store *)

Lemma Forfeit_inv ttl now q s s' l :
  ForfeitAuthorizationCode ttl now (Some q) s = (s', Ok l) →
  ∃ sid it, cache s !! sid = Some it ∧ item_doc it = l ∧ Forfeited (deref s l) = false ∧
    Forfeited (deref s' l) = true ∧ (∃ it', cache s' !! sid = Some it' ∧ item_doc it' = l) ∧
    (Code q ≠ "" → indices s !! index_key "code" (Code q) = Some sid) ∧
    (Code q = "" → RequestURI q ≠ "" ∧ indices s !! index_key "request_uri" (RequestURI q) = Some sid).
Proof.
  unfold ForfeitAuthorizationCode. intros (s1 & sid & Hr & H)%M_bind_Ok.
  assert (s1 = s ∧ (Code q ≠ "" → indices s !! index_key "code" (Code q) = Some sid) ∧
    (Code q = "" → RequestURI q ≠ "" ∧ indices s !! index_key "request_uri" (RequestURI q) = Some sid)) as (-> & Hx & Hu).
  { destruct (str_empty (Code q)) eqn:Ec; cbn [negb] in Hr.
    - apply str_empty_true in Ec. destruct (str_empty (RequestURI q)) eqn:Eu; [done|]. apply str_empty_false in Eu.
      apply resolve_index_inv in Hr as [-> ?]. by split_and!.
    - apply str_empty_false in Ec. apply resolve_index_inv in Hr as [-> ?]. by split_and!. }
  apply M_bind_Ok in H as (s2 & l' & (it & Hit & -> & ->)%get_item_inv & H).
  apply M_bind_Ok in H as (s3 & d & [= <- <-] & H).
  change (deref (with_cache (insert sid (touch ttl now it)) s) (item_doc it)) with (deref s (item_doc it)) in H.
  destruct (Forfeited (deref s (item_doc it))) eqn:Ef; [done|]. run H. injection H as <- <-.
  exists sid, it. split_and!; try done.
  - unfold deref. cbn. by rewrite lookup_insert_eq.
  - eexists. cbn. by rewrite lookup_insert_eq.
Qed.

Lemma get_by_inv ttl now name v s s' l :
  get_by ttl now name v s = (s', Ok l) →
  ∃ sid it, indices s !! index_key name v = Some sid ∧ cache s' !! sid = Some it ∧ item_doc it = l ∧
    deref s' l = deref s l.
Proof.
  unfold get_by. destruct (str_empty v); [done|]. intros (s1 & sid & [-> Hx]%resolve_index_inv & H)%M_bind_Ok.
  apply get_item_inv in H as (it & Hit & -> & ->). exists sid, (touch ttl now it). cbn.
  by rewrite lookup_insert_eq, touch_doc.
Qed.

(** A query by code. *)
Definition asks_code (c : string) (q : AuthorizationContext) : bool :=
  bool_decide (SessionID q = "") && bool_decide (first_field (resolve_fields q) = Some ("code", c)).
Lemma by_code_asks c : c ≠ "" → asks_code c (by_code c) = true.
Proof.
  intros Hc%str_empty_false. apply andb_true_iff. split; apply bool_decide_eq_true; [done|]. cbn. by rewrite Hc.
Qed.

Lemma get_code_inv ttl now c q s s' l :
  asks_code c q = true → Get ttl now (Some q) s = (s', Ok l) →
  ∃ sid it, indices s !! index_key "code" c = Some sid ∧ cache s' !! sid = Some it ∧ item_doc it = l.
Proof.
  intros [Hq%bool_decide_eq_true Hf%bool_decide_eq_true]%andb_true_iff. unfold Get, getLocked, resolveSessionIDLocked. rewrite Hq.
  change (str_empty "") with true. cbv iota. intros (s1 & sid & Hr & H)%M_bind_Ok.
  rewrite resolve_loop_first, Hf in Hr. apply resolve_index_inv in Hr as [-> Hx].
  apply get_item_inv in H as (it & Hit & -> & ->). exists sid, (touch ttl now it). cbn.
  by rewrite lookup_insert_eq, touch_doc.
Qed.

(** ** Writing a document back *)

(** The pointer is the one the store holds for its session; the store holds
    none. *)
Definition current (s : store) (l : loc) : Prop := ∃ it, cache s !! SessionID (deref s l) = Some it ∧ item_doc it = l.
Definition gone (s : store) (l : loc) : Prop := cache s !! SessionID (deref s l) = None.

Lemma current_good D key S s l : holds D key S s → current s l → D (SessionID (deref s l)) (deref s l).
Proof. intros [Hc _] (it & Hit & <-). by apply (Hc _ _ Hit). Qed.
Lemma Update_gone ttl nested_valid now s l : gone s l → fst (Update ttl nested_valid now (Some l) s) = s.
Proof.
  intros Hg. unfold Update, mbind at 1, M_bind at 1, gets at 1. destruct (str_empty _); [done|]. destruct (negb _); [done|].
  unfold get_item, mbind, M_bind, cache_get. by rewrite Hg.
Qed.

(** An index key of a document comes from the field it names. *)
Lemma index_key_field name v d : index_key name v ∈ index_keys d → has_byte ":"%char name = false → (name, v) ∈ index_fields d.
Proof.
  unfold index_keys. rewrite list_elem_of_fmap. intros ([n v'] & E & Hin) Hn.
  apply list_elem_of_In, filter_In in Hin as [Hin _]. unfold index_key in E.
  apply colon_key_inj in E as [-> ->]; [by apply list_elem_of_In|done|].
  cbn in Hin. repeat destruct Hin as [Hin|Hin]; by simplify_eq/=.
Qed.
Lemma index_key_code c d : index_key "code" c ∈ index_keys d → Code d = c.
Proof.
  intros Hk. apply index_key_field, list_elem_of_In in Hk; [|done]. cbn in Hk. repeat destruct Hk as [Hk|Hk]; by simplify_eq/=.
Qed.

(** ** One exchange of a code *)

Section code.
(** The code, the session it belongs to, and whether it is pre-authorized. *)
Variable c sid0 : string.
Variable pa : bool.
Hypothesis c_nonempty : c ≠ "".

(** Documents under the code belong to the session; of the session's documents,
    those known to be spent are forfeited, and so are all that carry a token. *)
Definition spent_doc (known_spent : bool) (d : AuthorizationContext) : Prop :=
  (Code d = c → SessionID d = sid0) ∧
  (SessionID d = sid0 → PreAuthorized (other d) = pa) ∧
  (SessionID d = sid0 → known_spent = true ∨ is_Some (Token d) → Forfeited d = true).
Definition code_doc (b : bool) (sid : string) (d : AuthorizationContext) : Prop := SessionID d = sid ∧ spent_doc b d.

Definition code_key : string := index_key "code" c.
Definition of_session (sid : string) : Prop := sid = sid0.
(** The code is the session's; with [true] it can no longer be redeemed. *)
Definition code_inv (b : bool) (s : store) : Prop := holds (code_doc b) code_key of_session s.

Lemma spent_doc_edit b d d' : edit d d' → spent_doc b d → spent_doc b d'.
Proof. unfold spent_doc. intros []; cbn; tauto. Qed.
Lemma code_doc_edit b sid d d' : edit d d' → code_doc b sid d → code_doc b sid d'.
Proof. intros He [Hs Hd]. split; [by destruct He|by eapply spent_doc_edit]. Qed.
Lemma code_doc_index b sid d : code_doc b sid d → code_key ∈ index_keys d → of_session (SessionID d).
Proof using c_nonempty. intros [_ [Hd _]] Hk. by apply Hd, index_key_code. Qed.
Lemma spent_doc_weaken b d : spent_doc true d → spent_doc b d.
Proof. intros (H1 & H2 & H3). split_and!; [done..|]. intros Hs _. apply H3; [done|by left]. Qed.
Lemma spent_doc_token d : spent_doc false d → is_Some (Token d) → spent_doc true d.
Proof. intros (H1 & H2 & H3) Ht. split_and!; [done..|]. intros Hs _. apply H3; [done|by right]. Qed.

(** What a request knows of a document: it is spent; it was in the store; it was
    found by the code. *)
Inductive trait := Spent | Stored | Named.
Definition has_trait (k : trait) (d : AuthorizationContext) : Prop :=
  match k with Spent => spent_doc true d | Stored => spent_doc false d | Named => PreAuthorized (other d) = pa end.
Lemma has_trait_edit k d d' : edit d d' → has_trait k d → has_trait k d'.
Proof. destruct k; cbn; [apply spent_doc_edit..|]. by intros []. Qed.

(** What is learnt: a document just forfeited is spent; one found by a refresh
    token is spent once it is seen to carry a token. *)
Definition code_learn (Γ : knowledge trait) (o : op) : answer o → knowledge trait :=
  match o return answer o → knowledge trait with
  | OGet q => fun r => match r with Ok l => if asks_code c q then [(l, Named)] else [] | Err _ => [] end
  | OForfeit _ => fun r => match r with Ok l => [(l, Spent)] | Err _ => [] end
  | OGetByRefreshToken _ => fun r => match r with Ok l => [(l, Stored)] | Err _ => [] end
  | OLoad l => fun d => if existsb (fun lk => bool_decide (lk.1 = l) && match lk.2 with Stored => true | _ => false end) Γ
                          && bool_decide (is_Some (Token d)) then [(l, Spent)] else []
  | _ => fun _ => []
  end.
Definition keeps_ids (f : AuthorizationContext → AuthorizationContext) : Prop :=
  ∀ d, SessionID (f d) = SessionID d ∧ Code (f d) = Code d ∧ Forfeited (f d) = Forfeited d ∧
       PreAuthorized (other (f d)) = PreAuthorized (other d).
Definition code_safe (Γ : knowledge trait) (o : op) : Prop :=
  match o with
  | OAssign l f => (l, Spent) ∈ Γ ∧ keeps_ids f
  | OUpdate l => (l, Spent) ∈ Γ
  | OSave d | ORotate _ d | OClaimState _ d => spent_doc true d
  | _ => True
  end.
Definition code_spends (o : op) : answer o → bool :=
  match o return answer o → bool with
  | OForfeit q => fun r => is_ok r && bool_decide (Code q = c)
  | _ => fun _ => false
  end.

Lemma stored_known Γ l :
  existsb (fun lk : loc * trait => bool_decide (lk.1 = l) && match lk.2 with Stored => true | _ => false end) Γ = true ↔
  (l, Stored) ∈ Γ.
Proof.
  rewrite existsb_exists, list_elem_of_In. split.
  - intros ([l' k] & Hin & [E%bool_decide_eq_true Hk]%andb_true_iff). cbn in *. subst. by destruct k.
  - intros Hin. exists (l, Stored). split; [done|]. cbn. by rewrite bool_decide_eq_true_2.
Qed.

Variable nested_valid : goval → bool.

Lemma spent_assign b f d : keeps_ids f → spent_doc true d → spent_doc b (f d).
Proof.
  intros Hf (H1 & H2 & H3). destruct (Hf d) as (E1 & E2 & E3 & E4). split_and!; rewrite E1, ?E2, ?E3, ?E4; [done..|].
  intros Hs _. apply H3; [done|by left].
Qed.

Lemma code_allowed b k Γ s o :
  truths has_trait Γ s → code_safe Γ o → op_allowed (code_doc b) (has_trait k) s o.
Proof.
  intros Ht Hs. destruct o; cbn in *; try done.
  - destruct Hs as [Hl Hf]. apply (truth_in _ _ _ _ _ Ht) in Hl as [_ Hl]. split.
    + intros sid [E _]. split; [by rewrite (proj1 (Hf _))|by apply spent_assign].
    + destruct k; cbn; [by intros _; apply spent_assign..|]. by destruct (Hf (deref s l)) as (_ & _ & _ & ->).
  - split; [done|by apply spent_doc_weaken].
  - apply (truth_in _ _ _ _ _ Ht) in Hs as [Hn Hl]. split; [done|]. split; [done|by apply spent_doc_weaken].
  - split; [done|by apply spent_doc_weaken].
  - split; [done|by apply (spent_doc_weaken b opened)].
Qed.

(** Forfeiting the code ends its life. *)
Lemma code_forfeited now q s s' l b :
  code_inv b s → keeps (code_doc b) (has_trait Spent) code_key of_session s s' →
  ForfeitAuthorizationCode AuthContextTTL now (Some q) s = (s', Ok l) →
  known (has_trait Spent) s' l ∧ (Code q = c → b = false ∧ code_inv true s').
Proof using c_nonempty.
  intros Hi Hk (sid & it & Hit & Hl & Hf & Hf' & (it' & Hit' & Hl') & Hx & _)%Forfeit_inv. destruct Hi as [Hi Hidx].
  destruct (Hk) as ((Hc' & Hidx') & _). destruct (Hc' _ _ Hit') as (Hn & Hs & Hd). rewrite Hl' in *.
  split.
  { split; [done|]. split_and!; [apply Hd..|done]. }
  intros Eq. assert (sid = sid0) as -> by (apply Hidx; unfold code_key; rewrite <- Eq; apply Hx; congruence). split.
  - destruct b; [|done]. destruct (Hi _ _ Hit) as (_ & Hs0 & _ & _ & Hd0). rewrite Hl in *.
    rewrite Hd0 in Hf; [done|done|by left].
  - split; [|done]. intros sid2 it2 Hit2. destruct (Hc' _ _ Hit2) as (Hn2 & Hs2 & Hd2). split; [done|]. split; [done|].
    split_and!; [apply Hd2..|]. intros E _. assert (sid2 = sid0) as -> by congruence.
    assert (it2 = it') as -> by congruence. by rewrite Hl'.
Qed.

Lemma stored_trait b s sid it : code_inv b s → cache s !! sid = Some it → known (has_trait Stored) s (item_doc it).
Proof.
  intros [Hc _] Hit. destruct (Hc _ _ Hit) as (Hn & _ & H1 & H2 & H3). split; [done|]. split_and!; [done..|].
  intros Es [?|Htok]; [done|]. apply H3; [done|by right].
Qed.

(** What the answers teach is true. *)
Lemma code_learnt b now o w Γ w' r :
  code_inv b (w_auth w) → code_inv b (w_auth w') →
  (keeps (code_doc b) (has_trait Spent) code_key of_session (w_auth w) (w_auth w')) →
  truths has_trait Γ (w_auth w) → run_op nested_valid now o w = (w', r) →
  truths has_trait (code_learn Γ o r) (w_auth w').
Proof using c_nonempty.
  intros Hi Hi' Hk Ht Hr. destruct o; cbn [code_learn]; try constructor.
  - destruct r as [l|e]; [|constructor]. destruct (asks_code c query) eqn:Eq; [|constructor]. constructor; [|constructor].
    cbn [run_op] in Hr. unfold on_auth in Hr. destruct (Get _ _ _ _) as [s' r'] eqn:Ef. injection Hr as <- ->. cbn [w_auth with_auth] in *.
    apply (get_code_inv _ _ c) in Ef as (sid & it & Hx & Hit & <-); [|done]. apply (proj2 Hi) in Hx as ->.
    destruct (proj1 Hi' _ _ Hit) as (Hn & Es & _ & Hp & _). split; [done|]. by apply Hp.
  - destruct (_ && _) eqn:E; [|constructor]. apply andb_true_iff in E as [Hl%stored_known Htok%bool_decide_eq_true].
    constructor; [|constructor]. cbn [run_op] in Hr. injection Hr as <- <-. destruct (truth_in _ _ _ _ _ Ht Hl) as [Hn Hd].
    split; [done|by apply spent_doc_token].
  - destruct r as [l|e]; [|constructor]. constructor; [|constructor]. cbn [run_op] in Hr. unfold on_auth in Hr.
    destruct (ForfeitAuthorizationCode _ _ _ _) as [s' r'] eqn:Ef. injection Hr as <- ->.
    by apply (code_forfeited now query _ _ l b Hi Hk Ef).
  - destruct r as [l|e]; [|constructor]. constructor; [|constructor]. cbn [run_op] in Hr. unfold on_auth in Hr.
    destruct (GetByRefreshToken _ _ _ _) as [s' r'] eqn:Ef. injection Hr as <- ->. cbn [w_auth with_auth] in *.
    apply get_by_inv in Ef as (sid & it & _ & Hit & <- & _). by eapply stored_trait.
Qed.

Lemma code_op_step b now o w Γ w' r :
  code_inv b (w_auth w) → truths has_trait Γ (w_auth w) → code_safe Γ o → run_op nested_valid now o w = (w', r) →
  code_inv (b || code_spends o r) (w_auth w') ∧ (code_spends o r = true → b = false) ∧
  (∀ Γ', truths has_trait Γ' (w_auth w) → truths has_trait Γ' (w_auth w')) ∧
  truths has_trait (code_learn Γ o r) (w_auth w').
Proof using c_nonempty.
  intros Hi Ht Hs Hr.
  assert (∀ k, keeps (code_doc b) (has_trait k) code_key of_session (w_auth w) (w_auth w')) as Hk.
  { intros k. replace w' with (fst (run_op nested_valid now o w)) by (by rewrite Hr).
    apply run_op_keeps; [apply code_doc_edit|apply has_trait_edit|apply code_doc_index|done|by eapply code_allowed]. }
  assert (code_inv b (w_auth w')) as Hi' by apply (Hk Spent).
  pose proof (code_learnt b now o w Γ w' r Hi Hi' (Hk Spent) Ht Hr) as Hl.
  assert (∀ Γ', truths has_trait Γ' (w_auth w) → truths has_trait Γ' (w_auth w')) as Hkeep by (by eapply truths_keep).
  destruct o; cbn [code_spends]; rewrite ?orb_false_r; try (split_and!; done).
  destruct r as [l|e]; cbn [is_ok andb]; [|rewrite orb_false_r; by split_and!].
  cbn [run_op] in Hr. unfold on_auth in Hr.
  destruct (ForfeitAuthorizationCode _ _ _ _) as [s' r'] eqn:Ef. injection Hr as <- ->. cbn [w_auth with_auth] in *.
  destruct (code_forfeited now query _ _ l b Hi (Hk Spent) Ef) as [_ Hc].
  split_and!; [|intros Eq%bool_decide_eq_true; by apply Hc|done..].
  destruct (bool_decide_reflect (Code query = c)) as [Eq|]; [rewrite orb_true_r; by apply Hc|by rewrite orb_false_r].
Qed.

(** What the rest of the system respects.  A handler that keeps a pointer may
    change the document behind it and write it back, but not its session, code
    and kind, and it takes neither a forfeiture back nor gives a token to what is
    not forfeited; what is written back is the document the store holds, of a
    session that is gone (the update is refused), or spent. *)
Definition code_env (w : world) (e : env_action) : Prop :=
  match e with
  | EStore a =>
      let s := w_auth w in
      match a with
      | ASave l => current s l ∨ spent_doc true (deref s l)
      | AUpdate l => current s l ∨ gone s l ∨ spent_doc true (deref s l)
      | ARotate _ l | AClaimIssuer _ l => spent_doc true (deref s l)
      | APoke l d =>
          let d0 := deref s l in
          SessionID d = SessionID d0 ∧ Code d = Code d0 ∧ PreAuthorized (other d) = PreAuthorized (other d0) ∧
          (Forfeited d0 = true → Forfeited d = true) ∧ (is_Some (Token d) → is_Some (Token d0) ∨ Forfeited d = true)
      | AAddToken _ t => t = None
      | _ => True
      end
  | _ => True
  end.

Lemma poke_spent b d0 d :
  SessionID d = SessionID d0 ∧ Code d = Code d0 ∧ PreAuthorized (other d) = PreAuthorized (other d0) ∧
  (Forfeited d0 = true → Forfeited d = true) ∧ (is_Some (Token d) → is_Some (Token d0) ∨ Forfeited d = true) →
  spent_doc b d0 → spent_doc b d.
Proof.
  intros (E1 & E2 & E3 & Hf & Htok) (H1 & H2 & H3). split_and!; rewrite E1, ?E2, ?E3; [done..|].
  intros Es [->|Ht]; [apply Hf, H3; [done|by left]|]. destruct (Htok Ht); [apply Hf, H3; [done|by right]|done].
Qed.

Lemma code_env_allowed b k w a :
  code_inv b (w_auth w) → code_env w (EStore a) →
  allowed (code_doc b) (has_trait k) (w_auth w) a ∨ ∃ l, a = AUpdate l ∧ gone (w_auth w) l.
Proof.
  intros Hi. assert (∀ d, spent_doc true d → code_doc b (SessionID d) d) as Hspent by (by split; [|apply spent_doc_weaken]).
  destruct a; cbn [allowed code_env]; intros Ha; try (by left).
  - left. destruct Ha as [Ha|Ha]; [by apply (current_good _ _ _ _ _ Hi)|by apply Hspent].
  - destruct Ha as [Ha|[Ha|Ha]]; [left; by apply (current_good _ _ _ _ _ Hi)|right; eauto|left; by apply Hspent].
  - left. subst. assert (∀ b d, spent_doc b d → spent_doc b (set_Token None d)) as Hs.
    { intros b0 d (H1 & H2 & H3). split_and!; cbn; [done..|]. intros Es [->|[? [=]]]. apply H3; [done|by left]. }
    split; [intros sid d [E Hd]; split; [done|by apply Hs]|]. destruct k; [apply Hs..|done].
  - left. by apply Hspent.
  - left. exact (Hspent (set_IssuerState "" _) Ha).
  - left. split.
    + intros sid [E Hd]. split; [destruct Ha as [-> _]; done|by eapply poke_spent].
    + destruct k; [by eapply poke_spent..|]. cbn. by destruct Ha as (_ & _ & -> & _).
Qed.

Lemma code_env_step b now e w :
  code_inv b (w_auth w) → env_valid w e → code_env w e →
  code_inv b (w_auth (exec_env nested_valid now e w)) ∧
  ∀ Γ, truths has_trait Γ (w_auth w) → truths has_trait Γ (w_auth (exec_env nested_valid now e w)).
Proof using c_nonempty.
  intros Hi Hv He.
  assert (∀ k, keeps (code_doc b) (has_trait k) code_key of_session (w_auth w) (w_auth (exec_env nested_valid now e w))) as Hk.
  { intros k. destruct e as [a|d|a|a|a|a]; cbn [exec_env w_auth with_auth]; [|by apply holds_alloc|by apply keeps_refl..].
    destruct (code_env_allowed b k w a Hi He) as [Ha|(l & -> & Hg)].
    - apply (exec_keeps _ _ _ _ (code_doc_edit b) (has_trait_edit k) (code_doc_index b) AuthContextTTL nested_valid now a); done.
    - cbn [AuthStoreSteps.exec]. rewrite Update_gone by done. by apply keeps_refl. }
  split; [apply (Hk Spent)|by eapply truths_keep].
Qed.
End code.

(** ** The token endpoint *)

(** Walks through a handler that only looks. *)
Ltac quiet_walk :=
  repeat first
    [ progress cbn [quiet refuse refuse_with fail mret handler_ret lift]
    | apply quiet_bind; [|intros ?]
    | apply quiet_perform; reflexivity
    | exact I
    | case_match ].

Section looking.
Context `{Hashes} `{NetURL} `{ProofParser} `{Arch} `{AssertionParser}.
Variable cfg : config.
Variable evaluator : option (string → string → string → option attestation).
Variable policy : string → string → string → bool.

Lemma token_client_id_quiet req : quiet (token_client_id cfg evaluator req).
Proof. unfold token_client_id, burn_jti. quiet_walk. Qed.
Lemma evaluate_quiet att pop id : quiet (evaluate cfg evaluator att pop id).
Proof. unfold evaluate. quiet_walk. Qed.
Lemma token_client_quiet req code id : quiet (token_client cfg evaluator policy req code id).
Proof. unfold token_client, carried_attestation. quiet_walk; try apply evaluate_quiet; quiet_walk. Qed.
Lemma dpopProofThumbprint_quiet proof htu : quiet (dpopProofThumbprint proof htu).
Proof. unfold dpopProofThumbprint, burn_jti. quiet_walk. Qed.
Lemma load_quiet l : quiet (load l).
Proof. unfold load. quiet_walk. Qed.
Lemma binding_quiet l t : quiet (checkInteractiveAuthorizationBinding l t).
Proof. unfold checkInteractiveAuthorizationBinding. apply quiet_bind; [apply load_quiet|]. intros d. quiet_walk. Qed.
Lemma check_authorization_code_quiet req code id t : quiet (check_authorization_code req code id t).
Proof.
  unfold check_authorization_code, lookupCodeBeforeConsuming.
  quiet_walk; first [apply load_quiet|apply binding_quiet].
Qed.
Lemma check_pre_authorized_code_quiet req code : quiet (check_pre_authorized_code cfg req code).
Proof. unfold check_pre_authorized_code, lookupCodeBeforeConsuming. quiet_walk. Qed.
Lemma GenerateSecureToken_quiet random n : quiet (GenerateSecureToken random n).
Proof. unfold GenerateSecureToken. quiet_walk. Qed.
Lemma first_scope_quiet scopes : quiet (first_scope scopes).
Proof. unfold first_scope. quiet_walk. Qed.

End looking.

(** *** One walk through the endpoint for every invariant *)

(** Steps over a part that only looks. *)
Ltac look_with quiet_safe := apply (tame_quiet_bind _ _ _ quiet_safe);
  [solve [apply GenerateSecureToken_quiet | apply first_scope_quiet | quiet_walk; apply GenerateSecureToken_quiet | quiet_walk]|
   let Γ' := fresh "Γ" in let a := fresh "a" in let Hs := fresh "Hsub" in intros Γ' a Hs].

Section token_endpoint.
Context `{Hashes} `{NetURL} `{ProofParser} `{Arch} `{AssertionParser}.
Variable cfg : config.
Variable evaluator : option (string → string → string → option attestation).
Variable policy : string → string → string → bool.

Section walk.
Context {kind : Type}.
Variable Kf : kind → AuthorizationContext → Prop.
Variable learn : knowledge kind → ∀ o, answer o → knowledge kind.
Variable safe_op : knowledge kind → op → Prop.
Abbreviation tamed := (tame Kf learn safe_op).

(** A document just forfeited is marked, and may be given a token. *)
Variable mark : kind.
Variable fresh : string → Prop.
Hypothesis quiet_safe : ∀ Γ o, brings o = false → safe_op Γ o.
Hypothesis learn_forfeit : ∀ Γ q l, (l, mark) ∈ learn Γ (OForfeit q) (Ok l).
Hypothesis safe_token : ∀ Γ l t, (l, mark) ∈ Γ → safe_op Γ (OAssign l (set_Token t)).
Hypothesis safe_refresh : ∀ Γ l v, (l, mark) ∈ Γ → v = "" ∨ fresh v → safe_op Γ (OAssign l (set_RefreshToken v)).
Hypothesis safe_expiry : ∀ Γ l v, (l, mark) ∈ Γ → safe_op Γ (OAssign l (set_RefreshTokenExpiresAt v)).
Hypothesis safe_details : ∀ Γ l v, (l, mark) ∈ Γ → safe_op Γ (OAssign l (set_AuthorizationDetails v)).
Hypothesis safe_update : ∀ Γ l, (l, mark) ∈ Γ → safe_op Γ (OUpdate l).
Hypothesis safe_child : ∀ Γ d sid nonce v created tok details expires,
  fresh sid → v = "" ∨ fresh v → safe_op Γ (OSave (child_session d sid nonce v created tok details expires)).

Ltac look := look_with quiet_safe.

Lemma drawn_tame {B} random n (f : string → H B) Q Γ :
  (∀ s, random n = Some s → tamed Γ (f s) (on_ok Q)) → tamed Γ (GenerateSecureToken random n ≫= f) (on_ok Q).
Proof. intros Hf. apply tame_bind. unfold GenerateSecureToken. destruct (random n) as [s|]; [by apply Hf|done]. Qed.

Lemma consume_code_tame pre code t Γ :
  tamed Γ (consume_code pre code t) (on_ok (fun Γ' l => pre = false → (l, mark) ∈ Γ')).
Proof using quiet_safe learn_forfeit.
  unfold consume_code. destruct pre; cbn [andb].
  - apply (quiet_tame _ _ _ quiet_safe); [quiet_walk|]. by intros Γ' [l|e] Hsub.
  - apply tame_perform_bind; [by apply quiet_safe|]. intros [l|e] _; [|done]. intros _. apply elem_of_app. by left.
Qed.

(** An assignment to a marked document, if there is one to make. *)
Lemma optional_tame (m : H unit) Γ l :
  (m = mret tt ∨ ∃ f, m = perform (OAssign l f) ∧ safe_op Γ (OAssign l f)) → (l, mark) ∈ Γ →
  tamed Γ m (on_ok (fun Γ' _ => (l, mark) ∈ Γ')).
Proof. intros [->|(f & -> & Hf)] Hl; [done|]. split; [done|]. intros [] _. by recall. Qed.

Lemma issue_token_tame random uuid pre t l Γ :
  (pre = false → (l, mark) ∈ Γ) → (∀ n v, random n = Some v → fresh v) →
  tamed Γ (issue_token cfg random uuid pre t l) (on_ok anything).
Proof using policy quiet_safe learn_forfeit safe_token safe_refresh safe_expiry safe_details safe_update safe_child.
  intros Hl Hr. unfold issue_token. look. look. look. apply tame_bind.
  apply (tame_mono _ _ _ _ _ (on_ok (fun Γ' v => Γ2 ⊆ Γ' ∧ (v = "" ∨ fresh v)))).
  { case_match; [|split; [done|by left]]. unfold GenerateSecureToken. destruct (random 1%nat) as [v|] eqn:E; [|done].
    split; [done|]. right. eauto. }
  intros Γ3 [v|e]; [|done]. intros [Hsub2 Hv]. look. look. look. destruct pre.
  - apply drawn_tame. intros sid Esid. look. look. look. look. look.
    apply tame_perform_bind; [|by intros [] _]. apply safe_child; [by eapply Hr|done].
  - specialize (Hl eq_refl). apply tame_perform_bind; [apply safe_token; recall|]. intros [] _.
    apply tame_perform_bind; [apply safe_refresh; [recall|done]|]. intros [] _.
    match goal with |- tame _ _ _ ?G _ _ => assert ((l, mark) ∈ G) as Hlm by recall; generalize dependent G end.
    intros Γ7 Hl7. apply tame_bind. apply (tame_mono _ _ _ _ _ (on_ok (fun Γ' _ => (l, mark) ∈ Γ'))).
    { destruct (str_empty v); [apply optional_tame; [by left|done]|]. look.
      apply optional_tame; [right; eexists; split; [done|]; apply safe_expiry; recall|recall]. }
    intros Γ8 [[]|e] Hl8; [|done]. cbn in Hl8.
    apply tame_bind. apply (tame_mono _ _ _ _ _ (on_ok (fun Γ' _ => (l, mark) ∈ Γ'))).
    { apply optional_tame; [|done]. destruct (identified _ _); [by left|right; eauto]. }
    intros Γ9 [[]|e] Hl9; [|done]. cbn in Hl9. apply tame_perform_bind; [by apply safe_update|]. by intros [[]|e] _.
Qed.

Lemma OAuthToken_tame random uuid req Γ :
  (∀ n v, random n = Some v → fresh v) → (∀ Γ, tamed Γ (handleRefreshTokenGrant cfg random req) (on_ok anything)) →
  tamed Γ (OAuthToken cfg evaluator policy random uuid req) (on_ok anything).
Proof using quiet_safe learn_forfeit safe_token safe_refresh safe_expiry safe_details safe_update safe_child.
  intros Hr Hrefresh. unfold OAuthToken. case_bool_decide; [apply Hrefresh|].
  apply (tame_quiet_bind _ _ _ quiet_safe); [apply token_client_id_quiet|]. intros Γ1 id H1'.
  destruct (negb _ && _); [done|].
  apply (tame_quiet_bind _ _ _ quiet_safe); [apply token_client_quiet|]. intros Γ2 cl H2'.
  destruct (_ && _); [done|].
  apply (tame_quiet_bind _ _ _ quiet_safe); [quiet_walk; apply dpopProofThumbprint_quiet|]. intros Γ3 t H3'.
  apply (tame_quiet_bind _ _ _ quiet_safe).
  { case_match; [apply check_pre_authorized_code_quiet|apply check_authorization_code_quiet]. }
  intros Γ4 [] H4'. apply tame_bind. eapply tame_mono; [apply consume_code_tame|]. intros Γ5 [l|e] Hl; [|done]. cbn in Hl.
  apply (tame_quiet_bind _ _ _ quiet_safe); [apply binding_quiet|]. intros Γ6 [] H6'.
  look. look. destruct (expired _ _); [done|]. look. destruct (_ && _); [done|].
  apply issue_token_tame; [|done]. intros E. specialize (Hl E). recall.
Qed.
End walk.

Section code_once.
Variable c sid0 : string.
Variable pa : bool.
Hypothesis c_nonempty : c ≠ "".
Abbreviation tamed := (tame (has_trait c sid0 pa) (code_learn c) (code_safe c sid0 pa)).

Lemma code_quiet_safe Γ o : brings o = false → code_safe c sid0 pa Γ o.
Proof. by destruct o. Qed.

Ltac look := look_with code_quiet_safe.
Lemma refresh_tame random req Γ : tamed Γ (handleRefreshTokenGrant cfg random req) (on_ok anything).
Proof.
  unfold handleRefreshTokenGrant, burn_jti. destruct (str_empty _); [done|]. destruct (negb _); [done|]. look.
  destruct (ValidateAndParseDPoPJWT _ _) as [dpop|e]; [|done]. destruct (negb _); [done|]. destruct (negb _); [done|].
  look. destruct (negb _); [done|]. apply tame_perform_bind; [done|]. intros [l|e] _; [|done]. cbn [code_learn].
  look. look. destruct (expired _ _); [done|]. apply tame_perform_bind; [done|]. intros d _. cbn [code_learn].
  destruct (Token d) as [tok|]; [|done].
  rewrite (proj2 (stored_known Γ3 l)) by recall. rewrite (bool_decide_eq_true_2 (is_Some (Some tok))) by done.
  cbn [andb app].
  destruct (str_empty _); [done|]. destruct (negb _); [done|]. look. look. look. look. look.
  apply tame_perform_bind; [done|]. intros d' Hd'. specialize (Hd' Spent ltac:(recall)). look. look.
  apply tame_perform_bind; [|intros [[]|e] _].
  - destruct Hd' as (H5 & H6 & H7). split_and!; [done..|]. intros Es _. apply H7; [done|by left].
  - look. look. done.
  - by case_bool_decide.
Qed.

Lemma code_token_tame random uuid req Γ :
  (∀ n, random n ≠ Some sid0) → tamed Γ (OAuthToken cfg evaluator policy random uuid req) (on_ok anything).
Proof using c_nonempty.
  intros Hr. apply (OAuthToken_tame _ _ _ Spent (fun v => v ≠ sid0)); try done; [apply code_quiet_safe| | |intros; apply refresh_tame].
  - intros Γ0 q l. by constructor.
  - intros n v E ->. by destruct (Hr n).
Qed.

(** The requests that present the code, under one grant or the other. *)
Definition presents (req : TokenRequest) : bool :=
  negb (bool_decide (GrantType req = refresh_token)) &&
  bool_decide ((if bool_decide (GrantType req = pre_authorized_code) then PreAuthorizedCode req else tr_Code req) = c).
(** A pre-authorized code presented with a proof of possession: it serves every
    key once. *)
Definition per_key (req : TokenRequest) : bool :=
  pa && bool_decide (GrantType req = pre_authorized_code) && negb (str_empty (DPOP req)).

Abbreviation must := (must_call (has_trait c sid0 pa) (code_learn c)).

Lemma consume_must pre t Γ : pre && negb (str_empty t) = false → must (code_spends c) Γ (consume_code pre c t).
Proof.
  intros E. unfold consume_code. rewrite E. cbn. intros [l|e] _; cbn; [left; by apply bool_decide_eq_true|by right].
Qed.

(** The code of an authorization request is refused under the grant of
    pre-authorized codes. *)
Lemma cross_grant_refused req Γ :
  pa = false → refused (has_trait c sid0 pa) (code_learn c) Γ (check_pre_authorized_code cfg req c).
Proof using c_nonempty.
  intros Hpa. unfold check_pre_authorized_code, lookupCodeBeforeConsuming. intros [l|e] _; right; cbn [code_learn].
  - rewrite by_code_asks by done. intros d Hd. right. specialize (Hd Named ltac:(by left)). cbn in Hd. cbn. rewrite Hd, Hpa. exact I.
  - cbn. by destruct (bool_decide (e = ErrNoDocuments)).
Qed.

(** A request that presents the code goes through the checks of its grant and
    then consumes it. *)
Lemma OAuthToken_walk random uuid req Γ spends :
  presents req = true →
  (GrantType req = pre_authorized_code →
     (∀ Γ, must spends Γ (check_pre_authorized_code cfg req c)) ∨
     (DPOP req = "" ∧ ∀ Γ, must spends Γ (consume_code true c ""))) →
  (GrantType req ≠ pre_authorized_code → ∀ t Γ, must spends Γ (consume_code false c t)) →
  must spends Γ (OAuthToken cfg evaluator policy random uuid req).
Proof.
  unfold presents, OAuthToken. destruct (bool_decide (GrantType req = refresh_token)); [done|]. cbn [negb andb].
  intros Hc%bool_decide_eq_true Hpre Hcode. rewrite Hc.
  apply must_bind_r. intros Γ1 id _. destruct (negb _ && _); [done|].
  apply must_bind_r. intros Γ2 cl _. match goal with |- must_call _ _ _ _ (if ?b then _ else _) => destruct b; [done|] end.
  case_bool_decide as Eg.
  - destruct (Hpre Eg) as [Hp|[Ed Hp]].
    + apply must_bind_r. intros Γ3 t _. by apply must_bind_l.
    + rewrite Ed. change (str_empty "") with true. cbn [negb].
      match goal with |- must_call ?K ?l ?s ?Γ (mret ?x ≫= ?f) => change (must_call K l s Γ (f x)) end.
      cbv beta. apply must_bind_r. intros Γ3 [] _. by apply must_bind_l.
  - apply must_bind_r. intros Γ3 t _. apply must_bind_r. intros Γ4 [] _. apply must_bind_l. by apply Hcode.
Qed.

Lemma cross_grant_token random uuid req :
  presents req = true → pa = false → GrantType req = pre_authorized_code →
  refused (has_trait c sid0 pa) (code_learn c) [] (OAuthToken cfg evaluator policy random uuid req).
Proof using c_nonempty.
  intros Hp Hpa Hg. apply OAuthToken_walk; [done| |done]. intros _. left. intros Γ. by apply cross_grant_refused.
Qed.

Lemma OAuthToken_must random uuid req :
  presents req = true → per_key req = false → must (code_spends c) [] (OAuthToken cfg evaluator policy random uuid req).
Proof using c_nonempty.
  intros Hp Hk. apply OAuthToken_walk; [done| |intros _ t Γ; by apply consume_must]. intros Hg.
  assert (pa = true ∨ pa = false) as [Epa|Epa] by (destruct pa; auto).
  - right. unfold per_key in Hk. rewrite Epa, bool_decide_eq_true_2 in Hk by done. cbn [andb] in Hk.
    apply negb_false_iff, str_empty_true in Hk. split; [done|]. intros Γ. by apply consume_must.
  - left. intros Γ. apply refused_must. by apply cross_grant_refused.
Qed.
End code_once.

(** A request together with the random values it will draw. *)
Definition request : Type := (nat → option string) * (nat → string) * TokenRequest.
Definition token_handler (rq : request) : H TokenResponse :=
  let '(random, uuid, req) := rq in OAuthToken cfg evaluator policy random uuid req.

Definition pending (rqs : list request) : list (thread (result herror TokenResponse)) :=
  (fun rq => mkThread (token_handler rq) []) <$> rqs.
Definition answered (ts : list (thread (result herror TokenResponse))) (i : nat) (a : TokenResponse) : Prop :=
  ∃ log, ts !! i = Some (mkThread (Ret (Ok a)) log).
End token_endpoint.

(** C1: however the token requests [rqs] interleave with each other, with the
    expiry of entries and with other requests, of those that present the code [c]
    of a session at most one is answered with a token, whether it comes under the
    authorization code grant or the pre-authorized code grant; and the code of an
    ordinary session ([pa = false]) never under the latter.  Not counted are the
    requests of a pre-authorized code bound to a key, which serves every key once
    ([per_key]).  Requests of any grant and with any code run beside them.
    Assumed of the rest of the system ([code_env]): it may read, change and write
    back the document the store holds, but what it writes back through a pointer
    that the store has since replaced is forfeited; it changes no document's
    session, code or kind, takes no forfeiture back and adds no token; it gives
    the code to no other session.  And nobody draws the session's identifier
    again. *)
Theorem code_exchanged_once `{Hashes} `{NetURL} `{ProofParser} `{Arch} `{AssertionParser}
    (cfg : config) evaluator policy nested_valid (c sid0 : string) (pa : bool) (w w' : world) (rqs : list request) ts i ri a :
  c ≠ "" → code_inv c sid0 pa false (w_auth w) →
  Forall (fun rq => ∀ n, rq.1.1 n ≠ Some sid0) rqs →
  pool_run nested_valid (code_env c sid0 pa) (w, pending cfg evaluator policy rqs) (w', ts) →
  rqs !! i = Some ri → presents c ri.2 = true → answered ts i a →
  (pa = false → GrantType ri.2 ≠ pre_authorized_code) ∧
  (per_key pa ri.2 = false → ∀ j rj b,
     rqs !! j = Some rj → presents c rj.2 = true → per_key pa rj.2 = false → answered ts j b → i = j ∧ a = b).
Proof.
  intros Hc Hi Hrnd Hrun Hri Hpi [li Hai].
  assert (Forall (fun p => tame (has_trait c sid0 pa) (code_learn c) (code_safe c sid0 pa) [] p (on_ok anything))
            (token_handler cfg evaluator policy <$> rqs)) as Htame.
  { apply Forall_fmap. eapply Forall_impl; [exact Hrnd|]. intros [[rnd uuid] req] Hr. by apply code_token_tame. }
  assert (∀ i rq, rqs !! i = Some rq →
    (token_handler cfg evaluator policy <$> rqs) !! i = Some (token_handler cfg evaluator policy rq)) as Hlook.
  { intros i' rq E. by rewrite list_lookup_fmap, E. }
  assert (pending cfg evaluator policy rqs = (fun p => mkThread p []) <$> (token_handler cfg evaluator policy <$> rqs)) as Ep
    by (rewrite <- list_fmap_compose; done).
  rewrite Ep in Hrun. split.
  - intros Hpa Hg. eapply (never nested_valid (has_trait c sid0 pa) (code_learn c) (code_safe c sid0 pa)
      (fun w => ∃ b, code_inv c sid0 pa b (w_auth w)) (code_env c sid0 pa)); [| |by exists false|exact Htame|exact Hrun|by apply Hlook| |exact Hai].
    + intros now o w1 Γ w2 r [b Hb] H1' H2' H3'. destruct (code_op_step c sid0 pa Hc nested_valid b now o w1 Γ w2 r Hb H1' H2' H3') as (? & _ & ? & ?). eauto.
    + intros now e w1 [b Hb] H1' H2'. destruct (code_env_step c sid0 pa Hc nested_valid b now e w1 Hb H1' H2'). eauto.
    + destruct ri as [[] ?]. by apply cross_grant_token.
  - intros Hki j rj b Hrj Hpj Hkj [lj Haj]. assert (i = j) as ->; [|split; congruence].
    eapply (once nested_valid (has_trait c sid0 pa) (code_learn c) (code_safe c sid0 pa) (code_spends c)
            (fun b w => code_inv c sid0 pa b (w_auth w)) (code_env c sid0 pa)
            (fun b now o w Γ w' r => code_op_step c sid0 pa Hc nested_valid b now o w Γ w' r)
            (fun b now e w => code_env_step c sid0 pa Hc nested_valid b now e w));
      [exact Hi|exact Htame|exact Hrun|by apply Hlook|by apply Hlook| | |exact Hai|exact Haj].
    + destruct ri as [[] ?]. by apply OAuthToken_must.
    + destruct rj as [[] ?]. by apply OAuthToken_must.
Qed.
