(* ===== verification/RefreshSafety.v ===== *)
(** * A refresh token is exchanged once

    However token requests interleave, a refresh token is answered with a new
    one at most once. *)

From stdpp Require Import relations.
From S2P Require Import Prelude GoStrings GoValue Json SdJwt OAuth2 AuthContext AuthStore AuthStoreSteps AuthStoreGrants GenericCache Handlers HandlersSafety TokenEndpoint TokenSafety.

(** ** The rotation of the store *)

Lemma Rotate_cases ttl now old l s s' r :
  RotateRefreshToken ttl now old (Some l) s = (s', r) →
  (is_ok r = false ∧ (s' = s ∨ ∃ sid it, cache s !! sid = Some it ∧ s' = with_cache (insert sid (touch ttl now it)) s)) ∨
  (r = Ok tt ∧ ∃ it, cache s !! SessionID (deref s l) = Some it ∧ RefreshToken (deref s (item_doc it)) = old ∧ old ≠ "" ∧
     s' = with_indices (fun m => put_indices (deref s l) (drop_indices (deref s (item_doc it)) m))
            (with_cache (insert (SessionID (deref s l)) (mkItem l (now + ttl))) s)).
Proof.
  unfold RotateRefreshToken. destruct (str_empty old) eqn:Eo; [intros [= <- <-]; by left; split; [|left]|].
  apply str_empty_false in Eo. unfold mbind at 1, M_bind at 1, gets at 1.
  destruct (str_empty (SessionID (deref s l))); [intros [= <- <-]; by left; split; [|left]|].
  intros [(s1 & sid & [-> Hx]%resolve_index_inv & Hr)|(e & Hr & ->)]%M_bind_inv.
  2:{ left. split; [done|]. left. unfold resolve_index, mbind, M_bind, gets, mret, M_ret, throw in Hr.
      destruct (indices s !! _); by injection Hr as <-. }
  case_bool_decide as Es; cbn [negb] in Hr; [|injection Hr as <- <-; by left; split; [|left]]. subst sid.
  apply M_bind_inv in Hr as [(s1 & l0 & (it & Hit & -> & ->)%get_item_inv & Hr)|(e & Hr & ->)].
  2:{ left. split; [done|]. left. unfold get_item, mbind, M_bind, throw, mret, M_ret in Hr.
      destruct (cache_get _ _ _ _) as [s1 [[l1|]|e1]] eqn:Ec; simplify_eq.
      - apply cache_get_inv in Ec as [[_ ->]|(? & _ & _ & [=] & _)]. done.
      - unfold cache_get in Ec. repeat case_match; simplify_eq. }
  unfold mbind at 1, M_bind at 1, gets at 1 in Hr.
  change (deref (with_cache (insert (SessionID (deref s l)) (touch ttl now it)) s) (item_doc it)) with (deref s (item_doc it)) in Hr.
  case_bool_decide as Eold; cbn [negb] in Hr; [|injection Hr as <- <-; left; split; [done|right; eauto]].
  run Hr. injection Hr as <- <-. right. split; [done|]. exists it. split_and!; try done.
  unfold with_cache, with_indices. cbn. f_equal. by rewrite insert_insert_eq.
Qed.

(** ** One exchange of a refresh token *)

Section refresh.
(** The token and the session it belongs to; a session of one client of a
    pre-authorized code has no code of its own. *)
Variable R sidR : string.
Variable codeless : bool.
Hypothesis R_nonempty : R ≠ "".

(** The session can no longer be redeemed by a code. *)
Definition settled (d : AuthorizationContext) : Prop :=
  if codeless then Code d = "" ∧ RequestURI d = "" else Forfeited d = true.

(** While the token is valid ([b = false]) it is the token of the session and of
    no other; then no document has it.  The session is settled throughout. *)
Definition refresh_doc (b : bool) (sid : string) (d : AuthorizationContext) : Prop :=
  SessionID d = sid ∧ (sid = sidR → settled d) ∧
  if b then RefreshToken d ≠ R else (sid = sidR ↔ RefreshToken d = R).
Definition refresh_key : string := index_key "refresh_token" R.
Definition refresh_session (b : bool) (sid : string) : Prop := b = false ∧ sid = sidR.
Definition elsewhere (sid : string) : Prop := sid ≠ sidR.
(** The keys of the index that matter, and what they may point to. *)
Inductive watched (b : bool) : string → (string → Prop) → Prop :=
| watched_refresh : watched b refresh_key (refresh_session b)
| watched_code x : codeless = true → x ≠ "" → watched b (index_key "code" x) elsewhere
| watched_uri x : codeless = true → x ≠ "" → watched b (index_key "request_uri" x) elsewhere.
Definition refresh_inv (b : bool) (s : store) : Prop := ∀ key S, watched b key S → holds (refresh_doc b) key S s.

(** What a request knows of a document: it has nothing to do with the session;
    it was found by a refresh token; it was found by this one. *)
Inductive role := Foreign | Found | Holder.
Definition known_as (k : role) (d : AuthorizationContext) : Prop :=
  match k with
  | Foreign => RefreshToken d ≠ R ∧ SessionID d ≠ sidR
  | Found => SessionID d = sidR → settled d
  | Holder => RefreshToken d = R
  end.

Definition refresh_learn (Γ : knowledge role) (o : op) : answer o → knowledge role :=
  match o return answer o → knowledge role with
  | OForfeit _ => fun r => match r with Ok l => [(l, Foreign)] | Err _ => [] end
  | OGetByRefreshToken t => fun r =>
      match r with Ok l => (l, Found) :: (if bool_decide (t = R) then [(l, Holder)] else []) | Err _ => [] end
  | _ => fun _ => []
  end.
Definition keeps_away (f : AuthorizationContext → AuthorizationContext) : Prop :=
  ∀ d, SessionID (f d) = SessionID d ∧ (RefreshToken d ≠ R → RefreshToken (f d) ≠ R).
Definition refresh_safe (Γ : knowledge role) (o : op) : Prop :=
  match o with
  | OAssign l f => (l, Foreign) ∈ Γ ∧ keeps_away f
  | OUpdate l => (l, Foreign) ∈ Γ
  | OSave d | OClaimState _ d => known_as Foreign d
  | ORotate _ d => RefreshToken d ≠ R ∧ known_as Found d
  | _ => True
  end.
Definition refresh_spends (o : op) : answer o → bool :=
  match o return answer o → bool with
  | ORotate old _ => fun r => is_ok r && bool_decide (old = R)
  | _ => fun _ => false
  end.

Lemma refresh_doc_edit b sid d d' : edit d d' → refresh_doc b sid d → refresh_doc b sid d'.
Proof. unfold refresh_doc, settled. intros []; destruct b, codeless; cbn; naive_solver. Qed.
Lemma known_as_edit k d d' : edit d d' → known_as k d → known_as k d'.
Proof. unfold known_as, settled. intros []; destruct k, codeless; cbn; tauto. Qed.
Lemma watched_index b key S sid d : watched b key S → refresh_doc b sid d → key ∈ index_keys d → S (SessionID d).
Proof using R_nonempty.
  intros Hw (E & Hset & Hb) Hk. unfold settled in Hset.
  destruct Hw as [|x Hc Hx|x Hc Hx]; apply index_key_field, list_elem_of_In in Hk; try done; cbn in Hk.
  - assert (RefreshToken d = R) as ER by (repeat destruct Hk as [Hk|Hk]; by simplify_eq/=).
    destruct b; [done|]. split; [done|]. rewrite E. by apply Hb.
  - intros Es. rewrite Hc in Hset. destruct Hset as [? ?]; [congruence|]. repeat destruct Hk as [Hk|Hk]; simplify_eq/=; congruence.
  - intros Es. rewrite Hc in Hset. destruct Hset as [? ?]; [congruence|]. repeat destruct Hk as [Hk|Hk]; simplify_eq/=; congruence.
Qed.
Lemma foreign_doc b d : known_as Foreign d → refresh_doc b (SessionID d) d.
Proof. intros [H1 H2]. split; [done|]. split; [done|]. by destruct b. Qed.

Lemma foreign_assign b k f d :
  keeps_away f → known_as Foreign d →
  (∀ sid, refresh_doc b sid d → refresh_doc b sid (f d)) ∧ (known_as k d → known_as k (f d)).
Proof.
  intros Hf Hd. destruct (Hf d) as [E1 E2]. assert (known_as Foreign (f d)) as Hd'.
  { split; [apply E2, Hd|rewrite E1; apply Hd]. }
  split.
  - intros sid [<- _]. rewrite <- E1. by apply foreign_doc.
  - destruct k; [done| |]; cbn; [intros _ E; by destruct Hd'|intros E; by destruct Hd].
Qed.

Variable nested_valid : goval → bool.

Definition is_rotation (o : op) : bool := match o with ORotate _ _ => true | _ => false end.

Lemma refresh_allowed b k Γ s o :
  truths known_as Γ s → refresh_safe Γ o → is_rotation o = false →
  op_allowed (refresh_doc b) (known_as k) s o.
Proof.
  intros Ht Hs Ho. destruct o; cbn in *; try done.
  - destruct Hs as [Hl Hf]. apply (truth_in _ _ _ _ _ Ht) in Hl as [_ Hl]. by apply foreign_assign.
  - by apply foreign_doc.
  - apply (truth_in _ _ _ _ _ Ht) in Hs as [Hn Hl]. split; [done|by apply foreign_doc].
  - exact (foreign_doc b (set_IssuerState "" opened) Hs).
Qed.
(** The index entry of a document that has the token. *)
Lemma refresh_indexed d : RefreshToken d = R → refresh_key ∈ index_keys d.
Proof using R_nonempty.
  intros E. apply index_keys_in; [done|]. rewrite <- E. apply list_elem_of_In. unfold index_fields. cbn. tauto.
Qed.

(** The documents in the store. *)
Lemma refresh_stored b s sid it : refresh_inv b s → cache s !! sid = Some it → good (refresh_doc b) s sid (item_doc it).
Proof. intros Hi. apply (Hi _ _ (watched_refresh b)). Qed.

Lemma holds_touch D key S now sid it s :
  holds D key S s → cache s !! sid = Some it → holds D key S (with_cache (insert sid (touch AuthContextTTL now it)) s).
Proof.
  intros [Hc Hi] Hit. split; [|done]. intros sid' it'. cbn. rewrite lookup_insert_Some. intros [[<- <-]|[_ H']].
  - rewrite touch_doc. by apply (Hc sid it).
  - by apply (Hc sid' it').
Qed.

(** The session's document replaced by [u], its index entries renewed. *)
Definition replaced (now : Z) (u : AuthorizationContext) (l : loc) (d : AuthorizationContext) (s : store) : store :=
  with_indices (fun m => put_indices u (drop_indices d m)) (with_cache (insert (SessionID u) (mkItem l (now + AuthContextTTL))) s).

Lemma replaced_inv b now u l d s :
  (l < next s)%nat → deref s l = u → refresh_doc b (SessionID u) u →
  (∀ sid it, sid ≠ SessionID u → cache s !! sid = Some it → good (refresh_doc b) s sid (item_doc it)) →
  (∀ key S sid, watched b key S → drop_indices d (indices s) !! key = Some sid → S sid) →
  refresh_inv b (replaced now u l d s).
Proof using R_nonempty.
  intros Hl Eu Hdu Hc Hx key S Hw. split.
  - intros sid it'. cbn. rewrite lookup_insert_Some. intros [[<- <-]|[Hne' H']]; [|by apply Hc].
    split; [done|]. unfold deref in Eu |- *. cbn in *. by rewrite Eu.
  - cbn. eapply (put_sound (refresh_doc b) key S); [intros sid d0; by apply watched_index|exact Hdu|]. intros sid. by apply Hx.
Qed.

(** A rotation: of this token, it ends its life; of another, it leaves it. *)
Lemma rotate_inv b now old u s s' r :
  refresh_inv b s → RefreshToken u ≠ R → known_as Found u →
  (l ← alloc u; RotateRefreshToken AuthContextTTL now old (Some l)) s = (s', r) →
  refresh_inv (b || (is_ok r && bool_decide (old = R))) s' ∧ (is_ok r && bool_decide (old = R) = true → b = false).
Proof using R_nonempty.
  intros Hi Hu Hf Hr. set (s1 := fst (alloc u s)).
  assert (deref s1 (next s) = u) as Eu by (unfold deref; cbn; by rewrite lookup_insert_eq).
  assert (refresh_inv b s1) as H1 by (intros key S Hw; by apply (holds_alloc _ (fun _ => True)), Hi).
  change (RotateRefreshToken AuthContextTTL now old (Some (next s)) s1 = (s', r)) in Hr.
  apply Rotate_cases in Hr as [[-> Hs]|(-> & it & Hit & Hold & Hne & ->)].
  { cbn [andb]. rewrite orb_false_r. split; [|done]. destruct Hs as [->|(sid & it & Hit & ->)]; [done|].
    intros key S Hw. by apply holds_touch, Hit; apply H1. }
  cbn [is_ok andb]. rewrite Eu in *. set (d := deref s1 (item_doc it)) in *.
  destruct (refresh_stored b s1 _ _ H1 Hit) as (_ & Ed & _ & Hd). fold d in Ed, Hd.
  change (with_indices _ _) with (replaced now u (next s) d s1).
  destruct (bool_decide_reflect (old = R)) as [->|Hne']; cbn [orb]; rewrite ?orb_true_r, ?orb_false_r.
  - destruct b; [done|]. split; [|done]. apply replaced_inv; [cbn; lia|done|done| |].
    + intros sid it' Hsid H'. destruct (refresh_stored _ _ _ _ H1 H') as (Hn & E & Hf' & Hb). split; [done|]. split_and!; [done..|].
      intros E'. apply Hb in E' as ->. apply Hsid. symmetry. by apply Hd.
    + intros key S sid Hw. destruct Hw as [|x Hc Hx|x Hc Hx].
      * rewrite drop_indices_None; [done|]. right. by apply refresh_indexed.
      * eapply drop_sound, (H1 _ _ (watched_code false x Hc Hx)).
      * eapply drop_sound, (H1 _ _ (watched_uri false x Hc Hx)).
  - split; [|done]. apply replaced_inv; [cbn; lia|done| | |].
    + split_and!; [done..|]. destruct b; [done|]. split; [|done]. intros E. destruct Hne'. rewrite <- Hold. by apply Hd.
    + intros sid it' _ H'. by apply refresh_stored.
    + intros key S sid Hw. eapply drop_sound, (H1 _ _ Hw).
Qed.

(** What is known survives every call, the rotation included. *)
Lemma refresh_truths b now o w Γ Γ' :
  refresh_inv b (w_auth w) → truths known_as Γ (w_auth w) → refresh_safe Γ o →
  truths known_as Γ' (w_auth w) → truths known_as Γ' (w_auth (fst (run_op nested_valid now o w))).
Proof.
  intros Hi Ht Hs. eapply (truths_keep known_as (fun _ _ => True) "" (fun _ => True)).
  intros k. apply run_op_keeps; [done|apply known_as_edit|done| |].
  - split; [|done]. intros sid it Hit. split; [apply (refresh_stored _ _ _ _ Hi Hit)|done].
  - destruct o; cbn in *; try done.
    + destruct Hs as [Hl Hf]. apply (truth_in _ _ _ _ _ Ht) in Hl as [_ Hl]. split; [done|]. exact (proj2 (foreign_assign b k _ _ Hf Hl)).
    + apply (truth_in _ _ _ _ _ Ht) in Hs as [Hn Hl]. done.
Qed.

(** A code never forfeits a settled session. *)
Lemma forfeit_elsewhere b now q s s' l :
  refresh_inv b s → ForfeitAuthorizationCode AuthContextTTL now (Some q) s = (s', Ok l) →
  ∃ sid it', sid ≠ sidR ∧ cache s' !! sid = Some it' ∧ item_doc it' = l.
Proof.
  intros Hi (sid & it & Hit & Hl & Hf & _ & (it' & Hit' & Hl') & Hx & Hu)%Forfeit_inv. exists sid, it'. split; [|done].
  destruct (refresh_stored _ _ _ _ Hi Hit) as (_ & _ & Hset & _). rewrite Hl in Hset. unfold settled in Hset.
  destruct codeless eqn:Ec; [|intros Es; rewrite Hset in Hf; done].
  destruct (decide (Code q = "")) as [E|E].
  - destruct (Hu E) as [Hne Hux]. by apply (Hi _ _ (watched_uri b _ Ec Hne)).
  - by apply (Hi _ _ (watched_code b _ Ec E)), Hx.
Qed.

Lemma refresh_op_step b now o w Γ w' r :
  refresh_inv b (w_auth w) → truths known_as Γ (w_auth w) → refresh_safe Γ o → run_op nested_valid now o w = (w', r) →
  refresh_inv (b || refresh_spends o r) (w_auth w') ∧ (refresh_spends o r = true → b = false) ∧
  (∀ Γ', truths known_as Γ' (w_auth w) → truths known_as Γ' (w_auth w')) ∧
  truths known_as (refresh_learn Γ o r) (w_auth w').
Proof using R_nonempty.
  intros Hi Ht Hs Hr.
  assert (∀ Γ', truths known_as Γ' (w_auth w) → truths known_as Γ' (w_auth w')) as Hkeep.
  { intros Γ' HΓ'. replace w' with (fst (run_op nested_valid now o w)) by (by rewrite Hr).
    exact (refresh_truths b now o w Γ Γ' Hi Ht Hs HΓ'). }
  destruct (is_rotation o) eqn:Ho.
  { destruct o; try done. cbn [refresh_learn refresh_spends]. cbn [run_op] in Hr. unfold on_auth in Hr.
      destruct ((alloc updated ≫= _) _) as [s' r'] eqn:E. injection Hr as <- ->. destruct Hs as [Hs1 Hs2].
      destruct (rotate_inv _ _ _ _ _ _ _ Hi Hs1 Hs2 E). split_and!; [done..|constructor]. }
  assert (refresh_inv b (w_auth w')) as Hi'.
  { replace w' with (fst (run_op nested_valid now o w)) by (by rewrite Hr). intros key S Hw.
    apply (run_op_keeps (refresh_doc b) (fun _ => True) key S);
      [apply (refresh_doc_edit b)|done|intros sid d; by apply watched_index|by apply Hi|].
    pose proof (refresh_allowed b Found _ _ _ Ht Hs Ho) as Ha. destruct o; cbn in *; tauto. }
  destruct o; cbn [refresh_spends refresh_learn]; rewrite ?orb_false_r; first [done|split_and!; [done..|by constructor]|idtac].
  - split_and!; [done..|]. destruct r as [l|e]; [|constructor]. constructor; [|constructor].
    cbn [run_op] in Hr. unfold on_auth in Hr. destruct (ForfeitAuthorizationCode _ _ _ _) as [s' r'] eqn:E.
    injection Hr as <- ->. cbn [w_auth with_auth] in *.
    apply (forfeit_elsewhere b) in E as (sid & it' & Hsid & Hit' & Hl'); [|done].
    destruct (refresh_stored _ _ _ _ Hi' Hit') as [Hn (Es & _ & Hb)]. rewrite Hl' in *. split; [done|]. split; [|intros E; apply Hsid; by rewrite <- Es].
    destruct b; [done|]. by rewrite <- Hb.
  - split_and!; [done..|]. destruct r as [l|e]; [|constructor].
    cbn [run_op] in Hr. unfold on_auth in Hr. destruct (GetByRefreshToken _ _ _ _) as [s' r'] eqn:E.
    injection Hr as <- ->. cbn [w_auth with_auth] in *. apply get_by_inv in E as (sid & it & Hx & Hit & <- & _).
    destruct (refresh_stored _ _ _ _ Hi' Hit) as [Hn (Es & Hf & Hb)].
    constructor; [split; [done|]; cbn; by rewrite Es|]. case_bool_decide as Et; [|constructor]. subst token.
    apply (Hi _ _ (watched_refresh b)) in Hx as [-> ->]. constructor; [|constructor]. split; [done|]. by apply Hb.
Qed.

(** What the rest of the system respects.  A handler that keeps a pointer may
    change the document behind it, but not its session, and it neither gives nor
    takes the token, nor makes the session redeemable again; what it writes back
    is the document the store holds, of a session that is gone (the update is
    refused), or has nothing to do with the token and its session. *)
Definition refresh_env (w : world) (e : env_action) : Prop :=
  match e with
  | EStore a =>
      let s := w_auth w in
      match a with
      | ASave l => current s l ∨ known_as Foreign (deref s l)
      | AUpdate l => current s l ∨ gone s l ∨ known_as Foreign (deref s l)
      | ARotate _ l | AClaimIssuer _ l => known_as Foreign (deref s l)
      | APoke l d =>
          let d0 := deref s l in
          SessionID d = SessionID d0 ∧ (RefreshToken d = R ↔ RefreshToken d0 = R) ∧ (SessionID d0 = sidR → settled d0 → settled d)
      | _ => True
      end
  | _ => True
  end.

Lemma refresh_env_allowed b k w a :
  refresh_inv b (w_auth w) → refresh_env w (EStore a) →
  allowed (refresh_doc b) (known_as k) (w_auth w) a ∨ ∃ l, a = AUpdate l ∧ gone (w_auth w) l.
Proof.
  intros Hi. pose proof (Hi _ _ (watched_refresh b)) as Hh.
  destruct a; cbn [allowed refresh_env]; intros Ha; try (by left); try (left; by apply foreign_doc).
  - left. destruct Ha as [Ha|Ha]; [by apply (current_good _ _ _ _ _ Hh)|by apply foreign_doc].
  - destruct Ha as [Ha|[Ha|Ha]]; [left; by apply (current_good _ _ _ _ _ Hh)|right; eauto|left; by apply foreign_doc].
  - left. exact (foreign_doc b (set_IssuerState "" _) Ha).
  - left. destruct Ha as (E1 & E2 & Hf). unfold refresh_doc. split.
    + intros sid (E & Hset & Hb). rewrite E1. split_and!; [done|naive_solver|]. destruct b; rewrite E2; done.
    + destruct k; cbn; rewrite ?E1, ?E2; auto.
Qed.

Lemma refresh_env_step b now e w :
  refresh_inv b (w_auth w) → env_valid w e → refresh_env w e →
  refresh_inv b (w_auth (exec_env nested_valid now e w)) ∧
  ∀ Γ, truths known_as Γ (w_auth w) → truths known_as Γ (w_auth (exec_env nested_valid now e w)).
Proof using R_nonempty.
  intros Hi Hv He.
  assert (∀ k key S, watched b key S → keeps (refresh_doc b) (known_as k) key S (w_auth w)
                 (w_auth (exec_env nested_valid now e w))) as Hk.
  { intros k key S Hw. specialize (Hi _ _ Hw) as Hh.
    destruct e as [a|d|a|a|a|a]; cbn [exec_env w_auth with_auth]; [|by apply holds_alloc|by apply keeps_refl..].
    destruct (refresh_env_allowed b k w a Hi He) as [Ha|(l & -> & Hg)].
    - apply (exec_keeps _ _ _ _ (refresh_doc_edit b) (known_as_edit k) (fun sid d => watched_index b key S sid d Hw) AuthContextTTL nested_valid now a);
        done.
    - cbn [AuthStoreSteps.exec]. rewrite Update_gone by done. by apply keeps_refl. }
  split; [intros key S Hw; apply (Hk Found key S Hw)|]. eapply truths_keep. intros k. apply (Hk k _ _ (watched_refresh b)).
Qed.
End refresh.

(** ** The token endpoint *)

Section token_endpoint.
Context `{Hashes} `{NetURL} `{ProofParser} `{Arch} `{AssertionParser}.
Variable cfg : config.
Variable evaluator : option (string → string → string → option attestation).
Variable policy : string → string → string → bool.
Variable R sidR : string.
Variable codeless : bool.
Hypothesis R_nonempty : R ≠ "".
Abbreviation tamed := (tame (known_as R sidR codeless) (refresh_learn R) (refresh_safe R sidR codeless)).

Lemma refresh_quiet_safe Γ o : brings o = false → refresh_safe R sidR codeless Γ o.
Proof. by destruct o. Qed.

Ltac look := look_with refresh_quiet_safe.
Lemma rotation_tame random req Γ :
  (∀ n, random n ≠ Some R) → tamed Γ (handleRefreshTokenGrant cfg random req) (on_ok anything).
Proof.
  intros Hr. unfold handleRefreshTokenGrant, burn_jti. destruct (str_empty _); [done|]. destruct (negb _); [done|]. look.
  destruct (ValidateAndParseDPoPJWT _ _) as [dpop|e]; [|done]. destruct (negb _); [done|]. destruct (negb _); [done|].
  look. destruct (negb _); [done|]. apply tame_perform_bind; [done|]. intros [l|e] _; [|done]. cbn [refresh_learn].
  look. look. destruct (expired _ _); [done|]. look. destruct (Token _) as [tok|]; [|done].
  destruct (str_empty _); [done|]. destruct (negb _); [done|]. look. apply drawn_tame. intros token Etoken. look. look. look.
  apply tame_perform_bind; [done|]. intros d Hd. specialize (Hd Found ltac:(recall)). look. look.
  apply tame_perform_bind; [|intros [[]|e] _].
  - split; [|done]. cbn. intros ->. by destruct (Hr 1%nat).
  - look. look. done.
  - cbn [refresh_learn app]. by destruct (bool_decide (e = _)).
Qed.
Lemma refresh_token_tame random uuid req Γ :
  (∀ n, random n ≠ Some R ∧ random n ≠ Some sidR) →
  tamed Γ (OAuthToken cfg evaluator policy random uuid req) (on_ok anything).
Proof using R_nonempty.
  intros Hr.
  apply (OAuthToken_tame _ _ _ _ _ _ Foreign (fun v => v ≠ R ∧ v ≠ sidR)); try done.
  - apply refresh_quiet_safe.
  - intros Γ0 q l. by constructor.
  - intros Γ0 l v Hl Hv. split; [done|]. intros d. split; [done|]. cbn. naive_solver.
  - intros. split; cbn; naive_solver.
  - intros n v E. destruct (Hr n). split; congruence.
  - intros Γ0. apply rotation_tame. intros n. apply Hr.
Qed.

(** A request that uses the token has rotated it when it succeeds. *)
Lemma refresh_must random uuid req Γ :
  GrantType req = refresh_token → tr_RefreshToken req = R →
  must_call (known_as R sidR codeless) (refresh_learn R) (refresh_spends R) Γ (OAuthToken cfg evaluator policy random uuid req).
Proof.
  intros Hg Ht. unfold OAuthToken. rewrite bool_decide_eq_true_2 by done. unfold handleRefreshTokenGrant, burn_jti.
  destruct (str_empty _); [done|]. destruct (negb _); [done|]. apply must_bind_r. intros Γ1 now _.
  destruct (ValidateAndParseDPoPJWT _ _) as [dpop|e]; [|done]. destruct (negb _); [done|]. destruct (negb _); [done|].
  apply must_bind_r. intros Γ2 u _. destruct (negb _); [done|].
  apply must_perform. intros [l|e] _; [|done]. cbn [refresh_learn]. rewrite Ht, bool_decide_eq_true_2 by done. cbn [app].
  apply must_bind_r. intros Γ3 d1 S3. apply must_bind_r. intros Γ4 t1 S4. destruct (expired _ _); [done|].
  apply must_bind_r. intros Γ5 d2 S5. destruct (Token d2) as [tok|]; [|done].
  destruct (str_empty _); [done|]. destruct (negb _); [done|].
  apply must_bind_r. intros Γ6 s1 S6. apply must_bind_r. intros Γ7 s2 S7. apply must_bind_r. intros Γ8 s3 S8.
  apply must_bind_r. intros Γ9 [] S9. apply must_perform. intros old Hold. specialize (Hold Holder ltac:(recall)).
  cbn in Hold. rewrite Hold. apply must_bind_r. intros Γ10 d3 S10. apply must_bind_r. intros Γ11 t2 S11.
  apply must_bind_r. intros Γ12 t3 S12. intros [[]|e] _; cbn; [left; by apply bool_decide_eq_true|right].
  by destruct (bool_decide (e = _)).
Qed.
End token_endpoint.

(** C2: however the token requests [rqs] interleave with each other and with other
    requests, of those that present the refresh token [R] of a session at most one
    is answered.  The session is one whose code was exchanged ([codeless = false])
    or that of a client of a pre-authorized code, which has no code.  Assumed of
    the rest of the system ([refresh_env]): it may read, change and write back the
    document the store holds, but writes no document of the session back through a
    pointer the store has since replaced, as a handler would that kept one across
    the rotation; it gives no document the token and does not make the session
    redeemable by a code again.  And nobody draws the token or the session's
    identifier again. *)
Theorem refresh_token_exchanged_once `{Hashes} `{NetURL} `{ProofParser} `{Arch} `{AssertionParser}
    (cfg : config) evaluator policy nested_valid (R sidR : string) (codeless : bool) (w w' : world) (rqs : list request) ts i j ri rj a b :
  R ≠ "" → refresh_inv R sidR codeless false (w_auth w) →
  Forall (fun rq => ∀ n, rq.1.1 n ≠ Some R ∧ rq.1.1 n ≠ Some sidR) rqs →
  pool_run nested_valid (refresh_env R sidR codeless) (w, pending cfg evaluator policy rqs) (w', ts) →
  rqs !! i = Some ri → rqs !! j = Some rj →
  GrantType ri.2 = refresh_token ∧ tr_RefreshToken ri.2 = R → GrantType rj.2 = refresh_token ∧ tr_RefreshToken rj.2 = R →
  answered ts i a → answered ts j b →
  i = j ∧ a = b.
Proof.
  intros HR Hi Hrnd Hrun Hri Hrj [Hgi Hti] [Hgj Htj] [li Hai] [lj Haj].
  assert (i = j) as ->; [|split; congruence].
  eapply (once nested_valid (known_as R sidR codeless) (refresh_learn R) (refresh_safe R sidR codeless) (refresh_spends R)
            (fun b w => refresh_inv R sidR codeless b (w_auth w)) (refresh_env R sidR codeless)
            (fun b now o w Γ w' r => refresh_op_step R sidR codeless HR nested_valid b now o w Γ w' r)
            (fun b now e w => refresh_env_step R sidR codeless HR nested_valid b now e w)
            w (token_handler cfg evaluator policy <$> rqs)); [done| | | | | | |done|done].
  - apply Forall_fmap. eapply Forall_impl; [exact Hrnd|]. intros [[rnd uuid] req] Hr. by apply refresh_token_tame.
  - unfold pending in Hrun. rewrite <- list_fmap_compose. exact Hrun.
  - rewrite list_lookup_fmap. exact (f_equal (fmap _) Hri).
  - rewrite list_lookup_fmap. exact (f_equal (fmap _) Hrj).
  - destruct ri as [[] ?]. by apply refresh_must.
  - destruct rj as [[] ?]. by apply refresh_must.
Qed.
