(* ===== verification/TokenGrant.v ===== *)
(** * What the token endpoint answers to an authorization code

    One request alone, against a store in which the code names a document: which
    answer it gets, what it costs the code, and what the store holds afterwards,
    as a function of the document and the request. *)

From S2P Require Import Prelude GoStrings GoValue Json SdJwt OAuth2 AuthContext AuthStore AuthStoreSteps AuthStoreGrants GenericCache Handlers TokenEndpoint.

(** ** Runs of one handler *)

Section runs.
Variable nested_valid : goval → bool.
Variable clock : nat → Z.

(** [Q] holds of the number of calls made, the stores and the answer. *)
Fixpoint wpp {A} (n : nat) (p : prog A) (Q : nat → world → A → Prop) (w : world) : Prop :=
  match p with
  | Ret a => Q n w a
  | Do o k => let '(w, r) := run_op nested_valid (clock n) o w in wpp (S n) (k r) Q w
  end.

Lemma wpp_exec {A} n (p : prog A) (Q : world → A → Prop) w :
  wpp n p (fun _ => Q) w → let '(w', a) := exec nested_valid clock n p w in Q w' a.
Proof. revert n w. induction p as [a|o k IH]; intros n w; cbn; [done|]. destruct (run_op _ _ _ _). apply IH. Qed.

Lemma wpp_bind {E A B} n (m : handler E A) (f : A → handler E B) Q w :
  wpp n m (fun n w r => match r with Ok a => wpp n (f a) Q w | Err e => Q n w (Err e) end) w → wpp n (m ≫= f) Q w.
Proof.
  unfold mbind, handler_bind. revert n w. induction m as [[a|e]|o k IH]; intros n w; cbn; [done..|].
  destruct (run_op _ _ _ _). apply IH.
Qed.

Lemma wpp_run {E B} n o (f : answer o → handler E B) Q w w' r :
  run_op nested_valid (clock n) o w = (w', r) → wpp (S n) (f r) Q w' → wpp n (perform o ≫= f) Q w.
Proof. intros E1 HQ. cbn. by rewrite E1. Qed.

Lemma wpp_call {E} n o (Q : nat → world → result E (answer o) → Prop) w w' r :
  run_op nested_valid (clock n) o w = (w', r) → Q (S n) w' (Ok r) → wpp n (perform o) Q w.
Proof. intros E1 HQ. cbn. by rewrite E1. Qed.

Lemma wpp_now {E B} n (f : Z → handler E B) Q w : wpp (S n) (f (clock n)) Q w → wpp n (perform ONow ≫= f) Q w.
Proof. done. Qed.
End runs.

(** ** The calls on a document that a code names *)

Section calls.
Variable nested_valid : goval → bool.
Variable clock : nat → Z.
(** The request takes less time than an entry lives. *)
Hypothesis brisk : ∀ m n, clock m ≤ clock n + AuthContextTTL.
Variable code : string.
Variable l : loc.

Definition on (w : world) (d : AuthorizationContext) : Prop :=
  deref (w_auth w) l = d ∧ ∀ m, names AuthContextTTL (clock m) code (w_auth w) l.

Lemma brisk_within m n : within AuthContextTTL (clock n) (clock m).
Proof using brisk. right. apply brisk. Qed.

Lemma on_rewritten n w d d' s' w' :
  on w d → rewritten AuthContextTTL (clock n) (w_auth w) l d' s' → Code d' = Code d → SessionID d' = SessionID d →
  on (with_auth s' w') d'.
Proof using brisk.
  intros [Hd Hn] Hr Hc Hs. split; [apply Hr|]. intros m. cbn.
  apply (rewritten_names AuthContextTTL (clock n) (clock m) code (w_auth w) l d' s'); try done; [apply brisk_within| |congruence].
  destruct (Hn n) as (_ & Hc' & _). congruence.
Qed.

Lemma wpp_load {E B} n (f : AuthorizationContext → handler E B) Q w d :
  on w d → wpp nested_valid clock (S n) (f d) Q w → wpp nested_valid clock n (perform (OLoad l) ≫= f) Q w.
Proof. intros [<- _]. done. Qed.

Lemma run_get n w d :
  on w d →
  ∃ w', run_op nested_valid (clock n) (OGet (by_code code)) w = (w', Ok l) ∧ on w' d ∧ w_jti w' = w_jti w.
Proof using brisk.
  intros Ho. destruct (names_lookup _ _ _ _ _ (proj2 Ho n)) as (it & Hl & Er & Eg & _).
  destruct (proj2 Ho n) as (Hne & _). apply str_empty_false in Hne.
  eexists (with_auth _ _). split; [|split; [|done]].
  - cbn [run_op]. unfold on_auth, AuthStore.Get, getLocked, resolveSessionIDLocked, mbind, M_bind.
    change (SessionID (by_code code)) with "". change (str_empty "") with true. cbv iota.
    rewrite resolve_loop_first. replace (first_field (resolve_fields (by_code code))) with (Some ("code", code))
      by (cbn; by rewrite Hne).
    rewrite Er, Eg. reflexivity.
  - eapply (on_rewritten n w d d); try done. rewrite <- (proj1 Ho). by apply rewritten_touched.
Qed.
Lemma run_forfeit n w d :
  on w d →
  ∃ w', run_op nested_valid (clock n) (OForfeit (by_code code)) w =
          (w', if Forfeited d then Err ErrForfeited else Ok l) ∧
        on w' (if Forfeited d then d else set_Forfeited true d).
Proof using brisk.
  intros Ho. destruct (names_lookup _ _ _ _ _ (proj2 Ho n)) as (it & Hl & Er & Eg & Ed).
  destruct (proj2 Ho n) as (Hne & _). apply str_empty_false in Hne. pose proof (proj1 Ho) as Hd.
  cbn [run_op]. unfold on_auth, ForfeitAuthorizationCode, mbind, M_bind.
  change (Code (by_code code)) with code. rewrite Hne. cbn [negb]. rewrite Er, Eg. unfold gets, throw. rewrite Ed, Hd.
  destruct (Forfeited d) eqn:Ef; (eexists (with_auth _ _); split; [reflexivity|]).
  - eapply (on_rewritten n w d d); try done. rewrite <- Hd. by apply rewritten_touched.
  - eapply (on_rewritten n w d (set_Forfeited true d)); try done. split_and!.
    + unfold deref. cbn. rewrite lookup_insert_eq. cbn. unfold deref in Hd. by rewrite Hd.
    + eexists. cbn. rewrite <- Hd, lookup_insert_eq. split_and!; [done|done|by left].
    + right. cbn. rewrite <- Hd. unfold deref. cbn. by rewrite lookup_insert_eq.
Qed.

Lemma run_assign n w d f :
  on w d → SessionID (f d) = SessionID d → Code (f d) = Code d →
  ∃ w', run_op nested_valid (clock n) (OAssign l f) w = (w', tt) ∧ on w' (f d).
Proof.
  intros [Hd Hn] Hs Hc. eexists. split; [reflexivity|]. rewrite Hd. split; [apply deref_write|]. intros m. cbn.
  destruct (Hn m) as (Hne & Hc' & it & Hx & Hit & Hl & Hlive). rewrite Hd in *. split; [done|]. rewrite deref_write, Hs, Hc.
  split; [done|]. by exists it.
Qed.

Lemma run_nonce n w d v : on w d → ∃ w', run_op nested_valid (clock n) (ONonceSet v) w = (w', tt) ∧ on w' d.
Proof. intros Ho. eexists. split; [reflexivity|]. exact Ho. Qed.

(** A proof is accepted unless its identifier is remembered. *)
Lemma run_jti n w d key :
  on w d → ∃ w', run_op nested_valid (clock n) (OJTI key 0) w =
                   (w', negb (bool_decide (is_Some (MemoryCache.lookup_live (clock n) key (w_jti w))))) ∧ on w' d.
Proof.
  intros Ho. cbn [run_op]. unfold MemoryCache.SetNXWithTTL, MemoryCache.SetNX, MemoryCache.GetOrSet.
  destruct (MemoryCache.lookup_live _ _ _) as [e|]; cbn; eexists; (split; [reflexivity|exact Ho]).
Qed.

(** Writing the document back indexes it under every field it now has. *)
Definition indexed (w : world) (d : AuthorizationContext) : Prop :=
  ∀ k, k ∈ index_keys d → indices (w_auth w) !! k = Some (SessionID d).

Lemma run_update n w d :
  on w d →
  ∃ w' r, run_op nested_valid (clock n) (OUpdate l) w = (w', r) ∧ on w' d ∧
    r = (if str_empty (SessionID d) then Err ErrEmpty else if Validate nested_valid d then Ok tt else Err ErrValidation) ∧
    (r = Ok tt → indexed w' d).
Proof using brisk.
  intros Ho. destruct (names_lookup _ _ _ _ _ (proj2 Ho n)) as (it & Hl & _ & Eg & Ed). pose proof (proj1 Ho) as Hd.
  cbn [run_op]. unfold on_auth, Update, mbind, M_bind. unfold gets at 1. rewrite Hd.
  destruct (str_empty (SessionID d)) eqn:Hs; [eexists (with_auth _ _), _; by split_and!|].
  destruct (Validate nested_valid d) eqn:Hv; [|eexists (with_auth _ _), _; by split_and!]. cbn [negb]. rewrite Hd in Eg, Ed. rewrite Eg. unfold gets, deleteIndices, cache_set, updateIndices, modify. rewrite Ed.
  eexists (with_auth _ _), _. split; [reflexivity|]. set (s1 := with_cache _ _).
  assert (Code d ≠ "") as Hc. { destruct (proj2 Ho n) as (Hne & Hc & _). rewrite Hd in Hc. congruence. }
  assert (∀ k, k ∈ index_keys d → indices (with_indices (put_indices d) s1) !! k = Some (SessionID d)) as Hx
    by (intros k Hk; cbn; by apply put_indices_in).
  split; [|split; [done|intros _; exact Hx]]. split; [exact Hd|]. intros m. destruct (proj2 Ho m) as (Hne & Hc' & _). rewrite Hd in Hc'. split; [done|].
  cbn [w_auth with_auth]. change (deref (with_indices (put_indices d) s1) l) with (deref (w_auth w) l). rewrite Hd. split; [done|].
  eexists (mkItem l _). split_and!; [|cbn; by rewrite lookup_insert_eq|done|].
  - rewrite <- Hc'. apply Hx, index_keys_in; [done|]. apply list_elem_of_In. cbn. tauto.
  - unfold live. rewrite (bool_decide_eq_false_2 (_ < _)); [apply orb_true_r|]. cbn [item_expires]. pose proof (brisk m n). lia.
Qed.
End calls.

(** ** The verdict on a code *)

Section verdict.
Context `{Hashes} `{NetURL} `{ProofParser} `{Arch} `{AssertionParser}.
Variable cfg : config.
Variable evaluator : option (string → string → string → option attestation).
Variable policy : string → string → string → bool.
Variable nested_valid : goval → bool.
Variable clock : nat → Z.
Hypothesis brisk : ∀ m n, clock m ≤ clock n + AuthContextTTL.

(** The request: of a registered client that names itself, if it does, by its
    identifier alone. *)
Variable req : TokenRequest.
Variable client : Client.
Record from_client : Prop := {
  fc_grant : GrantType req = authorization_code;
  fc_registered : tr_ClientID req ≠ "" → OAuth2.Get (ConfiguredClients cfg) (tr_ClientID req) = Ok client;
  fc_no_assertion : tr_ClientAssertion req = "" ∧ ClientAssertionType req = ""
}.

Definition oauth_error (e : OAuthError) : herror := HOAuth (ErrorCode e) (HTTPStatus e).

(** What refuses the request before its proof is looked at. *)
Definition request_verdict : option herror :=
  if str_empty (tr_ClientID req) then Some (HOAuth ErrCodeInvalidRequest 400) else
  if bool_decide (c_Type client = ClientTypePublic) && str_empty (CodeVerifier req) then Some (oauth_error OAuthErrPKCERequired) else
  if str_empty (DPOP req) then Some (oauth_error OAuthErrDPoPRequired) else None.

(** The key of the proof, or what refuses it; [used] are the identifiers of the
    proofs seen. *)
Definition proof_verdict (used : gmap string (entry bool)) : result herror string :=
  match ValidateAndParseDPoPJWT (clock 0%nat) (DPOP req) with
  | Err _ => Err (HOAuth ErrCodeInvalidDPoPProof 400)
  | Ok proof =>
      if bool_decide (is_Some (MemoryCache.lookup_live (clock 1%nat) (JTI proof) used)) then Err (oauth_error OAuthErrJTIReplay) else
      if SameHTU (HTU proof) (TokenEndpoint cfg) && bool_decide (HTM proof = "POST") then Ok (Thumbprint proof)
      else Err (HOAuth ErrCodeInvalidDPoPProof 400)
  end.

(** What refuses the code: the error, and whether the code is spent by it. *)
Definition code_verdict (t : string) (d : AuthorizationContext) (now : Z) : option (herror * bool) :=
  let grant b := Some (HOAuth ErrCodeInvalidGrant 400, b) in
  if PreAuthorized (other d) then grant false else
  if negb (str_empty (WalletClientID d)) && negb (bool_decide (tr_ClientID req = WalletClientID d)) then grant false else
  if negb (str_empty (WalletURI d)) && negb (bool_decide (tr_RedirectURI req = WalletURI d)) then grant false else
  if negb (str_empty (AuthSessionDPoPThumbprint d)) && negb (bool_decide (AuthSessionDPoPThumbprint d = t)) then grant false else
  if Forfeited d then grant false else
  if expired (ExpiresAt d) now then Some (oauth_error OAuthErrExpiredRequest, true) else
  if negb (is_ok (ValidatePKCE (CodeVerifier req) (CodeChallenge d) (CodeChallengeMethod d))) then grant true else None.

(** The document with its token: an access token bound to the key of the proof,
    and with it a refresh token if there is one. *)
Definition issued_document (uuid : nat → string) (t : string) (d : AuthorizationContext) (access refresh : string) (now now' : Z) :
    AuthorizationContext :=
  let details := identified uuid (AuthorizationDetails (other d)) in
  let d := set_RefreshToken refresh
             (set_Token (Some (mkToken access (unix (now + tokenTTL * second)) t)) (set_Forfeited true d)) in
  let d := if str_empty refresh then d
           else set_RefreshTokenExpiresAt (unix (now' + RefreshTokenDuration cfg * second)) d in
  match details with [] => d | _ => set_AuthorizationDetails details d end.

(** Refresh tokens are drawn where the configuration grants them. *)
Definition refreshing (t : string) : bool := bool_decide (refresh_token ∈ GrantTypes cfg) && negb (str_empty t).

Definition token_answer (uuid : nat → string) (t : string) (d : AuthorizationContext) (access refresh scope : string) : TokenResponse :=
  mkTokenResponse access tokenTTL scope (State d) (Nonce (other d)) 3600
    (identified uuid (AuthorizationDetails (other d))) refresh (if refreshing t then RefreshTokenDuration cfg else 0).

Variable random : nat → option string.
Variable uuid : nat → string.

(** The answer, and the document afterwards.  Once the code is spent it stays
    spent, also when a token cannot be drawn, the session has no scope, or the
    document with its tokens is not valid: that one is in the store already, but
    not under its tokens. *)
Definition issue_outcome (t : string) (d : AuthorizationContext) : result herror TokenResponse * AuthorizationContext :=
  match random 0%nat, Scopes (other d), (if refreshing t then random 1%nat else Some "") with
  | None, _, _ => (Err HInternal, set_Forfeited true d)
  | Some _, [], _ => (Err HPanic, set_Forfeited true d)
  | Some _, _ :: _, None => (Err HInternal, set_Forfeited true d)
  | Some access, scope :: _, Some refresh =>
      let d' := issued_document uuid t d access refresh (clock 16%nat) (clock 19%nat) in
      (if str_empty (SessionID d) then Err (HStore ErrEmpty)
       else if Validate nested_valid d' then Ok (token_answer uuid t d access refresh scope) else Err (HStore ErrValidation), d')
  end.

Definition grant_outcome (used : gmap string (entry bool)) (d : AuthorizationContext) :
    result herror TokenResponse * AuthorizationContext :=
  match request_verdict, proof_verdict used with
  | Some e, _ | None, Err e => (Err e, d)
  | None, Ok t =>
      match code_verdict t d (clock 10%nat) with
      | Some (e, spent) => (Err e, if spent then set_Forfeited true d else d)
      | None => issue_outcome t d
      end
  end.

Variable code : string.
Variable l : loc.
Variable w : world.
Variable d : AuthorizationContext.
Hypothesis Hreq : from_client.
Hypothesis Hcode : tr_Code req = code.
Hypothesis Hon : on clock code l w d.

Abbreviation wp := (wpp nested_valid clock).

(** The proof is spent even where it is refused. *)
Lemma wp_proof Q (f : string → H TokenResponse) :
  (∀ n w', on clock code l w' d →
     match proof_verdict (w_jti w) with Ok t => n = 2%nat → wp n (f t) Q w' | Err e => Q n w' (Err e) end) →
  wp 0 (dpopProofThumbprint (DPOP req) (TokenEndpoint cfg) ≫= f) Q w.
Proof using Hon.
  intros HQ. apply wpp_bind. unfold dpopProofThumbprint, burn_jti. apply wpp_now. unfold proof_verdict in HQ.
  destruct (ValidateAndParseDPoPJWT _ _) as [proof|e]; [|by apply HQ].
  destruct (run_jti nested_valid clock code l 1 w d (JTI proof) Hon) as (w' & Er & Ho).
  eapply wpp_run; [exact Er|]. rewrite negb_involutive. destruct (bool_decide (is_Some _)); [by apply HQ|].
  destruct (SameHTU _ _); [|by apply HQ]. destruct (bool_decide (HTM proof = _)); by apply HQ.
Qed.
(** From the checks to the point where a token is issued. *)
Definition from_code (t : string) : H TokenResponse :=
  _ ← check_authorization_code req code (tr_ClientID req) t;
  l ← consume_code false code t;
  _ ← checkInteractiveAuthorizationBinding (Some l) t;
  d ← perform (OLoad l);
  now ← perform ONow;
  if expired (ExpiresAt d) now then refuse_with OAuthErrExpiredRequest else
  d ← perform (OLoad l);
  if negb (is_ok (ValidatePKCE (CodeVerifier req) (CodeChallenge d) (CodeChallengeMethod d))) then refuse ErrCodeInvalidGrant 400 else
  issue_token cfg random uuid false t l.

Lemma wp_binding n w' d' t Q :
  on clock code l w' d' →
  Q (S n) w' (if negb (str_empty (AuthSessionDPoPThumbprint d')) && negb (bool_decide (AuthSessionDPoPThumbprint d' = t))
              then Err (HOAuth ErrCodeInvalidGrant 400) else Ok tt) →
  wp n (checkInteractiveAuthorizationBinding (Some l) t) Q w'.
Proof.
  intros Ho HQ. unfold checkInteractiveAuthorizationBinding, load. eapply wpp_load; [exact Ho|].
  destruct (str_empty _); [exact HQ|]. destruct (bool_decide _); exact HQ.
Qed.

Lemma wp_from_code n w' t Q :
  on clock code l w' d →
  match code_verdict t d (clock (8 + n)) with
  | Some (e, spent) => ∀ n' w'', on clock code l w'' (if spent then set_Forfeited true d else d) → Q n' w'' (Err e)
  | None => ∀ w'', on clock code l w'' (set_Forfeited true d) →
      wp (10 + n) (issue_token cfg random uuid false t l) Q w''
  end → wp n (from_code t) Q w'.
Proof using brisk.
  intros Ho HQ. unfold from_code, code_verdict in *. apply wpp_bind. unfold check_authorization_code, lookupCodeBeforeConsuming.
  apply wpp_bind. destruct (run_get nested_valid clock brisk code l n w' d Ho) as (w1 & Er & Ho1 & _).
  eapply wpp_run; [exact Er|]. cbn [wpp mret handler_ret]. unfold load.
  eapply wpp_load; [exact Ho1|]. destruct (PreAuthorized _); [by apply HQ|].
  eapply wpp_load; [exact Ho1|]. destruct (negb _ && _); [by apply HQ|].
  eapply wpp_load; [exact Ho1|]. destruct (negb _ && _); [by apply HQ|].
  eapply wp_binding; [exact Ho1|]. destruct (negb _ && _) eqn:Eb; [by apply HQ|].
  apply wpp_bind. unfold consume_code. cbn [andb].
  destruct (run_forfeit nested_valid clock brisk code l (5 + n) w1 d Ho1) as (w2 & Ef & Ho2).
  eapply wpp_run; [exact Ef|]. destruct (Forfeited d) eqn:Efd; [by apply HQ|]. cbn [wpp mret handler_ret].
  apply wpp_bind. eapply wp_binding; [exact Ho2|].
  change (AuthSessionDPoPThumbprint (set_Forfeited true d)) with (AuthSessionDPoPThumbprint d). rewrite Eb.
  eapply wpp_load; [exact Ho2|]. apply wpp_now. change (ExpiresAt (set_Forfeited true d)) with (ExpiresAt d).
  destruct (expired _ _); [by apply HQ|]. eapply wpp_load; [exact Ho2|]. cbn [CodeChallenge CodeChallengeMethod set_Forfeited].
  destruct (is_ok (ValidatePKCE _ _ _)); by apply HQ.
Qed.
(** The assignments that depend on there being something to assign. *)
Lemma wp_expiry n w' d' refresh Q :
  on clock code l w' d' →
  (∀ n' w'', on clock code l w'' (if str_empty refresh then d' else
       set_RefreshTokenExpiresAt (unix (clock n + RefreshTokenDuration cfg * second)) d') → Q n' w'' (Ok tt)) →
  wp n ((if str_empty refresh then mret tt else now ← perform ONow;
         perform (OAssign l (set_RefreshTokenExpiresAt (unix (now + RefreshTokenDuration cfg * second))))) : H unit) Q w'.
Proof.
  intros Ho HQ. destruct (str_empty refresh); [by apply HQ|]. apply wpp_now.
  destruct (run_assign nested_valid clock code l (S n) w' d'
    (set_RefreshTokenExpiresAt (unix (clock n + RefreshTokenDuration cfg * second))) Ho eq_refl eq_refl) as (w4 & E4 & Ho4).
  eapply (wpp_call nested_valid clock _ (OAssign l _)); [exact E4|]. by apply HQ.
Qed.

Lemma wp_details n w' d' details Q :
  on clock code l w' d' →
  (∀ n' w'', on clock code l w'' (match details with [] => d' | _ => set_AuthorizationDetails details d' end) → Q n' w'' (Ok tt)) →
  wp n ((match details with [] => mret tt | _ => perform (OAssign l (set_AuthorizationDetails details)) end) : H unit) Q w'.
Proof.
  intros Ho HQ. destruct details as [|ad ads]; [by apply HQ|].
  destruct (run_assign nested_valid clock code l n w' d' (set_AuthorizationDetails (ad :: ads)) Ho eq_refl eq_refl) as (w4 & E4 & Ho4).
  eapply (wpp_call nested_valid clock _ (OAssign l _)); [exact E4|]. by apply HQ.
Qed.

(** What every branch ends in. *)
Definition reached (o : result herror TokenResponse * AuthorizationContext) (_ : nat) (w' : world) (r : result herror TokenResponse) : Prop :=
  r = fst o ∧ on clock code l w' (snd o) ∧ (is_ok r = true → indexed w' (snd o)).

Lemma refused_reached e n w' d' : on clock code l w' d' → reached (Err e, d') n w' (Err e).
Proof. done. Qed.

Lemma wp_issue w' t :
  on clock code l w' (set_Forfeited true d) →
  wp 12 (issue_token cfg random uuid false t l) (reached (issue_outcome t d)) w'.
Proof using brisk.
  intros Ho. unfold issue_token, issue_outcome. apply wpp_bind. unfold GenerateSecureToken at 1.
  destruct (random 0%nat) as [access|]; [|by apply refused_reached]. cbn [wpp].
  eapply wpp_load; [exact Ho|]. apply wpp_bind. change (other (set_Forfeited true d)) with (other d).
  destruct (Scopes (other d)) as [|scope scopes]; [by apply refused_reached|]. cbn [first_scope wpp mret handler_ret].
  apply wpp_bind. fold (refreshing t).
  assert ((if refreshing t then GenerateSecureToken random 1%nat else mret "") =
    (match (if refreshing t then random 1%nat else Some "") with Some v => mret v | None => fail HInternal end : H string)) as Eg
    by (unfold GenerateSecureToken; by destruct (refreshing t)).
  rewrite Eg. destruct (if refreshing t then random 1%nat else Some "") as [refresh|]; [|by apply refused_reached].
  cbn [wpp mret handler_ret].
  eapply wpp_bind, wpp_load; [exact Ho|].
  destruct (run_nonce nested_valid clock code l 14 w' _ (Nonce (other (set_Forfeited true d))) Ho) as (w1 & E1 & Ho1).
  eapply (wpp_call nested_valid clock _ (ONonceSet _)); [exact E1|]. eapply wpp_load; [exact Ho1|]. apply wpp_now.
  edestruct (run_assign nested_valid clock code l 17 w1) as (w2 & E2 & Ho2); [exact Ho1| | |eapply wpp_run; [exact E2|]]; [done..|].
  edestruct (run_assign nested_valid clock code l 18 w2) as (w3 & E3 & Ho3); [exact Ho2| | |eapply wpp_run; [exact E3|]]; [done..|].
  eapply wpp_bind, wp_expiry; [exact Ho3|]. intros n5 w5 Ho5.
  eapply wpp_bind, wp_details; [exact Ho5|]. intros n7 w7 Ho7.
  set (d' := issued_document uuid t d access refresh (clock 16) (clock 19)). change (on clock code l w7 d') in Ho7.
  assert (SessionID d' = SessionID d) as Hs by (unfold d', issued_document; by destruct (identified _ _), (str_empty refresh)).
  destruct (run_update nested_valid clock brisk code l n7 w7 d' Ho7) as (w8 & r & E8 & Ho8 & Er & Hi8). rewrite Hs in Er.
  eapply wpp_run; [exact E8|]. unfold reached. cbn [fst snd]. subst r.
  destruct (str_empty (SessionID d)); [done|]. destruct (Validate nested_valid d'); [|done]. split_and!; [done..|auto].
Qed.

Lemma wp_token : wp 0 (OAuthToken cfg evaluator policy random uuid req) (reached (grant_outcome (w_jti w) d)) w.
Proof using brisk Hreq Hcode Hon.
  unfold OAuthToken, grant_outcome, request_verdict. destruct Hreq as [E1 E2 [E3 E4]]. rewrite !E1, Hcode.
  change (bool_decide (authorization_code = refresh_token)) with false.
  change (bool_decide (authorization_code = pre_authorized_code)) with false. cbv zeta iota. cbn [negb andb].
  apply wpp_bind. unfold token_client_id. rewrite E3, E4.
  change (str_empty "") with true. cbn [wpp mret handler_ret].
  destruct (str_empty (tr_ClientID req)) eqn:Ei; [by apply refused_reached|]. apply wpp_bind. unfold token_client.
  rewrite Ei, E2 by (by apply str_empty_false). cbn [wpp mret handler_ret].
  destruct (bool_decide (c_Type client = _) && _); [by apply refused_reached|].
  destruct (str_empty (DPOP req)); cbn [negb]; [by apply refused_reached|]. apply wp_proof. intros n w1 Ho1.
  destruct (proof_verdict _) as [t|e]; [|by apply refused_reached]. intros ->. apply (wp_from_code 2 w1 t); [exact Ho1|].
  change (8 + 2)%nat with 10%nat. destruct (code_verdict t d (clock 10)) as [[e spent]|].
  - intros n' w2 Ho2. by apply refused_reached.
  - intros w2 Ho2. by apply wp_issue.
Qed.

(** The answers that find the document again. *)
Lemma found_by_token w' access d' m :
  on clock code l w' d' → indexed w' d' → access ≠ "" → token_access d' = access →
  snd (GetWithAccessToken AuthContextTTL (clock m) access (w_auth w')) = Ok l.
Proof.
  intros [Hd Hn] Hi Ha Ht. unfold GetWithAccessToken, get_by. apply str_empty_false in Ha as Ha'. rewrite Ha'.
  destruct (names_lookup _ _ _ _ _ (Hn m)) as (it & _ & _ & Eg & _). rewrite Hd in Eg. unfold mbind, M_bind.
  rewrite (resolve_index_hit "access_token" access (w_auth w') (SessionID d')); [by rewrite Eg|].
  apply Hi, index_keys_in; [done|]. rewrite <- Ht. apply list_elem_of_In. cbn. tauto.
Qed.

Lemma outcome_access used a :
  fst (grant_outcome used d) = Ok a → token_access (snd (grant_outcome used d)) = rs_AccessToken a.
Proof.
  unfold grant_outcome, issue_outcome, issued_document. repeat case_match; cbn [fst snd]; intros [= <-]; done.
Qed.

(** C3: the answer of the token endpoint to a request with an authorization code,
    made alone, against a store where the code names the document [d].  The client
    is registered and sends no client assertion, or does not name itself.  The
    answer and the document afterwards are those of [grant_outcome]: the request
    is refused without a client, a verifier where one is due or a proof; the proof
    is refused when it is not valid, used before or made for something else; the
    code as [code_verdict] says.  None of these but an expired code and a wrong
    verifier spends it.  After that the code is spent whatever happens: a draw
    that fails, a session without a scope and a document that is not valid are
    errors, otherwise the tokens drawn are answered, bound to the key of the proof
    in the document, which is found by the access token.  In every case the code
    still names the document. *)
Theorem authorization_code_grant :
  let '(w', r) := exec nested_valid clock 0 (OAuthToken cfg evaluator policy random uuid req) w in
  (r, deref (w_auth w') l) = grant_outcome (w_jti w) d ∧
  (∀ m, names AuthContextTTL (clock m) code (w_auth w') l) ∧
  (∀ a, r = Ok a → rs_AccessToken a ≠ "" →
     ∀ m, snd (GetWithAccessToken AuthContextTTL (clock m) (rs_AccessToken a) (w_auth w')) = Ok l).
Proof using brisk Hreq Hcode Hon.
  pose proof (wpp_exec nested_valid clock 0 (OAuthToken cfg evaluator policy random uuid req)
    (reached (grant_outcome (w_jti w) d) 0%nat) w wp_token) as Hx.
  destruct (exec _ _ _ _ _) as [w' r]. destruct Hx as (Hr & Ho & Hi). split_and!.
  - rewrite Hr, (proj1 Ho). by destruct (grant_outcome _ _).
  - apply Ho.
  - intros a -> Ha m. apply (found_by_token w' _ (snd (grant_outcome (w_jti w) d))); [exact Ho|by apply Hi|done|]. by apply outcome_access.
Qed.
End verdict.
