(* ===== verification/TokenWitness.v ===== *)
(** * The endpoints at a concrete issuer

    One registered wallet takes a credential by an authorization code, from the
    pushed request to the token; an offer with a PIN is attacked. *)

From stdpp Require Import relations.
From S2P Require Import Prelude GoStrings GoValue Json SdJwt SdJwtWitness OAuth2 AuthContext AuthStore AuthStoreSteps AuthStoreGrants GenericCache IssuerClient Handlers HandlersSafety TokenEndpoint TokenSafety RefreshSafety TokenGrant.

(** ** Parameters *)

(** [scheme://host/path] *)
Definition toy_url (s : string) : option URL :=
  match Cut ":" s with
  | Some (scheme, String "/" (String "/" rest)) =>
      let '(host, path) := match Cut "/" rest with Some (h, p) => (h, "/" +:+ p) | None => (rest, "") end in
      Some (mkURL scheme "" None host path "" false false "" "" "")
  | _ => None
  end.
#[export] Instance toy_net_url : NetURL :=
  {| url_Parse := toy_url; Hostname u := u_Host u; Port _ := ""; EscapedPath u := u_Path u; ParseAddr _ := None;
     ToASCII := Some |}.

Definition issuer_url := "https://issuer.example".
Definition token_url := "https://issuer.example/token".
(** A proof is the two letters of its key and an identifier, for the token
    endpoint, made at 100 seconds. *)
#[export] Instance toy_proofs : ProofParser :=
  {| parse_proof _ p := Some ("dpop+jwt", mkDPoP p "POST" token_url 100 "" (String.substring 0 2 p)) |}.
#[export] Instance no_assertions : AssertionParser := {| json_sub _ := None; parse_assertion _ _ _ _ := None |}.

Definition cb := "https://wallet.example/cb".
Definition toy_cfg : config :=
  mkConfig token_url issuer_url {[ "wallet" := Some (mkClient ClientTypePublic [cb] ["pid"] "") ]}
    [authorization_code; pre_authorized_code; refresh_token] 86400 false true false (fun _ => None).
Definition toy_policy (_ _ _ : string) : bool := true.
Definition all_valid (_ : goval) : bool := true.

(** Names drawn by request number [k]. *)
Definition digit (n : nat) : string := String (Ascii.ascii_of_nat (48 + n)) "".
Definition drawn (k : nat) (n : nat) : option string := Some ("r" +:+ digit k +:+ digit n).
Definition named (k : nat) (n : nat) : string := "u" +:+ digit k +:+ digit n.

(** Services that answer nothing. *)
Definition no_peers : peers := mkPeers (fun _ _ => None) (fun _ _ _ _ => false) (fun _ _ _ => Err NoIdentityFound) (fun _ _ _ => None).
Definition empty_world : world := mkWorld (mkStore ∅ 0 ∅ ∅ []) ∅ ∅ ∅ ∅ no_peers.
Definition at_second (s : Z) (_ : nat) : Z := s * second.

(** ** A wallet by the book *)

Definition toy_verifier := "verifier-of-the-wallet".
Definition toy_par : PARRequest :=
  mkPAR "wallet" cb "pid" "xyz" [] (CreateCodeChallenge CodeChallengeMethodS256 toy_verifier) CodeChallengeMethodS256 [] "" "" "".

Definition pushed := exec all_valid (at_second 90) 0 (OAuthPar toy_cfg None toy_policy (drawn 0) (named 0) toy_par) empty_world.
Definition authorized := exec all_valid (at_second 95) 0 (OAuthAuthorize toy_cfg "urn:ietf:params:oauth:request_uri:u00") pushed.1.

Definition code_request (proof verifier : string) : TokenRequest :=
  mkTokenRequest proof authorization_code "u02" cb "wallet" verifier "" "" "" "" "" "" "".

Definition w0 : world := authorized.1.

(** Three requests with the code, step by step in turn; the third calls it
    pre-authorized. *)
Definition cross_grant (proof : string) : TokenRequest :=
  mkTokenRequest proof pre_authorized_code "" "" "" "" "" "" "" "" "u02" "" "".
Definition rivals : list request :=
  [(drawn 1, named 1, code_request "k1-proof-000001" toy_verifier); (drawn 2, named 2, code_request "k2-proof-000002" toy_verifier);
   (drawn 3, named 3, cross_grant "k3-proof-000003")].
Fixpoint in_turn (rounds : nat) : list (nat * Z) :=
  match rounds with O => [] | S n => (0%nat, 100 * second) :: (1%nat, 100 * second) :: (2%nat, 100 * second) :: in_turn n end.

Definition opening := pool_schedule all_valid (in_turn 5) (w0, pending toy_cfg None toy_policy rivals).

Definition outcome {A} (th : thread (result herror A)) : option (result herror A) :=
  match t_prog th with Ret r => Some r | _ => None end.

Lemma w0_cache : cache (w_auth w0) = {[ "u01" := mkItem 1 (995 * second) ]}.
Proof. vm_compute. reflexivity. Qed.
Lemma w0_code : code_inv "u02" "u01" false false (w_auth w0).
Proof.
  split.
  - intros sid it. rewrite w0_cache, lookup_singleton_Some. intros [<- <-]. split; [vm_compute; lia|].
    split; [vm_compute; reflexivity|]. split_and!; [intros _; vm_compute; reflexivity..|].
    intros _ [[=]|[t Ht]]. vm_compute in Ht. discriminate Ht.
  - intros sid. vm_compute. intros [= <-]. reflexivity.
Qed.

(** A document is changed through its pointer and written back. *)
Definition write_back (now : Z) (l : loc) (d : AuthorizationContext) (w : world) : world :=
  exec_env all_valid now (EStore (AUpdate l)) (exec_env all_valid now (EStore (APoke l d)) w).
Lemma write_back_run {A} P now l d (wt : world * list (thread A)) :
  (l < next (w_auth wt.1))%nat → P wt.1 (EStore (APoke l d)) →
  P (exec_env all_valid now (EStore (APoke l d)) wt.1) (EStore (AUpdate l)) →
  pool_run all_valid P wt (write_back now l d wt.1, wt.2).
Proof.
  destruct wt as [w ts]. intros Hv Hp Hu.
  eapply rtc_l; [exact (pool_env all_valid P now (EStore (APoke l d)) w ts Hv Hp)|].
  apply rtc_once. exact (pool_env all_valid P now (EStore (AUpdate l)) (exec_env all_valid now (EStore (APoke l d)) w) ts Hv Hu).
Qed.

(** In between, the consent page stores a choice of the session: it has read the
    document, changes it and writes it back. *)
Definition chosen := set_AuthenticSource "issuer" (deref (w_auth opening.1) 1).
Definition race := pool_schedule all_valid (in_turn 30) (write_back (100 * second) 1 chosen opening.1, opening.2).

Lemma race_run : pool_run all_valid (code_env "u02" "u01" false) (w0, pending toy_cfg None toy_policy rivals) (race.1, race.2).
Proof.
  rewrite <- surjective_pairing. etrans; [exact (pool_schedule_run all_valid _ (in_turn 5) _)|].
  etrans; [|exact (pool_schedule_run all_valid _ (in_turn 30) (write_back (100 * second) 1 chosen opening.1, opening.2))].
  change (pool_schedule all_valid (in_turn 5) (w0, pending toy_cfg None toy_policy rivals)) with opening.
  apply write_back_run; [vm_compute; lia|split_and!; auto|]. left. eexists. split; vm_compute; reflexivity.
Qed.

(** The race ends with one token and two refusals. *)
Lemma code_exchanged_once_witness :
  ∃ a, answered race.2 0 a ∧ rs_AccessToken a = "r10" ∧
    (outcome <$> race.2) !! 1%nat = Some (Some (Err (HOAuth ErrCodeInvalidGrant 400))) ∧
    (outcome <$> race.2) !! 2%nat = Some (Some (Err (HOAuth ErrCodeInvalidGrant 400))) ∧
    ∀ j b, (j < 3)%nat → answered race.2 j b → 0%nat = j ∧ a = b.
Proof.
  eexists. split; [eexists; vm_compute; reflexivity|]. split; [reflexivity|]. split; [vm_compute; reflexivity|].
  split; [vm_compute; reflexivity|]. intros j b Hj Hb.
  assert (∃ rj, rivals !! j = Some rj ∧ presents "u02" rj.2 = true ∧ per_key false rj.2 = false) as (rj & Hrj & Hs & Hk)
    by (destruct j as [|[|[|j]]]; [eexists; split_and!; [reflexivity|vm_compute; reflexivity..]..|lia]).
  refine (proj2 (code_exchanged_once toy_cfg None toy_policy all_valid "u02" "u01" false w0 race.1 rivals race.2 0%nat _ _
            _ w0_code _ race_run eq_refl _ _) _ j rj b Hrj Hs Hk Hb).
  - done.
  - repeat constructor; intros n [=].
  - vm_compute. reflexivity.
  - eexists. vm_compute. reflexivity.
  - vm_compute. reflexivity.
Defined.

(** ** A refresh token presented twice *)

Definition w1 : world :=
  (exec all_valid (at_second 100) 0 (OAuthToken toy_cfg None toy_policy (drawn 1) (named 1) (code_request "k1-proof-000001" toy_verifier)) w0).1.

Definition refresh_request (proof token : string) : TokenRequest :=
  mkTokenRequest proof refresh_token "" "" "" "" "" "" "" "" "" "" token.
Definition refreshers (token : string) (key : nat) : list request :=
  (fun k => (drawn k, named k, refresh_request ("k" +:+ digit key +:+ "-proof-00000" +:+ digit k) token)) <$> [3; 4]%nat.
Definition refreshed (w : world) (token : string) (key : nat) :=
  pool_schedule all_valid (in_turn 30) (w, pending toy_cfg None toy_policy (refreshers token key)).

Lemma w1_cache : cache (w_auth w1) = {[ "u01" := mkItem 1 (1000 * second) ]}.
Proof. vm_compute. reflexivity. Qed.
Lemma w1_refresh : refresh_inv "r11" "u01" false false (w_auth w1).
Proof.
  intros key S Hw. destruct Hw as [|x [=]|x [=]]. split.
  - intros sid it. rewrite w1_cache, lookup_singleton_Some. intros [<- <-]. split; [vm_compute; lia|].
    split; [vm_compute; reflexivity|]. split; [intros _; vm_compute; reflexivity|].
    split; intros _; vm_compute; reflexivity.
  - intros sid. vm_compute. intros [= <-]. by split.
Qed.

(** An offer with a PIN. *)
Definition offer : AuthorizationContext :=
  mkContext "s9" 0 0 "" "" "" "" "" "" "" "offer" false [] 0 None "" "" "" false "" "" "" "" "" "" "" "" "" None
    (mkRest "" "" "" ["pid"] "" None false true "4711" "" [] 0 "" [] "" "" "" false false 0 0 0 None "" "" GNil "" [] [] "" [] [] "").
Definition offered : world := fst (run_op all_valid (90 * second) (OSave offer) empty_world).

Definition guess (k : nat) (pin : string) : request :=
  (drawn k, named k,
   mkTokenRequest ("k" +:+ digit k +:+ "-proof-00000") pre_authorized_code "" "" "" "" "" "" "" "" "offer" pin "").
(** The session of a wallet that brought the right PIN and a key: it has no code. *)
Definition w2 : world :=
  (exec all_valid (at_second 100) 0 (token_handler toy_cfg None toy_policy (guess 5 "4711")) offered).1.
Lemma w2_cache : cache (w_auth w2) = {[ "s9" := mkItem 0 (1000 * second); "r52" := mkItem 1 (1000 * second) ]}.
Proof. vm_compute. reflexivity. Qed.
Lemma w2_refresh : refresh_inv "r51" "r52" true false (w_auth w2).
Proof.
  intros key S Hw. split.
  - intros sid it. rewrite w2_cache, lookup_insert_Some. rewrite lookup_singleton_Some. intros [[<- <-]|[_ [<- <-]]].
    + split; [vm_compute; lia|]. split; [vm_compute; reflexivity|]. split; [done|]. split; [done|]. by vm_compute.
    + split; [vm_compute; lia|]. split; [vm_compute; reflexivity|]. split; [intros _; vm_compute; done|].
      split; intros _; vm_compute; reflexivity.
  - intros sid.
    assert (indices (w_auth w2) = {[ "code:offer" := "s9"; "access_token:r50" := "r52"; "refresh_token:r51" := "r52" ]}) as ->
      by (vm_compute; reflexivity).
    rewrite !lookup_insert_Some, lookup_singleton_Some. unfold elsewhere.
    destruct Hw; cbn [index_key]; intros [[E <-]|[_ [[E <-]|[_ [E <-]]]]]; done.
Qed.

(** Of two requests with the same refresh token one is answered, with new tokens:
    in the session of the first wallet, and in that of the second. *)
Lemma refresh_token_exchanged_once_witness :
  (∃ a, answered (refreshed w1 "r11" 1).2 0 a ∧ rs_RefreshToken a = "r31" ∧
     ∀ b, answered (refreshed w1 "r11" 1).2 1 b → False) ∧
  (∃ a, answered (refreshed w2 "r51" 5).2 0 a ∧ rs_RefreshToken a = "r31" ∧
     ∀ b, answered (refreshed w2 "r51" 5).2 1 b → False).
Proof.
  split.
  - assert (∃ a, answered (refreshed w1 "r11" 1).2 0 a ∧ rs_RefreshToken a = "r31") as (a & Ha & Er)
      by (eexists; split; [eexists; vm_compute; reflexivity|reflexivity]).
    exists a. split_and!; [exact Ha|exact Er|]. intros b Hb.
    destruct (refresh_token_exchanged_once toy_cfg None toy_policy all_valid "r11" "u01" false w1 (refreshed w1 "r11" 1).1
      (refreshers "r11" 1) (refreshed w1 "r11" 1).2 0%nat 1%nat (drawn 3, named 3, refresh_request "k1-proof-000003" "r11")
      (drawn 4, named 4, refresh_request "k1-proof-000004" "r11") a b) as [[=] _].
    + done.
    + exact w1_refresh.
    + repeat constructor; intros [=].
    + rewrite <- surjective_pairing. apply pool_schedule_run.
    + vm_compute. reflexivity.
    + vm_compute. reflexivity.
    + done.
    + done.
    + exact Ha.
    + exact Hb.
  - assert (∃ a, answered (refreshed w2 "r51" 5).2 0 a ∧ rs_RefreshToken a = "r31") as (a & Ha & Er)
      by (eexists; split; [eexists; vm_compute; reflexivity|reflexivity]).
    exists a. split_and!; [exact Ha|exact Er|]. intros b Hb.
    destruct (refresh_token_exchanged_once toy_cfg None toy_policy all_valid "r51" "r52" true w2 (refreshed w2 "r51" 5).1
      (refreshers "r51" 5) (refreshed w2 "r51" 5).2 0%nat 1%nat (drawn 3, named 3, refresh_request "k5-proof-000003" "r51")
      (drawn 4, named 4, refresh_request "k5-proof-000004" "r51") a b) as [[=] _].
    + done.
    + exact w2_refresh.
    + repeat constructor; intros [=].
    + rewrite <- surjective_pairing. apply pool_schedule_run.
    + vm_compute. reflexivity.
    + vm_compute. reflexivity.
    + done.
    + done.
    + exact Ha.
    + exact Hb.
Defined.

(** ** Guessing a PIN *)

(** Seven wrong PINs and then the right one. *)
Definition guesses : list request := (imap (fun k pin => guess k pin) ["0001"; "0002"; "0003"; "0004"; "0005"; "0006"; "0007"; "4711"])%string.

(** One after the other; and in turn, the eighth request first in every round. *)
Fixpoint turns (n : nat) (round : list nat) : list (nat * Z) :=
  match n with O => [] | S n => ((fun i => (i, 100 * second)) <$> round) ++ turns n round end%list.
Definition one_by_one : list (nat * Z) := mjoin ((fun i => (fun _ => (i, 100 * second)) <$> seq 0 40) <$> seq 0 8).
Definition together : list (nat * Z) := turns 40 [7; 0; 1; 2; 3; 4; 5; 6]%nat.
Definition guessed (sched : list (nat * Z)) :=
  outcome <$> (pool_schedule all_valid sched (offered, pending toy_cfg None toy_policy guesses)).2.

(** Checked one after the other the eighth is refused, its offer dead after five
    wrong PINs.  In turn, all eight PINs are compared before the first wrong one
    is counted, and the eighth gets its token. *)
Lemma pin_budget_raced :
  guessed one_by_one !! 7%nat = Some (Some (Err (HOAuth ErrCodeInvalidGrant 400))) ∧
  (∃ a, guessed together !! 7%nat = Some (Some (Ok a)) ∧ rs_AccessToken a = "r70").
Proof. split; [vm_compute; reflexivity|]. eexists. split; vm_compute; reflexivity. Qed.

(** ** The grant at the concrete issuer *)

Definition d0 : AuthorizationContext := deref (w_auth w0) 1.

Lemma w0_on : on (at_second 100) "u02" 1 w0 d0.
Proof.
  split; [done|]. intros m. split; [done|]. split; [vm_compute; reflexivity|].
  exists (mkItem 1 (995 * second)). split_and!; vm_compute; reflexivity.
Qed.

Definition toy_client : Client := mkClient ClientTypePublic [cb] ["pid"] "".
Definition toy_request := code_request "k1-proof-000001" toy_verifier.
Lemma toy_from_client : from_client toy_cfg toy_request toy_client.
Proof. split; [done|intros _; vm_compute; reflexivity|done]. Qed.

(** The wallet of the first example gets the tokens drawn for it, and the issuer
    finds the session by the access token.  Had its random source failed it would
    have got an error, and lost its code. *)
Lemma authorization_code_grant_witness :
  let '(w', r) := exec all_valid (at_second 100) 0 (OAuthToken toy_cfg None toy_policy (drawn 1) (named 1) toy_request) w0 in
  let '(w2, r2) := exec all_valid (at_second 100) 0 (OAuthToken toy_cfg None toy_policy (fun _ => None) (named 1) toy_request) w0 in
  r = Ok (token_answer toy_cfg (named 1) "k1" d0 "r10" "r11" "pid") ∧
  (∀ m, snd (GetWithAccessToken AuthContextTTL (at_second 100 m) "r10" (w_auth w')) = Ok 1%nat) ∧
  r2 = Err HInternal ∧ Forfeited d0 = false ∧ Forfeited (deref (w_auth w2) 1) = true.
Proof.
  assert (∀ m n, at_second 100 m ≤ at_second 100 n + AuthContextTTL) as Hb by (intros m n; vm_compute; discriminate).
  pose proof (fun random => authorization_code_grant toy_cfg None toy_policy all_valid (at_second 100) Hb toy_request toy_client
    random (named 1) "u02" 1 w0 d0 toy_from_client eq_refl w0_on) as Hg.
  pose proof (Hg (drawn 1)) as H1. pose proof (Hg (fun _ => None)) as H2. clear Hg.
  destruct (exec _ _ _ (OAuthToken _ _ _ (drawn 1) _ _) _) as [w' r]. destruct (exec _ _ _ _ _) as [w2 r2].
  destruct H1 as (E1 & _ & F1), H2 as (E2 & _ & _).
  assert (r = Ok (token_answer toy_cfg (named 1) "k1" d0 "r10" "r11" "pid")) as Er
    by (apply (f_equal fst) in E1; etrans; [exact E1|vm_compute; reflexivity]).
  split_and!; [exact Er| | |vm_compute; reflexivity|].
  - intros m. by apply (F1 _ Er).
  - apply (f_equal fst) in E2. etrans; [exact E2|vm_compute; reflexivity].
  - apply (f_equal (fun o => Forfeited (snd o))) in E2. etrans; [exact E2|vm_compute; reflexivity].
Defined.

(** A minute after the entry's fifteen have passed, the token that was promised
    an hour names nothing. *)
Lemma token_outlives_context :
  tok_ExpiresAt <$> Token (deref (w_auth w1) 1) = Some 3700 ∧
  snd (GetWithAccessToken AuthContextTTL (at_second 960 0) "r10" (w_auth w1)) = Ok 1%nat ∧
  snd (GetWithAccessToken AuthContextTTL (at_second 1060 0) "r10" (w_auth w1)) = Err ErrNoDocuments.
Proof. split_and!; vm_compute; reflexivity. Qed.

(** ** Helpers *)

Lemma redirect_contained_witness :
  ∃ base, url_Parse "https://wallet.example/app/" = Some base ∧
    path_elements (u_Path base) `prefix_of` path_elements "/app/x/../cb".
Proof.
  destruct (redirect_contained ["https://wallet.example/app/*"] "https://wallet.example/app/x/../cb")
    as (parsed & allowed & Hp & _ & Hin & Hc); [vm_compute; reflexivity|].
  apply list_elem_of_singleton in Hin as ->. vm_compute in Hp. injection Hp as <-.
  destruct Hc as [[Hw _]|(prefix & base & Hw & Hb & _ & _ & Hpre)]; [vm_compute in Hw; discriminate Hw|].
  vm_compute in Hw. injection Hw as <-. exists base. split; [exact Hb|]. vm_compute in Hb. injection Hb as <-.
  apply Hpre; vm_compute; reflexivity.
Defined.

Lemma normalized_path_spec_witness :
  normalizePercentEncoding "/%7Euser%2f" = normalizePercentEncoding "/~user%2F".
Proof.
  destruct (octets (String.list_ascii_of_string "/%7Euser%2f")) as [ps|] eqn:Ep; [|vm_compute in Ep; discriminate Ep].
  destruct (octets (String.list_ascii_of_string "/~user%2F")) as [qs|] eqn:Eq; [|vm_compute in Eq; discriminate Eq].
  apply (proj2 (normalized_path_spec _ _ _ _ Ep Eq)). vm_compute in Ep, Eq. injection Ep as <-. injection Eq as <-.
  vm_compute. reflexivity.
Defined.
