(* ===== verification/KeyProofs.v ===== *)
(** * Key proofs of a credential request

    [pkg/openid4vci]: the JWT, Data Integrity and attestation proofs with which a
    wallet shows that it holds the key a credential is bound to ([proof_jwt.go],
    [proof_divp.go], [proof_attestation.go], [verify_proof.go]), and the part of
    [credential.go] that reads them.  Texts of errors are left out. *)

From Stdlib Require Import SpecFloat.
From S2P Require Import Prelude GoStrings Base64 GoValue Utf8 Json Jwt SdJwt SdJwtVerify ClaimPaths Derivations AuxiliaryData IssuerClient.

Inductive vci_error :=
| ErrInvalidCredentialRequest | ErrInvalidNonce | ErrInvalidProof
| ErrUnknownCredentialConfiguration | ErrUnknownCredentialIdentifier
| ErrInvalidEncryptionParameters | ErrServerError | ErrAuxiliaryDataConflict
| VPlain      (* an error without a code of the protocol *)
| VPanic.     (* a nil pointer dereferenced *)
#[global] Instance vci_error_eq_dec : EqDecision vci_error.
Proof. solve_decision. Defined.

(** ** Data *)

Record ProofJWK := mkProofJWK {
  pk_Kty : string; pk_Crv : string; pk_X : string; pk_Y : string; pk_N : string; pk_E : string;
  pk_Kid : string; pk_Use : string; pk_Alg : string
}.
(** [x5c] is absent, or a list that may be empty. *)
Record ProofJWTHeader := mkProofJWTHeader {
  ph_Alg : string; ph_Typ : string; ph_Kid : string; ph_Jwk : option ProofJWK; ph_X5c : option (list string)
}.
(** [auxiliary_data] is kept as its text. *)
Record ProofJWTClaims := mkProofJWTClaims {
  pc_Aud : string; pc_Iat : Z; pc_Nonce : string; pc_Iss : string; pc_AuxiliaryData : option string
}.

Record ProofAttestationHeader := mkAttHeader { ah_Alg : string; ah_Typ : string; ah_Kid : string; ah_X5c : option (list string) }.
Record ProofAttestationClaims := mkAttClaims {
  ac_Iss : string; ac_Iat : Z; ac_Exp : Z; ac_AttestedKeys : list ProofJWK; ac_Nonce : string;
  ac_AuxiliaryData : option string
}.

Record DIVPProof := mkDIVPProof {
  dp_Type : string; dp_Cryptosuite : string; dp_ProofPurpose : string; dp_VerificationMethod : string;
  dp_Domain : string; dp_Challenge : string; dp_Created : string; dp_ProofValue : string
}.
Record ProofDIVP := mkProofDIVP {
  vp_Context : list string; vp_Type : list string; vp_Proof : option DIVPProof; vp_Proofs : option (list DIVPProof);
  vp_Holder : string
}.

Record Proof_ := mkProof { ProofType : string; JWT : string }.
Record Proofs := mkProofs { ps_JWT : list string; ps_DIVP : list ProofDIVP; ps_Attestation : list string }.
Record VerifyProofOptions := mkOptions { CNonce : string; Audience : string; SupportedAlgorithms : list string }.

(** [encoding/json] into these structs: a name matches a field up to case, and
    the text of a number decides whether it is an integer. *)
Class StructJSON := {
  unmarshal_ProofJWTHeader : string → option ProofJWTHeader;
  unmarshal_ProofJWTClaims : string → option ProofJWTClaims;
  unmarshal_AttHeader : string → option ProofAttestationHeader;
  unmarshal_AttClaims : string → option ProofAttestationClaims;
  unmarshal_Jwk : string → option Jwk;
  (* an array, as the texts of its elements; the [type] of an entry, the names of its members, the entry *)
  unmarshal_items : string → option (list string);
  unmarshal_type : string → option string;
  unmarshal_members : string → option (list string);
  unmarshal_AuxEntry : string → option AuxiliaryDataEntry
}.

(** [base64.RawStdEncoding.DecodeString] *)
Fixpoint std_to_url (s : string) : option string :=
  match s with
  | EmptyString => Some ""
  | String c s =>
      r ← std_to_url s;
      if bool_decide (c = "+"%char) then Some (String "-" r) else
      if bool_decide (c = "/"%char) then Some (String "_" r) else
      if bool_decide (c = "-"%char) || bool_decide (c = "_"%char) then None else Some (String c r)
  end.
Definition unb64_std (s : string) : option string := std_to_url s ≫= unb64.
Definition unb64_any (s : string) : option string := match unb64 s with Some b => Some b | None => unb64_std s end.

(** A key that is only named. *)
Definition kid_only (kid : string) : Jwk := mkJwk kid "" "" "" "" "" "".

Definition present (l : option (list string)) : bool := match l with Some _ => true | None => false end.
(** [excluded_with]: empty, or none of the others present *)
Definition excluded (here : bool) (others : list bool) : bool := negb here || negb (existsb id others).

Section proofs.
Context `{JSON} `{Arch} `{Hashes} `{Sig : Signatures} `{!SdEnv} `{StructJSON}.

(** ** JWT proofs *)

Definition valid_header (h : ProofJWTHeader) : bool :=
  let kid := negb (str_empty (ph_Kid h)) in
  let jwk := match ph_Jwk h with Some _ => true | None => false end in
  let x5c := present (ph_X5c h) in
  negb (str_empty (ph_Alg h)) && negb (bool_decide (ph_Alg h = "none")) &&
  bool_decide (ph_Typ h = "openid4vci-proof+jwt") &&
  excluded kid [jwk; x5c] && excluded jwk [kid; x5c] && excluded x5c [kid; jwk] &&
  match ph_Jwk h with Some k => negb (str_empty (pk_Kty k)) | None => true end.

Definition valid_claims (c : ProofJWTClaims) : bool := negb (str_empty (pc_Aud c)) && negb (bool_decide (pc_Iat c = 0)).

Definition or_request {A} (o : option A) : result vci_error A :=
  match o with Some a => Ok a | None => Err ErrInvalidCredentialRequest end.
Definition require (b : bool) : result vci_error unit := if b then Ok tt else Err ErrInvalidCredentialRequest.

Definition Validate_jwt (p : string) : result vci_error unit :=
  match Split "." p with
  | [h; c; _] =>
      header ← or_request (unb64 h ≫= unmarshal_ProofJWTHeader);
      _ ← require (valid_header header);
      _ ← require (negb (str_empty (ph_Kid header)) ||
                   match ph_Jwk header with Some _ => true | None => false end ||
                   match ph_X5c header with Some (_ :: _) => true | _ => false end);
      claims ← or_request (unb64 c ≫= unmarshal_ProofJWTClaims);
      require (valid_claims claims)
  | _ => Err ErrInvalidCredentialRequest
  end.

(** The first two parts of a token. *)
Definition parts (p : string) : option (string * string) :=
  match Split "." p with h :: c :: _ => Some (h, c) | _ => None end.

Definition ExtractJWK_jwt (p : string) : option Jwk :=
  if str_empty p then None else
  '(h, _) ← parts p;
  header ← unb64_any h ≫= UnmarshalMap;
  match header !! "jwk" with
  | Some (JObj m) => Marshal (JObj m) ≫= unmarshal_Jwk
  | _ => match header !! "kid" with Some (JStr kid) => Some (kid_only kid) | _ => None end
  end.

Definition ExtractNonce_jwt (p : string) : string :=
  match (if str_empty p then None else '(_, c) ← parts p; claims ← unb64_any c ≫= UnmarshalMap; claims !! "nonce") with
  | Some (JStr nonce) => nonce
  | _ => ""
  end.

(** The DID of a holder is the issuer of the proof. *)
Definition ExtractSubjectDID_jwt (p : string) : string :=
  match (if str_empty p then None else '(_, c) ← parts p; unb64_any c ≫= unmarshal_ProofJWTClaims) with
  | Some claims => pc_Iss claims
  | None => ""
  end.

(** *** Auxiliary data of a proof *)

Definition jwtPayload (p : string) : option string := match Split "." p with [_; c; _] => unb64 c | _ => None end.

Definition walletAbsentMembers : list string := ["opening"; "encoding"; "required"].

(** [Ok None] is an entry of another type. *)
Definition decodeWalletEntry (item : string) : option (option AuxiliaryDataEntry) :=
  t ← unmarshal_type item;
  if negb (bool_decide (t = "hash_commitment")) then Some None else
  members ← unmarshal_members item;
  if existsb (fun name => bool_decide (name ∈ members)) walletAbsentMembers then None else
  e ← unmarshal_AuxEntry item; Some (Some e).

Fixpoint decode_entries (items : list string) (entries : list AuxiliaryDataEntry) : option (list AuxiliaryDataEntry) :=
  match items with
  | [] => Some entries
  | item :: items =>
      e ← decodeWalletEntry item;
      match e with
      | None => decode_entries items entries
      | Some e =>
          if existsb (fun e' => bool_decide (ae_Path e' = ae_Path e)) entries then None
          else decode_entries items (entries ++ [e])%list
      end
  end.

Definition decodeWalletAuxiliaryData (claim : option string) : option (list AuxiliaryDataEntry) :=
  match claim with
  | None => Some []
  | Some raw => items ← unmarshal_items raw; decode_entries items []
  end.

Definition ExtractAuxiliaryData_jwt (p : string) : option (list AuxiliaryDataEntry) :=
  claims ← jwtPayload p ≫= unmarshal_ProofJWTClaims; decodeWalletAuxiliaryData (pc_AuxiliaryData claims).
Definition ExtractAuxiliaryData_att (p : string) : option (list AuxiliaryDataEntry) :=
  claims ← jwtPayload p ≫= unmarshal_AttClaims; decodeWalletAuxiliaryData (ac_AuxiliaryData claims).

(** *** Verification *)

(** [MapClaims.GetAudience] *)
Definition GetAudience (m : jobject) : result vci_error (list string) :=
  match m !! "aud" with
  | Some (JStr s) => Ok [s]
  | Some (JArr l) => or_request (mapM as_str l)
  | _ => Ok []
  end.

Definition proofIatClockSkew : Z := 30 * second.
Definition asymmetric (m : sig_method) : bool :=
  match m with MEcdsa | MRsa | MRsaPss | MEd25519 => true | _ => false end.
Definition supported (opts : VerifyProofOptions) (t : Token) : bool :=
  match SupportedAlgorithms opts with
  | [] => true
  | algs => bool_decide (str_field (Header t) "alg" ∈ algs)
  end.
Definition nonce_matches (opts : VerifyProofOptions) (claims : jobject) : result vci_error unit :=
  if str_empty (CNonce opts) then Ok tt else
  match claims !! "nonce" with
  | Some (JStr n) => if bool_decide (n = CNonce opts) then Ok tt else Err ErrInvalidNonce
  | _ => Err ErrInvalidNonce
  end.

(** The function that hands the key to the parser, [now] being its clock. *)
Definition jwt_keyfunc (now : Z) (publicKey : sig_key) (opts : VerifyProofOptions) (t : Token) : result vci_error sig_key :=
  _ ← require (supported opts t);
  _ ← require (match Header t !! "jwk" with Some (JObj m) => match m !! "d" with Some _ => false | None => true end | _ => true end);
  _ ← (if str_empty (Audience opts) then Ok tt else
       aud ← GetAudience (Claims t); require (bool_decide (Audience opts ∈ aud)));
  iat ← match parseNumericDate (Claims t) "iat" with Ok d => Ok d | Err _ => Err ErrInvalidCredentialRequest end;
  _ ← match iat with
      | None => Err VPanic
      | Some iat => require (negb (bool_decide (now + proofIatClockSkew < iat)))
      end;
  _ ← nonce_matches opts (Claims t);
  _ ← require (asymmetric (Method t));
  Ok publicKey.

(** [ParseWithClaims] with such a function: its own errors are passed on, those
    of the library are [invalid_proof]. *)
Definition parse_with (keyfunc : Token → result vci_error sig_key) (now' : Z) (p : string) : result vci_error unit :=
  match Parse None (fun t => match keyfunc t with Ok k => Some k | Err _ => None end) (Some now') p with
  | Ok _ => Ok tt
  | Err KeyfuncFailed =>
      match ParseUnverified p with
      | Ok t => match keyfunc t with Err e => Err e | Ok _ => Err ErrInvalidProof end
      | Err _ => Err ErrInvalidProof
      end
  | Err _ => Err ErrInvalidProof
  end.

Definition Verify_jwt (now now' : Z) (p : string) (publicKey : sig_key) (opts : VerifyProofOptions) : result vci_error unit :=
  _ ← Validate_jwt p; parse_with (jwt_keyfunc now publicKey opts) now' p.

(** ** Data Integrity proofs *)

Definition cryptosuites : list string :=
  ["eddsa-rdfc-2022"; "ecdsa-rdfc-2019"; "ecdsa-sd-2023"; "eddsa-jcs-2022"; "ecdsa-jcs-2019"].
Definition valid_divp_proof (p : DIVPProof) : bool :=
  negb (str_empty (dp_Type p)) && bool_decide (dp_Cryptosuite p ∈ cryptosuites) &&
  bool_decide (dp_ProofPurpose p = "authentication") && negb (str_empty (dp_VerificationMethod p)) &&
  negb (str_empty (dp_Domain p)) && negb (str_empty (dp_ProofValue p)).
Definition is_nonempty {A} (l : list A) : bool := match l with [] => false | _ => true end.

Definition Validate_divp (vp : ProofDIVP) : result vci_error unit :=
  _ ← require (is_nonempty (vp_Context vp) && is_nonempty (vp_Type vp) &&
               (match vp_Proof vp with Some p => valid_divp_proof p | None => match vp_Proofs vp with Some _ => true | None => false end end) &&
               (match vp_Proofs vp with Some ps => forallb valid_divp_proof ps | None => true end));
  require (bool_decide ("VerifiablePresentation" ∈ vp_Type vp)).

Definition divp_proofs (vp : ProofDIVP) : list DIVPProof :=
  (match vp_Proof vp with Some p => [p] | None => [] end ++ default [] (vp_Proofs vp))%list.

Definition ExtractJWK_divp (vp : ProofDIVP) : option Jwk :=
  match divp_proofs vp with
  | p :: _ => if str_empty (dp_VerificationMethod p) then None else Some (kid_only (dp_VerificationMethod p))
  | [] => None
  end.

Definition check_divp_proof (opts : VerifyProofOptions) (p : DIVPProof) : result vci_error unit :=
  _ ← require (str_empty (Audience opts) || bool_decide (dp_Domain p = Audience opts));
  if str_empty (CNonce opts) || bool_decide (dp_Challenge p = CNonce opts) then Ok tt else Err ErrInvalidNonce.

Fixpoint check_all {A} (f : A → result vci_error unit) (l : list A) : result vci_error unit :=
  match l with [] => Ok tt | a :: l => _ ← f a; check_all f l end.

Definition Verify_divp (vp : ProofDIVP) (opts : VerifyProofOptions) : result vci_error unit :=
  _ ← Validate_divp vp; check_all (check_divp_proof opts) (divp_proofs vp).

(** ** Attestations *)

Definition valid_att_header (h : ProofAttestationHeader) : bool :=
  negb (str_empty (ah_Alg h)) && negb (bool_decide (ah_Alg h = "none")) && bool_decide (ah_Typ h = "key-attestation+jwt").
Definition valid_att_claims (c : ProofAttestationClaims) : bool :=
  negb (bool_decide (ac_Iat c = 0)) && is_nonempty (ac_AttestedKeys c) &&
  forallb (fun k => negb (str_empty (pk_Kty k))) (ac_AttestedKeys c).

Definition Validate_att (p : string) : result vci_error unit :=
  match Split "." p with
  | [h; c; _] =>
      header ← or_request (unb64 h ≫= unmarshal_AttHeader);
      _ ← require (valid_att_header header);
      claims ← or_request (unb64 c ≫= unmarshal_AttClaims);
      require (valid_att_claims claims)
  | _ => Err ErrInvalidCredentialRequest
  end.

Definition ExtractNonce_att (p : string) : string :=
  match (if str_empty p then None else '(_, c) ← parts p; unb64_any c ≫= unmarshal_AttClaims) with
  | Some claims => ac_Nonce claims
  | None => ""
  end.

Definition ExtractAllJWKs_att (p : string) (maxLength : Z) : option (list Jwk) :=
  if str_empty p then None else
  if bool_decide (maxLength < 1) then None else
  match ParseUnverified p with
  | Err _ => None
  | Ok t =>
      match Claims t !! "attested_keys" with
      | Some (JArr []) => None
      | Some (JArr keys) =>
          if bool_decide (maxLength < Z.of_nat (length keys)) then None else
          mapM (fun k => match k with JObj m => Marshal (JObj m) ≫= unmarshal_Jwk | _ => None end) keys
      | _ => None
      end
  end.

Definition att_keyfunc (publicKey : sig_key) (opts : VerifyProofOptions) (t : Token) : result vci_error sig_key :=
  _ ← require (asymmetric (Method t));
  _ ← require (supported opts t);
  _ ← nonce_matches opts (Claims t);
  Ok publicKey.

Definition Verify_att (now' : Z) (p : string) (opts : VerifyProofOptions) : result vci_error unit :=
  _ ← Validate_att p;
  header ← or_request ('(h, _) ← parts p; unb64 h ≫= UnmarshalMap);
  match header !! "x5c" with
  | None => Err ErrInvalidProof
  | Some x5cRaw =>
      match ParseX5CHeader x5cRaw with
      | Some (c :: _) => parse_with (att_keyfunc (cert_key c) opts) now' p
      | Some [] => Err VPanic
      | None => Err ErrInvalidProof
      end
  end.

(** ** The proofs of a request *)

Definition proofs_type (p : Proofs) : string :=
  if is_nonempty (ps_JWT p) then "jwt" else
  if is_nonempty (ps_DIVP p) then "di_vp" else
  if is_nonempty (ps_Attestation p) then "attestation" else "".

Definition proofTypeCount (p : Proofs) : nat :=
  (if is_nonempty (ps_JWT p) then 1 else 0) + (if is_nonempty (ps_DIVP p) then 1 else 0) +
  (if is_nonempty (ps_Attestation p) then 1 else 0).

Definition ExtractJWK_proof (p : Proof_) : option Jwk :=
  if bool_decide (ProofType p = "jwt") then if str_empty (JWT p) then None else ExtractJWK_jwt (JWT p) else None.

Definition ExtractSubjectDID_proof (p : Proof_) : string :=
  if bool_decide (ProofType p = "jwt") then if str_empty (JWT p) then "" else ExtractSubjectDID_jwt (JWT p) else "".

Definition ExtractAllJWKs (p : Proofs) (maxLength : Z) : option (list Jwk) :=
  if bool_decide (maxLength < 1) then None else
  match ps_JWT p, ps_DIVP p, ps_Attestation p with
  | (_ :: _) as l, _, _ => if bool_decide (maxLength < Z.of_nat (length l)) then None else mapM ExtractJWK_jwt l
  | [], (_ :: _) as l, _ => if bool_decide (maxLength < Z.of_nat (length l)) then None else mapM ExtractJWK_divp l
  | [], [], a :: _ => ExtractAllJWKs_att a maxLength
  | [], [], [] => None
  end.

(** [VerifyProofWithOptions], for the types whose key is in the proof. *)
Definition VerifyProofWithOptions (now now' : Z) (proofs : option Proofs) (publicKey : sig_key) (opts : VerifyProofOptions) :
    result vci_error unit :=
  match proofs with
  | None => Err ErrInvalidCredentialRequest
  | Some p =>
      if negb (bool_decide (proofTypeCount p = 1)%nat) then Err ErrInvalidCredentialRequest else
      if is_nonempty (ps_JWT p) then check_all (fun t => Verify_jwt now now' t publicKey opts) (ps_JWT p) else
      if is_nonempty (ps_DIVP p) then check_all (fun vp => Verify_divp vp opts) (ps_DIVP p) else
      check_all (fun a => Verify_att now' a opts) (ps_Attestation p)
  end.

(** ** What an accepted JWT proof says *)

Lemma parse_with_Ok keyfunc now' p :
  parse_with keyfunc now' p = Ok tt →
  ∃ t key, ParseUnverified p = Ok t ∧ keyfunc t = Ok key ∧ sig_verify (Alg t) key (signed_text t) (Signature t) = true ∧
    validClaims (Claims t) now' = true.
Proof.
  unfold parse_with. destruct (Parse _ _ _ _) as [t|e] eqn:E; [|repeat case_match; done]. intros _.
  apply Parse_Ok in E as (Eu & (key & Ek & Ev) & _ & Hc). exists t, key. destruct (keyfunc t); [|done]. by injection Ek as ->.
Qed.

Lemma require_Ok b u : require b = Ok u → b = true.
Proof. by destruct b. Qed.

(** The audience a token names. *)
Definition addressed (claims : jobject) (aud : string) : Prop :=
  claims !! "aud" = Some (JStr aud) ∨ ∃ l, claims !! "aud" = Some (JArr l) ∧ JStr aud ∈ l.

Lemma GetAudience_Ok m l aud : GetAudience m = Ok l → aud ∈ l → addressed m aud.
Proof.
  unfold GetAudience, addressed. destruct (m !! "aud") as [[| |s| | |vs|]|]; intros E Hin; simplify_eq/=;
    try (by apply elem_of_nil in Hin).
  - apply list_elem_of_singleton in Hin as ->. by left.
  - right. exists vs. split; [done|]. destruct (mapM as_str vs) as [l'|] eqn:Em; [|done]. injection E as ->.
    apply mapM_Some in Em. apply list_elem_of_lookup in Hin as [i Hi].
    destruct (Forall2_lookup_r _ _ _ _ _ Em Hi) as (v & Hv & Hs). destruct v; try done. injection Hs as ->.
    by eapply list_elem_of_lookup_2.
Qed.

(** What the function that hands out the key has checked. *)
Lemma jwt_keyfunc_Ok now publicKey opts t key :
  jwt_keyfunc now publicKey opts t = Ok key →
  key = publicKey ∧ asymmetric (Method t) = true ∧
  (Audience opts ≠ "" → addressed (Claims t) (Audience opts)) ∧
  (CNonce opts ≠ "" → Claims t !! "nonce" = Some (JStr (CNonce opts))) ∧
  (∃ iat, parseNumericDate (Claims t) "iat" = Ok (Some iat) ∧ iat ≤ now + proofIatClockSkew) ∧
  (∀ m, Header t !! "jwk" = Some (JObj m) → m !! "d" = None).
Proof.
  unfold jwt_keyfunc. intros Ek.
  apply bind_Ok in Ek as ([] & _ & Ek). apply bind_Ok in Ek as ([] & Hd%require_Ok & Ek).
  apply bind_Ok in Ek as ([] & Ha & Ek). apply bind_Ok in Ek as (iat & Hi & Ek). apply bind_Ok in Ek as ([] & Hi' & Ek).
  apply bind_Ok in Ek as ([] & Hn & Ek). apply bind_Ok in Ek as ([] & Hm%require_Ok & Ek). injection Ek as <-.
  split_and!; try done.
  - intros Hne. apply str_empty_false in Hne. rewrite Hne in Ha. apply bind_Ok in Ha as (l & El & Hin%require_Ok%bool_decide_eq_true).
    by eapply GetAudience_Ok.
  - intros Hne%str_empty_false. unfold nonce_matches in Hn. rewrite Hne in Hn.
    destruct (Claims t !! "nonce") as [[| |n| | | |]|] eqn:En; try done. case_bool_decide; [|done]. by subst n.
  - destruct iat as [iat|]; [|done]. exists iat. destruct (parseNumericDate _ _); [|done]. injection Hi as ->. split; [done|].
    apply require_Ok, negb_true_iff, bool_decide_eq_false in Hi'. lia.
  - intros m Em. rewrite Em in Hd. by destruct (m !! "d").
Qed.

(** The nonce that was read from a token before it was verified. *)
Lemma ExtractNonce_parsed p t n : ParseUnverified p = Ok t → Claims t !! "nonce" = Some (JStr n) → ExtractNonce_jwt p = n.
Proof.
  intros Eu En. unfold ExtractNonce_jwt, parts. destruct (ParseUnverified_parts _ _ Eu) as (h & c & s & Ep & _ & Ecl). rewrite Ep.
  assert (str_empty p = false) as -> by (destruct p; [cbn in Ep; discriminate Ep|done]).
  cbn. unfold unb64_any. destruct (unb64 c) as [b|]; [|done]. cbn in Ecl. cbn. rewrite Ecl. cbn. by rewrite En.
Qed.

Lemma verified_nonce now now' p publicKey opts :
  Verify_jwt now now' p publicKey opts = Ok tt → CNonce opts ≠ "" → ExtractNonce_jwt p = CNonce opts.
Proof.
  unfold Verify_jwt. intros ([] & Hv & Hp)%bind_Ok Hn. apply parse_with_Ok in Hp as (t & key & Eu & Ek & _).
  apply jwt_keyfunc_Ok in Ek as (_ & _ & _ & Hc & _). by eapply ExtractNonce_parsed; [|apply Hc].
Qed.

(** C10: a JWT proof that is accepted for a key was signed with it, by an
    asymmetric method, is addressed to this issuer, carries the nonce it was
    asked for, which is also the one the endpoint read from it before it was
    verified, was not made in the future, and shows no private key. *)
Theorem key_proof_sound now now' p publicKey opts :
  Verify_jwt now now' p publicKey opts = Ok tt →
  ∃ t, ParseUnverified p = Ok t ∧ sig_verify (Alg t) publicKey (signed_text t) (Signature t) = true ∧
    asymmetric (Method t) = true ∧ validClaims (Claims t) now' = true ∧
    (Audience opts ≠ "" → addressed (Claims t) (Audience opts)) ∧
    (CNonce opts ≠ "" → Claims t !! "nonce" = Some (JStr (CNonce opts)) ∧ ExtractNonce_jwt p = CNonce opts) ∧
    (∃ iat, parseNumericDate (Claims t) "iat" = Ok (Some iat) ∧ iat ≤ now + proofIatClockSkew) ∧
    (∀ m, Header t !! "jwk" = Some (JObj m) → m !! "d" = None).
Proof.
  unfold Verify_jwt. intros ([] & Hv & Hp)%bind_Ok. apply parse_with_Ok in Hp as (t & key & Eu & Ek & Es & Ec).
  apply jwt_keyfunc_Ok in Ek as (-> & Hm & Ha & Hn & Hi & Hd). exists t. split_and!; try done.
  intros Hne. split; [by apply Hn|]. by eapply ExtractNonce_parsed; [|apply Hn].
Qed.
End proofs.
