(* ===== verification/PresentationDoc.v ===== *)
(** * Documents derived from a presented credential

    [buildPresentationDocument] of
    [internal/apigw/apiv1/handlers_issuer_presentation.go], the filter by the
    schema of a mobile document, and [PresentationScope] of
    [pkg/model/data_sources.go].  Dates arrive as text; the other forms
    [normaliseFullDate] takes, CBOR tags and times, do not reach a JSON value.
    [time.ParseDuration] and the RFC 3339 date-times are interfaces. *)

From stdpp Require Import pretty.
From S2P Require Import Prelude GoStrings GoValue SdJwtIssue MdocSchema ClaimPaths Derivations AuxiliaryData.

Class Times := {
  ParseDuration : string → option Z;
  (* the date in UTC of a date-time *)
  parse_RFC3339 : string → option date
}.

(** [t.Format("2006-01-02")] for the years that have four digits at most. *)
Definition pad2 (n : Z) : string := (if bool_decide (n < 10) then "0" else "") +:+ pretty n.
Definition pad4 (n : Z) : string :=
  (if bool_decide (n < 10) then "000" else if bool_decide (n < 100) then "00" else if bool_decide (n < 1000) then "0" else "") +:+ pretty n.
Definition format_date (d : date) : string := pad4 (Year d) +:+ "-" +:+ pad2 (Month d) +:+ "-" +:+ pad2 (Day d).

(** A credential a scope accepts: the claims it must have, each with the values
    that are allowed (none: any), and what is derived from them. *)
Record PresentedCredential := mkPresentedCredential { pc_RequiredClaims : list (string * list string); pc_Derivations : list Derivation }.

Record PresentationScope := mkPresentationScope {
  (* by the scope of the presented credential *)
  ps_From : list (string * PresentedCredential);
  ps_Defaults : gomap;
  ps_ExpiryDuration : string
}.

(** What the gateway is configured with for a scope ([model.CredentialMetadata]). *)
Record CredentialMetadata := mkCredentialMetadata {
  cm_Format : string;
  cm_VCTM : option VCTM; cm_VCTURL : string; cm_VCTMRaw : string; cm_Integrity : string;
  cm_MDDL : option MDDLSchema; cm_Doctype : string; cm_MDDLRaw : string;
  cm_CredentialTypes : list string; cm_CredentialContexts : list string;
  cm_AuxiliaryData : option AuxiliaryDataSupported
}.

Inductive presentation_error := PNoClaims | PNotAccepted | PDerivation (e : derivation_error) | PDefaults | PNoMetadata | PNoSchema | PElement.

Section build.
Context `{Text} `{Countries} `{LocalTime} `{Entropy} `{Times}.

Definition ResolveDefaults (p : PresentationScope) (now : Z) : option gomap :=
  with_expiry ← (if str_empty (ps_ExpiryDuration p) then Some (ps_Defaults p) else
                 d ← ParseDuration (ps_ExpiryDuration p);
                 if bool_decide (d ≤ 0) then None
                 else Some (mset (ps_Defaults p) "date_of_expiry" (GString (format_date (local_date (now + d))))));
  Some (mset with_expiry "date_of_issuance" (GString (format_date (local_date now)))).

(** ** The filter by a schema *)

Definition fullDate (d : date) : option string :=
  if bool_decide (Year d < 1) || bool_decide (9999 < Year d) then None else Some (format_date d).

Definition normaliseFullDate (v : goval) : option string :=
  match v with
  | GString s =>
      match parse_DateOnly s with
      | Some d => fullDate d
      | None => d ← parse_RFC3339 s; fullDate d
      end
  | _ => None
  end.

Fixpoint mapM_fields (f : string → goval → option (option goval)) (m : gomap) : option gomap :=
  match m with
  | [] => Some []
  | (k, v) :: m => r ← f k v; out ← mapM_fields f m; Some (match r with Some v => (k, v) :: out | None => out end)
  end.

(** [mddlValue] and [declaredFields]: the fields that are declared, normalised. *)
Fixpoint mddlValue (fuel : nat) (meta : ClaimMetadata) (value : goval) : option goval :=
  match fuel with
  | O => None
  | S fuel =>
      let declaredFields m := mapM_fields (fun k v => match Elements meta !! k with
                                                      | None => Some None
                                                      | Some sub => Some <$> mddlValue fuel sub v
                                                      end) m in
      if bool_decide (ValueType meta = "full-date") then GString <$> normaliseFullDate value else
      if bool_decide (Elements meta = ∅) then Some value else
      if bool_decide (ValueType meta = "map") then
        match value with GMap m => GMap <$> declaredFields m | _ => None end
      else if bool_decide (ValueType meta = "array") then
        match value with
        | GArr l => GArr <$> mapM (fun item => match item with GMap m => GMap <$> declaredFields m | item => Some item end) l
        | _ => None
        end
      else Some value
  end.

(** The elements of every namespace, under their identifiers. *)
Definition filterAgainstMDDL (doc : gomap) (schema : option MDDLSchema) : option gomap :=
  schema ← schema;
  foldl (fun out e => out ← out;
           match mget doc (fst (snd e)) with
           | None => Some out
           | Some v => v ← mddlValue (depth (snd (snd e))) (snd (snd e)) v; Some (mset out (fst (snd e)) v)
           end)
    (Some []) (declared (s_Claims schema)).

(** ** The document *)

Definition buildPresentationDocument (p : PresentationScope) (verified : option gomap) (presentedScope : string)
    (meta : option CredentialMetadata) (now : Z) : result presentation_error gomap :=
  match verified with
  | None => Err PNoClaims
  | Some verified =>
      match mget (ps_From p) presentedScope with
      | None => Err PNotAccepted
      | Some accepted =>
          '(derived, replaced) ← map_err PDerivation (ApplyDerivationsReplacing (pc_Derivations accepted) verified now []);
          let doc := MergeDerived verified derived replaced in
          match ResolveDefaults p now ≫= MergeDefaults doc with
          | None => Err PDefaults
          | Some doc =>
              match meta with
              | None => Err PNoMetadata
              | Some meta =>
                  if bool_decide (cm_Format meta = "mso_mdoc") then
                    match filterAgainstMDDL doc (cm_MDDL meta) with Some out => Ok out | None => Err PElement end
                  else match cm_VCTM meta with
                       | None => Err PNoSchema
                       | Some vctm => Ok (FilterAgainstVCTM doc (Some vctm))
                       end
              end
          end
      end
  end.
End build.
