(* ===== verification/PresentedClaims.v ===== *)
(** * Claims of a presented credential

    [internal/apigw/apiv1]: [presented_claims.go], [identity_match.go] and the
    checks of [handlers_verifier_presentation.go]: reading a claim at a path,
    checking it, turning it into a value a document can carry, and taking it into
    a document.  A Go [map] is a finite map; the loops that end in the same map
    or in an error whatever their order run in some order.

    Values are those the JSON and CBOR decoders make: no pointers, so [*cbor.Tag]
    and [*big.Int] are what they point to.  RFC 3339 date-times and the text of a
    [json.Number] are interfaces. *)

From Stdlib Require Import SpecFloat.
From stdpp Require Import pretty sorting.
From S2P Require Import Prelude Bytes GoStrings Base64 GoValue Utf8 Json Jwt SdJwtIssue MdocSchema ClaimPaths Derivations AuxiliaryData IssuerClient PresentationDoc.

(** ** Values *)

Inductive pvalue : Type :=
| PNil
| PBool (b : bool)
| PText (s : string)
| PFloat (f : spec_float)
| PInt64 (z : Z)
| PUint64 (z : Z)
| PNumber (lit : string)                       (* [json.Number] *)
| PBig (z : Z)                                 (* [big.Int] *)
| PBytes (b : option (list Z))
| PTime (t : Z)                                (* nanoseconds since 1970 *)
| PFullDate (s : string)
| PTDate (s : string)
| PTag (number : Z) (content : pvalue)
| PStrings (l : list string)
| PArr (l : list pvalue)
| PMap (m : gmap string pvalue)                (* [map[string]any] *)
| PAnyMap (m : gmap string pvalue) (foreign : bool).  (* [map[any]any]; [foreign]: with a key that is no string *)

Abbreviation pmap := (gmap string pvalue).

Fixpoint of_json (v : json) : pvalue :=
  match v with
  | JNull => PNil
  | JBool b => PBool b
  | JStr s => PText s
  | JFloat f => PFloat f
  | JInt z => PInt64 z
  | JArr l => PArr (map of_json l)
  | JObj m => PMap (of_json <$> m)
  end.

(** [slices.Sorted(maps.Keys(m))] *)
Definition key_order (a b : string) : Prop := String.leb a b = true.
#[global] Instance key_order_dec : RelDecision key_order.
Proof. intros a b. unfold key_order. apply _. Defined.
Definition sort_keys {A} (m : gmap string A) : list string := merge_sort key_order (map fst (map_to_list m)).

(** ** Paths *)

Definition FormatMsoMdoc := "mso_mdoc".
Definition FormatMsoMdocZk := "mso_mdoc_zk".
Definition isMDocLikeFormat (format : string) : bool := bool_decide (format = FormatMsoMdoc) || bool_decide (format = FormatMsoMdocZk).
Definition isSDJWTFormat (format : string) : bool := bool_decide (format = "dc+sd-jwt") || bool_decide (format = "vc+sd-jwt").
Definition isMDocFormat (format : string) : bool := bool_decide (format = FormatMsoMdoc).

Fixpoint pwalk (cur : pvalue) (segments : list string) : option pvalue :=
  match segments with
  | [] => Some cur
  | seg :: segments => match cur with PMap m => v ← m !! seg; pwalk v segments | _ => None end
  end.

Definition lookupClaimPath (sourceFormat : string) (claims : pmap) (path : string) : option pvalue :=
  match (if isMDocLikeFormat sourceFormat then claims !! path else None) with
  | Some v => Some v
  | None => if negb (has_byte "." path) then claims !! path else pwalk (PMap claims) (Split "." path)
  end.

(** The loop of [setClaimPath]: what is no map on the way is replaced by one. *)
Fixpoint put (dst : pmap) (segments : list string) (val : pvalue) : pmap :=
  match segments with
  | [] => dst
  | [key] => <[key := val]> dst
  | seg :: segments =>
      let next := match dst !! seg with Some (PMap m) => m | _ => ∅ end in
      <[seg := PMap (put next segments val)]> dst
  end.

Definition setClaimPath (sourceFormat : string) (dst src : pmap) (path : string) (val : pvalue) : pmap :=
  if isMDocLikeFormat sourceFormat && bool_decide (is_Some (src !! path)) then <[path := val]> dst else
  if negb (has_byte "." path) then <[path := val]> dst else
  put dst (Split "." path) val.

(** ** Checks *)

Definition claimValueMatches (val : pvalue) (allowed : list string) : bool :=
  let ok s := bool_decide (s ∈ allowed) in
  match val with
  | PText s => ok s
  | PStrings l => existsb ok l
  | PArr l => existsb (fun e => match e with PText s => ok s | _ => false end) l
  | _ => false
  end.

Inductive claim_error :=
| MissingRequiredClaim (claim : string) | ValueNotAllowed (claim : string)
| TypeUnverifiable | TypeMismatch | ScopeMisconfigured | UnsupportedFormat.

Fixpoint verified_claims (sourceFormat : string) (presented : pmap) (required : list (string * list string)) (verified : pmap) :
    result claim_error pmap :=
  match required with
  | [] => Ok verified
  | (claim, allowed) :: required =>
      match lookupClaimPath sourceFormat presented claim with
      | None => Err (MissingRequiredClaim claim)
      | Some val =>
          if negb (bool_decide (allowed = [])) && negb (claimValueMatches val allowed) then Err (ValueNotAllowed claim) else
          verified_claims sourceFormat presented required (setClaimPath sourceFormat verified presented claim val)
      end
  end.
Definition verifiedClaims (sourceFormat : string) (presented : pmap) (required : list (string * list string)) : result claim_error pmap :=
  verified_claims sourceFormat presented required ∅.

Definition or_else (a b : string) : string := if str_empty a then b else a.

(** The type a claim of the credential states, against the one expected. *)
Definition enforce_type (stated : option pvalue) (expected : string) : result claim_error unit :=
  match stated with
  | Some (PText t) =>
      if str_empty t then Err TypeUnverifiable else
      if str_empty expected then Err ScopeMisconfigured else
      if bool_decide (t = expected) then Ok tt else Err TypeMismatch
  | _ => Err TypeUnverifiable
  end.

Definition enforceSDJWTType (meta : CredentialMetadata) (presented : pmap) : result claim_error unit :=
  enforce_type (presented !! "vct") (or_else (match cm_VCTM meta with Some vctm => vctm_VCT vctm | None => "" end) (cm_VCTURL meta)).
Definition enforceMDocType (meta : CredentialMetadata) (presented : pmap) : result claim_error unit :=
  enforce_type (presented !! "docType") (or_else (match cm_MDDL meta with Some mddl => s_DocType mddl | None => "" end) (cm_Doctype meta)).

(** For the metadata of the scope. *)
Definition enforceScopeCredentialType (meta : option CredentialMetadata) (presented : pmap) : result claim_error unit :=
  match meta with
  | None => Err ScopeMisconfigured
  | Some meta =>
      if isSDJWTFormat (cm_Format meta) then enforceSDJWTType meta presented else
      if isMDocFormat (cm_Format meta) then enforceMDocType meta presented else
      if bool_decide (cm_Format meta = FormatMsoMdocZk) then Err UnsupportedFormat else Err ScopeMisconfigured
  end.

(** The claims of a verified mobile document, by namespace and without it for the
    namespace of the standard. *)
Definition mdocNamespace := "org.iso.18013.5.1".
Definition flatten_item (ns : string) (claims : pmap) (item : string * pvalue) : pmap :=
  let claims := <[ns +:+ "." +:+ fst item := snd item]> claims in
  if bool_decide (ns = mdocNamespace) then <[fst item := snd item]> claims else claims.
Definition flatten (namespaces : list (string * list (string * pvalue))) : pmap :=
  foldl (fun claims e => foldl (flatten_item (fst e)) claims (snd e)) ∅ namespaces.
(** [docs]: the verified documents by type, each with its namespaces. *)
Definition mdocClaimsFromResult (docs : list (string * list (string * list (string * pvalue)))) : option pmap :=
  match docs with
  | [(docType, namespaces)] => Some (<["docType" := PText docType]> (flatten namespaces))
  | _ => None
  end.

(** ** Identity *)

Definition TagDate : Z := 1004.
Definition TagDateTime : Z := 0.

(** [unwrapMDocFullDate] *)
Definition unwrapMDocFullDate (v : pvalue) : pvalue :=
  match v with
  | PTag n (PText s) => if bool_decide (n = TagDate) then PText s else v
  | PFullDate s => PText s
  | _ => v
  end.

(** A rule: for each path the value its claim must have; [None] when there is none. *)
Definition matchPresentedIdentity (sourceFormat : string) (presented : pmap) (rule : option (list (string * string))) : bool :=
  match rule with
  | None => true
  | Some tests =>
      forallb (fun t => match lookupClaimPath sourceFormat presented (fst t) with
                        | None => false
                        | Some value =>
                            claimValueMatches (if isMDocLikeFormat sourceFormat then unwrapMDocFullDate value else value) [snd t]
                        end) tests
  end.

Definition claimString (v : pvalue) : option string :=
  match v with
  | PText s | PFullDate s | PTDate s => Some s
  | PTag n content =>
      if bool_decide (n = TagDate) || bool_decide (n = TagDateTime) then match content with PText s => Some s | _ => None end else None
  | _ => None
  end.

Record AuthScopeEntry := mkAuthScope {
  AuthClaims : list string;
  IdentityAttributes : gmap string string;
  DocumentClaims : list (string * string)       (* in the order of the sources *)
}.

Definition extractAuthScopeIdentity (sourceFormat : string) (presented : pmap) (entry : AuthScopeEntry) : option (gmap string string) :=
  foldl (fun out claim =>
           out ← out;
           s ← lookupClaimPath sourceFormat presented claim ≫= claimString;
           Some (<[default claim (IdentityAttributes entry !! claim) := s]> out))
    (Some ∅) (AuthClaims entry).

(** ** Dates *)

Definition day : Z := 86400 * second.

(** The date of a day, counted from 1970-01-01. *)
Definition civil_from_days (n : Z) : date :=
  let z := n + 719468 in
  let doe := z mod 146097 in
  let yoe := (doe - doe / 1460 + doe / 36524 - doe / 146096) / 365 in
  let doy := doe - (365 * yoe + yoe / 4 - yoe / 100) in
  let mp := (5 * doy + 2) / 153 in
  let m := if bool_decide (mp < 10) then mp + 3 else mp - 9 in
  mkDate (yoe + z / 146097 * 400 + (if bool_decide (m ≤ 2) then 1 else 0)) m (doy - (153 * mp + 2) / 5 + 1).
Definition utc_date (t : Z) : date := civil_from_days (t / day).

(** [math.Floor], as an integer. *)
Definition float_floor (f : spec_float) : option Z :=
  match f with
  | S754_zero _ => Some 0
  | S754_finite s m e => Some (let a := if s then Z.neg m else Z.pos m in if bool_decide (0 ≤ e) then a * 2 ^ e else a / 2 ^ (- e))
  | _ => None
  end.

Definition MaxInt64 : Z := 2 ^ 63 - 1.

(** [math.MaxInt64] compared with a [float64] is 2^63, and so may be converted. *)
Definition epoch_seconds (f : spec_float) : option Z :=
  z ← float_floor f; if bool_decide (2 ^ 63 < z) || bool_decide (z < - 2 ^ 63) then None else Some z.

Section dates.
Context `{Arch} `{Times}.

Definition int64_of (z : Z) : Z := float_int64 (float_of_Z z).

Definition epochFullDate (content : pvalue) : option string :=
  match content with
  | PUint64 n => if bool_decide (MaxInt64 < n) then None else fullDate (utc_date (time_Unix n))
  | PInt64 n => fullDate (utc_date (time_Unix n))
  | PFloat f => z ← epoch_seconds f; fullDate (utc_date (time_Unix (int64_of z)))
  | _ => None
  end.

(** The instant of a tag 1: [epochTime] on the tag. *)
Definition epochTime (v : pvalue) : option Z :=
  match v with
  | PTag 1 (PUint64 n) => if bool_decide (MaxInt64 < n) then None else Some (time_Unix n)
  | PTag 1 (PInt64 n) => Some (time_Unix n)
  | PTag 1 (PFloat f) =>
      z ← epoch_seconds f;
      let fraction := SFmul 53 1024 (SFsub 53 1024 f (float_of_Z z)) (float_of_Z 1000000000) in
      let nanos := match float_floor fraction with Some n => int64_of n | None => int64_overflow fraction end in
      Some (time_Unix (int64_of z) + Z.min nanos (second - 1))
  | _ => None
  end.

Definition text_date (s : string) : option string :=
  match parse_DateOnly s with
  | Some d => fullDate d
  | None => d ← parse_RFC3339 s; fullDate d
  end.

Definition normaliseFullDate (v : pvalue) : option string :=
  match v with
  | PTime t => fullDate (utc_date t)
  | PTag 1 content => epochFullDate content
  | _ => claimString v ≫= text_date
  end.
End dates.

(** ** Values a document can carry *)

Definition maxExactJSONInt : Z := 2 ^ 53 - 1.
Definition exact (z : Z) : bool := bool_decide (- maxExactJSONInt ≤ z ≤ maxExactJSONInt).
(** [f > max || f < -max] is false. *)
Definition exact_float (f : spec_float) : bool :=
  negb (SFltb (float_of_Z maxExactJSONInt) f) && negb (SFltb f (float_of_Z (- maxExactJSONInt))).

(** The two readings of the text of a number. *)
Class NumberText := { number_Int64 : string → option Z; number_Float64 : string → option spec_float }.

Definition refuseNonFinite (f : spec_float) : option spec_float := if finite f then Some f else None.

Definition bignumValue (n : Z) : option pvalue :=
  if negb (bool_decide (- 2 ^ 63 ≤ n < 2 ^ 63)) then None else if exact n then Some (PInt64 n) else None.

Definition floatValue (f : spec_float) : option pvalue :=
  f ← refuseNonFinite f; if exact_float f then Some (PFloat f) else None.

(** A timestamp as [encoding/json] writes it in UTC. *)
Fixpoint zeros (n : nat) : string := match n with O => "" | S n => String "0" (zeros n) end.
Definition pad9 (n : Z) : string := zeros (9 - String.length (pretty n)) +:+ pretty n.
Fixpoint trim_zeros (s : string) : string :=
  match s with
  | EmptyString => ""
  | String c s => let r := trim_zeros s in if str_empty r && bool_decide (c = "0"%char) then "" else String c r
  end.
Definition time_of_day (t : Z) : string :=
  let secs := t mod day / second in
  let frac := t mod second in
  pad2 (secs / 3600) +:+ ":" +:+ pad2 (secs / 60 mod 60) +:+ ":" +:+ pad2 (secs mod 60) +:+
  (if bool_decide (frac = 0) then "" else "." +:+ trim_zeros (pad9 frac)) +:+ "Z".
Definition timestamp (t : Z) : string := format_date (utc_date t) +:+ "T" +:+ time_of_day t.
Definition jsonTimestamp (t : Z) : option string :=
  if bool_decide (0 ≤ Year (utc_date t) ≤ 9999) then Some (timestamp t) else None.

Section documents.
Context `{Arch} `{NumberText}.

Definition numberValue (lit : string) : option pvalue :=
  match number_Int64 lit with
  | Some i => if exact i then Some (PInt64 i) else None
  | None => f ← number_Float64 lit; floatValue f
  end.

Definition tagValue (n : Z) (content : pvalue) : option pvalue :=
  match claimString (PTag n content) with
  | Some s => Some (PText s)
  | None => t ← epochTime (PTag n content); PText <$> jsonTimestamp t
  end.

Fixpoint documentValue (v : pvalue) : option pvalue :=
  match v with
  | PMap m => PMap <$> sequence_map (documentValue <$> m)
  | PAnyMap m foreign => if foreign then None else PMap <$> sequence_map (documentValue <$> m)
  | PArr l => PArr <$> mapM documentValue l
  | PTag n content => tagValue n content
  | PFullDate s | PTDate s => Some (PText s)
  | PTime t => PText <$> jsonTimestamp t
  | PBytes None => Some PNil
  | PBytes (Some b) => Some (PText (std64 (bytes_str b)))
  | PBig n => bignumValue n
  | PNumber lit => numberValue lit
  | PInt64 z => if exact z then Some (PInt64 z) else None
  | PUint64 z => if bool_decide (maxExactJSONInt < z) then None else Some (PUint64 z)
  | PFloat f => floatValue f
  | PNil | PBool _ | PText _ | PStrings _ => Some v
  end.
Definition documentObject (m : pmap) : option pmap := sequence_map (documentValue <$> m).

(** As the values of a stored document: an unsigned integer is within the range
    of the signed ones by then, and no later code tells the two apart. *)
Fixpoint to_goval (v : pvalue) : goval :=
  match v with
  | PBool b => GBool b
  | PText s => GString s
  | PFloat f => GFloat64 f
  | PInt64 z | PUint64 z => GInt64 z
  | PStrings l => GStrings l
  | PArr l => GArr (map to_goval l)
  | PMap m => GMap (map_to_list (to_goval <$> m))
  | _ => GNil
  end.
Definition to_gomap (m : pmap) : gomap := map_to_list (to_goval <$> m).

(** *** Claims copied into documents *)

(** The type the schema of the target declares for an element, in the first
    namespace that declares it. *)
Definition targetValueType (target : option CredentialMetadata) (element : string) : string :=
  match target ≫= cm_MDDL with
  | None => ""
  | Some schema =>
      default "" (ValueType <$> head (omap (fun ns => s_Claims schema !! ns ≫= (.!! element)) (sort_keys (s_Claims schema))))
  end.

Context `{Times}.

Definition presented_value (target : option CredentialMetadata) (dst : string) (raw : pvalue) : option pvalue :=
  if bool_decide (targetValueType target dst = "full-date") then PText <$> normaliseFullDate raw else
  match claimString raw with
  | Some s => Some (PText s)
  | None => documentValue raw
  end.

Definition presentedDocumentClaims (sourceFormat : string) (presented : pmap) (entry : AuthScopeEntry) (target : option CredentialMetadata) : option pmap :=
  foldl (fun out e =>
           out ← out;
           raw ← lookupClaimPath sourceFormat presented (fst e);
           v ← presented_value target (snd e) raw;
           Some (<[snd e := v]> out))
    (Some ∅) (DocumentClaims entry).
End documents.

(** A claim that was copied replaces the document's own. *)
Definition overlay (claims : pmap) (doc : CompleteDocument) : CompleteDocument :=
  mkDocument (Some (foldl (fun data e => mset data (fst e) (to_goval (snd e))) (default [] (IssuerClient.DocumentData doc)) (map_to_list claims)))
    (sort_keys claims) [].
Definition applyPresentedDocumentClaims (docs : documents) (claims : pmap) : documents :=
  if bool_decide (claims = ∅) then docs else map (fun e => (fst e, overlay claims <$> snd e)) docs.
