(* ===== verification/PresentedClaimsFacts.v ===== *)
(** * What is taken from a presented credential

    Of [PresentedClaims]: the claims that are verified are the presented ones and
    nothing else; a value that is stored is one every store and the issued
    document carry unchanged; a date is the date of the presented instant. *)

From Stdlib Require Import SpecFloat.
From stdpp Require Import pretty sorting.
From S2P Require Import Prelude Bytes GoStrings Base64 GoValue Utf8 Json Jwt SdJwtIssue MdocSchema ClaimPaths Derivations AuxiliaryData IssuerClient PresentationDoc PresentedClaims.

(** ** Required claims *)

(** Where a claim is in a presented credential, and is put. *)
Definition place (sourceFormat : string) (presented : pmap) (claim : string) : list string :=
  if isMDocLikeFormat sourceFormat && bool_decide (is_Some (presented !! claim)) then [claim] else Split "." claim.

Lemma place_nonempty f m c : place f m c ≠ [].
Proof. unfold place. destruct (_ && _); [done|]. apply Split_nonempty. Qed.

Lemma pwalk_key (m : pmap) k : pwalk (PMap m) [k] = m !! k.
Proof. cbn. by destruct (m !! k). Qed.

Lemma lookup_place f m c : lookupClaimPath f m c = pwalk (PMap m) (place f m c).
Proof.
  unfold lookupClaimPath, place. destruct (isMDocLikeFormat f); cbn [andb].
  - case_bool_decide as Hs; [rewrite pwalk_key; by destruct Hs as [v ->]|].
    apply eq_None_not_Some in Hs. rewrite Hs. destruct (has_byte "." c) eqn:Eb; cbn [negb]; [done|].
    by rewrite (Split_no_sep _ _ Eb), pwalk_key, Hs.
  - destruct (has_byte "." c) eqn:Eb; cbn [negb]; [done|]. by rewrite (Split_no_sep _ _ Eb), pwalk_key.
Qed.

Lemma set_place f dst m c v : setClaimPath f dst m c v = put dst (place f m c) v.
Proof.
  unfold setClaimPath, place. destruct (_ && _); [done|]. destruct (has_byte "." c) eqn:Eb; cbn [negb]; [done|].
  by rewrite (Split_no_sep _ _ Eb).
Qed.

Lemma put_cons dst k k2 q v :
  put dst (k :: k2 :: q) v = <[k := PMap (put (match dst !! k with Some (PMap m) => m | _ => ∅ end) (k2 :: q) v)]> dst.
Proof. done. Qed.

Lemma pwalk_put q : ∀ dst v, q ≠ [] → pwalk (PMap (put dst q v)) q = Some v.
Proof.
  induction q as [|k q IH]; intros dst v; [done|]. intros _. destruct q as [|k2 q].
  - rewrite pwalk_key. cbn. by rewrite lookup_insert_eq.
  - rewrite put_cons. cbn [pwalk]. rewrite lookup_insert_eq. cbn [mbind option_bind]. by apply IH.
Qed.

Lemma put_present q : ∀ m v, q ≠ [] → pwalk (PMap m) q = Some v → put m q v = m.
Proof.
  induction q as [|k q IH]; intros m v; [done|]. intros _. destruct q as [|k2 q].
  - rewrite pwalk_key. intros E. cbn. by apply insert_id.
  - cbn [pwalk]. destruct (m !! k) as [w|] eqn:E; [|done]. cbn [mbind option_bind]. intros Hw. rewrite put_cons, E.
    destruct w; try done. rewrite IH by done. by apply insert_id.
Qed.

(** Writing a claim leaves the others that agree with the source. *)
Lemma put_agree q : ∀ dst src p v x, q ≠ [] → p ≠ [] →
  pwalk (PMap src) q = Some v → pwalk (PMap src) p = Some x → pwalk (PMap dst) p = Some x →
  pwalk (PMap (put dst q v)) p = Some x.
Proof.
  induction q as [|k q IH]; intros dst src p v x; [done|]. intros _ Hp Hq Hs Hd. destruct p as [|k' p]; [done|].
  destruct (decide (k' = k)) as [->|Hne].
  2:{ destruct q as [|k2 q]; [|rewrite put_cons]; cbn [pwalk put]; by rewrite lookup_insert_ne. }
  cbn [pwalk] in Hq, Hs, Hd. destruct (src !! k) as [w|] eqn:Es; [|done]. cbn [mbind option_bind] in Hq, Hs.
  destruct (dst !! k) as [dv|] eqn:Ed; [|done]. cbn [mbind option_bind] in Hd. destruct q as [|k2 q].
  { cbn [pwalk put]. rewrite lookup_insert_eq. cbn [mbind option_bind]. cbn in Hq. by injection Hq as ->. }
  rewrite put_cons, Ed. cbn [pwalk]. rewrite lookup_insert_eq. cbn [mbind option_bind].
  assert (∃ sm, w = PMap sm) as (sm & ->) by (destruct w; try done; eauto).
  destruct p as [|k3 p].
  - cbn in Hs, Hd. injection Hs as <-. injection Hd as ->. cbn [pwalk]. by rewrite put_present.
  - assert (∃ dm, dv = PMap dm) as (dm & ->) by (destruct dv; try done; eauto). by eapply IH.
Qed.

Definition leaf (x : pvalue) : Prop := ∀ m, x ≠ PMap m.

(** A value of the result was written or was there. *)
Lemma put_origin q : ∀ dst p v x, q ≠ [] → leaf x →
  pwalk (PMap (put dst q v)) p = Some x →
  (∃ r, p = (q ++ r)%list ∧ pwalk v r = Some x) ∨ pwalk (PMap dst) p = Some x.
Proof.
  induction q as [|k q IH]; intros dst p v x; [done|]. intros _ Hx Hw.
  destruct p as [|k' p]; [cbn in Hw; injection Hw as <-; by destruct (Hx (put dst (k :: q) v))|].
  destruct (decide (k' = k)) as [->|Hne].
  2:{ right. destruct q as [|k2 q]; [|rewrite put_cons in Hw]; cbn [pwalk put] in Hw; by rewrite lookup_insert_ne in Hw. }
  destruct q as [|k2 q].
  { left. exists p. split; [done|]. cbn [pwalk put] in Hw. by rewrite lookup_insert_eq in Hw. }
  rewrite put_cons in Hw. cbn [pwalk] in Hw. rewrite lookup_insert_eq in Hw. cbn [mbind option_bind] in Hw.
  destruct (IH _ _ _ _ ltac:(done) Hx Hw) as [(r & -> & Hr)|Hd]; [by left; exists r|]. right. cbn [pwalk].
  destruct (dst !! k) as [dv|]; [destruct dv|]; cbn [mbind option_bind]; try done;
    (destruct p as [|k3 p]; [cbn in Hd; injection Hd as <-; by destruct (Hx ∅)|cbn in Hd; by rewrite lookup_empty in Hd]).
Qed.

Lemma put_keys q : ∀ dst v k, is_Some (put dst q v !! k) → is_Some (dst !! k) ∨ head q = Some k.
Proof.
  intros dst v k. destruct q as [|k1 [|k2 q]]; [by left|..]; rewrite ?put_cons; cbn [put head];
    (destruct (decide (k1 = k)) as [->|Hne]; [by right|]); rewrite lookup_insert_ne by done; by left.
Qed.

(** What the loop keeps: [seen] are the claims so far. *)
Record taken (f : string) (presented verified : pmap) (seen : list string) : Prop := {
  tk_agree : ∀ c, c ∈ seen → is_Some (pwalk (PMap presented) (place f presented c)) ∧
    pwalk (PMap verified) (place f presented c) = pwalk (PMap presented) (place f presented c);
  tk_only : ∀ p x, leaf x → pwalk (PMap verified) p = Some x →
    ∃ c, c ∈ seen ∧ place f presented c `prefix_of` p ∧ pwalk (PMap presented) p = Some x;
  tk_dotted : ∀ k, has_byte "." k = true → is_Some (verified !! k) → isMDocLikeFormat f = true ∧ is_Some (presented !! k)
}.

Lemma pwalk_app v p q : pwalk v (p ++ q) = (w ← pwalk v p; pwalk w q).
Proof.
  revert v. induction p as [|k p IH]; intros v; [done|]. cbn [app pwalk]. destruct v; try done.
  destruct (m !! k) as [w|]; [|done]. cbn [mbind option_bind]. apply IH.
Qed.

Lemma taken_step f presented verified seen c v :
  taken f presented verified seen → lookupClaimPath f presented c = Some v →
  taken f presented (setClaimPath f verified presented c v) (c :: seen).
Proof.
  intros [Ha Ho Hd] Hl. rewrite lookup_place in Hl. rewrite set_place. pose proof (place_nonempty f presented c) as Hc. split.
  - intros c' Hc'. destruct (decide (c' = c)) as [->|Hne]; [by rewrite pwalk_put, Hl|].
    apply elem_of_cons in Hc' as [|Hc']; [done|]. destruct (Ha c' Hc') as [[x Hx] Hag]. split; [by exists x|].
    rewrite Hx in *. eapply put_agree; [done|apply place_nonempty|done..].
  - intros p x Hx Hw. destruct (put_origin _ _ _ _ _ Hc Hx Hw) as [(r & -> & Hr)|Hold].
    + exists c. split_and!; [set_solver|by exists r|]. by rewrite pwalk_app, Hl.
    + destruct (Ho p x Hx Hold) as (c' & ? & ? & ?). exists c'. set_solver.
  - intros k Hk Hs. destruct (put_keys _ _ _ _ Hs) as [Hold|Hh]; [auto|].
    unfold place in Hh. destruct (isMDocLikeFormat f) eqn:Ef; cbn [andb] in Hh.
    + case_bool_decide as Hin; [cbn in Hh; injection Hh as ->; done|]. destruct (Split "." c) as [|w ws] eqn:Es; [done|].
      injection Hh as ->. assert (k ∈ Split "." c) as Hin' by (rewrite Es; left). by rewrite (Split_elem_no_sep _ _ _ Hin') in Hk.
    + destruct (Split "." c) as [|w ws] eqn:Es; [done|]. injection Hh as ->.
      assert (k ∈ Split "." c) as Hin' by (rewrite Es; left). by rewrite (Split_elem_no_sep _ _ _ Hin') in Hk.
Qed.

(** Reading a claim of what was taken. *)
Lemma taken_lookup f presented verified seen c :
  taken f presented verified seen → c ∈ seen → lookupClaimPath f verified c = lookupClaimPath f presented c.
Proof.
  intros [Ha _ Hd] Hc. rewrite !lookup_place. destruct (Ha c Hc) as [[x Hx] Hag]. rewrite <- Hag. f_equal.
  unfold place at 1. destruct (isMDocLikeFormat f) eqn:Ef; cbn [andb]; [|unfold place; by rewrite Ef].
  destruct (has_byte "." c) eqn:Eb.
  - case_bool_decide as Hs.
    + destruct (Hd c Eb Hs) as [_ Hp]. unfold place. by rewrite Ef, bool_decide_true.
    + unfold place in Hag |- *. rewrite Ef in Hag |- *. cbn [andb] in *. case_bool_decide as Hp; [|done].
      rewrite !pwalk_key in Hag. destruct Hs. by rewrite Hag.
  - unfold place. rewrite Ef, (Split_no_sep _ _ Eb). cbn [andb]. by do 2 case_bool_decide.
Qed.

Lemma verified_claims_taken f presented required : ∀ verified seen out,
  taken f presented verified seen → verified_claims f presented required verified = Ok out →
  ∃ seen', taken f presented out seen' ∧ (∀ c, c ∈ seen' ↔ c ∈ seen ∨ c ∈ map fst required) ∧
    ∀ c allowed, (c, allowed) ∈ required → ∃ v, lookupClaimPath f presented c = Some v ∧ (allowed = [] ∨ claimValueMatches v allowed = true).
Proof.
  induction required as [|[c allowed] required IH]; intros verified seen out Ht; cbn [verified_claims].
  { intros [= <-]. exists seen. split_and!; [done|set_solver|set_solver]. }
  destruct (lookupClaimPath f presented c) as [v|] eqn:El; [|by intros]. 
  destruct (negb _ && negb _) eqn:Ea; [by intros|]. intros Hr.
  destruct (IH _ _ _ (taken_step _ _ _ _ _ _ Ht El) Hr) as (seen' & Ht' & Hd & Hall). exists seen'. split_and!; [done|set_solver|].
  intros c' al [[= -> ->]|Hin]%elem_of_cons; [|auto]. exists v. split; [done|].
  apply andb_false_iff in Ea as [Ea|Ea]; apply negb_false_iff in Ea; [left; by apply bool_decide_eq_true in Ea|by right].
Qed.

Lemma verified_claims_error f presented required verified e :
  verified_claims f presented required verified = Err e → ∃ claim allowed, (claim, allowed) ∈ required ∧
     (e = MissingRequiredClaim claim ∧ lookupClaimPath f presented claim = None ∨
      e = ValueNotAllowed claim ∧ allowed ≠ [] ∧
        ∃ v, lookupClaimPath f presented claim = Some v ∧ claimValueMatches v allowed = false).
Proof.
  revert verified. induction required as [|[c allowed] required IH]; intros verified; cbn [verified_claims]; [done|].
  destruct (lookupClaimPath f presented c) as [v|] eqn:El.
  2:{ intros [= <-]. exists c, allowed. split; [constructor|]. by left. }
  destruct (negb _ && negb _) eqn:Ea.
  - intros [= <-]. exists c, allowed. split; [constructor|]. right.
    apply andb_true_iff in Ea as [Ha%negb_true_iff%bool_decide_eq_false Hm%negb_true_iff]. eauto.
  - intros (c' & al & Hin & Hc)%IH. exists c', al. split; [by constructor|done].
Qed.

(** C14: The claims taken from a presented credential are exactly the required ones: each is present, has an allowed
    value, and reads the same from what was taken as from the credential; and every value that was taken is under a
    required claim and is the value the credential has at that place.  Otherwise the error names a required claim that
    is missing, or one whose value is not allowed, and says which of the two; when every required claim is present and
    allowed there is no error.  [required] lists the map in the order Go went through it, which decides the claim that
    is named. *)
Theorem verified_claims_exact f presented required :
  (∀ verified, verifiedClaims f presented required = Ok verified →
    (∀ claim allowed, (claim, allowed) ∈ required → ∃ v,
       lookupClaimPath f presented claim = Some v ∧ lookupClaimPath f verified claim = Some v ∧
       (allowed = [] ∨ claimValueMatches v allowed = true)) ∧
    (∀ p x, leaf x → pwalk (PMap verified) p = Some x →
       ∃ claim, claim ∈ map fst required ∧ place f presented claim `prefix_of` p ∧ pwalk (PMap presented) p = Some x)) ∧
  (∀ e, verifiedClaims f presented required = Err e → ∃ claim allowed, (claim, allowed) ∈ required ∧
     (e = MissingRequiredClaim claim ∧ lookupClaimPath f presented claim = None ∨
      e = ValueNotAllowed claim ∧ allowed ≠ [] ∧
        ∃ v, lookupClaimPath f presented claim = Some v ∧ claimValueMatches v allowed = false)) ∧
  ((∀ claim allowed, (claim, allowed) ∈ required → ∃ v,
      lookupClaimPath f presented claim = Some v ∧ (allowed = [] ∨ claimValueMatches v allowed = true)) →
   ∃ verified, verifiedClaims f presented required = Ok verified).
Proof.
  split_and!; [|by apply verified_claims_error|].
  - intros verified Hv. destruct (verified_claims_taken f presented required ∅ [] verified) as (seen & Ht & Hd & Hall); [|done|].
    { split; [set_solver| |].
      - intros [|k p] x Hx; cbn; [intros [= <-]; by destruct (Hx ∅)|by rewrite lookup_empty].
      - intros k _ [v Hv']. by rewrite lookup_empty in Hv'. }
    split.
    + intros c allowed Hin. destruct (Hall c allowed Hin) as (v & Hl & Ha). exists v. split_and!; [done| |done].
      rewrite (taken_lookup _ _ _ _ _ Ht); [done|]. apply Hd. right. apply list_elem_of_fmap. by exists (c, allowed).
    + intros p x Hx Hw. destruct (tk_only _ _ _ _ Ht p x Hx Hw) as (c & Hc & ? & ?). exists c. split_and!; [|done..].
      apply Hd in Hc as [?|?]; [set_solver|done].
  - unfold verifiedClaims. generalize (∅ : pmap). induction required as [|[c allowed] required IH]; intros m Hall; [by exists m|].
    cbn [verified_claims]. destruct (Hall c allowed) as (v & -> & Ha); [set_solver|].
    replace (_ && _) with false; [apply IH; set_solver|]. destruct Ha as [->| ->]; [done|]. by rewrite andb_false_r.
Qed.

(** ** Values that are stored *)

Fixpoint pdepth (v : pvalue) : nat :=
  match v with
  | PArr l => S (list_max (map pdepth l))
  | PMap m | PAnyMap m _ => S (list_max (map snd (map_to_list (pdepth <$> m))))
  | _ => 1
  end.

Lemma pvalue_nested_ind (P : pvalue → Prop) :
  (∀ v, match v with PArr _ | PMap _ | PAnyMap _ _ => False | _ => True end → P v) →
  (∀ l, (∀ v, v ∈ l → P v) → P (PArr l)) →
  (∀ m, (∀ k v, m !! k = Some v → P v) → P (PMap m)) →
  (∀ m b, (∀ k v, m !! k = Some v → P v) → P (PAnyMap m b)) → ∀ v, P v.
Proof.
  intros H0 Ha Hm Hn v. remember (pdepth v) as n eqn:En. revert v En.
  induction n as [n IH] using lt_wf_ind. intros v ->.
  assert (∀ (m : pmap) k w, m !! k = Some w → (pdepth w < S (list_max (map snd (map_to_list (pdepth <$> m)))))%nat) as Hd.
  { intros m k w Hw. apply Nat.lt_succ_r, list_max_elem, elem_of_map_snd. exists k. by rewrite lookup_fmap, Hw. }
  destruct v; try by apply H0.
  - apply Ha. intros v Hv. eapply IH; [|done]. cbn. apply Nat.lt_succ_r, list_max_elem, list_elem_of_In, in_map, list_elem_of_In, Hv.
  - apply Hm. intros k v Hv. eapply IH; [|done]. cbn. by eapply Hd.
  - apply Hn. intros k v Hv. eapply IH; [|done]. cbn. by eapply Hd.
Qed.

(** What every store and the issued document hold as it is: the values of JSON,
    with numbers that a [float64] has exactly. *)
Inductive carried : pvalue → Prop :=
| carried_nil : carried PNil
| carried_bool b : carried (PBool b)
| carried_text s : carried (PText s)
| carried_strings l : carried (PStrings l)
| carried_int z : float_trunc (float_of_Z z) = Some z → - maxExactJSONInt ≤ z ≤ maxExactJSONInt → carried (PInt64 z)
| carried_uint z : float_trunc (float_of_Z z) = Some z → 0 ≤ z ≤ maxExactJSONInt → carried (PUint64 z)
| carried_float f : finite f = true → exact_float f = true → carried (PFloat f)
| carried_arr l : Forall carried l → carried (PArr l)
| carried_map m : map_Forall (fun _ v => carried v) m → carried (PMap m).

(** A value as its decoder makes it: unsigned integers are not negative. *)
Fixpoint decodable (v : pvalue) : bool :=
  match v with
  | PUint64 z => bool_decide (0 ≤ z)
  | PArr l => forallb decodable l
  | PMap m | PAnyMap m _ => bool_decide (map_Forall (fun _ b => b = true) (decodable <$> m))
  | _ => true
  end.

Section stored.
Context `{Arch} `{NumberText}.

Lemma exact_spec z : exact z = true ↔ - maxExactJSONInt ≤ z ≤ maxExactJSONInt.
Proof. apply bool_decide_eq_true. Qed.

Lemma exact_float_of z : - maxExactJSONInt ≤ z ≤ maxExactJSONInt → float_trunc (float_of_Z z) = Some z.
Proof. intros Hz. apply float_of_Z_trunc. unfold maxExactJSONInt in Hz. lia. Qed.

Lemma carried_integer z : exact z = true → carried (PInt64 z).
Proof. intros Hz%exact_spec. constructor; [by apply exact_float_of|done]. Qed.

Lemma floatValue_carried f w : floatValue f = Some w → w = PFloat f ∧ carried w.
Proof.
  unfold floatValue, refuseNonFinite. destruct (finite f) eqn:Ef; [|done]. cbn. destruct (exact_float f) eqn:Ee; [|done].
  intros [= <-]. split; [done|by constructor].
Qed.

Lemma decodable_lookup (m : pmap) k v :
  bool_decide (map_Forall (fun _ b => b = true) (decodable <$> m)) = true → m !! k = Some v → decodable v = true.
Proof. intros Hm%bool_decide_eq_true Hk. apply (Hm k). by rewrite lookup_fmap, Hk. Qed.

Lemma documentValue_carried v : ∀ w, decodable v = true → documentValue v = Some w → carried w.
Proof.
  induction v as [v Hleaf|l IH|m IH|m b IH] using pvalue_nested_ind; intros w Hd; cbn [documentValue].
  - destruct v as [| | | | | |lit| |[]| | | |n c| | | |]; try done; cbn [documentValue]; rewrite ?fmap_Some;
      try (by intros [= <-]; constructor); try (intros (s & _ & ->); constructor).
    + by intros [_ ?]%floatValue_carried.
    + destruct (exact z) eqn:Ez; [|done]. intros [= <-]. by apply carried_integer.
    + cbn in Hd. apply bool_decide_eq_true in Hd. case_bool_decide; [done|]. intros [= <-]. constructor; [apply exact_float_of|]; lia.
    + unfold numberValue. destruct (number_Int64 lit) as [i|].
      * destruct (exact i) eqn:Ei; [|done]. intros [= <-]. by apply carried_integer.
      * destruct (number_Float64 lit) as [f|]; [|done]. cbn. by intros [_ ?]%floatValue_carried.
    + unfold bignumValue. destruct (negb _); [done|]. destruct (exact z) eqn:Ez; [|done]. intros [= <-]. by apply carried_integer.
    + unfold tagValue. destruct (claimString _); [intros [= <-]; constructor|].
      destruct (epochTime _); [|done]. cbn. intros (s & _ & ->)%fmap_Some. constructor.
  - intros (l' & Hl & ->)%fmap_Some. constructor. apply mapM_Some in Hl. cbn in Hd. rewrite forallb_elem in Hd.
    induction Hl as [|v w l l' Hv Hl IHl]; constructor; [apply (IH v); [left|apply Hd; left|done]|].
    apply IHl; intros; [eapply IH|apply Hd]; try done; by right.
  - intros (m' & Hm & ->)%fmap_Some. constructor. intros k w Hw. rewrite sequence_map_fmap in Hm. specialize (Hm k).
    destruct (m !! k) as [v|] eqn:Ek; [|congruence]. destruct Hm as (w' & Hv & Hw'). rewrite Hw' in Hw. injection Hw as ->.
    eapply IH; [done|by eapply decodable_lookup|done].
  - destruct b; [done|]. intros (m' & Hm & ->)%fmap_Some. constructor. intros k w Hw. rewrite sequence_map_fmap in Hm. specialize (Hm k).
    destruct (m !! k) as [v|] eqn:Ek; [|congruence]. destruct Hm as (w' & Hv & Hw'). rewrite Hw' in Hw. injection Hw as ->.
    eapply IH; [done|by eapply decodable_lookup|done].
Qed.

(** A carried value is stored as it is. *)
Lemma carried_stable v : carried v → documentValue v = Some v.
Proof.
  induction v as [v Hleaf|l IH|m IH|m b IH] using pvalue_nested_ind; intros Hc; inversion Hc; subst; try done; cbn [documentValue].
  - by rewrite (proj2 (exact_spec _)).
  - by rewrite bool_decide_eq_false_2 by lia.
  - unfold floatValue, refuseNonFinite. by rewrite (H1 : finite f = true); cbn; rewrite (H2 : exact_float f = true).
  - replace (mapM documentValue l) with (Some l); [done|]. symmetry. apply mapM_Some.
    rewrite Forall_forall in H2. clear Hc. induction l as [|v l IHl]; constructor; [apply IH; [left|apply H2; left]|].
    apply IHl; intros; [apply IH|apply H2]; try done; by right.
  - replace (sequence_map _) with (Some m); [done|]. symmetry. apply sequence_map_fmap. intros k.
    destruct (m !! k) as [v|] eqn:Ek; [|done]. exists v. split; [|done]. apply (IH k); [done|by eapply H2].
Qed.

(** Places are kept. *)
Lemma documentValue_pwalk v : ∀ w p x, documentValue v = Some w → pwalk v p = Some x →
  ∃ y, documentValue x = Some y ∧ pwalk w p = Some y.
Proof.
  intros w p. revert v w. induction p as [|k p IH]; intros v w x Hv; [intros [= <-]; by exists w|].
  cbn [pwalk]. destruct v; try done. cbn [documentValue] in Hv. apply fmap_Some in Hv as (m' & Hm & ->).
  rewrite sequence_map_fmap in Hm. specialize (Hm k). destruct (m !! k) as [v|]; [|done]. cbn [mbind option_bind].
  destruct Hm as (w & Hv & ->). cbn [mbind option_bind]. by apply IH.
Qed.

(** The JSON value a presented value stands for: a number whatever its Go type,
    the text of a date, the base64 text of bytes, the timestamp of an instant as
    [encoding/json] writes it. *)
Fixpoint meaning (v : pvalue) : option json :=
  match v with
  | PNil | PBytes None => Some JNull
  | PBool b => Some (JBool b)
  | PText s | PFullDate s | PTDate s | PTag 1004 (PText s) | PTag 0 (PText s) => Some (JStr s)
  | PInt64 z | PUint64 z | PBig z => Some (JInt z)
  | PFloat f => Some (JFloat f)
  | PNumber lit =>
      match number_Int64 lit with Some z => Some (JInt z) | None => JFloat <$> number_Float64 lit end
  | PBytes (Some b) => Some (JStr (std64 (bytes_str b)))
  | PTime t => Some (JStr (timestamp t))
  | PTag n content => (fun t => JStr (timestamp t)) <$> epochTime (PTag n content)
  | PStrings l => Some (JArr (map JStr l))
  | PArr l => JArr <$> mapM meaning l
  | PMap m | PAnyMap m _ => JObj <$> sequence_map (meaning <$> m)
  end.

Definition same_meaning (v w : pvalue) : Prop := ∃ j, meaning v = Some j ∧ meaning w = Some j.

Lemma jsonTimestamp_Some t s : jsonTimestamp t = Some s → s = timestamp t.
Proof. unfold jsonTimestamp. case_bool_decide; [by intros [= <-]|done]. Qed.

Lemma epochTime_tag n c t : epochTime (PTag n c) = Some t → n = 1.
Proof. by destruct n as [|[]|]. Qed.

Lemma tagValue_meaning n c w : tagValue n c = Some w → same_meaning (PTag n c) w.
Proof.
  unfold tagValue, claimString, TagDate, TagDateTime. destruct (_ || _) eqn:En.
  - apply orb_true_iff in En as [En|En]; apply bool_decide_eq_true in En as ->; destruct c; try done;
      intros [= <-]; by eexists.
  - intros (t & Ht & Hs)%bind_Some. apply fmap_Some in Hs as (s & Hs & ->). apply jsonTimestamp_Some in Hs as ->.
    pose proof (epochTime_tag _ _ _ Ht) as ->. exists (JStr (timestamp t)). split; [|done]. cbn [meaning]. by rewrite Ht.
Qed.

Lemma sequence_meaning (m : pmap) m' :
  (∀ k v, m !! k = Some v → ∀ w, documentValue v = Some w → same_meaning v w) →
  sequence_map (documentValue <$> m) = Some m' →
  ∃ o, sequence_map (meaning <$> m) = Some o ∧ sequence_map (meaning <$> m') = Some o.
Proof.
  intros IH Hm. rewrite sequence_map_fmap in Hm.
  assert (∃ o : gmap string json, ∀ k, match m !! k with
            | Some v => ∃ w j, m' !! k = Some w ∧ meaning v = Some j ∧ meaning w = Some j ∧ o !! k = Some j
            | None => m' !! k = None ∧ o !! k = None end) as [o Ho].
  { exists (omap meaning m). intros k. rewrite lookup_omap. specialize (Hm k).
    destruct (m !! k) as [v|] eqn:Ek; [|done]. destruct Hm as (w & Hv & Hw).
    destruct (IH k v Ek w Hv) as (j & Hj & Hjw). exists w, j. cbn. by rewrite Hj. }
  exists o. split; apply sequence_map_fmap; intros k; specialize (Ho k); destruct (m !! k) as [v|].
  - destruct Ho as (w & j & _ & Hj & _ & Hk). eauto.
  - by destruct Ho.
  - destruct Ho as (w & j & -> & _ & Hj & Hk). eauto.
  - by destruct Ho as [-> ?].
Qed.

Lemma documentValue_meaning v : ∀ w, documentValue v = Some w → same_meaning v w.
Proof.
  induction v as [v Hleaf|l IH|m IH|m b IH] using pvalue_nested_ind; intros w; cbn [documentValue].
  - destruct v as [| | | | | |lit| |[]| | | |n c| | | |]; try done; cbn [documentValue];
      try (intros [= <-]; by eexists).
    + intros [-> _]%floatValue_carried. by eexists.
    + destruct (exact z); [|done]. intros [= <-]. by eexists.
    + case_bool_decide; [done|]. intros [= <-]. by eexists.
    + unfold numberValue, same_meaning. cbn [meaning]. destruct (number_Int64 lit) as [i|].
      * destruct (exact i); [|done]. intros [= <-]. by eexists.
      * destruct (number_Float64 lit) as [f|]; [|done]. cbn. intros [-> _]%floatValue_carried. by eexists.
    + unfold bignumValue. destruct (negb _); [done|]. destruct (exact z); [|done]. intros [= <-]. by eexists.
    + intros (s & ->%jsonTimestamp_Some & ->)%fmap_Some. by eexists.
    + apply tagValue_meaning.
  - intros (l' & Hl & ->)%fmap_Some. apply mapM_Some in Hl. unfold same_meaning. cbn [meaning].
    enough (∃ js, mapM meaning l = Some js ∧ mapM meaning l' = Some js) as (js & -> & ->) by by eexists.
    induction Hl as [|v w l l' Hv Hl IHl]; [by exists []|].
    destruct (IH v (list_elem_of_here _ _) w Hv) as (j & Hj & Hjw).
    destruct IHl as (js & Hjs & Hjs'); [intros; apply IH; [by right|done]|]. exists (j :: js).
    cbn. by rewrite Hj, Hjw, Hjs, Hjs'.
  - intros (m' & Hm & ->)%fmap_Some. destruct (sequence_meaning m m' IH Hm) as (o & Ho & Ho').
    exists (JObj o). cbn [meaning]. by rewrite Ho, Ho'.
  - destruct b; [done|]. intros (m' & Hm & ->)%fmap_Some. destruct (sequence_meaning m m' IH Hm) as (o & Ho & Ho').
    exists (JObj o). cbn [meaning]. by rewrite Ho, Ho'.
Qed.

(** C15: A presented value that is stored for issuing stands for the same JSON value as what was presented, at every
    depth: the same numbers whatever their Go type, the same texts and members, a date as its text, bytes as their
    base64 text, an instant as its timestamp.  It is a value that the stores, the issuer and the issued document carry
    unchanged: it has no tag, byte string, time or map with foreign keys left, and its numbers are finite and within
    the integers a [float64] has exactly; storing it again changes nothing; and what was at a path within it is at the
    same path, itself stored. *)
Theorem stored_exactly v w :
  decodable v = true → documentValue v = Some w →
  same_meaning v w ∧ carried w ∧ documentValue w = Some w ∧
  (∀ p x, pwalk v p = Some x → ∃ y, documentValue x = Some y ∧ pwalk w p = Some y).
Proof.
  intros Hd Hv. pose proof (documentValue_carried _ _ Hd Hv) as Hc.
  split_and!; [by apply documentValue_meaning|done|by apply carried_stable|].
  intros p x Hp. by eapply documentValue_pwalk.
Qed.
End stored.

(** ** Claims over a document *)

Lemma mget_overlay (l : list (string * pvalue)) : ∀ data k, NoDup (map fst l) →
  mget (foldl (fun data e => mset data (fst e) (to_goval (snd e))) data l) k =
  match list_to_map (M := pmap) l !! k with Some v => Some (to_goval v) | None => mget data k end.
Proof.
  induction l as [|[k' v] l IH]; intros data k; cbn [map foldl fst snd]; [done|]. intros [Hk HN]%NoDup_cons.
  rewrite IH by done. cbn [list_to_map foldr fst snd uncurry]. destruct (decide (k' = k)) as [->|Hne].
  - rewrite lookup_insert_eq, mget_mset_eq. by rewrite not_elem_of_list_to_map_1.
  - by rewrite lookup_insert_ne, mget_mset_ne by done.
Qed.

(** Every document has the claims that were copied, and its own otherwise; which
    ones were copied is written down. *)
Lemma overlay_data claims doc k :
  mget (default [] (IssuerClient.DocumentData (overlay claims doc))) k =
  match claims !! k with Some v => Some (to_goval v) | None => mget (default [] (IssuerClient.DocumentData doc)) k end.
Proof.
  unfold overlay. cbn. rewrite mget_overlay; [by rewrite list_to_map_to_list|]. apply (NoDup_fst_map_to_list claims).
Qed.

Lemma overlay_names claims doc k : k ∈ PresentedClaims (overlay claims doc) ↔ is_Some (claims !! k).
Proof.
  unfold overlay, sort_keys. cbn. rewrite merge_sort_Permutation, list_elem_of_fmap. split.
  - intros ([k' v] & -> & Hin%elem_of_map_to_list). by exists v.
  - intros [v Hv]. exists (k, v). by rewrite elem_of_map_to_list.
Qed.

(** ** Dates *)

(** The year of the era a day is in, years beginning in March. *)
Definition year_of_era (doe : Z) : Z := (doe - doe / 1460 + doe / 36524 - doe / 146096) / 365.
Definition year_start (yoe : Z) : Z := 365 * yoe + yoe / 4 - yoe / 100.

Lemma year_of_era_range doe : 0 ≤ doe < 146097 → 0 ≤ year_of_era doe < 400.
Proof. unfold year_of_era. Z.to_euclidean_division_equations. lia. Qed.
Lemma year_of_era_after doe : 0 ≤ doe < 146097 → year_start (year_of_era doe) ≤ doe.
Proof. unfold year_of_era, year_start. Z.to_euclidean_division_equations. lia. Qed.
Lemma year_of_era_before doe : 0 ≤ doe < 146097 →
  doe < year_start (year_of_era doe + 1) ∨ year_of_era doe = 399 ∧ doe < year_start 399 + 366.
Proof. unfold year_of_era, year_start. Z.to_euclidean_division_equations. lia. Qed.

Lemma year_length yoe : 0 ≤ yoe < 399 → year_start (yoe + 1) - year_start yoe = if is_leap (yoe + 1) then 366 else 365.
Proof.
  intros Hy. unfold is_leap, year_start. repeat case_bool_decide; cbn [andb orb negb]; Z.to_euclidean_division_equations; lia.
Qed.
Lemma is_leap_period y k : is_leap (y + k * 400) = is_leap y.
Proof.
  unfold is_leap. replace ((y + k * 400) mod 4) with (y mod 4) by (Z.to_euclidean_division_equations; lia).
  replace ((y + k * 400) mod 100) with (y mod 100) by (Z.to_euclidean_division_equations; lia). by rewrite Z.mod_add.
Qed.

(** The day of a year that begins in March. *)
Definition month_start (mp : Z) : Z := (153 * mp + 2) / 5.
Lemma month_of doy : 0 ≤ doy < 366 → let mp := (5 * doy + 2) / 153 in
  0 ≤ mp ≤ 11 ∧ month_start mp ≤ doy ∧ (mp < 11 → doy < month_start (mp + 1)).
Proof. intros Hd mp. subst mp. unfold month_start. Z.to_euclidean_division_equations. lia. Qed.

Lemma month_days mp doy y : 0 ≤ mp ≤ 11 → month_start mp ≤ doy → (mp < 11 → doy < month_start (mp + 1)) →
  (mp = 11 → doy < if is_leap y then 366 else 365) →
  doy - month_start mp + 1 ≤ daysIn (if bool_decide (mp < 10) then mp + 3 else mp - 9) y.
Proof.
  intros Hmp Hlo Hhi Hfeb. set (m := if bool_decide _ then _ else _).
  assert (m = if bool_decide (mp < 10) then mp + 3 else mp - 9) as Em by done. clearbody m. unfold daysIn, month_start in *.
  destruct (bool_decide_reflect (m = 2)) as [->|H2].
  { assert (mp = 11) as -> by (revert Em; case_bool_decide; lia). specialize (Hfeb eq_refl).
    destruct (is_leap y); Z.to_euclidean_division_equations; lia. }
  assert (mp < 11) as Hlt by (revert Em; case_bool_decide; lia). specialize (Hhi Hlt).
  destruct (bool_decide_reflect (m ∈ [4; 6; 9; 11])) as [Hm|Hm]; rewrite !elem_of_cons, elem_of_nil in Hm;
    revert Em; case_bool_decide; intros Em; Z.to_euclidean_division_equations; lia.
Qed.

(** The date of a day exists, and is of that day. *)
Lemma civil_from_days_spec n :
  let d := civil_from_days n in
  days_from_civil d = n ∧ 1 ≤ Month d ≤ 12 ∧ 1 ≤ Day d ≤ daysIn (Month d) (Year d).
Proof.
  set (z := n + 719468). set (doe := z mod 146097). assert (0 ≤ doe < 146097) as Hdoe by (apply Z.mod_pos_bound; lia).
  pose proof (year_of_era_range doe Hdoe) as Hy. pose proof (year_of_era_after doe Hdoe) as Hlo. pose proof (year_of_era_before doe Hdoe) as Hhi.
  unfold civil_from_days. fold z doe. fold (year_of_era doe). set (yoe := year_of_era doe) in *. fold (year_start yoe).
  assert (z = z / 146097 * 146097 + doe) as Hz by (unfold doe; pose proof (Z.div_mod z 146097); lia). set (era := z / 146097) in *.
  assert (0 ≤ doe - year_start yoe < 366 ∧ (is_leap (yoe + 1 + era * 400) = false → doe - year_start yoe < 365)) as [Hdoy Hleap].
  { rewrite is_leap_period. destruct (decide (yoe = 399)) as [E|E].
    - rewrite E in *. split; [|done]. destruct Hhi as [Hhi|[_ Hhi]]; [|lia]. change (year_start (399 + 1)) with 146096 in Hhi.
      change (year_start 399) with 145731 in *. lia.
    - destruct Hhi as [Hhi|[? _]]; [|done]. pose proof (year_length yoe ltac:(lia)) as Hl.
      destruct (is_leap (yoe + 1)); split; intros; try done; lia. }
  set (doy := doe - year_start yoe) in *. destruct (month_of doy Hdoy) as (Hmp & Hm1 & Hm2). set (mp := (5 * doy + 2) / 153) in *.
  fold (month_start mp). cbn [Year Month Day].
  set (mth := if bool_decide (mp < 10) then mp + 3 else mp - 9).
  assert (1 ≤ mth ≤ 12) as Hmth by (unfold mth; case_bool_decide; lia). split_and!; [|lia..|].
  - unfold days_from_civil. cbn [Year Month Day].
    assert ((if bool_decide (mth ≤ 2) then yoe + era * 400 + (if bool_decide (mth ≤ 2) then 1 else 0) - 1
             else yoe + era * 400 + (if bool_decide (mth ≤ 2) then 1 else 0)) = yoe + era * 400) as -> by (case_bool_decide; lia).
    assert ((if bool_decide (2 < mth) then mth - 3 else mth + 9) = mp) as -> by (unfold mth; repeat case_bool_decide; lia).
    replace ((yoe + era * 400) / 400) with era by (rewrite Z.div_add by lia; rewrite (Z.div_small yoe); lia).
    fold (month_start mp). replace (yoe + era * 400 - era * 400) with yoe by lia. unfold doy, year_start. lia.
  - unfold mth. apply month_days; [lia|done|done|]. intros E. fold mth.
    assert (mth = 2) as Em by (unfold mth; rewrite E; done). rewrite Em, bool_decide_eq_true_2 by lia.
    replace (yoe + era * 400 + 1) with (yoe + 1 + era * 400) by lia.
    destruct (is_leap _); [lia|]. specialize (Hleap eq_refl). lia.
Qed.

(** *** Numbers and dates as text *)

Lemma digits_char acc d s : (d < 10)%N → digits acc (String (pretty_N_char d) s) = digits (acc * 10 + Z.of_N d) s.
Proof.
  intros Hd. assert (d = 0 ∨ d = 1 ∨ d = 2 ∨ d = 3 ∨ d = 4 ∨ d = 5 ∨ d = 6 ∨ d = 7 ∨ d = 8 ∨ d = 9)%N as Hc by lia.
  repeat destruct Hc as [->|Hc]; try subst d; done.
Qed.

Lemma digits_pretty_go x : ∀ s, ∃ k, ∀ acc, digits acc (pretty_N_go x s) = digits (acc * k + Z.of_N x) s.
Proof.
  induction (N.lt_wf_0 x) as [x _ IH]. intros s. assert (x = 0 ∨ 0 < x)%N as [->|Hx] by lia.
  { exists 1. intros acc. rewrite pretty_N_go_0. f_equal. lia. }
  rewrite pretty_N_go_step by done. destruct (IH (x / 10)%N (N.div_lt x 10 Hx eq_refl) (String (pretty_N_char (x mod 10)) s)) as [k Hk].
  exists (10 * k). intros acc. rewrite Hk, digits_char by by apply N.mod_lt. f_equal.
  rewrite (N.div_mod x 10) at 3 by done. lia.
Qed.

Lemma length_pretty_go k : ∀ x s, (10 ^ N.of_nat k ≤ x < 10 ^ N.of_nat (S k))%N → String.length (pretty_N_go x s) = (S k + String.length s)%nat.
Proof.
  induction k as [|k IH]; intros x s Hx; (rewrite pretty_N_go_step; [|lia]).
  - rewrite N.div_small by (cbn in Hx; lia). rewrite pretty_N_go_0. done.
  - rewrite IH; [cbn; lia|]. rewrite !Nat2N.inj_succ, !N.pow_succ_r' in *. set (p := (10 ^ N.of_nat k)%N) in *. clearbody p.
    split; [apply N.div_le_lower_bound; lia|apply N.Div0.div_lt_upper_bound; lia].
Qed.

Lemma pretty_Z_pos z : 0 < z → pretty z = pretty_N_go (Z.to_N z) "".
Proof. by destruct z. Qed.

Lemma digits_pretty z : 0 ≤ z → digits 0 (pretty z) = Some z.
Proof.
  intros Hz. assert (z = 0 ∨ 0 < z) as [->|Hp] by lia; [done|]. rewrite pretty_Z_pos by done.
  destruct (digits_pretty_go (Z.to_N z) "") as [k ->]. cbn. f_equal. lia.
Qed.

Lemma length_pretty z k : 10 ^ Z.of_nat k ≤ z < 10 ^ Z.of_nat (S k) → String.length (pretty z) = S k.
Proof.
  intros Hz. assert (0 < 10 ^ Z.of_nat k) by (apply Z.pow_pos_nonneg; lia). rewrite pretty_Z_pos by lia. rewrite (length_pretty_go k); [cbn; lia|].
  rewrite <- (nat_N_Z k), <- (nat_N_Z (S k)) in Hz. rewrite <- !(N2Z.inj_pow 10) in Hz. lia.
Qed.

Lemma str_length_app a b : String.length (a +:+ b) = (String.length a + String.length b)%nat.
Proof. induction a as [|c a IH]; [done|]. change (S (String.length (a +:+ b)) = S (String.length a + String.length b)). by rewrite IH. Qed.

Lemma digits_pad s t : digits 0 (zeros s +:+ t) = digits 0 t.
Proof. induction s as [|s IH]; [done|]. exact IH. Qed.

Lemma pad2_spec n : 0 ≤ n < 100 → digits 0 (pad2 n) = Some n ∧ String.length (pad2 n) = 2%nat.
Proof.
  intros Hn. unfold pad2. case_bool_decide.
  - change "0" with (zeros 1). rewrite digits_pad, digits_pretty by lia. split; [done|]. rewrite str_length_app.
    destruct (decide (n = 0)) as [->|]; [done|]. rewrite (length_pretty n 0); [done|cbn; lia].
  - change ("" +:+ pretty n) with (pretty n). rewrite digits_pretty, (length_pretty n 1) by (cbn; lia). done.
Qed.

Lemma pad4_spec n : 0 ≤ n < 10000 → digits 0 (pad4 n) = Some n ∧ String.length (pad4 n) = 4%nat.
Proof.
  intros Hn. unfold pad4. destruct (decide (n = 0)) as [->|]; [done|]. repeat case_bool_decide.
  - change "000" with (zeros 3). rewrite digits_pad, digits_pretty, str_length_app, (length_pretty n 0) by (cbn; lia). done.
  - change "00" with (zeros 2). rewrite digits_pad, digits_pretty, str_length_app, (length_pretty n 1) by (cbn; lia). done.
  - change "0" with (zeros 1). rewrite digits_pad, digits_pretty, str_length_app, (length_pretty n 2) by (cbn; lia). done.
  - change ("" +:+ pretty n) with (pretty n). rewrite digits_pretty, (length_pretty n 3) by (cbn; lia). done.
Qed.

(** A date that exists. *)
Definition real_date (d : date) : Prop := 1 ≤ Month d ≤ 12 ∧ 1 ≤ Day d ≤ daysIn (Month d) (Year d).

Lemma daysIn_small m y : daysIn m y ≤ 31.
Proof. unfold daysIn. repeat case_bool_decide; destruct (is_leap y); lia. Qed.

(** A full-date reads back. *)
Lemma parse_format_date d : real_date d → 0 ≤ Year d < 10000 → parse_DateOnly (format_date d) = Some d.
Proof.
  intros [Hm Hd] Hy. pose proof (daysIn_small (Month d) (Year d)). unfold format_date.
  destruct (pad4_spec (Year d)) as [Ey Ly]; [lia|]. destruct (pad2_spec (Month d)) as [Em Lm]; [lia|]. destruct (pad2_spec (Day d)) as [Ed Ld]; [lia|].
  revert Ey Ly Em Lm Ed Ld. generalize (pad4 (Year d)) (pad2 (Month d)) (pad2 (Day d)). intros ys ms ds Ey Ly Em Lm Ed Ld.
  destruct ys as [|y1 [|y2 [|y3 [|y4 []]]]]; try done. destruct ms as [|m1 [|m2 []]]; try done. destruct ds as [|d1 [|d2 []]]; try done.
  match goal with |- parse_DateOnly ?t = _ => change t with
    (String y1 (String y2 (String y3 (String y4 (String "-" (String m1 (String m2 (String "-" (String d1 (String d2 "")))))))))) end.
  unfold parse_DateOnly. cbn [String.length String.substring]. rewrite !bool_decide_true by done. cbn [andb].
  unfold parse_fields. rewrite Ey, Em, Ed. cbn [mbind option_bind]. unfold valid_date. rewrite !bool_decide_true by done. by destruct d.
Qed.

Lemma parse_DateOnly_real s d : parse_DateOnly s = Some d → real_date d.
Proof.
  unfold parse_DateOnly, parse_fields. destruct (_ && _); [|done].
  intros (y & _ & (m & _ & (dd & _ & Hv)%bind_Some)%bind_Some)%bind_Some. unfold valid_date in Hv.
  destruct (bool_decide_reflect (1 ≤ m ≤ 12)) as [Hm|]; [|done]. destruct (bool_decide_reflect (1 ≤ dd ≤ daysIn m y)) as [Hd|]; [|done].
  cbn in Hv. by injection Hv as <-.
Qed.

(** *** The date of a claim *)

(** The times the library parses are dates that exist. *)
Class TimesLaws `{Times} : Prop := { RFC3339_real : ∀ s d, parse_RFC3339 s = Some d → real_date d }.

Section normal.
Context `{Arch} `{Times}.

Lemma utc_date_spec t : midnight (utc_date t) ≤ t < midnight (utc_date t) + day ∧ real_date (utc_date t).
Proof.
  unfold utc_date, midnight, real_date. destruct (civil_from_days_spec (t / day)) as (-> & Hm & Hd). split; [|done].
  fold day. assert (0 < day) by (unfold day, second; lia). pose proof (Z.div_mod t day). pose proof (Z.mod_pos_bound t day). nia.
Qed.

Lemma fullDate_Some d s : fullDate d = Some s → s = format_date d ∧ 1 ≤ Year d ≤ 9999.
Proof. unfold fullDate. do 2 case_bool_decide; cbn; try done. intros [= <-]. split; [done|lia]. Qed.

(** The instants a claim can state; a text states a date. *)
Definition claim_instant (v : pvalue) : option Z :=
  match v with
  | PTime t => Some t
  | PTag 1 (PUint64 n) | PTag 1 (PInt64 n) => Some (time_Unix n)
  | PTag 1 (PFloat f) => z ← float_floor f; Some (time_Unix (int64_of z))
  | _ => None
  end.

Context `{!TimesLaws}.

Lemma text_date_Some s t : text_date s = Some t → ∃ d, t = format_date d ∧ real_date d ∧ 1 ≤ Year d ≤ 9999.
Proof.
  unfold text_date. destruct (parse_DateOnly s) as [d|] eqn:Ep.
  - intros [-> Hy]%fullDate_Some. exists d. split_and!; [done|by eapply parse_DateOnly_real|lia..].
  - intros (d & Hd & [-> Hy]%fullDate_Some)%bind_Some. exists d. split_and!; [done|by eapply RFC3339_real|lia..].
Qed.

Lemma normaliseFullDate_date v t : normaliseFullDate v = Some t →
  ∃ d, t = format_date d ∧ real_date d ∧ 1 ≤ Year d ≤ 9999 ∧ (∀ i, claim_instant v = Some i → d = utc_date i).
Proof.
  assert (∀ i u, fullDate (utc_date i) = Some u →
    ∃ d, u = format_date d ∧ real_date d ∧ 1 ≤ Year d ≤ 9999 ∧ (∀ j, Some i = Some j → d = utc_date j)) as Hi.
  { intros i u [-> Hy]%fullDate_Some. exists (utc_date i). split_and!; [done|apply utc_date_spec|lia..|]. by intros j [= <-]. }
  assert (∀ s u w, text_date s = Some u → claim_instant w = None →
    ∃ d, u = format_date d ∧ real_date d ∧ 1 ≤ Year d ≤ 9999 ∧ (∀ j, claim_instant w = Some j → d = utc_date j)) as Ht.
  { intros s u w Hs Hw. destruct (text_date_Some _ _ Hs) as (d & ? & ? & ?). exists d. rewrite Hw. split_and!; try done; lia. }
  unfold normaliseFullDate. destruct v; cbn [claimString mbind option_bind]; try done; eauto.
  destruct (decide (number = 1)) as [->|Hn].
  - destruct v; cbn [epochFullDate claim_instant]; try done; eauto.
    + unfold epoch_seconds. destruct (float_floor f) as [z|]; [|done]. cbn [mbind option_bind]. destruct (_ || _); [done|]. cbn. eauto.
    + case_bool_decide; [done|]. eauto.
  - intros Hs. assert (claim_instant (PTag number v) = None) as Hc by (destruct number as [|[]|]; done).
    assert ((match number with 1 => epochFullDate v | _ => claimString (PTag number v) ≫= text_date end) = Some t) as Hs' by exact Hs.
    destruct (claimString (PTag number v)) as [s|] eqn:Es; [|by destruct number as [|[]|]].
    eapply (Ht s); [|done]. by destruct number as [|[]|].
Qed.

(** A date that is issued from a presented claim is a full-date of the calendar: it is the text of a date that
    exists, in a year of four digits, reads back as that date and is normalised to itself; and when the claim states an
    instant, by whatever encoding, the instant falls on that date in UTC. *)
Theorem presented_date v t :
  normaliseFullDate v = Some t →
  ∃ d, parse_DateOnly t = Some d ∧ t = format_date d ∧ normaliseFullDate (PText t) = Some t ∧
    (∀ i, claim_instant v = Some i → midnight d ≤ i < midnight d + day).
Proof.
  intros Hv. destruct (normaliseFullDate_date _ _ Hv) as (d & -> & Hd & Hy & Hi). exists d.
  assert (parse_DateOnly (format_date d) = Some d) as Hp by (apply parse_format_date; [done|lia]). split_and!; [done..| |].
  - cbn [normaliseFullDate claimString mbind option_bind]. unfold text_date. rewrite Hp. unfold fullDate.
    by rewrite !bool_decide_eq_false_2 by lia.
  - intros i Ei. rewrite (Hi i Ei). apply utc_date_spec.
Qed.
End normal.
