(* ===== verification/CredentialRequest.v ===== *)
(** * Credential requests

    [CredentialRequest] of [pkg/openid4vci/credential.go]: what a wallet asks for,
    the checks against the token it was given, and the configuration and format
    it selects; with the parts of [pkg/bbs] that read the members of a blind
    signature.  Texts of errors are left out. *)

From S2P Require Import Prelude GoStrings GoValue Base64 Jwt AuxiliaryData IssuerClient KeyProofs.

Record CredentialRequest := mkCredentialRequest {
  cq_DPoP : string;
  cq_Authorization : string;
  CredentialIdentifier : string;
  CredentialConfigurationID : string;
  cq_Proofs : option Proofs;
  cq_Proof : option Proof_;
  BBSCommitment : string;
  BBSCommittedClaims : list string;
  BBSKeyBinding : bool;
  BBSSuite : string;
  (* whether [credential_response_encryption] is there *)
  CredentialResponseEncryption : bool
}.

(** ** Members of a blind signature *)

Definition SuitePlain : Z := 0.
Definition SuiteSchnorr : Z := 1.
Definition ParseSuite (name : string) : option Z :=
  if bool_decide (name = "plain") then Some SuitePlain else
  if bool_decide (name = "schnorr") then Some SuiteSchnorr else None.

Definition MaxMessages : nat := 512.
Definition ValidateHolderPointers (pointers : list string) : bool :=
  bool_decide (length pointers ≤ MaxMessages)%nat && forallb (HasPrefix "/") pointers && bool_decide (NoDup pointers).

Definition DecodeCommitment (s : string) : option string :=
  b ← unb64 (trim_padding s); if str_empty b then None else Some b.

Definition validateBBS (c : CredentialRequest) : result vci_error unit :=
  if str_empty (BBSCommitment c) then
    require (negb (is_nonempty (BBSCommittedClaims c)) && negb (BBSKeyBinding c) && str_empty (BBSSuite c))
  else
  match DecodeCommitment (BBSCommitment c), ParseSuite (BBSSuite c) with
  | Some _, Some suite =>
      _ ← require (negb (bool_decide (suite = SuitePlain) && BBSKeyBinding c));
      require (ValidateHolderPointers (BBSCommittedClaims c))
  | _, _ => Err ErrInvalidCredentialRequest
  end.

(** ** Against the token *)

(** A member of an entry of [authorization_details]. *)
Definition ad_string (k : string) (ad : goval) : string :=
  match ad with GMap m => string_or_empty (mget m k) | _ => "" end.
Definition CredentialIdentifiers (ad : goval) : list string :=
  match ad with GMap m => match mget m "credential_identifiers" with Some (GStrings l) => l | _ => [] end | _ => [] end.

(** The entry that lists an identifier. *)
Definition entry_for (id : string) (details : list goval) : option goval :=
  List.find (fun ad => bool_decide (id ∈ CredentialIdentifiers ad)) details.

Definition Validate_request (c : CredentialRequest) (details : list goval) : result vci_error unit :=
  _ ← match cq_Proofs c with
      | Some p => require (bool_decide (proofTypeCount p = 1)%nat)
      | None => Ok tt
      end;
  _ ← validateBBS c;
  if str_empty (CredentialIdentifier c) then
    if str_empty (CredentialConfigurationID c) then Err ErrInvalidCredentialRequest else
    require (negb (is_nonempty details))
  else
  if negb (str_empty (CredentialConfigurationID c)) then Err ErrInvalidCredentialRequest else
  match entry_for (CredentialIdentifier c) details with
  | Some _ => Ok tt
  | None => Err ErrUnknownCredentialIdentifier
  end.

(** ** What a request selects *)

(** [CredentialMetadata] as issuer metadata publishes it: what is shown, and the
    auxiliary data of a response. *)
Record published_metadata := mkPublished { pm_Shown : goval; pm_AuxiliaryData : list AuxiliaryDataEntry }.

Record CredentialConfiguration := mkConfiguration {
  cc_Format : string;
  cc_ProofTypes : list string;                    (* the keys of [proof_types_supported] *)
  cc_CredentialMetadata : option published_metadata;
  cc_DefinitionType : option (list string);       (* [credential_definition.type] *)
  cc_Cryptosuite : string
}.
Abbreviation configurations := (gmap string CredentialConfiguration).

(** [credentialSelection]: the configuration, if one is named, and the format. *)
Definition resolveCredentialSelection (metadata : configurations) (c : CredentialRequest) (details : list goval) :
    result vci_error (string * string) :=
  if negb (str_empty (CredentialConfigurationID c)) then
    match metadata !! CredentialConfigurationID c with
    | Some config => Ok (CredentialConfigurationID c, cc_Format config)
    | None => Err ErrUnknownCredentialConfiguration
    end
  else if negb (str_empty (CredentialIdentifier c)) then
    match entry_for (CredentialIdentifier c) details with
    | Some ad =>
        let id := ad_string "credential_configuration_id" ad in
        let format := ad_string "format" ad in
        if str_empty id && negb (str_empty format) then Ok ("", format) else
        match metadata !! id with
        | Some config => Ok (id, cc_Format config)
        | None => Err ErrInvalidCredentialRequest
        end
    | None => Err ErrUnknownCredentialIdentifier
    end
  else Err ErrInvalidCredentialRequest.

Definition ResolveCredentialFormatWithAuthDetails (metadata : configurations) (c : CredentialRequest) (details : list goval) :
    result vci_error string := s ← resolveCredentialSelection metadata c details; Ok (snd s).
Definition ResolveCredentialConfigurationID (metadata : configurations) (c : CredentialRequest) (details : list goval) :
    result vci_error string := s ← resolveCredentialSelection metadata c details; Ok (fst s).

(** [ProofType] *)
Definition request_proof_type (c : CredentialRequest) : string :=
  match cq_Proof c, cq_Proofs c with
  | Some p, _ => ProofType p
  | None, Some ps => proofs_type ps
  | None, None => ""
  end.

(** A configuration is named by the request or by the entry of its identifier. *)
Lemma selection_named metadata c details id format :
  resolveCredentialSelection metadata c details = Ok (id, format) → id ≠ "" →
  (∃ config, metadata !! id = Some config ∧ cc_Format config = format) ∧
  (id = CredentialConfigurationID c ∨
   ∃ ad, ad ∈ details ∧ CredentialIdentifier c ∈ CredentialIdentifiers ad ∧ ad_string "credential_configuration_id" ad = id).
Proof.
  unfold resolveCredentialSelection. intros Hs Hid. destruct (str_empty (CredentialConfigurationID c)) eqn:E1; cbn in Hs.
  - destruct (str_empty (CredentialIdentifier c)); [done|]. cbn in Hs.
    destruct (entry_for _ _) as [ad|] eqn:Ef; [|done]. unfold entry_for in Ef. apply List.find_some in Ef as [Hin Hc%bool_decide_eq_true].
    apply list_elem_of_In in Hin. destruct (_ && _); [by simplify_eq|].
    destruct (metadata !! _) as [config|] eqn:Em; [|done]. simplify_eq. eauto 10.
  - destruct (metadata !! _) as [config|] eqn:Em; [|done]. simplify_eq. eauto.
Qed.
