(* ===== verification/CredentialEndpoint.v ===== *)
(** * The credential endpoint

    [VCICredential] and [VCINonce] of [internal/apigw/apiv1/handlers_issuer.go]
    with everything they call there, in [scope_match.go], [auxiliary_data.go],
    [pkg/model/data_sources.go] and [pkg/model/config.go].  A handler as in
    [Handlers]: every call of a store or a service is a step, and so is every
    read through the pointer the session store handed out.  The configuration is
    constant (the refresh of type metadata in the background is left out);
    metrics, log lines and descriptions of errors are left out.  A request draws
    from [entropy 0] for its document and from [entropy 1] for its openings. *)

From S2P Require Import Prelude GoStrings GoValue Base64 Utf8 Json Jwt SdJwt SdJwtVerify SdJwtIssue TokenStatusListCWT Cose MdocSchema ClaimPaths Derivations AuxiliaryData OAuth2 AuthContext AuthStore GenericCache IssuerClient Handlers KeyProofs PresentationDoc CredentialRequest.

Inductive cerror :=
| CVci (e : vci_error)
| COAuth (code : string) (status : Z)
| CDPoP (e : dpop_error)
| CStore (e : cache_error)
| CPresentation (e : presentation_error)
| CDerivation (e : derivation_error)
| CClaimInput                           (* a claim an opening needs *)
| CIssuer                               (* the issuer's error, passed on *)
| CPlain.                               (* an error without a code *)

Abbreviation C := (handler cerror).

Definition vci {A} (r : result vci_error A) : C A := lift (map_err CVci r).
Definition reject {A} (e : vci_error) : C A := fail (CVci e).

(** ** Device keys of mobile documents *)

Definition convertJWKToCOSEKey `{CBOR} (jwk : Jwk) : option (list Z) :=
  x ← RawURLEncoding.DecodeString (jk_X jwk);
  y ← RawURLEncoding.DecodeString (jk_Y jwk);
  match NewCOSEKeyFromCoordinates (jk_Kty jwk) (jk_Crv jwk) x (Some y) with
  | Ok k => COSEKey_Bytes k
  | Err _ => None
  end.

(** ** Configuration *)

Record vci_config := mkVciConfig {
  vc_CredentialEndpoint : string;
  vc_CredentialIssuer : string;
  vc_BatchSize : option Z;                            (* of [batch_credential_issuance] *)
  vc_Configurations : configurations;                 (* [credential_configurations_supported] *)
  vc_Metadata : gmap string CredentialMetadata;       (* by scope *)
  vc_Presentation : gmap string PresentationScope;
  vc_Datastore : gmap string (list Derivation);       (* the derivations of a scope, by source *)
  vc_Assertion : gmap string (list Derivation);
  vc_ExternalAPI : gmap string (list Derivation);
  vc_EmitCredentialMetadata : bool
}.

Record CredentialResponse := mkCredentialResponse {
  cr_Credentials : list string;
  cr_CredentialMetadata : option published_metadata
}.

Definition DataSourceDatastore := "datastore".
Definition DataSourceAssertion := "assertion".
Definition DataSourceExternalAPI := "external_api".
Definition DataSourcePresentation := "presentation".
(** The providers whose documents are in the session cache. *)
Definition session_providers : list string := ["openid4vp"; "saml"; "oidc"; "datastore"].

(** [strings.TrimPrefix] *)
Definition TrimPrefix (p s : string) : string :=
  if HasPrefix p s then String.substring (String.length p) (String.length s - String.length p) s else s.

Section config.
Variable cfg : vci_config.

Definition GetCredentialMetadata (scope : string) : option CredentialMetadata := vc_Metadata cfg !! scope.

Definition DerivationsFor (scope : string) : list Derivation :=
  match vc_Datastore cfg !! scope, vc_Assertion cfg !! scope, vc_ExternalAPI cfg !! scope with
  | Some ((_ :: _) as l), _, _ => l
  | _, Some ((_ :: _) as l), _ => l
  | _, _, Some l => l
  | _, _, _ => []
  end.

Definition DerivationsForSource (scope source : string) : list Derivation :=
  if bool_decide (source = DataSourceDatastore) then default [] (vc_Datastore cfg !! scope) else
  if bool_decide (source = DataSourceAssertion) then default [] (vc_Assertion cfg !! scope) else
  if bool_decide (source = DataSourceExternalAPI) then default [] (vc_ExternalAPI cfg !! scope) else
  if str_empty source then DerivationsFor scope else [].

(** ** Scopes *)

Fixpoint matchScope (scopes : list string) : option string :=
  match scopes with
  | [] => None
  | s :: scopes => match GetCredentialMetadata s with Some _ => Some s | None => matchScope scopes end
  end.

Definition family (format : string) : string :=
  if bool_decide (format = "vc+sd-jwt") || bool_decide (format = "dc+sd-jwt") then "sd-jwt" else
  if bool_decide (format = "ldp_vc") || bool_decide (format = "vc+ld+json") then "w3c" else format.
Definition sameCredentialFormat (a b : string) : bool :=
  negb (str_empty a) && negb (str_empty b) && bool_decide (family a = family b).

Definition of_format (format scope : string) : bool :=
  match GetCredentialMetadata scope with Some cm => sameCredentialFormat (cm_Format cm) format | None => false end.

(** The scope, from the first that is known, the format and the configuration. *)
Definition choose_scope (scope format configurationID : string) (scopes : list string) : result vci_error (string * string * string) :=
  if str_empty configurationID then
    match base.filter (fun s => of_format format s = true) scopes with
    | [s] => Ok (s, "", format)
    | _ => Err ErrInvalidCredentialRequest
    end
  else if bool_decide (configurationID = scope) then Ok (scope, configurationID, format) else
  if negb (bool_decide (configurationID ∈ scopes)) then Err ErrInvalidCredentialRequest else
  match GetCredentialMetadata configurationID with
  | Some _ => Ok (configurationID, configurationID, format)
  | None => Err ErrInvalidCredentialRequest
  end.

Definition selectScope (req : CredentialRequest) (l : loc) : C (string * string * string) :=
  d ← perform (OLoad l);
  match matchScope (Scopes (other d)) with
  | None => fail CPlain
  | Some scope =>
      d ← perform (OLoad l);
      format ← vci (ResolveCredentialFormatWithAuthDetails (vc_Configurations cfg) req (AuthorizationDetails (other d)));
      d ← perform (OLoad l);
      configurationID ← vci (ResolveCredentialConfigurationID (vc_Configurations cfg) req (AuthorizationDetails (other d)));
      d ← perform (OLoad l);
      vci (choose_scope scope format configurationID (Scopes (other d)))
  end.

Definition requireAdvertisedProofType (scope proofType : string) : C unit :=
  match vc_Configurations cfg !! scope with
  | Some config => if bool_decide (proofType ∈ cc_ProofTypes config) then mret tt else reject ErrInvalidProof
  | None => reject ErrInvalidProof
  end.

Definition requireIdentifier (identifier dataSource : string) : C string :=
  if str_empty identifier && negb (bool_decide (dataSource ∈ [DataSourceAssertion; DataSourceDatastore; DataSourcePresentation]))
  then fail CPlain else mret identifier.

Definition verifyDPoPKeyBinding (proofThumbprint : string) (t : option token) : C unit :=
  match t with
  | None => mret tt
  | Some t =>
      if str_empty (tok_DPoPThumbprint t) || bool_decide (proofThumbprint = tok_DPoPThumbprint t) then mret tt
      else fail (COAuth ErrCodeInvalidDPoPProof 400)
  end.

Definition docLookupSessionID (d : AuthorizationContext) : string :=
  if str_empty (SourceSessionID (other d)) then SessionID d else SourceSessionID (other d).

(** ** Types of W3C credentials *)

Definition baseVCType := "VerifiableCredential".
Definition W3CTypes (c : option CredentialMetadata) : list string :=
  match c with
  | None => [baseVCType]
  | Some c =>
      match cm_CredentialTypes c with
      | [] => [baseVCType]
      | types => if bool_decide (baseVCType ∈ types) then types else baseVCType :: types
      end
  end.
Definition GetCredentialContexts (c : option CredentialMetadata) : list string :=
  match c with Some c => cm_CredentialContexts c | None => [] end.

(** Types, contexts and cryptosuite. *)
Definition w3cTypesAndContexts (scope configurationID : string) : list string * list string * string :=
  let '(resolved, cryptosuite, types) :=
    match (if str_empty configurationID then None else vc_Configurations cfg !! configurationID) with
    | Some config => (configurationID, cc_Cryptosuite config, default [] (cc_DefinitionType config))
    | None => (scope, "", [])
    end in
  let metadata := GetCredentialMetadata resolved in
  (if is_nonempty types then types else W3CTypes metadata, GetCredentialContexts metadata, cryptosuite).

(** ** The response *)

Definition credentialMetadataForResponse (scope configurationID : string) : option published_metadata :=
  if negb (vc_EmitCredentialMetadata cfg) then None else
  match (if str_empty configurationID then None else vc_Configurations cfg !! configurationID) with
  | Some config => cc_CredentialMetadata config
  | None => config ← vc_Configurations cfg !! scope; cc_CredentialMetadata config
  end.

Definition newCredentialResponse (credentials : list string) (scope configurationID : string) : CredentialResponse :=
  mkCredentialResponse credentials (credentialMetadataForResponse scope configurationID).

Definition AddAuxiliaryData (r : CredentialResponse) (entries : list AuxiliaryDataEntry) : CredentialResponse :=
  let metadata := default (mkPublished GNil []) (cr_CredentialMetadata r) in
  mkCredentialResponse (cr_Credentials r) (Some (mkPublished (pm_Shown metadata) (pm_AuxiliaryData metadata ++ entries)%list)).

(** ** Sources of claims *)

(** [storedClaims] is the identity on the values the in-memory store holds. *)
Definition sourceDerivations (scope : string) (d : AuthorizationContext) (source : gomap) : list Derivation * gomap :=
  if bool_decide (DataSource d = DataSourcePresentation) then
    (default [] (p ← vc_Presentation cfg !! scope; pc_Derivations <$> mget (ps_From p) (PresentedScope (other d))), default [] (VerifiedClaims (other d)))
  else (DerivationsForSource scope (DataSource d), source).

Definition openingSourceClaims (dataSource : string) (document : CompleteDocument) (data : gomap) : gomap :=
  if bool_decide (dataSource = DataSourceAssertion) && is_nonempty (OpeningClaims document) then OpeningClaims document else data.

Definition scopeAuxiliaryData (scope : string) : AuxiliaryDataSupported :=
  default (mkAuxSupported [] []) (meta ← GetCredentialMetadata scope; cm_AuxiliaryData meta).
End config.

Section endpoint.
Context `{JSON} `{Arch} `{Hashes} `{Sig : Signatures} `{!SdEnv} `{StructJSON} `{ProofParser} `{NetURL} `{CBOR}.
Context `{Text} `{Countries} `{LocalTime} `{Times} `{Keyed} `{DocJSON}.
Variable cfg : vci_config.
(** The draws of the request; and the nil key of a call that has none to pass. *)
Variable entropy : nat → Entropy.
Variable nil_key : sig_key.

(** ** The nonce endpoint *)

Definition VCINonce (token : option string) : C string :=
  match token with
  | None => fail CPlain
  | Some nonce => _ ← perform (ONonceSet nonce); mret nonce
  end.

(** ** The holder of the token *)

Definition authenticate (req : CredentialRequest) : C loc :=
  now ← perform ONow;
  match ValidateAndParseDPoPJWT now (cq_DPoP req) with
  | Err e => fail (CDPoP e)
  | Ok dpop =>
      unique ← perform (OJTI (JTI dpop) 0);
      if negb unique then fail (COAuth (ErrorCode OAuthErrJTIReplay) (HTTPStatus OAuthErrJTIReplay)) else
      if negb (bool_decide (HTU dpop = vc_CredentialEndpoint cfg)) then fail CPlain else
      if negb (bool_decide (HTM dpop = "POST")) then fail CPlain else
      let accessToken := TrimPrefix "DPoP " (cq_Authorization req) in
      if negb (IsAccessTokenDPoP dpop accessToken) then fail CPlain else
      found ← perform (OGetWithAccessToken accessToken);
      match found with
      | Err e => fail (CStore e)
      | Ok l =>
          d ← perform (OLoad l);
          _ ← verifyDPoPKeyBinding (Thumbprint dpop) (Token d);
          d ← perform (OLoad l);
          _ ← vci (Validate_request req (AuthorizationDetails (other d)));
          mret l
      end
  end.

(** ** The document *)

(** The first document of the session that the iteration meets. *)
Definition cached_document (docSessionID : string) : C (CompleteDocument * gomap) :=
  docs ← perform (ODocument docSessionID);
  match docs with
  | Some ((_, Some document) :: _) =>
      match DocumentData document with Some data => mret (document, data) | None => fail CPlain end
  | _ => fail CPlain
  end.

(** The document of the credential, and what its openings read. *)
Definition credential_document (scope : string) (l : loc) : C (gomap * gomap) :=
  d ← perform (OLoad l);
  let docSessionID := docLookupSessionID d in
  d ← perform (OLoad l);
  match vc_Presentation cfg !! scope, bool_decide (DataSource d = DataSourcePresentation) with
  | Some pScope, true =>
      now ← perform ONow;
      d ← perform (OLoad l);
      doc ← lift (map_err CPresentation
        (buildPresentationDocument (H2 := entropy 0%nat) pScope (VerifiedClaims (other d)) (PresentedScope (other d)) (GetCredentialMetadata cfg scope) now));
      mret (doc, [])
  | _, _ =>
      d ← perform (OLoad l);
      if negb (bool_decide (AuthProvider d ∈ session_providers)) then fail CPlain else
      '(document, data) ← cached_document docSessionID;
      d ← perform (OLoad l);
      let openingSource := openingSourceClaims (DataSource d) document data in
      d ← perform (OLoad l);
      if bool_decide (DataSource d = DataSourceAssertion) then mret (data, openingSource) else
      d ← perform (OLoad l);
      match DerivationsForSource cfg scope (DataSource d) with
      | [] => mret (data, openingSource)
      | derivs =>
          now ← perform ONow;
          doc ← lift (map_err CDerivation (derive_document (H2 := entropy 0%nat) derivs now data (PresentedClaims document)));
          mret (doc, openingSource)
      end
  end.

(** ** Keys and proofs *)

Definition batch_limit : Z := match vc_BatchSize cfg with Some n => if bool_decide (0 < n) then n else 1 | None => 1 end.

Definition or_proof {A} (o : option A) : result vci_error A := match o with Some a => Ok a | None => Err ErrInvalidProof end.

Definition request_keys (req : CredentialRequest) : result vci_error (list Jwk) :=
  match cq_Proof req, cq_Proofs req with
  | Some p, _ => k ← or_proof (ExtractJWK_proof p); Ok [k]
  | None, Some ps => or_proof (ExtractAllJWKs ps batch_limit)
  | None, None => Err ErrInvalidProof
  end.

(** The nonce of the first proof. *)
Definition proof_nonce (req : CredentialRequest) : string :=
  match cq_Proof req, cq_Proofs req with
  | Some p, None => if bool_decide (ProofType p = "jwt") then ExtractNonce_jwt (JWT p) else ""
  | Some p, Some ps =>
      if bool_decide (ProofType p = "jwt") then ExtractNonce_jwt (JWT p) else
      match ps_JWT ps, ps_Attestation ps with
      | j :: _, _ => ExtractNonce_jwt j
      | [], a :: _ => ExtractNonce_att a
      | [], [] => ""
      end
  | None, Some ps =>
      match ps_JWT ps, ps_Attestation ps with
      | j :: _, _ => ExtractNonce_jwt j
      | [], a :: _ => ExtractNonce_att a
      | [], [] => ""
      end
  | None, None => ""
  end.

Definition known_nonce (nonce : string) : C bool := if str_empty nonce then mret false else perform (ONonceGet nonce).

(** The nonce of the proof if it is one of ours, or that of the session. *)
Definition expected_nonce (req : CredentialRequest) (l : loc) : C string :=
  let proofNonce := proof_nonce req in
  ours ← known_nonce proofNonce;
  if (ours : bool) then mret proofNonce else
  d ← perform (OLoad l);
  if str_empty (Nonce (other d)) then reject ErrInvalidNonce else
  d ← perform (OLoad l);
  ok ← perform (ONonceGet (Nonce (other d)));
  if negb ok then reject ErrInvalidNonce else
  d ← perform (OLoad l);
  if str_empty (Nonce (other d)) then reject ErrInvalidNonce else mret (Nonce (other d)).

Definition jwk_members (jwk : Jwk) : list (string * json) :=
  (("kty", JStr (jk_Kty jwk)) ::
   omap (fun kv : string * string => if str_empty (snd kv) then None else Some (fst kv, JStr (snd kv)))
     [("crv", jk_Crv jwk); ("x", jk_X jwk); ("y", jk_Y jwk); ("n", jk_N jwk); ("e", jk_E jwk); ("kid", jk_Kid jwk)])%list.
Definition jwkProtoToPublicKey (jwk : Jwk) : option sig_key := ParseJWKToPublicKey (list_to_map (jwk_members jwk)).
Definition proofJWKToPublicKey (jwk : Jwk) : C sig_key := vci (or_proof (jwkProtoToPublicKey jwk)).

Definition verify_jwt_proof (opts : VerifyProofOptions) (proof : string) (jwk : Jwk) : C unit :=
  pubKey ← proofJWKToPublicKey jwk;
  now ← perform ONow;
  now' ← perform ONow;
  vci (Verify_jwt now now' proof pubKey opts).

Fixpoint verify_each (opts : VerifyProofOptions) (l : list (string * Jwk)) : C unit :=
  match l with
  | [] => mret tt
  | (proof, jwk) :: l => _ ← verify_jwt_proof opts proof jwk; verify_each opts l
  end.

(** The other types are all checked at one time. *)
Definition verify_proofs (req : CredentialRequest) (jwks : list Jwk) (opts : VerifyProofOptions) : C unit :=
  match cq_Proof req, cq_Proofs req with
  | Some p, _ =>
      if bool_decide (ProofType p = "jwt") then
        match jwks with jwk :: _ => verify_jwt_proof opts (JWT p) jwk | [] => reject VPanic end
      else mret tt
  | None, Some ps =>
      if bool_decide (proofs_type ps = "jwt") then
        if negb (bool_decide (length (ps_JWT ps) = length jwks)) then reject ErrInvalidProof else
        verify_each opts (zip (ps_JWT ps) jwks)
      else
        now ← perform ONow;
        vci (VerifyProofWithOptions now now (Some ps) nil_key opts)
  | None, None => mret tt
  end.

(** ** Auxiliary data *)

(** [keyProofs], as what their [ExtractAuxiliaryData] gives *)
Definition keyProofs (req : CredentialRequest) : list (option (list AuxiliaryDataEntry)) :=
  match cq_Proof req, cq_Proofs req with
  | Some p, ps =>
      if bool_decide (ProofType p = "jwt") then [ExtractAuxiliaryData_jwt (JWT p)] else
      match ps with
      | None => []
      | Some ps =>
          if bool_decide (proofs_type ps = "jwt") then ExtractAuxiliaryData_jwt <$> ps_JWT ps else
          if bool_decide (proofs_type ps = "attestation") then ExtractAuxiliaryData_att <$> ps_Attestation ps else []
      end
  | None, None => []
  | None, Some ps =>
      if bool_decide (proofs_type ps = "jwt") then ExtractAuxiliaryData_jwt <$> ps_JWT ps else
      if bool_decide (proofs_type ps = "attestation") then ExtractAuxiliaryData_att <$> ps_Attestation ps else []
  end.

(** Every proof after the first agrees with the one before. *)
Fixpoint agree (agreed : option (list AuxiliaryDataEntry)) (l : list (option (list AuxiliaryDataEntry))) :
    result vci_error (list AuxiliaryDataEntry) :=
  match l with
  | [] => Ok (default [] agreed)
  | None :: _ => Err ErrInvalidProof
  | Some entries :: l =>
      match agreed with
      | Some prev => if bool_decide (entries = prev) then agree (Some entries) l else Err ErrInvalidProof
      | None => agree (Some entries) l
      end
  end.
Definition walletAuxiliaryData (req : CredentialRequest) : result vci_error (list AuxiliaryDataEntry) := agree None (keyProofs req).

Definition of_aux (e : aux_error) : cerror :=
  match e with
  | AuxInvalidProof => CVci ErrInvalidProof
  | AuxConflict => CVci ErrAuxiliaryDataConflict
  | AuxInput => CClaimInput
  | AuxServer => CPlain
  end.

Definition apply_auxiliary (scope : string) (d : AuthorizationContext) (source : gomap) (documentData : string)
    (fromWallet : list AuxiliaryDataEntry) : result aux_error (string * list AuxiliaryDataEntry) :=
  let '(derivations, sourceClaims) := sourceDerivations cfg scope d source in
  applyAuxiliaryData (H1 := entropy 1%nat) (scopeAuxiliaryData cfg scope)
    (match GetCredentialMetadata cfg scope with Some m => cm_Format m | None => "" end)
    derivations sourceClaims documentData fromWallet.

(** ** Calls of the issuer *)

(** One call for each item, the error of a call or of its making stopping all. *)
Fixpoint call_issuer {A} (make : A → result cerror issuer_call) (items : list A) : C (list issuer_reply) :=
  match items with
  | [] => mret []
  | a :: items =>
      c ← lift (make a);
      answer ← perform (OIssue c);
      match answer with
      | None => fail CIssuer
      | Some None => fail CPlain
      | Some (Some reply) => replies ← call_issuer make items; mret (reply :: replies)
      end
  end.

Fixpoint saveCredentialSubjects (identifier : string) (replies : list issuer_reply) : C unit :=
  if str_empty identifier then mret tt else
  match replies with
  | [] => mret tt
  | r :: replies =>
      if bool_decide (ir_Section r ≤ 0) then saveCredentialSubjects identifier replies else
      saved ← perform (OSaveSubject identifier (ir_Section r) (ir_Index r));
      if negb saved then fail CPlain else saveCredentialSubjects identifier replies
  end.

(** Exactly one credential in a reply. *)
Definition single_credential (r : issuer_reply) : C string :=
  match ir_Credentials r with [c] => mret c | _ => fail CPlain end.
Fixpoint single_credentials (l : list issuer_reply) : C (list string) :=
  match l with [] => mret [] | r :: l => c ← single_credential r; cs ← single_credentials l; mret (c :: cs) end.

Definition issueSDJWT (scope documentData : string) (jwks : list Jwk) (identifier : string) : C (list string) :=
  match GetCredentialMetadata cfg scope with
  | None => fail CPlain
  | Some credMeta =>
      replies ← call_issuer (fun jwk => Ok (MakeSDJWT scope documentData jwk (cm_Integrity credMeta) (cm_VCTMRaw credMeta))) jwks;
      credentials ← single_credentials replies;
      _ ← saveCredentialSubjects identifier replies;
      mret credentials
  end.

Definition mdoc_call (scope documentData : string) (meta : CredentialMetadata) (jwk : Jwk) : result cerror issuer_call :=
  match convertJWKToCOSEKey jwk with
  | Some deviceKey => Ok (MakeMDoc scope documentData (bytes_str deviceKey) (cm_MDDLRaw meta))
  | None => Err CPlain
  end.
Definition issueMDoc (scope documentData : string) (jwks : list Jwk) (identifier : string) : C (list string) :=
  match GetCredentialMetadata cfg scope with
  | None => fail CPlain
  | Some meta =>
      replies ← call_issuer (mdoc_call scope documentData meta) jwks;
      _ ← saveCredentialSubjects identifier replies;
      mret ((fun r => b64 (ir_Credential r)) <$> replies)
  end.

Definition subject_dids (req : CredentialRequest) : list string :=
  match cq_Proof req, cq_Proofs req with
  | Some p, _ => [ExtractSubjectDID_proof p]
  | None, Some ps => ExtractSubjectDID_jwt <$> ps_JWT ps
  | None, None => []
  end.
Definition no_jwt_proof (req : CredentialRequest) : bool :=
  match cq_Proof req with Some p => negb (bool_decide (ProofType p = "jwt")) | None => false end ||
  match cq_Proofs req with Some ps => negb (is_nonempty (ps_JWT ps)) | None => false end.

Definition issueVC20 (scope documentData identifier configurationID : string) (req : CredentialRequest) : C (list string) :=
  if no_jwt_proof req then fail CPlain else
  let '(credentialTypes, additionalContexts, configuredSuite) := w3cTypesAndContexts cfg scope configurationID in
  let cryptosuite := if str_empty configuredSuite then "ecdsa-rdfc-2019" else configuredSuite in
  replies ← call_issuer (fun did => Ok (MakeVC20 scope documentData credentialTypes did cryptosuite additionalContexts)) (subject_dids req);
  _ ← saveCredentialSubjects identifier replies;
  mret (ir_Credential <$> replies).

Definition issueBBS (scope documentData identifier : string) (req : CredentialRequest) : C (list string) :=
  match GetCredentialMetadata cfg scope with
  | None => fail CPlain
  | Some meta =>
      if str_empty (BBSCommitment req) then reject ErrInvalidCredentialRequest else
      match DecodeCommitment (BBSCommitment req) with
      | None => reject ErrServerError
      | Some commitment =>
          let vct := match cm_VCTM meta with Some v => vctm_VCT v | None => "" end in
          if str_empty vct then fail CPlain else
          match ParseSuite (BBSSuite req) with
          | None => reject ErrServerError
          | Some suite =>
              answer ← perform (OIssue (MakeJWP scope documentData commitment (BBSCommittedClaims req) vct (BBSKeyBinding req) suite));
              match answer with
              | None => fail CIssuer
              | Some (Some reply) =>
                  credential ← single_credential reply;
                  _ ← saveCredentialSubjects identifier [reply];
                  mret [credential]
              | Some None => fail CPlain
              end
          end
      end
  end.

Definition issue (format scope documentData : string) (jwks : list Jwk) (identifier configurationID : string) (req : CredentialRequest) :
    C (list string) :=
  if bool_decide (format = "mso_mdoc") then issueMDoc scope documentData jwks identifier else
  if bool_decide (format = "vc+sd-jwt") || bool_decide (format = "dc+sd-jwt") then issueSDJWT scope documentData jwks identifier else
  if bool_decide (format = "ldp_vc") || bool_decide (format = "vc+ld+json") then issueVC20 scope documentData identifier configurationID req else
  if bool_decide (format = "jwp") then issueBBS scope documentData identifier req else fail CPlain.

(** ** The endpoint *)

Definition VCICredential (req : CredentialRequest) : C CredentialResponse :=
  l ← authenticate req;
  '(scope, configurationID, format) ← selectScope cfg req l;
  '(doc, openingSource) ← credential_document scope l;
  match marshal_doc doc with
  | None => fail CPlain
  | Some documentData =>
      jwks ← vci (request_keys req);
      _ ← requireAdvertisedProofType cfg scope (request_proof_type req);
      expectedNonce ← expected_nonce req l;
      _ ← verify_proofs req jwks (mkOptions expectedNonce (vc_CredentialIssuer cfg) []);
      taken ← perform (ONonceTake expectedNonce);
      if negb taken then reject ErrInvalidNonce else
      d ← perform (OLoad l);
      identifier ← requireIdentifier (Identifier d) (DataSource d);
      fromWallet ← vci (walletAuxiliaryData req);
      d ← perform (OLoad l);
      '(documentData, toWallet) ← lift (map_err of_aux (apply_auxiliary scope d openingSource documentData fromWallet));
      if is_nonempty toWallet && negb (CredentialResponseEncryption req) then reject ErrInvalidEncryptionParameters else
      credentials ← issue format scope documentData jwks identifier configurationID req;
      if negb (is_nonempty credentials) then fail CPlain else
      let response := newCredentialResponse cfg credentials scope configurationID in
      mret (if is_nonempty toWallet then AddAuxiliaryData response toWallet else response)
  end.
End endpoint.
