(* ===== verification/PresentationFlow.v ===== *)
(** * A presentation that authenticates an issuance

    [internal/apigw/apiv1]: [VerificationDirectPost] and
    [consumeIssuanceAuthPresentation] of [handlers_verifier.go],
    [finalisePresentationVerification] of [handlers_verifier_presentation.go] and
    [ResolveIdentifier] of [handlers_issuer.go].  Handlers as in [Handlers]; the
    checks of the presented credential are those of [VpToken], [MdocDevice] and
    [PresentedClaims].

    Interfaces: the decryption of a response and the members of its JSON, the
    thumbprint of a key, how the CBOR library decodes a response into the fields
    that are only peeked at, and the decoded values of a mobile document.  The
    trust framework is asked at a moment.  Log lines and texts are left out. *)

From stdpp Require Import sorting.
From S2P Require Import Prelude Bytes GoStrings GoValue Base64 Utf8 Json Jwt SdJwt SdJwtVerify SdJwtIssue TokenStatusListCWT Cose MdocSchema Mdoc MdocDevice ClaimPaths Derivations AuxiliaryData OAuth2 AuthContext AuthStore GenericCache IssuerClient Handlers TokenEndpoint KeyProofs PresentationDoc CredentialRequest CredentialEndpoint VpToken PresentedClaims.

Inductive flow_error :=
| FFault                                 (* [ErrIssuanceAuthServerFault] *)
| FClaim (e : claim_error) | FUnrepresentable | FNotAccepted
| FDerivation                            (* the claims cannot satisfy the scope *)
| FNoToken | FState | FParams
| FZk | FChannel | FMdoc | FMdocClaims
| FVp (e : vp_error) | FTrust (e : trust_error) | FIssuerSignature | FWindow | FBinding (e : binding_error) | FBuild
| FIdentity | FAttributes | FNoIdentity | FNoDocuments | FCopy
| FKid | FNoKey | FDecrypt | FResponse (e : response_error) | FStore (e : cache_error) | FWrongChannel | FCallback.

Abbreviation F := (handler flow_error).

(** A scope whose documents are stored ([model.DatastoreScope]): its provider, the
    namespace of its identities and the credentials it accepts. *)
Record DatastoreScope := mkDatastoreScope { ds_AuthProvider : string; ds_AuthenticSource : string; ds_AuthScopes : gmap string AuthScopeEntry }.

Record flow_config := mkFlowConfig {
  fc_vci : vci_config;
  fc_PDPURL : string;
  fc_ResponseURI : option string;        (* [JoinPath(PublicURL, "/verification/direct_post")] *)
  fc_CallbackURL : option string;        (* [JoinPath(PublicURL, "/authorization/consent/callback/")] *)
  fc_Datastore : gmap string DatastoreScope;
  (* the provider of each presentation scope *)
  fc_PresentationAuth : gmap string string
}.

Definition AuthProviderOpenID4VP := "openid4vp".

(** Two members of a context that are kept as values, read. *)
Class ContextViews := {
  query_ids : goval → list string;                   (* the credential queries of a [DCQL] *)
  rule_tests : goval → list (string * string)        (* an [IdentityMatch], by path *)
}.

Class FlowEnv := {
  jwe_open : string → string → option (option json * string);   (* response and key to [vp_token] and [state] *)
  struct_kid : string → option string;                          (* the [kid] of a decoded header *)
  public_thumbprint : string → option (list Z);
  peek_documents : list Z → option (list string * bool);        (* the types of the documents, and whether there are proofs *)
  peek_zk : list Z → option bool
}.

(** A binding: what a presentation must be bound to on its channel. *)
Record issuanceAuthBinding := mkBinding {
  b_Audience : string;
  b_MdocSessionTranscript : option (AuthorizationContext → result mdoc_error (list Z));
  b_ExpectedState : string;
  b_VerifyHolderBinding : bool
}.

Record issuanceAuthOutcome := mkOutcome { o_Scope : string; o_PresentationSourced : bool }.

Definition by_session (sid : string) : AuthorizationContext :=
  mkContext sid 0 0 "" "" "" "" "" "" "" "" false [] 0 None "" "" "" false "" "" "" "" "" "" "" "" "" None zero_rest.
Definition by_encryption_key (kid : string) : AuthorizationContext :=
  mkContext "" 0 0 "" "" "" "" "" "" "" "" false [] 0 None "" "" "" false "" "" "" "" "" "" kid "" "" None zero_rest.

Definition set_Presented (claims : gomap) (d : AuthorizationContext) : AuthorizationContext :=
  set_other (fun r => mkRest (Status r) (SourceSessionID r) (ClientID r) (Scopes r) (Nonce r) (IdentityMatch r) (InteractiveAuthorization r)
    (PreAuthorized r) (TXCode r) (IDToken r) (AuthorizationDetails r) (RequestURIExpiresAt r) (Scope r) (DynamicParams r)
    (RedirectURI r) (ResponseType r) (ResponseMode r) (ShowCredentialDetails r) (WalletFollowsRedirect r)
    (CodeExpiresAt r) (AccessTokenExpiresAt r) (RefreshTokenExpiresAt r) (Some claims) (PresentedScope r) (VPToken r)
    (PresentationSubmission r) (RequestObjectNonce r) (TransactionData r) (TransactionDataResponseModes r)
    (DCQLQueryExact r) (ScopeQueryIDs r) (Validations r) (WalletID r)) d.
Definition set_PresentedScope (scope : string) (d : AuthorizationContext) : AuthorizationContext :=
  set_other (fun r => mkRest (Status r) (SourceSessionID r) (ClientID r) (Scopes r) (Nonce r) (IdentityMatch r) (InteractiveAuthorization r)
    (PreAuthorized r) (TXCode r) (IDToken r) (AuthorizationDetails r) (RequestURIExpiresAt r) (Scope r) (DynamicParams r)
    (RedirectURI r) (ResponseType r) (ResponseMode r) (ShowCredentialDetails r) (WalletFollowsRedirect r)
    (CodeExpiresAt r) (AccessTokenExpiresAt r) (RefreshTokenExpiresAt r) (VerifiedClaims r) scope (VPToken r)
    (PresentationSubmission r) (RequestObjectNonce r) (TransactionData r) (TransactionDataResponseModes r)
    (DCQLQueryExact r) (ScopeQueryIDs r) (Validations r) (WalletID r)) d.

(** [numericDate] of decoded claims: [Ok None] when absent. *)
Definition issuerCredentialClockSkew : Z := 30 * second.
Definition numericDate `{Arch} (claims : jobject) (name : string) : option (option Z) :=
  match claims !! name with
  | None | Some JNull => Some None
  | Some (JFloat f) => Some (Some (time_Unix (float_int64 f)))
  | Some (JInt z) => Some (Some (time_Unix z))
  | Some _ => None
  end.
Definition validIssuerCredentialWindow `{Arch} (claims : jobject) (now : Z) : bool :=
  match numericDate claims "exp", numericDate claims "nbf" with
  | Some exp, Some nbf =>
      negb (match exp with Some e => bool_decide (e + issuerCredentialClockSkew < now) | None => false end) &&
      negb (match nbf with Some b => bool_decide (now < b - issuerCredentialClockSkew) | None => false end)
  | _, _ => false
  end.

Definition issuerJWTOf (vpToken : string) : string := match Cut "~" vpToken with Some (a, _) => a | None => vpToken end.

Section config.
Variable cfg : flow_config.
Abbreviation meta := (GetCredentialMetadata (fc_vci cfg)).

Definition GetFormatForScope (scope : string) : string := match meta scope with Some c => cm_Format c | None => "" end.

Definition accepted_entry (accepted : PresentedCredential) : AuthScopeEntry :=
  mkAuthScope (merge_sort key_order (map fst (pc_RequiredClaims accepted))) ∅ [].
Definition GetOpenID4VPAuth (scope : string) : option (gmap string AuthScopeEntry) :=
  match fc_Datastore cfg !! scope with
  | Some s => if bool_decide (ds_AuthProvider s = AuthProviderOpenID4VP) then Some (ds_AuthScopes s) else None
  | None => None
  end ∪
  match vc_Presentation (fc_vci cfg) !! scope with
  | Some p => if bool_decide (fc_PresentationAuth cfg !! scope = Some AuthProviderOpenID4VP)
              then Some (list_to_map (map (fun e => (fst e, accepted_entry (snd e))) (ps_From p))) else None
  | None => None
  end.
End config.

(** ** The checks *)

Section flow.
Context `{JSON} `{Arch} `{Hashes} `{Sig : Signatures} `{!SdEnv} `{TxJSON} `{Text} `{Countries} `{LocalTime} `{Times} `{NumberText}.
Context `{CBORRaw} `{CoseVerify} `{MdocCBOR} `{ResponseCBOR} `{FlowEnv} `{ContextViews}.
Variable cfg : flow_config.
Variable fuel : nat.                                  (* for the resolution of disclosures *)
Variable trust : Z → JWTTrustVerifier.                (* as it answers at a moment *)
Variable mdoc_verifier : option Verifier.
Variable of_dvalue : dvalue → pvalue.
Variable entropy : Entropy.

Abbreviation metadata := (GetCredentialMetadata (fc_vci cfg)).

(** [matchScope], then the first query that was answered. *)
Fixpoint answered (tokens : gmap string (list string)) (ids : list string) : option (string * string) :=
  match ids with
  | [] => None
  | id :: ids => match tokens !! id with Some (token :: _) => Some (id, token) | _ => answered tokens ids end
  end.

(** [extractMDocClaimsFromToken], as a check. *)
Fixpoint one_type (docType : string) (types : list string) : bool :=
  match types with
  | [] => true
  | t :: types => if str_empty t then one_type docType types else
                  if str_empty docType then one_type t types else bool_decide (docType = t) && one_type docType types
  end.
Definition mdoc_preview (vpToken : string) : bool :=
  match decode_token vpToken with
  | Err _ => false
  | Ok data =>
      match peek_documents data with
      | None => false
      | Some ([], zk) => zk
      | Some (types, _) => one_type "" types
      end
  end.

(** [ResponseParameters.Validate] *)
Definition validate_params (vpToken : string) : bool :=
  negb (str_empty vpToken) &&
  if IsMDocFormat vpToken then mdoc_preview vpToken else match Token_Parse fuel vpToken with Ok _ => true | Err _ => false end.

Definition is_zk (vpToken : string) : bool :=
  match RawURLEncoding.DecodeString vpToken with Some raw => match peek_zk raw with Some b => b | None => false end | None => false end.

(** The documents, by type, as the maps of values they are flattened from. *)
Definition presented_documents (docs : gmap string MDocDocumentClaims) : list (string * list (string * list (string * pvalue))) :=
  map (fun e => (fst e, map (fun n => (fst n, map_to_list (of_dvalue <$> snd n))) (map_to_list (Namespaces (snd e))))) (map_to_list docs).

Definition mdoc_credential (l : loc) (vpToken : string) (b : issuanceAuthBinding) : F pmap :=
  if str_empty (fc_PDPURL cfg) then fail FFault else
  d ← perform (OLoad l);
  if str_empty (AuthContext.Nonce (other d)) || str_empty (ClientID (other d)) then fail FFault else
  if is_zk vpToken then fail FZk else
  match b_MdocSessionTranscript b with
  | None => fail FChannel
  | Some build =>
      d ← perform (OLoad l);
      match build d, mdoc_verifier with
      | Ok transcript, Some verifier =>
          now ← perform ONow;
          match VerifyAndExtractBound verifier vpToken transcript now with
          | Err _ => fail FMdoc
          | Ok docs => match mdocClaimsFromResult (presented_documents docs) with Some claims => mret claims | None => fail FMdocClaims end
          end
      | _, _ => fail FFault
      end
  end.

Definition holder_binding (l : loc) (vpToken audience : string) : F unit :=
  now ← perform ONow;
  match VerifyJWTSignature (trust now) (issuerJWTOf vpToken) with
  | Err _ => fail FIssuerSignature
  | Ok (issuerToken, _) =>
      now ← perform ONow;
      if negb (validIssuerCredentialWindow (Claims issuerToken) now) then fail FWindow else
      d ← perform (OLoad l);
      now ← perform ONow;
      lift (map_err FBinding (VerifyKeyBinding vpToken (Claims issuerToken) (mkExpectations (AuthContext.Nonce (other d)) audience 0 0) now))
  end.

Definition sdjwt_credential (l : loc) (vpToken : string) (b : issuanceAuthBinding) : F pmap :=
  d ← perform (OLoad l);
  now ← perform ONow;
  _ ← lift (map_err FVp (Validate fuel (mkValidator (AuthContext.Nonce (other d)) (b_Audience b) true [] "" [] 0) vpToken now));
  now ← perform ONow;
  _ ← lift (map_err FTrust (EvaluateIssuerTrust (trust now) vpToken));
  _ ← (if b_VerifyHolderBinding b then holder_binding l vpToken (b_Audience b) else mret tt);
  match Token_Parse fuel vpToken with
  | Ok parsed => mret (of_json <$> ParsedClaims parsed)
  | Err _ => fail FBuild
  end.

(** ** What becomes of it *)

Definition finalisePresentationVerification (l : loc) (pScope : PresentationScope) (presentedScope : string) (presented : pmap) : F unit :=
  match mget (ps_From pScope) presentedScope with
  | None => fail FNotAccepted
  | Some accepted =>
      _ ← lift (map_err FClaim (enforceScopeCredentialType (metadata presentedScope) presented));
      verified ← lift (map_err FClaim (verifiedClaims (GetFormatForScope cfg presentedScope) presented (pc_RequiredClaims accepted)));
      match documentObject verified with
      | None => fail FUnrepresentable
      | Some storable =>
          _ ← perform (OAssign l (set_Presented (to_gomap storable)));
          _ ← perform (OAssign l (set_PresentedScope presentedScope));
          updated ← perform (OUpdate l);
          match updated with
          | Err _ => fail FFault
          | Ok _ =>
              now ← perform ONow;
              match ApplyDerivationsReplacing (pc_Derivations accepted) (to_gomap storable) now [] with
              | Err InvalidClaimInput => fail FDerivation
              | Err Misconfigured => fail FFault
              | Ok (derived, replaced) =>
                  match ResolveDefaults pScope now ≫= MergeDefaults (MergeDerived (to_gomap storable) derived replaced) with
                  | None => fail FFault
                  | Some previewData =>
                      d ← perform (OLoad l);
                      _ ← perform (ODocumentSet (SessionID d) [(presentedScope, Some (mkDocument (Some previewData) [] []))]);
                      mret tt
                  end
              end
          end
      end
  end.

Definition identity_keys : list string := ["family_name"; "given_name"; "birth_date"].
Definition identity_attrs (claims : gmap string string) : gmap string string :=
  list_to_map (omap (fun k => match claims !! k with Some v => if str_empty v then None else Some (k, v) | None => None end) identity_keys).

Definition ResolveIdentifier (authenticSource : string) (claims : gmap string string) : F string :=
  let direct := default "" (claims !! "authentic_source_person_id") in
  if negb (str_empty direct) then mret direct else
  let attrs := identity_attrs claims in
  if bool_decide (attrs = ∅) then fail FFault else
  r ← perform (OResolve authenticSource attrs);
  match r with
  | Ok id => mret id
  | Err NoIdentityFound => fail FNoIdentity
  | Err IdentityFault => fail FFault
  end.
(** [decorateWithPresentedClaims], then the cache. *)
Definition publishPresentedDocuments (sessionID : string) (docs : documents) (sourceFormat : string) (credential : pmap)
    (entry : AuthScopeEntry) (scope : string) : F unit :=
  match (if bool_decide (DocumentClaims entry = []) then Some docs
         else applyPresentedDocumentClaims docs <$> presentedDocumentClaims sourceFormat credential entry (metadata scope)) with
  | None => fail FCopy
  | Some decorated => _ ← perform (ODocumentSet sessionID decorated); mret tt
  end.

(** The documents of the person the credential identifies. *)
Definition datastore_documents (l : loc) (scope matchedAuthScope : string) (credential : pmap) : F unit :=
  match GetOpenID4VPAuth cfg scope ≫= (.!! matchedAuthScope) with
  | None => fail FFault
  | Some entry =>
      let format := GetFormatForScope cfg matchedAuthScope in
      match extractAuthScopeIdentity format credential entry with
      | None => fail FAttributes
      | Some identityClaims =>
          d ← perform (OLoad l);
          identityMappingID ← ResolveIdentifier (AuthenticSource d) identityClaims;
          d ← perform (OLoad l);
          persisted ← perform (OSetIdentifier (by_session (SessionID d)) identityMappingID);
          match persisted with
          | Err _ => fail FFault
          | Ok _ =>
              docs ← perform (ODatastore scope identityMappingID);
              match docs with
              | None => fail FFault
              | Some [] => fail FNoDocuments
              | Some docs =>
                  d ← perform (OLoad l);
                  publishPresentedDocuments (SessionID d) docs format credential entry scope
              end
          end
      end
  end.

Definition identity_rule (d : AuthorizationContext) : option (list (string * string)) := rule_tests <$> IdentityMatch (other d).

Definition consumeIssuanceAuthPresentation (l : loc) (resp : VPResponse) (b : issuanceAuthBinding) : F issuanceAuthOutcome :=
  d ← perform (OLoad l);
  match matchScope (fc_vci cfg) (Scopes (other d)) with
  | None => fail FFault
  | Some scope =>
      d ← perform (OLoad l);
      match default [] (query_ids <$> DCQLQuery d) with
      | [] => fail FFault
      | ids =>
          match answered (vp_Tokens resp) ids with
          | None => fail FNoToken
          | Some (matchedAuthScope, vpToken) =>
              if str_empty vpToken then fail FNoToken else
              if negb (str_empty (b_ExpectedState b)) && negb (bool_decide (vp_State resp = b_ExpectedState b)) then fail FState else
              if negb (validate_params vpToken) then fail FParams else
              credential ← (if IsMDocFormat vpToken then mdoc_credential l vpToken b else sdjwt_credential l vpToken b);
              _ ← lift (map_err FClaim (enforceScopeCredentialType (metadata matchedAuthScope) credential));
              d ← perform (OLoad l);
              if negb (matchPresentedIdentity (GetFormatForScope cfg matchedAuthScope) credential (identity_rule d)) then fail FIdentity else
              d ← perform (OLoad l);
              match vc_Presentation (fc_vci cfg) !! scope with
              | Some pScope =>
                  if bool_decide (DataSource d = DataSourcePresentation) then
                    _ ← finalisePresentationVerification l pScope matchedAuthScope credential;
                    mret (mkOutcome scope true)
                  else _ ← datastore_documents l scope matchedAuthScope credential; mret (mkOutcome scope false)
              | None => _ ← datastore_documents l scope matchedAuthScope credential; mret (mkOutcome scope false)
              end
          end
      end
  end.

(** ** The endpoint of the browser *)

(** [ExtractKIDFromCompactJWT] *)
Definition ExtractKIDFromCompactJWT (compactToken : string) : option string :=
  let header := match Cut "." compactToken with Some (h, _) => h | None => compactToken end in
  b ← unb64_any header;
  kid ← struct_kid b;
  if str_empty kid then None else Some kid.

Definition directPostSessionTranscript (key : string) (d : AuthorizationContext) : result mdoc_error (list Z) :=
  match fc_ResponseURI cfg, public_thumbprint key with
  | Some responseURI, Some thumbprint =>
      BuildOID4VPSessionTranscript (ClientID (other d)) (AuthContext.Nonce (other d)) responseURI (Some thumbprint)
  | _, _ => Err MTranscript
  end.

Definition direct_post_binding (audience key : string) : issuanceAuthBinding :=
  mkBinding audience (Some (directPostSessionTranscript key)) "" false.

(** The callback with the code of the response, and the session to resume. *)
Record VerificationDirectPostResponse := mkDirectPostResponse { dp_Session : string; dp_Callback : string; dp_ResponseCode : string }.

Definition VerificationDirectPost (response : string) : F VerificationDirectPostResponse :=
  match ExtractKIDFromCompactJWT response with
  | None => fail FKid
  | Some kid =>
      key ← perform (OKey kid);
      match key with
      | None => fail FNoKey
      | Some key =>
          match jwe_open response key with
          | None => fail FDecrypt
          | Some (raw_token, state) =>
              vpResponse ← lift (map_err FResponse (UnmarshalVPResponse raw_token state));
              found ← perform (OGet (by_encryption_key kid));
              match found with
              | Err e => fail (FStore e)
              | Ok l =>
                  d ← perform (OLoad l);
                  if InteractiveAuthorization (other d) || negb (str_empty (AuthSessionDPoPThumbprint d)) then fail FWrongChannel else
                  d ← perform (OLoad l);
                  outcome ← consumeIssuanceAuthPresentation l vpResponse (direct_post_binding (ClientID (other d)) key);
                  match fc_CallbackURL cfg with
                  | None => fail FCallback
                  | Some callback =>
                      d ← perform (OLoad l);
                      if o_PresentationSourced outcome then
                        d' ← perform (OLoad l);
                        mret (mkDirectPostResponse (SessionID d') callback (VerifierResponseCode d))
                      else mret (mkDirectPostResponse "" callback (VerifierResponseCode d))
                  end
              end
          end
      end
  end.
End flow.
