(* ===== verification/PresentationSafety.v ===== *)
(** * What a published document rests on

    Before [VerificationDirectPost] puts documents or claims where the issuance
    finds them, it has verified a presentation that answers the query of the
    session ([published_on_grounds]): a trusted issuer vouches for its claims, its
    holder signed it for this session, it is of the type that was asked for, and
    it satisfies the rule the session was prepared with; what is published is
    taken from the claims, or belongs to the person they identify.  This holds
    in every interleaving. *)

From stdpp Require Import relations.
From S2P Require Import Prelude Bytes GoStrings GoValue Base64 Utf8 Json Jwt SdJwt SdJwtVerify SdJwtIssue TokenStatusListCWT Cose MdocSchema Mdoc MdocDevice ClaimPaths Derivations AuxiliaryData OAuth2 AuthContext AuthStore AuthStoreSteps GenericCache IssuerClient Handlers HandlersSafety TokenEndpoint KeyProofs PresentationDoc CredentialRequest CredentialEndpoint VpToken PresentedClaims PresentedClaimsFacts PresentationFlow.

Section safety.
Context `{JSON} `{Arch} `{Hashes} `{Sig : Signatures} `{!SdEnv} `{TxJSON} `{Text} `{Countries} `{LocalTime} `{Times} `{NumberText}.
Context `{CBORRaw} `{CoseVerify} `{MdocCBOR} `{ResponseCBOR} `{FlowEnv} `{ContextViews}.
Variable cfg : flow_config.
Variable fuel : nat.
Variable trust : Z → JWTTrustVerifier.
Variable mdoc_verifier : option Verifier.
Variable of_dvalue : dvalue → pvalue.
Variable entropy : Entropy.

Abbreviation metadata := (GetCredentialMetadata (fc_vci cfg)).

(** ** The grounds *)

(** The holder of the credential showed it: the key that signed the proof is the
    one its issuer bound it to, and the credential is within its validity. *)
Definition shown_by_holder (b : issuanceAuthBinding) (log : list event) (l : loc) (vpToken : string) : Prop :=
  ∃ t1 t2 t3 d issuerToken key,
    call ONow t1 ∈ log ∧ call ONow t2 ∈ log ∧ call ONow t3 ∈ log ∧ call (OLoad l) d ∈ log ∧
    VerifyJWTSignature (trust t1) (issuerJWTOf vpToken) = Ok (issuerToken, key) ∧
    validIssuerCredentialWindow (Claims issuerToken) t2 = true ∧
    VerifyKeyBinding vpToken (Claims issuerToken) (mkExpectations (AuthContext.Nonce (other d)) (b_Audience b) 0 0) t3 = Ok tt.

(** A presented credential that was verified: its claims are vouched for by a
    trusted issuer and shown by their holder, for the nonce of the session and the
    audience of the channel; or it is a mobile document that was verified against
    the transcript of the session. *)
Inductive genuine (b : issuanceAuthBinding) (log : list event) (l : loc) (vpToken : string) : pmap → Prop :=
| genuine_sdjwt d now now' t parsed kb proof :
    call (OLoad l) d ∈ log → call ONow now ∈ log → call ONow now' ∈ log →
    vouched (trust now') vpToken t → Token_Parse fuel vpToken = Ok parsed → resolved_from fuel (Claims t) parsed →
    KeyBinding parsed = Some kb → ParseUnverified (kb_text kb) = Ok proof →
    bound_to (mkValidator (AuthContext.Nonce (other d)) (b_Audience b) true [] "" [] 0) vpToken (ParsedClaims parsed) now proof →
    (AuthContext.Nonce (other d) ≠ "" → Claims proof !! "nonce" = Some (JStr (AuthContext.Nonce (other d)))) →
    (b_Audience b ≠ "" → Claims proof !! "aud" = Some (JStr (b_Audience b))) →
    (b_VerifyHolderBinding b = true → shown_by_holder b log l vpToken) →
    genuine b log l vpToken (of_json <$> ParsedClaims parsed)
| genuine_mdoc d build transcript verifier now docs credential :
    call (OLoad l) d ∈ log → call ONow now ∈ log → fc_PDPURL cfg ≠ "" →
    b_MdocSessionTranscript b = Some build → build d = Ok transcript → mdoc_verifier = Some verifier →
    VerifyAndExtractBound verifier vpToken transcript now = Ok docs →
    mdocClaimsFromResult (presented_documents of_dvalue docs) = Some credential →
    genuine b log l vpToken credential.

(** It answers a query of the session, is of its type and satisfies the rule. *)
Definition asked_for (resp : VPResponse) (log : list event) (l : loc) (authScope vpToken : string) (credential : pmap) : Prop :=
  (∃ d q tokens, call (OLoad l) d ∈ log ∧ DCQLQuery d = Some q ∧ authScope ∈ query_ids q ∧ vp_Tokens resp !! authScope = Some (vpToken :: tokens)) ∧
  enforceScopeCredentialType (metadata authScope) credential = Ok tt ∧
  (∃ d, call (OLoad l) d ∈ log ∧ matchPresentedIdentity (GetFormatForScope cfg authScope) credential (identity_rule d) = true).

Record verified_presentation (b : issuanceAuthBinding) (resp : VPResponse) (log : list event) (l : loc)
    (scope authScope : string) (credential : pmap) : Prop := {
  vf_scope : ∃ d, call (OLoad l) d ∈ log ∧ scope ∈ Scopes (other d);
  vf_state : b_ExpectedState b ≠ "" → vp_State resp = b_ExpectedState b;
  vf_token : ∃ vpToken, genuine b log l vpToken credential ∧ asked_for resp log l authScope vpToken credential
}.

(** The claims taken from it, as they are stored. *)
Definition taken_claims (scope authScope : string) (credential storable : pmap) : Prop :=
  ∃ pScope accepted verified, vc_Presentation (fc_vci cfg) !! scope = Some pScope ∧ mget (ps_From pScope) authScope = Some accepted ∧
    verifiedClaims (GetFormatForScope cfg authScope) credential (pc_RequiredClaims accepted) = Ok verified ∧ documentObject verified = Some storable.

(** The document that is previewed: the claims, what the scope derives from them at
    the moment [now], and the defaults of the scope for what neither gives. *)
Definition previewed (log : list event) (scope authScope : string) (storable : pmap) (preview : gomap) : Prop :=
  ∃ pScope accepted now derived replaced, vc_Presentation (fc_vci cfg) !! scope = Some pScope ∧ mget (ps_From pScope) authScope = Some accepted ∧
    call ONow now ∈ log ∧ ApplyDerivationsReplacing (pc_Derivations accepted) (to_gomap storable) now [] = Ok (derived, replaced) ∧
    (ResolveDefaults pScope now ≫= MergeDefaults (MergeDerived (to_gomap storable) derived replaced)) = Some preview.

(** The person it identifies. *)
Definition identifies (log : list event) (l : loc) (scope authScope : string) (credential : pmap) (entry : AuthScopeEntry) (id : string) : Prop :=
  (GetOpenID4VPAuth cfg scope ≫= (.!! authScope)) = Some entry ∧
  ∃ attrs, extractAuthScopeIdentity (GetFormatForScope cfg authScope) credential entry = Some attrs ∧
    (attrs !! "authentic_source_person_id" = Some id ∧ id ≠ "" ∨
     ∃ d, call (OLoad l) d ∈ log ∧ identity_attrs attrs ≠ ∅ ∧ call (OResolve (AuthenticSource d) (identity_attrs attrs)) (Ok id) ∈ log).

(** What may be put down, and where: [l] is the session. *)
Definition grounds (b : issuanceAuthBinding) (resp : VPResponse) (l : loc) (log : list event) (o : op) : Prop :=
  match o with
  | OAssign l' f => l' = l ∧
      ∃ scope authScope credential storable, verified_presentation b resp log l scope authScope credential ∧
        taken_claims scope authScope credential storable ∧ (f = set_Presented (to_gomap storable) ∨ f = set_PresentedScope authScope)
  | OSetIdentifier q id =>
      ∃ d scope authScope credential entry, call (OLoad l) d ∈ log ∧ q = by_session (SessionID d) ∧
        verified_presentation b resp log l scope authScope credential ∧ identifies log l scope authScope credential entry id
  | ODocumentSet sid docs =>
      ∃ d scope authScope credential, call (OLoad l) d ∈ log ∧ sid = SessionID d ∧
        verified_presentation b resp log l scope authScope credential ∧
        ((∃ storable preview, taken_claims scope authScope credential storable ∧ previewed log scope authScope storable preview ∧
            docs = [(authScope, Some (mkDocument (Some preview) [] []))]) ∨
         (∃ entry id stored, identifies log l scope authScope credential entry id ∧ call (ODatastore scope id) (Some stored) ∈ log ∧ stored ≠ [] ∧
            match DocumentClaims entry with
            | [] => docs = stored
            | _ => ∃ claims, presentedDocumentClaims (GetFormatForScope cfg authScope) credential entry (metadata scope) = Some claims ∧
                     docs = applyPresentedDocumentClaims stored claims
            end))
  | _ => True
  end.

(** Documents were put in the cache for the session. *)
Definition published (log : list event) (l : loc) : Prop :=
  ∃ d docs, call (OLoad l) d ∈ log ∧ call (ODocumentSet (SessionID d) docs) tt ∈ log.

Lemma shown_by_holder_mono b log log' l tok : log ⊆ log' → shown_by_holder b log l tok → shown_by_holder b log' l tok.
Proof.
  intros Hs (t1 & t2 & t3 & d & it & key & Ht1 & Ht2 & Ht3 & Hd & Hr). exists t1, t2, t3, d, it, key.
  split_and!; [by apply (Hs (call ONow t1))|by apply (Hs (call ONow t2))|by apply (Hs (call ONow t3))|by apply Hs|apply Hr..].
Qed.
Lemma genuine_mono b log log' l tok c : log ⊆ log' → genuine b log l tok c → genuine b log' l tok c.
Proof.
  intros Hs [d now now' t parsed kb proof Hd Hn Hn'|d build tr v now docs c' Hd Hn].
  - eapply genuine_sdjwt; try done; [by apply Hs|by apply (Hs (call ONow now))|by apply (Hs (call ONow now'))|].
    intros Hb. eapply shown_by_holder_mono; eauto.
  - eapply genuine_mdoc; try done; [by apply Hs|by apply (Hs (call ONow now))].
Qed.
Lemma asked_for_mono resp log log' l s tok c : log ⊆ log' → asked_for resp log l s tok c → asked_for resp log' l s tok c.
Proof. intros Hs ((d & q & ts & ? & ?) & ? & d' & ? & ?). split_and!; [exists d, q, ts|done|exists d']; naive_solver. Qed.
Lemma verified_mono b resp log log' l s a c : log ⊆ log' → verified_presentation b resp log l s a c → verified_presentation b resp log' l s a c.
Proof.
  intros Hs [(d & Hd & Hin) Hst (tok & Hg & Ha)]. split; [exists d; auto|done|]. exists tok. split; [by eapply genuine_mono|by eapply asked_for_mono].
Qed.
Lemma identifies_mono log log' l s a c e id : log ⊆ log' → identifies log l s a c e id → identifies log' l s a c e id.
Proof.
  intros Hs (? & attrs & ? & Hid). split; [done|]. exists attrs. split; [done|]. destruct Hid as [?|(d & ? & ? & ?)]; [by left|].
  right. exists d. auto.
Qed.

(** ** The steps *)

Section request.
Variable b : issuanceAuthBinding.
Variable resp : VPResponse.
Variable l : loc.
Abbreviation watched := (watch (grounds b resp l)).

Lemma mdoc_credential_watched log tok :
  watched log (mdoc_credential cfg mdoc_verifier of_dvalue l tok b) (ok_then (fun log' c => genuine b log' l tok c)).
Proof.
  unfold mdoc_credential. destruct (str_empty (fc_PDPURL cfg)) eqn:Epdp; [done|]. apply str_empty_false in Epdp.
  apply watch_perform; [done|]. intros d. destruct (_ || _); [done|]. destruct (is_zk tok); [done|].
  destruct (b_MdocSessionTranscript b) as [build|] eqn:Eb; [|done]. apply watch_perform; [done|]. intros d1.
  destruct (build d1) as [transcript|] eqn:Et; [|done]. destruct mdoc_verifier as [verifier|] eqn:Ev; [|done].
  apply watch_perform; [done|]. intros now. destruct (VerifyAndExtractBound _ _ _ _) as [docs|] eqn:Ed; [|done].
  destruct (mdocClaimsFromResult _) as [claims|] eqn:Ec; [|done]. cbn.
  eapply (genuine_mdoc _ _ _ _ d1 build transcript verifier now docs); try done; set_solver.
Qed.

Lemma holder_binding_watched log tok :
  watched log (holder_binding trust l tok (b_Audience b)) (ok_then (fun log' _ => shown_by_holder b log' l tok)).
Proof.
  unfold holder_binding. apply watch_perform; [done|]. intros t1. destruct (VerifyJWTSignature _ _) as [[it key]|] eqn:Ev; [|done].
  apply watch_perform; [done|]. intros t2. destruct (validIssuerCredentialWindow _ _) eqn:Ew; [|done]. cbn [negb].
  apply watch_perform; [done|]. intros d. apply watch_perform; [done|]. intros t3.
  destruct (VerifyKeyBinding _ _ _ _) as [[]|] eqn:Ek; [|done]. cbn.
  exists t1, t2, t3, d, it, key. split_and!; [set_solver..|done|done|done].
Qed.

Lemma sdjwt_credential_watched log tok :
  watched log (sdjwt_credential fuel trust l tok b) (ok_then (fun log' c => genuine b log' l tok c)).
Proof.
  unfold sdjwt_credential. apply watch_perform; [done|]. intros d. apply watch_perform; [done|]. intros now.
  apply watch_lift. intros jti Hv%map_err_Ok. apply watch_perform; [done|]. intros now'. apply watch_lift. intros [] Ht%map_err_Ok.
  eapply (watch_bind _ _ _ _ (fun log' _ => b_VerifyHolderBinding b = true → shown_by_holder b log' l tok)).
  { destruct (b_VerifyHolderBinding b); [|done]. eapply watch_mono; [apply holder_binding_watched|]. intros log' [[]|e] _ Hh; [by intros _|done]. }
  intros log' [] Hs Hh. destruct (Validate_Ok _ _ _ _ _ Hv) as (parsed & kb & proof & Hp & Hkb & Hpr & Hb & Hn & Ha & _). rewrite Hp. cbn.
  destruct (EvaluateIssuerTrust_Ok _ _ Ht) as (t & Hvo).
  eapply (genuine_sdjwt _ _ _ _ d now now' t parsed kb proof); try done; try (apply Hs; set_solver).
  eapply Token_Parse_signed; [done|apply Hvo].
Qed.

Lemma finalise_watched log scope pScope authScope credential :
  vc_Presentation (fc_vci cfg) !! scope = Some pScope → verified_presentation b resp log l scope authScope credential →
  watched log (finalisePresentationVerification cfg entropy l pScope authScope credential) (ok_then (fun log' _ => published log' l)).
Proof.
  intros Hp Hv. unfold finalisePresentationVerification. destruct (mget (ps_From pScope) authScope) as [accepted|] eqn:Ea; [|done].
  apply watch_lift. intros [] _. apply watch_lift. intros verified Hver%map_err_Ok.
  destruct (documentObject verified) as [storable|] eqn:Es; [|done].
  assert (taken_claims scope authScope credential storable) as Ht by (by exists pScope, accepted, verified).
  apply watch_perform; [split; [done|]; exists scope, authScope, credential, storable; split_and!; auto|]. intros [].
  apply watch_perform.
  { split; [done|]. exists scope, authScope, credential, storable. split_and!; [|done|by right]. eapply verified_mono; [|done]. set_solver. }
  intros []. apply watch_perform; [done|]. intros [[]|]; [|done]. apply watch_perform; [done|]. intros now.
  destruct (ApplyDerivationsReplacing _ _ _ _) as [[derived replaced]|[]] eqn:Eder; [|done..].
  destruct (_ ≫= _) as [preview|] eqn:Epre; [|done]. apply watch_perform; [done|]. intros d. apply watch_perform; [|intros []; exists d, [(authScope, Some (mkDocument (Some preview) [] []))]; split; set_solver].
  exists d, scope, authScope, credential. split_and!; [set_solver|done|eapply verified_mono; [|done]; set_solver|].
  left. exists storable, preview. split_and!; [done| |done]. exists pScope, accepted, now, derived, replaced. split_and!; [done..|set_solver|done|done].
Qed.

Lemma ResolveIdentifier_watched log source attrs d :
  call (OLoad l) d ∈ log → source = AuthenticSource d →
  watched log (ResolveIdentifier source attrs) (ok_then (fun log' id =>
    attrs !! "authentic_source_person_id" = Some id ∧ id ≠ "" ∨
    ∃ d, call (OLoad l) d ∈ log' ∧ identity_attrs attrs ≠ ∅ ∧ call (OResolve (AuthenticSource d) (identity_attrs attrs)) (Ok id) ∈ log')).
Proof.
  intros Hd ->. unfold ResolveIdentifier. cbv zeta. destruct (str_empty _) eqn:Ed; cbn [negb].
  - case_bool_decide as Ha; [done|]. apply watch_perform; [done|]. intros [id|[]]; [|done..]. cbn. right. exists d. split_and!; [set_solver|done|set_solver].
  - apply str_empty_false in Ed. cbn. left. by destruct (attrs !! "authentic_source_person_id").
Qed.

Lemma datastore_documents_watched log scope authScope credential :
  verified_presentation b resp log l scope authScope credential →
  watched log (datastore_documents cfg l scope authScope credential) (ok_then (fun log' _ => published log' l)).
Proof.
  intros Hv. unfold datastore_documents. destruct (_ ≫= _) as [entry|] eqn:Ee; [|done]. cbv zeta.
  destruct (extractAuthScopeIdentity _ _ _) as [attrs|] eqn:Ei; [|done]. apply watch_perform; [done|]. intros d.
  eapply watch_bind; [apply ResolveIdentifier_watched with (d := d); [set_solver|done]|]. intros log1 id Hs1 Hid.
  assert (identifies log1 l scope authScope credential entry id) as Hident by (split; [done|by exists attrs]).
  assert (verified_presentation b resp log1 l scope authScope credential) as Hv1 by (eapply verified_mono; [|done]; set_solver).
  apply watch_perform; [done|]. intros d1. apply watch_perform.
  { exists d1, scope, authScope, credential, entry.
    split_and!; [set_solver|done|eapply verified_mono; [|done]; set_solver|eapply identifies_mono; [|done]; set_solver]. }
  intros [[]|]; [|done]. apply watch_perform; [done|]. intros [[|doc docs]|]; [done| |done].
  apply watch_perform; [done|]. intros d2. unfold publishPresentedDocuments.
  destruct (if bool_decide _ then _ else _) as [decorated|] eqn:Edec; [|done].
  apply watch_perform; [|intros []; exists d2, decorated; split; set_solver].
  exists d2, scope, authScope, credential. split_and!; [set_solver|done|eapply verified_mono; [|done]; set_solver|].
  right. exists entry, id, (doc :: docs).
  split_and!; [eapply identifies_mono; [|done]; set_solver|set_solver|done|].
  destruct (DocumentClaims entry) as [|e es] eqn:Ed; [by rewrite bool_decide_eq_true_2 in Edec by done; injection Edec as <-|].
  rewrite bool_decide_eq_false_2 in Edec by done. apply fmap_Some in Edec as (claims & Hc & ->). by exists claims.
Qed.

Lemma answered_Some tokens ids id tok : answered tokens ids = Some (id, tok) → id ∈ ids ∧ ∃ ts, tokens !! id = Some (tok :: ts).
Proof.
  induction ids as [|i ids IH]; cbn [answered]; [done|].
  destruct (tokens !! i) as [[|t ts]|] eqn:Et; [intros [? ?]%IH; split; [by right|done]| |intros [? ?]%IH; split; [by right|done]].
  intros [= <- <-]. split; [by left|by exists ts].
Qed.

Lemma consume_watched log :
  watched log (consumeIssuanceAuthPresentation cfg fuel trust mdoc_verifier of_dvalue entropy l resp b)
    (ok_then (fun log' _ => ∃ scope authScope credential, verified_presentation b resp log' l scope authScope credential ∧ published log' l)).
Proof.
  unfold consumeIssuanceAuthPresentation. apply watch_perform; [done|]. intros d.
  destruct (matchScope _ _) as [scope|] eqn:Em; [|done].
  assert (scope ∈ Scopes (other d)) as Hscope.
  { revert Em. induction (Scopes (other d)) as [|t ts IH]; cbn; [done|]. destruct (GetCredentialMetadata _ t); [intros [= <-]; by left|]. right. auto. }
  apply watch_perform; [done|]. intros d1. destruct (DCQLQuery d1) as [q|] eqn:Eq; [|done]. cbn [fmap option_fmap option_map default from_option id].
  destruct (query_ids q) as [|i ids] eqn:Eids; [done|]. rewrite <- Eids.
  destruct (answered _ _) as [[authScope tok]|] eqn:Ea; [|done]. apply answered_Some in Ea as (Hin & ts & Hts).
  destruct (str_empty tok); [done|].
  destruct (negb (str_empty (b_ExpectedState b)) && _) eqn:Est; [done|].
  pose proof (checked_unless_empty _ _ Est) as Hst. clear Est. destruct (validate_params fuel tok); [|done]. cbn [negb].
  eapply (watch_bind _ _ _ _ (fun log' c => genuine b log' l tok c)).
  { destruct (IsMDocFormat tok); [apply mdoc_credential_watched|apply sdjwt_credential_watched]. }
  intros log1 credential Hs1 Hg. apply watch_lift. intros [] Htype%map_err_Ok. apply watch_perform; [done|]. intros d2.
  destruct (matchPresentedIdentity _ _ _) eqn:Emi; [|done]. cbn [negb]. apply watch_perform; [done|]. intros d3.
  match goal with |- watch _ ?lg _ _ => set (log2 := lg) end.
  assert (verified_presentation b resp log2 l scope authScope credential) as Hv.
  { split; [exists d; split; [unfold log2; set_solver|done]|done|].
    exists tok. split; [eapply genuine_mono; [|done]; unfold log2; set_solver|].
    split_and!; [|done|exists d2; split; [unfold log2; set_solver|done]].
    exists d1, q, ts. split_and!; [unfold log2; set_solver|done..]. }
  destruct (vc_Presentation (fc_vci cfg) !! scope) as [pScope|] eqn:Ep; [case_bool_decide|].
  1: eapply watch_bind; [by eapply finalise_watched|].
  2,3: eapply watch_bind; [by apply datastore_documents_watched|].
  all: intros log3 [] Hs3 Hpub; exists scope, authScope, credential; split; [by eapply verified_mono|done].
Qed.
End request.
(** ** The endpoint *)

(** The session was found by the key the response was encrypted to, and is not
    one of the other channel. *)
Definition direct_grounds (response : string) (log : list event) (o : op) : Prop :=
  match o with
  | OAssign _ _ | OSetIdentifier _ _ | ODocumentSet _ _ =>
      ∃ kid key raw state resp l d d',
        ExtractKIDFromCompactJWT response = Some kid ∧ call (OKey kid) (Some key) ∈ log ∧
        jwe_open response key = Some (raw, state) ∧ UnmarshalVPResponse raw state = Ok resp ∧
        call (OGet (by_encryption_key kid)) (Ok l) ∈ log ∧ call (OLoad l) d ∈ log ∧
        InteractiveAuthorization (other d) = false ∧ AuthSessionDPoPThumbprint d = "" ∧
        call (OLoad l) d' ∈ log ∧ grounds (direct_post_binding cfg (ClientID (other d')) key) resp l log o
  | _ => True
  end.

Lemma watch_weaken {A} (Φ Φ' : list event → op → Prop) (p : prog A) Q : ∀ log,
  (∀ log' o, log ⊆ log' → Φ log' o → Φ' log' o) → watch Φ log p Q → watch Φ' log p Q.
Proof.
  induction p as [a|o k IH]; intros log Hw; cbn; [done|]. intros [Ho Hk]. split; [by apply Hw|]. intros r. apply IH; [|done].
  intros log' o' Hs. apply Hw. set_solver.
Qed.

Lemma VerificationDirectPost_watched response log :
  watch (direct_grounds response) log (VerificationDirectPost cfg fuel trust mdoc_verifier of_dvalue entropy response) (ok_then (fun _ _ => True)).
Proof.
  unfold VerificationDirectPost. destruct (ExtractKIDFromCompactJWT response) as [kid|] eqn:Ek; [|done].
  apply watch_perform; [done|]. intros [key|]; [|done]. destruct (jwe_open response key) as [[raw state]|] eqn:Ej; [|done].
  apply watch_lift. intros resp Hr%map_err_Ok. apply watch_perform; [done|]. intros [l|]; [|done].
  apply watch_perform; [done|]. intros d. destruct (_ || _) eqn:Ec; [done|]. apply orb_false_iff in Ec as [Ei Et].
  apply negb_false_iff, bool_decide_eq_true in Et. apply watch_perform; [done|]. intros d'. eapply watch_bind.
  { eapply watch_weaken; [|apply (consume_watched (direct_post_binding cfg (ClientID (other d')) key) resp l)]. intros log' o Hs Ho.
    destruct o; try done; exists kid, key, raw, state, resp, l, d, d'; split_and!; try done; apply Hs; set_solver. }
  intros log' outcome _ _. destruct (fc_CallbackURL cfg); [|done]. apply watch_perform; [done|]. intros d1.
  destruct (o_PresentationSourced outcome); [|done]. by apply watch_perform.
Qed.

(** C11: In every interleaving, whatever the endpoint of the browser puts where the issuance finds it - the claims of the
    session, the person it is for, or the documents of its cache - it puts there for the session the response was
    encrypted to, after verifying a presentation for it: vouched for by a trusted issuer and signed by its holder for
    this session, in answer to a query of the session, of the type that was asked for and in line with the rule it was
    prepared with; the claims are exactly those the scope requires, the document that is previewed is made of them, of
    what the scope derives from them and of its defaults, the person is the one the claims identify, and the documents
    of the datastore are those of that person with the configured claims taken from the presentation.  (A comment of the
    endpoint says it does not verify holder binding; the validator it calls does.) *)
Theorem published_on_grounds nested_valid P w w' responses ts i response log p n o r :
  pool_run nested_valid P
    (w, (fun response => mkThread (VerificationDirectPost cfg fuel trust mdoc_verifier of_dvalue entropy response) []) <$> responses) (w', ts) →
  responses !! i = Some response → ts !! i = Some (mkThread p log) → log !! n = Some (call o r) →
  direct_grounds response (take n log) o.
Proof.
  intros Hr Hi Ht Hn.
  assert (thread_ok (direct_grounds response) (ok_then (fun _ _ => True)) (mkThread p log)) as [_ Hok]; [|exact (Hok _ _ _ Hn)].
  refine (watched_run (direct_grounds response) nested_valid P (ok_then (fun _ _ => True)) i _ _ Hr _ _ Ht).
  intros th Hth. cbn [snd] in Hth. rewrite list_lookup_fmap, Hi in Hth. injection Hth as <-.
  split; [apply VerificationDirectPost_watched|]. intros m o' a Hm. done.
Qed.
End safety.
