(* ===== verification/CredentialSafety.v ===== *)
(** * What an issued credential rests on

    Before [VCICredential] calls the issuer it has seen a proof for the access
    token, found the session of the token, chosen one of its scopes, checked the
    proof of every key and spent the nonce ([issued_on_grounds]); and of all
    requests that carry one nonce in their proofs, one is answered
    ([proof_accepted_once]).  Both hold in every interleaving. *)

From stdpp Require Import relations.
From S2P Require Import Prelude GoStrings GoValue Base64 Utf8 Json Jwt SdJwt SdJwtVerify TokenStatusListCWT Cose ClaimPaths Derivations AuxiliaryData OAuth2 AuthContext AuthStore AuthStoreSteps GenericCache IssuerClient Handlers HandlersSafety KeyProofs PresentationDoc CredentialRequest CredentialEndpoint.

Section safety.
Context `{JSON} `{Arch} `{Hashes} `{Sig : Signatures} `{!SdEnv} `{StructJSON} `{ProofParser} `{NetURL} `{CBOR}.
Context `{Text} `{Countries} `{LocalTime} `{Times} `{Keyed} `{DocJSON}.
Variable cfg : vci_config.
Variable nil_key : sig_key.

(** ** The grounds *)

(** The sender has the key of the proof, which was made for this token, this
    endpoint and this request alone; the token is bound to that key, or to none. *)
Definition entitled (req : CredentialRequest) (log : list event) (l : loc) : Prop :=
  ∃ now dpop d, let token := TrimPrefix "DPoP " (cq_Authorization req) in
    ValidateAndParseDPoPJWT now (cq_DPoP req) = Ok dpop ∧ call ONow now ∈ log ∧
    HTU dpop = vc_CredentialEndpoint cfg ∧ HTM dpop = "POST" ∧ IsAccessTokenDPoP dpop token = true ∧
    call (OJTI (JTI dpop) 0) true ∈ log ∧ call (OGetWithAccessToken token) (Ok l) ∈ log ∧ call (OLoad l) d ∈ log ∧
    match AuthContext.Token d with Some t => tok_DPoPThumbprint t = "" ∨ tok_DPoPThumbprint t = Thumbprint dpop | None => True end.

Definition authorized_scope (log : list event) (l : loc) (scope : string) : Prop :=
  (∃ d, call (OLoad l) d ∈ log ∧ scope ∈ Scopes (other d)) ∧ is_Some (GetCredentialMetadata cfg scope).

(** The JWT proofs of a request. *)
Definition jwt_proofs (req : CredentialRequest) : list string :=
  match cq_Proof req, cq_Proofs req with
  | Some p, _ => if bool_decide (ProofType p = "jwt") then [JWT p] else []
  | None, Some ps => ps_JWT ps
  | None, None => []
  end.

Abbreviation opts nonce := (mkOptions nonce (vc_CredentialIssuer cfg) []).

(** A proof of possession with the nonce: by the key itself, by a presentation
    that names it, or by an attestation that lists it. *)
Inductive key_shown (req : CredentialRequest) (nonce : string) (jwk : Jwk) : Prop :=
| shown_jwt p key now now' :
    p ∈ jwt_proofs req → ExtractJWK_jwt p = Some jwk → jwkProtoToPublicKey jwk = Some key →
    Verify_jwt now now' p key (opts nonce) = Ok tt → key_shown req nonce jwk
| shown_divp ps vp :
    cq_Proofs req = Some ps → vp ∈ ps_DIVP ps → ExtractJWK_divp vp = Some jwk →
    Verify_divp vp (opts nonce) = Ok tt → key_shown req nonce jwk
| shown_att ps a keys now' :
    cq_Proofs req = Some ps → a ∈ ps_Attestation ps → ExtractAllJWKs_att a (batch_limit cfg) = Some keys → jwk ∈ keys →
    Verify_att now' a (opts nonce) = Ok tt → key_shown req nonce jwk.

(** What a call of the issuer binds the credential to. *)
Definition bound_to_holder (req : CredentialRequest) (nonce : string) (c : issuer_call) : Prop :=
  match c with
  | MakeSDJWT _ _ jwk _ _ => key_shown req nonce jwk
  | MakeMDoc _ _ deviceKey _ => ∃ jwk b, key_shown req nonce jwk ∧ convertJWKToCOSEKey jwk = Some b ∧ deviceKey = bytes_str b
  | MakeVC20 _ _ _ did _ _ =>
      ∃ p key now now', p ∈ jwt_proofs req ∧ Verify_jwt now now' p key (opts nonce) = Ok tt ∧ did = ExtractSubjectDID_jwt p
  | MakeJWP _ _ commitment pointers _ _ _ =>
      DecodeCommitment (BBSCommitment req) = Some commitment ∧ pointers = BBSCommittedClaims req ∧
      ∃ jwk, key_shown req nonce jwk
  end.

Definition call_scope (c : issuer_call) : string :=
  match c with
  | MakeSDJWT scope _ _ _ _ | MakeMDoc scope _ _ _ | MakeVC20 scope _ _ _ _ _ | MakeJWP scope _ _ _ _ _ _ => scope
  end.

Definition grounds (req : CredentialRequest) (log : list event) (c : issuer_call) : Prop :=
  ∃ l nonce, entitled req log l ∧ authorized_scope log l (call_scope c) ∧
    call (ONonceTake nonce) true ∈ log ∧ nonce ≠ "" ∧ bound_to_holder req nonce c.

Definition on_grounds (req : CredentialRequest) (log : list event) (o : op) : Prop :=
  match o with OIssue c => grounds req log c | _ => True end.

Lemma entitled_mono req log log' l : log ⊆ log' → entitled req log l → entitled req log' l.
Proof. intros Hs (now & dpop & d & ?). exists now, dpop, d. cbn in *. naive_solver. Qed.
Lemma authorized_scope_mono log log' l s : log ⊆ log' → authorized_scope log l s → authorized_scope log' l s.
Proof. intros Hs [(d & Hd & Hin) Hm]. split; [|done]. exists d. auto. Qed.

(** ** The steps of the endpoint *)

Section request.
Variable req : CredentialRequest.
Variable entropy : nat → Entropy.
Abbreviation watched := (watch (on_grounds req)).

Lemma authenticate_watched log : watched log (authenticate cfg req) (ok_then (entitled req)).
Proof.
  unfold authenticate. apply watch_perform; [done|]. intros now.
  destruct (ValidateAndParseDPoPJWT now (cq_DPoP req)) as [dpop|] eqn:Ep; [|done].
  apply watch_perform; [done|]. intros [|]; cbn [negb]; [|done].
  destruct (bool_decide (HTU dpop = _)) eqn:Eu; cbn [negb]; [|done]. apply bool_decide_eq_true in Eu.
  destruct (bool_decide (HTM dpop = _)) eqn:Em; cbn [negb]; [|done]. apply bool_decide_eq_true in Em.
  cbv zeta. destruct (IsAccessTokenDPoP _ _) eqn:Ea; cbn [negb]; [|done].
  apply watch_perform; [done|]. intros [l|]; [|done].
  apply watch_perform; [done|]. intros d.
  apply (watch_bind _ _ _ _ (fun _ _ => match AuthContext.Token d with
    Some t => tok_DPoPThumbprint t = "" ∨ tok_DPoPThumbprint t = Thumbprint dpop | None => True end)).
  { unfold verifyDPoPKeyBinding. destruct (AuthContext.Token d) as [t|]; [|done].
    destruct (str_empty _) eqn:E1; [left; by apply bool_decide_eq_true in E1|]. cbn. case_bool_decide; [|done]. cbn. by right. }
  intros log' [] Hs Ht. apply watch_perform; [done|]. intros d'. apply watch_lift. intros [] _. cbn.
  exists now, dpop, d. cbn. split_and!; try done; apply elem_of_app; left; apply Hs; set_solver.
Qed.

Lemma matchScope_Some scopes s : matchScope cfg scopes = Some s → s ∈ scopes ∧ is_Some (GetCredentialMetadata cfg s).
Proof.
  induction scopes as [|t scopes IH]; cbn; [done|]. destruct (GetCredentialMetadata cfg t) eqn:Et.
  - intros [= <-]. split; [by left|by eexists].
  - intros [Hin Hm]%IH. split; [by right|done].
Qed.

Lemma choose_scope_Ok first format id scopes s id' f :
  choose_scope cfg first format id scopes = Ok (s, id', f) → is_Some (GetCredentialMetadata cfg first) →
  (s = first ∨ s ∈ scopes) ∧ is_Some (GetCredentialMetadata cfg s).
Proof.
  unfold choose_scope. destruct (str_empty id).
  - destruct (base.filter _ scopes) as [|t [|]] eqn:Ef; [done| |done]. intros [= -> <- <-] _.
    assert (s ∈ base.filter (fun t => of_format cfg format t = true) scopes) as Hs by (rewrite Ef; by left).
    apply list_elem_of_filter in Hs as [Hf Hin]. split; [by right|]. unfold of_format in Hf.
    destruct (GetCredentialMetadata cfg s); [by eexists|done].
  - case_bool_decide as Eid; [intros [= <- <- <-] Hm; split; [by left|done]|].
    destruct (bool_decide _) eqn:Hin; cbn; [|done]. apply bool_decide_eq_true in Hin.
    destruct (GetCredentialMetadata cfg id) eqn:Em; [|done]. intros [= <- <- <-] _. split; [by right|]. rewrite Em. by eexists.
Qed.

Lemma selectScope_watched log l :
  watched log (selectScope cfg req l) (ok_then (fun log' sel => authorized_scope log' l sel.1.1)).
Proof.
  unfold selectScope. apply watch_perform; [done|]. intros d.
  destruct (matchScope cfg _) as [first|] eqn:Em; [|done]. apply matchScope_Some in Em as [Hin Hm].
  apply watch_perform; [done|]. intros d1. apply watch_lift. intros format _.
  apply watch_perform; [done|]. intros d2. apply watch_lift. intros id _.
  apply watch_perform; [done|]. intros d3. unfold vci, lift. destruct (choose_scope _ _ _ _ _) as [[[s id'] f]|] eqn:Ec; [|done].
  destruct (choose_scope_Ok _ _ _ _ _ _ _ Ec Hm) as [Hs Hms]. split; [|done].
  destruct Hs as [->|Hs]; [exists d|exists d3]; (split; [set_solver|done]).
Qed.

(** The parts that neither call the issuer nor bring nonces. *)
Definition plain_call (o : op) : bool := match o with OIssue _ | ONonceSet _ => false | _ => true end.
Abbreviation inert_part := (only plain_call).
Lemma inert_returns {E A} log (p : handler E A) R : inert_part p → returns p R → watched log p (ok_then (fun _ => R)).
Proof.
  revert log. induction p as [[a|e]|o k IH]; intros log; cbn; [done..|]. intros [Ho Hk] Hr. split; [by destruct o|]. auto.
Qed.
Ltac inert := repeat first [done | apply only_bind; [|intros ?] | case_match].

Lemma credential_document_inert scope l : inert_part (credential_document cfg entropy scope l).
Proof. unfold credential_document, cached_document. inert. Qed.
Lemma expected_nonce_inert l : inert_part (expected_nonce req l).
Proof. unfold expected_nonce, known_nonce. inert. Qed.

Lemma expected_nonce_returns l : returns (expected_nonce req l) (fun n => n ≠ "").
Proof.
  unfold expected_nonce. apply (returns_bind _ _ (fun b : bool => b = true → proof_nonce req ≠ "")).
  { unfold known_nonce. destruct (str_empty _) eqn:E1; [done|]. apply bool_decide_eq_false in E1. cbn. auto. }
  intros [|] Hn; [by apply Hn|]. cbn. intros d. destruct (str_empty _); [done|]. cbn. intros d1 ok. destruct ok; [|done].
  cbn. intros d2. destruct (str_empty _) eqn:E3; [done|]. by apply bool_decide_eq_false in E3.
Qed.

(** *** Proofs *)

Definition verified (nonce proof : string) (jwk : Jwk) : Prop :=
  ∃ key now now', jwkProtoToPublicKey jwk = Some key ∧ Verify_jwt now now' proof key (opts nonce) = Ok tt.

Lemma verify_jwt_returns nonce p jwk : returns (verify_jwt_proof (opts nonce) p jwk) (fun _ => verified nonce p jwk).
Proof.
  unfold verify_jwt_proof, proofJWKToPublicKey. destruct (jwkProtoToPublicKey jwk) as [key|] eqn:Ek; [|done]. cbn. intros now now'.
  destruct (Verify_jwt now now' p key _) as [[]|] eqn:Ev; [|done]. by exists key, now, now'.
Qed.
Lemma verify_each_returns nonce pairs :
  returns (verify_each (opts nonce) pairs) (fun _ => Forall (fun pj => verified nonce pj.1 pj.2) pairs).
Proof.
  induction pairs as [|[p jwk] pairs IH]; cbn [verify_each]; [by constructor|].
  eapply returns_bind; [apply verify_jwt_returns|]. intros [] Hv.
  eapply returns_mono; [exact IH|]. intros [] Hvs. by constructor.
Qed.

Lemma check_all_Ok {A} (f : A → result vci_error unit) l a : check_all f l = Ok tt → a ∈ l → f a = Ok tt.
Proof.
  induction l as [|b l IH]; cbn; [intros _ Ha; by apply elem_of_nil in Ha|]. intros ([] & Hb & Hl)%bind_Ok.
  rewrite elem_of_cons. intros [->|Ha]; [done|]. by apply IH.
Qed.

(** What the verification of a request's proofs shows of its keys. *)
Definition all_shown (nonce : string) (jwks : list Jwk) : Prop :=
  jwks ≠ [] ∧ Forall (key_shown req nonce) jwks ∧
  ∀ p, p ∈ jwt_proofs req → ∃ jwk key now now', ExtractJWK_jwt p = Some jwk ∧ Verify_jwt now now' p key (opts nonce) = Ok tt.

Lemma jwts_shown nonce ps jwks :
  jwt_proofs req = ps → mapM ExtractJWK_jwt ps = Some jwks → ps ≠ [] →
  Forall (fun pj => verified nonce pj.1 pj.2) (zip ps jwks) → all_shown nonce jwks.
Proof.
  intros Ep Hm Hne Hz. apply mapM_Some in Hm. rewrite Forall_forall in Hz.
  assert (∀ i p jwk, ps !! i = Some p → jwks !! i = Some jwk → verified nonce p jwk) as Hv.
  { intros i p jwk Hp Hj. apply (Hz (p, jwk)). apply (list_elem_of_lookup_2 _ i).
    apply lookup_zip_Some. by split. }
  split_and!.
  - intros E. rewrite E in Hm. by apply Forall2_nil_inv_r in Hm.
  - apply Forall_forall. intros jwk [i Hj]%list_elem_of_lookup. destruct (Forall2_lookup_r _ _ _ _ _ Hm Hj) as (p & Hp & He).
    destruct (Hv i p jwk Hp Hj) as (key & now & now' & Hk & Hver). eapply shown_jwt; [|done..].
    rewrite Ep. by eapply list_elem_of_lookup_2.
  - rewrite Ep. intros p [i Hp]%list_elem_of_lookup. destruct (Forall2_lookup_l _ _ _ _ _ Hm Hp) as (jwk & Hj & He).
    destruct (Hv i p jwk Hp Hj) as (key & now & now' & _ & Hver). by exists jwk, key, now, now'.
Qed.

Lemma VerifyProof_other now ps nonce :
  ps_JWT ps = [] → VerifyProofWithOptions now now (Some ps) nil_key (opts nonce) = Ok tt →
  (∀ vp, vp ∈ ps_DIVP ps → Verify_divp vp (opts nonce) = Ok tt) ∧
  (ps_DIVP ps = [] → ∀ a, a ∈ ps_Attestation ps → Verify_att now a (opts nonce) = Ok tt).
Proof.
  intros Ej. unfold VerifyProofWithOptions. destruct (negb _); [done|]. rewrite Ej. cbn.
  destruct (ps_DIVP ps) as [|vp vps] eqn:Ed.
  - intros Ha. split; [intros vp Hvp; by apply elem_of_nil in Hvp|]. intros _ a Hin. exact (check_all_Ok _ _ a Ha Hin).
  - intros Hv. split; [|done]. intros v Hin. exact (check_all_Ok _ _ v Hv Hin).
Qed.

Lemma or_proof_Ok {A} (o : option A) a : or_proof o = Ok a → o = Some a.
Proof. destruct o; [by intros [= ->]|done]. Qed.

Lemma verify_proofs_returns nonce jwks :
  request_keys cfg req = Ok jwks → returns (verify_proofs nil_key req jwks (opts nonce)) (fun _ => all_shown nonce jwks).
Proof.
  unfold request_keys, verify_proofs. destruct (cq_Proof req) as [p|] eqn:Ep; [|destruct (cq_Proofs req) as [ps|] eqn:Eps; [|done]].
  - intros (k & Hk%or_proof_Ok & [= <-])%bind_Ok. unfold ExtractJWK_proof in Hk. case_bool_decide as Et; [|done].
    destruct (str_empty (JWT p)); [done|]. eapply returns_mono; [apply verify_jwt_returns|]. intros [] Hv.
    apply (jwts_shown nonce [JWT p]); [|cbn; by rewrite Hk|done|by repeat constructor].
    unfold jwt_proofs. rewrite Ep. by rewrite bool_decide_eq_true_2.
  - intros Hk%or_proof_Ok. unfold ExtractAllJWKs in Hk. destruct (bool_decide _); [done|]. unfold proofs_type.
    destruct (ps_JWT ps) as [|j js] eqn:Ej; cbn [is_nonempty].
    + case_bool_decide as Et; [repeat case_match; done|]. apply returns_perform. intros now.
      apply returns_lift. intros [] Ev.
      destruct (VerifyProofWithOptions _ _ _ _ _) as [[]|] eqn:Ev' in Ev; [clear Ev; rename Ev' into Ev|done].
      destruct (VerifyProof_other _ _ _ Ej Ev) as [Hd Ha].
      assert (jwt_proofs req = []) as Enone by (unfold jwt_proofs; by rewrite Ep, Eps).
      destruct (ps_DIVP ps) as [|vp vps] eqn:Ed.
      * destruct (ps_Attestation ps) as [|a as_] eqn:Ea; [done|]. split_and!.
        -- intros ->. unfold ExtractAllJWKs_att in Hk. repeat case_match; try done. apply mapM_Some, Forall2_nil_inv_r in Hk. done.
        -- apply Forall_forall. intros jwk Hin. eapply (shown_att _ _ _ ps a); [done|rewrite Ea; by left|done..|].
           apply Ha; [done|by left].
        -- rewrite Enone. intros p Hp. by apply elem_of_nil in Hp.
      * destruct (bool_decide _); [done|]. apply mapM_Some in Hk. split_and!.
        -- intros ->. by apply Forall2_nil_inv_r in Hk.
        -- apply Forall_forall. intros jwk [i Hi]%list_elem_of_lookup. destruct (Forall2_lookup_r _ _ _ _ _ Hk Hi) as (v & Hv & He).
           apply list_elem_of_lookup_2 in Hv. eapply (shown_divp _ _ _ ps v); [done|by rewrite Ed|done|]. by apply Hd.
        -- rewrite Enone. intros p Hp. by apply elem_of_nil in Hp.
    + destruct (bool_decide _) in Hk; [done|].
      rewrite bool_decide_eq_true_2 by done. destruct (negb _); [done|].
      eapply returns_mono; [apply verify_each_returns|]. intros [] Hv. apply (jwts_shown nonce (j :: js)); [|done..].
      unfold jwt_proofs. by rewrite Ep, Eps.
Qed.

Lemma verify_jwt_inert o p jwk : inert_part (verify_jwt_proof o p jwk).
Proof. unfold verify_jwt_proof, proofJWKToPublicKey. inert. Qed.
Lemma verify_each_inert o pairs : inert_part (verify_each o pairs).
Proof. induction pairs as [|[p jwk] pairs IH]; cbn [verify_each]; [done|]. apply only_bind; [apply verify_jwt_inert|done]. Qed.
Lemma verify_proofs_inert jwks o : inert_part (verify_proofs nil_key req jwks o).
Proof. unfold verify_proofs. repeat first [done | apply verify_jwt_inert | apply verify_each_inert | case_match]. Qed.

(** *** Calls of the issuer *)

Lemma call_issuer_watched {A} (make : A → result cerror issuer_call) items : ∀ log,
  (∀ a c log', a ∈ items → make a = Ok c → log ⊆ log' → grounds req log' c) →
  watched log (call_issuer make items) (ok_then (fun _ _ => True)).
Proof.
  induction items as [|a items IH]; intros log Hg; [done|]. cbn [call_issuer]. apply watch_lift. intros c Hc.
  apply watch_perform; [apply (Hg a c); [by left|done|done]|]. intros [[reply|]|]; [|done..].
  eapply watch_bind; [apply IH|done]. intros a' c' log' Ha Hm Hs. apply (Hg a' c'); [by right|done|]. set_solver.
Qed.

Lemma saveCredentialSubjects_inert identifier replies : inert_part (saveCredentialSubjects identifier replies).
Proof. induction replies as [|r replies IH]; cbn [saveCredentialSubjects]; inert. Qed.
Lemma single_credentials_inert replies : inert_part (single_credentials replies).
Proof. induction replies as [|r replies IH]; cbn [single_credentials]; unfold single_credential; inert. Qed.

Ltac calm := repeat first
  [ done | apply saveCredentialSubjects_inert | apply single_credentials_inert | apply only_bind; [|intros ?] | case_match ].

Lemma inert_watched {A} log (p : C A) : inert_part p → watched log p (ok_then (fun _ _ => True)).
Proof. intros Hp. eapply (inert_returns _ _ (fun _ => True)); [done|apply returns_any]. Qed.

(** Calling the issuer and then not again. *)
Lemma call_then_watched {A B} (make : A → result cerror issuer_call) items (f : list issuer_reply → C B) log :
  (∀ a c log', a ∈ items → make a = Ok c → log ⊆ log' → grounds req log' c) → (∀ rs, inert_part (f rs)) →
  watched log (call_issuer make items ≫= f) (ok_then (fun _ _ => True)).
Proof.
  intros Hg Hf. eapply watch_bind; [by apply call_issuer_watched|]. intros log' rs _ _. by apply inert_watched.
Qed.

Section issuing.
Variables (l : loc) (scope nonce : string) (jwks : list Jwk) (log : list event).
Hypothesis Hentitled : entitled req log l.
Hypothesis Hscope : authorized_scope log l scope.
Hypothesis Htaken : call (ONonceTake nonce) true ∈ log.
Hypothesis Hnonce : nonce ≠ "".
Hypothesis Hshown : all_shown nonce jwks.

Lemma have_grounds log' c : log ⊆ log' → call_scope c = scope → bound_to_holder req nonce c → grounds req log' c.
Proof using All.
  intros Hs Hc Hb. exists l, nonce. split_and!; [by eapply entitled_mono|rewrite Hc; by eapply authorized_scope_mono|by apply Hs|done|done].
Qed.

Lemma shown_in jwk : jwk ∈ jwks → key_shown req nonce jwk.
Proof using Hshown. destruct Hshown as (_ & Hf & _). rewrite Forall_forall in Hf. auto. Qed.

Lemma issueVC20_watched doc identifier id :
  watched log (issueVC20 cfg scope doc identifier id req) (ok_then (fun _ _ => True)).
Proof using All.
  unfold issueVC20, no_jwt_proof. destruct (_ || _) eqn:Ej; [done|]. destruct (w3cTypesAndContexts _ _ _) as [[types ctxs] suite].
  apply call_then_watched.
  - intros did c log' Hin [= <-] Hs. apply have_grounds; [done..|]. cbn.
    assert (∃ p, p ∈ jwt_proofs req ∧ did = ExtractSubjectDID_jwt p) as (p & Hp & ->).
    { unfold subject_dids in Hin. unfold jwt_proofs. apply orb_false_iff in Ej as [Ej _].
      destruct (cq_Proof req) as [p|]; [|destruct (cq_Proofs req) as [ps|]; [|by apply elem_of_nil in Hin]].
      - apply list_elem_of_singleton in Hin as ->. apply negb_false_iff in Ej. exists (JWT p). rewrite Ej. split; [by left|].
        unfold ExtractSubjectDID_proof. rewrite Ej. destruct (str_empty (JWT p)) eqn:Ee; [|done].
        unfold ExtractSubjectDID_jwt. by rewrite Ee.
      - apply list_elem_of_fmap in Hin as (p & -> & Hp). by exists p. }
    destruct Hshown as (_ & _ & Hv). destruct (Hv p Hp) as (jwk & key & now & now' & _ & Hver). by exists p, key, now, now'.
  - intros rs. calm.
Qed.

Lemma issueBBS_watched doc identifier :
  watched log (issueBBS cfg scope doc identifier req) (ok_then (fun _ _ => True)).
Proof using All.
  unfold issueBBS. destruct (GetCredentialMetadata cfg scope) as [meta|]; [|done]. destruct (str_empty _); [done|].
  destruct (DecodeCommitment _) as [commitment|] eqn:Ec; [|done]. cbv zeta. destruct (str_empty _); [done|].
  destruct (ParseSuite _) as [suite|]; [|done]. apply watch_perform.
  - apply have_grounds; [done..|]. split_and!; [done|done|]. destruct Hshown as (Hne & Hf & _).
    destruct jwks as [|jwk ks]; [done|]. exists jwk. by inversion Hf.
  - intros [[reply|]|]; [|done..]. apply inert_watched. unfold single_credential. calm.
Qed.

Lemma issue_watched format doc identifier id :
  watched log (issue cfg format scope doc jwks identifier id req) (ok_then (fun _ _ => True)).
Proof using All.
  unfold issue. case_bool_decide; [|destruct (_ || _); [|destruct (_ || _); [apply issueVC20_watched|case_bool_decide; [apply issueBBS_watched|done]]]].
  - unfold issueMDoc. destruct (GetCredentialMetadata cfg scope) as [meta|]; [|done]. apply call_then_watched.
    + intros jwk c log' Hin Hc Hs. unfold mdoc_call in Hc. destruct (convertJWKToCOSEKey jwk) as [b|] eqn:Eb; [|done].
      injection Hc as <-. apply have_grounds; [done..|]. exists jwk, b. split; [by apply shown_in|done].
    + intros rs. calm.
  - unfold issueSDJWT. destruct (GetCredentialMetadata cfg scope) as [meta|]; [|done]. apply call_then_watched.
    + intros jwk c log' Hin [= <-] Hs. apply have_grounds; [done..|]. by apply shown_in.
    + intros rs. calm.
Qed.
End issuing.

Lemma VCICredential_watched : watched [] (VCICredential cfg entropy nil_key req) (ok_then (fun _ _ => True)).
Proof.
  unfold VCICredential. eapply watch_bind; [apply authenticate_watched|]. intros log1 l _ Hl.
  eapply watch_bind; [apply selectScope_watched|]. intros log2 [[scope id] format] S2 Hscope. cbn in Hscope.
  eapply watch_bind; [apply inert_watched, credential_document_inert|]. intros log3 [doc src] S3 _.
  destruct (marshal_doc doc) as [data|]; [|done]. apply watch_lift. intros jwks Hk.
  destruct (request_keys cfg req) as [ks|] eqn:Ek; [|done]. injection Hk as ->.
  eapply watch_bind; [apply inert_watched; unfold requireAdvertisedProofType; inert|]. intros log4 [] S4 _.
  eapply watch_bind; [apply inert_returns; [apply expected_nonce_inert|apply expected_nonce_returns]|].
  intros log5 nonce S5 Hn. cbn in Hn.
  eapply watch_bind; [apply inert_returns; [apply verify_proofs_inert|by apply (verify_proofs_returns nonce jwks)]|].
  intros log6 [] S6 Hshown. apply watch_perform; [done|]. intros [|]; [|done]. cbn [negb].
  apply watch_perform; [done|]. intros d.
  eapply watch_bind; [apply inert_watched; unfold requireIdentifier; inert|]. intros log7 identifier S7 _.
  apply watch_lift. intros fromWallet _. apply watch_perform; [done|]. intros d'. apply watch_lift. intros [data' toWallet] _.
  destruct (_ && _); [done|].
  assert (log1 ⊆ log6) as S16 by (etrans; [exact S2|]; etrans; [exact S3|]; etrans; [exact S4|]; etrans; [exact S5|exact S6]).
  assert (log2 ⊆ log6) as S26 by (etrans; [exact S3|]; etrans; [exact S4|]; etrans; [exact S5|exact S6]).
  eapply watch_bind; [apply (issue_watched l _ nonce)|].
  - eapply entitled_mono; [|exact Hl]. set_solver.
  - eapply authorized_scope_mono; [|exact Hscope]. set_solver.
  - apply elem_of_app. left. apply S7, elem_of_app. left. apply elem_of_app. right. by left.
  - done.
  - done.
  - intros log8 creds _ _. destruct (negb _); done.
Qed.
End request.

Abbreviation requests := (list (CredentialRequest * (nat → Entropy))).
Definition handlers (reqs : requests) : list (C CredentialResponse) := (fun qe => VCICredential cfg (snd qe) nil_key (fst qe)) <$> reqs.
Definition issued (ts : list (thread (result cerror CredentialResponse))) (i : nat) (a : CredentialResponse) : Prop :=
  ∃ log, ts !! i = Some (mkThread (Ret (Ok a)) log).

(** C8: the gateway asks the issuer for a credential only when, before it in the
    same request and in whatever interleaving: a proof made by the holder of the
    DPoP key for this access token, this endpoint and this request was burned;
    the session of the token was found, and the token is bound to that key or to
    none; the scope is one of the session's and is configured; a nonce was taken
    out of the issuer's store; and the key, device key, subject or commitment
    that the credential is bound to comes with a verified proof over that nonce. *)
Theorem issued_on_grounds nested_valid P w w' reqs ts i req entropy log p n c r :
  pool_run nested_valid P (w, (fun p => mkThread p []) <$> handlers reqs) (w', ts) →
  reqs !! i = Some (req, entropy) → ts !! i = Some (mkThread p log) → log !! n = Some (call (OIssue c) r) →
  grounds req (take n log) c.
Proof.
  intros Hr Hi Ht Hn.
  assert (thread_ok (on_grounds req) (ok_then (fun _ _ => True)) (mkThread p log)) as [_ Hok]; [|exact (Hok _ _ _ Hn)].
  refine (watched_run (on_grounds req) nested_valid P (ok_then (fun _ _ => True)) i _ _ Hr _ _ Ht).
  intros th Hth. cbn [snd] in Hth. unfold handlers in Hth. rewrite !list_lookup_fmap, Hi in Hth. injection Hth as <-. split; [apply VCICredential_watched|].
  intros m o a Hm. done.
Qed.

(** ** A nonce is spent once *)

Section nonce.
Variable n : string.

Definition takes (o : op) : answer o → bool :=
  match o return answer o → bool with
  | ONonceTake m => fun taken => bool_decide (m = n) && taken
  | _ => fun _ => false
  end.

Definition no_set (o : op) : bool := match o with ONonceSet m => negb (bool_decide (m = n)) | _ => true end.

(** Nobody stores the nonce again. *)
Definition stores (a : MemoryCache.action bool) : bool :=
  match a with
  | MemoryCache.CSet k _ | MemoryCache.CSetWithTTL k _ _ | MemoryCache.CSetNX k _ | MemoryCache.CSetNXWithTTL k _ _ => bool_decide (k = n)
  | _ => false
  end.
Definition not_renewed (_ : world) (e : env_action) : Prop := match e with ENonce a => stores a = false | _ => True end.

Lemma exec_absent now a m : stores a = false → m !! n = None → MemoryCache.exec VCINonce_TTL now a m !! n = None.
Proof.
  intros Ha Hm.
  assert (∀ k e, MemoryCache.lookup_live now k m = Some e → k ≠ n) as Hne.
  { intros k e He ->. unfold MemoryCache.lookup_live in He. by rewrite Hm in He. }
  destruct a as [k|k v|k v t|k v|k v t|k|k|k]; cbn in *; try apply bool_decide_eq_false in Ha.
  - unfold MemoryCache.Get. destruct (MemoryCache.lookup_live now k m) eqn:E; [|done]. cbn. rewrite lookup_insert_ne; eauto.
  - unfold MemoryCache.Set_, MemoryCache.set. by rewrite lookup_insert_ne.
  - unfold MemoryCache.SetWithTTL, MemoryCache.set. by rewrite lookup_insert_ne.
  - unfold MemoryCache.SetNX, MemoryCache.GetOrSet, MemoryCache.set. destruct (MemoryCache.lookup_live now k m); cbn; by rewrite lookup_insert_ne.
  - unfold MemoryCache.SetNXWithTTL, MemoryCache.SetNX, MemoryCache.GetOrSet, MemoryCache.set.
    destruct (bool_decide (t ≤ 0)), (MemoryCache.lookup_live now k m); cbn; by rewrite lookup_insert_ne.
  - unfold MemoryCache.Delete. rewrite lookup_delete_None. by right.
  - unfold MemoryCache.GetAndDelete. destruct (MemoryCache.lookup_live now k m); [|done]. cbn. rewrite lookup_delete_None. by right.
  - unfold MemoryCache.expire. destruct (m !! k); [|done]. case_match; [done|]. rewrite lookup_delete_None. by right.
Qed.

Definition gone (b : bool) (w : world) : Prop := b = true → w_nonce w !! n = None.

Lemma gone_step nested_valid b now o w w' r :
  gone b w → no_set o = true → run_op nested_valid now o w = (w', r) →
  gone (b || takes o r) w' ∧ (takes o r = true → b = false).
Proof.
  intros Hg Ho Hr.
  assert (takes o r = false → w_nonce w' = w_nonce w → gone (b || takes o r) w' ∧ (takes o r = true → b = false)) as Hsame.
  { intros Et En. rewrite Et. split; [|done]. intros [Hb|?]%orb_true_iff; [|done]. rewrite En. by apply Hg. }
  destruct o; cbn [run_op] in Hr; try (apply Hsame; [done|]; unfold on_auth in Hr; repeat case_match; by simplify_eq).
  - injection Hr as <- <-. cbn in *. split; [|done]. rewrite orb_false_r. intros Hb.
    apply negb_true_iff, bool_decide_eq_false in Ho. cbn. unfold MemoryCache.Set_, MemoryCache.set. rewrite lookup_insert_ne by done. by apply Hg.
  - pose proof (exec_absent now (MemoryCache.CGet nonce) (w_nonce w) eq_refl) as He. cbn in He.
    destruct (MemoryCache.Get now nonce (w_nonce w)) as [m o]. injection Hr as <- <-. cbn. split; [|done].
    rewrite orb_false_r. intros Hb. apply He. by apply Hg.
  - unfold MemoryCache.GetAndDelete in Hr. destruct (MemoryCache.lookup_live now nonce (w_nonce w)) as [e|] eqn:El; injection Hr as <- <-; cbn.
    + case_bool_decide as Hn; cbn.
      * subst nonce. split; [intros _; cbn; apply lookup_delete_eq|]. intros _. destruct b; [|done].
        unfold MemoryCache.lookup_live in El. by rewrite Hg in El.
      * split; [|done]. rewrite orb_false_r. intros Hb. cbn. rewrite lookup_delete_None. right. by apply Hg.
    + rewrite andb_false_r. split; [|done]. rewrite orb_false_r. intros Hb. by apply Hg.
Qed.

Lemma gone_env nested_valid b now e w : gone b w → not_renewed w e → gone b (exec_env nested_valid now e w).
Proof. intros Hg He Hb. specialize (Hg Hb). destruct e; cbn in *; try done. by apply exec_absent. Qed.
(** Nothing needs to be known of documents here. *)
Definition nothing_known : Empty_set → AuthorizationContext → Prop := fun _ _ => True.
Definition learns_nothing (_ : list (loc * Empty_set)) (o : op) (_ : answer o) : list (loc * Empty_set) := [].
Abbreviation must := (must_call nothing_known learns_nothing takes).

Lemma must_bind_returns {E A B} (m : handler E A) (f : A → handler E B) (R : A → Prop) Γ :
  returns m R → (∀ Γ' a, R a → must Γ' (f a)) → must Γ (m ≫= f).
Proof.
  unfold mbind, handler_bind. revert Γ. induction m as [[a|e]|o k IH]; intros Γ; cbn; [auto|done|].
  intros Hr Hf r _. right. by apply IH.
Qed.

(** A request with the nonce in one of its JWT proofs. *)
Definition carries_nonce (req : CredentialRequest) : bool :=
  existsb (fun p => bool_decide (ExtractNonce_jwt p = n)) (jwt_proofs req).

Lemma VCICredential_takes req entropy Γ : carries_nonce req = true → must Γ (VCICredential cfg entropy nil_key req).
Proof.
  intros Hc. unfold VCICredential. eapply must_bind_returns; [apply returns_any|]. intros Γ1 l _.
  eapply must_bind_returns; [apply returns_any|]. intros Γ2 [[scope id] format] _.
  eapply must_bind_returns; [apply returns_any|]. intros Γ3 [doc src] _. destruct (marshal_doc doc) as [data|]; [|done].
  unfold vci. eapply must_bind_returns; [apply returns_lift; intros jwks Hk; exact Hk|]. intros Γ4 jwks Hk.
  destruct (request_keys cfg req) as [ks|] eqn:Ek; [|done]. injection Hk as ->.
  eapply must_bind_returns; [apply returns_any|]. intros Γ5 [] _.
  eapply must_bind_returns; [apply expected_nonce_returns|]. intros Γ6 nonce Hn.
  eapply must_bind_returns; [by apply (verify_proofs_returns req nonce jwks)|]. intros Γ7 [] (_ & _ & Hv).
  apply existsb_exists in Hc as (p & Hp & He). apply list_elem_of_In in Hp. apply bool_decide_eq_true in He.
  destruct (Hv p Hp) as (jwk & key & now & now' & _ & Hver). apply verified_nonce in Hver; [|done]. cbn in Hver.
  assert (nonce = n) as -> by congruence. intros [|] _; [left; cbn; by rewrite bool_decide_eq_true_2|by right].
Qed.

Lemma plain_no_set o : plain_call o = true → no_set o = true.
Proof. by destruct o. Qed.
Lemma call_issuer_no_set {A} (make : A → result cerror issuer_call) items : only no_set (call_issuer make items).
Proof. induction items as [|a items IH]; cbn [call_issuer]; [done|]. apply only_bind; [done|]. intros c. split; [done|]. intros [[]|]; [|done..]. by apply only_bind. Qed.
Lemma issue_no_set format scope doc jwks identifier id req : only no_set (issue cfg format scope doc jwks identifier id req).
Proof.
  assert (∀ ident rs, only no_set (saveCredentialSubjects ident rs)) as Hsave
    by (intros; eapply only_mono; [apply plain_no_set|apply saveCredentialSubjects_inert]).
  assert (∀ rs, only no_set (single_credentials rs)) as Hsingle
    by (intros; eapply only_mono; [apply plain_no_set|apply single_credentials_inert]).
  unfold issue, issueMDoc, issueSDJWT, issueVC20, issueBBS, single_credential.
  repeat first [done | apply Hsave | apply Hsingle | apply call_issuer_no_set | apply only_bind; [|intros ?] | case_match].
Qed.

Lemma VCICredential_no_set req entropy : only no_set (VCICredential cfg entropy nil_key req).
Proof.
  assert (∀ A (p : prog A), only plain_call p → only no_set p) as Hp by (intros; by eapply only_mono; [apply plain_no_set|]).
  unfold VCICredential.
  repeat first
    [ done | apply issue_no_set | apply Hp, credential_document_inert | apply Hp, expected_nonce_inert | apply Hp, verify_proofs_inert
    | apply only_bind; [|intros ?]
    | unfold requireAdvertisedProofType, requireIdentifier, authenticate, selectScope, verifyDPoPKeyBinding; progress case_match
    | case_match ].
Qed.
Definition safe_call (_ : list (loc * Empty_set)) (o : op) : Prop := no_set o = true.

Lemma no_set_tame {A} Γ (p : prog A) (Q : list (loc * Empty_set) → A → Prop) :
  only no_set p → (∀ Γ' a, Q Γ' a) → tame nothing_known learns_nothing safe_call Γ p Q.
Proof.
  revert Γ. induction p as [a|o k IH]; intros Γ; cbn; [auto|]. intros [Ho Hk] HQ. split; [done|]. auto.
Qed.
End nonce.

(** C9: of any number of credential requests that carry one nonce in a JWT proof,
    interleaved with each other and with the rest of the system, at most one is
    answered with credentials, as long as that nonce is not handed out again: a
    proof of possession cannot be used twice, even by requests that run at the
    same time. *)
Theorem proof_accepted_once nested_valid n w w' reqs ts i j qi qj a b :
  pool_run nested_valid (not_renewed n) (w, (fun p => mkThread p []) <$> handlers reqs) (w', ts) →
  reqs !! i = Some qi → reqs !! j = Some qj →
  carries_nonce n (fst qi) = true → carries_nonce n (fst qj) = true →
  issued ts i a → issued ts j b → i = j ∧ a = b.
Proof.
  intros Hr Hi Hj Hci Hcj [li Hti] [lj Htj]. assert (i = j) as ->; [|split; [done|congruence]].
  refine (once nested_valid nothing_known learns_nothing (safe_call n) (takes n) (gone n) (not_renewed n) _ _
            w (handlers reqs) w' ts i j _ _ a b li lj _ _ Hr _ _ _ _ Hti Htj).
  - intros b' now o w1 Γ w2 r Hg HΓ Ho Hrun. destruct (gone_step n _ _ _ _ _ _ _ Hg Ho Hrun) as [Hg' Hb]. split_and!; [done|done| |constructor].
    intros Γ' _. apply Forall_forall. by intros [l []].
  - intros b' now e w1 Hg _ He. split; [by apply gone_env|]. intros Γ _. apply Forall_forall. by intros [l []].
  - done.
  - apply Forall_fmap, Forall_forall. intros q _. apply no_set_tame; [apply VCICredential_no_set|by intros Γ []].
  - unfold handlers. rewrite list_lookup_fmap, Hi. reflexivity.
  - unfold handlers. rewrite list_lookup_fmap, Hj. reflexivity.
  - by apply VCICredential_takes.
  - by apply VCICredential_takes.
Qed.
End safety.
