(* ===== verification/CredentialWitness.v ===== *)
(** * The credential endpoint at a concrete issuer

    The wallet of [TokenWitness] takes its credential with the token it was
    given.  Two requests with one key proof race; and a token that is used often
    enough works for longer than it was promised. *)

From stdpp Require Import relations.
From S2P Require Import Prelude GoStrings GoValue Base64 Utf8 Json Jwt SdJwt SdJwtVerify SdJwtIssue SdJwtWitness TokenStatusListCWT Cose MdocSchema ClaimPaths Derivations AuxiliaryData ClaimsWitness OAuth2 AuthContext AuthStore AuthStoreSteps GenericCache IssuerClient Handlers HandlersSafety TokenEndpoint TokenWitness KeyProofs PresentationDoc CredentialRequest CredentialEndpoint CredentialSafety.

#[local] Existing Instance toy_cbor.

(** ** Parameters *)

Definition read_int (m : jobject) (k : string) : Z :=
  match m !! k with Some (JFloat f) => default 0 (float_trunc f) | _ => 0 end.
Definition read_jwk (m : jobject) : Jwk :=
  mkJwk (str_field m "kid") (str_field m "crv") (str_field m "kty") (str_field m "x") (str_field m "y") (str_field m "n") (str_field m "e").
Definition read_proof_jwk (m : jobject) : ProofJWK :=
  mkProofJWK (str_field m "kty") (str_field m "crv") (str_field m "x") (str_field m "y") (str_field m "n") (str_field m "e")
    (str_field m "kid") "" "".

#[local] Instance toy_structs : StructJSON := {|
  unmarshal_ProofJWTHeader s :=
    m ← UnmarshalMap s;
    Some (mkProofJWTHeader (str_field m "alg") (str_field m "typ") (str_field m "kid")
            (match m !! "jwk" with Some (JObj k) => Some (read_proof_jwk k) | _ => None end) None);
  unmarshal_ProofJWTClaims s :=
    m ← UnmarshalMap s;
    Some (mkProofJWTClaims (str_field m "aud") (read_int m "iat") (str_field m "nonce") (str_field m "iss") None);
  unmarshal_AttHeader _ := None;
  unmarshal_AttClaims _ := None;
  unmarshal_Jwk s := read_jwk <$> UnmarshalMap s;
  unmarshal_items _ := None;
  unmarshal_type _ := None;
  unmarshal_members _ := None;
  unmarshal_AuxEntry _ := None
|}.
#[local] Instance no_times : Times := {| ParseDuration _ := None; parse_RFC3339 _ := None |}.

Definition credential_url := "https://issuer.example/credential".
(** A proof for the credential endpoint and the token, made at once. *)
#[local] Instance credential_proofs : ProofParser :=
  {| parse_proof now p := Some ("dpop+jwt", mkDPoP p "POST" credential_url (now / second) (b64 (hash_sum "sha-256" "r10")) (String.substring 0 2 p)) |}.

Definition pid_vctm : VCTM := mkVCTM "pid" [mkVctmClaim [Some "given_name"] "always" false].
Definition pid_cfg : vci_config :=
  mkVciConfig credential_url issuer_url None
    {[ "pid" := mkConfiguration "dc+sd-jwt" ["jwt"] None None "" ]}
    {[ "pid" := mkCredentialMetadata "dc+sd-jwt" (Some pid_vctm) "" "{vctm}" "sha256-x" None "" "" [] [] None ]}
    ∅ {[ "pid" := [] ]} ∅ ∅ false.

(** An issuer that answers, and a registry that stores. *)
Definition busy_peers : peers := mkPeers (fun _ _ => Some (Some (mkReply ["the credential"] "" 3 7))) (fun _ _ _ _ => true) (fun _ _ _ => Err NoIdentityFound) (fun _ _ _ => None).

(** The session after the token, its user known and its document cached. *)
Definition with_source (d : AuthorizationContext) : AuthorizationContext :=
  mkContext (SessionID d) (CreatedAt d) (ExpiresAt d) (WalletClientID d) (State d) (CodeChallenge d) (CodeChallengeMethod d)
    (AuthSession d) (IssuerState d) (AuthSessionDPoPThumbprint d) (Code d) (Forfeited d) (RedeemedBy d) (TXCodeAttempts d)
    (AuthContext.Token d) (AccessToken d) (RequestURI d) (WalletURI d) (Consent d) (AuthenticSource d) "person-1" "datastore" "datastore"
    (RemoteName d) (RefreshToken d) (EphemeralEncryptionKeyID d) (VerifierResponseCode d) (RequestObjectID d) (DCQLQuery d) (other d).
Definition w2 : world :=
  let w := fst (run_op all_valid (101 * second) (OAssign 1 with_source) w1) in
  mkWorld (w_auth w) (w_jti w) (w_nonce w)
    (MemoryCache.Set_ Document_TTL (101 * second) "u01" [("doc-1", Some (mkDocument (Some ClaimsWitness.person_doc) [] []))] ∅)
    (w_keys w) busy_peers.

(** ** A key proof *)

Definition pid_jwk : jobject := <["kty" := JStr "EC"]> {["kid" := JStr "holder"]}.
Definition proof_header : jobject :=
  <["alg" := JStr "ES256"]> (<["typ" := JStr "openid4vci-proof+jwt"]> {["jwk" := JObj pid_jwk]}).
Definition proof_claims (nonce : string) : jobject :=
  <["aud" := JStr issuer_url]> (<["iat" := JInt 100]> {["nonce" := JStr nonce]}).
Definition signed (header claims : jobject) (key : string) : string :=
  let text := b64 (default "" (Marshal (JObj header))) +:+ "." +:+ b64 (default "" (Marshal (JObj claims))) in
  text +:+ "." +:+ b64 (default "" (sig_sign "ES256" key text)).
Definition holder_proof (nonce : string) : string := signed proof_header (proof_claims nonce) "holder".

Definition ask (dpop : string) (proof : string) : CredentialRequest :=
  mkCredentialRequest dpop "DPoP r10" "" "pid" (Some (mkProofs [proof] [] [])) None "" [] false "" false.
Definition draws (_ : nat) : Entropy := fixed_draws.

Definition answered_once := exec all_valid (at_second 110) 0
  (VCICredential pid_cfg draws "" (ask "k1-proof-000010" (holder_proof "r00"))) w2.

Example credential_answered : answered_once.2 = Ok (mkCredentialResponse ["the credential"] None).
Proof. vm_compute. reflexivity. Qed.

Lemma key_proof_sound_witness :
  ∃ t, ParseUnverified (holder_proof "r00") = Ok t ∧ addressed (Claims t) issuer_url ∧ ExtractNonce_jwt (holder_proof "r00") = "r00".
Proof.
  destruct (key_proof_sound (Sig := named_keys) (110 * second) (110 * second) (holder_proof "r00") "holder" (mkOptions "r00" issuer_url []))
    as (t & Ht & _ & _ & _ & Ha & Hn & _); [vm_compute; reflexivity|].
  exists t. split; [exact Ht|]. split; [by apply Ha|by apply Hn].
Defined.

(** A proof by another key, for another issuer, or with a nonce that nobody handed out. *)
Definition outcome_of (proof : string) : result cerror CredentialResponse :=
  (exec all_valid (at_second 110) 0 (VCICredential pid_cfg draws "" (ask "k1-proof-000010" proof)) w2).2.
Example refused_proofs :
  outcome_of (signed proof_header (proof_claims "r00") "thief") = Err (CVci ErrInvalidProof) ∧
  outcome_of (signed proof_header (<["aud" := JStr "https://other.example"]> (proof_claims "r00")) "holder") =
    Err (CVci ErrInvalidCredentialRequest) ∧
  outcome_of (holder_proof "made up") = Err (CVci ErrInvalidNonce).
Proof. split_and!; vm_compute; reflexivity. Qed.

(** ** Two requests with one proof *)

Definition twins : list (CredentialRequest * (nat → Entropy)) :=
  [(ask "k1-proof-000010" (holder_proof "r00"), draws); (ask "k1-proof-000011" (holder_proof "r00"), draws)].
Fixpoint in_step (rounds : nat) : list (nat * Z) :=
  match rounds with O => [] | S m => (0%nat, 110 * second) :: (1%nat, 110 * second) :: in_step m end.
Definition proof_race := pool_schedule all_valid (in_step 40) (w2, (fun p => mkThread p []) <$> handlers pid_cfg "" twins).
Definition ended (th : thread (result cerror CredentialResponse)) : option (result cerror CredentialResponse) :=
  match t_prog th with Ret r => Some r | _ => None end.

(** Both pass the verification; one takes the nonce. *)
Lemma proof_accepted_once_witness :
  ∃ a, issued proof_race.2 0 a ∧ (ended <$> proof_race.2) !! 1%nat = Some (Some (Err (CVci ErrInvalidNonce))) ∧
    ∀ j b, (j < 2)%nat → issued proof_race.2 j b → 0%nat = j ∧ a = b.
Proof.
  eexists. split; [eexists; vm_compute; reflexivity|]. split; [vm_compute; reflexivity|]. intros j b Hj Hb.
  assert (∃ q, twins !! j = Some q ∧ carries_nonce "r00" q.1 = true) as (q & Hq & Hc)
    by (destruct j as [|[|j]]; [eexists; split; [reflexivity|vm_compute; reflexivity]..|lia]).
  refine (proof_accepted_once pid_cfg "" all_valid "r00" w2 proof_race.1 twins proof_race.2 0%nat j _ q _ b
            _ eq_refl Hq _ Hc _ Hb).
  - rewrite <- surjective_pairing. apply pool_schedule_run.
  - vm_compute. reflexivity.
  - eexists. vm_compute. reflexivity.
Defined.

(** ** The log of a request *)

Definition is_issue (e : event) : bool := match projT1 e with OIssue _ => true | _ => false end.
Definition issue_call : issuer_call := MakeSDJWT "pid" "{}" (mkJwk "holder" "" "EC" "" "" "" "") "sha256-x" "{vctm}".
Definition first_log : list event := match proof_race.2 !! 0%nat with Some th => t_log th | None => [] end.
Definition issue_at : nat := match list_find (fun e => is_issue e = true) first_log with Some (n, _) => n | None => 0 end.

Lemma issued_on_grounds_witness : grounds pid_cfg (ask "k1-proof-000010" (holder_proof "r00")) (take issue_at first_log) issue_call.
Proof.
  refine (issued_on_grounds pid_cfg "" all_valid (fun _ _ => True) w2 proof_race.1 twins proof_race.2 0%nat
            (ask "k1-proof-000010" (holder_proof "r00")) draws first_log _ issue_at issue_call
            (Some (Some (mkReply ["the credential"] "" 3 7))) _ eq_refl _ _).
  - rewrite <- surjective_pairing. apply pool_schedule_run.
  - unfold first_log. vm_compute. reflexivity.
  - vm_compute. reflexivity.
Defined.

(** ** A token beyond its time *)

(** A nonce and a credential every ten minutes; [r10] is promised until 3700. *)
Definition again (w : world) (k : Z) : world * result cerror CredentialResponse :=
  let t := k * second in
  let w := fst (run_op all_valid t (ONonceSet "fresh") w) in
  let w := with_docs (MemoryCache.Set_ Document_TTL t "u01" [("doc-1", Some (mkDocument (Some ClaimsWitness.person_doc) [] []))] (w_docs w)) w in
  exec all_valid (fun _ => t) 0 (VCICredential pid_cfg draws "" (ask "k1-proof-000020" (holder_proof "fresh"))) w.
Fixpoint keep_asking (ks : list Z) (w : world) : list (result cerror CredentialResponse) :=
  match ks with [] => [] | k :: ks => let '(w, r) := again w k in r :: keep_asking ks w end.

Lemma token_used_past_expiry :
  tok_ExpiresAt <$> AuthContext.Token (deref (w_auth w2) 1) = Some 3700 ∧
  last (keep_asking [600; 1200; 1800; 2400; 3000; 3600; 4200; 4800] w2) = Some (Ok (mkCredentialResponse ["the credential"] None)).
Proof. split; vm_compute; reflexivity. Qed.
