(* ===== verification/PresentationWitness.v ===== *)
(** * A presentation at a concrete gateway

    Ada presents her credential to be issued another one.  The theorems on
    presented tokens, claims, values and dates are applied to what she sends, and
    [published_on_grounds] to the run of the endpoint; copies, other people and
    other credentials are refused. *)

From Stdlib Require Import SpecFloat.
From stdpp Require Import relations.
From S2P Require Import Prelude Bytes GoStrings GoValue Base64 Utf8 Json Jwt SdJwt SdJwtVerify SdJwtIssue SdJwtWitness TokenStatusListCWT Cose MdocSchema Mdoc MdocDevice MdocWitness ClaimPaths Derivations AuxiliaryData ClaimsWitness OAuth2 AuthContext AuthStore AuthStoreSteps GenericCache IssuerClient Handlers HandlersSafety TokenEndpoint TokenWitness KeyProofs PresentationDoc CredentialRequest CredentialEndpoint VpToken PresentedClaims PresentedClaimsFacts PresentationFlow PresentationSafety.

#[local] Existing Instances toy_cbor toy_hash any_verify toy_mdoc toy_raw toy_response.
#[local] Existing Instance amd64.
#[local] Instance no_rfc3339 : Times := {| ParseDuration _ := None; parse_RFC3339 _ := None |}.
#[local] Instance no_rfc3339_laws : TimesLaws.
Proof. split. done. Qed.
#[local] Instance no_numbers : NumberText := {| number_Int64 _ := None; number_Float64 _ := None |}.
#[local] Instance toy_tx : TxJSON := {|
  unmarshal_tx s := m ← UnmarshalMap s; Some (str_field m "type", default [] (m !! "credential_ids" ≫= json_strings), m !! "transaction_data_hashes_alg")
|}.

(** ** A token *)

Definition compact (header claims : jobject) (key : string) : string :=
  let text := b64 (default "" (Marshal (JObj header))) +:+ "." +:+ b64 (default "" (Marshal (JObj claims))) in
  text +:+ "." +:+ b64 (default "" (sig_sign "ES256" key text)).

Definition issuer_name := "https://pid.example".
Definition pid_claims (vct : string) : jobject :=
  <["iss" := JStr issuer_name]> (<["vct" := JStr vct]> (<["person_id" := JStr "ada-1"]> (<["birthdate" := JStr "1990-01-15"]>
    {["cnf" := JObj {["jwk" := JObj {["kid" := JStr "ada"]}]}]}))).
Definition issued (vct : string) : string :=
  compact (<["alg" := JStr "ES256"]> (<["typ" := JStr "dc+sd-jwt"]> {["jwk" := JObj {["kid" := JStr "pid-key"]}]})) (pid_claims vct) "pid-key".

Definition payment : string :=
  b64 (default "" (Marshal (JObj (<["type" := JStr "urn:eudi:sca:payment:1"]> {["credential_ids" := JArr [JStr "pid"]]})))).

(** The proof of the holder, with what it may also say. *)
Definition kb_claims (nonce aud covered : string) (more : jobject) : jobject :=
  more ∪ (<["nonce" := JStr nonce]> (<["aud" := JStr aud]> (<["iat" := JFloat (float_of_Z 100)]> {["sd_hash" := JStr (SdJwt.digest checksum covered)]}))).
Definition presentation (vct nonce aud key : string) (more : jobject) : string :=
  let sd := issued vct +:+ "~" in
  sd +:+ compact (<["alg" := JStr "ES256"]> {["typ" := JStr "kb+jwt"]}) (kb_claims nonce aud sd more) key.

Definition verifier_name := "x509_san_dns:gateway.example".
Definition ada := presentation "urn:pid" "nonce-1" verifier_name "ada" ∅.

Definition pid_trust (_ : Z) : JWTTrustVerifier :=
  mkTrustVerifier (Some (fun r => Some (bool_decide (ev_SubjectID r = issuer_name)))) None None [] None
    (Some (fun jwk => match jwk !! "kid" with Some (JStr k) => Some k | _ => None end)).
Definition check_for (nonce : string) : VPTokenValidator := mkValidator nonce verifier_name true [] "" [] 0.

Lemma accepted_presentation_witness :
  ∃ t parsed, vouched (pid_trust 0) ada t ∧ Token_Parse 10 ada = Ok parsed ∧ resolved_from 10 (Claims t) parsed.
Proof.
  destruct (accepted_presentation 10 (check_for "nonce-1") (pid_trust 0) ada (110 * second) None) as (t & parsed & _ & _ & Hv & Hp & Hr & _);
    [vm_compute; reflexivity|vm_compute; reflexivity|discriminate|discriminate|]. exists t, parsed. exact (conj Hv (conj Hp Hr)).
Defined.

(** A copy signed by another, a proof for another request, one for another
    presentation, and an issuer nobody trusts. *)
Example refused_tokens :
  Validate 10 (check_for "nonce-1") (presentation "urn:pid" "nonce-1" verifier_name "eve" ∅) (110 * second) = Err (VPNotSigned SignatureInvalid) ∧
  Validate 10 (check_for "nonce-2") ada (110 * second) = Err VPNonce ∧
  Validate 10 (check_for "nonce-1") (presentation "urn:pid" "nonce-1" verifier_name "ada" {["sd_hash" := JStr "other"]}) (110 * second) = Err VPSdHash ∧
  Validate 10 (check_for "nonce-1") ada (7300 * second) = Err VPStale ∧
  EvaluateIssuerTrust (mkTrustVerifier (Some (fun _ => Some false)) None None [] None (tv_parseJWK (pid_trust 0))) ada = Err TNotTrusted ∧
  EvaluateIssuerTrust (mkTrustVerifier (tv_Evaluate (pid_trust 0)) None None ["none"; "RS256"] None (tv_parseJWK (pid_trust 0))) ada =
    Err (TSignature KeyfuncFailed).
Proof. split_and!; vm_compute; reflexivity. Qed.

(** ** A payment *)

Definition payment_check : VPTokenValidator := mkValidator "nonce-1" verifier_name true [payment] "pid" ["direct_post.jwt"] 0.
Definition means : jobject :=
  <["transaction_data_hashes" := JArr [JStr (SdJwt.digest checksum payment)]]> (<["response_mode" := JStr "direct_post.jwt"]>
    (<["jti" := JStr "payment-7"]> {["amr" := JArr [JObj {["knowledge" := JStr "pattern"]}; JObj {["possession" := JStr "other"]}]]})).
Definition paid := presentation "urn:pid" "nonce-1" verifier_name "ada" means.
Definition payment_entry : decodedTransactionData := mkTx payment "urn:eudi:sca:payment:1" ["pid"] [] false.

Lemma transactions_committed_witness : ∃ proof : Jwt.Token, strong (Claims proof) ∧ Claims proof !! "jti" = Some (JStr "payment-7").
Proof.
  destruct (transactions_committed 10 payment_check paid (110 * second) (Some "payment-7") [payment_entry])
    as (_ & _ & proof & _ & _ & _ & _ & _ & _ & _ & _ & _ & Hts); [vm_compute; reflexivity|vm_compute; reflexivity|discriminate|].
  destruct Hts as (id & mode & [= <-] & Hs & Hj & _); [constructor; vm_compute; reflexivity|]. exists proof. exact (conj Hs Hj).
Defined.

Example refused_payments :
  Validate 10 payment_check ada (110 * second) = Err VPTransaction ∧
  Validate 10 payment_check (presentation "urn:pid" "nonce-1" verifier_name "ada"
    (<["amr" := JArr [JObj {["knowledge" := JStr "pattern"]}; JObj {["knowledge" := JStr "other"]}]]> means)) (110 * second) = Err VPTransaction.
Proof. split; vm_compute; reflexivity. Qed.

(** ** Values and dates *)

Definition license : pmap :=
  <["org.iso.18013.5.1.birth_date" := PTag 1004 (PText "1990-01-15")]> (<["org.iso.18013.5.1.portrait" := PBytes (Some [255; 216])]>
    {["org.iso.18013.5.1.driving_privileges" := PArr [PAnyMap {["issue_date" := PTag 1 (PInt64 632361600)]} false]]}).

Definition license_required : list (string * list string) := [("org.iso.18013.5.1.birth_date", []); ("org.iso.18013.5.1.driving_privileges", [])].

Lemma verified_claims_exact_witness : ∃ verified,
  verifiedClaims "mso_mdoc" license license_required = Ok verified ∧
  lookupClaimPath "mso_mdoc" verified "org.iso.18013.5.1.birth_date" = Some (PTag 1004 (PText "1990-01-15")).
Proof.
  eexists. split; [reflexivity|].
  destruct (proj1 (verified_claims_exact "mso_mdoc" license license_required) _ eq_refl) as [Hall _].
  destruct (Hall "org.iso.18013.5.1.birth_date" [] (list_elem_of_here _ _)) as (v & Hv & Hl & _). rewrite Hl, <- Hv. vm_compute. reflexivity.
Defined.

(** What does not nest the claim the scope names is refused. *)
Example flat_claim_refused :
  verifiedClaims "dc+sd-jwt" {["identity.birthdate" := PText "1990-01-15"]} [("identity.birthdate", [])] = Err (MissingRequiredClaim "identity.birthdate") ∧
  verifiedClaims "dc+sd-jwt" {["country" := PText "NO"]} [("country", ["SE"; "DK"])] = Err (ValueNotAllowed "country").
Proof. split; reflexivity. Qed.

Definition privileges : pvalue :=
  PArr [PAnyMap {["issue_date" := PTag 1 (PInt64 632361600); "code" := PText "B"; "count" := PUint64 9007199254740991]} false].
Definition stored_privileges : pvalue :=
  PArr [PMap {["issue_date" := PText "1990-01-15T00:00:00Z"; "code" := PText "B"; "count" := PUint64 9007199254740991]}].

Lemma stored_exactly_witness :
  same_meaning privileges stored_privileges ∧ carried stored_privileges ∧ documentValue stored_privileges = Some stored_privileges.
Proof.
  destruct (stored_exactly privileges stored_privileges) as (Hm & Hc & Hs & _); [vm_compute; reflexivity|vm_compute; reflexivity|].
  exact (conj Hm (conj Hc Hs)).
Defined.

Example unrepresentable :
  documentValue (PUint64 9007199254740992) = None ∧ documentValue (PFloat S754_nan) = None ∧
  documentValue (PAnyMap ∅ true) = None ∧ documentValue (PTag 37 (PText "x")) = None ∧ documentValue (PTime (253402300800 * second)) = None.
Proof. split_and!; vm_compute; reflexivity. Qed.

Lemma presented_date_witness : ∃ d, parse_DateOnly "1969-12-31" = Some d ∧ midnight d ≤ - second < midnight d + day.
Proof.
  destruct (presented_date (PTag 1 (PInt64 (-1))) "1969-12-31") as (d & Hd & _ & _ & Hi); [vm_compute; reflexivity|].
  exists d. split; [exact Hd|]. apply Hi. vm_compute. reflexivity.
Defined.

(** ** The endpoint *)

(** A response is its key identifier and its tokens, in the clear. *)
#[local] Instance clear_flow : FlowEnv := {|
  jwe_open response key :=
    match Cut "." response with
    | Some (_, body) => m ← unb64 body ≫= UnmarshalMap;
                        if bool_decide (str_field m "key" = key) then Some (m !! "vp_token", str_field m "state") else None
    | None => None
    end;
  struct_kid s := m ← UnmarshalMap s; Some (str_field m "kid");
  public_thumbprint _ := Some [1];
  peek_documents _ := None;
  peek_zk _ := None
|}.
#[local] Instance views : ContextViews := {| query_ids _ := ["pid"]; rule_tests _ := [("person_id", "ada-1")] |}.

Definition encrypted (kid key : string) (token : string) : string :=
  b64 (default "" (Marshal (JObj {["kid" := JStr kid]}))) +:+ "." +:+
  b64 (default "" (Marshal (JObj (<["key" := JStr key]> (<["state" := JStr "s"]> {["vp_token" := JObj {["pid" := JStr token]}]}))))).

Definition sd_metadata (vct : string) : CredentialMetadata :=
  mkCredentialMetadata "dc+sd-jwt" (Some (mkVCTM vct [])) "" "" "" None "" "" [] [] None.
Definition diploma_entry : AuthScopeEntry :=
  mkAuthScope ["person_id"] {["person_id" := "authentic_source_person_id"]} [("birthdate", "birth_date")].
Definition gateway_cfg : flow_config :=
  mkFlowConfig
    (mkVciConfig "" "" None ∅ (<["pid" := sd_metadata "urn:pid"]> (<["copy" := sd_metadata "urn:copy"]> {["diploma" := sd_metadata "urn:diploma"]}))
       {["copy" := mkPresentationScope [("pid", mkPresentedCredential [("person_id", [])] [])] [("level", GString "high")] ""]} ∅ ∅ ∅ false)
    "https://pdp.example" (Some "https://gateway.example/verification/direct_post") (Some "https://gateway.example/callback")
    {["diploma" := mkDatastoreScope AuthProviderOpenID4VP "university" {["pid" := diploma_entry]}]} {["copy" := AuthProviderOpenID4VP]}.

(** The keeper of the documents knows Ada. *)
Definition records : peers :=
  mkPeers (fun _ _ => None) (fun _ _ _ _ => false)
    (fun _ _ _ => Err NoIdentityFound)
    (fun _ _ id => Some (if bool_decide (id = "ada-1") then [("doc-1", Some (mkDocument (Some [("degree", GString "MSc")]) [] []))] else [])).

(** A session for a scope, found by its key; its rule is that of [views]. *)
Definition prepared (scope source : string) : AuthorizationContext :=
  mkContext "session-1" 0 (1000 * second) "" "" "" "" "" "" "" "code-1" false [] 0 None "" "" "" false "university" "" "" source "" ""
    "kid-1" "response-1" "" (Some GNil)
    (mkRest "pending" "" verifier_name [scope] "nonce-1" (Some GNil) false false "" "" [] 0 "" [] "" "" "" false false 0 0 0 None "" "" GNil "" [] [] "" [] [] "").
Definition start (scope source : string) : world :=
  let keys := MemoryCache.Set_ AuthContextTTL (100 * second) "kid-1" "key-1" ∅ in
  fst (run_op all_valid (100 * second) (OSave (prepared scope source)) (mkWorld (mkStore ∅ 0 ∅ ∅ []) ∅ ∅ ∅ keys records)).

Abbreviation post := (VerificationDirectPost gateway_cfg 10 pid_trust None (fun _ => PNil) fixed_draws).
Definition posted (scope source token : string) :=
  exec all_valid (at_second 110) 0 (post (encrypted "kid-1" "key-1" token)) (start scope source).
Definition cached (w : world) : option documents := snd (MemoryCache.Get (111 * second) "session-1" (w_docs w)).

Definition decorated : documents :=
  [("doc-1", Some (mkDocument (Some [("degree", GString "MSc"); ("birth_date", GString "1990-01-15")]) ["birth_date"] []))].

(** Ada's diploma, and a copy of what she presented. *)
Example presentation_published :
  (posted "diploma" "datastore" ada).2 = Ok (mkDirectPostResponse "" "https://gateway.example/callback" "response-1") ∧
  cached (posted "diploma" "datastore" ada).1 = Some decorated ∧
  Identifier (deref (w_auth (posted "diploma" "datastore" ada).1) 0) = "ada-1" ∧
  cached (posted "copy" DataSourcePresentation ada).1 =
    Some [("pid", Some (mkDocument (Some [("person_id", GString "ada-1"); ("level", GString "high"); ("date_of_issuance", GString "2024-06-01")]) [] []))].
Proof. split_and!; vm_compute; reflexivity. Qed.

(** Another type of credential, another person, a proof for another request, and
    a key nobody handed out; nothing is published. *)
Example refused_presentations :
  (posted "diploma" "datastore" (presentation "urn:loyalty-card" "nonce-1" verifier_name "ada" ∅)).2 = Err (FClaim TypeMismatch) ∧
  (posted "diploma" "datastore" (presentation "urn:pid" "nonce-0" verifier_name "ada" ∅)).2 = Err (FVp VPNonce) ∧
  (exec all_valid (at_second 110) 0 (post (encrypted "kid-2" "key-1" ada)) (start "diploma" "datastore")).2 = Err FNoKey ∧
  (exec all_valid (at_second 110) 0 (post (encrypted "kid-1" "key-2" ada)) (start "diploma" "datastore")).2 = Err FDecrypt ∧
  cached (posted "diploma" "datastore" (presentation "urn:loyalty-card" "nonce-1" verifier_name "ada" ∅)).1 = None.
Proof. split_and!; vm_compute; reflexivity. Qed.

Definition posts : list string := [encrypted "kid-1" "key-1" ada; encrypted "kid-1" "key-1" ada].
Definition both_posted := pool_schedule all_valid (in_turn 30) (start "diploma" "datastore", (fun response => mkThread (post response) []) <$> posts).
Definition post_log : list event := match both_posted.2 !! 1%nat with Some th => t_log th | None => [] end.
Definition is_publication (e : event) : bool := match projT1 e with ODocumentSet _ _ => true | _ => false end.
Definition published_at : nat := match list_find (fun e => is_publication e = true) post_log with Some (n, _) => n | None => 0 end.

Lemma published_on_grounds_witness :
  direct_grounds gateway_cfg 10 pid_trust None (fun _ => PNil) fixed_draws (encrypted "kid-1" "key-1" ada) (take published_at post_log)
    (ODocumentSet "session-1" decorated).
Proof.
  refine (published_on_grounds gateway_cfg 10 pid_trust None (fun _ => PNil) fixed_draws all_valid (fun _ _ => True)
            (start "diploma" "datastore") both_posted.1 posts both_posted.2 1%nat _ post_log _ published_at (ODocumentSet "session-1" decorated) tt _ eq_refl _ _).
  - rewrite <- surjective_pairing. apply pool_schedule_run.
  - unfold post_log. vm_compute. reflexivity.
  - vm_compute. reflexivity.
Defined.
