(* ===== verification/IssuanceRequest.v ===== *)
(** * Requests for the presentation that authenticates an issuance

    [internal/apigw/apiv1]: [VerificationRequestObject], the request object and its
    query ([handlers_verifier.go]), the narrowed query of interactive authorization
    ([issuanceAuthDCQL] of [handlers_oauth_challenge.go]) and the ephemeral keys
    ([client.go]); [InteractiveAuthorization] and the query of a credential type
    ([pkg/model/config.go]); the variants of a request object
    ([pkg/openid4vp/response_mode.go]).  The queries are those of [Dcql].  Before
    them, the origins that requests and audiences name
    ([pkg/openid4vp/origin.go]).

    Interfaces: [net/url], the mapping of host names, [net/netip], the generation of keys, their public halves and the signature of a
    request object.  What the issuer metadata says of formats is a value of the
    configuration.  The members of a request object that are never set here are
    left out, as are the texts of errors. *)

From stdpp Require Import sorting pretty.
From S2P Require Import Prelude GoStrings Utf8 GoValue Json JsonNumber MdocSchema Mdoc Dcql Derivations AuthContext AuthStore GenericCache Handlers OAuth2 TokenEndpoint PresentationDoc CredentialEndpoint PresentedClaims PresentationFlow SdJwtIssue.

(** ** Origins

    An origin is compared as a string, so it has one spelling: the one a browser
    writes. *)

(** A [netip.Addr]. *)
Record Addr := mkAddr { a_Is4 : bool; a_Zone : string; a_As16 : list Z; a_String : string }.
Class NetAddr := { addr_Parse : string → option Addr }.

(** *** Ports *)

(** [strconv.ParseUint(port, 10, 16)], then [strconv.FormatUint] *)
Definition normalizePort (port : string) : option string :=
  if str_empty port then Some "" else
  if all_digits port && bool_decide (digits_value 0 port ≤ 65535) then Some (pretty (digits_value 0 port)) else None.

Definition defaultPortForScheme (scheme : string) : string :=
  if bool_decide (scheme ∈ ["https"; "wss"]) then "443" else
  if bool_decide (scheme ∈ ["http"; "ws"]) then "80" else "".

(** *** Addresses *)

(** [strconv.FormatUint(n, 16)]; sixteen digits are enough for 64 bits. *)
Fixpoint hex_digits (fuel : nat) (n : Z) (tail : string) : string :=
  match fuel with
  | O => tail
  | S fuel =>
      let text := String (hex_digit (n mod 16)) tail in
      if bool_decide (n / 16 = 0) then text else hex_digits fuel (n / 16) text
  end.
Definition FormatHex (n : Z) : string := hex_digits 16 n "".

Fixpoint octet_pairs (octets : list Z) : list Z :=
  match octets with
  | a :: b :: octets => Z.lor (Z.shiftl a 8) b :: octet_pairs octets
  | _ => []
  end.

Fixpoint zero_run (pieces : list Z) : nat :=
  match pieces with
  | p :: pieces => if bool_decide (p = 0) then S (zero_run pieces) else 0
  | [] => 0
  end.

(** The first of the longest runs of zeroes from [i] on that beat [best], as its
    start and length. *)
Fixpoint longest_zeros (fuel : nat) (pieces : list Z) (i : nat) (best : nat * nat) : nat * nat :=
  match fuel with
  | O => best
  | S fuel =>
      match drop i pieces with
      | [] => best
      | p :: rest =>
          if bool_decide (p = 0) then
            let n := S (zero_run rest) in
            longest_zeros fuel pieces (i + n) (if (snd best <? n)%nat then (i, n) else best)
          else longest_zeros fuel pieces (S i) best
      end
  end.

(** The pieces from number [i] on, of which [skip] are in the run being left out. *)
Fixpoint write_pieces (best : nat * nat) (i skip : nat) (pieces : list Z) : string :=
  match pieces with
  | [] => ""
  | p :: rest =>
      match skip with
      | S skip => write_pieces best (S i) skip rest
      | O =>
          if bool_decide (i = fst best)
          then (if bool_decide (i = 0%nat) then ":" else "") +:+ ":" +:+ write_pieces best (S i) (snd best - 1) rest
          else FormatHex p +:+ (match rest with [] => "" | _ => ":" end) +:+ write_pieces best (S i) 0 rest
      end
  end.

(** A start past the end stands for no run. *)
Definition serializeIPv6 (octets : list Z) : string :=
  let pieces := octet_pairs octets in
  write_pieces (longest_zeros (length pieces) pieces 0 (length pieces, 1%nat)) 0 0 pieces.

Section origin.
Context `{NetURL} `{NetAddr}.

Definition canonicalIPv6 (host : string) : option string :=
  addr ← addr_Parse host;
  if negb (str_empty (a_Zone addr)) then None else
  if a_Is4 addr then None else Some ("[" +:+ serializeIPv6 (a_As16 addr) +:+ "]").

(** [refuseRewritableNumericHost] *)
Definition canonicalIPv4 (host : string) : bool :=
  match addr_Parse host with Some addr => a_Is4 addr && bool_decide (a_String addr = host) | None => false end.

Definition is_hex_digit (c : Ascii.ascii) : bool :=
  is_digit c || bool_decide (97 ≤ byte_of c ≤ 102) || bool_decide (65 ≤ byte_of c ≤ 70).
Fixpoint isHexDigits (s : string) : bool :=
  match s with EmptyString => true | String c s => is_hex_digit c && isHexDigits s end.

(** The last label; one trailing dot is the root. *)
Definition last_label (host : string) : string :=
  match rev (Split "." host) with
  | "" :: last :: _ => last
  | last :: _ => last
  | [] => ""
  end.

Definition endsInANumber (host : string) : bool :=
  match last_label host with
  | "" => false
  | String "0" (String "x" hex) | String "0" (String "X" hex) => isHexDigits hex
  | last => all_digits last
  end.

Definition browser_host (host : string) : option string :=
  if has_byte ":"%char host then canonicalIPv6 host else
  host ← ToASCII host;
  if endsInANumber host && negb (canonicalIPv4 host) then None else Some host.

Definition CanonicalOrigin (rawURL : string) : option string :=
  u ← url_Parse rawURL;
  if str_empty (u_Scheme u) || str_empty (u_Host u) then None else
  let scheme := ToLower (u_Scheme u) in
  if str_empty (Hostname u) then None else
  host ← browser_host (Hostname u);
  port ← normalizePort (Port u);
  let origin := scheme +:+ "://" +:+ host in
  Some (if negb (str_empty port) && negb (bool_decide (port = defaultPortForScheme scheme)) then origin +:+ ":" +:+ port else origin).
End origin.

(** The run that is left out is the first of the longest, and never a single zero. *)
Example ipv6_spellings :
  serializeIPv6 [32; 1; 13; 184; 0; 0; 0; 0; 0; 0; 0; 0; 0; 0; 0; 1] = "2001:db8::1" ∧
  serializeIPv6 [0; 0; 0; 0; 0; 0; 0; 0; 0; 0; 255; 255; 192; 0; 2; 1] = "::ffff:c000:201" ∧
  serializeIPv6 [0; 1; 0; 0; 0; 0; 0; 2; 0; 0; 0; 0; 0; 3; 0; 4] = "1::2:0:0:3:4" ∧
  serializeIPv6 [0; 1; 0; 0; 0; 2; 0; 3; 0; 4; 0; 5; 0; 6; 0; 7] = "1:0:2:3:4:5:6:7" ∧
  serializeIPv6 (replicate 16 0) = "::" ∧
  serializeIPv6 [0; 1; 0; 0; 0; 0; 0; 0; 0; 0; 0; 0; 0; 0; 0; 0] = "1::".
Proof. split_and!; vm_compute; reflexivity. Qed.

(** ** The configuration of interactive authorization *)

Record ia_config := mkIA {
  ia_Enable : bool;                     (* [BoolVal(Enable, false)] *)
  ia_InteractionTypePrefix : string;
  ia_BindingPrefix : string;
  ia_ResponseModeEncrypted : string;
  ia_MdocHandoverLabel : string;
  ia_SDJWTBindingScope : string;
  ia_AuthSessionTTLSeconds : Z;
  ia_InteractionTypesSupported : list string
}.

Definition AuthorizationChallengePath := "/authorize-challenge".
Definition InteractionOpenID4VPPresentation := "openid4vp_presentation".
Definition InteractionAuthViaWeb := "auth_via_web".
Definition ResponseModeDirectPostJWT := "direct_post.jwt".
Definition ResponseModeDCAPIJWT := "dc_api.jwt".
Definition ResponseModeIAPostJWT := "ia_post.jwt".
Definition InteractiveAuthorizationEncValues : list string := ["A256GCM"].

(** [strings.TrimRight(s, "/")] *)
Fixpoint trim_slashes (s : string) : string :=
  match s with
  | EmptyString => EmptyString
  | String c s => match trim_slashes s with
                  | EmptyString => if bool_decide (c = "/"%char) then EmptyString else chr c
                  | t => String c t
                  end
  end.

(** A configured text, or its default. *)
Definition or_default (configured fallback : string) : string := if str_empty configured then fallback else configured.

Definition challenge_url (issuerURL : string) : string := trim_slashes issuerURL +:+ AuthorizationChallengePath.
Definition ChallengeEndpoint (ia : ia_config) (issuerURL : string) : string := if ia_Enable ia then challenge_url issuerURL else "".
Definition InteractionType (ia : ia_config) (suffix : string) : string :=
  or_default (ia_InteractionTypePrefix ia) "urn:openid:dcp:ia:" +:+ suffix.
Definition Offers (ia : ia_config) (suffix : string) : bool :=
  match ia_InteractionTypesSupported ia with [] => true | l => bool_decide (suffix ∈ l) end.
Definition ia_ResponseMode (ia : ia_config) : string := or_default (ia_ResponseModeEncrypted ia) ResponseModeIAPostJWT.
Definition HandoverLabel (ia : ia_config) : string := or_default (ia_MdocHandoverLabel ia) "OpenID4VCIIAEHandover".
Definition AuthSessionTTL (ia : ia_config) : Z :=
  if bool_decide (0 < ia_AuthSessionTTLSeconds ia) then wrap64 (ia_AuthSessionTTLSeconds ia * second) else 300 * second.

Section audience.
Context `{NetURL} `{NetAddr}.

Definition ChallengeEndpointOrigin (issuerURL : string) : option string := CanonicalOrigin (challenge_url issuerURL).
Definition PresentationAudience (ia : ia_config) (issuerURL : string) : option string :=
  let prefix := or_default (ia_BindingPrefix ia) "ia:" in
  if bool_decide (ia_SDJWTBindingScope ia = "endpoint") then Some (prefix +:+ challenge_url issuerURL) else
  origin ← CanonicalOrigin (challenge_url issuerURL);
  Some (prefix +:+ origin).
End audience.

(** ** Queries *)

Definition IsW3CVCFormatIdentifier (format : string) : bool := bool_decide (format ∈ [FormatLdpVCDCQL; FormatVCLDJSON; FormatJwtVCJson]).

Definition vctIdentifier (c : CredentialMetadata) : string :=
  match cm_VCTM c with
  | Some vctm => if str_empty (vctm_VCT vctm) then cm_VCTURL c else vctm_VCT vctm
  | None => cm_VCTURL c
  end.
Definition doctype (c : CredentialMetadata) : string :=
  match cm_MDDL c with
  | Some mddl => if str_empty (s_DocType mddl) then cm_Doctype c else s_DocType mddl
  | None => cm_Doctype c
  end.
(** [credential_type_values], without those that do not narrow the request. *)
Definition w3cTypeValues (typeValues : list (list string)) : list (list string) :=
  List.filter (existsb (fun t => negb (str_empty t) && negb (bool_decide (t = BaseVCTypeIRI)))) typeValues.

Definition DCQLMetaQuery (typeValues : list (list string)) (c : option CredentialMetadata) : option MetaQuery :=
  c ← c;
  if bool_decide (cm_Format c = FormatMsoMdoc) then
    if str_empty (doctype c) then None else Some (mkMetaQuery [] [] (doctype c) "" "" [] "")
  else if bool_decide (cm_Format c ∈ [FormatSDJWTVC; "vc+sd-jwt"; ""]) then
    if str_empty (vctIdentifier c) then None else Some (mkMetaQuery [vctIdentifier c] [] "" "" "" [] "")
  else if bool_decide (cm_Format c ∈ [FormatLdpVCDCQL; FormatVCLDJSON]) then
    match w3cTypeValues typeValues with [] => None | l => Some (mkMetaQuery [] (map Some l) "" "" "" [] "") end
  else None.

(** At the last separator. *)
Fixpoint cut_last (c : Ascii.ascii) (s : string) : option (string * string) :=
  match s with
  | EmptyString => None
  | String d s =>
      match cut_last c s with
      | Some (a, b) => Some (String d a, b)
      | None => if bool_decide (d = c) then Some ("", s) else None
      end
  end.

Definition authClaimPathSegments (format claim : string) : list string :=
  if bool_decide (format ∈ [FormatMsoMdoc; FormatMsoMdocZk]) then
    match cut_last "." claim with
    | Some (namespace, element) => if str_empty namespace || str_empty element then [Namespace; claim] else [namespace; element]
    | None => [Namespace; claim]
    end
  else Split "." claim.

Record gateway_config := mkGatewayConfig {
  gc_flow : flow_config;
  gc_oauth : config;
  gc_ia : ia_config;
  gc_Assertion : gmap string string;               (* the provider of an assertion scope *)
  gc_ExternalAPI : gmap string (string * string);  (* provider and remote of an API scope *)
  gc_Selector : option (bool * bool);              (* whether SAML and OIDC are running *)
  gc_TypeValues : gmap string (list (list string));
  gc_VPFormats : goval;                            (* [deriveVPFormatsFromMetadata] *)
  gc_LegacyJARM : bool
}.

Section queries.
Variable cfg : gateway_config.

(** The claims a query asks for. *)
Definition requested_claims (entry : AuthScopeEntry) : list string :=
  foldl (fun requested src => if bool_decide (src ∈ requested) then requested else (requested ++ [src])%list)
    (AuthClaims entry) (merge_sort key_order (map fst (DocumentClaims entry))).

Definition claim_queries (format : string) (entry : AuthScopeEntry) : list ClaimQuery :=
  map (fun claim => mkClaimQuery "" (map Some (authClaimPathSegments format claim)) None) (requested_claims entry).

Definition scope_query (authScope : string) (entry : AuthScopeEntry) : option CredentialQuery :=
  let format := GetFormatForScope (gc_flow cfg) authScope in
  if IsW3CVCFormatIdentifier format then None else
  meta ← DCQLMetaQuery (default [] (gc_TypeValues cfg !! authScope)) (GetCredentialMetadata (fc_vci (gc_flow cfg)) authScope);
  Some (mkCredentialQuery authScope format None meta [] None (claim_queries format entry) [] [] ∅ None).

Definition buildIssuanceAuthDCQL (authScopes : gmap string AuthScopeEntry) : option DCQL :=
  queries ← mapM (fun authScope => entry ← authScopes !! authScope; scope_query authScope entry) (sort_keys authScopes);
  Some (mkDCQL (Some queries) [mkCredentialSetQuery (Some (map (fun s => Some [s]) (sort_keys authScopes))) (Some true)]).

Definition set_options (s : CredentialSetQuery) : list (list string) := map (default []) (default [] (Options s)).

Definition narrowed (dcql : DCQL) : option DCQL :=
  let queries := default [] (Credentials dcql) in
  let supported := map ID (List.filter (fun q => negb (bool_decide (Format q = FormatMsoMdocZk))) queries) in
  let credentials := List.filter (fun q => bool_decide (ID q ∈ supported)) queries in
  let options := List.filter (fun option => negb (existsb (fun id => negb (bool_decide (id ∈ supported))) option))
                   (concat (map set_options (CredentialSets dcql))) in
  match credentials, options with
  | [], _ | _, [] => None
  | _, _ => Some (mkDCQL (Some credentials) [mkCredentialSetQuery (Some (map Some options)) (Some true)])
  end.

Definition issuanceAuthDCQL (scope : string) : option DCQL :=
  vpAuth ← GetOpenID4VPAuth (gc_flow cfg) scope;
  dcql ← buildIssuanceAuthDCQL vpAuth;
  narrowed dcql.
End queries.

(** ** Request objects *)

Record ClientMetadata := mkClientMetadata {
  md_VPFormatsSupported : goval;
  md_JWKS : list string;                             (* public keys, as text *)
  md_EncryptedResponseEncValuesSupported : list string;
  md_AuthorizationEncryptedResponseALG : string;
  md_AuthorizationEncryptedResponseENC : string
}.

Record RequestObject := mkRequestObject {
  ro_ResponseURI : string; ro_AUD : string; ro_ISS : string; ro_ClientID : string;
  ro_ResponseType : string; ro_ResponseMode : string; ro_State : string; ro_Nonce : string;
  ro_DCQLQuery : DCQL; ro_ClientMetadata : ClientMetadata; ro_IAT : Z; ro_ExpectedOrigins : list string
}.

Definition WithDCAPIRequest (expectedOrigin : string) (r : RequestObject) : RequestObject :=
  mkRequestObject "" (ro_AUD r) (ro_ISS r) (ro_ClientID r) (ro_ResponseType r) ResponseModeDCAPIJWT (ro_State r) (ro_Nonce r)
    (ro_DCQLQuery r) (ro_ClientMetadata r) (ro_IAT r)
    (if str_empty expectedOrigin then ro_ExpectedOrigins r else [expectedOrigin]).

Definition narrowed_metadata (m : ClientMetadata) : ClientMetadata :=
  mkClientMetadata (md_VPFormatsSupported m) (md_JWKS m) InteractiveAuthorizationEncValues (md_AuthorizationEncryptedResponseALG m)
    (if str_empty (md_AuthorizationEncryptedResponseENC m) then "" else "A256GCM").

Definition WithInteractiveAuthorization (responseMode expectedOrigin : string) (r : RequestObject) : RequestObject :=
  let v := WithDCAPIRequest expectedOrigin r in
  mkRequestObject (ro_ResponseURI v) (ro_AUD v) (ro_ISS v) (ro_ClientID v) (ro_ResponseType v) responseMode (ro_State v) (ro_Nonce v)
    (withCryptographicHolderBinding (ro_DCQLQuery v)) (narrowed_metadata (ro_ClientMetadata v)) (ro_IAT v) (ro_ExpectedOrigins v).

(** A query as the value a context keeps; it is read back as it was written. *)
Class QueryValues `{ContextViews} := {
  of_dcql : DCQL → goval;
  of_dcql_ids : ∀ q, query_ids (of_dcql q) = map ID (default [] (Credentials q))
}.

Class RequestEnv := {
  public_half : string → option string;       (* the public key a wallet accepts, of a private one *)
  sign_request : RequestObject → option string
}.

Definition set_DCQLQuery (v : option goval) (d : AuthorizationContext) : AuthorizationContext :=
  mkContext (SessionID d) (CreatedAt d) (ExpiresAt d) (WalletClientID d) (State d) (CodeChallenge d)
    (CodeChallengeMethod d) (AuthSession d) (IssuerState d) (AuthSessionDPoPThumbprint d) (Code d) (Forfeited d)
    (RedeemedBy d) (TXCodeAttempts d) (Token d) (AccessToken d) (RequestURI d) (WalletURI d) (Consent d)
    (AuthenticSource d) (Identifier d) (AuthProvider d) (DataSource d) (RemoteName d) (RefreshToken d)
    (EphemeralEncryptionKeyID d) (VerifierResponseCode d) (RequestObjectID d) v (other d).
Definition by_response_code (code : string) : AuthorizationContext :=
  mkContext "" 0 0 "" "" "" "" "" "" "" "" false [] 0 None "" "" "" false "" "" "" "" "" "" "" code "" None zero_rest.

Section requests.
Context `{QueryValues} `{RequestEnv}.
Variable cfg : gateway_config.
(** The key this request would draw, for an identifier. *)
Variable new_key : string → option string.

(** The private key as it is stored, and the public half. *)
Definition ephemeralKeyPair (privateJWK : string) : H (string * string) :=
  match public_half privateJWK with Some publicJWK => mret (privateJWK, publicJWK) | None => fail HInternal end.

Definition EphemeralEncryptionKey (kid : string) : H (string * string) :=
  existing ← perform (OKey kid);
  match existing with
  | Some key => ephemeralKeyPair key
  | None =>
      match new_key kid with
      | None => fail HInternal
      | Some privateJWK =>
          stored ← perform (OKeyNX kid privateJWK);
          if stored : bool then ephemeralKeyPair privateJWK else
          winner ← perform (OKey kid);
          match winner with Some key => ephemeralKeyPair key | None => fail HInternal end
      end
  end.

(** [d] is the document as it is read, field by field, in the source. *)
Definition request_object (d : AuthorizationContext) (dcql : DCQL) (responseURI publicJWK : string) (now : Z) : RequestObject :=
  let legacy v := if gc_LegacyJARM cfg then v else "" in
  mkRequestObject responseURI "https://self-issued.me/v2" (ClientID (other d)) (ClientID (other d)) "vp_token" ResponseModeDirectPostJWT
    (State d) (AuthContext.Nonce (other d)) dcql
    (mkClientMetadata (gc_VPFormats cfg) [publicJWK] ["A256GCM"; "A128GCM"] (legacy "ECDH-ES") (legacy "A256GCM")) (unix now) [].

(** [read] gives the document: through a pointer, or a copy the caller has. *)
Definition buildIssuanceAuthRequestObject (read : H AuthorizationContext) (dcql : DCQL) : H RequestObject :=
  d ← read;
  '(_, ephemeralPublicJWK) ← EphemeralEncryptionKey (EphemeralEncryptionKeyID d);
  match fc_ResponseURI (gc_flow cfg) with
  | None => fail HInternal
  | Some responseURI =>
      d ← read;
      now ← perform ONow;
      mret (request_object d dcql responseURI ephemeralPublicJWK now)
  end.

Definition or_internal {A} (o : option A) : H A := match o with Some a => mret a | None => fail HInternal end.

Definition VerificationRequestObject (id : string) : H string :=
  found ← perform (OGet (by_response_code id));
  match found with
  | Err e => fail (HStore e)
  | Ok l =>
      d ← perform (OLoad l);
      scope ← or_internal (matchScope (fc_vci (gc_flow cfg)) (Scopes (other d)));
      vpAuth ← or_internal (GetOpenID4VPAuth (gc_flow cfg) scope);
      dcql ← or_internal (buildIssuanceAuthDCQL cfg vpAuth);
      _ ← perform (OAssign l (set_DCQLQuery (Some (of_dcql dcql))));
      updated ← perform (OUpdate l);
      match updated with
      | Err _ => fail HInternal
      | Ok _ =>
          authorizationRequest ← buildIssuanceAuthRequestObject (perform (OLoad l)) dcql;
          or_internal (sign_request authorizationRequest)
      end
  end.
End requests.
