(* ===== verification/ChallengeEndpoint.v ===== *)
(** * The authorization challenge endpoint

    [internal/apigw/apiv1/handlers_oauth_challenge.go]: interactive authorization.
    A wallet opens an exchange or resumes a prepared issuance, is told which
    interaction is required, and answers with a presentation that is exchanged for
    an authorization code.  With it, the choice of the provider of a scope
    ([internal/apigw/auth_providers/selector.go], [LookupCredentialSources] of
    [pkg/model/data_sources.go]).  Handlers as in [Handlers]; [random n] and
    [uuid n] are the values of the calls of one request, in their order.

    The source returns the response that requires an interaction as an error with
    the status 403; here it is a value.  Interfaces: the members of the JSON
    envelope of a response and the protected header of a JWE.  Descriptions of
    errors and log lines are left out. *)

From S2P Require Import Prelude Bytes GoStrings GoValue Base64 Utf8 Json Jwt SdJwt SdJwtVerify TokenStatusListCWT Cose Mdoc MdocDevice Dcql ClaimPaths Derivations OAuth2 AuthContext AuthStore GenericCache Handlers TokenEndpoint PresentationDoc CredentialEndpoint VpToken PresentedClaims PresentationFlow IssuanceRequest.

(** ** Data *)

Record AuthorizationChallengeRequest := mkChallenge {
  ch_ResponseType : string; ch_ClientID : string; ch_Scope : string; ch_RedirectURI : string;
  ch_CodeChallenge : string; ch_CodeChallengeMethod : string; ch_InteractionTypesSupported : string;
  ch_AuthSession : string; ch_IssuerState : string; ch_OpenID4VPResponse : string;
  ch_ClientAssertion : string; ch_ClientAttestation : string; ch_ClientAttestationPoP : string; ch_DPOP : string
}.

Inductive challenge_reply :=
| CodeResponse (code : string)
| PresentationRequired (interaction authSession openid4vpRequest : string)
| WebRequired (interaction requestURI : string) (expiresIn : Z).

Definition errMissingInteractionType := "missing_interaction_type".
Definition errInvalidSession := "invalid_session".
Definition ErrorAccessDenied := "access_denied".
Definition walletErrorCodes : list string :=
  ["invalid_scope"; "invalid_request"; "invalid_client"; ErrorAccessDenied; "vp_formats_not_supported";
   "invalid_request_uri_method"; "invalid_transaction_data"; "wallet_unavailable"].

Definition invalidSession {A} : H A := refuse errInvalidSession 400.
(** [authSessionStoreFailure], and every other failure that is ours *)
Definition server_failure {A} : H A := refuse ErrCodeServerError 500.

Definition by_auth_session (h : string) : AuthorizationContext := set_AuthSession h zero_context.
Definition by_issuer_state (h : string) : AuthorizationContext := set_IssuerState h zero_context.

(** ** Which provider serves a scope *)

Definition AuthProviderSAML := "saml".
Definition AuthProviderOIDC := "oidc".

Record CredentialSource := mkSource { cs_DataSource : string; cs_AuthProvider : string; cs_RemoteName : string; cs_AuthenticSource : string }.

Section sources.
Variable cfg : gateway_config.

Definition LookupCredentialSources (scope : string) : list CredentialSource :=
  (match fc_Datastore (gc_flow cfg) !! scope with
   | Some s => [mkSource DataSourceDatastore (ds_AuthProvider s) "" (ds_AuthenticSource s)] | None => [] end ++
   match gc_Assertion cfg !! scope with Some provider => [mkSource DataSourceAssertion provider "" ""] | None => [] end ++
   match gc_ExternalAPI cfg !! scope with Some (provider, remote) => [mkSource DataSourceExternalAPI provider remote ""] | None => [] end ++
   match fc_PresentationAuth (gc_flow cfg) !! scope with Some provider => [mkSource DataSourcePresentation provider "" ""] | None => [] end)%list.

Definition isEnabled (selector : bool * bool) (provider : string) : bool :=
  if bool_decide (provider ∈ [AuthProviderOpenID4VP; AuthProviderPreAuth]) then true else
  if bool_decide (provider = AuthProviderSAML) then fst selector else
  if bool_decide (provider = AuthProviderOIDC) then snd selector else false.

Definition Select (selector : bool * bool) (scope : string) : option CredentialSource :=
  find (fun src => isEnabled selector (cs_AuthProvider src)) (LookupCredentialSources scope).

Definition interactionTypeForScope (scope : string) : H (string * CredentialSource) :=
  match gc_Selector cfg with
  | None => server_failure
  | Some selector =>
      match Select selector scope with
      | None => refuse ErrCodeInvalidScope 400
      | Some source =>
          let provider := cs_AuthProvider source in
          let offer suffix :=
            if Offers (gc_ia cfg) suffix then mret (InteractionType (gc_ia cfg) suffix, source) else refuse errMissingInteractionType 400 in
          if bool_decide (provider = AuthProviderOpenID4VP) then offer InteractionOpenID4VPPresentation else
          if bool_decide (provider ∈ [AuthProviderSAML; AuthProviderOIDC]) then offer InteractionAuthViaWeb else
          refuse ErrCodeInvalidScope 400
      end
  end.
End sources.

(** [strings.FieldsFunc] for commas and white space *)
Definition separates (c : Ascii.ascii) : bool := bool_decide (Z.of_N (Ascii.N_of_ascii c) ∈ [44; 32; 9; 10; 13]).
Fixpoint fields (current : string) (s : string) : list string :=
  let flush := if str_empty current then [] else [current] in
  match s with
  | EmptyString => flush
  | String c s => if separates c then (flush ++ fields "" s)%list else fields (current +:+ chr c) s
  end.
Definition interactionTypeOffered (supported required : string) : bool := bool_decide (required ∈ fields "" supported).

(** ** Encrypted responses *)

Record jwe_headers := mkJweHeaders { jh_alg : option string; jh_enc : option string; jh_zip : option string; jh_crit : bool }.

Class ChallengeEnv := {
  (* the members [response] and [error] of the envelope *)
  envelope_of : string → option (string * string);
  jwe_Parse : string → option jwe_headers
}.

Definition iaResponseAlg := "ECDH-ES".

Definition isCompactJWE (body : string) : bool :=
  let parts := Split "." body in
  bool_decide (length parts = 5%nat) &&
  forallb (fun '(i, part) => negb (str_empty part && negb (bool_decide (i = 1%nat))) &&
                             match RawURLEncoding.DecodeString part with Some _ => true | None => false end)
    (imap pair parts).

Definition validateInteractiveAuthorizationJWE `{ChallengeEnv} (response : string) : bool :=
  isCompactJWE response &&
  match jwe_Parse response with
  | None => false
  | Some headers =>
      bool_decide (jh_alg headers = Some iaResponseAlg) &&
      match jh_enc headers with Some enc => bool_decide (enc ∈ InteractiveAuthorizationEncValues) | None => false end &&
      match jh_zip headers with Some zip => str_empty zip | None => true end &&
      negb (jh_crit headers)
  end.

Definition set_InteractiveAuthorization (v : bool) (d : AuthorizationContext) : AuthorizationContext :=
  set_other (fun r => mkRest (Status r) (SourceSessionID r) (ClientID r) (Scopes r) (AuthContext.Nonce r) (IdentityMatch r) v
    (PreAuthorized r) (TXCode r) (IDToken r) (AuthorizationDetails r) (RequestURIExpiresAt r) (AuthContext.Scope r) (DynamicParams r)
    (RedirectURI r) (ResponseType r) (ResponseMode r) (ShowCredentialDetails r) (WalletFollowsRedirect r)
    (CodeExpiresAt r) (AccessTokenExpiresAt r) (RefreshTokenExpiresAt r) (VerifiedClaims r) (PresentedScope r) (VPToken r)
    (PresentationSubmission r) (RequestObjectNonce r) (TransactionData r) (TransactionDataResponseModes r)
    (DCQLQueryExact r) (ScopeQueryIDs r) (Validations r) (WalletID r)) d.

(** ** The endpoint *)

Section endpoint.
Context `{JSON} `{Arch} `{Hashes} `{Sig : Signatures} `{!SdEnv} `{TxJSON} `{Text} `{Countries} `{LocalTime} `{Times} `{NumberText}.
Context `{CBORRaw} `{CoseVerify} `{MdocCBOR} `{ResponseCBOR} `{FlowEnv} `{QueryValues} `{RequestEnv} `{ChallengeEnv}.
Context `{NetURL} `{NetAddr} `{ProofParser} `{AssertionParser}.
Variable cfg : gateway_config.
Variable evaluator : option (string → string → string → option attestation).
Variable policy : string → string → string → bool.
Variable fuel : nat.
Variable trust : Z → JWTTrustVerifier.
Variable mdoc_verifier : option Verifier.
Variable of_dvalue : dvalue → pvalue.
Variable entropy : Entropy.
Variable random : nat → option string.
Variable uuid : nat → string.
Variable new_key : string → option string.

Abbreviation ia := (gc_ia cfg).
Abbreviation public_url := (PublicURL (gc_oauth cfg)).
Abbreviation endpoint := (ChallengeEndpoint ia public_url).

Definition authenticateChallengeWallet (req : AuthorizationChallengeRequest) (scope : string) : H Client :=
  if negb (str_empty (ch_RedirectURI req)) && negb (ValidateRedirectURIScheme (ch_RedirectURI req)) then refuse ErrCodeInvalidRequest 400 else
  oauthClient ← authenticateOAuthClient (gc_oauth cfg) evaluator policy
    (mkWalletAuth (ch_ClientID req) (ch_RedirectURI req) scope true (ch_ClientAttestation req) (ch_ClientAttestationPoP req) (ch_ClientAssertion req));
  if bool_decide (c_Type oauthClient = ClientTypePublic) && str_empty (ch_CodeChallenge req) then refuse_with OAuthErrPKCERequired else
  if str_empty (ch_CodeChallenge req) && interactionTypeOffered (ch_InteractionTypesSupported req) (InteractionType ia InteractionAuthViaWeb)
  then refuse_with OAuthErrPKCERequired else
  if negb (str_empty (ch_CodeChallenge req)) && negb (bool_decide (ch_CodeChallengeMethod req = "S256")) then refuse ErrCodeInvalidRequest 400 else
  mret oauthClient.

(** The key of the proof a request came with. *)
Definition challenge_proof (req : AuthorizationChallengeRequest) : H string :=
  if str_empty (ch_DPOP req) then refuse_with OAuthErrDPoPRequired else dpopProofThumbprint (ch_DPOP req) endpoint.

Definition newChallengeAuthContext (req : AuthorizationChallengeRequest) (source : CredentialSource) : H AuthorizationContext :=
  host ← HostFromURL public_url;
  now ← perform ONow;
  authSession ← GenerateSecureToken random 0;
  state ← GenerateSecureToken random 1;
  nonce ← GenerateSecureToken random 2;
  keyID ← GenerateSecureToken random 3;
  mret (mkContext (uuid 0) 0 (unix (now + AuthSessionTTL ia)) (ch_ClientID req) state (ch_CodeChallenge req) (ch_CodeChallengeMethod req)
          authSession "" "" (uuid 1) false [] 0 None "" "" (ch_RedirectURI req) false (cs_AuthenticSource source) "" AuthProviderOpenID4VP
          (cs_DataSource source) (cs_RemoteName source) "" keyID "" "" None
          (mkRest "" "" ("x509_san_dns:" +:+ host) [ch_Scope req] nonce None true false "" "" [] 0 "" [] "" "" "" false false 0 0 0
             None "" "" GNil "" [] [] "" [] [] "")).

(** The handle goes, the deadline is that of a [request_uri]. *)
Definition web_context (d : AuthorizationContext) (dpopThumbprint requestURI : string) (deadline : Z) : AuthorizationContext :=
  mkContext (SessionID d) (CreatedAt d) deadline (WalletClientID d) "" (CodeChallenge d) (CodeChallengeMethod d) "" (IssuerState d)
    dpopThumbprint (Code d) (Forfeited d) (RedeemedBy d) (TXCodeAttempts d) (Token d) (AccessToken d) requestURI (WalletURI d) (Consent d)
    (AuthenticSource d) (Identifier d) (AuthProvider d) (DataSource d) (RemoteName d) (RefreshToken d) (EphemeralEncryptionKeyID d)
    (VerifierResponseCode d) (RequestObjectID d) (DCQLQuery d)
    (mkRest (Status (other d)) (SourceSessionID (other d)) (ClientID (other d)) (Scopes (other d)) (AuthContext.Nonce (other d))
       (IdentityMatch (other d)) (InteractiveAuthorization (other d)) (PreAuthorized (other d)) (TXCode (other d)) (IDToken (other d))
       (AuthorizationDetails (other d)) deadline (AuthContext.Scope (other d)) (DynamicParams (other d)) (RedirectURI (other d))
       (ResponseType (other d)) (ResponseMode (other d)) (ShowCredentialDetails (other d)) (WalletFollowsRedirect (other d))
       (CodeExpiresAt (other d)) (AccessTokenExpiresAt (other d)) (RefreshTokenExpiresAt (other d)) (VerifiedClaims (other d))
       (PresentedScope (other d)) (VPToken (other d)) (PresentationSubmission (other d)) (RequestObjectNonce (other d))
       (TransactionData (other d)) (TransactionDataResponseModes (other d)) (DCQLQueryExact (other d)) (ScopeQueryIDs (other d))
       (Validations (other d)) (WalletID (other d))).

Definition webInteractionTTLSeconds : Z := requestURITTL / second.

Definition requireWebInteraction (req : AuthorizationChallengeRequest) (required dpopThumbprint : string) (source : CredentialSource) :
    H challenge_reply :=
  if str_empty (ch_CodeChallenge req) then refuse_with OAuthErrPKCERequired else
  if str_empty (ch_RedirectURI req) then refuse ErrCodeInvalidRequest 400 else
  d ← newChallengeAuthContext req source;
  let requestURI := "urn:ietf:params:oauth:request_uri:" +:+ uuid 2 in
  now ← perform ONow;
  saved ← perform (OSave (web_context d dpopThumbprint requestURI (unix (now + requestURITTL))));
  match saved with
  | Err e => fail (HStore e)
  | Ok l =>
      d ← perform (OLoad l);
      mret (WebRequired required (RequestURI d) webInteractionTTLSeconds)
  end.

Definition interactiveAuthorizationRequest (read : H AuthorizationContext) (dcql : DCQL) : H string :=
  base ← buildIssuanceAuthRequestObject cfg new_key read dcql;
  origin ← or_internal (ChallengeEndpointOrigin public_url);
  signed ← or_internal (sign_request (WithInteractiveAuthorization (ia_ResponseMode ia) origin base));
  or_internal (Marshal (JObj {["request" := JStr signed]})).

Definition set_dpop_and_query (dpopThumbprint : string) (dcql : DCQL) (d : AuthorizationContext) : AuthorizationContext :=
  mkContext (SessionID d) (CreatedAt d) (ExpiresAt d) (WalletClientID d) (State d) (CodeChallenge d) (CodeChallengeMethod d) (AuthSession d)
    (IssuerState d) dpopThumbprint (Code d) (Forfeited d) (RedeemedBy d) (TXCodeAttempts d) (Token d) (AccessToken d) (RequestURI d)
    (WalletURI d) (Consent d) (AuthenticSource d) (Identifier d) (AuthProvider d) (DataSource d) (RemoteName d) (RefreshToken d)
    (EphemeralEncryptionKeyID d) (VerifierResponseCode d) (RequestObjectID d) (Some (of_dcql dcql)) (other d).

Definition authorizationChallengeInitial (req : AuthorizationChallengeRequest) : H challenge_reply :=
  if negb (bool_decide (ch_ResponseType req = "code")) then refuse ErrCodeInvalidRequest 400 else
  if str_empty (ch_Scope req) then refuse ErrCodeInvalidRequest 400 else
  if str_empty (ch_InteractionTypesSupported req) then refuse ErrCodeInvalidRequest 400 else
  _ ← authenticateChallengeWallet req (ch_Scope req);
  '(required, source) ← interactionTypeForScope cfg (ch_Scope req);
  if negb (interactionTypeOffered (ch_InteractionTypesSupported req) required) then refuse errMissingInteractionType 400 else
  dpopThumbprint ← challenge_proof req;
  if bool_decide (required = InteractionType ia InteractionAuthViaWeb) then requireWebInteraction req required dpopThumbprint source else
  d ← newChallengeAuthContext req source;
  dcql ← or_internal (issuanceAuthDCQL cfg (ch_Scope req));
  saved ← perform (OSave (set_dpop_and_query dpopThumbprint dcql d));
  match saved with
  | Err e => fail (HStore e)
  | Ok l =>
      presentationRequest ← interactiveAuthorizationRequest (perform (OLoad l)) dcql;
      d ← perform (OLoad l);
      mret (PresentationRequired required (AuthSession d) presentationRequest)
  end.

(** *** The answer *)

Definition decodeInteractiveAuthorizationResponse (l : loc) (raw : string) : H (VPResponse * string) :=
  match envelope_of raw with
  | None => refuse ErrCodeInvalidRequest 400
  | Some (response, error) =>
      if negb (str_empty error) then refuse (if bool_decide (error ∈ walletErrorCodes) then error else ErrorAccessDenied) 400 else
      if str_empty response then refuse ErrCodeInvalidRequest 400 else
      d ← perform (OLoad l);
      key ← perform (OKey (EphemeralEncryptionKeyID d));
      match key with
      | None => server_failure
      | Some privateEphemeralJWK =>
          if negb (validateInteractiveAuthorizationJWE response) then refuse ErrCodeInvalidRequest 400 else
          match jwe_open response privateEphemeralJWK with
          | None => refuse ErrCodeInvalidRequest 400
          | Some (raw_token, state) =>
              match UnmarshalVPResponse raw_token state with
              | Err _ => refuse ErrCodeInvalidRequest 400
              | Ok vpResponse => mret (vpResponse, privateEphemeralJWK)
              end
          end
      end
  end.

Definition interactiveAuthorizationSessionTranscript (key : string) (d : AuthorizationContext) : result mdoc_error (list Z) :=
  match public_thumbprint key with
  | Some thumbprint => BuildOID4VCIIAESessionTranscript (HandoverLabel ia) endpoint (AuthContext.Nonce (other d)) (Some thumbprint)
  | None => Err MTranscript
  end.

Definition challenge_binding (audience key state : string) : issuanceAuthBinding :=
  mkBinding audience (Some (interactiveAuthorizationSessionTranscript key)) state true.

Definition interactiveAuthorizationFailure (e : flow_error) : herror :=
  match e with
  | FFault => HOAuth ErrCodeServerError 500
  | _ => HOAuth ErrCodeInvalidGrant 400
  end.
Definition presented {A} (m : F A) : H A := pbind (fun r => Ret (map_err interactiveAuthorizationFailure r)) m.

(** The code, once the handle is claimed. *)
Definition exchange_presentation (l : loc) (raw : string) : H challenge_reply :=
  '(vpResponse, privateEphemeralJWK) ← decodeInteractiveAuthorizationResponse l raw;
  audience ← or_internal (PresentationAudience ia public_url);
  d ← perform (OLoad l);
  _ ← presented (consumeIssuanceAuthPresentation (gc_flow cfg) fuel trust mdoc_verifier of_dvalue entropy l vpResponse
                   (challenge_binding audience privateEphemeralJWK (State d)));
  d ← perform (OLoad l);
  now ← perform ONow;
  d' ← perform (OLoad l);
  extended ← perform (OExtend (by_session (SessionID d')) (codeDeadlineWithin now (CreatedAt d)));
  match extended with
  | Err _ => server_failure
  | Ok _ => d ← perform (OLoad l); mret (CodeResponse (Code d))
  end.

(** The session behind a handle. *)
Definition resolve_session (authSession : string) : H loc :=
  found ← perform (OGet (by_auth_session authSession));
  match found with
  | Ok l => mret l
  | Err e => if bool_decide (e = ErrNoDocuments) then invalidSession else server_failure
  end.

(** What is checked of the request before the handle is claimed. *)
Definition check_continuation (l : loc) (req : AuthorizationChallengeRequest) : H unit :=
  d ← perform (OLoad l);
  now ← perform ONow;
  if expired (ExpiresAt d) now then invalidSession else
  d ← perform (OLoad l);
  if negb (str_empty (ch_ClientID req)) && negb (bool_decide (ch_ClientID req = WalletClientID d)) then refuse ErrCodeInvalidRequest 400 else
  if str_empty (ch_DPOP req) then refuse_with OAuthErrDPoPRequired else
  d ← perform (OLoad l);
  if str_empty (AuthSessionDPoPThumbprint d) then invalidSession else
  thumbprint ← dpopProofThumbprint (ch_DPOP req) endpoint;
  d ← perform (OLoad l);
  if negb (bool_decide (thumbprint = AuthSessionDPoPThumbprint d)) then refuse ErrCodeInvalidDPoPProof 400 else
  if str_empty (ch_OpenID4VPResponse req) then refuse ErrCodeInvalidRequest 400 else mret tt.

Definition authorizationChallengeIntermediate (req : AuthorizationChallengeRequest) : H challenge_reply :=
  l ← resolve_session (ch_AuthSession req);
  _ ← check_continuation l req;
  claimed ← perform (OClaimSession (ch_AuthSession req));
  match claimed with
  | Ok l => exchange_presentation l (ch_OpenID4VPResponse req)
  | Err e => if bool_decide (e = ErrNoDocuments) then invalidSession else server_failure
  end.

(** *** A prepared issuance *)

Definition set_key_and_query (keyID : string) (dcql : DCQL) (d : AuthorizationContext) : AuthorizationContext :=
  mkContext (SessionID d) (CreatedAt d) (ExpiresAt d) (WalletClientID d) (State d) (CodeChallenge d) (CodeChallengeMethod d) (AuthSession d)
    (IssuerState d) (AuthSessionDPoPThumbprint d) (Code d) (Forfeited d) (RedeemedBy d) (TXCodeAttempts d) (Token d) (AccessToken d) (RequestURI d)
    (WalletURI d) (Consent d) (AuthenticSource d) (Identifier d) (AuthProvider d) (DataSource d) (RemoteName d) (RefreshToken d)
    keyID (VerifierResponseCode d) (RequestObjectID d) (Some (of_dcql dcql)) (other d).

(** The document the claim installs. *)
Definition opened_context (req : AuthorizationChallengeRequest) (dpopThumbprint authSession : string) (deadline createdAt : Z)
    (d : AuthorizationContext) : AuthorizationContext :=
  set_InteractiveAuthorization true
    (mkContext (SessionID d) createdAt deadline (ch_ClientID req) (State d) (ch_CodeChallenge req) (ch_CodeChallengeMethod req) authSession
       (IssuerState d) dpopThumbprint (Code d) (Forfeited d) (RedeemedBy d) (TXCodeAttempts d) (Token d) (AccessToken d) (RequestURI d)
       (ch_RedirectURI req) (Consent d) (AuthenticSource d) (Identifier d) (AuthProvider d) (DataSource d) (RemoteName d) (RefreshToken d)
       (EphemeralEncryptionKeyID d) (VerifierResponseCode d) (RequestObjectID d) (DCQLQuery d) (other d)).

(** The prepared issuance, copied. *)
Definition resolve_prepared (issuerState : string) : H AuthorizationContext :=
  found ← perform (OGet (by_issuer_state issuerState));
  match found with
  | Err e => if bool_decide (e = ErrNoDocuments) then refuse ErrCodeInvalidGrant 400 else server_failure
  | Ok l =>
      d ← perform (OLoad l);
      now ← perform ONow;
      if expired (ExpiresAt d) now then refuse ErrCodeInvalidGrant 400 else mret d
  end.

(** What can refuse the wallet, before the handle is claimed: the interaction and
    the key of its proof. *)
Definition check_resumption (req : AuthorizationChallengeRequest) (scope : string) : H (string * string) :=
  if negb (str_empty (ch_Scope req)) && negb (bool_decide (ch_Scope req = scope)) then refuse ErrCodeInvalidScope 400 else
  _ ← authenticateChallengeWallet req scope;
  '(required, _) ← interactionTypeForScope cfg scope;
  if negb (bool_decide (required = InteractionType ia InteractionOpenID4VPPresentation)) then server_failure else
  if negb (interactionTypeOffered (ch_InteractionTypesSupported req) required) then refuse errMissingInteractionType 400 else
  dpopThumbprint ← challenge_proof req;
  mret (required, dpopThumbprint).

Definition authorizationChallengePrepared (req : AuthorizationChallengeRequest) : H challenge_reply :=
  if negb (bool_decide (ch_ResponseType req = "code")) then refuse ErrCodeInvalidRequest 400 else
  if str_empty (ch_InteractionTypesSupported req) then refuse ErrCodeInvalidRequest 400 else
  d ← resolve_prepared (ch_IssuerState req);
  scope ← first_scope (Scopes (other d));
  '(required, dpopThumbprint) ← check_resumption req scope;
  authSession ← GenerateSecureToken random 0;
  dcql ← or_internal (issuanceAuthDCQL cfg scope);
  keyID ← GenerateSecureToken random 1;
  let d := set_key_and_query keyID dcql d in
  presentationRequest ← interactiveAuthorizationRequest (mret d) dcql;
  now ← perform ONow;
  createdAt ← perform ONow;
  claimed ← perform (OClaimState (ch_IssuerState req) (opened_context req dpopThumbprint authSession (unix (now + AuthSessionTTL ia)) createdAt d));
  match claimed with
  | Err e => if bool_decide (e = ErrNoDocuments) then refuse ErrCodeInvalidGrant 400 else server_failure
  | Ok l => d ← perform (OLoad l); mret (PresentationRequired required (AuthSession d) presentationRequest)
  end.

Definition OAuthAuthorizationChallenge (req : AuthorizationChallengeRequest) : H challenge_reply :=
  if negb (ia_Enable ia) then refuse ErrCodeInvalidRequest 404 else
  if negb (str_empty (ch_AuthSession req)) && negb (str_empty (ch_IssuerState req)) then refuse ErrCodeInvalidRequest 400 else
  if negb (str_empty (ch_AuthSession req)) then authorizationChallengeIntermediate req else
  if negb (str_empty (ch_IssuerState req)) then authorizationChallengePrepared req else
  authorizationChallengeInitial req.
End endpoint.
