(* ===== verification/IssuancePreparation.v ===== *)
(** * Issuances the issuer prepares

    [PrepareIssuance] of [internal/apigw/apiv1/handlers_issuance_session.go] with
    the rules of [pkg/openid4vci/identity_match.go]: an issuer that has
    authenticated a user stores what is to be issued and a rule on the claims of
    the wallet's presentation, and hands out an offer with an [issuer_state].
    Texts and log lines are left out. *)

From S2P Require Import Prelude GoStrings GoValue Utf8 Json Dcql AuthContext AuthStore GenericCache Handlers OAuth2 TokenEndpoint PresentationDoc CredentialEndpoint PresentedClaims PresentationFlow IssuanceRequest ChallengeEndpoint.

(** The rule by claim path: the value the claim must have. *)
Abbreviation identity_match := (gmap string string).

(** A rule as the value a context keeps; it is read back as it was written. *)
Class RuleValues `{ContextViews} := {
  of_rule : identity_match → goval;
  of_rule_tests : ∀ m, rule_tests (of_rule m) ≡ₚ map_to_list m
}.

(** [IdentityMatch.Validate] *)
Definition valid_rule (m : identity_match) : bool :=
  negb (bool_decide (m = ∅)) &&
  forallb (fun path => negb (bool_decide (trim_space (to_runes path) = [])) && negb (str_empty (default "" (m !! path)))) (sort_keys m).

Record PrepareIssuanceRequest := mkPrepare { pr_Scope : string; pr_IdentityMatch : identity_match; pr_AuthenticSource : string; pr_TTLSeconds : Z }.

(** The offer: the issuer, the credential and the grant; and its deadline. *)
Record PrepareIssuanceReply := mkPrepared {
  pi_CredentialIssuer : string; pi_ConfigurationID : string; pi_OfferID : string; pi_IssuerState : string; pi_ExpiresAt : Z
}.

Definition defaultPreparedIssuanceTTLSeconds : Z := 300.
Definition maxPreparedIssuanceTTLSeconds : Z := 600.

(** A claim path as the key it is compared by. *)
Definition path_key (format claim : string) : string := Join (Ascii.ascii_of_nat 0) (authClaimPathSegments format claim).
Definition coversAll (format : string) (claims paths : list string) : bool :=
  forallb (fun path => bool_decide (path_key format path ∈ map (path_key format) claims)) paths.

Section prepare.
Context `{RuleValues} `{NetURL}.
Variable cfg : gateway_config.
(** [CredentialOffers.IssuerURL] *)
Variable offers_url : string.
Variable random : nat → option string.
Variable uuid : nat → string.

Definition validateIdentityMatchIsAskable (scope : string) (m : identity_match) : bool :=
  let paths := sort_keys m in
  if bool_decide (paths = []) then true else
  match GetOpenID4VPAuth (gc_flow cfg) scope with
  | None => false
  | Some authScopes =>
      existsb (fun authScope => match authScopes !! authScope with
                                | Some entry => coversAll (GetFormatForScope (gc_flow cfg) authScope) (AuthClaims entry) paths
                                | None => false
                                end) (sort_keys authScopes)
  end.

Definition prepared_context (req : PrepareIssuanceRequest) (source : CredentialSource) (host issuerState nonce keyID state : string) (deadline : Z) :
    AuthorizationContext :=
  mkContext (uuid 0) 0 deadline "" state "" "" "" issuerState "" (uuid 1) false [] 0 None "" "" "" false (cs_AuthenticSource source) ""
    (cs_AuthProvider source) (cs_DataSource source) (cs_RemoteName source) "" keyID "" "" None
    (mkRest "" "" ("x509_san_dns:" +:+ host) [pr_Scope req] nonce (Some (of_rule (pr_IdentityMatch req))) false false "" "" [] 0 "" [] "" "" ""
       false false 0 0 0 None "" "" GNil "" [] [] "" [] [] "").

Definition PrepareIssuance (req : PrepareIssuanceRequest) : H PrepareIssuanceReply :=
  if negb (ia_Enable (gc_ia cfg)) then refuse "interactive_authorization_disabled" 400 else
  if negb (valid_rule (pr_IdentityMatch req)) then refuse "invalid_identity_match" 400 else
  '(required, source) ← interactionTypeForScope cfg (pr_Scope req);
  if negb (bool_decide (required = InteractionType (gc_ia cfg) InteractionOpenID4VPPresentation))
  then refuse "scope_not_presentation_authenticated" 400 else
  match GetCredentialMetadata (fc_vci (gc_flow cfg)) (pr_Scope req) with
  | None => refuse "unknown_credential_configuration" 400
  | Some _ =>
      if negb (str_empty (pr_AuthenticSource req)) && negb (bool_decide (pr_AuthenticSource req = cs_AuthenticSource source))
      then refuse "authentic_source_mismatch" 403 else
      if negb (validateIdentityMatchIsAskable (pr_Scope req) (pr_IdentityMatch req)) then refuse "invalid_identity_match" 400 else
      match issuanceAuthDCQL cfg (pr_Scope req) with
      | None => refuse "scope_not_presentable" 400
      | Some _ =>
          host ← HostFromURL (PublicURL (gc_oauth cfg));
          let ttl := if bool_decide (pr_TTLSeconds req = 0) then defaultPreparedIssuanceTTLSeconds else pr_TTLSeconds req in
          if bool_decide (maxPreparedIssuanceTTLSeconds < ttl) then refuse "ttl_too_long" 400 else
          issuerState ← GenerateSecureToken random 0;
          now ← perform ONow;
          nonce ← GenerateSecureToken random 1;
          keyID ← GenerateSecureToken random 2;
          state ← GenerateSecureToken random 3;
          saved ← perform (OSave (prepared_context req source host issuerState nonce keyID state (unix (now + wrap64 (ttl * second)))));
          match saved with
          | Err e => fail (HStore e)
          | Ok l =>
              offerID ← GenerateSecureToken random 4;
              d ← perform (OLoad l);
              mret (mkPrepared offers_url (pr_Scope req) offerID issuerState (ExpiresAt d))
          end
      end
  end.
End prepare.
