(* ===== verification/IssuanceRequestFacts.v ===== *)
(** * What the queries of an issuance ask for

    The query a wallet has to answer names every credential its scope accepts and
    nothing else, constrains each by its type, and asks for every claim that is
    read from the answer ([issuance_query_exact]).  A rule the issuer prepared an
    issuance with is only accepted when the claims it tests are asked for
    ([prepared_rule_asked_for]). *)

From stdpp Require Import sorting.
From S2P Require Import Prelude GoStrings GoValue Utf8 Json MdocSchema Mdoc JsonDoc Dcql AuthContext AuthStore GenericCache Handlers HandlersSafety OAuth2 TokenEndpoint SdJwtIssue PresentationDoc CredentialEndpoint PresentedClaims PresentedClaimsFacts PresentationFlow IssuanceRequest ChallengeEndpoint IssuancePreparation.

Lemma elem_of_sort_keys {A} (m : gmap string A) k : k ∈ sort_keys m ↔ is_Some (m !! k).
Proof.
  unfold sort_keys. rewrite merge_sort_Permutation, list_elem_of_fmap. split.
  - intros ([k' v] & -> & Hkv). apply elem_of_map_to_list in Hkv. by exists v.
  - intros [v Hv]. exists (k, v). split; [done|]. by apply elem_of_map_to_list.
Qed.

Lemma requested_claims_spec entry c :
  c ∈ requested_claims entry ↔ c ∈ AuthClaims entry ∨ c ∈ map fst (DocumentClaims entry).
Proof.
  assert (c ∈ map fst (DocumentClaims entry) ↔ c ∈ merge_sort key_order (map fst (DocumentClaims entry))) as ->
    by (by rewrite merge_sort_Permutation).
  unfold requested_claims. generalize (merge_sort key_order (map fst (DocumentClaims entry))). intros l. revert c.
  generalize (AuthClaims entry). induction l as [|s l IH]; intros r c; cbn; [set_solver|].
  rewrite IH. case_bool_decide; set_solver.
Qed.

Section query.
Context `{RawText}.
Variable cfg : gateway_config.

(** What the query for one credential is. *)
Record asks_for (entry : AuthScopeEntry) (q : CredentialQuery) : Prop := {
  af_format : Format q = GetFormatForScope (gc_flow cfg) (ID q);
  af_claims : ∀ c, c ∈ AuthClaims entry ∨ c ∈ map fst (DocumentClaims entry) →
    ∃ cq, cq ∈ Claims q ∧ cq_Path cq = map Some (authClaimPathSegments (Format q) c);
  af_type : ∃ m, GetCredentialMetadata (fc_vci (gc_flow cfg)) (ID q) = Some m ∧
    (Format q = FormatMsoMdoc ∧ doctype m ≠ "" ∧ DoctypeValue (Meta q) = doctype m ∨
     Format q ∈ [FormatSDJWTVC; "vc+sd-jwt"; ""] ∧ vctIdentifier m ≠ "" ∧ VCTValues (Meta q) = [vctIdentifier m]);
  af_valid : ValidateCredentialQuery q = Ok tt;
  af_bound : RequiresCryptographicHolderBinding q = true
}.

Lemma scope_query_asks s entry q : scope_query cfg s entry = Some q → ID q = s ∧ asks_for entry q.
Proof.
  unfold scope_query. destruct (IsW3CVCFormatIdentifier _) eqn:Ew; [done|]. intros (meta & Hm & [= <-])%bind_Some.
  split; [done|]. apply bind_Some in Hm as (m & Hg & Hm).
  assert (GetFormatForScope (gc_flow cfg) s = cm_Format m) as Hf by (unfold GetFormatForScope; by rewrite Hg).
  rewrite Hf in *. apply bool_decide_eq_false in Ew.
  assert ((cm_Format m = FormatMsoMdoc ∧ doctype m ≠ "" ∧ meta = mkMetaQuery [] [] (doctype m) "" "" [] "") ∨
          (cm_Format m ∈ [FormatSDJWTVC; "vc+sd-jwt"; ""] ∧ vctIdentifier m ≠ "" ∧ meta = mkMetaQuery [vctIdentifier m] [] "" "" "" [] "")) as Hmeta.
  { case_bool_decide as Em; [|case_bool_decide as Es; [|case_bool_decide as El; [set_solver|done]]].
    - destruct (str_empty (doctype m)) eqn:Ed; [done|]. apply str_empty_false in Ed. injection Hm as <-. by left.
    - destruct (str_empty (vctIdentifier m)) eqn:Ed; [done|]. apply str_empty_false in Ed. injection Hm as <-. by right. }
  split; cbn [Format ID Claims Meta]; [done| | | |done].
  - intros c Hc%requested_claims_spec. eexists. split; [apply list_elem_of_fmap; by exists c|done].
  - exists m. split; [done|]. destruct Hmeta as [(? & ? & ->)|(? & ? & ->)]; [by left|by right].
  - unfold ValidateCredentialQuery. cbn [Raw]. unfold validate_format. cbn [Format Meta].
    rewrite bool_decide_eq_false_2 by set_solver. destruct Hmeta as [(-> & Hd & ->)|(Hs & Hd & ->)].
    + cbn. by rewrite (proj2 (str_empty_false _) Hd).
    + by rewrite bool_decide_eq_true_2.
Qed.

Lemma build_queries authScopes dcql :
  buildIssuanceAuthDCQL cfg authScopes = Some dcql →
  ∃ queries, dcql = mkDCQL (Some queries) [mkCredentialSetQuery (Some (map (fun s => Some [s]) (sort_keys authScopes))) (Some true)] ∧
    map ID queries = sort_keys authScopes ∧ Forall (fun q => ∃ entry, authScopes !! ID q = Some entry ∧ asks_for entry q) queries.
Proof.
  intros (queries & Hq & [= <-])%bind_Some. exists queries. split; [done|]. apply mapM_Some in Hq.
  assert (Forall2 (fun s q => ID q = s ∧ ∃ entry, authScopes !! s = Some entry ∧ asks_for entry q) (sort_keys authScopes) queries) as Hall.
  { eapply Forall2_impl; [exact Hq|]. intros s q (entry & He & Hs)%bind_Some. apply scope_query_asks in Hs as [-> Ha]. eauto. }
  clear Hq. induction Hall as [|s q l k [<- (entry & He & Ha)] _ [IH1 IH2]]; [done|]. cbn. rewrite IH1. split; [done|]. constructor; eauto.
Qed.

(** Nothing is dropped: what this endpoint could not verify is not in the query. *)
Lemma narrowed_all queries sets :
  Forall (fun q => Format q ≠ FormatMsoMdocZk) queries → queries ≠ [] →
  narrowed (mkDCQL (Some queries) [mkCredentialSetQuery (Some (map (fun s => Some [s]) (map ID queries))) sets]) =
    Some (mkDCQL (Some queries) [mkCredentialSetQuery (Some (map (fun s => Some [s]) (map ID queries))) (Some true)]).
Proof.
  intros Hz Hne. unfold narrowed. cbn [Credentials CredentialSets default from_option id map concat set_options Options].
  assert (List.filter (fun q => negb (bool_decide (Format q = FormatMsoMdocZk))) queries = queries) as ->.
  { apply forallb_filter_id, forallb_forall. intros q Hq%list_elem_of_In. rewrite Forall_forall in Hz. by rewrite bool_decide_eq_false_2 by auto. }
  assert (List.filter (fun q => bool_decide (ID q ∈ map ID queries)) queries = queries) as ->.
  { apply forallb_filter_id, forallb_forall. intros q Hq%list_elem_of_In. apply bool_decide_eq_true, list_elem_of_fmap. eauto. }
  rewrite app_nil_r, map_map. cbn [default from_option id].
  assert (List.filter (fun option => negb (existsb (fun id => negb (bool_decide (id ∈ map ID queries))) option)) (map (fun s => [s]) (map ID queries)) =
          map (fun s => [s]) (map ID queries)) as ->.
  { apply forallb_filter_id, forallb_forall. intros o Ho%list_elem_of_In. apply list_elem_of_fmap in Ho as (s & -> & Hs). cbn. by rewrite bool_decide_eq_true_2. }
  rewrite !map_map. by destruct queries.
Qed.

Lemma issuanceAuthDCQL_Some scope dcql :
  issuanceAuthDCQL cfg scope = Some dcql →
  ∃ authScopes queries, GetOpenID4VPAuth (gc_flow cfg) scope = Some authScopes ∧ buildIssuanceAuthDCQL cfg authScopes = Some dcql ∧
    queries ≠ [] ∧ dcql = mkDCQL (Some queries) [mkCredentialSetQuery (Some (map (fun s => Some [s]) (sort_keys authScopes))) (Some true)] ∧
    map ID queries = sort_keys authScopes ∧ Forall (fun q => ∃ entry, authScopes !! ID q = Some entry ∧ asks_for entry q) queries.
Proof.
  intros (authScopes & Ha & Hn)%bind_Some. apply bind_Some in Hn as (built & Hb & Hn). exists authScopes.
  destruct (build_queries _ _ Hb) as (queries & -> & Hid & Hall). exists queries.
  assert (queries ≠ []) as Hne by (intros ->; by cbn in Hn).
  rewrite <- Hid, narrowed_all in Hn; [|eapply Forall_impl; [exact Hall|]|done].
  - injection Hn as <-. rewrite Hid in *. split_and!; done.
  - intros q (entry & _ & Hq). destruct (af_type _ _ Hq) as (m & _ & [(-> & _)|(Hs & _)]); [done|]. intros E. rewrite E in Hs. set_solver.
Qed.

(** C6: The query an exchange is opened with is the one of the browser's flow, whole: one query for each credential the
    scope accepts, in one set that must be answered, each with the credential as the only way to answer it.  Every query
    passes the validation of queries, names the type of its credential, asks for each claim that identifies the person
    or is copied into a document, and requires the holder's proof. *)
Theorem issuance_query_exact scope dcql :
  issuanceAuthDCQL cfg scope = Some dcql →
  ∃ authScopes queries, GetOpenID4VPAuth (gc_flow cfg) scope = Some authScopes ∧ buildIssuanceAuthDCQL cfg authScopes = Some dcql ∧
    Credentials dcql = Some queries ∧ queries ≠ [] ∧ (∀ s, s ∈ map ID queries ↔ is_Some (authScopes !! s)) ∧
    (∀ q, q ∈ queries → ∃ entry, authScopes !! ID q = Some entry ∧ asks_for entry q) ∧
    ∃ set, CredentialSets dcql = [set] ∧ IsRequired set = true ∧ set_options set = map (fun q => [ID q]) queries.
Proof.
  intros (authScopes & queries & Ha & Hb & Hne & -> & Hid & Hall)%issuanceAuthDCQL_Some. exists authScopes, queries.
  split_and!; try done.
  - intros s. rewrite Hid. apply elem_of_sort_keys.
  - by rewrite Forall_forall in Hall.
  - eexists. split_and!; [done|done|]. unfold set_options. cbn. rewrite <- Hid, !map_map. done.
Qed.

(** ** Prepared rules *)

Lemma coversAll_asked format claims paths p :
  coversAll format claims paths = true → p ∈ paths → ∃ c, c ∈ claims ∧ path_key format p = path_key format c.
Proof.
  unfold coversAll. rewrite forallb_forall. intros Hc Hp. apply list_elem_of_In, Hc, bool_decide_eq_true, list_elem_of_fmap in Hp as (c & E & Hin).
  eauto.
Qed.

(** The texts of a path have no NUL byte, so their key tells them apart. *)
Lemma path_key_inj format p c :
  has_byte (Ascii.ascii_of_nat 0) p = false → has_byte (Ascii.ascii_of_nat 0) c = false →
  path_key format p = path_key format c → authClaimPathSegments format p = authClaimPathSegments format c.
Proof.
  assert (∀ s a b, has_byte (Ascii.ascii_of_nat 0) s = false → cut_last "." s = Some (a, b) →
    has_byte (Ascii.ascii_of_nat 0) a = false ∧ has_byte (Ascii.ascii_of_nat 0) b = false) as Hcut.
  { intros s. induction s as [|d s IH]; [done|]. intros a b. cbn [has_byte cut_last]. intros [Hd Hs]%orb_false_iff.
    destruct (cut_last "." s) as [[a' b']|]; [intros [= <- <-]; destruct (IH _ _ Hs eq_refl); cbn; by rewrite Hd|].
    destruct (bool_decide (d = "."%char)); [|done]. by intros [= <- <-]. }
  assert (∀ s, has_byte (Ascii.ascii_of_nat 0) s = false → authClaimPathSegments format s ≠ [] ∧
    Forall (fun w => has_byte (Ascii.ascii_of_nat 0) w = false) (authClaimPathSegments format s)) as Hseg.
  { intros s Hs. unfold authClaimPathSegments. case_bool_decide.
    - destruct (cut_last "." s) as [[a b]|] eqn:E; [destruct (Hcut _ _ _ Hs E), (_ || _)|]; split; try done; repeat first [done|constructor].
    - split; [apply Split_nonempty|]. rewrite Forall_forall. intros w Hw. rewrite <- (Join_Split "." s) in Hs. revert Hs Hw.
      generalize (Split "." s). intros l. induction l as [|x l IH]; [set_solver|]. destruct l as [|y l].
      + cbn. by intros ? ->%list_elem_of_singleton.
      + change (Join "." (x :: y :: l)) with (x +:+ String "." (Join "." (y :: l))). rewrite has_byte_app. cbn [has_byte].
        intros [Hx [_ Hr]%orb_false_iff]%orb_false_iff [->|Hw]%elem_of_cons; auto. }
  intros Hp Hc. unfold path_key. intros E. destruct (Hseg _ Hp) as [Hp1 Hp2], (Hseg _ Hc) as [Hc1 Hc2].
  by rewrite <- (Split_Join _ _ Hp1 Hp2), E, (Split_Join _ _ Hc1 Hc2).
Qed.

Definition no_nul (s : string) : Prop := has_byte (Ascii.ascii_of_nat 0) s = false.

(** Every claim of the rule has the key of a claim [c] that one query of the scope
    asks for; without NUL bytes it is that claim. *)
Definition rule_asked (dcql : DCQL) (m : identity_match) : Prop :=
  ∃ q, q ∈ default [] (Credentials dcql) ∧
    ∀ p, is_Some (m !! p) → ∃ cq c, cq ∈ Claims q ∧ cq_Path cq = map Some (authClaimPathSegments (Format q) c) ∧
      path_key (Format q) p = path_key (Format q) c ∧
      (no_nul p → no_nul c → cq_Path cq = map Some (authClaimPathSegments (Format q) p)).

Lemma askable_asked scope dcql m :
  issuanceAuthDCQL cfg scope = Some dcql → m ≠ ∅ → validateIdentityMatchIsAskable cfg scope m = true → rule_asked dcql m.
Proof.
  intros (authScopes & queries & Ha & _ & _ & -> & Hid & Hall)%issuanceAuthDCQL_Some Hm Hv. unfold validateIdentityMatchIsAskable in Hv.
  rewrite Ha, bool_decide_eq_false_2 in Hv.
  2:{ intros E. apply Hm, map_eq. intros k. rewrite lookup_empty. apply eq_None_not_Some. rewrite <- elem_of_sort_keys, E. set_solver. }
  apply existsb_exists in Hv as (s & Hs%list_elem_of_In & Hv). destruct (authScopes !! s) as [entry|] eqn:Ee; [|done].
  rewrite <- Hid in Hs. apply list_elem_of_fmap in Hs as (q & -> & Hq). exists q. split; [done|]. intros p Hin.
  rewrite Forall_forall in Hall. destruct (Hall _ Hq) as (entry' & Ee' & Hask). assert (entry' = entry) as -> by congruence.
  destruct (coversAll_asked _ _ _ p Hv) as (c & Hcin & Ek); [by apply elem_of_sort_keys|].
  destruct (af_claims _ _ Hask c) as (cq & Hcq & Epath); [by left|]. exists cq, c. rewrite (af_format _ _ Hask) in *.
  split_and!; [done..|]. intros Hp Hc. rewrite Epath. f_equal. symmetry. by apply path_key_inj.
Qed.

Lemma interactionTypeForScope_source Φ scope log :
  watch Φ log (interactionTypeForScope cfg scope) (ok_then (fun _ rs => snd rs ∈ LookupCredentialSources cfg scope ∧
    (fst rs = InteractionType (gc_ia cfg) InteractionOpenID4VPPresentation → cs_AuthProvider (snd rs) = AuthProviderOpenID4VP))).
Proof.
  unfold interactionTypeForScope. destruct (gc_Selector cfg) as [sel|]; [|done]. unfold Select.
  destruct (find _ _) as [source|] eqn:Ef; [|done]. apply find_some in Ef as [Hin%list_elem_of_In _]. cbv zeta.
  case_bool_decide as Eo; [by destruct (Offers _ _)|]. case_bool_decide; [|done]. destruct (Offers _ _); [|done].
  split; [done|]. cbn. unfold InteractionType. by intros ?%append_inj_l.
Qed.

Lemma watch_token Φ random n log : watch Φ log (GenerateSecureToken random n) (ok_then (fun _ _ => True)).
Proof. unfold GenerateSecureToken. by destruct (random n). Qed.

Section prepared.
Context `{RuleValues} `{NetURL}.
Variable req : PrepareIssuanceRequest.

Definition prepared_ttl : Z :=
  if bool_decide (pr_TTLSeconds req = 0) then defaultPreparedIssuanceTTLSeconds else pr_TTLSeconds req.

(** The document of a prepared issuance, stored after the calls of [log]. *)
Record prepared_document (log : list event) (d : AuthorizationContext) : Prop := {
  pd_rule : pr_IdentityMatch req ≠ ∅ ∧ ∀ p v, pr_IdentityMatch req !! p = Some v → v ≠ "";
  pd_asked : ∃ dcql, issuanceAuthDCQL cfg (pr_Scope req) = Some dcql ∧ rule_asked dcql (pr_IdentityMatch req);
  pd_kept : Scopes (other d) = [pr_Scope req] ∧ IdentityMatch (other d) = Some (of_rule (pr_IdentityMatch req));
  pd_credential : is_Some (GetCredentialMetadata (fc_vci (gc_flow cfg)) (pr_Scope req));
  pd_source : ∃ source, source ∈ LookupCredentialSources cfg (pr_Scope req) ∧ cs_AuthProvider source = AuthProviderOpenID4VP ∧
    AuthenticSource d = cs_AuthenticSource source ∧
    (pr_AuthenticSource req ≠ "" → pr_AuthenticSource req = AuthenticSource d);
  pd_deadline : ∃ now, call ONow now ∈ log ∧
    (0 ≤ pr_TTLSeconds req → 0 < prepared_ttl ≤ 600 ∧ ExpiresAt d = unix now + prepared_ttl)
}.

(** Nothing else is brought into the store. *)
Definition prepares (log : list event) (o : op) : Prop :=
  match o with OSave d => prepared_document log d | _ => brings o = false end.

Lemma prepared_deadline now :
  prepared_ttl ≤ 600 → 0 ≤ pr_TTLSeconds req → 0 < prepared_ttl ≤ 600 ∧ unix (now + wrap64 (prepared_ttl * second)) = unix now + prepared_ttl.
Proof.
  intros Hle Hpos. assert (0 < prepared_ttl ≤ 600) as Ht.
  { revert Hle. unfold prepared_ttl, defaultPreparedIssuanceTTLSeconds. case_bool_decide; lia. }
  split; [done|]. rewrite wrap64_id by (unfold in_int64, second; lia). unfold unix. by rewrite Z.div_add.
Qed.

(** C7: An issuance is only prepared under a rule its presentation can be tested against, whatever the store answers.
    The one document that is brought into the store keeps the scope and the rule of the request; the rule names at least
    one claim, every claim it names has a value to be compared with, and one query of those the wallet will be sent asks
    for all of them, compared by the key of their path, which tells paths without NUL bytes apart; the scope is a
    credential this issuer is configured with, from the source the scope resolves to; and the deadline that is stored is
    the clock's second plus the lifetime asked for, at most ten minutes (the request's own validation refuses a negative
    one).  The offer that is returned carries the handle of the stored document. *)
Theorem prepared_rule_asked_for offers_url random uuid :
  watch prepares [] (PrepareIssuance cfg offers_url random uuid req) (ok_then (fun log reply =>
    ∃ d l d', call (OSave d) (Ok l) ∈ log ∧ pi_IssuerState reply = IssuerState d ∧ pi_ConfigurationID reply = pr_Scope req ∧
      call (OLoad l) d' ∈ log ∧ pi_ExpiresAt reply = ExpiresAt d')).
Proof.
  unfold PrepareIssuance. destruct (negb (ia_Enable _)); [done|].
  destruct (valid_rule _) eqn:Ev; [|done]. cbn [negb]. apply andb_true_iff in Ev as [Hne%negb_true_iff%bool_decide_eq_false Hval].
  eapply watch_bind; [apply interactionTypeForScope_source|]. intros log [required source] _ [Hsrc Hprov]. cbn [fst snd] in *.
  destruct (bool_decide_reflect (required = InteractionType (gc_ia cfg) InteractionOpenID4VPPresentation)) as [Er|]; [|done].
  cbn [negb]. destruct (GetCredentialMetadata _ _) eqn:Em; [|done]. destruct (_ && _) eqn:Eas; [done|].
  pose proof (checked_unless_empty _ _ Eas) as Has. clear Eas.
  destruct (validateIdentityMatchIsAskable _ _ _) eqn:Eask; [|done]. cbn [negb]. destruct (issuanceAuthDCQL _ _) as [dcql|] eqn:Eq; [|done].
  eapply (watch_bind _ _ _ _ (fun _ _ => True)).
  { unfold HostFromURL. destruct (url_Parse _); [|done]. by destruct (str_empty _). }
  intros log1 host _ _. cbv zeta. fold prepared_ttl. destruct (bool_decide_reflect (maxPreparedIssuanceTTLSeconds < prepared_ttl)) as [|Ettl]; [done|].
  eapply watch_bind; [apply watch_token|]. intros log2 issuerState _ _. apply watch_perform; [done|]. intros now.
  eapply watch_bind; [apply watch_token|]. intros log3 nonce Hl3 _. eapply watch_bind; [apply watch_token|]. intros log4 keyID Hl4 _.
  eapply watch_bind; [apply watch_token|]. intros log5 state Hl5 _. apply watch_perform.
  - split; cbn [AuthContext.other AuthenticSource ExpiresAt prepared_context]; try done.
    + split; [done|]. intros p v Hv. rewrite forallb_forall in Hval. specialize (Hval p).
      rewrite <- list_elem_of_In, elem_of_sort_keys, Hv in Hval.
      apply andb_true_iff in Hval as [_ Hval%negb_true_iff%str_empty_false]; [done|by exists v].
    + exists dcql. split; [done|]. by eapply askable_asked.
    + exists source. auto.
    + exists now. split; [|apply prepared_deadline; unfold maxPreparedIssuanceTTLSeconds in Ettl; lia].
      apply Hl5, Hl4, Hl3. apply elem_of_app. right. constructor.
  - intros [l|e]; [|done]. eapply watch_bind; [apply watch_token|]. intros log6 offerID Hl6 _. apply watch_perform; [done|].
    intros d'. cbn. eexists _, l, d'. split.
    { apply elem_of_app. left. apply Hl6, elem_of_app. right. constructor. }
    split_and!; [done..| |done]. apply elem_of_app. right. constructor.
Qed.
End prepared.
End query.
