(* ===== verification/ChallengeSafety.v ===== *)
(** * What the challenge endpoint answers, and once

    Two parts: handles, then the grounds of a code.  Whatever requests to the challenge endpoint interleave with each other and with
    the rest of the system, an [auth_session] is exchanged for an authorization
    code at most once, and an [issuer_state] for an exchange at most once. *)

From stdpp Require Import relations.
From S2P Require Import Prelude Bytes GoStrings GoValue Base64 Utf8 Json Jwt SdJwt SdJwtVerify SdJwtIssue TokenStatusListCWT Cose MdocSchema Mdoc MdocDevice Dcql ClaimPaths Derivations AuxiliaryData OAuth2 AuthContext AuthStore AuthStoreSteps GenericCache IssuerClient Handlers HandlersSafety TokenEndpoint TokenSafety KeyProofs PresentationDoc CredentialRequest CredentialEndpoint VpToken PresentedClaims PresentedClaimsFacts PresentationFlow PresentationSafety IssuanceRequest ChallengeEndpoint.

(** ** What a claim does to the store *)

Lemma ClaimAuthSession_inv ttl now h s s' l :
  ClaimAuthSession ttl now h s = (s', Ok l) →
  h ≠ "" ∧ (l < next s')%nat ∧ AuthSession (deref s' l) = "" ∧
  ∃ sid it it', indices s !! index_key "auth_session" h = Some sid ∧ cache s !! sid = Some it ∧ AuthSession (deref s (item_doc it)) = h ∧
    deref s' l = set_AuthSession "" (deref s (item_doc it)) ∧ indices s' !! index_key "auth_session" h = None ∧
    cache s' !! sid = Some it' ∧ AuthSession (deref s' (item_doc it')) = "".
Proof.
  unfold ClaimAuthSession. destruct (str_empty h) eqn:Eh; [done|]. apply str_empty_false in Eh. unfold claimIndexedHandle.
  intros (s2 & sid & [-> Hi]%resolve_index_inv & H2)%M_bind_Ok.
  apply M_bind_Ok in H2 as (s3 & l0 & (it & Hit & -> & ->)%claim_item_inv & H3).
  run H3. destruct (bool_decide _) eqn:Er; [|done]. apply bool_decide_eq_true in Er. cbn in H3. injection H3 as <- <-.
  split_and!; [done|cbn; lia|unfold deref; cbn; rewrite lookup_insert_ne by lia; by rewrite lookup_insert_eq|].
  exists sid, it. eexists. split_and!; [done|done|done| | | |].
  - unfold deref. cbn. rewrite lookup_insert_ne by lia. by rewrite lookup_insert_eq.
  - cbn. apply lookup_delete_eq.
  - cbn. by rewrite lookup_insert_eq.
  - unfold deref. cbn. by rewrite lookup_insert_eq.
Qed.

Lemma ClaimIssuerState_inv ttl nested_valid now h d s s' l :
  wf s → (lo ← alloc d; ClaimIssuerState ttl nested_valid now h (Some lo)) s = (s', Ok l) →
  h ≠ "" ∧ (l < next s')%nat ∧ deref s' l = set_IssuerState "" d ∧
  ∃ it it', indices s !! index_key "issuer_state" h = Some (SessionID d) ∧ cache s !! SessionID d = Some it ∧
    IssuerState (deref s (item_doc it)) = h ∧ indices s' !! index_key "issuer_state" h = None ∧
    cache s' !! SessionID d = Some it' ∧ deref s' (item_doc it') = set_IssuerState "" d.
Proof.
  intros Hwf. set (s1 := fst (alloc d s)). change ((alloc d ≫= ?k) s) with (k (next s) s1).
  assert (deref s1 (next s) = d) as Ed by (unfold deref; cbn; by rewrite lookup_insert_eq).
  unfold ClaimIssuerState. destruct (str_empty h) eqn:Eh; [done|]. apply str_empty_false in Eh.
  intros (s2 & o & [= <- <-] & H2)%M_bind_Ok. rewrite Ed in H2.
  destruct (str_empty (SessionID d)); [done|]. destruct (negb _); [done|].
  apply M_bind_Ok in H2 as (s2 & sid & [-> Hi]%resolve_index_inv & H2).
  destruct (bool_decide_reflect (sid = SessionID d)) as [->|]; [|done]. cbn [negb] in H2.
  apply M_bind_Ok in H2 as (s3 & l0 & (it & Hit & -> & ->)%claim_item_inv & H3).
  run H3. destruct (bool_decide _) eqn:Er; [|done]. apply bool_decide_eq_true in Er. cbn in H3. injection H3 as <- <-.
  assert (deref s1 (item_doc it) = deref s (item_doc it)) as Eit.
  { unfold deref. cbn. rewrite lookup_insert_ne; [done|]. pose proof (Hwf _ _ Hit). lia. }
  split_and!; [done|cbn; lia|unfold deref; cbn; by rewrite lookup_insert_eq|]. exists it. eexists. split_and!; [done|done| | | |].
  - rewrite <- Eit. exact Er.
  - cbn. apply (clear_put HIssuerState h); [done|by apply not_eq_sym|]. apply lookup_delete_eq.
  - cbn. by rewrite lookup_insert_eq.
  - unfold deref. cbn. rewrite lookup_insert_ne by lia. by rewrite lookup_insert_eq.
Qed.

(** ** One exchange of a handle *)

#[export] Instance handle_eq_dec : EqDecision handle.
Proof. solve_decision. Defined.

Section handle.
Variable f : handle.
(** The handle and the session it belongs to. *)
Variable h sid0 : string.
Hypothesis h_nonempty : h ≠ "".
(** Refresh tokens are not handles of this endpoint. *)
Hypothesis f_challenge : f ≠ HRefreshToken.

(** A document with the handle is the session's, and none has it once it is spent;
    one with an [issuer_state] has no [auth_session] yet. *)
Definition handle_doc (b : bool) (sid : string) (d : AuthorizationContext) : Prop :=
  SessionID d = sid ∧ (read_handle f d = h → b = false ∧ sid = sid0 ∧ (f = HIssuerState → AuthSession d = "")).
Definition without_handle (_ : unit) (d : AuthorizationContext) : Prop := read_handle f d ≠ h.
Definition handle_key : string := index_key (handle_name f) h.
Definition handle_session (b : bool) (sid : string) : Prop := b = false ∧ sid = sid0.
Definition handle_inv (b : bool) (s : store) : Prop := holds (handle_doc b) handle_key (handle_session b) s.

Lemma handle_doc_edit b sid d d' : edit d d' → handle_doc b sid d → handle_doc b sid d'.
Proof using h_nonempty. unfold handle_doc. clear f_challenge. intros [] [Hs Hr]; (split; [done|]); destruct f; cbn in *; try tauto; intros E; by destruct h_nonempty. Qed.
Lemma without_handle_edit k d d' : edit d d' → without_handle k d → without_handle k d'.
Proof using h_nonempty. intros He. exact (lacks_edit f h h_nonempty "" d d' He). Qed.
Lemma handle_doc_index b sid d : handle_doc b sid d → handle_key ∈ index_keys d → handle_session b (SessionID d).
Proof using h_nonempty. intros [-> Hd] Hk%index_key_handle; [|done]. destruct (Hd Hk) as (-> & -> & _). by split. Qed.
Lemma without_doc b d : read_handle f d ≠ h → handle_doc b (SessionID d) d.
Proof. by split. Qed.

Definition handle_learn (Γ : knowledge unit) (o : op) : answer o → knowledge unit :=
  match o return answer o → knowledge unit with
  | OClaimSession _ => fun r => match r with Ok l => [(l, tt)] | Err _ => [] end
  | _ => fun _ => []
  end.
Definition keeps_handles (g : AuthorizationContext → AuthorizationContext) : Prop :=
  ∀ d, SessionID (g d) = SessionID d ∧ read_handle f (g d) = read_handle f d.
Definition handle_safe (Γ : knowledge unit) (o : op) : Prop :=
  match o with
  | OAssign l g => (l, tt) ∈ Γ ∧ keeps_handles g
  | OUpdate l => (l, tt) ∈ Γ
  | OSave d | ORotate _ d => read_handle f d ≠ h
  | OClaimState _ d => read_handle f (set_IssuerState "" d) ≠ h
  | _ => True
  end.
Definition handle_spends (o : op) : answer o → bool :=
  match o return answer o → bool with
  | OClaimSession h' => fun r => bool_decide (f = HAuthSession) && (is_ok r && bool_decide (h' = h))
  | OClaimState h' _ => fun r => bool_decide (f = HIssuerState) && (is_ok r && bool_decide (h' = h))
  | _ => fun _ => false
  end.

Variable nested_valid : goval → bool.

Lemma handle_allowed b Γ s o : truths without_handle Γ s → handle_safe Γ o → op_allowed (handle_doc b) (without_handle tt) s o.
Proof.
  intros Ht Hs. destruct o; cbn in *; try done.
  - destruct Hs as [Hl Hg]. destruct (Hg (deref s l)) as [E1 E2]. apply (truth_in _ _ _ _ _ Ht) in Hl as [_ Hl].
    unfold without_handle in *. split; [|by rewrite E2]. intros sid [E _]. split; [congruence|]. rewrite E2. by intros ?%Hl.
  - apply (truth_in _ _ _ _ _ Ht) in Hs as [Hn Hl]. by split.
Qed.

(** The document that was replaced carried the handle, the one in its place does not. *)
Lemma handle_spent b s s' sid it it' :
  handle_inv b s → handle_inv b s' → cache s !! sid = Some it → read_handle f (deref s (item_doc it)) = h →
  cache s' !! sid = Some it' → read_handle f (deref s' (item_doc it')) ≠ h → indices s' !! handle_key = None →
  b = false ∧ handle_inv true s'.
Proof.
  intros [Hc _] [Hc' Hi'] Hit Hh Hit' Hh' Hk. destruct (Hc _ _ Hit) as [_ [_ Hd]]. destruct (Hd Hh) as (-> & -> & _). split; [done|].
  split; [|intros sid E; congruence]. intros sid it2 Hit2. destruct (Hc' _ _ Hit2) as [Hn [Hs Hd2]]. split; [done|]. split; [done|].
  intros E. destruct (Hd2 E) as (_ & -> & _). assert (it2 = it') as -> by congruence. done.
Qed.

Lemma handle_inv_wf b s : handle_inv b s → wf s.
Proof. intros [Hc _] sid it Hit. apply (Hc _ _ Hit). Qed.

Lemma handle_op_step b now o w Γ w' r :
  handle_inv b (w_auth w) → truths without_handle Γ (w_auth w) → handle_safe Γ o → run_op nested_valid now o w = (w', r) →
  handle_inv (b || handle_spends o r) (w_auth w') ∧ (handle_spends o r = true → b = false) ∧
  (∀ Γ', truths without_handle Γ' (w_auth w) → truths without_handle Γ' (w_auth w')) ∧
  truths without_handle (handle_learn Γ o r) (w_auth w').
Proof using h_nonempty f_challenge.
  intros Hi Ht Hs Hr.
  assert (∀ k, keeps (handle_doc b) (without_handle k) handle_key (handle_session b) (w_auth w) (w_auth w')) as Hk.
  { intros []. replace w' with (fst (run_op nested_valid now o w)) by (by rewrite Hr).
    apply run_op_keeps; [apply handle_doc_edit|apply without_handle_edit|apply handle_doc_index|done|by eapply handle_allowed]. }
  assert (handle_inv b (w_auth w')) as Hi' by apply (Hk tt).
  assert (∀ Γ', truths without_handle Γ' (w_auth w) → truths without_handle Γ' (w_auth w')) as Hkeep by (by eapply truths_keep).
  destruct o; cbn [handle_spends handle_learn]; rewrite ?orb_false_r; try (split_and!; [done..|constructor]).
  - destruct r as [l|e]; cbn [is_ok andb]; rewrite ?andb_false_r, ?orb_false_r; [|split_and!; [done..|constructor]].
    cbn [run_op] in Hr. unfold on_auth in Hr. destruct (ClaimAuthSession _ _ _ _) as [s' r'] eqn:E. injection Hr as <- ->.
    cbn [w_auth with_auth] in *. apply ClaimAuthSession_inv in E as (Hne & Hn & El & sid & it & it' & Hx & Hit & Hh & Ed & Hx' & Hit' & Hh').
    split; [|split; [|split; [done|]]].
    3:{ constructor; [|constructor]. split; [done|]. cbn. unfold without_handle. intros Ew. rewrite Ed in Ew.
        destruct (proj1 Hi _ _ Hit) as [_ [_ Hd]]. revert f_challenge Ew Hd. destruct f; cbn; [congruence| |done]. intros _ Ew Hd.
        destruct (Hd Ew) as (_ & _ & Hz). specialize (Hz eq_refl). congruence. }
    + destruct (bool_decide_reflect (f = HAuthSession)) as [Ef|]; cbn [andb]; [|by rewrite orb_false_r].
      destruct (bool_decide_reflect (authSession = h)) as [->|]; [|by rewrite orb_false_r]. rewrite orb_true_r.
      apply (handle_spent b (w_auth w) s' sid it it'); try done; unfold handle_key; rewrite ?Ef; cbn; congruence.
    + intros [Ef%bool_decide_eq_true ->%bool_decide_eq_true]%andb_true_iff.
      apply (handle_spent b (w_auth w) s' sid it it'); try done; unfold handle_key; rewrite ?Ef; cbn; congruence.
  - destruct r as [l|e]; cbn [is_ok andb]; rewrite ?andb_false_r, ?orb_false_r; [|split_and!; [done..|constructor]].
    destruct (bool_decide_reflect (f = HIssuerState)) as [Ef|]; cbn [andb]; [|rewrite orb_false_r; split_and!; [done..|constructor]].
    destruct (bool_decide_reflect (issuerState = h)) as [->|]; [rewrite orb_true_r|rewrite orb_false_r; split_and!; [done..|constructor]].
    cbn [run_op] in Hr. unfold on_auth in Hr. destruct ((alloc opened ≫= _) _) as [s' r'] eqn:E. injection Hr as <- ->.
    cbn [w_auth with_auth] in *. apply ClaimIssuerState_inv in E as (_ & _ & _ & it & it' & _ & Hit & Hh & Hx' & Hit' & Ed'); [|by eapply handle_inv_wf].
    assert (b = false ∧ handle_inv true s') as [Hb Hinv]; [|split_and!; [done..|constructor]].
    apply (handle_spent b (w_auth w) s' (SessionID opened) it it'); try done; unfold handle_key; rewrite ?Ef; cbn; rewrite ?Ed'; cbn; done.
Qed.

(** What the rest of the system respects: it stores no document with the handle,
    which a handler that kept a pointer across the claim would do. *)
Definition handle_env (w : world) (e : env_action) : Prop :=
  match e with
  | EStore a =>
      match a with
      | ASave l | AUpdate l | ARotate _ l | AClaimIssuer _ l => read_handle f (deref (w_auth w) l) ≠ h
      | APoke l d =>
          let d0 := deref (w_auth w) l in
          SessionID d = SessionID d0 ∧ (read_handle f d = h → read_handle f d0 = h ∧ (AuthSession d0 = "" → AuthSession d = ""))
      | AResume _ r => r_AuthSession r ≠ h ∧ f = HAuthSession
      | _ => True
      end
  | _ => True
  end.

Lemma handle_env_allowed b w a : handle_env w (EStore a) → allowed (handle_doc b) (without_handle tt) (w_auth w) a.
Proof using h_nonempty.
  clear f_challenge. destruct a; cbn [allowed handle_env]; intros Ha; try done; try (by apply without_doc).
  - split; [done|]. intros E. destruct f; cbn in *; done.
  - destruct Ha as [Hr Ef]. unfold without_handle. rewrite Ef. split; [|done]. intros sid d [E _]. split; [done|]. rewrite Ef. cbn. by intros ?.
  - destruct Ha as [E Hr]. unfold handle_doc, without_handle. rewrite E. naive_solver.
Qed.

Lemma handle_env_step b now e w :
  handle_inv b (w_auth w) → env_valid w e → handle_env w e →
  handle_inv b (w_auth (exec_env nested_valid now e w)) ∧
  ∀ Γ, truths without_handle Γ (w_auth w) → truths without_handle Γ (w_auth (exec_env nested_valid now e w)).
Proof using h_nonempty.
  clear f_challenge. intros Hi Hv He.
  assert (∀ k, keeps (handle_doc b) (without_handle k) handle_key (handle_session b) (w_auth w) (w_auth (exec_env nested_valid now e w))) as Hk.
  { intros []. destruct e as [a|d|a|a|a|a]; cbn [exec_env w_auth]; [|by apply holds_alloc|by apply keeps_refl..].
    apply (exec_keeps _ _ _ _ (handle_doc_edit b) (without_handle_edit tt) (handle_doc_index b) AuthContextTTL nested_valid now a);
      [done|by apply handle_env_allowed|done]. }
  split; [apply (Hk tt)|by eapply truths_keep].
Qed.
End handle.

(** ** The endpoint *)

Section endpoint.
Context `{JSON} `{Arch} `{Hashes} `{Sig : Signatures} `{!SdEnv} `{TxJSON} `{Text} `{Countries} `{LocalTime} `{Times} `{NumberText}.
Context `{CBORRaw} `{CoseVerify} `{MdocCBOR} `{ResponseCBOR} `{FlowEnv} `{QueryValues} `{RequestEnv} `{ChallengeEnv}.
Context `{NetURL} `{NetAddr} `{ProofParser} `{AssertionParser}.
Variable cfg : gateway_config.
Variable evaluator : option (string → string → string → option attestation).
Variable policy : string → string → string → bool.
Variable fuel : nat.
Variable trust : Z → JWTTrustVerifier.
Variable mdoc_verifier : option Verifier.
Variable of_dvalue : dvalue → pvalue.
Variable entropy : Entropy.

(** *** Parts that only look *)

Lemma authenticateChallengeWallet_quiet req scope : quiet (authenticateChallengeWallet cfg evaluator policy req scope).
Proof. unfold authenticateChallengeWallet, authenticateOAuthClient, carried_attestation. quiet_walk; try apply evaluate_quiet; quiet_walk. Qed.
Lemma interactionTypeForScope_quiet scope : quiet (interactionTypeForScope cfg scope).
Proof. unfold interactionTypeForScope. quiet_walk. Qed.
Lemma challenge_proof_quiet req : quiet (challenge_proof cfg req).
Proof. unfold challenge_proof. case_match; [done|apply dpopProofThumbprint_quiet]. Qed.
Lemma newChallengeAuthContext_quiet random uuid req source : quiet (newChallengeAuthContext cfg random uuid req source).
Proof. unfold newChallengeAuthContext, HostFromURL. quiet_walk; apply GenerateSecureToken_quiet. Qed.
Lemma or_internal_quiet {A} (o : option A) : quiet (or_internal o).
Proof. by destruct o. Qed.
Lemma interactiveAuthorizationRequest_quiet new_key read dcql : quiet read → quiet (interactiveAuthorizationRequest cfg new_key read dcql).
Proof.
  intros Hr. unfold interactiveAuthorizationRequest, buildIssuanceAuthRequestObject, EphemeralEncryptionKey, ephemeralKeyPair.
  quiet_walk; first [apply or_internal_quiet|done].
Qed.
Lemma resolve_session_quiet h : quiet (resolve_session h).
Proof. unfold resolve_session, invalidSession, server_failure. quiet_walk. Qed.
Lemma check_continuation_quiet l req : quiet (check_continuation cfg l req).
Proof. unfold check_continuation, invalidSession. quiet_walk; apply dpopProofThumbprint_quiet. Qed.
Lemma resolve_prepared_quiet h : quiet (resolve_prepared h).
Proof. unfold resolve_prepared, server_failure. quiet_walk. Qed.
Lemma check_resumption_quiet req scope : quiet (check_resumption cfg evaluator policy req scope).
Proof.
  unfold check_resumption, server_failure.
  quiet_walk; first [apply authenticateChallengeWallet_quiet|apply interactionTypeForScope_quiet|apply challenge_proof_quiet].
Qed.
Lemma decode_quiet l raw : quiet (decodeInteractiveAuthorizationResponse l raw).
Proof. unfold decodeInteractiveAuthorizationResponse, server_failure. quiet_walk. Qed.

(** The drawn handle of a new exchange. *)
Lemma newChallengeAuthContext_handles random uuid req source :
  returns (newChallengeAuthContext cfg random uuid req source) (fun d => random 0%nat = Some (AuthSession d) ∧ IssuerState d = "").
Proof.
  unfold newChallengeAuthContext, HostFromURL, GenerateSecureToken. destruct (url_Parse _) as [u|]; [|done]. destruct (str_empty _); [done|].
  cbn. intros now. destruct (random 0%nat) as [v|]; [|done]. by destruct (random 1%nat), (random 2%nat), (random 3%nat).
Qed.

Section once.
Variable f : handle.
Variable h : string.
Abbreviation tamed := (tame (without_handle f h) handle_learn (handle_safe f h)).

Lemma handle_quiet_safe Γ o : brings o = false → handle_safe f h Γ o.
Proof. by destruct o. Qed.

Ltac quietly L := apply (tame_quiet_bind _ _ _ handle_quiet_safe); [first [solve [apply L; quiet_walk]|quiet_walk]|
   let Γ' := fresh "Γ" in let a := fresh "a" in let Hs := fresh "Hsub" in intros Γ' a Hs].

(** A part that only looks, and what it can return. *)
Lemma tame_returns_bind {E A B} (m : handler E A) (k : A → handler E B) (R : A → Prop) Q Γ :
  quiet m → returns m R → (∀ Γ' a, Γ ⊆ Γ' → R a → tamed Γ' (k a) (on_ok Q)) → tamed Γ (m ≫= k) (on_ok Q).
Proof using.
  intros Hm Hr Hk. apply tame_bind. revert Γ Hm Hr Hk. induction m as [[a|e]|o p IH]; intros Γ Hm Hr Hk; cbn in *; [by apply Hk|done|].
  destruct Hm as [Ho Hm]. split; [by apply handle_quiet_safe|]. intros r _. apply IH; [apply Hm|apply Hr|]. intros Γ' a Hs. apply Hk. intros y Hy.
  apply Hs, elem_of_app. by right.
Qed.

(** *** The presentation works on the claimed document *)

Lemma finalise_tame Γ l pScope s c :
  (l, tt) ∈ Γ → tamed Γ (finalisePresentationVerification (gc_flow cfg) entropy l pScope s c) (on_ok anything).
Proof using.
  intros Hl. unfold finalisePresentationVerification. destruct (mget _ _); [|done]. quietly I. quietly I. destruct (documentObject _); [|done].
  apply tame_perform_bind; [split; [recall|intros d; by destruct f]|]. intros [] _.
  apply tame_perform_bind; [split; [recall|intros d; by destruct f]|]. intros [] _.
  apply tame_perform_bind; [cbn; recall|]. intros [[]|] _; [|done]. quietly I. destruct (ApplyDerivationsReplacing _ _ _ _) as [[]|[]]; [|done..].
  destruct (_ ≫= _); [|done]. quietly I. by quietly I.
Qed.

Lemma datastore_quiet l scope s c : quiet (datastore_documents (gc_flow cfg) l scope s c).
Proof. unfold datastore_documents, ResolveIdentifier, publishPresentedDocuments. quiet_walk. Qed.

Lemma credential_quiet l tok b : quiet (if IsMDocFormat tok then mdoc_credential (gc_flow cfg) mdoc_verifier of_dvalue l tok b else sdjwt_credential fuel trust l tok b).
Proof. unfold mdoc_credential, sdjwt_credential, holder_binding. quiet_walk. Qed.

Lemma consume_tame Γ l resp b :
  (l, tt) ∈ Γ → tamed Γ (consumeIssuanceAuthPresentation (gc_flow cfg) fuel trust mdoc_verifier of_dvalue entropy l resp b) (on_ok anything).
Proof using.
  intros Hl. unfold consumeIssuanceAuthPresentation. quietly I. destruct (matchScope _ _); [|done]. quietly I.
  destruct (default _ _); [done|]. destruct (PresentationFlow.answered _ _) as [[]|]; [|done]. destruct (str_empty _); [done|].
  destruct (_ && _); [done|]. destruct (negb _); [done|]. quietly credential_quiet. quietly I. quietly I. destruct (negb _); [done|]. quietly I.
  destruct (_ !! _); [case_bool_decide|].
  - apply tame_bind. eapply tame_mono; [apply finalise_tame; recall|]. by intros Γ' [[]|] _.
  - by quietly datastore_quiet.
  - by quietly datastore_quiet.
Qed.

(** *** The requests *)

Hypothesis h_nonempty : h ≠ "".

Lemma exchange_tame Γ l raw :
  (l, tt) ∈ Γ → tamed Γ (exchange_presentation cfg fuel trust mdoc_verifier of_dvalue entropy l raw) (on_ok anything).
Proof using.
  intros Hl. unfold exchange_presentation. quietly decode_quiet. destruct a as [resp key]. quietly (@or_internal_quiet string). quietly I.
  apply tame_bind. unfold presented. apply tame_pbind. eapply tame_mono; [apply consume_tame; recall|].
  intros Γ9 [o|e] _; [|done]. cbn [map_err tame on_ok]. quietly I. quietly I. quietly I.
  apply tame_perform_bind; [done|]. intros [[]|e] _; [|done]. by quietly I.
Qed.

Lemma saved_safe Γ (random : nat → option string) d :
  (∀ n, random n ≠ Some h) → random 0%nat = Some (AuthSession d) → IssuerState d = "" → f ≠ HRefreshToken →
  ∀ g, AuthSession (g d) = AuthSession d ∨ AuthSession (g d) = "" → IssuerState (g d) = IssuerState d → handle_safe f h Γ (OSave (g d)).
Proof using h_nonempty.
  intros Hr Ha Hi Hf g Hg Hg'. destruct f; cbn; [|congruence|done]. destruct Hg as [->| ->]; [|by apply not_eq_sym]. intros E. apply (Hr 0%nat). congruence.
Qed.

Lemma challenge_tame Γ random uuid new_key req :
  f ≠ HRefreshToken → (∀ n, random n ≠ Some h) →
  tamed Γ (OAuthAuthorizationChallenge cfg evaluator policy fuel trust mdoc_verifier of_dvalue entropy random uuid new_key req) (on_ok anything).
Proof using h_nonempty.
  intros Hf Hr. unfold OAuthAuthorizationChallenge. destruct (negb _); [done|]. destruct (_ && _); [done|].
  destruct (negb (str_empty (ch_AuthSession req))); [|destruct (negb _)].
  - unfold authorizationChallengeIntermediate. quietly resolve_session_quiet. quietly check_continuation_quiet.
    apply tame_perform_bind; [done|]. intros [l|e] _; [|by case_bool_decide]. cbn [handle_learn]. apply exchange_tame. recall.
  - unfold authorizationChallengePrepared. destruct (negb _); [done|]. destruct (str_empty _); [done|].
    quietly resolve_prepared_quiet. quietly first_scope_quiet. quietly check_resumption_quiet. destruct a1 as [required thumb].
    apply drawn_tame. intros session Es. quietly (@or_internal_quiet DCQL). quietly GenerateSecureToken_quiet. cbv zeta.
    quietly interactiveAuthorizationRequest_quiet. quietly I. quietly I. apply tame_perform_bind.
    + cbn. destruct f; cbn; [intros E; apply (Hr 0%nat); congruence|by apply not_eq_sym|done].
    + intros [l|e] _; [by quietly I|by case_bool_decide].
  - unfold authorizationChallengeInitial. destruct (negb _); [done|]. destruct (str_empty _); [done|]. destruct (str_empty _); [done|].
    quietly authenticateChallengeWallet_quiet. quietly interactionTypeForScope_quiet. destruct a0 as [required source].
    destruct (negb _); [done|]. quietly challenge_proof_quiet. case_bool_decide.
    + unfold requireWebInteraction. destruct (str_empty _); [done|]. destruct (str_empty _); [done|].
      eapply tame_returns_bind; [apply newChallengeAuthContext_quiet|apply newChallengeAuthContext_handles|]. intros Γ3 d _ [Ha Hi]. quietly I.
      apply tame_perform_bind; [|intros [l|e] _; [by quietly I|done]].
      apply (saved_safe _ random d Hr Ha Hi Hf (fun d => web_context d _ _ _)); [by right|done].
    + eapply tame_returns_bind; [apply newChallengeAuthContext_quiet|apply newChallengeAuthContext_handles|]. intros Γ3 d _ [Ha Hi].
      quietly (@or_internal_quiet DCQL). apply tame_perform_bind.
      * apply (saved_safe _ random d Hr Ha Hi Hf (set_dpop_and_query _ _)); [by left|done].
      * intros [l|e] _; [|done]. quietly interactiveAuthorizationRequest_quiet. by quietly I.
Qed.

(** The handle a request carries. *)
Definition carried (req : AuthorizationChallengeRequest) : string :=
  match f with HAuthSession => ch_AuthSession req | HIssuerState => ch_IssuerState req | HRefreshToken => "" end.

Lemma challenge_must Γ random uuid new_key req :
  carried req = h →
  must_call (without_handle f h) handle_learn (handle_spends f h) Γ
    (OAuthAuthorizationChallenge cfg evaluator policy fuel trust mdoc_verifier of_dvalue entropy random uuid new_key req).
Proof using h_nonempty.
  unfold carried. intros Hc. unfold OAuthAuthorizationChallenge. destruct (negb _); [done|].
  destruct (negb (str_empty (ch_AuthSession req)) && _) eqn:Eb; [done|]. destruct (str_empty (ch_AuthSession req)) eqn:Ea; cbn [negb andb] in *.
  - apply str_empty_true in Ea. destruct f; [congruence| |congruence]. rewrite Hc. rewrite (proj2 (str_empty_false h) h_nonempty). cbn [negb].
    unfold authorizationChallengePrepared. rewrite Hc. destruct (negb _); [done|]. destruct (str_empty _); [done|].
    do 3 (apply must_bind_r; intros ? ? _). case_match. do 3 (apply must_bind_r; intros ? ? _). cbv zeta.
    do 3 (apply must_bind_r; intros ? ? _). intros [l|e] _; cbn; [left; by rewrite !bool_decide_eq_true_2|right; by case_bool_decide].
  - apply negb_false_iff, str_empty_true in Eb. destruct f; [|congruence..].
    unfold authorizationChallengeIntermediate. rewrite Hc. apply must_bind_r. intros Γ1 l _. apply must_bind_r. intros Γ2 [] _.
    intros [l'|e] _; cbn; [left; by rewrite !bool_decide_eq_true_2|right; by case_bool_decide].
Qed.
End once.

(** A request together with the values it will draw. *)
Record challenge_call := mkCall { cl_random : nat → option string; cl_uuid : nat → string; cl_key : string → option string; cl_req : AuthorizationChallengeRequest }.
Definition challenge_handler (c : challenge_call) : H challenge_reply :=
  OAuthAuthorizationChallenge cfg evaluator policy fuel trust mdoc_verifier of_dvalue entropy (cl_random c) (cl_uuid c) (cl_key c) (cl_req c).
Definition challenges (cs : list challenge_call) : list (thread (result herror challenge_reply)) :=
  (fun c => mkThread (challenge_handler c) []) <$> cs.

(** C5: However requests to the challenge endpoint interleave with each other and with the rest of the system, of those
    that carry the same [auth_session] at most one is answered with an authorization code, and of those that carry the
    same [issuer_state] at most one is answered with an exchange.  Assumed: the handle is one session's when the run
    starts, nobody draws it again, and the rest of the system stores no document that still has it. *)
Theorem challenge_answered_once nested_valid f h sid0 w w' cs ts i j ci cj a b li lj :
  f ≠ HRefreshToken → h ≠ "" → handle_inv f h sid0 false (w_auth w) → Forall (fun c => ∀ n, cl_random c n ≠ Some h) cs →
  pool_run nested_valid (handle_env f h) (w, challenges cs) (w', ts) →
  cs !! i = Some ci → cs !! j = Some cj → carried f (cl_req ci) = h → carried f (cl_req cj) = h →
  ts !! i = Some (mkThread (Ret (Ok a)) li) → ts !! j = Some (mkThread (Ret (Ok b)) lj) →
  i = j ∧ a = b.
Proof.
  intros Hf Hh Hi Hrnd Hrun Hci Hcj Hki Hkj Hai Haj. assert (i = j) as ->; [|split; congruence].
  eapply (once nested_valid (without_handle f h) handle_learn (handle_safe f h) (handle_spends f h) (fun b w => handle_inv f h sid0 b (w_auth w))
            (handle_env f h)
            (fun b now o w Γ w' r => handle_op_step f h sid0 Hh Hf nested_valid b now o w Γ w' r)
            (fun b now e w => handle_env_step f h sid0 Hh nested_valid b now e w)
            w (challenge_handler <$> cs)); [done| | | | | | |done|done].
  - apply Forall_fmap. eapply Forall_impl; [exact Hrnd|]. intros c Hr. by apply challenge_tame.
  - rewrite <- list_fmap_compose. exact Hrun.
  - rewrite list_lookup_fmap. exact (f_equal (fmap _) Hci).
  - rewrite list_lookup_fmap. exact (f_equal (fmap _) Hcj).
  - by apply challenge_must.
  - by apply challenge_must.
Qed.
End endpoint.

(** * What an authorization code rests on

    Before the challenge endpoint hands out a code it has seen a proof of the key
    the exchange was opened with, has claimed the handle, and has verified a
    presentation for the exchange whose holder signed it ([code_on_grounds]); what
    it publishes in between rests on the same presentation.  This holds in every
    interleaving. *)

Section grounds.
Context `{JSON} `{Arch} `{Hashes} `{Sig : Signatures} `{!SdEnv} `{TxJSON} `{Text} `{Countries} `{LocalTime} `{Times} `{NumberText}.
Context `{CBORRaw} `{CoseVerify} `{MdocCBOR} `{ResponseCBOR} `{FlowEnv} `{QueryValues} `{RequestEnv} `{ChallengeEnv}.
Context `{NetURL} `{NetAddr} `{ProofParser} `{AssertionParser}.
Variable cfg : gateway_config.
Variable evaluator : option (string → string → string → option attestation).
Variable policy : string → string → string → bool.
Variable fuel : nat.
Variable trust : Z → JWTTrustVerifier.
Variable mdoc_verifier : option Verifier.
Variable of_dvalue : dvalue → pvalue.
Variable entropy : Entropy.

Abbreviation ia := (gc_ia cfg).
Abbreviation public_url := (PublicURL (gc_oauth cfg)).
Abbreviation endpoint := (ChallengeEndpoint ia public_url).

(** ** The grounds *)

(** The request comes from the wallet that opened the exchange: a proof for this
    endpoint, not seen before, by the key the session behind the handle is bound
    to, before the session's deadline. *)
Definition continued_by_owner (req : AuthorizationChallengeRequest) (log : list event) : Prop :=
  ∃ l d d' now now' dpop,
    call (OGet (by_auth_session (ch_AuthSession req))) (Ok l) ∈ log ∧
    call (OLoad l) d ∈ log ∧ call ONow now ∈ log ∧ expired (ExpiresAt d) now = false ∧
    call ONow now' ∈ log ∧ ValidateAndParseDPoPJWT now' (ch_DPOP req) = Ok dpop ∧ call (OJTI (JTI dpop) 0) true ∈ log ∧
    SameHTU (HTU dpop) endpoint = true ∧ HTM dpop = "POST" ∧
    call (OLoad l) d' ∈ log ∧ Thumbprint dpop = AuthSessionDPoPThumbprint d'.

(** The handle was claimed, for the session at [l]. *)
Definition claimed (req : AuthorizationChallengeRequest) (log : list event) (l : loc) : Prop :=
  continued_by_owner req log ∧ call (OClaimSession (ch_AuthSession req)) (Ok l) ∈ log.

(** The answer was encrypted, the way the request asked for, to the key of the
    session. *)
Definition decrypted (req : AuthorizationChallengeRequest) (log : list event) (l : loc) (key : string) (resp : VPResponse) : Prop :=
  ∃ response d raw state, envelope_of (ch_OpenID4VPResponse req) = Some (response, "") ∧ call (OLoad l) d ∈ log ∧
    call (OKey (EphemeralEncryptionKeyID d)) (Some key) ∈ log ∧ validateInteractiveAuthorizationJWE response = true ∧
    jwe_open response key = Some (raw, state) ∧ UnmarshalVPResponse raw state = Ok resp.

(** The answer and what it must be bound to. *)
Definition challenge_answer (req : AuthorizationChallengeRequest) (log : list event) (l : loc) (resp : VPResponse) (b : issuanceAuthBinding) : Prop :=
  ∃ key audience d, claimed req log l ∧ decrypted req log l key resp ∧ PresentationAudience ia public_url = Some audience ∧
    call (OLoad l) d ∈ log ∧ b = challenge_binding cfg audience key (State d).

Definition challenge_grounds (req : AuthorizationChallengeRequest) (log : list event) (o : op) : Prop :=
  match o with
  | OAssign _ _ | OSetIdentifier _ _ | ODocumentSet _ _ =>
      ∃ l resp b, challenge_answer req log l resp b ∧ grounds (gc_flow cfg) fuel trust mdoc_verifier of_dvalue entropy b resp l log o
  | _ => True
  end.

(** A code: of the session whose handle was claimed, after a presentation was
    verified and its documents were published. *)
Definition code_grounds (req : AuthorizationChallengeRequest) (log : list event) (code : string) : Prop :=
  ∃ l resp b scope authScope credential d,
    challenge_answer req log l resp b ∧
    verified_presentation (gc_flow cfg) fuel trust mdoc_verifier of_dvalue b resp log l scope authScope credential ∧
    published log l ∧ call (OLoad l) d ∈ log ∧ code = Code d.

Definition reply_grounds (req : AuthorizationChallengeRequest) (log : list event) (reply : challenge_reply) : Prop :=
  match reply with CodeResponse code => code_grounds req log code | _ => True end.

Lemma owner_mono req log log' : log ⊆ log' → continued_by_owner req log → continued_by_owner req log'.
Proof.
  intros Hs (l & d & d' & t & t' & p & E1 & E2 & E3 & E4 & E5 & E6 & E7 & E8 & E9 & E10 & E11). exists l, d, d', t, t', p.
  split_and!; try done; [by apply Hs|by apply Hs|by apply (Hs (call ONow t))|by apply (Hs (call ONow t'))|by apply (Hs (call (OJTI _ _) true))|by apply Hs].
Qed.
Lemma challenge_answer_mono req log log' l resp b : log ⊆ log' → challenge_answer req log l resp b → challenge_answer req log' l resp b.
Proof.
  intros Hs (key & aud & d & [Ho Hc] & (r & d' & raw & st & D1 & D2 & D3 & D4) & Ha & Hd & Hb). exists key, aud, d.
  split_and!; [split; [by eapply owner_mono|by apply Hs]| |done|by apply Hs|done].
  exists r, d', raw, st. split_and!; [done|by apply Hs|by apply (Hs (call (OKey _) _))|apply D4..].
Qed.

(** ** The steps *)

(** Errors renamed. *)
Lemma watch_map_err {E E' A} Φ (g : E → E') (m : handler E A) Q log :
  watch Φ log m (ok_then Q) → watch Φ log (pbind (fun r => Ret (map_err g r)) m) (ok_then Q).
Proof. revert log. induction m as [[a|e]|o k IH]; intros log; cbn; [done..|]. intros [Ho Hk]. split; [done|]. auto. Qed.

Section request.
Variable req : AuthorizationChallengeRequest.
Abbreviation watched := (watch (challenge_grounds req)).

Lemma proof_watched log proof htu :
  watched log (dpopProofThumbprint proof htu) (ok_then (fun log' t => ∃ now dpop, call ONow now ∈ log' ∧
    ValidateAndParseDPoPJWT now proof = Ok dpop ∧ call (OJTI (JTI dpop) 0) true ∈ log' ∧ SameHTU (HTU dpop) htu = true ∧
    HTM dpop = "POST" ∧ t = Thumbprint dpop)).
Proof.
  unfold dpopProofThumbprint, burn_jti. apply watch_perform; [done|]. intros now. destruct (ValidateAndParseDPoPJWT now proof) as [dpop|] eqn:Ev; [|done].
  apply watch_perform; [done|]. intros [|]; [|done]. cbn [negb]. destruct (SameHTU _ _) eqn:Eh; [|done]. cbn [negb].
  destruct (bool_decide_reflect (HTM dpop = "POST")); [|done]. cbn. exists now, dpop. split_and!; [set_solver|done|set_solver|done..].
Qed.

Lemma check_continuation_watched log l :
  call (OGet (by_auth_session (ch_AuthSession req))) (Ok l) ∈ log →
  watched log (check_continuation cfg l req) (ok_then (fun log' _ => continued_by_owner req log')).
Proof.
  intros Hl. unfold check_continuation. apply watch_perform; [done|]. intros d. apply watch_perform; [done|]. intros now.
  destruct (expired _ _) eqn:Ee; [done|]. apply watch_perform; [done|]. intros d1. destruct (_ && _); [done|]. destruct (str_empty _); [done|].
  apply watch_perform; [done|]. intros d2. destruct (str_empty _); [done|]. eapply watch_bind; [apply proof_watched|].
  intros log1 t Hs (now' & dpop & Hn & Hv & Hj & Hh & Hm & ->). apply watch_perform; [done|]. intros d3.
  destruct (bool_decide_reflect (Thumbprint dpop = AuthSessionDPoPThumbprint d3)) as [Et|]; [|done]. cbn [negb]. destruct (str_empty _); [done|].
  cbn. exists l, d, d3, now, now', dpop. split_and!; first [done|set_solver].
Qed.

Lemma decode_watched log l :
  watched log (decodeInteractiveAuthorizationResponse l (ch_OpenID4VPResponse req))
    (ok_then (fun log' rk => decrypted req log' l (snd rk) (fst rk))).
Proof.
  unfold decodeInteractiveAuthorizationResponse. destruct (envelope_of _) as [[response err]|] eqn:Ee; [|done].
  destruct (str_empty err) eqn:Er; [|done]. apply str_empty_true in Er as ->. cbn [negb]. destruct (str_empty _); [done|].
  apply watch_perform; [done|]. intros d. apply watch_perform; [done|]. intros [key|]; [|done].
  destruct (validateInteractiveAuthorizationJWE _) eqn:Ev; [|done]. cbn [negb]. destruct (jwe_open _ _) as [[raw state]|] eqn:Ej; [|done].
  destruct (UnmarshalVPResponse _ _) as [resp|] eqn:Eu; [|done]. cbn. exists response, d, raw, state. split_and!; [done|set_solver|set_solver|done..].
Qed.

(** A handler that publishes nothing and returns no code. *)
Definition publishes (o : op) : bool := match o with OAssign _ _ | OSetIdentifier _ _ | ODocumentSet _ _ => true | _ => false end.
Definition not_a_code (reply : challenge_reply) : Prop := match reply with CodeResponse _ => False | _ => True end.

Lemma no_code_watched log (p : H challenge_reply) :
  only (fun o => negb (publishes o)) p → returns p not_a_code → watched log p (ok_then (reply_grounds req)).
Proof.
  revert log. induction p as [[a|e]|o k IH]; intros log; cbn; [by destruct a|done|]. intros [Ho Hk] Hr. split; [by destruct o|]. auto.
Qed.

Ltac inert := repeat first [done | apply only_bind; [|intros ?] | case_match].
Lemma prepared_quietly random new_key : only (fun o => negb (publishes o)) (authorizationChallengePrepared cfg evaluator policy random new_key req).
Proof.
  unfold authorizationChallengePrepared, resolve_prepared, first_scope, check_resumption, authenticateChallengeWallet, authenticateOAuthClient, evaluate,
    carried_attestation, interactionTypeForScope, challenge_proof, dpopProofThumbprint, burn_jti, GenerateSecureToken,
    interactiveAuthorizationRequest, buildIssuanceAuthRequestObject, EphemeralEncryptionKey, ephemeralKeyPair, or_internal. inert.
Qed.
Lemma initial_quietly random uuid new_key : only (fun o => negb (publishes o)) (authorizationChallengeInitial cfg evaluator policy random uuid new_key req).
Proof.
  unfold authorizationChallengeInitial, requireWebInteraction, newChallengeAuthContext, HostFromURL, authenticateChallengeWallet, authenticateOAuthClient,
    evaluate, carried_attestation, interactionTypeForScope, challenge_proof, dpopProofThumbprint, burn_jti, GenerateSecureToken,
    interactiveAuthorizationRequest, buildIssuanceAuthRequestObject, EphemeralEncryptionKey, ephemeralKeyPair, or_internal. inert.
Qed.

Ltac no_code := repeat first [done | apply (returns_bind _ _ (fun _ => True)); [apply returns_any|intros ? _] | case_match].
Lemma prepared_no_code random new_key : returns (authorizationChallengePrepared cfg evaluator policy random new_key req) not_a_code.
Proof. unfold authorizationChallengePrepared. no_code. Qed.
Lemma initial_no_code random uuid new_key : returns (authorizationChallengeInitial cfg evaluator policy random uuid new_key req) not_a_code.
Proof. unfold authorizationChallengeInitial, requireWebInteraction. no_code. Qed.

Lemma exchange_watched log l :
  claimed req log l →
  watched log (exchange_presentation cfg fuel trust mdoc_verifier of_dvalue entropy l (ch_OpenID4VPResponse req)) (ok_then (reply_grounds req)).
Proof.
  intros [Ho Hc]. unfold exchange_presentation. eapply watch_bind; [apply decode_watched|]. intros log1 [resp key] Hs1 Hdec. cbn [fst snd] in Hdec.
  destruct (PresentationAudience _ _) as [audience|] eqn:Ea; [|done]. apply watch_lift. intros ? [= <-].
  apply watch_perform; [done|]. intros d. match goal with |- watch _ ?lg _ _ => set (log2 := lg) end.
  set (b := challenge_binding cfg audience key (State d)).
  assert (challenge_answer req log2 l resp b) as Hans.
  { assert (log1 ⊆ log2) as Hs2 by (unfold log2; set_solver). assert (log ⊆ log2) as Hs0 by set_solver.
    exists key, audience, d. split_and!; [split; [by eapply owner_mono|by apply Hs0]| |done|unfold log2; set_solver|done].
    destruct Hdec as (r & d' & raw & st & D1 & D2 & D3 & D4). exists r, d', raw, st. split_and!; [done|set_solver|set_solver|apply D4..]. }
  eapply watch_bind.
  { apply watch_map_err. eapply watch_weaken; [|apply (consume_watched (gc_flow cfg) fuel trust mdoc_verifier of_dvalue entropy b resp l)].
    intros log' o Hs Hg. destruct o; try done; exists l, resp, b; (split; [by eapply challenge_answer_mono|done]). }
  intros log3 outcome Hs3 (scope & authScope & credential & Hv & Hp). apply watch_perform; [done|]. intros d1. apply watch_perform; [done|]. intros now.
  apply watch_perform; [done|]. intros d2. apply watch_perform; [done|]. intros [[]|]; [|done]. apply watch_perform; [done|]. intros d3. cbn.
  exists l, resp, b, scope, authScope, credential, d3. split_and!; [| | |set_solver|done].
  - eapply challenge_answer_mono; [|exact Hans]. set_solver.
  - eapply verified_mono; [|exact Hv]. set_solver.
  - destruct Hp as (d4 & docs & P1 & P2). exists d4, docs. split; set_solver.
Qed.

Lemma challenge_watched random uuid new_key log :
  watched log (OAuthAuthorizationChallenge cfg evaluator policy fuel trust mdoc_verifier of_dvalue entropy random uuid new_key req)
    (ok_then (reply_grounds req)).
Proof.
  unfold OAuthAuthorizationChallenge. destruct (negb _); [done|]. destruct (_ && _); [done|].
  destruct (negb (str_empty (ch_AuthSession req))); [|destruct (negb _)].
  - unfold authorizationChallengeIntermediate.
    eapply (watch_bind _ _ _ _ (fun log' l => call (OGet (by_auth_session (ch_AuthSession req))) (Ok l) ∈ log')).
    { unfold resolve_session. apply watch_perform; [done|]. intros [l|e]; [cbn; set_solver|by case_bool_decide]. }
    intros log1 l Hs1 Hl. eapply watch_bind; [by apply check_continuation_watched|]. intros log2 [] Hs2 Ho.
    apply watch_perform; [done|]. intros [l'|e]; [|by case_bool_decide]. apply exchange_watched. split; [eapply owner_mono; [|done]|]; set_solver.
  - apply (no_code_watched log (authorizationChallengePrepared cfg evaluator policy random new_key req)); [apply prepared_quietly|apply prepared_no_code].
  - apply (no_code_watched log (authorizationChallengeInitial cfg evaluator policy random uuid new_key req)); [apply initial_quietly|apply initial_no_code].
Qed.
End request.

(** C4: In every interleaving, a code that the challenge endpoint hands out is the code of the session whose handle the
    request claimed, and it is handed out only after: a proof for this endpoint, not seen before, by the key the session
    was opened with, before its deadline; and a presentation, encrypted to the key of the session, that carries the
    session's state, answers its query, is of the type that was asked for, satisfies the rule the session was prepared
    with, is vouched for by a trusted issuer and was signed for this endpoint and the session's nonce by the holder its
    issuer bound it to; with the documents published for it.  Whatever is published on the way rests on that same
    presentation. *)
Theorem code_on_grounds nested_valid P w w' cs ts i c p log :
  pool_run nested_valid P (w, challenges cfg evaluator policy fuel trust mdoc_verifier of_dvalue entropy cs) (w', ts) →
  cs !! i = Some c → ts !! i = Some (mkThread p log) →
  (∀ code, p = Ret (Ok (CodeResponse code)) → code_grounds (cl_req c) log code) ∧
  (∀ n o r, log !! n = Some (call o r) → challenge_grounds (cl_req c) (take n log) o).
Proof.
  intros Hr Hi Ht.
  assert (thread_ok (challenge_grounds (cl_req c)) (ok_then (reply_grounds (cl_req c))) (mkThread p log)) as [Hw Hok].
  { refine (watched_run (challenge_grounds (cl_req c)) nested_valid P (ok_then (reply_grounds (cl_req c))) i _ _ Hr _ _ Ht).
    intros th Hth. cbn [snd] in Hth. unfold challenges in Hth. rewrite list_lookup_fmap, Hi in Hth. injection Hth as <-.
    split; [apply challenge_watched|]. by intros m o' a Hm. }
  split; [|exact Hok]. intros code ->. exact Hw.
Qed.
End grounds.

(** ** Encryption *)

(** The encryption that is accepted is the one the request advertises. *)
Section encryption.
Context `{ChallengeEnv}.

(** A response is taken for decryption exactly when it is a compact JWE under the key agreement the request was
    made for, with a content encryption that the request object of the exchange advertises, not compressed and without
    critical extensions: a wallet that picks what it was offered is not refused for it, and nothing that was not offered
    reaches the decryption. *)
Theorem advertised_encryption_accepted response responseMode origin base :
  validateInteractiveAuthorizationJWE response = true ↔
  isCompactJWE response = true ∧
  ∃ headers enc, jwe_Parse response = Some headers ∧ jh_alg headers = Some iaResponseAlg ∧ jh_enc headers = Some enc ∧
    enc ∈ md_EncryptedResponseEncValuesSupported (ro_ClientMetadata (WithInteractiveAuthorization responseMode origin base)) ∧
    (jh_zip headers = None ∨ jh_zip headers = Some "") ∧ jh_crit headers = false.
Proof.
  unfold validateInteractiveAuthorizationJWE. rewrite andb_true_iff. apply and_iff_compat_l. destruct (jwe_Parse response) as [[alg enc zip crit]|]; [|naive_solver].
  cbn [jh_alg jh_enc jh_zip jh_crit WithInteractiveAuthorization narrowed_metadata ro_ClientMetadata md_EncryptedResponseEncValuesSupported].
  rewrite !andb_true_iff, bool_decide_eq_true, negb_true_iff. destruct enc as [enc|]; [rewrite bool_decide_eq_true|naive_solver].
  destruct zip as [zip|]; [rewrite str_empty_true|]; naive_solver.
Qed.
End encryption.
