(* ===== verification/ChallengeWitness.v ===== *)
(** * An issuance prepared for Ada, at a concrete gateway

    The university prepares a diploma for a person it has authenticated.  Ada's
    wallet resumes that issuance, is asked for her identity credential and
    exchanges it for an authorization code.  The theorems on the queries, on the
    grounds of a code and on the handles are applied to these runs; others who
    hold the handles are refused. *)

From stdpp Require Import relations.
From S2P Require Import Prelude Bytes GoStrings GoValue Base64 Utf8 Json Jwt SdJwt SdJwtVerify SdJwtIssue SdJwtWitness JsonDoc Dcql DcqlWitness TokenStatusListCWT Cose MdocSchema Mdoc MdocDevice MdocWitness ClaimPaths Derivations AuxiliaryData ClaimsWitness OAuth2 AuthContext AuthStore AuthStoreSteps GenericCache IssuerClient Handlers HandlersSafety TokenEndpoint TokenWitness KeyProofs PresentationDoc CredentialRequest CredentialEndpoint VpToken PresentedClaims PresentationFlow PresentationSafety PresentationWitness IssuanceRequest ChallengeEndpoint IssuancePreparation IssuanceRequestFacts ChallengeSafety.

#[local] Existing Instances toy_cbor toy_hash any_verify toy_mdoc toy_raw toy_response.
#[local] Existing Instances amd64 no_rfc3339 no_rfc3339_laws no_numbers toy_tx.

(** ** Parameters *)

(** A sealed response is a compact JWE whose ciphertext is its text, with the name
    of the key it was encrypted to. *)
Definition sealed_body (response : string) : option jobject :=
  match Split "." response with [_; _; _; body; _] => unb64 body ≫= UnmarshalMap | _ => None end.
#[local] Instance sealed_flow : FlowEnv := {|
  jwe_open response key :=
    m ← sealed_body response;
    if bool_decide (str_field m "key" = key) then Some (m !! "vp_token", str_field m "state") else None;
  struct_kid s := m ← UnmarshalMap s; Some (str_field m "kid");
  public_thumbprint _ := Some [1];
  peek_documents _ := None;
  peek_zk _ := None
|}.

Definition text_of (v : goval) : string := match v with GString s => s | _ => "" end.
#[local] Instance context_views : ContextViews := {|
  query_ids v := match v with GStrings l => l | _ => [] end;
  rule_tests v := match v with GMap m => map (fun e => (fst e, text_of (snd e))) m | _ => [] end
|}.
#[local] Instance query_values : QueryValues.
Proof. refine {| of_dcql q := GStrings (map ID (default [] (Credentials q))) |}. reflexivity. Defined.
#[local] Instance rule_values : RuleValues.
Proof.
  refine {| of_rule m := GMap (map (fun e => (fst e, GString (snd e))) (map_to_list m)) |}.
  intros m. cbn. rewrite map_map, (map_ext _ id), map_id; [reflexivity|]. by intros [].
Defined.

#[local] Instance signer : RequestEnv := {|
  public_half key := Some ("public half of " +:+ key);
  sign_request r := Some (ro_Nonce r +:+ " for " +:+ ro_State r)
|}.
#[local] Instance envelopes : ChallengeEnv := {|
  envelope_of raw := m ← UnmarshalMap raw; Some (str_field m "response", str_field m "error");
  jwe_Parse response :=
    m ← match Split "." response with header :: _ => unb64 header ≫= UnmarshalMap | [] => None end;
    Some (mkJweHeaders (Some (str_field m "alg")) (Some (str_field m "enc")) None false)
|}.
#[local] Instance no_addresses : NetAddr := {| addr_Parse _ := None |}.

Definition gateway_url := "https://gateway.example".
Definition challenge_endpoint_url := "https://gateway.example/authorize-challenge".
(** A proof is the two letters of its key and an identifier. *)
#[local] Instance challenge_proofs : ProofParser :=
  {| parse_proof _ p := Some ("dpop+jwt", mkDPoP p "POST" challenge_endpoint_url 100 "" (String.substring 0 2 p)) |}.

Definition wallet_cfg : config :=
  mkConfig token_url gateway_url {[ "wallet" := Some (mkClient ClientTypePublic [cb] ["diploma"] "") ]}
    [authorization_code] 86400 false true false (fun _ => None).
Definition challenge_cfg : gateway_config :=
  mkGatewayConfig gateway_cfg wallet_cfg (mkIA true "" "" "" "" "" 0 []) ∅ ∅ (Some (false, false)) ∅ GNil false.

(** ** The offer *)

Definition for_ada : PrepareIssuanceRequest := mkPrepare "diploma" {["person_id" := "ada-1"]} "university" 0.
Definition records_world : world := mkWorld (mkStore ∅ 0 ∅ ∅ []) ∅ ∅ ∅ ∅ records.
Definition offer_made (req : PrepareIssuanceRequest) :=
  exec all_valid (at_second 90) 0 (PrepareIssuance challenge_cfg gateway_url (drawn 0) (named 0) req) records_world.

(** The offer carries the handle; a rule the presentation cannot be tested
    against, or one for another source, makes none. *)
Example offers_made :
  (offer_made for_ada).2 = Ok (mkPrepared gateway_url "diploma" "r04" "r00" 390) ∧
  (offer_made (mkPrepare "diploma" {["shoe_size" := "38"]} "university" 0)).2 = Err (HOAuth "invalid_identity_match" 400) ∧
  (offer_made (mkPrepare "diploma" {["person_id" := "ada-1"]} "hospital" 0)).2 = Err (HOAuth "authentic_source_mismatch" 403) ∧
  (offer_made (mkPrepare "diploma" ∅ "university" 0)).2 = Err (HOAuth "invalid_identity_match" 400).
Proof. split_and!; vm_compute; reflexivity. Qed.

Definition asked_for : list (string * list string) :=
  match issuanceAuthDCQL challenge_cfg "diploma" with
  | Some q => map (fun c => (ID c, omap (fun s => s) (concat (map cq_Path (Dcql.Claims c))))) (default [] (Credentials q))
  | None => []
  end.
Example ada_is_asked : asked_for = [("pid", ["person_id"; "birthdate"])].
Proof. vm_compute. reflexivity. Qed.

(** A rule on a claim that is asked for to be copied into the document, and not to
    identify the person, makes no offer either. *)
Example asked_claim_refused :
  asked_for !! 0%nat = Some ("pid", ["person_id"; "birthdate"]) ∧
  (offer_made (mkPrepare "diploma" {["birthdate" := "1990-01-15"]} "university" 0)).2 = Err (HOAuth "invalid_identity_match" 400).
Proof. split; vm_compute; reflexivity. Qed.

Lemma issuance_query_exact_witness :
  ∃ dcql queries, issuanceAuthDCQL challenge_cfg "diploma" = Some dcql ∧ Credentials dcql = Some queries ∧
    ∀ q, q ∈ queries → ValidateCredentialQuery q = Ok tt ∧ RequiresCryptographicHolderBinding q = true.
Proof.
  destruct (issuanceAuthDCQL challenge_cfg "diploma") as [dcql|] eqn:E; [|vm_compute in E; discriminate E].
  destruct (issuance_query_exact challenge_cfg "diploma" dcql E) as (authScopes & queries & _ & _ & Hq & _ & _ & Hall & _).
  exists dcql, queries. split_and!; [reflexivity|exact Hq|]. intros q Hin. destruct (Hall q Hin) as (entry & _ & Ha).
  exact (conj (af_valid _ _ _ Ha) (af_bound _ _ _ Ha)).
Defined.

(** A path with a NUL byte has the key of another path: the rule is taken for one
    on a claim that is asked for, though no claim of that name is. *)
Definition nul : string := String (Ascii.ascii_of_nat 0) "".
Theorem nul_path_covered :
  coversAll "dc+sd-jwt" ["a.b"] ["a" +:+ nul +:+ "b"] = true ∧
  authClaimPathSegments "dc+sd-jwt" "a.b" = ["a"; "b"] ∧
  authClaimPathSegments "dc+sd-jwt" ("a" +:+ nul +:+ "b") = ["a" +:+ nul +:+ "b"].
Proof. split_and!; vm_compute; reflexivity. Qed.

(** ** The exchange *)

Definition resumption (proof : string) : AuthorizationChallengeRequest :=
  mkChallenge "code" "wallet" "" cb "challenge" "S256" "urn:openid:dcp:ia:openid4vp_presentation" "" "r00" "" "" "" "" proof.
Definition challenged (k : nat) (second : Z) (req : AuthorizationChallengeRequest) (w : world) :=
  exec all_valid (at_second second) 0
    (OAuthAuthorizationChallenge challenge_cfg None toy_policy 10 pid_trust None (fun _ => PNil) fixed_draws
       (drawn k) (named k) (fun kid => Some ("key " +:+ kid)) req) w.

Definition opened := challenged 1 100 (resumption "k1-proof-000001") (offer_made for_ada).1.

(** The answer of a wallet. *)
Definition text (members : jobject) : string := default "" (Marshal (JObj members)).
Definition sealed (key state token : string) : string :=
  let header := text (<["alg" := JStr "ECDH-ES"]> {["enc" := JStr "A256GCM"]}) in
  let body := text (<["key" := JStr key]> (<["state" := JStr state]> {["vp_token" := JObj {["pid" := JStr token]}]})) in
  text {["response" := JStr (b64 header +:+ ".." +:+ b64 "iv" +:+ "." +:+ b64 body +:+ "." +:+ b64 "tag")]}.
Definition audience := "ia:https://gateway.example".
Definition answer_with (proof state token : string) : AuthorizationChallengeRequest :=
  mkChallenge "" "" "" "" "" "" "" "r10" "" (sealed "key r11" state token) "" "" "" proof.
Definition adas : string := presentation "urn:pid" "r01" audience "ada" ∅.

Example ada_gets_a_code :
  opened.2 = Ok (PresentationRequired "urn:openid:dcp:ia:openid4vp_presentation" "r10" (text {["request" := JStr "r01 for r03"]})) ∧
  (challenged 2 110 (answer_with "k1-proof-000002" "r03" adas) opened.1).2 = Ok (CodeResponse "u01").
Proof. split; vm_compute; reflexivity. Qed.

(** Refused: a proof signed by another than the holder, a credential for another
    request or of another type, another wallet, another exchange's state, a second
    answer, a second resumption, and a rule for someone else. *)
Definition answered_with (proof state token : string) := (challenged 2 110 (answer_with proof state token) opened.1).2.
Definition for_bob := challenged 1 100 (resumption "k1-proof-000001") (offer_made (mkPrepare "diploma" {["person_id" := "bob-2"]} "" 0)).1.
Example others_get_none :
  answered_with "k1-proof-000002" "r03" (presentation "urn:pid" "r01" audience "eve" ∅) = Err (HOAuth ErrCodeInvalidGrant 400) ∧
  answered_with "k1-proof-000002" "r03" (presentation "urn:pid" "nonce-1" audience "ada" ∅) = Err (HOAuth ErrCodeInvalidGrant 400) ∧
  answered_with "k1-proof-000002" "r03" (presentation "urn:pid" "r01" verifier_name "ada" ∅) = Err (HOAuth ErrCodeInvalidGrant 400) ∧
  answered_with "k1-proof-000002" "r03" (presentation "urn:card" "r01" audience "ada" ∅) = Err (HOAuth ErrCodeInvalidGrant 400) ∧
  answered_with "k2-proof-000002" "r03" adas = Err (HOAuth ErrCodeInvalidDPoPProof 400) ∧
  answered_with "k1-proof-000001" "r03" adas = Err (HOAuth ErrCodeInvalidDPoPProof 400) ∧
  answered_with "k1-proof-000002" "r09" adas = Err (HOAuth ErrCodeInvalidGrant 400) ∧
  (challenged 3 111 (answer_with "k1-proof-000003" "r03" adas)
     (challenged 2 110 (answer_with "k1-proof-000002" "r03" adas) opened.1).1).2 = Err (HOAuth errInvalidSession 400) ∧
  (challenged 3 111 (resumption "k2-proof-000003") opened.1).2 = Err (HOAuth ErrCodeInvalidGrant 400) ∧
  (challenged 2 110 (answer_with "k1-proof-000002" "r03" adas) for_bob.1).2 = Err (HOAuth ErrCodeInvalidGrant 400).
Proof. split_and!; vm_compute; reflexivity. Qed.

(** ** Two answers at once *)

Definition answer_call (k : nat) (proof : string) : challenge_call :=
  mkCall (drawn k) (named k) (fun kid => Some ("key " +:+ kid)) (answer_with proof "r03" adas).
Definition answers : list challenge_call := [answer_call 2 "k1-proof-000002"; answer_call 3 "k1-proof-000003"].
Abbreviation waiting := (challenges challenge_cfg None toy_policy 10 pid_trust None (fun _ => PNil) fixed_draws).
Definition answers_raced := pool_schedule all_valid (in_turn 40) (opened.1, waiting answers).

Lemma opened_cache : cache (w_auth opened.1) = {["u00" := mkItem 2 (1000 * second)]}.
Proof. vm_compute. reflexivity. Qed.
Lemma opened_handle : handle_inv HAuthSession "r10" "u00" false (w_auth opened.1).
Proof.
  split.
  - intros sid it. rewrite opened_cache, lookup_singleton_Some. intros [<- <-]. split; [vm_compute; lia|].
    split; [vm_compute; reflexivity|]. intros _. split_and!; [reflexivity|reflexivity|discriminate].
  - intros sid. vm_compute. intros [= <-]. by split.
Qed.

Lemma answers_outcome :
  t_prog <$> answers_raced.2 !! 0%nat = Some (Ret (Ok (CodeResponse "u01"))) ∧
  (outcome <$> answers_raced.2) !! 1%nat = Some (Some (Err (HOAuth errInvalidSession 400))).
Proof. split; vm_compute; reflexivity. Qed.
Definition first_log : list event := match answers_raced.2 !! 0%nat with Some th => t_log th | None => [] end.
Lemma first_answer : answers_raced.2 !! 0%nat = Some (mkThread (Ret (Ok (CodeResponse "u01"))) first_log).
Proof.
  pose proof (proj1 answers_outcome) as H. unfold first_log. destruct (answers_raced.2 !! 0%nat) as [[p log]|]; [|discriminate H].
  injection H as ->. reflexivity.
Qed.

(** One code; the other answer finds the handle gone. *)
Lemma challenge_answered_once_witness :
  (outcome <$> answers_raced.2) !! 1%nat = Some (Some (Err (HOAuth errInvalidSession 400))) ∧
  ∀ j b log, (j < 2)%nat → answers_raced.2 !! j = Some (mkThread (Ret (Ok b)) log) → 0%nat = j ∧ CodeResponse "u01" = b.
Proof.
  split; [exact (proj2 answers_outcome)|]. intros j b log Hj Hb.
  assert (∃ c, answers !! j = Some c ∧ carried HAuthSession (cl_req c) = "r10") as (c & Hc & Hs)
    by (destruct j as [|[|j]]; [eexists; split; reflexivity..|lia]).
  refine (challenge_answered_once challenge_cfg None toy_policy 10 pid_trust None (fun _ => PNil) fixed_draws all_valid HAuthSession "r10" "u00"
            opened.1 answers_raced.1 answers answers_raced.2 0%nat j _ c _ b first_log log _ _ opened_handle _ _ eq_refl Hc _ Hs first_answer Hb).
  - discriminate.
  - discriminate.
  - repeat constructor; intros n [=].
  - rewrite <- surjective_pairing. apply pool_schedule_run.
  - reflexivity.
Defined.

Lemma code_on_grounds_witness :
  code_grounds challenge_cfg 10 pid_trust None (fun _ => PNil) (answer_with "k1-proof-000002" "r03" adas) first_log "u01".
Proof.
  refine (proj1 (code_on_grounds challenge_cfg None toy_policy 10 pid_trust None (fun _ => PNil) fixed_draws all_valid (fun _ _ => True)
            opened.1 answers_raced.1 answers answers_raced.2 0%nat (answer_call 2 "k1-proof-000002") _ first_log _ eq_refl first_answer) "u01" eq_refl).
  rewrite <- surjective_pairing. apply pool_schedule_run.
Defined.
